(* ===== verification/_CoqProject ===== *)
-Q . S2P
Prelude.v
Numerals.v
JobTable.v
Json.v
BackgroundJobs.v
WorkflowEvents.v
RunLifecycle.v
RunAllocator.v
Outbox.v
PrMutex.v
ReviewPayload.v
ReviewJobs.v
Cron.v
Scheduler.v
CostCap.v
Retry.v
ReviewRunner.v
Findings.v
Aggregation.v
WorkspaceLease.v
FanOut.v
Arbitration.v
PathMatch.v
PipelineHelpers.v
Degradation.v
Orchestrator.v
OrchestratorProofs.v
Mt19937.v
Text.v
Regex.v
Redaction.v
HtmlEntities.v
OutputSafety.v
IssueLinks.v
WebhookPayload.v
PrPersistence.v
Repair.v
ReviewDispatch.v
WebhookIngest.v
ShellMutex.v
JobShell.v
Programs.v
GithubApi.v
GithubReviews.v
PostRender.v
PostReview.v
PostContract.v
Uuid5.v
FindingStore.v
ArbitrationApply.v
ChunkText.v
Chunking.v
ChunkAndRedact.v
ChunkPasses.v
LlmLedger.v
LlmClient.v
CostJournal.v
Utf8.v
SecretSpans.v
ChunkParse.v
ChunkReview.v
SafetyAudit.v
