(* ===== verification/Prelude.v ===== *)
(** * Verification of the codemaster backend

    The program (TypeScript, [src/apps/backend/src] and [src/libs]) reviews
    pull requests: webhooks and schedules put jobs into two Postgres-backed
    queues, workers claim them under leases, a review run allocates a workspace,
    fans its diff chunks out to a language model, merges, arbitrates and ranks
    the findings, and settles the job and its run together.  This library
    models the part of it that must not go wrong when processes crash, race or
    retry, and proves what makes each part correct.

    ** How the program is modelled

    - A table is a finite map from primary key to a record of the columns that
      the code reads or writes.  A statement is a function on tables; the CHECK
      constraints and unique indexes of [src/migrations/0001_baseline.sql] are
      part of the statements, and a violation is a thrown error.  [FOR UPDATE
      SKIP LOCKED] takes the set of rows locked by others as an argument.
      Statements of one row are atomic, so the tables evolve by the steps of
      an inductive relation; where transactions of several statements interleave
      visibly (the event stream, the fan-out) the relation has one step per
      statement or per [await].
    - A thrown error is the [Throw] of [result]; the error types list the
      classes that the code distinguishes.
    - Clocks, random numbers, fresh ids, the embedder, the file system and the
      outcomes of remote calls are arguments.  Times are integers, in the unit
      the file states.  Seconds and confidences are exact rationals where the
      code has doubles; the cosine of the semantic merge is computed on IEEE
      doubles ([SpecFloat]).
    - Strings are byte strings.  JavaScript's stable [sort] is [sort_by].
      SHA-1 and SHA-256 are computed ([Uuid5], [ChunkText]); other hashes are arguments.

    ** The files

    - [Prelude]: results, JavaScript strings, sorting, tables, tactics, hints.
    - [JobTable]: the mechanics both queues share ([runner/background_jobs_repo.ts],
      [runner/review_jobs_repo.ts]): lease, fence by attempt token, backoff,
      claim order, reaping.
    - [Json]: [canonicalJson] and [JSON.stringify]: the text that is hashed does not
      depend on the order of object keys.
    - [BackgroundJobs]: [runner/background_jobs_repo.ts] on top of both.  Any
      interleaving of operations keeps one holder per dedup key and one owner
      per lease; a superseded owner can never write again; claims take the
      least claimable row; the payload is read back as it was enqueued.
    - [WorkflowEvents]: [ingest/_workflow_events_repository.ts].  The per-run
      sequence numbers have no gaps under every interleaving of transactions.
    - [RunLifecycle]: [domain/transition_run.ts], [domain/stale_write_guard.ts].
      Transitions take effect exactly as asked, stamped states are final, the
      guard lets only the authoritative run write.
    - [RunAllocator]: [ingest/_review_run_allocator.ts], [workflow/_supersede.ts],
      [ingest/_reviews_repository.ts], as transactions over the same tables.  One active run
      per review under every interleaving with the lifecycle; a displaced run
      never passes the guard again.
    - [Outbox]: [domain/repos/outbox_repo.ts], [activities/outbox_dispatch.activity.ts],
      [runner/outbox_dispatcher_loop.ts].  Every claimed row is settled as its
      own dispatch says, delivery is at least once, retries follow the schedule,
      and a sink is reached by the authoritative run only.
    - [PrMutex]: [concurrency/pr_mutex.ts], [activities/mutex_janitor.activity.ts].
      At most one live holder per pull request; a lost claim is always noticed.
    - [ReviewPayload], [ReviewJobs]: [runner/review_jobs_repo.ts] over the three
      tables it moves together (jobs, runs, mutexes).  Job and run are settled
      together or not at all; one active job per run.
    - [Cron], [Scheduler]: [runner/cron_schedules.ts], [runner/scheduler.ts].
      The parser denotes the sets of cron, the next run is the least matching
      minute, a failing schedule does not stop the others, a crash between
      enqueue and advance is absorbed.  [Scheduler] is proved against the class
      [LawfulPort], which [BackgroundJobs] implements.
    - [CostCap]: [cost/enforcer.ts], [cost/postgres_enforcer.ts], two instances
      of the class [LawfulEnforcer].  The ledger always equals what was settled
      plus what is in flight; no reservation passes the cap.
    - [Retry]: [runner/run_with_retry.ts], [runner/retry_policies.ts],
      [runner/retry_hints.ts].  Attempts, sleeps and the final error, and that
      throttles escape the curve.
    - [ReviewRunner]: [runner/review_job_runner.ts].  What one turn of the worker
      leaves behind for every way its handler can end.
    - [Findings], [Aggregation]: the finding contract, [review/aggregation.ts],
      [review/aggregation_semantic.ts] and their activities.  Exact dedup is
      grouping by key; ranking keeps the best; no finding is lost unaccounted.
    - [WorkspaceLease]: [workspace/transition.ts], [workspace/lease_repo.ts] and
      the allocate, release and retention activities.  One active lease per run,
      every release ends RELEASED or FAILED_CLEANUP, and nothing outside the
      workspace root is handed to [rm -rf].
    - [FanOut]: [review/pipeline/parallelism.ts].  Whatever the schedule, the
      pool means the sequential loop; it terminates, within its bound.
    - [Arbitration]: [review/arbitration/arbitrate.ts] and its policy.  One
      decision per finding, suppression exactly when the policy allows it, and
      never of a secret or a vulnerability under the bundled policy.
    - [PathMatch]: [config/path_match.ts].  The regular expression a glob is
      compiled to, searched as the engine does, matches what the glob denotes.
    - [PipelineHelpers]: [review/pipeline/helpers.ts], [policy/system_invariants.ts],
      [policy/trust_filter.ts] and the other pure helpers of the pipeline.
    - [Degradation], [Orchestrator], [OrchestratorProofs]: [review/pipeline/degradation.ts],
      [orchestrator.ts] and [posting.ts] of the same directory, in a state and error monad
      whose state holds the trace of dispatched activities; the activities are an
      oracle that may answer anything.  The order of the stages, the claim checks
      before each effect, the release of the workspace, what the optional stages
      may do to a review, and the one set of findings that leaves it.
    - [Mt19937]: [libs/platform/src/_mt19937.ts], the deterministic random source.
    - [Text], [Regex]: strings as UTF-16 code units, and JavaScript's regular
      expressions: a backtracking matcher, proved to search what the expression
      denotes, with [matchAll] and [replace].
    - [Redaction]: [redact/*.ts] and the redaction of chunk bodies.  Every match
      of a pattern is replaced, the rest is kept, and the span-level redaction
      masks exactly the reported offsets.
    - [HtmlEntities], [OutputSafety]: [security/html_unescape.ts] with its table,
      [trust_tier_wrapping.ts], [output_safety.ts].  The validator blocks exactly
      when one of its checks fires.
    - [WebhookPayload]: the contracts of GitHub's webhooks as parsers, and the
      extractors and builders of [ingest/] on top of them.
    - [IssueLinks]: [ingest/issue_link_parser.ts], [domain/repos/pr_issue_links_repo.ts].
    - [PrPersistence]: [ingest/_pr_persistence.ts].  The metadata tables and the
      transition log agree after any deliveries.
    - [Repair]: [ingest/_repair_state.ts], [ingest/_repair_dispatcher.ts].  At most
      one repair a minute per installation, none while it is blocked.
    - [ReviewDispatch]: the payload that starts a review, and exactly when its
      reader accepts it.
    - [WebhookIngest]: [ingest/github_webhook_persistence.ts] and the route in front
      of it.  One delivery as one transaction over the tables of the files above, in
      a monad of state and errors with savepoints: a trigger is dispatched once,
      a spoofed or repeated delivery only audited, every committed state is well
      formed, and the metadata fails open.

    - [ShellMutex]: [runner/shell_mutex.ts] with the claim check and the renewal loop
      of [runner/review_job_shell.ts], as programs of transactions among others that
      may lose their connection.  A worker holds its mutex or has minted none; a lost
      claim stays lost.
    - [JobShell]: [runner/review_job_shell.ts] and the abort gate of
      [runner/in_process_ports.ts], around [Orchestrator].  An attempt fails closed,
      releases what it holds on every way out, and a lost claim ends, through
      [ReviewRunner], in a cancelled job and run.
    - [Programs]: programs of transactions and outside calls, what they can do when
      they interleave with others, lose their connection or are killed, and a weakest
      precondition that also speaks of the state a killed run leaves.
    - [GithubApi], [GithubReviews]: [integrations/github/api_client.ts] and
      [review_client.ts] as such programs.  The requests, tokens and waits of a
      request are bounded.
    - [PostRender], [PostReview], [PostContract]:
      [activities/post_review_results.activity.ts].  The classifier of findings
      against the diff; a pull request gets at most one review whatever crashes, an
      aborted run starts no write, a published one is only refreshed.  [PostReview] is
      proved against the class [ReviewsContract], which [PostContract] derives for the
      client of [GithubReviews] from what GitHub documents.
    - [Uuid5], [FindingStore]: [domain/repos/review_findings_repo.ts] and its
      activities, with SHA-1 and the name-based identifiers.  A delivery outcome is
      written once, a retried persist changes nothing, and findings are read back as
      they were written.
    - [ArbitrationApply]: [review/arbitration/arbitration_apply.ts] and its activity:
      every decision of [Arbitration] is settled in that table, refused ones included.
    - [ChunkText], [Chunking], [ChunkAndRedact], [ChunkPasses]: [chunking/*.ts] and
      [activities/chunk_and_redact.activity.ts]: UTF-8, Python's lines, SHA-256; the
      chunkers around tree-sitter, the activity over a file system with links, the
      token budget and the batcher.  Every chunk quotes the lines it names, and no
      line of a changed range is lost by the fallback.
    - [LlmLedger], [LlmClient]: [integrations/llm/invocation_ledger.ts] and
      [client.ts].  A recorded response is never paid for again, and at every point
      of a call, crashes included, the books hold nothing, its estimate or its cost.
    - [CostJournal]: [cost/cost_journal.ts] and [cost_journal_reconciler.ts].  The
      journal decides as the aggregate of [CostCap] does; no reserve is taken back
      twice, a pass of the reconciler closes the dead calls that are old enough, and
      its window covers every retry curve.
    - [Utf8], [SecretSpans]: what the UTF-8 of [ChunkText] and the detector of
      [Redaction] promise: encoding is undone, and a secret spans part of its text.
    - [ChunkParse], [ChunkReview]: [llm/contract_coercion.ts], [review/tool_schema.ts],
      [chunk_response_parser.ts] and [review_activity.ts].  The findings kept are the
      well-formed, in-scope, grounded ones; over-long text costs none its place; a
      blocked answer is sanitized or refused, a paid one is never paid again, and
      every failure reaches the retry, the fan-out or the runner that handles it.
    - [SafetyAudit]: [activities/emit_output_safety_audit.activity.ts], the audit row
      of a sanitized answer, written once per event.
    - [Numerals]: decimal numerals of integers, for the files that print them.

    The numbered claims ([C1], [C2], ...) are in the order of importance.

    ** Fuel and bounds

    [Cron] searches minute by minute with as much fuel as the code's horizon has
    minutes; [BackgroundJobs.enqueue] has the code's own three rounds;
    [Retry.retry_loop] the attempts of its policy; [Aggregation.greedy] and
    [embed_batches] the length of their lists; [Scheduler.scheduler_loop] runs the
    endless poll loop for a given number of rounds.  [FanOut] needs none: at most three steps per chunk and one per worker.
    [Mt19937.reject] draws at most as often as its fuel says; the property of
    [randbelow] is about every fuel within which a draw is accepted.
    [ChunkPasses.enforce_loop] ends within twice the lines of its chunks, as proved.

    ** What is not modelled

    The HTTP surface, the adapters of the model providers and of the external
    analysers, the other reads of the GitHub client and retrieval are input and
    output around third-party services; prompt assembly and the walkthrough are
    prose; manifest parsing, the markdown chunker of the knowledge ingest,
    configuration and process wiring stand apart from the review of a pull request.
    Tree-sitter is a parameter that gives the top-level nodes of a file.  Logging and
    metrics are left out, except the counters that the lifecycle queues for its
    commit and the one that reports a failed store of a paid response; so is
    Postgres itself beyond the statements above. *)
From stdpp Require Import base gmap sets list strings.
From Stdlib Require Import ZArith Lia Ascii Sorting.Sorted Sorting.Permutation.

(** * Results: a value or a thrown error *)

(** [result E A] is the outcome of a call that may throw: [Ok a] is a normal
    return, [Throw e] an exception of class [e]. *)
Inductive result (E A : Type) : Type :=
| Ok (a : A)
| Throw (e : E).
Arguments Ok {E A} _.
Arguments Throw {E A} _.

Definition rbind {E A B} (m : result E A) (k : A -> result E B) : result E B :=
  match m with
  | Ok a => k a
  | Throw e => Throw e
  end.

Definition is_ok {E A} (m : result E A) : bool :=
  match m with Ok _ => true | Throw _ => false end.

Declare Scope codemaster_scope.
Delimit Scope codemaster_scope with cm.
Notation "'let?' x ':=' m 'in' k" := (rbind m (fun x => k))
  (at level 10, x pattern, m at level 100, k at level 200)
  : codemaster_scope.
Notation "'guard?' b 'else' e 'in' k" := (if b then k else Throw e)
  (at level 10, b at level 100, e at level 100, k at level 200)
  : codemaster_scope.
Open Scope codemaster_scope.

(** Traverse a list with a function that may throw, first error wins. *)
Fixpoint rmap {E A B} (g : A -> result E B) (l : list A) : result E (list B) :=
  match l with
  | [] => Ok []
  | x :: l' => let? y := g x in let? ys := rmap g l' in Ok (y :: ys)
  end.

Lemma rbind_ok {E A B} (m : result E A) (k : A -> result E B) b :
  rbind m k = Ok b -> exists a, m = Ok a /\ k a = Ok b.
Proof. destruct m as [a|e]; simpl; [eauto | discriminate]. Qed.

Lemma rmap_ok {E A B} (g : A -> result E B) l ys :
  rmap g l = Ok ys <-> Forall2 (fun x y => g x = Ok y) l ys.
Proof.
  revert ys. induction l as [|x l IH]; intros ys; simpl; split; intros H.
  - injection H as <-. constructor.
  - inversion H. done.
  - apply rbind_ok in H as (y & Hy & H). apply rbind_ok in H as (ys' & Hys & H).
    injection H as <-. constructor; [done | by apply IH].
  - inversion H as [|? y ? ys' Hy Hys]; subst. rewrite Hy. simpl.
    apply IH in Hys. by rewrite Hys.
Qed.

(** A filter that keeps nothing. *)
Lemma filter_nothing {A} (P : A -> Prop) `{!forall x, Decision (P x)} l :
  (forall x, x ∈ l -> ~ P x) -> filter P l = [].
Proof.
  intros Hno. induction l as [|x l IH]; [done|].
  rewrite filter_cons, decide_False by (apply Hno; by left).
  apply IH. intros y Hy. apply Hno. by right.
Qed.

(** * Tactics *)

(** Split an [Ok]-valued chain of [let?] and [guard?] in hypothesis [H]. *)
Ltac ok_inv H :=
  repeat first
    [ progress simpl in H
    | discriminate H
    | let a := fresh "a" in let Ha := fresh "Ha" in
      apply rbind_ok in H as (a & Ha & H)
    | match type of H with
      | (if ?b then _ else Throw _) = Ok _ =>
          let Hb := fresh "Hb" in destruct b eqn:Hb; [| discriminate H]
      end
    | injection H as H; subst ].

(** Boolean tests in hypotheses and goals, as propositions. *)
Ltac bool_to_prop :=
  repeat match goal with
  | H : negb _ = true |- _ => apply negb_true_iff in H
  | H : negb _ = false |- _ => apply negb_false_iff in H
  | H : (_ && _)%bool = true |- _ => apply andb_true_iff in H as [? ?]
  | H : (_ || _)%bool = false |- _ => apply orb_false_iff in H as [? ?]
  | H : (_ <=? _)%Z = true |- _ => apply Z.leb_le in H
  | H : (_ <=? _)%Z = false |- _ => apply Z.leb_gt in H
  | H : (_ <? _)%Z = true |- _ => apply Z.ltb_lt in H
  | H : (_ <? _)%Z = false |- _ => apply Z.ltb_ge in H
  | H : (_ =? _)%Z = true |- _ => apply Z.eqb_eq in H
  | H : (_ =? _)%Z = false |- _ => apply Z.eqb_neq in H
  | H : (_ <=? _)%nat = true |- _ => apply Nat.leb_le in H
  | H : (_ <=? _)%nat = false |- _ => apply Nat.leb_gt in H
  | H : (_ <? _)%nat = true |- _ => apply Nat.ltb_lt in H
  | H : (_ <? _)%nat = false |- _ => apply Nat.ltb_ge in H
  | H : (_ =? _)%string = true |- _ => apply String.eqb_eq in H
  | H : (_ =? _)%string = false |- _ => apply String.eqb_neq in H
  | H : bool_decide _ = true |- _ => apply bool_decide_eq_true in H
  | H : bool_decide _ = false |- _ => apply bool_decide_eq_false in H
  end.

(** * The JavaScript string library *)

Module JsString.
Local Open Scope string_scope.

Definition is_digit (c : ascii) : bool :=
  let n := nat_of_ascii c in ((48 <=? n) && (n <=? 57))%nat%bool.

Fixpoint forall_chars (p : ascii -> bool) (s : string) : bool :=
  match s with
  | EmptyString => true
  | String c s' => p c && forall_chars p s'
  end.

(** The test of the regular expression [/^\d+$/]. *)
Definition all_digits (s : string) : bool :=
  match s with EmptyString => false | _ => forall_chars is_digit s end.

Definition digit_val (c : ascii) : Z := Z.of_nat (nat_of_ascii c) - 48.

Fixpoint digits_acc (s : string) (acc : Z) : Z :=
  match s with
  | EmptyString => acc
  | String c s' => digits_acc s' (acc * 10 + digit_val c)
  end%Z.

(** [Number(s)] on a string accepted by [/^\d+$/]. *)
Definition number_of_digits (s : string) : Z := digits_acc s 0.

(** [s.split(c)] for a one-character separator. *)
Fixpoint split (c : ascii) (s : string) : list string :=
  match s with
  | EmptyString => [""]
  | String d s' =>
      if Ascii.eqb d c then "" :: split c s'
      else match split c s' with
           | [] => [String d ""]
           | w :: ws => String d w :: ws
           end
  end.

(** [parts.join(sep)]. *)
Fixpoint join (sep : string) (parts : list string) : string :=
  match parts with
  | [] => ""
  | [w] => w
  | w :: ws => w +:+ sep +:+ join sep ws
  end.

(** [s.includes(c)] for one character. *)
Fixpoint includes_char (c : ascii) (s : string) : bool :=
  match s with
  | EmptyString => false
  | String d s' => Ascii.eqb d c || includes_char c s'
  end.

(** Cut at the first occurrence of [c]: [None] when [indexOf] is [-1], else
    the two slices around that index. *)
Fixpoint cut (c : ascii) (s : string) : option (string * string) :=
  match s with
  | EmptyString => None
  | String d s' =>
      if Ascii.eqb d c then Some ("", s')
      else match cut c s' with
           | Some (a, b) => Some (String d a, b)
           | None => None
           end
  end.

(** [c] is removed by [trim]: the white space and line terminators of ASCII. *)
Definition is_space (c : ascii) : bool :=
  let n := nat_of_ascii c in (((9 <=? n) && (n <=? 13)) || (n =? 32))%nat%bool.

Fixpoint trim_start (s : string) : string :=
  match s with
  | String c s' => if is_space c then trim_start s' else s
  | EmptyString => s
  end.

Definition rev_string (s : string) : string :=
  String.string_of_list_ascii (rev (String.list_ascii_of_string s)).

(** [s.trimEnd()] and [s.trim()]. *)
Definition trim_end (s : string) : string := rev_string (trim_start (rev_string s)).
Definition trim (s : string) : string := trim_end (trim_start s).

(** [s.slice(0, n)]. *)
Definition left (n : nat) (s : string) : string := String.substring 0 n s.

(** [s.startsWith(t)], [s.endsWith(t)], [s.includes(t)]. *)
Definition starts_with (t s : string) : bool := String.prefix t s.
Definition ends_with (t s : string) : bool := String.prefix (rev_string t) (rev_string s).

Fixpoint includes (t s : string) : bool :=
  String.prefix t s || match s with EmptyString => false | String _ s' => includes t s' end.

Definition lower_ascii (c : ascii) : ascii :=
  let n := nat_of_ascii c in
  if ((65 <=? n) && (n <=? 90))%nat%bool then ascii_of_nat (n + 32) else c.

(** [s.toLowerCase()]. *)
Fixpoint to_lower (s : string) : string :=
  match s with EmptyString => s | String c s' => String (lower_ascii c) (to_lower s') end.

Definition nat_digit (n : nat) : ascii := ascii_of_nat (48 + n mod 10).

(** A number of a template literal: the decimal digits of [n]; the fuel is the
    number itself, more than its digits. *)
Fixpoint decimal_go (fuel n : nat) (acc : string) : string :=
  match fuel with
  | O => acc
  | S fuel' =>
      let acc' := String (nat_digit n) acc in
      if (n <? 10)%nat then acc' else decimal_go fuel' (n / 10) acc'
  end.
Definition decimal (n : nat) : string := decimal_go (S n) n "".

Lemma digit_val_nonneg c : is_digit c = true -> (0 <= digit_val c <= 9)%Z.
Proof. unfold is_digit, digit_val. intros H. bool_to_prop. lia. Qed.

Lemma digits_acc_nonneg s acc :
  forall_chars is_digit s = true -> (0 <= acc)%Z -> (0 <= digits_acc s acc)%Z.
Proof.
  revert acc. induction s as [|c s IH]; simpl; intros acc Hs Hacc; [done|].
  bool_to_prop. apply IH; [done|].
  pose proof (digit_val_nonneg c ltac:(done)). lia.
Qed.

Lemma number_of_digits_nonneg s :
  all_digits s = true -> (0 <= number_of_digits s)%Z.
Proof.
  destruct s as [|c s]; [discriminate|]. intros H.
  by apply digits_acc_nonneg.
Qed.

Lemma split_nonempty c s : split c s <> [].
Proof.
  destruct s as [|d s]; simpl; [discriminate|].
  destruct (Ascii.eqb d c); [discriminate|]. by destruct (split c s).
Qed.

Lemma join_split c s : join (String c "") (split c s) = s.
Proof.
  induction s as [|d s IH]; [done|]. simpl.
  destruct (Ascii.eqb d c) eqn:E.
  - apply Ascii.eqb_eq in E as ->. pose proof (split_nonempty c s).
    destruct (split c s) as [|w ws] eqn:Es; [done|].
    change (String c (join (String c "") (w :: ws)) = String c s).
    by rewrite IH.
  - destruct (split c s) as [|w [|w' ws]] eqn:Es.
    + by apply split_nonempty in Es.
    + simpl in *. by rewrite IH.
    + change (String d (join (String c "") (w :: w' :: ws)) = String d s).
      by rewrite IH.
Qed.
Lemma length_append (a b : string) : String.length (a +:+ b) = (String.length a + String.length b)%nat.
Proof.
  induction a as [|c a IH]; [done|].
  change (S (String.length (a +:+ b)) = S (String.length a + String.length b)). by rewrite IH.
Qed.

End JsString.

(** [set.has(x)] on a set of strings. *)
Lemma existsb_eqb_elem x l : existsb (String.eqb x) l = true <-> x ∈ l.
Proof.
  rewrite existsb_exists. setoid_rewrite <- list_elem_of_In. split.
  - by intros (y & Hy & ->%String.eqb_eq).
  - intros Hx. exists x. by rewrite String.eqb_refl.
Qed.

(** [String.compare] as a total boolean order: the order of canonical
    lower-case uuids and of SQL [text] under the C collation. *)
Definition str_leb (a b : string) : bool := String.leb a b.

Lemma str_leb_total a b : str_leb a b = true \/ str_leb b a = true.
Proof. apply String.leb_total. Qed.

Lemma str_leb_antisym a b : str_leb a b = true -> str_leb b a = true -> a = b.
Proof. apply String.leb_antisym. Qed.

Lemma str_leb_refl a : str_leb a a = true.
Proof. destruct (str_leb_total a a); done. Qed.

Lemma ascii_compare_N a b : Ascii.compare a b = N.compare (N_of_ascii a) (N_of_ascii b).
Proof. reflexivity. Qed.

Lemma str_leb_trans a b c :
  str_leb a b = true -> str_leb b c = true -> str_leb a c = true.
Proof.
  unfold str_leb, String.leb.
  revert b c. induction a as [|x a IH]; intros b c.
  - by destruct c.
  - destruct b as [|y b]; [discriminate|]. destruct c as [|z c]; [done|]. simpl.
    rewrite !ascii_compare_N. intros H1 H2.
    destruct (N.compare_spec (N_of_ascii x) (N_of_ascii y)) as [E1|E1|E1]; [| |done];
    destruct (N.compare_spec (N_of_ascii y) (N_of_ascii z)) as [E2|E2|E2]; try done;
    destruct (N.compare_spec (N_of_ascii x) (N_of_ascii z)) as [E3|E3|E3]; try lia; try done.
    by apply (IH b c).
Qed.

(** Lexicographic comparators: compare by an integer key, ties by [next]. *)
Definition lex_leb {A} (key : A -> Z) (next : A -> A -> bool) (x y : A) : bool :=
  match Z.compare (key x) (key y) with
  | Lt => true
  | Gt => false
  | Eq => next x y
  end.

Lemma lex_leb_total {A} (key : A -> Z) next :
  (forall x y, next x y = true \/ next y x = true) ->
  forall x y, lex_leb key next x y = true \/ lex_leb key next y x = true.
Proof.
  intros Hn x y. unfold lex_leb. rewrite (Z.compare_antisym (key x) (key y)).
  destruct (key x ?= key y)%Z; simpl; auto.
Qed.

Lemma lex_leb_trans {A} (key : A -> Z) next :
  (forall x y z, next x y = true -> next y z = true -> next x z = true) ->
  forall x y z, lex_leb key next x y = true -> lex_leb key next y z = true ->
    lex_leb key next x z = true.
Proof.
  intros Hn x y z. unfold lex_leb.
  destruct (Z.compare_spec (key x) (key y)); destruct (Z.compare_spec (key y) (key z));
    destruct (Z.compare_spec (key x) (key z)); intros; try done; try lia. eauto.
Qed.

Lemma lex_leb_antisym {A} (key : A -> Z) next x y :
  lex_leb key next x y = true -> lex_leb key next y x = true ->
  key x = key y /\ next x y = true /\ next y x = true.
Proof.
  unfold lex_leb. rewrite (Z.compare_antisym (key x) (key y)).
  destruct (Z.compare_spec (key x) (key y)); simpl; intros; done.
Qed.

Lemma lex_leb_lt {A} (key : A -> Z) next x y :
  lex_leb key next x y = true ->
  (key x < key y)%Z \/ (key x = key y /\ next x y = true).
Proof. unfold lex_leb. destruct (Z.compare_spec (key x) (key y)); auto; done. Qed.

(** * Sorting: JavaScript's [Array.prototype.sort] *)

(** [Array.prototype.sort] is a stable sort (ECMAScript 2019). With a
    consistent comparator every stable sort returns the same array, so the
    insertion sort below stands for it; [leb x y] is [cmp(x, y) <= 0]. *)
Fixpoint insert_by {A} (leb : A -> A -> bool) (x : A) (l : list A) : list A :=
  match l with
  | [] => [x]
  | y :: l' => if leb x y then x :: y :: l' else y :: insert_by leb x l'
  end.

Definition sort_by {A} (leb : A -> A -> bool) (l : list A) : list A :=
  foldr (insert_by leb) [] l.

(** The first least element of a list: SQL's [ORDER BY leb LIMIT 1]. *)
Fixpoint min_by {A} (leb : A -> A -> bool) (l : list A) : option A :=
  match l with
  | [] => None
  | x :: l' =>
      match min_by leb l' with
      | None => Some x
      | Some y => if leb x y then Some x else Some y
      end
  end.

Section Sorting.
Context {A : Type} (leb : A -> A -> bool).
Lemma insert_by_perm x l : insert_by leb x l ≡ₚ x :: l.
Proof.
  induction l as [|y l IH]; simpl; [done|].
  destruct (leb x y); [done|]. rewrite IH. apply Permutation_swap.
Qed.

Lemma sort_by_perm l : sort_by leb l ≡ₚ l.
Proof.
  induction l as [|x l IH]; simpl; [done|]. by rewrite insert_by_perm, IH.
Qed.

Lemma elem_of_sort_by x l : x ∈ sort_by leb l <-> x ∈ l.
Proof. by rewrite sort_by_perm. Qed.

Lemma length_sort_by l : length (sort_by leb l) = length l.
Proof. by rewrite sort_by_perm. Qed.

Lemma min_by_None l : min_by leb l = None <-> l = [].
Proof.
  destruct l as [|x l]; simpl; [done|].
  destruct (min_by leb l) as [y|]; [destruct (leb x y)|]; done.
Qed.

Lemma min_by_elem l m : min_by leb l = Some m -> m ∈ l.
Proof.
  revert m. induction l as [|x l IH]; simpl; intros m H; [discriminate|].
  destruct (min_by leb l) as [y|] eqn:E.
  - destruct (leb x y); injection H as <-; [by apply elem_of_cons; left|].
    apply elem_of_cons. right. by apply IH.
  - injection H as <-. by apply elem_of_cons; left.
Qed.

Lemma min_by_is_Some l x : x ∈ l -> is_Some (min_by leb l).
Proof.
  intros Hx. destruct (min_by leb l) eqn:E; [by eexists|].
  apply min_by_None in E as ->. by apply elem_of_nil in Hx.
Qed.

Hypothesis leb_total : forall x y, leb x y = true \/ leb y x = true.
Hypothesis leb_trans : forall x y z, leb x y = true -> leb y z = true -> leb x z = true.


Lemma leb_refl x : leb x x = true.
Proof. destruct (leb_total x x); done. Qed.

Lemma insert_by_sorted x l :
  StronglySorted (fun a b => leb a b = true) l ->
  StronglySorted (fun a b => leb a b = true) (insert_by leb x l).
Proof.
  induction 1 as [|y l Hl IH Hy]; simpl.
  - repeat constructor.
  - destruct (leb x y) eqn:E.
    + constructor; [by constructor|]. constructor; [done|].
      eapply Forall_impl; [exact Hy|]. eauto.
    + constructor; [done|]. rewrite insert_by_perm. constructor; [|done].
      destruct (leb_total x y); [congruence|done].
Qed.

Lemma sort_by_sorted l : StronglySorted (fun a b => leb a b = true) (sort_by leb l).
Proof.
  induction l; simpl; [constructor | by apply insert_by_sorted].
Qed.

(** Two strongly sorted permutations agree when ties are equalities. *)
Lemma sorted_perm_unique l1 l2 :
  (forall x y, x ∈ l1 -> y ∈ l1 -> leb x y = true -> leb y x = true -> x = y) ->
  StronglySorted (fun a b => leb a b = true) l1 ->
  StronglySorted (fun a b => leb a b = true) l2 ->
  l1 ≡ₚ l2 -> l1 = l2.
Proof.
  intros Hanti Hs1. revert l2. induction Hs1 as [|x l1 Hs1 IH Hx]; intros l2 Hs2 Hp.
  - symmetry in Hp. by apply Permutation_nil_r in Hp.
  - destruct Hs2 as [|y l2 Hs2 Hy]; [by apply Permutation_nil_r in Hp|].
    assert (Hyin : y ∈ x :: l1) by (rewrite Hp; apply elem_of_cons; auto).
    assert (Hxin : x ∈ y :: l2) by (rewrite <- Hp; apply elem_of_cons; auto).
    assert (y = x) as ->.
    { rewrite Forall_forall in Hx. rewrite Forall_forall in Hy.
      apply elem_of_cons in Hyin as [->|Hyin]; [done|].
      apply elem_of_cons in Hxin as [->|Hxin]; [done|].
      apply Hanti; [by apply elem_of_cons; right|apply elem_of_cons; auto|by apply Hy|by apply Hx]. }
    f_equal. apply IH; [|done|].
    + intros a b Ha Hb. apply Hanti; by apply elem_of_cons; right.
    + by apply Permutation_cons_inv in Hp.
Qed.

(** The sort depends on the multiset only when ties are equalities. *)
Lemma sort_by_canonical l1 l2 :
  (forall x y, x ∈ l1 -> y ∈ l1 -> leb x y = true -> leb y x = true -> x = y) ->
  l1 ≡ₚ l2 -> sort_by leb l1 = sort_by leb l2.
Proof.
  intros Hanti Hp. apply sorted_perm_unique; try apply sort_by_sorted.
  - intros x y Hx Hy. apply Hanti; by apply elem_of_sort_by.
  - by rewrite !sort_by_perm.
Qed.

Lemma min_by_least l m x : min_by leb l = Some m -> x ∈ l -> leb m x = true.
Proof.
  revert m. induction l as [|y l IH]; simpl; intros m H Hx; [by apply elem_of_nil in Hx|].
  destruct (min_by leb l) as [z|] eqn:E.
  - destruct (leb y z) eqn:Eyz; injection H as <-.
    + apply elem_of_cons in Hx as [->|Hx]; [by apply leb_refl|]. eauto.
    + apply elem_of_cons in Hx as [->|Hx]; [|by eauto].
      destruct (leb_total y z); [congruence|done].
  - injection H as <-. apply min_by_None in E as ->.
    apply list_elem_of_singleton in Hx as ->. by apply leb_refl.
Qed.

End Sorting.

(** A sort by a key that splits into a filter of one class keeps the input
    order of that class: stability. *)
Lemma insert_by_filter_out {A} (leb : A -> A -> bool) (P : A -> Prop)
    `{!forall x, Decision (P x)} x l :
  ~ P x -> filter P (insert_by leb x l) = filter P l.
Proof.
  intros Hx. induction l as [|y l IH]; simpl.
  - by rewrite filter_cons_False.
  - destruct (leb x y).
    + by rewrite filter_cons_False.
    + rewrite !filter_cons. by rewrite IH.
Qed.

Lemma insert_by_filter_in {A} (leb : A -> A -> bool) (P : A -> Prop)
    `{!forall x, Decision (P x)} x l :
  P x -> (forall y, y ∈ l -> P y -> leb x y = true) ->
  filter P (insert_by leb x l) = x :: filter P l.
Proof.
  intros Hx Hl. induction l as [|y l IH]; simpl.
  - by rewrite filter_cons_True.
  - destruct (leb x y) eqn:E.
    + by rewrite filter_cons_True.
    + rewrite !filter_cons. destruct (decide (P y)) as [Hy|Hy].
      * rewrite (Hl y) in E; [discriminate|set_solver|done].
      * apply IH. intros z Hz. apply Hl. set_solver.
Qed.

(** Stability of [sort_by]: elements that compare equal keep their order. *)
Lemma sort_by_stable {A} (leb : A -> A -> bool) (P : A -> Prop)
    `{!forall x, Decision (P x)} l :
  (forall x y, P x -> P y -> leb x y = true) ->
  filter P (sort_by leb l) = filter P l.
Proof.
  intros HP. induction l as [|x l IH]; simpl; [done|].
  destruct (decide (P x)) as [Hx|Hx].
  - rewrite insert_by_filter_in; [|done|auto].
    by rewrite filter_cons_True, IH.
  - rewrite insert_by_filter_out; [|done]. by rewrite filter_cons_False.
Qed.

(** * Rows of a table *)

(** [rows t] lists a table keyed by primary key; SQL leaves the order of an
    unordered [SELECT] open, and no definition depends on it except through a
    permutation. *)
Definition rows {R} (t : gmap string R) : list (string * R) := map_to_list t.

Lemma elem_of_rows {R} (t : gmap string R) k r : (k, r) ∈ rows t <-> t !! k = Some r.
Proof. apply elem_of_map_to_list. Qed.

(** Updating every row that satisfies a predicate: [UPDATE ... WHERE p]. *)
Definition update_where {R} (p : string -> R -> bool) (g : R -> R) (t : gmap string R)
    : gmap string R :=
  map_imap (fun k r => Some (if p k r then g r else r)) t.

Lemma lookup_update_where {R} (p : string -> R -> bool) (g : R -> R) t k :
  update_where p g t !! k = (fun r => if p k r then g r else r) <$> t !! k.
Proof. unfold update_where. rewrite map_lookup_imap. by destruct (t !! k). Qed.

(** * Hints *)

Create HintDb codemaster discriminated.
#[export] Hint Constants Opaque : codemaster.
#[export] Hint Resolve str_leb_refl str_leb_total elem_of_rows : codemaster.
#[export] Hint Resolve JsString.number_of_digits_nonneg JsString.digit_val_nonneg : codemaster.
Create Rewrite HintDb codemaster_rw.
#[export] Hint Rewrite @lookup_update_where @length_sort_by : codemaster_rw.
