(* ===== verification/Numerals.v ===== *)
(** Decimal numerals: what JavaScript prints for an integer in a template string
    ([pretty] of stdpp) is read back by [Number]. *)
From stdpp Require Import base list strings pretty.
From Stdlib Require Import ZArith Lia Ascii.
From S2P Require Import Prelude.
Open Scope Z_scope.

Lemma pretty_go_digits x s :
  JsString.forall_chars JsString.is_digit s = true ->
  JsString.forall_chars JsString.is_digit (pretty_N_go x s) = true /\
  JsString.digits_acc (pretty_N_go x s) 0 = JsString.digits_acc s (Z.of_N x).
Proof.
  revert s. induction (N.lt_wf_0 x) as [x _ IH]; intros s Hs.
  destruct (decide (x = 0)%N) as [->|Hx]; [by rewrite pretty_N_go_0|].
  rewrite pretty_N_go_step by lia.
  assert (Hc : forall n, (n < 10)%N -> JsString.is_digit (pretty_N_char n) = true /\
                                    JsString.digit_val (pretty_N_char n) = Z.of_N n).
  { intros n Hn. destruct n as [|p]; [done|]. do 4 (destruct p as [p|p|]; try done); lia. }
  destruct (Hc (x mod 10)%N) as [H1 H2]; [by apply N.mod_lt|].
  destruct (IH (x / 10)%N) with (s := String (pretty_N_char (x mod 10)) s) as [H3 H4].
  { apply N.div_lt; lia. }
  { simpl. by rewrite H1. }
  split; [done|]. rewrite H4. simpl. rewrite H2. f_equal. pose proof (N.div_mod x 10). lia.
Qed.

Lemma pretty_N_all_digits (n : N) :
  JsString.all_digits (pretty n) = true /\ JsString.number_of_digits (pretty n) = Z.of_N n.
Proof.
  unfold pretty, pretty_N. destruct (decide (n = 0)%N) as [->|Hn]; [done|].
  destruct (pretty_go_digits n "") as [H1 H2]; [done|]. split; [|exact H2].
  unfold JsString.all_digits. destruct (pretty_N_go n ""); [simpl in H2; lia|done].
Qed.

(** A non-negative integer prints as its digits, and reads back. *)
Lemma pretty_digits n :
  0 <= n -> JsString.all_digits (pretty n) = true /\ JsString.number_of_digits (pretty n) = n.
Proof.
  intros Hn. destruct n as [|p|p]; [done| |lia].
  change (pretty (Z.pos p)) with (pretty (N.pos p)). apply pretty_N_all_digits.
Qed.
