(* ===== verification/JobTable.v ===== *)
(** The lease discipline shared by [core.review_jobs] and
    [core.background_jobs]: the columns both tables have, the [SET] clauses of
    the claim, heartbeat, settle, retry and reap statements, the fence every
    write carries, and the claim order.  [BackgroundJobs] and [ReviewJobs]
    instantiate it with their own rows ([JobRow]).  Instants are microseconds
    (the resolution of [timestamptz]); [now] is the database clock. *)
From Stdlib Require Import QArith Qround Qpower Lqa.
From stdpp Require Import base gmap sets list strings.
From Stdlib Require Import ZArith Lia.
From S2P Require Import Prelude.
Open Scope Z_scope.

(** * Data *)

(** [JOB_STATES]; [cancelled] is used by review jobs only. *)
Inductive job_state := ready | leased | done | dead | cancelled.
#[export] Instance job_state_eq_dec : EqDecision job_state.
Proof. solve_decision. Defined.

(** The columns the two job tables share. *)
Record lease_core := LeaseCore {
  state : job_state;
  priority : Z;
  attempts : Z;
  max_attempts : Z;
  run_after : Z;
  created_at : Z;
  lease_owner : option string;
  attempt_token : option string;
  leased_until : option Z;
  timeout_at : option Z;
  heartbeat_at : option Z;
  last_error : option string;
  dead_reason : option string;
  finished_at : option Z;
}.

(** A table row that carries the shared columns. *)
Class JobRow (R : Type) := {
  core : R -> lease_core;
  with_core : lease_core -> R -> R;
  core_with : forall c r, core (with_core c r) = c;
}.

(** * Arithmetic of the statements *)

(** [ms / 1000 * interval '1 second'], in microseconds. *)
Definition ms (n : Z) : Z := n * 1000.

(** Postgres rounds a float number of microseconds to the nearest integer,
    ties to even. *)
Definition rint (q : Q) : Z :=
  let f := Qfloor q in
  match ((q - inject_Z f) ?= (1 # 2))%Q with
  | Lt => f
  | Gt => f + 1
  | Eq => if Z.even f then f else f + 1
  end.

(** [(base * power(2, attempts - 1)) * (0.75 + random() * 0.5) / 1000 *
    interval '1 second'], in microseconds; [r] is the value of [random()]. *)
Definition backoff_us (base_ms att : Z) (r : Q) : Z :=
  rint (inject_Z base_ms * Qpower 2 (att - 1) * ((3 # 4) + r * (1 # 2)) * 1000)%Q.

(** [left(s, 2000)]. *)
Definition left2000 (s : string) : string := String.substring 0 2000 s.

(** [col < now()] and [now() < col] on a nullable column: [NULL] is not true. *)
Definition opt_lt_now (o : option Z) (now : Z) : bool :=
  match o with Some t => t <? now | None => false end.
Definition now_lt_opt_or_null (now : Z) (o : option Z) : bool :=
  match o with Some t => now <? t | None => true end.

Definition opt_is (o : option string) (s : string) : bool :=
  match o with Some t => String.eqb t s | None => false end.

(** * The SET clauses *)

Definition clear_lease (c : lease_core) : lease_core :=
  {| state := state c; priority := priority c; attempts := attempts c;
     max_attempts := max_attempts c; run_after := run_after c; created_at := created_at c;
     lease_owner := None; attempt_token := None; leased_until := None;
     timeout_at := None; heartbeat_at := None;
     last_error := last_error c; dead_reason := dead_reason c; finished_at := finished_at c |}.

(** [claim]: lease the row to [owner] under the fresh [token], charging one
    attempt up front. *)
Definition core_claim (now : Z) (owner token : string) (lease_ms max_runtime_ms : Z)
    (c : lease_core) : lease_core :=
  {| state := leased; priority := priority c; attempts := attempts c + 1;
     max_attempts := max_attempts c; run_after := run_after c; created_at := created_at c;
     lease_owner := Some owner; attempt_token := Some token;
     leased_until := Some (now + ms lease_ms);
     timeout_at := Some (now + ms max_runtime_ms); heartbeat_at := Some now;
     last_error := last_error c; dead_reason := dead_reason c; finished_at := finished_at c |}.

(** [heartbeat]: extend the lease. *)
Definition core_heartbeat (now lease_ms : Z) (c : lease_core) : lease_core :=
  {| state := state c; priority := priority c; attempts := attempts c;
     max_attempts := max_attempts c; run_after := run_after c; created_at := created_at c;
     lease_owner := lease_owner c; attempt_token := attempt_token c;
     leased_until := Some (now + ms lease_ms);
     timeout_at := timeout_at c; heartbeat_at := Some now;
     last_error := last_error c; dead_reason := dead_reason c; finished_at := finished_at c |}.

(** Set the terminal state [s], stamp [finished_at], clear the lease. *)
Definition core_finish (s : job_state) (now : Z) (c : lease_core) : lease_core :=
  {| state := s; priority := priority c; attempts := attempts c;
     max_attempts := max_attempts c; run_after := run_after c; created_at := created_at c;
     lease_owner := None; attempt_token := None; leased_until := None;
     timeout_at := None; heartbeat_at := None;
     last_error := last_error c; dead_reason := dead_reason c; finished_at := Some now |}.

Definition set_dead_reason (reason : option string) (c : lease_core) : lease_core :=
  {| state := state c; priority := priority c; attempts := attempts c;
     max_attempts := max_attempts c; run_after := run_after c; created_at := created_at c;
     lease_owner := lease_owner c; attempt_token := attempt_token c;
     leased_until := leased_until c; timeout_at := timeout_at c; heartbeat_at := heartbeat_at c;
     last_error := last_error c; dead_reason := reason; finished_at := finished_at c |}.

(** [markFailed]: dead-letter when the attempts are exhausted, else back to
    [ready] after the jittered exponential backoff. *)
Definition core_failed (now : Z) (error : string) (base_ms : Z) (r : Q)
    (c : lease_core) : lease_core :=
  let exhausted := max_attempts c <=? attempts c in
  {| state := if exhausted then dead else ready;
     priority := priority c; attempts := attempts c; max_attempts := max_attempts c;
     run_after := now + backoff_us base_ms (attempts c) r;
     created_at := created_at c;
     lease_owner := None; attempt_token := None; leased_until := None;
     timeout_at := None; heartbeat_at := None;
     last_error := Some (left2000 error);
     dead_reason := if exhausted then Some (left2000 error) else dead_reason c;
     finished_at := if exhausted then Some now else finished_at c |}.

(** [deferRetry]: back to [ready] at the hinted instant, the attempt charged
    by [claim] given back. *)
Definition core_defer (error : string) (at_us : Z) (c : lease_core) : lease_core :=
  {| state := ready; priority := priority c; attempts := Z.max (attempts c - 1) 0;
     max_attempts := max_attempts c; run_after := at_us; created_at := created_at c;
     lease_owner := None; attempt_token := None; leased_until := None;
     timeout_at := None; heartbeat_at := None;
     last_error := Some (left2000 error); dead_reason := dead_reason c;
     finished_at := finished_at c |}.

(** The reason the reaper stamps on a row that has none. *)
Definition stuck_reason : string := "lease expired with attempts exhausted (stuck run)".

(** [reapStuckRuns]: dead-letter, keeping an existing [dead_reason]. *)
Definition core_reap (now : Z) (c : lease_core) : lease_core :=
  set_dead_reason
    (Some (match dead_reason c with Some d => d | None => stuck_reason end))
    (core_finish dead now c).

(** * The fence and the claim *)

(** [state = 'leased' AND lease_owner = $owner AND attempt_token = $token]. *)
Definition fence (owner token : string) (c : lease_core) : bool :=
  bool_decide (state c = leased) && opt_is (lease_owner c) owner
    && opt_is (attempt_token c) token.

(** [(state = 'ready' AND run_after <= now()) OR (state = 'leased' AND
    leased_until < now() AND attempts < max_attempts)]. *)
Definition claimable (now : Z) (c : lease_core) : bool :=
  (bool_decide (state c = ready) && (run_after c <=? now))
  || (bool_decide (state c = leased) && opt_lt_now (leased_until c) now
        && (attempts c <? max_attempts c)).

(** [state = 'leased' AND leased_until < now() AND attempts >= max_attempts]. *)
Definition stuck (now : Z) (c : lease_core) : bool :=
  bool_decide (state c = leased) && opt_lt_now (leased_until c) now
    && (max_attempts c <=? attempts c).

Section Table.
Context {R : Type} `{!JobRow R}.

(** A fenced single-row [UPDATE ... WHERE job_id = $id AND fence]: the new
    table and whether a row was affected. *)
Definition fenced_update (guard : lease_core -> bool) (g : R -> R)
    (id owner token : string) (t : gmap string R) : gmap string R * bool :=
  match t !! id with
  | Some r =>
      if fence owner token (core r) && guard (core r)
      then (<[id := g r]> t, true) else (t, false)
  | None => (t, false)
  end.

(** [ORDER BY priority DESC, run_after, created_at, job_id]. *)
Definition claim_leb : (string * R) -> (string * R) -> bool :=
  lex_leb (fun p => - priority (core p.2))
    (lex_leb (fun p => run_after (core p.2))
      (lex_leb (fun p => created_at (core p.2))
        (fun p q => str_leb p.1 q.1))).

(** The rows the claim subquery may take: claimable and not locked by a
    concurrent claimer ([FOR UPDATE SKIP LOCKED]). *)
Definition claim_rows (locked : gset string) (now : Z) (t : gmap string R)
    : list (string * R) :=
  filter (fun '(k, r) => (k ∉ locked) /\ claimable now (core r) = true) (rows t).

Definition claim_pick (locked : gset string) (now : Z) (t : gmap string R)
    : option (string * R) :=
  min_by claim_leb (claim_rows locked now t).

(** * Lemmas *)

Lemma claim_leb_total x y : claim_leb x y = true \/ claim_leb y x = true.
Proof.
  apply lex_leb_total. intros. apply lex_leb_total. intros.
  apply lex_leb_total. intros. apply str_leb_total.
Qed.

Lemma claim_leb_trans x y z :
  claim_leb x y = true -> claim_leb y z = true -> claim_leb x z = true.
Proof.
  apply lex_leb_trans. intros ???. apply lex_leb_trans. intros ???.
  apply lex_leb_trans. intros ???. apply str_leb_trans.
Qed.

Lemma fenced_update_cases guard g id owner token t t' b :
  fenced_update guard g id owner token t = (t', b) ->
  (b = true /\ exists r, t !! id = Some r /\ fence owner token (core r) = true /\
     guard (core r) = true /\ t' = <[id := g r]> t) \/
  (b = false /\ t' = t).
Proof.
  unfold fenced_update. destruct (t !! id) as [r|]; [|intros [= <- <-]; auto].
  destruct (fence owner token (core r) && guard (core r)) eqn:E;
    intros [= <- <-]; [|auto].
  apply andb_true_iff in E as [? ?]. left. eauto 6.
Qed.

(** Fenced writes neither add nor remove rows. *)
Lemma fenced_update_None guard g id owner token t k :
  (fenced_update guard g id owner token t).1 !! k = None <-> t !! k = None.
Proof.
  unfold fenced_update. destruct (t !! id) as [r|] eqn:E; [|done].
  destruct (_ && _); [|done]. simpl. rewrite lookup_insert_None.
  split; [by intros [? _]|]. intros Hk. split; congruence.
Qed.

(** A write under a fence the row does not satisfy changes nothing. *)
Lemma fenced_update_stale guard g id owner token t :
  (forall r, t !! id = Some r -> fence owner token (core r) = false) ->
  fenced_update guard g id owner token t = (t, false).
Proof.
  unfold fenced_update. intros H. destruct (t !! id) as [r|]; [|done].
  by rewrite H.
Qed.

Lemma elem_of_claim_rows locked now t k r :
  (k, r) ∈ claim_rows locked now t <->
  t !! k = Some r /\ (k ∉ locked) /\ claimable now (core r) = true.
Proof. unfold claim_rows. rewrite list_elem_of_filter, elem_of_rows. tauto. Qed.

Lemma claim_pick_some locked now t k r :
  claim_pick locked now t = Some (k, r) ->
  t !! k = Some r /\ (k ∉ locked) /\ claimable now (core r) = true /\
  forall k' r', t !! k' = Some r' -> (k' ∉ locked) -> claimable now (core r') = true ->
    claim_leb (k, r) (k', r') = true.
Proof.
  intros H. pose proof H as Hin. apply min_by_elem in Hin.
  apply elem_of_claim_rows in Hin as (? & ? & ?).
  do 3 (split; [done|]). intros k' r' Hk' Hl' Hc'.
  eapply min_by_least; [apply claim_leb_total|apply claim_leb_trans|exact H|].
  by apply elem_of_claim_rows.
Qed.

Lemma claim_pick_none locked now t :
  claim_pick locked now t = None <->
  forall k r, t !! k = Some r -> (k ∉ locked) -> claimable now (core r) = false.
Proof.
  unfold claim_pick. rewrite min_by_None. split.
  - intros H k r Hk Hl. destruct (claimable now (core r)) eqn:E; [|done].
    assert ((k, r) ∈ claim_rows locked now t) as Hin by by apply elem_of_claim_rows.
    rewrite H in Hin. by apply elem_of_nil in Hin.
  - intros H. destruct (claim_rows locked now t) as [|[k r] l] eqn:E; [done|].
    assert ((k, r) ∈ claim_rows locked now t) as Hin by (rewrite E; set_solver).
    apply elem_of_claim_rows in Hin as (? & ? & ?). rewrite (H k r) in *; done.
Qed.
End Table.

(** ** The row invariant *)

(** What the statements keep true of every row: a [ready] row has an attempt
    left and no lease; a [leased] row is owned and was charged; a settled row
    has no lease and a [finished_at], a [dead] one a reason. *)
Definition lease_cleared (c : lease_core) : Prop :=
  lease_owner c = None /\ attempt_token c = None /\ leased_until c = None /\
  timeout_at c = None /\ heartbeat_at c = None.

Definition wf_core (c : lease_core) : Prop :=
  0 <= attempts c /\ 1 <= max_attempts c /\
  match state c with
  | ready => attempts c < max_attempts c /\ lease_cleared c
  | leased => 1 <= attempts c <= max_attempts c /\ is_Some (lease_owner c) /\
              is_Some (attempt_token c) /\ is_Some (leased_until c)
  | done | cancelled => lease_cleared c /\ is_Some (finished_at c)
  | dead => lease_cleared c /\ is_Some (finished_at c) /\ is_Some (dead_reason c)
  end.

(** A settled row: no statement of either repository touches it again. *)
Definition terminal (c : lease_core) : bool :=
  match state c with done | dead | cancelled => true | _ => false end.

Lemma fence_true owner token c :
  fence owner token c = true <->
  state c = leased /\ lease_owner c = Some owner /\ attempt_token c = Some token.
Proof.
  unfold fence, opt_is. rewrite !andb_true_iff, bool_decide_eq_true.
  destruct (lease_owner c), (attempt_token c); rewrite ?String.eqb_eq;
    naive_solver.
Qed.

Lemma claimable_true now c :
  claimable now c = true <->
  (state c = ready /\ run_after c <= now) \/
  (state c = leased /\ attempts c < max_attempts c /\
   exists u, leased_until c = Some u /\ u < now).
Proof.
  unfold claimable, opt_lt_now.
  rewrite orb_true_iff, !andb_true_iff, !bool_decide_eq_true, Z.leb_le, Z.ltb_lt.
  destruct (leased_until c); rewrite ?Z.ltb_lt; naive_solver.
Qed.

Lemma stuck_true now c :
  stuck now c = true <->
  state c = leased /\ max_attempts c <= attempts c /\
  exists u, leased_until c = Some u /\ u < now.
Proof.
  unfold stuck, opt_lt_now. rewrite !andb_true_iff, bool_decide_eq_true, Z.leb_le.
  destruct (leased_until c); rewrite ?Z.ltb_lt; naive_solver.
Qed.

Lemma fence_not_terminal owner token c : fence owner token c = true -> terminal c = false.
Proof. rewrite fence_true. unfold terminal. by intros (-> & _). Qed.

Lemma claimable_not_terminal now c : claimable now c = true -> terminal c = false.
Proof. rewrite claimable_true. unfold terminal. by intros [[-> _]|[-> _]]. Qed.

Lemma stuck_not_terminal now c : stuck now c = true -> terminal c = false.
Proof. rewrite stuck_true. unfold terminal. by intros [-> _]. Qed.

Lemma wf_claim now owner token l m c :
  wf_core c -> claimable now c = true -> wf_core (core_claim now owner token l m c).
Proof.
  rewrite claimable_true. unfold wf_core; simpl.
  intros (? & ? & Hs) [[E ?]|(E & ? & _)]; rewrite E in Hs;
    (repeat split; [lia|lia|lia|lia|by eexists..]).
Qed.

Lemma wf_heartbeat now l owner token c :
  wf_core c -> fence owner token c = true -> wf_core (core_heartbeat now l c).
Proof.
  rewrite fence_true. unfold wf_core; simpl. intros (? & ? & Hs) (E & _).
  rewrite E in *. naive_solver.
Qed.

Lemma wf_finish s now owner token c :
  wf_core c -> fence owner token c = true -> s = done \/ s = cancelled ->
  wf_core (core_finish s now c).
Proof.
  rewrite fence_true. unfold wf_core; simpl. intros (? & ? & Hs) _ [->| ->];
    (split_and!; [done|done|done..|by eexists]).
Qed.

Lemma wf_dead now reason c :
  wf_core c -> wf_core (set_dead_reason (Some reason) (core_finish dead now c)).
Proof.
  unfold wf_core; simpl. intros (? & ? & _). split_and!; try done; by eexists.
Qed.

Lemma wf_failed now error base r owner token c :
  wf_core c -> fence owner token c = true -> wf_core (core_failed now error base r c).
Proof.
  rewrite fence_true. unfold wf_core; simpl. intros (? & ? & Hs) (E & _).
  rewrite E in Hs. destruct (Z.leb_spec (max_attempts c) (attempts c));
    (split_and!; try done; try lia; by eexists).
Qed.

Lemma wf_defer error at_us owner token c :
  wf_core c -> fence owner token c = true -> wf_core (core_defer error at_us c).
Proof.
  rewrite fence_true. unfold wf_core; simpl. intros (? & ? & Hs) (E & _).
  rewrite E in Hs. split_and!; try done; lia.
Qed.

Lemma wf_reap now c : wf_core c -> wf_core (core_reap now c).
Proof. apply wf_dead. Qed.

#[export] Hint Resolve wf_claim wf_heartbeat wf_finish wf_dead wf_failed wf_defer wf_reap
  fence_not_terminal claimable_not_terminal stuck_not_terminal : codemaster.

(** ** Bounds of the retry delay *)

Lemma rint_lower n q : (inject_Z n <= q)%Q -> n <= rint q.
Proof.
  intros H. assert (n <= Qfloor q).
  { apply Qfloor_resp_le in H. by rewrite Qfloor_Z in H. }
  unfold rint. destruct (_ ?= _)%Q; [destruct (Z.even _)| |]; lia.
Qed.

Lemma rint_upper n q : (q <= inject_Z n)%Q -> rint q <= n.
Proof.
  intros H.
  assert (Hf : Qfloor q <= n).
  { apply Qfloor_resp_le in H. by rewrite Qfloor_Z in H. }
  assert (Hlt : (inject_Z (Qfloor q) < q)%Q -> Qfloor q < n).
  { intros Hq. rewrite Zlt_Qlt. eapply Qlt_le_trans; eauto. }
  unfold rint. destruct (_ ?= _)%Q eqn:E.
  - destruct (Z.even _); [lia|]. apply Qeq_alt in E.
    enough (Qfloor q < n) by lia. apply Hlt. lra.
  - lia.
  - apply Qgt_alt in E. enough (Qfloor q < n) by lia. apply Hlt. lra.
Qed.

Lemma Qpower_2_Z n : 0 <= n -> (Qpower 2 n == inject_Z (2 ^ n))%Q.
Proof.
  intros Hn. pattern n. apply natlike_ind; [reflexivity| |done].
  intros m Hm IH. unfold Z.succ.
  assert (E : (Qpower 2 (m + 1) == Qpower 2 m * Qpower 2 1)%Q)
    by (apply Qpower_plus; discriminate).
  rewrite E, IH, Z.pow_add_r, inject_Z_mult by lia. reflexivity.
Qed.

(** The [n]-th failure waits between 0.75 and 1.25 times [base * 2^(n-1)]. *)
Lemma backoff_us_bounds base n r :
  0 <= base -> 1 <= n -> (0 <= r)%Q -> (r <= 1)%Q ->
  750 * (base * 2 ^ (n - 1)) <= backoff_us base n r <= 1250 * (base * 2 ^ (n - 1)).
Proof.
  intros Hb Hn H0 H1. unfold backoff_us.
  set (p := base * 2 ^ (n - 1)).
  assert (Hp : 0 <= p) by (unfold p; nia).
  assert (E : (inject_Z base * Qpower 2 (n - 1) * ((3 # 4) + r * (1 # 2)) * 1000
               == inject_Z p * (750 + 500 * r))%Q).
  { rewrite Qpower_2_Z by lia. unfold p. rewrite inject_Z_mult. ring. }
  assert (Hpq : (0 <= inject_Z p)%Q) by (change 0%Q with (inject_Z 0); by rewrite <- Zle_Qle).
  split.
  - apply rint_lower. rewrite E, inject_Z_mult. change (inject_Z 750) with 750%Q. nra.
  - apply rint_upper. rewrite E, inject_Z_mult. change (inject_Z 1250) with 1250%Q. nra.
Qed.

(** ** The abstract job lifecycle *)

(** The moves a job row can make, whatever the repository: the specification
    both repositories refine.  [issued] are the attempt tokens handed out so
    far, [fresh] the one this step hands out, if any; [gen_random_uuid()]
    never repeats one. *)
Inductive core_step (issued : gset string) (fresh : option string) (c : lease_core)
    : lease_core -> Prop :=
| cs_stay : core_step issued fresh c c
| cs_claim now owner token l m :
    claimable now c = true -> fresh = Some token -> token ∉ issued ->
    core_step issued fresh c (core_claim now owner token l m c)
| cs_heartbeat now l owner token :
    fence owner token c = true -> core_step issued fresh c (core_heartbeat now l c)
| cs_finish s now owner token :
    fence owner token c = true -> s = done \/ s = cancelled ->
    core_step issued fresh c (core_finish s now c)
| cs_dead now reason owner token :
    fence owner token c = true ->
    core_step issued fresh c (set_dead_reason (Some reason) (core_finish dead now c))
| cs_failed now error base r owner token :
    fence owner token c = true -> core_step issued fresh c (core_failed now error base r c)
| cs_defer error at_us owner token :
    fence owner token c = true -> core_step issued fresh c (core_defer error at_us c)
| cs_reap now : stuck now c = true -> core_step issued fresh c (core_reap now c).
#[export] Hint Constructors core_step : codemaster.

(** The issued tokens after a step. *)
Definition grant (fresh : option string) (issued : gset string) : gset string :=
  match fresh with Some tok => {[tok]} ∪ issued | None => issued end.

Lemma core_step_wf issued fresh c c' : core_step issued fresh c c' -> wf_core c -> wf_core c'.
Proof. intros [] Hwf; eauto with codemaster. Qed.

(** Settled rows never move again. *)
Lemma core_step_terminal issued fresh c c' :
  core_step issued fresh c c' -> terminal c = true -> c' = c.
Proof.
  intros Hs Ht. destruct Hs; try done;
    match goal with
    | H : fence _ _ _ = true |- _ => apply fence_not_terminal in H; congruence
    | H : claimable _ _ = true |- _ => apply claimable_not_terminal in H; congruence
    | H : stuck _ _ = true |- _ => apply stuck_not_terminal in H; congruence
    end.
Qed.

(** A move keeps the attempt token, drops it, or installs the fresh one. *)
Lemma core_step_token issued fresh c c' :
  core_step issued fresh c c' ->
  attempt_token c' = attempt_token c \/ attempt_token c' = None \/
  exists tok, attempt_token c' = Some tok /\ fresh = Some tok /\ tok ∉ issued.
Proof. intros []; simpl; eauto 6. Qed.

(** So a token that is not a row's current one never becomes it again. *)
Lemma core_step_stale issued fresh c c' tok :
  core_step issued fresh c c' -> tok ∈ issued ->
  attempt_token c <> Some tok -> attempt_token c' <> Some tok.
Proof.
  intros Hs Hin Hne. destruct (core_step_token _ _ _ _ Hs) as [->|[->|(t & -> & _ & Ht)]];
    [done|done|]. intros [= ->]. done.
Qed.

(** While a row is held under a token, its attempt count stays what the claim
    made it. *)
Lemma core_step_same_attempt issued fresh c c' tok :
  core_step issued fresh c c' -> tok ∈ issued ->
  attempt_token c = Some tok -> attempt_token c' = Some tok ->
  attempts c' = attempts c /\ max_attempts c' = max_attempts c.
Proof.
  intros Hs Hin Hc Hc'. destruct Hs; simpl in *; by simplify_eq.
Qed.

(** The expired leases split between the next claim and the reaper: each is
    claimable or stuck, never both. *)
Lemma expired_lease_split now c u :
  state c = leased -> leased_until c = Some u -> u < now ->
  claimable now c = negb (stuck now c).
Proof.
  intros Es El Hu. unfold claimable, stuck, opt_lt_now. rewrite Es, El. simpl.
  apply Z.ltb_lt in Hu as ->. simpl. by rewrite Z.ltb_antisym.
Qed.

(** ** Tables that evolve by the lifecycle *)

(** A row as the enqueue statements insert it. *)
Definition fresh_core (c : lease_core) : Prop :=
  state c = ready /\ attempts c = 0 /\ 1 <= max_attempts c /\ lease_cleared c.

Section TableStep.
Context {R : Type} `{!JobRow R}.
(** What else a statement keeps of a row (its identity columns). *)
Context (keeps : R -> R -> Prop).

(** Rows are never deleted; each moves by the lifecycle; new rows are
    fresh. *)
Definition table_step (issued : gset string) (fresh : option string) (t t' : gmap string R) : Prop :=
  forall k, match t !! k, t' !! k with
            | None, None => True
            | None, Some r' => fresh_core (core r')
            | Some r, Some r' => core_step issued fresh (core r) (core r') /\ keeps r r'
            | Some _, None => False
            end.

(** Every row is well formed and its token was issued. *)
Definition table_wf (issued : gset string) (t : gmap string R) : Prop :=
  forall k r, t !! k = Some r ->
    wf_core (core r) /\ forall tok, attempt_token (core r) = Some tok -> tok ∈ issued.

Lemma fresh_core_wf c : fresh_core c -> wf_core c.
Proof. unfold fresh_core, wf_core. intros (-> & -> & ? & ?). split_and!; try done; lia. Qed.

Lemma grant_sub fresh issued : issued ⊆ grant fresh issued.
Proof. destruct fresh; simpl; set_solver. Qed.

(** The invariant survives a step. *)
Lemma table_step_wf issued fresh t t' :
  table_step issued fresh t t' -> table_wf issued t -> table_wf (grant fresh issued) t'.
Proof.
  intros Hs Hwf k r' Hr'. specialize (Hs k). rewrite Hr' in Hs.
  destruct (t !! k) as [r|] eqn:Hk.
  - destruct Hs as [Hs _]. destruct (Hwf k r Hk) as [Hw Htok]. split; [by eapply core_step_wf|].
    intros tok E. apply core_step_token in Hs as [Et|[Et|(tok' & Et & -> & _)]].
    + apply (grant_sub fresh). apply Htok. congruence.
    + congruence.
    + rewrite E in Et. injection Et as <-. simpl. set_solver.
  - split; [by apply fresh_core_wf|]. destruct Hs as (_ & _ & _ & _ & -> & _). done.
Qed.

(** Row [k] is no longer held under [tok]: fenced writes with it are lost. *)
Definition superseded (issued : gset string) (k tok : string) (t : gmap string R) : Prop :=
  tok ∈ issued /\ forall r, t !! k = Some r -> attempt_token (core r) <> Some tok.

Lemma table_step_superseded issued fresh t t' k tok :
  table_step issued fresh t t' ->
  superseded issued k tok t -> superseded (grant fresh issued) k tok t'.
Proof.
  intros Hs [Hin Hne]. split; [by apply grant_sub|]. intros r' Hr'.
  specialize (Hs k). rewrite Hr' in Hs. destruct (t !! k) as [r|].
  - destruct Hs as [Hs _]. eapply core_step_stale; eauto.
  - destruct Hs as (_ & _ & _ & _ & -> & _). done.
Qed.

Lemma superseded_fenced_update issued k tok t guard g owner :
  superseded issued k tok t -> fenced_update guard g k owner tok t = (t, false).
Proof.
  intros [_ Hne]. apply fenced_update_stale. intros r Hr.
  destruct (fence owner tok (core r)) eqn:E; [|done].
  apply fence_true in E as (_ & _ & E). by destruct (Hne r Hr).
Qed.
Context `{!Reflexive keeps}.

Lemma table_step_refl issued fresh t : table_step issued fresh t t.
Proof. intros k. destruct (t !! k); [by split; [constructor|]|done]. Qed.

Lemma table_step_insert issued fresh t k r :
  t !! k = None -> fresh_core (core r) -> table_step issued fresh t (<[k := r]> t).
Proof.
  intros Hk Hr j. destruct (decide (k = j)) as [<-|Hne].
  - by rewrite Hk, lookup_insert_eq.
  - rewrite lookup_insert_ne by done. apply table_step_refl.
Qed.

Lemma table_step_update issued fresh t k r r' :
  t !! k = Some r -> core_step issued fresh (core r) (core r') -> keeps r r' ->
  table_step issued fresh t (<[k := r']> t).
Proof.
  intros Hk Hr He j. destruct (decide (k = j)) as [<-|Hne].
  - by rewrite Hk, lookup_insert_eq.
  - rewrite lookup_insert_ne by done. apply table_step_refl.
Qed.

Lemma table_step_fenced issued fresh guard g id owner token t :
  (forall r, fence owner token (core r) = true -> guard (core r) = true ->
     core_step issued fresh (core r) (core (g r)) /\ keeps r (g r)) ->
  table_step issued fresh t (fenced_update guard g id owner token t).1.
Proof.
  intros Hg. destruct (fenced_update _ _ _ _ _ _) as [t' b] eqn:E.
  apply fenced_update_cases in E as [(_ & r & Hr & Hf & Hgu & ->)|[_ ->]];
    [|apply table_step_refl].
  destruct (Hg r) as [? ?]; [done..|]. by eapply table_step_update.
Qed.

Lemma table_step_update_where issued fresh p g t :
  (forall k r, p k r = true -> core_step issued fresh (core r) (core (g r)) /\ keeps r (g r)) ->
  table_step issued fresh t (update_where p g t).
Proof.
  intros Hg k. rewrite lookup_update_where. destruct (t !! k) as [r|]; simpl; [|done].
  destruct (p k r) eqn:E; [by eapply Hg|by split; [constructor|]].
Qed.

(** ** A key held by at most one active row *)

Context (holds : string -> R -> bool).

Definition unique_holder (t : gmap string R) : Prop :=
  forall key k1 r1 k2 r2, t !! k1 = Some r1 -> t !! k2 = Some r2 ->
    holds key r1 = true -> holds key r2 = true -> k1 = k2.

(** A step keeps the key of a row unless it settles the row, and a step that
    adds a row adds only that one, under a key nobody holds. *)
Lemma table_step_unique issued fresh t t' :
  (forall c r r' key, core_step issued fresh (core r) c -> core r' = c -> keeps r r' ->
     holds key r' = true -> holds key r = true) ->
  (forall k r', t !! k = None -> t' !! k = Some r' ->
     t' = <[k := r']> t /\
     forall key j q, t !! j = Some q -> holds key r' = true -> holds key q = false) ->
  table_step issued fresh t t' -> unique_holder t -> unique_holder t'.
Proof.
  intros Hkeep Hnew Hs Hu key k1 r1 k2 r2 H1 H2 Hh1 Hh2.
  assert (Hone : forall k r j q, t !! k = None -> t' !! k = Some r ->
      t' !! j = Some q -> holds key r = true -> holds key q = true -> k = j).
  { intros k r j q Hn Hk Hj Hr Hq. destruct (Hnew k r Hn Hk) as [E Hno].
    destruct (decide (k = j)) as [|Hne]; [done|].
    rewrite E, lookup_insert_ne in Hj by done. by rewrite (Hno key j q Hj Hr) in Hq. }
  assert (Hold : forall k r', t' !! k = Some r' -> holds key r' = true ->
      t !! k = None \/ exists r, t !! k = Some r /\ holds key r = true).
  { intros k r' Hk Hh. specialize (Hs k). rewrite Hk in Hs.
    destruct (t !! k) as [r|]; [|by left]. right. exists r. split; [done|].
    destruct Hs as [Hc He]. by eapply Hkeep. }
  destruct (Hold k1 r1) as [E1|(q1 & E1 & G1)]; [done..|by eapply (Hone k1 r1)|].
  destruct (Hold k2 r2) as [E2|(q2 & E2 & G2)]; [done..|symmetry; by eapply (Hone k2 r2)|].
  by eapply (Hu key k1 q1 k2 q2).
Qed.
End TableStep.

(** A step that leaves a row in an active state found it in one. *)
Lemma core_step_active issued fresh c c' :
  core_step issued fresh c c' -> terminal c' = false -> terminal c = false.
Proof.
  intros Hs Ht. destruct (terminal c) eqn:E; [|done].
  apply core_step_terminal in Hs; [congruence|done].
Qed.
