(* ===== verification/Json.v ===== *)
(** Canonical JSON: the [sortKeysDeep] / [canonicalJson] idiom that
    [runner/review_jobs_repo.ts], [runner/background_jobs_repo.ts] (and, under
    the name [stableJson], [ingest/_workflow_events_repository.ts]) use to hash
    and store payloads.  An object is the list of its own properties in
    property-enumeration order; strings are sequences of code units below 256;
    a number is its canonical numeral ([String(n)]). *)
From stdpp Require Import base gmap sets list strings.
From Stdlib Require Import ZArith Lia Ascii.
From S2P Require Import Prelude.

(** * Values *)

(** The values a payload can hold.  [JNonJson] is any value outside JSON
    ([undefined], functions, [NaN], infinities, bigints, dates, ...). *)
Inductive json :=
| JNull
| JBool (b : bool)
| JNum (numeral : string)
| JStr (s : string)
| JArr (l : list json)
| JObj (kvs : list (string * json))
| JNonJson.

(** Induction through arrays and objects. *)
Section JsonInd.
Context (P : json -> Prop).
Hypothesis Hnull : P JNull.
Hypothesis Hbool : forall b, P (JBool b).
Hypothesis Hnum : forall s, P (JNum s).
Hypothesis Hstr : forall s, P (JStr s).
Hypothesis Harr : forall l, Forall P l -> P (JArr l).
Hypothesis Hobj : forall kvs, Forall (fun p => P p.2) kvs -> P (JObj kvs).
Hypothesis Hnon : P JNonJson.

Fixpoint json_nested_ind (v : json) : P v :=
  match v with
  | JNull => Hnull
  | JBool b => Hbool b
  | JNum s => Hnum s
  | JStr s => Hstr s
  | JArr l =>
      Harr l ((fix go l : Forall P l :=
        match l with
        | [] => List.Forall_nil _
        | x :: l' => List.Forall_cons _ _ _ (json_nested_ind x) (go l')
        end) l)
  | JObj kvs =>
      Hobj kvs ((fix go l : Forall (fun p => P p.2) l :=
        match l with
        | [] => List.Forall_nil _
        | p :: l' => List.Forall_cons _ _ _ (json_nested_ind p.2) (go l')
        end) kvs)
  | JNonJson => Hnon
  end.
End JsonInd.

(** * Key order *)

(** A canonical array index (["0"], ["7"], ["41"], ... below 2^32 - 1): such
    keys are enumerated first, in ascending numeric order. *)
Definition array_index (k : string) : option Z :=
  match k with
  | String "0" EmptyString => Some 0%Z
  | String "0" _ => None
  | _ => if JsString.all_digits k then
           let n := JsString.number_of_digits k in
           if (n <? 4294967295)%Z then Some n else None
         else None
  end.

Definition is_index (p : string * json) : bool :=
  match array_index p.1 with Some _ => true | None => false end.

Definition index_of (p : string * json) : Z :=
  match array_index p.1 with Some n => n | None => 0%Z end.

(** Enumeration order of a fresh object after the assignments [l]: array
    indices ascending, then the other keys in assignment order. *)
Definition own_keys (l : list (string * json)) : list (string * json) :=
  sort_by (fun p q => (index_of p <=? index_of q)%Z) (filter (fun p => is_index p = true) l)
  ++ filter (fun p => is_index p = false) l.

(** [Object.keys(src).sort()]: by code units. *)
Definition key_leb (p q : string * json) : bool := str_leb p.1 q.1.

(** [sortKeysDeep]. *)
Fixpoint sortKeysDeep (v : json) : json :=
  match v with
  | JArr l => JArr (map sortKeysDeep l)
  | JObj kvs =>
      JObj (own_keys (sort_by key_leb
        (map (fun p => match p with (k, x) => (k, sortKeysDeep x) end) kvs)))
  | _ => v
  end.

(** * [JSON.stringify] *)

Definition dquote : ascii := ascii_of_nat 34.
Definition backslash : ascii := ascii_of_nat 92.

Definition hex_digit (n : nat) : ascii :=
  ascii_of_nat (if (n <? 10)%nat then 48 + n else 87 + n).

(** The escape of one code unit inside a string literal. *)
Definition escape_char (c : ascii) : string :=
  let n := nat_of_ascii c in
  let esc (d : ascii) := String backslash (String d "") in
  if (n =? 34)%nat then esc dquote
  else if (n =? 92)%nat then esc backslash
  else if (n =? 8)%nat then esc "b"%char
  else if (n =? 12)%nat then esc "f"%char
  else if (n =? 10)%nat then esc "n"%char
  else if (n =? 13)%nat then esc "r"%char
  else if (n =? 9)%nat then esc "t"%char
  else if (n <? 32)%nat then
    String backslash (String "u" (String "0" (String "0"
      (String (hex_digit (n / 16)) (String (hex_digit (n mod 16)) "")))))
  else String c "".

Fixpoint escape (s : string) : string :=
  match s with
  | EmptyString => ""
  | String c s' => escape_char c +:+ escape s'
  end.

Definition quote (s : string) : string :=
  String dquote (escape s +:+ String dquote "").

(** [JSON.stringify] on JSON values (a [JNonJson] property is rejected before
    any call, and prints as [null] here). *)
Fixpoint stringify (v : json) : string :=
  match v with
  | JNull | JNonJson => "null"
  | JBool true => "true"
  | JBool false => "false"
  | JNum s => s
  | JStr s => quote s
  | JArr l => "[" +:+ JsString.join "," (map stringify l) +:+ "]"
  | JObj kvs =>
      "{" +:+ JsString.join ","
        (map (fun p => match p with (k, x) => quote k +:+ ":" +:+ stringify x end) kvs)
      +:+ "}"
  end.

(** [canonicalJson] (also [stableJson]). *)
Definition canonicalJson (v : json) : string := stringify (sortKeysDeep v).

(** * Validation: [JsonValueSchema] and [PayloadObject] *)

(** A strict JSON tree: nothing outside JSON at any depth. *)
Fixpoint json_value (v : json) : bool :=
  match v with
  | JNonJson => false
  | JArr l => forallb json_value l
  | JObj kvs => forallb (fun p => match p with (_, x) => json_value x end) kvs
  | _ => true
  end.

(** [PayloadObject.parse]: a record of strict JSON values, else a ZodError. *)
Definition payload_object (v : json) : option json :=
  match v with
  | JObj _ => if json_value v then Some v else None
  | _ => None
  end.

(** * Values up to key order *)

(** [same_json v w]: [w] is [v] with the properties of its objects listed in
    another order, at any depth: what a [jsonb] column may hand back. *)
Inductive same_json : json -> json -> Prop :=
| same_refl v : same_json v v
| same_arr l l' : Forall2 same_json l l' -> same_json (JArr l) (JArr l')
| same_obj kvs kvs' kvs'' :
    Forall2 (fun p q => p.1 = q.1 /\ same_json p.2 q.2) kvs kvs' ->
    kvs' ≡ₚ kvs'' -> same_json (JObj kvs) (JObj kvs'').

(** Objects have distinct keys, at every depth. *)
Inductive distinct_keys : json -> Prop :=
| dk_null : distinct_keys JNull
| dk_bool b : distinct_keys (JBool b)
| dk_num s : distinct_keys (JNum s)
| dk_str s : distinct_keys (JStr s)
| dk_non : distinct_keys JNonJson
| dk_arr l : Forall distinct_keys l -> distinct_keys (JArr l)
| dk_obj kvs : NoDup (map fst kvs) -> Forall (fun p => distinct_keys p.2) kvs ->
    distinct_keys (JObj kvs).

(** * Lemmas *)

Definition on_snd (f : json -> json) (p : string * json) : string * json :=
  match p with (k, x) => (k, f x) end.

Lemma own_keys_perm l : own_keys l ≡ₚ l.
Proof.
  unfold own_keys. rewrite sort_by_perm.
  induction l as [|p l IH]; [done|]. rewrite !filter_cons.
  destruct (is_index p) eqn:E; rewrite ?decide_True, ?decide_False by congruence; simpl.
  - by rewrite IH.
  - by rewrite <- Permutation_middle, IH.
Qed.

Lemma map_fst_on_snd f kvs : map fst (map (on_snd f) kvs) = map fst kvs.
Proof. rewrite map_map. apply map_ext. by intros []. Qed.

Lemma NoDup_fst_inj (l : list (string * json)) p q :
  NoDup (map fst l) -> p ∈ l -> q ∈ l -> p.1 = q.1 -> p = q.
Proof.
  intros Hnd Hp Hq E. apply list_elem_of_lookup in Hp as [i Hi].
  apply list_elem_of_lookup in Hq as [j Hj].
  assert (i = j) as ->; [|congruence].
  eapply (NoDup_lookup _ i j p.1 Hnd).
  - change (map fst l) with (fst <$> l). rewrite list_lookup_fmap, Hi. done.
  - change (map fst l) with (fst <$> l). rewrite list_lookup_fmap, Hj. simpl. congruence.
Qed.

(** Sorting the properties of an object forgets the order they came in. *)
Lemma sort_keys_perm (l1 l2 : list (string * json)) :
  NoDup (map fst l1) -> l1 ≡ₚ l2 -> sort_by key_leb l1 = sort_by key_leb l2.
Proof.
  intros Hnd Hp. apply sort_by_canonical; [| | |done].
  - intros p q. apply str_leb_total.
  - intros p q r. apply str_leb_trans.
  - intros p q Hpin Hqin H1 H2. eapply NoDup_fst_inj; eauto. by apply str_leb_antisym.
Qed.

Lemma sortKeysDeep_same v w :
  distinct_keys v -> same_json v w -> sortKeysDeep v = sortKeysDeep w.
Proof.
  revert w. induction v as [| | | |l IH|kvs IH|] using json_nested_ind;
    intros w Hd Hs; inversion Hs as [|? l' Hl|? kvs' kvs'' Hk Hp]; subst; try done.
  - inversion Hd as [| | | | |? Hd'|]; subst. simpl. f_equal.
    clear Hs Hd. induction Hl as [|x y l l' Hxy Hl IHl]; [done|].
    inversion IH; inversion Hd'; subst. simpl. f_equal; auto.
  - inversion Hd as [| | | | | |? Hnd Hd']; subst. simpl.
    change (map _ kvs) with (map (on_snd sortKeysDeep) kvs).
    change (map _ kvs'') with (map (on_snd sortKeysDeep) kvs'').
    assert (E : map (on_snd sortKeysDeep) kvs = map (on_snd sortKeysDeep) kvs').
    { clear Hs Hd Hnd Hp. induction Hk as [|[k x] [k' y] l l' [Hkk Hxy] Hk IHk]; [done|].
      inversion IH; inversion Hd'; subst. simpl in *. f_equal; [f_equal; auto|auto]. }
    do 2 f_equal. apply sort_keys_perm; [by rewrite map_fst_on_snd|].
    rewrite E. by apply Permutation_map.
Qed.

Lemma same_sortKeysDeep v : same_json v (sortKeysDeep v).
Proof.
  induction v as [| | | |l IH|kvs IH|] using json_nested_ind; try constructor; simpl.
  - induction IH; simpl; constructor; auto.
  - change (map _ kvs) with (map (on_snd sortKeysDeep) kvs).
    eapply same_obj with (kvs' := map (on_snd sortKeysDeep) kvs).
    + induction IH as [|[k x] l Hx Hl IHl]; simpl; constructor; auto.
    + symmetry. etransitivity; [apply own_keys_perm|apply sort_by_perm].
Qed.

Lemma distinct_keys_same v w : distinct_keys v -> same_json v w -> distinct_keys w.
Proof.
  revert w. induction v as [| | | |l IH|kvs IH|] using json_nested_ind;
    intros w Hd Hs; inversion Hs as [|? l' Hl|? kvs' kvs'' Hk Hp]; subst; try done.
  - inversion Hd as [| | | | |? Hd'|]; subst. constructor.
    clear Hs Hd. induction Hl as [|x y l l' Hxy Hl IHl]; [done|].
    inversion IH; inversion Hd'; subst. constructor; auto.
  - inversion Hd as [| | | | | |? Hnd Hd']; subst.
    assert (E : map fst kvs = map fst kvs' /\ Forall (fun p => distinct_keys p.2) kvs').
    { clear Hs Hd Hnd Hp. induction Hk as [|[k x] [k' y] l l' [Hkk Hxy] Hk IHk]; [done|].
      inversion IH; inversion Hd'; subst. destruct IHk as [E Hf]; [done..|]. simpl in *.
      split; [congruence|]. constructor; simpl; auto. }
    destruct E as [E Hf]. constructor.
    + rewrite <- Hp, <- E. done.
    + by rewrite <- Hp.
Qed.

Lemma same_json_trans u v w : same_json u v -> same_json v w -> same_json u w.
Proof.
  revert v w. induction u as [| | | |l IH|kvs IH|] using json_nested_ind; intros v w Huv Hvw;
    inversion Huv as [|? l' Hl|? k1 k2 Hk Hp]; subst; try done.
  - inversion Hvw as [|? l2 Hl2|]; subst; [done|]. constructor. clear Huv Hvw. revert l2 Hl2.
    induction Hl as [|x y l l' Hxy Hl IHl]; intros l2 Hl2; inversion Hl2; subst; [constructor|].
    inversion IH; subst. constructor; eauto.
  - inversion Hvw as [| |? k3 k4 Hk2 Hp2]; subst; [done|].
    destruct (Permutation_Forall2 (Permutation_sym Hp) Hk2) as (k1' & Hp3 & Hk3).
    apply same_obj with (kvs' := k1'); [|by rewrite <- Hp3].
    clear Huv Hvw Hp Hk2 Hp2 Hp3. revert k1' Hk3.
    induction Hk as [|p q l l' [E Hpq] Hk IHk]; intros m Hm; inversion Hm as [|? p' ? m' [E' Hq] Hm']; subst;
      [constructor|].
    inversion IH; subst. constructor; [|by apply IHk]. split; [congruence|eauto].
Qed.

#[export] Hint Resolve same_refl same_sortKeysDeep own_keys_perm : codemaster.

(** * Properties *)

(** The canonical encoding does not depend on the order in which the
    properties of an object (at any depth) are enumerated: a payload read back
    from a [jsonb] column hashes like the one that was written. *)
Theorem canonicalJson_key_order v w :
  distinct_keys v -> same_json v w -> canonicalJson v = canonicalJson w.
Proof. intros Hd Hs. unfold canonicalJson. by rewrite (sortKeysDeep_same v w). Qed.
