(* ===== verification/BackgroundJobs.v ===== *)
(** [runner/background_jobs_repo.ts]: the generic job queue over
    [core.background_jobs].  One definition per repository method; a method is
    one fenced statement (or, for [enqueue], up to three INSERT / SELECT
    rounds, each statement autocommitted, with other transactions in
    between). *)
From Stdlib Require Import QArith.
From stdpp Require Import base gmap sets list strings.
From Stdlib Require Import ZArith Lia.
From S2P Require Import Prelude JobTable Json.
Open Scope Z_scope.

(** * Data *)

Record bg_row := BgRow {
  bg_core : lease_core;
  job_type : string;
  installation_id : option string;
  payload : json;
  payload_sha256 : string;
  dedup_key : option string;
  schema_version : Z;
  updated_at : Z;
}.

Definition bg_with_core (c : lease_core) (r : bg_row) : bg_row :=
  {| bg_core := c; job_type := job_type r; installation_id := installation_id r;
     payload := payload r; payload_sha256 := payload_sha256 r;
     dedup_key := dedup_key r; schema_version := schema_version r;
     updated_at := updated_at r |}.

(** [updated_at = now()]. *)
Definition touch (now : Z) (r : bg_row) : bg_row :=
  {| bg_core := bg_core r; job_type := job_type r; installation_id := installation_id r;
     payload := payload r; payload_sha256 := payload_sha256 r;
     dedup_key := dedup_key r; schema_version := schema_version r;
     updated_at := now |}.

#[export] Instance bg_row_job_row : JobRow bg_row :=
  {| core := bg_core; with_core := bg_with_core; core_with := fun _ _ => eq_refl |}.

Record enqueue_args := EnqueueArgs {
  a_job_type : string;
  a_payload : json;
  a_dedup_key : option string;
  a_installation_id : option string;
  a_priority : option Z;
  a_max_attempts : option Z;
  a_run_after : option Z;
}.

Inductive bg_error :=
| ZodError                 (* [PayloadObject.parse] *)
| CheckViolation           (* a CHECK of the table *)
| PrimaryKeyViolation      (* [job_id] *)
| NotConverged             (* three conflict/settle races in a row *)
| PayloadIntegrityError.

Definition BACKGROUND_JOB_ENVELOPE_SCHEMA_VERSION : Z := 1.

(** Row [r] is active and holds dedup key [k]: the predicate of the partial
    unique index [uq_background_jobs_dedup_active]. *)
Definition active (c : lease_core) : bool :=
  match state c with ready | leased => true | _ => false end.
Definition holds_key (k : string) (r : bg_row) : bool :=
  active (bg_core r) && opt_is (dedup_key r) k.

(** [SELECT job_id ... WHERE dedup_key = $k AND state IN ('ready','leased')
    LIMIT 1]; [dedup_key = NULL] selects nothing. *)
Definition select_holder (key : option string) (t : gmap string bg_row) : option string :=
  match key with
  | None => None
  | Some k => fst <$> head (filter (fun p => holds_key k p.2 = true) (rows t))
  end.

Section Repo.
(** node's [createHash("sha256")], hex-encoded. *)
Variable sha256hex : string -> string.

(** ** enqueue *)

(** The row the INSERT writes; the defaults are the source's [??]s, and
    [COALESCE(runAfter, now())]. *)
Definition new_row (a : enqueue_args) (p : json) (now : Z) : bg_row :=
  {| bg_core :=
       {| state := ready; priority := default 0 (a_priority a); attempts := 0;
          max_attempts := default 3 (a_max_attempts a);
          run_after := default now (a_run_after a); created_at := now;
          lease_owner := None; attempt_token := None; leased_until := None;
          timeout_at := None; heartbeat_at := None; last_error := None;
          dead_reason := None; finished_at := None |};
     job_type := a_job_type a; installation_id := a_installation_id a;
     payload := sortKeysDeep p; payload_sha256 := sha256hex (canonicalJson p);
     dedup_key := a_dedup_key a;
     schema_version := BACKGROUND_JOB_ENVELOPE_SCHEMA_VERSION; updated_at := now |}.

(** [INSERT ... ON CONFLICT (dedup_key) WHERE ... DO NOTHING RETURNING
    job_id]: [Ok (t', Some id)] inserted, [Ok (t, None)] conflict. *)
Definition try_insert (a : enqueue_args) (p : json) (now : Z) (id : string)
    (t : gmap string bg_row) : result bg_error (gmap string bg_row * option string) :=
  if (default 0 (a_priority a) <? 0) || (default 3 (a_max_attempts a) <? 1)
  then Throw CheckViolation
  else match select_holder (a_dedup_key a) t with
       | Some _ => Ok (t, None)
       | None =>
           match t !! id with
           | Some _ => Throw PrimaryKeyViolation
           | None => Ok (<[id := new_row a p now]> t, Some id)
           end
       end.

(** The bounded retry loop.  [ids] are the uuids minted per round, [clock]
    the database instants of the INSERTs, [env i] what other transactions
    did between two consecutive statements. *)
Fixpoint enqueue_loop (tries : nat) (i : nat) (a : enqueue_args) (p : json)
    (ids : nat -> string) (clock : nat -> Z)
    (env : nat -> gmap string bg_row -> gmap string bg_row)
    (t : gmap string bg_row) : result bg_error (gmap string bg_row * string) :=
  match tries with
  | O => Throw NotConverged
  | S n =>
      let? (t1, inserted) := try_insert a p (clock i) (ids i) t in
      match inserted with
      | Some id => Ok (t1, id)
      | None =>
          let t2 := env (2 * i)%nat t1 in
          match select_holder (a_dedup_key a) t2 with
          | Some id => Ok (t2, id)
          | None => enqueue_loop n (S i) a p ids clock env (env (2 * i + 1)%nat t2)
          end
      end
  end.

Definition enqueue (a : enqueue_args) (ids : nat -> string) (clock : nat -> Z)
    (env : nat -> gmap string bg_row -> gmap string bg_row)
    (t : gmap string bg_row) : result bg_error (gmap string bg_row * string) :=
  match payload_object (a_payload a) with
  | None => Throw ZodError
  | Some p => enqueue_loop 3 0 a p ids clock env t
  end.

(** ** verifyPayload *)

Definition verifyPayload (job : bg_row) : result bg_error json :=
  match payload_object (payload job) with
  | None => Throw ZodError
  | Some p =>
      if String.eqb (sha256hex (canonicalJson p)) (payload_sha256 job)
      then Ok p else Throw PayloadIntegrityError
  end.
End Repo.

(** ** claim and the fenced writes *)

Definition getById (id : string) (t : gmap string bg_row) : option bg_row := t !! id.

(** [locked] are the rows concurrent claimers hold; [token] is the fresh
    [gen_random_uuid()]. *)
Definition claim (owner token : string) (leaseMs maxRuntimeMs : Z) (locked : gset string)
    (now : Z) (t : gmap string bg_row) : gmap string bg_row * option (string * bg_row) :=
  match claim_pick locked now t with
  | None => (t, None)
  | Some (id, r) =>
      let r' := touch now (with_core (core_claim now owner token leaseMs maxRuntimeMs (core r)) r) in
      (<[id := r']> t, Some (id, r'))
  end.

(** [... AND (timeout_at IS NULL OR now() < timeout_at)]. *)
Definition heartbeat (id owner token : string) (leaseMs now : Z) (t : gmap string bg_row)
    : gmap string bg_row * bool :=
  fenced_update (fun c => now_lt_opt_or_null now (timeout_at c))
    (fun r => touch now (with_core (core_heartbeat now leaseMs (core r)) r)) id owner token t.

Definition markDone (id owner token : string) (now : Z) (t : gmap string bg_row)
    : gmap string bg_row * bool :=
  fenced_update (fun _ => true)
    (fun r => touch now (with_core (core_finish done now (core r)) r)) id owner token t.

(** Returns [(applied, terminal)]; [rnd] is the value of [random()]. *)
Definition markFailed (id owner token error : string) (baseBackoffMs : Z) (rnd : Q) (now : Z)
    (t : gmap string bg_row) : gmap string bg_row * (bool * bool) :=
  let '(t', applied) := fenced_update (fun _ => true)
    (fun r => touch now (with_core (core_failed now error baseBackoffMs rnd (core r)) r))
    id owner token t in
  (t', (applied,
        applied && match t' !! id with
                   | Some r => bool_decide (state (core r) = dead)
                   | None => false
                   end)).

Definition deferRetry (id owner token error : string) (runAfter now : Z)
    (t : gmap string bg_row) : gmap string bg_row * bool :=
  fenced_update (fun _ => true)
    (fun r => touch now (with_core (core_defer error runAfter (core r)) r)) id owner token t.

Definition terminalSettle (id owner token reason : string) (now : Z)
    (t : gmap string bg_row) : gmap string bg_row * bool :=
  fenced_update (fun _ => true)
    (fun r => touch now (with_core
       (set_dead_reason (Some (left2000 reason)) (core_finish dead now (core r))) r))
    id owner token t.

(** One statement over every stuck row; the number of rows. *)
Definition reapStuckRuns (now : Z) (t : gmap string bg_row) : gmap string bg_row * nat :=
  (update_where (fun _ r => stuck now (core r))
     (fun r => touch now (with_core (core_reap now (core r)) r)) t,
   length (filter (fun p => stuck now (core p.2) = true) (rows t))).

(** * The queue as a transition system *)

(** The table and the attempt tokens handed out so far. *)
Record bg_state := BgState { jobs : gmap string bg_row; issued : gset string }.

Section Steps.
Variable sha256hex : string -> string.

(** One autocommitted statement of any client. *)
Inductive bg_step (s : bg_state) : bg_state -> Prop :=
| step_insert a p now id t' o :
    payload_object (a_payload a) = Some p ->
    try_insert sha256hex a p now id (jobs s) = Ok (t', o) ->
    bg_step s (BgState t' (issued s))
| step_claim owner token leaseMs maxRuntimeMs locked now :
    token ∉ issued s ->
    bg_step s (BgState (claim owner token leaseMs maxRuntimeMs locked now (jobs s)).1
                       ({[token]} ∪ issued s))
| step_heartbeat id owner token leaseMs now :
    bg_step s (BgState (heartbeat id owner token leaseMs now (jobs s)).1 (issued s))
| step_mark_done id owner token now :
    bg_step s (BgState (markDone id owner token now (jobs s)).1 (issued s))
| step_mark_failed id owner token error base rnd now :
    bg_step s (BgState (markFailed id owner token error base rnd now (jobs s)).1 (issued s))
| step_defer id owner token error runAfter now :
    bg_step s (BgState (deferRetry id owner token error runAfter now (jobs s)).1 (issued s))
| step_settle id owner token reason now :
    bg_step s (BgState (terminalSettle id owner token reason now (jobs s)).1 (issued s))
| step_reap now :
    bg_step s (BgState (reapStuckRuns now (jobs s)).1 (issued s)).

Inductive bg_steps (s : bg_state) : bg_state -> Prop :=
| steps_refl : bg_steps s s
| steps_trans s1 s2 : bg_steps s s1 -> bg_step s1 s2 -> bg_steps s s2.

Definition bg_init : bg_state := BgState ∅ ∅.

(** ** Refinement of the abstract lifecycle *)

(** The columns no statement rewrites. *)
Definition same_identity (r r' : bg_row) : Prop :=
  job_type r' = job_type r /\ payload r' = payload r /\
  payload_sha256 r' = payload_sha256 r /\ dedup_key r' = dedup_key r /\
  installation_id r' = installation_id r.

#[local] Instance same_identity_refl : Reflexive same_identity.
Proof. by intros []. Qed.

Lemma try_insert_cases a p now id t t' o :
  try_insert sha256hex a p now id t = Ok (t', o) ->
  (t' = t /\ o = None /\ is_Some (select_holder (a_dedup_key a) t)) \/
  (t' = <[id := new_row sha256hex a p now]> t /\ o = Some id /\ t !! id = None /\
   select_holder (a_dedup_key a) t = None /\ fresh_core (core (new_row sha256hex a p now))).
Proof.
  unfold try_insert. destruct (_ || _) eqn:E; [discriminate|]. bool_to_prop.
  destruct (select_holder _ t) eqn:Eh; [intros [= <- <-]; eauto|].
  destruct (t !! id) eqn:Ei; [discriminate|]. intros [= <- <-]. right.
  split_and!; try done.
Qed.

(** Every statement moves every row by the abstract lifecycle. *)
Lemma bg_step_table s s' :
  bg_step s s' -> exists fresh,
    issued s' = grant fresh (issued s) /\
    table_step same_identity (issued s) fresh (jobs s) (jobs s').
Proof.
  intros [a p now id t' o Hp Hi|owner token l m locked now Hfr| | | | | |now]; simpl;
    try (exists None; split; [done|]; apply table_step_fenced; [apply _|]; intros r Hf Hg;
         split; [|done]; simpl; eauto with codemaster).
  - exists None. split; [done|].
    apply try_insert_cases in Hi as [(-> & _)|(-> & _ & Hn & _ & Hf)];
      [by apply table_step_refl|by apply table_step_insert].
  - exists (Some token). split; [done|]. unfold claim.
    destruct (claim_pick _ _ _) as [[k r]|] eqn:E; [|by apply table_step_refl].
    apply claim_pick_some in E as (Hk & _ & Hc & _).
    eapply table_step_update; [apply _|done|simpl; by eapply cs_claim|done].
  - exists None. split; [done|]. unfold markFailed.
    destruct (fenced_update _ _ _ _ _ _) as [t b] eqn:E. change t with (t, b).1. rewrite <- E.
    apply table_step_fenced; [apply _|]. intros r Hf Hg. split; [|done]. simpl.
    eauto with codemaster.
  - exists None. split; [done|].
    apply table_step_update_where; [apply _|]. intros k r Hst. split; [|done]. simpl.
    by constructor.
Qed.

(** ** At most one active job per dedup key *)

Definition dedup_unique (t : gmap string bg_row) : Prop :=
  forall key k1 r1 k2 r2,
    t !! k1 = Some r1 -> t !! k2 = Some r2 ->
    holds_key key r1 = true -> holds_key key r2 = true -> k1 = k2.

Lemma holds_key_true key r :
  holds_key key r = true <-> active (bg_core r) = true /\ dedup_key r = Some key.
Proof.
  clear sha256hex. unfold holds_key, opt_is. rewrite andb_true_iff.
  destruct (dedup_key r); rewrite ?String.eqb_eq; naive_solver.
Qed.

Lemma select_holder_Some key t id :
  select_holder (Some key) t = Some id ->
  exists r, t !! id = Some r /\ holds_key key r = true.
Proof.
  simpl. destruct (filter _ _) as [|[k r] l] eqn:E; [done|]. intros [= <-]. exists r.
  assert (Hin : (k, r) ∈ filter (fun p => holds_key key p.2 = true) (rows t))
    by (rewrite E; apply elem_of_cons; auto).
  apply list_elem_of_filter in Hin as [? Hin]. by apply elem_of_rows in Hin.
Qed.

Lemma select_holder_None key t k r :
  select_holder (Some key) t = None -> t !! k = Some r -> holds_key key r = false.
Proof.
  simpl. intros Hn Hk. destruct (holds_key key r) eqn:Eh; [|done].
  assert (Hin : (k, r) ∈ filter (fun p => holds_key key p.2 = true) (rows t))
    by (apply list_elem_of_filter; split; [done|by apply elem_of_rows]).
  destruct (filter _ _); [by apply elem_of_nil in Hin|done].
Qed.

Lemma fenced_update_new guard g id owner token (t : gmap string bg_row) k r :
  t !! k = None -> (fenced_update guard g id owner token t).1 !! k <> Some r.
Proof. intros Hn. apply (fenced_update_None guard g id owner token) in Hn. congruence. Qed.

(** A step that adds a row is an INSERT that saw no active holder. *)
Lemma bg_step_new s s' k r' :
  bg_step s s' -> jobs s !! k = None -> jobs s' !! k = Some r' ->
  jobs s' = <[k := r']> (jobs s) /\ select_holder (dedup_key r') (jobs s) = None.
Proof.
  intros Hs Hn Hk. destruct Hs as [a p now id t' o Hp Hi| | | | | | |now]; simpl in *;
    try (by apply fenced_update_new in Hk).
  - apply try_insert_cases in Hi as [(-> & _)|(-> & _ & Hid & Hh & _)]; [congruence|].
    destruct (decide (id = k)) as [->|Hne]; [|rewrite lookup_insert_ne in Hk; congruence].
    rewrite lookup_insert_eq in Hk. by injection Hk as <-.
  - unfold claim in Hk. destruct (claim_pick _ _ _) as [[j r]|] eqn:E; [|simpl in Hk; congruence].
    apply claim_pick_some in E as (Hj & _). simpl in Hk.
    rewrite lookup_insert_ne in Hk by congruence. congruence.
  - unfold markFailed in Hk. destruct (fenced_update _ _ _ _ _ _) as [t b] eqn:E. simpl in Hk.
    change t with (t, b).1 in Hk. rewrite <- E in Hk. by apply fenced_update_new in Hk.
  - rewrite lookup_update_where, Hn in Hk. discriminate.
Qed.

(** An active row of the new table was active, with the same key, before. *)
Lemma bg_step_holder s s' k r r' key :
  bg_step s s' -> jobs s !! k = Some r -> jobs s' !! k = Some r' ->
  holds_key key r' = true -> holds_key key r = true.
Proof.
  intros Hs Hk Hk' Hh. apply bg_step_table in Hs as (fresh & _ & Hs). specialize (Hs k). rewrite Hk, Hk' in Hs.
  destruct Hs as [Hc (_ & _ & _ & Ed & _)].
  apply holds_key_true in Hh as [Ha Hd]. apply holds_key_true. split; [|congruence].
  destruct (terminal (core r)) eqn:Et.
  - apply core_step_terminal in Hc; [|done]. simpl in Hc. congruence.
  - unfold terminal, active in *. simpl in Et. destruct (state (bg_core r)); done.
Qed.

Lemma bg_step_dedup s s' :
  bg_step s s' -> dedup_unique (jobs s) -> dedup_unique (jobs s').
Proof.
  intros Hs Hu key k1 r1 k2 r2 H1 H2 Hh1 Hh2.
  assert (Hnew : forall k r j q, jobs s !! k = None -> jobs s' !! k = Some r ->
      jobs s' !! j = Some q -> holds_key key r = true -> holds_key key q = true -> k = j).
  { intros k r j q Hn Hk Hj Hr Hq. destruct (bg_step_new _ _ _ _ Hs Hn Hk) as [E Hsel].
    destruct (decide (k = j)) as [|Hne]; [done|].
    rewrite E, lookup_insert_ne in Hj by done.
    apply holds_key_true in Hr as [_ Hr]. rewrite Hr in Hsel.
    by rewrite (select_holder_None _ _ _ _ Hsel Hj) in Hq. }
  destruct (jobs s !! k1) as [q1|] eqn:E1; [|by eapply (Hnew k1 r1)].
  destruct (jobs s !! k2) as [q2|] eqn:E2; [|symmetry; by eapply (Hnew k2 r2)].
  eapply (Hu key k1 q1 k2 q2); eauto using bg_step_holder.
Qed.

(** ** The invariant of the queue *)

Definition bg_inv (s : bg_state) : Prop :=
  table_wf (issued s) (jobs s) /\ dedup_unique (jobs s).

Lemma bg_step_inv s s' : bg_step s s' -> bg_inv s -> bg_inv s'.
Proof.
  intros Hs [Hwf Hu]. split; [|by eapply bg_step_dedup].
  destruct (bg_step_table _ _ Hs) as (fresh & -> & Ht). eapply table_step_wf; [exact Ht|exact Hwf].
Qed.

Lemma bg_steps_superseded s s' k tok :
  bg_steps s s' -> superseded (issued s) k tok (jobs s) ->
  superseded (issued s') k tok (jobs s').
Proof.
  induction 1 as [|s1 s2 _ IH Hs]; intros Hsup; [done|]. specialize (IH Hsup).
  destruct (bg_step_table _ _ Hs) as (fresh & -> & Ht). by eapply table_step_superseded.
Qed.

Lemma bg_init_inv : bg_inv bg_init.
Proof.
  split; [intros k r H|intros key k1 r1 k2 r2 H]; simpl in H; rewrite lookup_empty in H;
    discriminate.
Qed.

Lemma bg_steps_inv s s' : bg_steps s s' -> bg_inv s -> bg_inv s'.
Proof. induction 1; eauto using bg_step_inv. Qed.
End Steps.

(** ** What each method does to the table *)

Definition no_interference : nat -> gmap string bg_row -> gmap string bg_row := fun _ t => t.

(** A validated [enqueue] leaves an active row under the caller's key. *)
Definition enqueued (a : enqueue_args) (id : string) (t : gmap string bg_row) : Prop :=
  exists r, t !! id = Some r /\ active (bg_core r) = true /\ dedup_key r = a_dedup_key a.

Lemma enqueue_loop_holder sha n i a p ids clock env t t' id :
  enqueue_loop sha n i a p ids clock env t = Ok (t', id) -> enqueued a id t'.
Proof.
  revert i t. induction n as [|n IH]; intros i t H; [discriminate|]. simpl in H.
  apply rbind_ok in H as ([t1 o] & Hi & H).
  apply try_insert_cases in Hi as [(-> & -> & Hh)|(-> & -> & _ & _ & _)].
  - destruct (a_dedup_key a) as [key|] eqn:Ek; [|by destruct Hh].
    destruct (select_holder (Some key) (env _ _)) as [id'|] eqn:Es; [|by eapply IH].
    injection H as <- <-. apply select_holder_Some in Es as (r & Hr & Hh').
    apply holds_key_true in Hh' as [? ?]. exists r. by rewrite Ek.
  - injection H as <- <-. eexists. by rewrite lookup_insert_eq.
Qed.

(** Without interference the first round decides. *)
Lemma enqueue_loop_quiet sha n i a p ids clock t :
  enqueue_loop sha (S n) i a p ids clock no_interference t =
  match try_insert sha a p (clock i) (ids i) t with
  | Throw e => Throw e
  | Ok (t1, Some id) => Ok (t1, id)
  | Ok (t1, None) => match select_holder (a_dedup_key a) t with
                     | Some id => Ok (t, id)
                     | None => Throw NotConverged
                     end
  end.
Proof.
  simpl. destruct (try_insert _ _ _ _ _ _) as [[t1 [id|]]|e] eqn:E; simpl; [done| |done].
  apply try_insert_cases in E as [(-> & _ & Hh)|(_ & ? & _)]; [|done].
  unfold no_interference. by destruct Hh as [? ->].
Qed.

(** Without interference, the id is the one active holder of the key. *)
Lemma enqueue_select sha a ids clock t t' id key :
  enqueue sha a ids clock no_interference t = Ok (t', id) -> a_dedup_key a = Some key ->
  select_holder (Some key) t' = Some id /\
  (t' = t \/ exists p now, t' = <[id := new_row sha a p now]> t /\ t !! id = None /\
     select_holder (Some key) t = None).
Proof.
  unfold enqueue. destruct (payload_object _) as [p|]; [|discriminate]. intros H Ka.
  rewrite enqueue_loop_quiet in H. destruct (try_insert _ _ _ _ _ _) as [[t1 o]|] eqn:Ei; [|done].
  apply try_insert_cases in Ei as [(-> & -> & Hh)|(-> & -> & Hn & Hs & _)]; rewrite Ka in *.
  - destruct Hh as [? Eh]. rewrite Eh in H. injection H as <- <-. auto.
  - injection H as <- <-. split; [|right; eauto].
    assert (Hnew : <[ids 0%nat := new_row sha a p (clock 0%nat)]> t !! ids 0%nat =
      Some (new_row sha a p (clock 0%nat))) by by rewrite lookup_insert_eq.
    destruct (select_holder (Some key) (<[ids 0%nat := _]> t)) as [j|] eqn:Ej.
    + apply select_holder_Some in Ej as (q & Hq & Hh).
      destruct (decide (ids 0%nat = j)) as [->|Hne]; [done|].
      rewrite lookup_insert_ne in Hq by done.
      by rewrite (select_holder_None _ _ _ _ Hs Hq) in Hh.
    + pose proof (select_holder_None _ _ _ _ Ej Hnew) as F.
      assert (holds_key key (new_row sha a p (clock 0%nat)) = true)
        by (apply holds_key_true; done). congruence.
Qed.

(** An active key absorbs an enqueue. *)
Lemma enqueue_absorbed sha a p ids clock t id key :
  payload_object (a_payload a) = Some p -> a_dedup_key a = Some key ->
  0 <= default 0 (a_priority a) -> 1 <= default 3 (a_max_attempts a) ->
  select_holder (Some key) t = Some id ->
  enqueue sha a ids clock no_interference t = Ok (t, id).
Proof.
  intros Hp Ka Hpr Hma Hsel. unfold enqueue. rewrite Hp, enqueue_loop_quiet.
  unfold try_insert. rewrite Ka, Hsel.
  destruct (_ || _) eqn:E; [|done]. apply orb_true_iff in E as [E|E]; apply Z.ltb_lt in E; lia.
Qed.

Lemma select_holder_unique key t k r :
  dedup_unique t -> t !! k = Some r -> holds_key key r = true -> select_holder (Some key) t = Some k.
Proof.
  intros Hu Hk Hh. destruct (select_holder (Some key) t) as [j|] eqn:E.
  - apply select_holder_Some in E as (q & Hq & Hhq). f_equal. by eapply Hu.
  - by rewrite (select_holder_None _ _ _ _ E Hk) in Hh.
Qed.

Lemma json_value_same v w : same_json v w -> json_value v = json_value w.
Proof.
  revert w. induction v as [| | | |l IH|kvs IH|] using json_nested_ind;
    intros w Hs; inversion Hs as [|? l' Hl|? kvs' kvs'' Hk Hp]; subst; try done; simpl.
  - clear Hs. induction Hl as [|x y l l' Hxy Hl IHl]; [done|].
    inversion IH; subst. simpl. f_equal; auto.
  - transitivity (forallb (fun p => match p with (_, x) => json_value x end) kvs').
    + clear Hs Hp. induction Hk as [|[k x] [k' y] l l' [Hkk Hxy] Hk IHk]; [done|].
      inversion IH; subst. simpl in *. f_equal; auto.
    + clear -Hp. induction Hp as [|[k x]|[k x] [k' y]|]; simpl; [done|by f_equal| |congruence].
      rewrite !andb_assoc. f_equal. apply andb_comm.
Qed.

Lemma payload_object_same v w p :
  payload_object v = Some p -> same_json v w -> p = v /\ payload_object w = Some w.
Proof.
  intros H Hs. pose proof (json_value_same _ _ Hs) as E.
  destruct v as [| | | | |kvs|]; try discriminate. unfold payload_object in *.
  destruct (json_value (JObj kvs)); [|discriminate]. injection H as <-. split; [done|].
  inversion Hs; subst; by rewrite <- E.
Qed.

(** Requeueing what a claim charged gives the attempt back. *)
Lemma defer_after_claim now owner token l m error at_us c :
  0 <= attempts c ->
  attempts (core_defer error at_us (core_claim now owner token l m c)) = attempts c.
Proof. simpl. lia. Qed.

(** * Properties *)

(** C3: whatever statements the clients issue in whatever order, from the
    empty table on, every row satisfies the lease invariant ([ready]: an
    attempt left and no lease; [leased]: owned, charged, within the attempt
    budget; settled: no lease, stamped), every token in the table was issued,
    and at most one active job holds a dedup key. *)
Theorem bg_reachable_invariant sha256hex s :
  bg_steps sha256hex bg_init s -> bg_inv s.
Proof. intros Hs. eapply bg_steps_inv; [exact Hs|]. apply bg_init_inv. Qed.

(** C27: a worker that lost its lease is fenced out for good.  Once another
    claim takes job [k] over from the attempt [tok], no statement the
    superseded worker issues under [tok], at any later time and after any
    further activity, affects the table. *)
Theorem bg_superseded_fenced_forever sha256hex s k r tok owner token l m locked now t' r' s2 :
  bg_steps sha256hex bg_init s -> jobs s !! k = Some r -> attempt_token (core r) = Some tok ->
  token ∉ issued s ->
  claim owner token l m locked now (jobs s) = (t', Some (k, r')) ->
  bg_steps sha256hex (BgState t' ({[token]} ∪ issued s)) s2 ->
  forall o error base rnd at_us n lease,
    heartbeat k o tok lease n (jobs s2) = (jobs s2, false) /\
    markDone k o tok n (jobs s2) = (jobs s2, false) /\
    markFailed k o tok error base rnd n (jobs s2) = (jobs s2, (false, false)) /\
    deferRetry k o tok error at_us n (jobs s2) = (jobs s2, false) /\
    terminalSettle k o tok error n (jobs s2) = (jobs s2, false).
Proof.
  intros Hr Hk Htok Hfr Hc Hs2.
  destruct (bg_steps_inv _ _ _ Hr bg_init_inv) as [Hwf _]. destruct (Hwf k r Hk) as [_ Hiss].
  assert (Hsup : superseded (issued s2) k tok (jobs s2)).
  { eapply bg_steps_superseded; [exact Hs2|]. split; simpl; [set_solver|].
    intros q Hq. unfold claim in Hc. destruct (claim_pick _ _ _) as [[j q0]|]; [|discriminate].
    injection Hc as <- -> <-. rewrite lookup_insert_eq in Hq. injection Hq as <-. simpl.
    intros [= ->]. apply Hfr. by apply Hiss. }
  intros o error base rnd at_us n lease.
  unfold heartbeat, markDone, markFailed, deferRetry, terminalSettle.
  by rewrite !(superseded_fenced_update _ _ _ _ _ _ _ Hsup).
Qed.

(** [claim] leases exactly one row, the least in the order (priority
    descending, [run_after], [created_at], [job_id]) among the claimable rows
    no concurrent claimer has locked, charging it one attempt; it returns
    [null], and writes nothing, exactly when there is no such row. *)
Theorem bg_claim_least owner token l m locked now t :
  match claim owner token l m locked now t with
  | (t', None) =>
      t' = t /\ forall k r, t !! k = Some r -> (k ∉ locked) -> claimable now (core r) = false
  | (t', Some (k, r')) =>
      exists r, t !! k = Some r /\ (k ∉ locked) /\ claimable now (core r) = true /\
        t' = <[k := r']> t /\ same_identity r r' /\
        fence owner token (core r') = true /\ attempts (core r') = attempts (core r) + 1 /\
        leased_until (core r') = Some (now + ms l) /\
        forall j q, t !! j = Some q -> (j ∉ locked) -> claimable now (core q) = true ->
          claim_leb (k, r) (j, q) = true
  end.
Proof.
  unfold claim. destruct (claim_pick locked now t) as [[k r]|] eqn:E.
  - apply claim_pick_some in E as (? & ? & ? & ?). exists r. split_and!; try done.
    by apply fence_true.
  - split; [done|]. by apply claim_pick_none.
Qed.

(** Overlap=SKIP.  Whatever other transactions do between the statements
    of an [enqueue], when it returns an id, that id is an active job carrying
    the caller's dedup key; and without interference it converges, and a later
    [enqueue] under the same key returns the same job and writes nothing. *)
Theorem bg_enqueue_dedup sha256hex a ids clock env t t' id :
  enqueue sha256hex a ids clock env t = Ok (t', id) ->
  enqueued a id t' /\
  (env = no_interference -> forall b key pb ids' clock',
     a_dedup_key a = Some key -> a_dedup_key b = Some key ->
     payload_object (a_payload b) = Some pb ->
     0 <= default 0 (a_priority b) -> 1 <= default 3 (a_max_attempts b) ->
     enqueue sha256hex b ids' clock' no_interference t' = Ok (t', id)).
Proof.
  intros H. split.
  - unfold enqueue in H. destruct (payload_object _); [|discriminate].
    by eapply enqueue_loop_holder.
  - intros -> b key pb ids' clock' Ka Kb Hpb Hpr Hma.
    destruct (enqueue_select _ _ _ _ _ _ _ key H Ka) as [Hsel _]. by eapply enqueue_absorbed.
Qed.

(** Round trip of the payload.  The row an [enqueue] inserts passes
    [verifyPayload] when it is read back, although the [jsonb] column may
    return the properties of every object in another order; the handler gets
    the caller's payload, up to that order. *)
Theorem bg_payload_roundtrip sha256hex a p now id t t' r r' :
  payload_object (a_payload a) = Some p -> distinct_keys p ->
  try_insert sha256hex a p now id t = Ok (t', Some id) -> t' !! id = Some r ->
  same_json (payload r) (payload r') -> payload_sha256 r' = payload_sha256 r ->
  verifyPayload sha256hex r' = Ok (payload r') /\
  canonicalJson (payload r') = canonicalJson (a_payload a).
Proof.
  intros Hp Hd Hi Hr Hs Hh.
  apply try_insert_cases in Hi as [(_ & ? & _)|(-> & _)]; [done|].
  rewrite lookup_insert_eq in Hr. injection Hr as <-. simpl in Hs, Hh.
  destruct (payload_object_same _ _ _ Hp (same_sortKeysDeep _)) as [-> Hp1].
  destruct (payload_object_same _ _ _ Hp1 Hs) as [_ Hp2].
  assert (E : canonicalJson (payload r') = canonicalJson (a_payload a)).
  { unfold canonicalJson. rewrite <- (sortKeysDeep_same _ _ (distinct_keys_same _ _ Hd (same_sortKeysDeep _)) Hs).
    by rewrite <- (sortKeysDeep_same _ _ Hd (same_sortKeysDeep _)). }
  split; [|done]. unfold verifyPayload. rewrite Hp2, E, Hh. by rewrite String.eqb_refl.
Qed.

(** The outcome of [markFailed] under a live fence.  The error is always
    recorded and the lease released; with attempts left the job is [ready]
    again after a delay between 0.75 and 1.25 times [base * 2^(attempts-1)]
    milliseconds (the [+-25%] jitter), else it is [dead] with the error as its
    reason, and the caller is told so. *)
Theorem bg_mark_failed_outcome id owner token error base rnd now t r :
  t !! id = Some r -> fence owner token (core r) = true -> wf_core (core r) ->
  0 <= base -> (0 <= rnd)%Q -> (rnd <= 1)%Q ->
  exists r', markFailed id owner token error base rnd now t =
      (<[id := r']> t, (true, bool_decide (max_attempts (core r) <= attempts (core r)))) /\
    last_error (core r') = Some (left2000 error) /\ lease_cleared (core r') /\
    let delay := base * 2 ^ (attempts (core r) - 1) in
    now + 750 * delay <= run_after (core r') <= now + 1250 * delay /\
    if bool_decide (max_attempts (core r) <= attempts (core r))
    then state (core r') = dead /\ dead_reason (core r') = Some (left2000 error) /\
         finished_at (core r') = Some now
    else state (core r') = ready.
Proof.
  intros Hr Hf Hwf Hb H0 H1.
  exists (touch now (with_core (core_failed now error base rnd (core r)) r)).
  unfold markFailed, fenced_update. rewrite Hr, Hf. simpl. rewrite lookup_insert_eq. simpl.
  assert (Ha : 1 <= attempts (bg_core r)).
  { apply fence_true in Hf as (Es & _). destruct Hwf as (_ & _ & Hwf). simpl in *.
    rewrite Es in Hwf. lia. }
  pose proof (backoff_us_bounds base (attempts (bg_core r)) rnd Hb Ha H0 H1).
  destruct (Z.leb_spec (max_attempts (bg_core r)) (attempts (bg_core r)));
    [rewrite !(bool_decide_eq_true_2 (max_attempts _ <= _)) by done
    |rewrite !(bool_decide_eq_false_2 (max_attempts _ <= _)) by lia];
    split_and!; try done; lia.
Qed.

(** The stuck-job reaper.  One sweep dead-letters exactly the rows whose
    lease expired with no attempt left (the ones [claim] will never take
    again), keeps every other row as it is, leaves no such row behind, and
    every expired lease it leaves is one [claim] can take. *)
Theorem bg_reap_exact now t :
  let t' := (reapStuckRuns now t).1 in
  (forall k, t' !! k = (fun r => if stuck now (core r)
                                 then touch now (with_core (core_reap now (core r)) r)
                                 else r) <$> t !! k) /\
  (forall k r, t' !! k = Some r -> stuck now (core r) = false) /\
  (forall k r u, t' !! k = Some r -> state (core r) = leased ->
     leased_until (core r) = Some u -> u < now -> claimable now (core r) = true).
Proof.
  simpl. assert (Hns : forall k r, update_where (fun _ r => stuck now (core r))
       (fun r => touch now (with_core (core_reap now (core r)) r)) t !! k = Some r ->
     stuck now (core r) = false).
  { intros k r. rewrite lookup_update_where. destruct (t !! k) as [q|]; [|done].
    simpl. destruct (stuck now (bg_core q)) eqn:E; intros [= <-]; done. }
  split_and!; [intros k; apply lookup_update_where|done|].
  intros k r u Hk Es Eu Hu. simpl.
  rewrite (expired_lease_split _ _ _ Es Eu Hu). by rewrite (Hns _ _ Hk : stuck now (bg_core r) = false).
Qed.

(** A throttled attempt is free.  A worker that claims a job and defers it
    leaves its [attempts] where they were, so a deferral never brings the job
    nearer to [dead]: it is [ready] at the hinted instant. *)
Theorem bg_defer_costs_no_attempt owner token l m locked now t t1 k r' error at_us now2 :
  (forall j q, t !! j = Some q -> wf_core (core q)) ->
  claim owner token l m locked now t = (t1, Some (k, r')) ->
  exists r r2, t !! k = Some r /\
    deferRetry k owner token error at_us now2 t1 = (<[k := r2]> t1, true) /\
    state (core r2) = ready /\ run_after (core r2) = at_us /\
    attempts (core r2) = attempts (core r) /\ attempts (core r2) < max_attempts (core r2) /\
    last_error (core r2) = Some (left2000 error).
Proof.
  intros Hw.
  unfold claim. destruct (claim_pick _ _ _) as [[j r]|] eqn:E; [|discriminate].
  intros [= <- <- <-]. apply claim_pick_some in E as (Hj & _ & Hc & _).
  specialize (Hw _ _ Hj). exists r. unfold deferRetry, fenced_update. rewrite lookup_insert_eq.
  rewrite (proj2 (fence_true owner token _)) by done. simpl. eexists.
  split_and!; try done; destruct Hw as (? & ? & Hst); simpl in *; [lia|].
  apply claimable_true in Hc as [[Es _]|(_ & Ha & _)]; [|simpl in *; lia].
  simpl in Es. rewrite Es in Hst. lia.
Qed.

(** * Witnesses *)

(** A queue with one job, enqueued at 0, claimed twice: the second claim, at
    20 ms, takes the 10 ms lease of the first over. *)
Definition ex_sha : string -> string := fun s => "sha:" +:+ s.
Definition ex_payload : json := JObj [("scope", JStr "all"); ("days", JNum "30")].
Definition ex_args : enqueue_args :=
  EnqueueArgs "retention" ex_payload (Some "retention:daily") None None None None.
Definition ex_t1 : gmap string bg_row :=
  {[ "job-1" := new_row ex_sha ex_args ex_payload 0 ]}.
Definition ex_t2 : gmap string bg_row := (claim "w1" "tok1" 10 60000 ∅ 5 ex_t1).1.
Definition ex_t3 : gmap string bg_row := (claim "w2" "tok2" 10 60000 ∅ 20000 ex_t2).1.
Definition ex_s2 : bg_state := BgState ex_t2 {["tok1"]}.

Lemma ex_reach2 : bg_steps ex_sha bg_init ex_s2.
Proof.
  eapply steps_trans; [eapply steps_trans; [apply steps_refl|]|].
  - eapply (step_insert _ _ ex_args ex_payload 0 "job-1" ex_t1); vm_compute; reflexivity.
  - change ex_s2 with (BgState (claim "w1" "tok1" 10 60000 ∅ 5 ex_t1).1 {["tok1"]}).
    replace ({["tok1"]} : gset string) with ({["tok1"]} ∪ ∅ : gset string) by set_solver.
    apply step_claim. simpl. set_solver.
Qed.

Lemma bg_reachable_invariant_witness : bg_inv ex_s2.
Proof. apply (bg_reachable_invariant ex_sha). exact ex_reach2. Defined.

Lemma bg_superseded_fenced_forever_witness :
  markDone "job-1" "w1" "tok1" 20001 ex_t3 = (ex_t3, false).
Proof.
  apply (bg_superseded_fenced_forever ex_sha ex_s2 "job-1"
    (touch 5 (with_core (core_claim 5 "w1" "tok1" 10 60000 (bg_core (new_row ex_sha ex_args ex_payload 0)))
                 (new_row ex_sha ex_args ex_payload 0)))
    "tok1" "w2" "tok2" 10 60000 ∅ 20000 ex_t3
    (match (claim "w2" "tok2" 10 60000 ∅ 20000 ex_t2).2 with
     | Some (_, r) => r | None => new_row ex_sha ex_args ex_payload 0 end)
    (BgState ex_t3 ({["tok2"]} ∪ {["tok1"]})) ex_reach2)
    with (error := "") (base := 0) (rnd := 0%Q) (at_us := 0) (lease := 0).
  - vm_compute. reflexivity.
  - reflexivity.
  - simpl. set_solver.
  - vm_compute. reflexivity.
  - apply steps_refl.
Defined.

Lemma bg_enqueue_dedup_witness :
  enqueue ex_sha ex_args (fun _ => "job-2") (fun _ => 7) no_interference ex_t1 = Ok (ex_t1, "job-1").
Proof.
  apply (bg_enqueue_dedup ex_sha ex_args (fun _ => "job-1") (fun _ => 0) no_interference ∅)
    with (key := "retention:daily") (pb := ex_payload); vm_compute; first [reflexivity | discriminate].
Defined.

Lemma bg_payload_roundtrip_witness :
  let back := JObj [("scope", JStr "all"); ("days", JNum "30")] in
  let r := new_row ex_sha ex_args ex_payload 0 in
  verifyPayload ex_sha
    (BgRow (bg_core r) (job_type r) None back (payload_sha256 r) None 1 0) = Ok back.
Proof.
  apply (bg_payload_roundtrip ex_sha ex_args ex_payload 0 "job-1" ∅ ex_t1
    (new_row ex_sha ex_args ex_payload 0)); simpl.
  - vm_compute. reflexivity.
  - repeat constructor; set_solver.
  - vm_compute. reflexivity.
  - vm_compute. reflexivity.
  - eapply same_obj; [repeat constructor|]. vm_compute. apply Permutation_swap.
  - vm_compute. reflexivity.
Defined.

Lemma bg_mark_failed_outcome_witness :
  exists r', markFailed "job-1" "w1" "tok1" "boom" 1000 (1#2)%Q 30 ex_t2 =
    (<["job-1" := r']> ex_t2, (true, false)) /\ state (bg_core r') = ready.
Proof.
  destruct (bg_mark_failed_outcome "job-1" "w1" "tok1" "boom" 1000 (1#2)%Q 30 ex_t2
    (touch 5 (with_core (core_claim 5 "w1" "tok1" 10 60000 (bg_core (new_row ex_sha ex_args ex_payload 0)))
       (new_row ex_sha ex_args ex_payload 0)))) as (r' & H & _ & _ & _ & Hs).
  - vm_compute. reflexivity.
  - reflexivity.
  - vm_compute. split_and!; try discriminate; by eexists.
  - lia.
  - discriminate.
  - discriminate.
  - exists r'. split; [exact H|exact Hs].
Defined.

Lemma bg_defer_costs_no_attempt_witness :
  exists r2, deferRetry "job-1" "w1" "tok1" "429" 90000 40 ex_t2 = (<["job-1" := r2]> ex_t2, true)
    /\ attempts (bg_core r2) = 0.
Proof.
  destruct (bg_defer_costs_no_attempt "w1" "tok1" 10 60000 ∅ 5 ex_t1 ex_t2 "job-1"
    (touch 5 (with_core (core_claim 5 "w1" "tok1" 10 60000 (bg_core (new_row ex_sha ex_args ex_payload 0)))
       (new_row ex_sha ex_args ex_payload 0))) "429" 90000 40) as (r & r2 & Hr & Hd & _ & _ & Ha & _).
  - intros j q. unfold ex_t1. rewrite lookup_singleton_Some. intros [_ <-].
    vm_compute. split_and!; done.
  - vm_compute. reflexivity.
  - exists r2. split; [exact Hd|]. simpl in Ha. rewrite Ha. revert Hr. vm_compute.
    by intros [= <-].
Defined.
