(* ===== verification/WorkflowEvents.v ===== *)
(** [ingest/_workflow_events_repository.ts]: the per-run event stream
    [audit.workflow_events].  [emitWorkflowEvent] is modelled twice: as one
    call inside a transaction, and as the three statements (advisory lock,
    [SELECT MAX], [INSERT]) of many transactions interleaved under READ
    COMMITTED visibility, which is what its per-run lock is about. *)
From stdpp Require Import base gmap sets list strings infinite.
From Stdlib Require Import ZArith Lia Ascii.
From S2P Require Import Prelude Json.
Open Scope Z_scope.

(** * The advisory-lock key *)

Definition hex_val (c : ascii) : option Z :=
  let n := Z.of_nat (nat_of_ascii c) in
  if (48 <=? n) && (n <=? 57) then Some (n - 48)
  else if (97 <=? n) && (n <=? 102) then Some (n - 87)
  else if (65 <=? n) && (n <=? 70) then Some (n - 55)
  else None.

(** [Buffer.from(s, "hex")]: pairs of digits, cut at the first bad pair. *)
Fixpoint hex_bytes (s : string) : list Z :=
  match s with
  | String a (String b s') =>
      match hex_val a, hex_val b with
      | Some x, Some y => (16 * x + y) :: hex_bytes s'
      | _, _ => []
      end
  | _ => []
  end.

(** [s.replace(/-/g, "")]. *)
Fixpoint strip_dashes (s : string) : string :=
  match s with
  | EmptyString => EmptyString
  | String c s' => if Ascii.eqb c "-" then strip_dashes s' else String c (strip_dashes s')
  end.

(** [Buffer.readInt32BE(0)]; [None] is the [RangeError] of a short buffer. *)
Definition readInt32BE (bytes : list Z) : option Z :=
  match bytes with
  | b0 :: b1 :: b2 :: b3 :: _ =>
      let u := Z.lor (Z.shiftl b0 24) (Z.lor (Z.shiftl b1 16) (Z.lor (Z.shiftl b2 8) b3)) in
      Some (if u <? 2147483648 then u else u - 4294967296)
  | _ => None
  end.

Definition runIdToLockKey (runId : string) : option Z :=
  readInt32BE (hex_bytes (String.substring 0 8 (strip_dashes runId))).

Definition WORKFLOW_EVENTS_SEQ_LOCK_NAMESPACE : Z := 0x57424555.

(** * Rows and arguments *)

Definition EVENT_TYPES : list string :=
  ["WEBHOOK_RECEIVED"; "PR_OPENED"; "PR_SYNCHRONIZE"; "INGESTED"; "ANALYSIS_STARTED";
   "ANALYZED"; "FINDINGS_PERSISTED"; "COMMENT_POSTED"; "RETRY_STARTED";
   "lifecycle_transition"; "RUN_SUPERSEDED"; "RUN_CANCELLED"; "RUN_DRAIN_COMPLETED";
   "STALE_WRITE_BLOCKED"; "WORKSPACE_ALLOCATED"; "WORKSPACE_RELEASE_REQUESTED";
   "WORKSPACE_RELEASED"; "WORKSPACE_ORPHANED"; "WORKSPACE_CLEANUP_FAILED";
   "REVIEW_PLACEHOLDER_POSTED"; "REVIEW_PLACEHOLDER_DELETED"].

Definition ORPHAN_REASONS : list string := ["orphan_retire"; "bootstrap_sink"].

Record wf_event := WfEvent {
  event_id : string;
  ev_provider : string;
  ev_delivery : option string;
  ev_run : string;
  ev_review : string;
  sequence_no : Z;
  event_type : string;
  ev_payload : string;            (* the text cast to [jsonb] *)
  received_at : Z;
  ev_installation : option string;
}.

Record emit_args := EmitArgs {
  e_provider : string;
  e_run : string;
  e_review : string;
  e_type : string;
  e_payload : option (list (string * json));
  e_delivery : option string;
  e_installation : option string;
}.

Inductive emit_error :=
| BF3InstallationIdMissing
| UnknownEventType
| NotInTransaction
| LockKeyRangeError
| DuplicateDelivery         (* [uq_workflow_events_provider_delivery] *)
| EventForeignKeyViolation. (* [run_id] / [review_id] *)

(** * One call *)

(** [payload["orphan_reason"]] is a recognised string. *)
Definition orphan_tagged (p : option (list (string * json))) : bool :=
  match list_find (fun kv => kv.1 = "orphan_reason") (default [] p) with
  | Some (_, (_, JStr reason)) => existsb (String.eqb reason) ORPHAN_REASONS
  | _ => false
  end.

(** The checks made before any statement, in the order of the code. *)
Definition emit_validate (in_tx : bool) (a : emit_args) : result emit_error unit :=
  guard? (match e_installation a with Some _ => true | None => orphan_tagged (e_payload a) end)
    else BF3InstallationIdMissing in
  guard? (existsb (String.eqb (e_type a)) EVENT_TYPES) else UnknownEventType in
  guard? in_tx else NotInTransaction in Ok tt.

(** [SELECT COALESCE(MAX(sequence_no), 0) + 1 ... WHERE run_id = $run]. *)
Definition of_run (run : string) (l : list wf_event) : list wf_event :=
  filter (fun e => ev_run e = run) l.
Definition next_seq (run : string) (visible : list wf_event) : Z :=
  foldr Z.max 0 (map sequence_no (of_run run visible)) + 1.

(** The inserted row. *)
Definition event_row (a : emit_args) (id : string) (now seq : Z) : wf_event :=
  {| event_id := id; ev_provider := e_provider a; ev_delivery := e_delivery a;
     ev_run := e_run a; ev_review := e_review a; sequence_no := seq; event_type := e_type a;
     ev_payload := canonicalJson (JObj (default [] (e_payload a)));
     received_at := now; ev_installation := e_installation a |}.

(** The partial unique index on [(provider, delivery_id, received_at)]. *)
Definition same_delivery (e f : wf_event) : bool :=
  match ev_delivery e, ev_delivery f with
  | Some d, Some d' => String.eqb d d' && String.eqb (ev_provider e) (ev_provider f)
                       && (received_at e =? received_at f)
  | _, _ => false
  end.

(** [visible] are the rows the transaction sees (its own included); [fk] says
    whether the referenced run and review exist. *)
Definition emitWorkflowEvent (in_tx : bool) (fk : bool) (a : emit_args) (id : string) (now : Z)
    (visible : list wf_event) : result emit_error (list wf_event * string) :=
  let? _ := emit_validate in_tx a in
  match runIdToLockKey (e_run a) with
  | None => Throw LockKeyRangeError
  | Some _ =>
      let e := event_row a id now (next_seq (e_run a) visible) in
      guard? (negb (existsb (same_delivery e) visible)) else DuplicateDelivery in
      guard? fk else EventForeignKeyViolation in
      Ok (visible ++ [e], id)
  end.

(** * Interleaved transactions *)

(** Where a transaction stands inside [emitWorkflowEvent]. *)
Inductive emit_pc :=
| HasLock (a : emit_args)
| HasSeq (a : emit_args) (seq : Z).

Record wf_sys := WfSys {
  committed : list wf_event;
  pending : gmap string (list wf_event);    (* per transaction, uncommitted *)
  locks : gmap Z string;                    (* advisory lock key -> transaction *)
  pcs : gmap string emit_pc;
}.

(** What transaction [T] sees. *)
Definition own (s : wf_sys) (T : string) : list wf_event := default [] (pending s !! T).
Definition visible (s : wf_sys) (T : string) : list wf_event := committed s ++ own s T.

(** Transaction-scoped advisory locks go with their transaction. *)
Definition drop_locks (T : string) (l : gmap Z string) : gmap Z string :=
  filter (fun p => p.2 <> T) l.

Inductive wf_step (s : wf_sys) : wf_sys -> Prop :=
| wf_lock T a k :
    pcs s !! T = None -> emit_validate true a = Ok tt -> runIdToLockKey (e_run a) = Some k ->
    locks s !! k = None \/ locks s !! k = Some T ->
    wf_step s (WfSys (committed s) (pending s) (<[k := T]> (locks s)) (<[T := HasLock a]> (pcs s)))
| wf_read T a :
    pcs s !! T = Some (HasLock a) ->
    wf_step s (WfSys (committed s) (pending s) (locks s)
                 (<[T := HasSeq a (next_seq (e_run a) (visible s T))]> (pcs s)))
| wf_insert T a seq id now :
    pcs s !! T = Some (HasSeq a seq) ->
    wf_step s (WfSys (committed s)
                 (<[T := own s T ++ [event_row a id now seq]]> (pending s))
                 (locks s) (delete T (pcs s)))
| wf_commit T :
    pcs s !! T = None ->
    wf_step s (WfSys (committed s ++ own s T) (delete T (pending s))
                 (drop_locks T (locks s)) (pcs s))
| wf_rollback T :
    wf_step s (WfSys (committed s) (delete T (pending s))
                 (drop_locks T (locks s)) (delete T (pcs s))).

Definition wf_init : wf_sys := WfSys [] ∅ ∅ ∅.

Inductive wf_reachable : wf_sys -> Prop :=
| wf_start : wf_reachable wf_init
| wf_next s s' : wf_reachable s -> wf_step s s' -> wf_reachable s'.

(** ** Sequences without gaps *)

(** The events of [run] are numbered 1, 2, 3, ... in stream order. *)
Definition gap_free (run : string) (l : list wf_event) : Prop :=
  map sequence_no (of_run run l) = map Z.of_nat (seq 1 (length (of_run run l))).

Lemma of_run_app run l1 l2 : of_run run (l1 ++ l2) = of_run run l1 ++ of_run run l2.
Proof. apply filter_app. Qed.

Lemma foldr_max_seq n m :
  foldr Z.max 0 (map Z.of_nat (seq (S m) n)) = if (n =? 0)%nat then 0 else Z.of_nat (m + n).
Proof.
  revert m. induction n as [|n IH]; intros m; [done|]. simpl. rewrite IH.
  destruct n; simpl; lia.
Qed.

Lemma gap_free_next run l :
  gap_free run l -> next_seq run l = Z.of_nat (S (length (of_run run l))).
Proof.
  unfold gap_free, next_seq. intros ->. rewrite foldr_max_seq.
  destruct (length (of_run run l)); simpl; lia.
Qed.

Lemma gap_free_snoc run l e :
  gap_free run l -> ev_run e = run -> sequence_no e = next_seq run l -> gap_free run (l ++ [e]).
Proof.
  intros Hg Hr Hs. pose proof (gap_free_next _ _ Hg) as Hn. unfold gap_free in *.
  rewrite of_run_app, length_app. unfold of_run at 2 4. rewrite filter_cons_True by done.
  simpl. rewrite map_app, Hg, Nat.add_1_r, seq_S, map_app. simpl. by rewrite Hs, Hn.
Qed.

Lemma gap_free_other run l l' :
  of_run run l' = [] -> gap_free run l -> gap_free run (l ++ l').
Proof. unfold gap_free. intros E. by rewrite of_run_app, E, app_nil_r. Qed.

(** ** The invariant of the protocol *)

Definition holds (s : wf_sys) (T run : string) : Prop :=
  exists k, runIdToLockKey run = Some k /\ locks s !! k = Some T.

Definition pc_args (pc : emit_pc) : emit_args :=
  match pc with HasLock a => a | HasSeq a _ => a end.

Record wf_inv (s : wf_sys) : Prop := {
  inv_visible : forall T run, gap_free run (visible s T);
  inv_own : forall T run, of_run run (own s T) <> [] -> holds s T run;
  inv_pc : forall T pc, pcs s !! T = Some pc -> holds s T (e_run (pc_args pc));
  inv_seq : forall T a n, pcs s !! T = Some (HasSeq a n) -> n = next_seq (e_run a) (visible s T);
}.

Lemma holds_inj s T T' run : holds s T run -> holds s T' run -> T = T'.
Proof. intros (k & Ek & Hk) (k' & Ek' & Hk'). congruence. Qed.

Lemma lookup_drop_locks T l k T' :
  drop_locks T l !! k = Some T' <-> l !! k = Some T' /\ T' <> T.
Proof. unfold drop_locks. rewrite map_lookup_filter_Some. done. Qed.

Lemma holds_drop s T T' run c p q :
  T' <> T -> holds s T' run -> holds (WfSys c p (drop_locks T (locks s)) q) T' run.
Proof. intros Hne (k & ? & ?). exists k. simpl. by rewrite lookup_drop_locks. Qed.

(** A transaction that does not hold the lock of [run] has written no event of
    [run]. *)
Lemma own_nil s T T' run :
  wf_inv s -> holds s T' run -> T <> T' -> of_run run (own s T) = [].
Proof.
  intros Hi Hh Hne. destruct (of_run run (own s T)) eqn:E; [done|].
  destruct Hne. eapply holds_inj; [eapply (inv_own s Hi T run)|done]. by rewrite E.
Qed.

Lemma own_delete s T c l q T' :
  own (WfSys c (delete T (pending s)) l q) T' = if decide (T' = T) then [] else own s T'.
Proof.
  unfold own. simpl. destruct (decide (T' = T)) as [->|];
    [by rewrite lookup_delete_eq|by rewrite lookup_delete_ne].
Qed.

Lemma own_insert s T c l q T' es :
  own (WfSys c (<[T := es]> (pending s)) l q) T' = if decide (T' = T) then es else own s T'.
Proof.
  unfold own. simpl. destruct (decide (T' = T)) as [->|];
    [by rewrite lookup_insert_eq|by rewrite lookup_insert_ne].
Qed.

Lemma gap_free_committed s run : wf_inv s -> gap_free run (committed s).
Proof.
  intros Hi. set (T := fresh (dom (pending s))).
  assert (pending s !! T = None) as E by (apply not_elem_of_dom, is_fresh).
  pose proof (inv_visible s Hi T run) as Hv. unfold visible, own in Hv.
  rewrite E in Hv. simpl in Hv. by rewrite app_nil_r in Hv.
Qed.

Lemma next_seq_app_other run l l1 l2 :
  of_run run l1 = [] -> next_seq run ((l ++ l1) ++ l2) = next_seq run (l ++ l2).
Proof. intros E. unfold next_seq. by rewrite !of_run_app, E, app_nil_r. Qed.

Lemma wf_inv_lock s T a k :
  wf_inv s -> pcs s !! T = None -> runIdToLockKey (e_run a) = Some k ->
  locks s !! k = None \/ locks s !! k = Some T ->
  wf_inv (WfSys (committed s) (pending s) (<[k := T]> (locks s)) (<[T := HasLock a]> (pcs s))).
Proof.
  intros Hi Hpc Hk Hfree.
  assert (Hkeep : forall T' run, holds s T' run ->
    holds (WfSys (committed s) (pending s) (<[k := T]> (locks s)) (<[T := HasLock a]> (pcs s))) T' run).
  { intros T' run (k' & Ek & Hl). exists k'. split; [done|]. simpl.
    destruct (decide (k' = k)) as [->|]; [|by rewrite lookup_insert_ne].
    rewrite lookup_insert_eq. destruct Hfree; congruence. }
  constructor.
  - intros T' run. exact (inv_visible s Hi T' run).
  - intros T' run Hn. apply Hkeep. by apply (inv_own s Hi).
  - intros T' pc. simpl. destruct (decide (T' = T)) as [->|].
    + rewrite lookup_insert_eq. intros [= <-]. exists k. simpl. by rewrite lookup_insert_eq.
    + rewrite lookup_insert_ne by done. intros Hp. apply Hkeep. by apply (inv_pc s Hi).
  - intros T' b n. simpl. destruct (decide (T' = T)) as [->|].
    + by rewrite lookup_insert_eq.
    + rewrite lookup_insert_ne by done. apply (inv_seq s Hi).
Qed.

Lemma wf_inv_read s T a :
  wf_inv s -> pcs s !! T = Some (HasLock a) ->
  wf_inv (WfSys (committed s) (pending s) (locks s)
            (<[T := HasSeq a (next_seq (e_run a) (visible s T))]> (pcs s))).
Proof.
  intros Hi Hpc. constructor.
  - intros T' run. exact (inv_visible s Hi T' run).
  - intros T' run. exact (inv_own s Hi T' run).
  - intros T' pc. simpl. destruct (decide (T' = T)) as [->|].
    + rewrite lookup_insert_eq. intros [= <-]. exact (inv_pc s Hi T _ Hpc).
    + rewrite lookup_insert_ne by done. apply (inv_pc s Hi).
  - intros T' b n. simpl. destruct (decide (T' = T)) as [->|].
    + rewrite lookup_insert_eq. by intros [= <- <-].
    + rewrite lookup_insert_ne by done. apply (inv_seq s Hi).
Qed.

Lemma of_run_single run e : of_run run [e] <> [] -> ev_run e = run.
Proof.
  unfold of_run. intros H. destruct (decide (ev_run e = run)) as [|Hne]; [done|].
  by rewrite filter_cons_False in H.
Qed.

Lemma wf_inv_insert s T a n id now :
  wf_inv s -> pcs s !! T = Some (HasSeq a n) ->
  wf_inv (WfSys (committed s) (<[T := own s T ++ [event_row a id now n]]> (pending s))
            (locks s) (delete T (pcs s))).
Proof.
  intros Hi Hpc. pose proof (inv_seq s Hi T a n Hpc) as Hn.
  constructor.
  - intros T' run. unfold visible. rewrite own_insert. simpl.
    destruct (decide (T' = T)) as [->|]; [|apply (inv_visible s Hi)].
    rewrite app_assoc. destruct (decide (e_run a = run)) as [<-|Hne].
    + apply gap_free_snoc; [apply (inv_visible s Hi)|done|done].
    + apply gap_free_other; [|apply (inv_visible s Hi)].
      unfold of_run. by rewrite filter_cons_False.
  - intros T' run. rewrite own_insert. destruct (decide (T' = T)) as [->|]; [|apply (inv_own s Hi)].
    rewrite of_run_app. intros Hne.
    destruct (of_run run (own s T)) eqn:E; [|apply (inv_own s Hi); by rewrite E].
    apply of_run_single in Hne. simpl in Hne. subst run. exact (inv_pc s Hi T _ Hpc).
  - intros T' pc Hp. simpl in Hp. apply lookup_delete_Some in Hp as [_ Hp]. by apply (inv_pc s Hi).
  - intros T' b m Hp. simpl in Hp. apply lookup_delete_Some in Hp as [Hne Hp].
    unfold visible. rewrite own_insert, decide_False by congruence. by apply (inv_seq s Hi).
Qed.

Lemma wf_inv_commit s T :
  wf_inv s -> pcs s !! T = None ->
  wf_inv (WfSys (committed s ++ own s T) (delete T (pending s)) (drop_locks T (locks s)) (pcs s)).
Proof.
  intros Hi Hpc.
  assert (Hv : forall run, gap_free run (committed s ++ own s T)) by (intros; apply (inv_visible s Hi)).
  constructor.
  - intros T' run. unfold visible. rewrite own_delete. simpl.
    destruct (decide (T' = T)) as [->|Hne]; [by rewrite app_nil_r|].
    destruct (of_run run (own s T')) as [|e l] eqn:E; [by apply gap_free_other|].
    assert (Hh : holds s T' run) by (apply (inv_own s Hi); by rewrite E).
    pose proof (own_nil s T T' run Hi Hh ltac:(done)) as En.
    pose proof (inv_visible s Hi T' run) as Hg. unfold gap_free, visible in *.
    rewrite of_run_app in Hg. rewrite !of_run_app, En, app_nil_r. done.
  - intros T' run. rewrite own_delete. destruct (decide (T' = T)); [done|].
    intros Hn. apply holds_drop; [done|]. by apply (inv_own s Hi).
  - intros T' pc Hp. simpl in Hp. apply holds_drop; [congruence|]. by apply (inv_pc s Hi).
  - intros T' b m Hp. simpl in Hp. assert (T <> T') by congruence.
    unfold visible. rewrite own_delete, decide_False by congruence. simpl.
    rewrite next_seq_app_other; [by apply (inv_seq s Hi)|].
    eapply own_nil; [done|exact (inv_pc s Hi T' _ Hp)|done].
Qed.

Lemma wf_inv_rollback s T :
  wf_inv s ->
  wf_inv (WfSys (committed s) (delete T (pending s)) (drop_locks T (locks s)) (delete T (pcs s))).
Proof.
  intros Hi. constructor.
  - intros T' run. unfold visible. rewrite own_delete. simpl.
    destruct (decide (T' = T)) as [->|Hne]; [|apply (inv_visible s Hi)].
    rewrite app_nil_r. by apply gap_free_committed.
  - intros T' run. rewrite own_delete. destruct (decide (T' = T)); [done|].
    intros Hn. apply holds_drop; [done|]. by apply (inv_own s Hi).
  - intros T' pc Hp. simpl in Hp. apply lookup_delete_Some in Hp as [Hne Hp].
    apply holds_drop; [done|]. by apply (inv_pc s Hi).
  - intros T' b m Hp. simpl in Hp. apply lookup_delete_Some in Hp as [Hne Hp].
    unfold visible. rewrite own_delete, decide_False by congruence. by apply (inv_seq s Hi).
Qed.

Lemma wf_init_inv : wf_inv wf_init.
Proof.
  constructor; simpl.
  - by intros T run.
  - intros T run H. by destruct H.
  - intros T pc H. by rewrite lookup_empty in H.
  - intros T a n H. by rewrite lookup_empty in H.
Qed.

Lemma wf_reachable_inv s : wf_reachable s -> wf_inv s.
Proof.
  induction 1 as [|s s' _ IH Hs]; [apply wf_init_inv|].
  destruct Hs; eauto using wf_inv_lock, wf_inv_read, wf_inv_insert, wf_inv_commit, wf_inv_rollback.
Qed.

(** ** Bounds of the lock key *)

Lemma hex_val_bound c x : hex_val c = Some x -> 0 <= x < 16.
Proof.
  unfold hex_val. intros H.
  repeat match type of H with
  | (if ?b then _ else _) = _ => destruct b eqn:?
  end; try discriminate; injection H as <-; bool_to_prop; lia.
Qed.

Lemma hex_bytes_bound_strong n s :
  (String.length s < n)%nat -> Forall (fun b => 0 <= b < 256) (hex_bytes s).
Proof.
  revert s. induction n as [|n IH]; intros s Hn; [lia|].
  destruct s as [|a [|b s]]; simpl; try constructor.
  destruct (hex_val a) as [x|] eqn:Ea; [|constructor].
  destruct (hex_val b) as [y|] eqn:Eb; [|constructor].
  apply hex_val_bound in Ea, Eb. constructor; [lia|]. apply IH. simpl in Hn. lia.
Qed.

Lemma hex_bytes_bound s : Forall (fun b => 0 <= b < 256) (hex_bytes s).
Proof. apply (hex_bytes_bound_strong (S (String.length s))). lia. Qed.

Lemma lor_shiftl_add a b n :
  0 <= n -> 0 <= b < 2 ^ n -> Z.lor (Z.shiftl a n) b = a * 2 ^ n + b.
Proof.
  intros Hn Hb. rewrite <- Z.shiftl_mul_pow2, <- Z.add_lor_land by done.
  assert (Z.land (Z.shiftl a n) b = 0) as ->; [|lia].
  apply Z.bits_inj'. intros i Hi. rewrite Z.land_spec, Z.bits_0.
  destruct (Z.ltb_spec i n); [by rewrite Z.shiftl_spec_low|].
  assert (Z.testbit b i = false) as ->; [|apply andb_false_r].
  apply Z.testbit_false; [done|]. rewrite Z.div_small; [done|].
  split; [lia|]. eapply Z.lt_le_trans; [apply Hb|]. apply Z.pow_le_mono_r; lia.
Qed.

(** The value [readInt32BE] computes, and its range. *)
Lemma readInt32BE_range bytes k :
  Forall (fun b => 0 <= b < 256) bytes -> readInt32BE bytes = Some k ->
  - 2147483648 <= k < 2147483648.
Proof.
  destruct bytes as [|b0 [|b1 [|b2 [|b3 bs]]]]; try discriminate.
  intros Hb. apply Forall_cons in Hb as [B0 Hb]. apply Forall_cons in Hb as [B1 Hb].
  apply Forall_cons in Hb as [B2 Hb]. apply Forall_cons in Hb as [B3 _].
  unfold readInt32BE. change 24 with (8 * 3). change 16 with (8 * 2).
  rewrite (lor_shiftl_add b2 b3 8), (lor_shiftl_add b1 _ (8 * 2)), (lor_shiftl_add b0 _ (8 * 3));
    simpl Z.pow; simpl Z.mul; try lia.
  cbv zeta. destruct (_ <? _) eqn:E; intros [= <-]; bool_to_prop; lia.
Qed.

(** * Properties *)

(** C7: the event stream of a run has no gap and no duplicate.  Whatever
    transactions emit events concurrently, whatever order their lock, read,
    insert, commit and rollback statements interleave in, the committed events
    of every run are numbered 1, 2, 3, ... in commit order. *)
Theorem workflow_events_gap_free s run :
  wf_reachable s -> gap_free run (committed s).
Proof. intros Hr. apply gap_free_committed. by apply wf_reachable_inv. Qed.

(** One [emitWorkflowEvent] call appends exactly one event, the next of
    its run, tagged with a tenant or a recognised orphan reason, and leaves
    every other run's stream alone; the advisory lock it takes has an [int4]
    key.  Every refusal writes nothing. *)
Theorem emitWorkflowEvent_appends in_tx fk a id now log log' id' :
  emitWorkflowEvent in_tx fk a id now log = Ok (log', id') ->
  in_tx = true /\ id' = id /\
  (exists k, runIdToLockKey (e_run a) = Some k /\ - 2147483648 <= k < 2147483648) /\
  (is_Some (e_installation a) \/ orphan_tagged (e_payload a) = true) /\
  (exists e, log' = log ++ [e] /\ event_id e = id /\ event_type e ∈ EVENT_TYPES /\
     sequence_no e = next_seq (e_run a) log) /\
  (forall run, gap_free run log -> gap_free run log') /\
  (forall run, run <> e_run a -> of_run run log' = of_run run log).
Proof.
  unfold emitWorkflowEvent. intros H. apply rbind_ok in H as ([] & Hv & H).
  destruct (runIdToLockKey _) as [k|] eqn:Ek; [|discriminate].
  destruct (negb _); [|discriminate]. destruct fk; [|discriminate]. injection H as <- <-.
  unfold emit_validate in Hv.
  destruct (match e_installation a with Some _ => _ | None => _ end) eqn:Ho; [|discriminate].
  destruct (existsb _ EVENT_TYPES) eqn:Et; [|discriminate]. destruct in_tx; [|discriminate].
  apply existsb_eqb_elem in Et. split_and!; try done.
  - exists k. split; [done|]. eapply readInt32BE_range; [apply hex_bytes_bound|exact Ek].
  - destruct (e_installation a); [left; by eexists|by right].
  - by eexists.
  - intros run Hg. destruct (decide (e_run a = run)) as [<-|Hne]; [by apply gap_free_snoc|].
    apply gap_free_other; [|done]. unfold of_run. by rewrite filter_cons_False.
  - intros run Hne. rewrite of_run_app. unfold of_run at 2.
    rewrite filter_cons_False by (simpl; congruence). apply app_nil_r.
Qed.

(** * Witnesses *)

Definition ex_emit : emit_args :=
  EmitArgs "github" "0192a1b2-0000-7000-8000-000000000001" "r1" "ANALYZED" None None (Some "i1").

Definition ex_log : list wf_event := [event_row ex_emit "e1" 10 1].

Lemma workflow_events_gap_free_witness : gap_free (e_run ex_emit) ex_log.
Proof.
  apply (workflow_events_gap_free (WfSys ex_log ∅ ∅ ∅)).
  eapply wf_next; [eapply wf_next; [eapply wf_next; [eapply wf_next; [apply wf_start|]|]|]|].
  - apply (wf_lock _ "T1" ex_emit 26386866); try (vm_compute; reflexivity). by left.
  - apply (wf_read _ "T1" ex_emit). vm_compute. reflexivity.
  - apply (wf_insert _ "T1" ex_emit 1 "e1" 10). vm_compute. reflexivity.
  - match goal with |- wf_step ?s _ =>
      replace (WfSys ex_log ∅ ∅ ∅) with
        (WfSys (committed s ++ own s "T1") (delete "T1" (pending s))
               (drop_locks "T1" (locks s)) (pcs s)) by (vm_compute; reflexivity)
    end.
    apply wf_commit. vm_compute. reflexivity.
Defined.

Lemma emitWorkflowEvent_appends_witness :
  exists e, ex_log = [] ++ [e] /\ event_id e = "e1" /\ event_type e ∈ EVENT_TYPES /\
    sequence_no e = next_seq (e_run ex_emit) [].
Proof.
  apply (emitWorkflowEvent_appends true true ex_emit "e1" 10 [] ex_log "e1").
  vm_compute. reflexivity.
Defined.
