(* ===== verification/RunLifecycle.v ===== *)
(** [domain/transition_run.ts] and [domain/stale_write_guard.ts]: the
    lifecycle state machine of [core.review_runs] and the authoritative-run
    guard, over the rows both read ([review_runs], [pull_request_reviews],
    [repositories]) and the event stream both write.  The table's CHECK
    constraints are part of the model: an UPDATE that violates one throws. *)
From stdpp Require Import base gmap sets list strings pretty.
From Stdlib Require Import ZArith Lia.
From S2P Require Import Prelude Json WorkflowEvents.
Open Scope Z_scope.

(** * Rows *)

(** [LIFECYCLE_STATES] / [ck_review_runs_lifecycle_state]. *)
Inductive lifecycle :=
| PENDING | RUNNING | WAITING_RETRY | COMPLETED | FAILED | CANCELLED | PARTIAL.
#[export] Instance lifecycle_eq_dec : EqDecision lifecycle.
Proof. solve_decision. Defined.

Definition lifecycle_name (s : lifecycle) : string :=
  match s with
  | PENDING => "PENDING" | RUNNING => "RUNNING" | WAITING_RETRY => "WAITING_RETRY"
  | COMPLETED => "COMPLETED" | FAILED => "FAILED" | CANCELLED => "CANCELLED"
  | PARTIAL => "PARTIAL"
  end.

Definition LIFECYCLE_STATES : list lifecycle :=
  [PENDING; RUNNING; WAITING_RETRY; COMPLETED; FAILED; CANCELLED; PARTIAL].

(** [LIFECYCLE_STATES.has(s)], and which state it is. *)
Definition lifecycle_of_string (s : string) : option lifecycle :=
  head (filter (fun l => lifecycle_name l = s) LIFECYCLE_STATES).

Record run_row := RunRow {
  run_review : string;
  trigger_type : string;
  lifecycle_state : lifecycle;
  cancel_reason : option string;
  superseded_by_run_id : option string;
  completed_at : option Z;
  failed_at : option Z;
  cancelled_at : option Z;
  attempt_number : Z;
  parent_run_id : option string;
  supersedes_run_id : option string;
}.

Record review_row := ReviewRow {
  rv_provider : string;
  repo_id : Z;
  current_run_id : option string;
  rv_pr_number : Z;
  rv_provider_pr_id : string;
  rv_pr_node_id : option string;
  rv_branch : option string;
}.

Record core_db := CoreDb {
  runs : gmap string run_row;
  reviews : gmap string review_row;
  repositories : gmap Z (option string);   (* [github_repo_id] -> [installation_id] *)
  events : list wf_event;
}.

(** ** The CHECK constraints of [core.review_runs]

    Those over the columns that the statements below update; the CHECKs on the
    columns that are only ever inserted are checked by the INSERT. *)

Definition CANCEL_REASONS : list string :=
  ["superseded"; "operator_cancelled"; "timeout"; "repository_disabled";
   "installation_suspended"; "shutdown"].

(** [state = s] exactly when the stamp is present. *)
Definition stamp_matches (s : lifecycle) (stamp : option Z) (r : run_row) : bool :=
  Bool.eqb (bool_decide (lifecycle_state r = s)) (bool_decide (is_Some stamp)).

Definition run_checks (r : run_row) : bool :=
  stamp_matches CANCELLED (cancelled_at r) r &&
  stamp_matches COMPLETED (completed_at r) r &&
  stamp_matches FAILED (failed_at r) r &&
  match cancel_reason r with
  | None => true
  | Some c => existsb (String.eqb c) CANCEL_REASONS
              && (negb (String.eqb c "superseded") || bool_decide (is_Some (superseded_by_run_id r)))
  end &&
  (negb (bool_decide (is_Some (superseded_by_run_id r)))
   || bool_decide (lifecycle_state r = CANCELLED)).

(** [UPDATE core.review_runs SET g WHERE run_id = $id]: nothing when the row
    is missing, a [CheckViolation] (here [None]) when the new row fails a CHECK. *)
Definition update_run (g : run_row -> run_row) (id : string) (t : gmap string run_row)
    : option (gmap string run_row) :=
  match t !! id with
  | None => Some t
  | Some r => if run_checks (g r) then Some (<[id := g r]> t) else None
  end.

(** [SET lifecycle_state = $to] and the column of [TERMINAL_TIMESTAMP_COLUMNS]. *)
Definition set_lifecycle (to : lifecycle) (now : Z) (r : run_row) : run_row :=
  {| run_review := run_review r; trigger_type := trigger_type r; lifecycle_state := to;
     cancel_reason := cancel_reason r; superseded_by_run_id := superseded_by_run_id r;
     completed_at := match to with COMPLETED => Some now | _ => completed_at r end;
     failed_at := match to with FAILED => Some now | _ => failed_at r end;
     cancelled_at := match to with CANCELLED => Some now | _ => cancelled_at r end;
     attempt_number := attempt_number r; parent_run_id := parent_run_id r;
     supersedes_run_id := supersedes_run_id r |}.

(** * Post-commit metrics ([infra/post_commit_emit.ts]) *)

Inductive metric :=
| runs_failed (trigger cancel : string)
| runs_cancelled (cancel : string)
| runs_draining
| stale_write_blocked (site : string).

(** * transitionRun *)

Inductive run_error :=
| InvalidFromState
| InvalidToState
| InvalidActivity
| InvalidAttempt
| NoTransaction
| StateDrift (actual : option lifecycle)
| RepositoriesResolveFailed
| CrossInstallationViolation
| RunCheckViolation
| EventError (e : emit_error)
| StaleWriteError (current : option string).

Inductive outcome := APPLIED | ALREADY_APPLIED.

Record transition_args := TransitionArgs {
  t_run : string;
  t_from : string;
  t_to : string;
  t_activity : string;
  t_attempt : Z;
  t_worker : option string;
  t_duration : option Z;
  t_reason : option string;
  t_expected : option string;
}.

Definition opt_json {A} (f : A -> json) (o : option A) : json :=
  match o with Some a => f a | None => JNull end.

Definition transition_payload (a : transition_args) : list (string * json) :=
  [("from", JStr (t_from a)); ("to", JStr (t_to a)); ("activity", JStr (t_activity a));
   ("attempt", JNum (pretty (t_attempt a))); ("worker_id", opt_json JStr (t_worker a));
   ("duration_ms", opt_json (fun n => JNum (pretty n)) (t_duration a));
   ("reason", opt_json JStr (t_reason a))].

(** The row of the joined SELECT: inner joins, so a run without its review or
    its repository is no row at all. *)
Definition select_run (id : string) (db : core_db)
    : option (run_row * review_row * option string) :=
  match runs db !! id with
  | None => None
  | Some r =>
      match reviews db !! run_review r with
      | None => None
      | Some v => match repositories db !! repo_id v with
                  | None => None
                  | Some inst => Some (r, v, inst)
                  end
      end
  end.

(** The AD-5 counters queued on the APPLIED branch. *)
Definition transition_metrics (to : lifecycle) (r : run_row) : list metric :=
  match to with
  | FAILED => [runs_failed (trigger_type r) (default "none" (cancel_reason r))]
  | CANCELLED => [runs_cancelled (default "unknown" (cancel_reason r)); runs_draining]
  | _ => []
  end.

Definition lift_emit {A} (m : result emit_error A) : result run_error A :=
  match m with Ok a => Ok a | Throw e => Throw (EventError e) end.

(** Steps 1 and 2: the argument checks. *)
Definition transition_validate (in_tx : bool) (a : transition_args)
    : result run_error (lifecycle * lifecycle) :=
  match lifecycle_of_string (t_from a) with
  | None => Throw InvalidFromState
  | Some from =>
      match lifecycle_of_string (t_to a) with
      | None => Throw InvalidToState
      | Some to =>
          guard? (negb (String.eqb (t_activity a) "")) else InvalidActivity in
          guard? (1 <=? t_attempt a) else InvalidAttempt in
          guard? in_tx else NoTransaction in Ok (from, to)
      end
  end.

(** The event [transitionRun] emits. *)
Definition transition_event (a : transition_args) (r : run_row) (v : review_row) (inst : string)
    : emit_args :=
  EmitArgs (rv_provider v) (t_run a) (run_review r) "lifecycle_transition"
    (Some (transition_payload a)) None (Some inst).

(** The whole call.  [now] is the injected clock, [eid] the fresh event id,
    [pending] the caller's collector. *)
Definition transitionRun (in_tx : bool) (a : transition_args) (eid : string) (now : Z)
    (db : core_db) (pending : list metric)
    : result run_error (core_db * list metric * outcome) :=
  let? (from, to) := transition_validate in_tx a in
  match select_run (t_run a) db with
  | None => Throw (StateDrift None)
  | Some (r, v, None) => Throw RepositoriesResolveFailed
  | Some (r, v, Some inst) =>
      guard? (match t_expected a with None => true | Some e => String.eqb inst e end)
        else CrossInstallationViolation in
      if decide (lifecycle_state r = to) then Ok (db, pending, ALREADY_APPLIED)
      else
        guard? bool_decide (lifecycle_state r = from) else StateDrift (Some (lifecycle_state r)) in
        match update_run (set_lifecycle to now) (t_run a) (runs db) with
        | None => Throw RunCheckViolation
        | Some runs' =>
            let? (events', _) := lift_emit
              (emitWorkflowEvent true true (transition_event a r v inst) eid now (events db)) in
            Ok (CoreDb runs' (reviews db) (repositories db) events',
                pending ++ transition_metrics to r, APPLIED)
        end
  end.

(** * assertCurrentRun *)

(** The raw INSERT of the guard: no [installation_id], no event-type check. *)
Definition stale_row (run review provider site : string) (cur : option string)
    (eid : string) (now seq : Z) : wf_event :=
  {| event_id := eid; ev_provider := provider; ev_delivery := None; ev_run := run;
     ev_review := review; sequence_no := seq; event_type := "STALE_WRITE_BLOCKED";
     ev_payload := canonicalJson (JObj [("current", opt_json JStr cur);
       ("incoming", JStr run); ("site", JStr site)]);
     received_at := now; ev_installation := None |}.

(** The state is returned on every path: the forensic row and the counter are
    in the caller's transaction although the call throws. *)
Definition assertCurrentRun (in_tx : bool) (run review site eid : string) (now : Z)
    (db : core_db) (pending : list metric) : core_db * list metric * result run_error unit :=
  if negb in_tx then (db, pending, Throw NoTransaction)
  else match reviews db !! review with
  | None => (db, pending, Throw (StaleWriteError None))
  | Some v =>
      if decide (current_run_id v = Some run) then (db, pending, Ok tt)
      else match runIdToLockKey run with
      | None => (db, pending, Throw (EventError LockKeyRangeError))
      | Some _ =>
          match runs db !! run with
          | None => (db, pending, Throw (EventError EventForeignKeyViolation))
          | Some _ =>
              (CoreDb (runs db) (reviews db) (repositories db)
                 (events db ++ [stale_row run review (rv_provider v) site (current_run_id v) eid now
                                  (next_seq run (events db))]),
               pending ++ [stale_write_blocked site],
               Throw (StaleWriteError (current_run_id v)))
          end
      end
  end.

(** * Lemmas *)

Lemma lifecycle_of_name s : lifecycle_of_string (lifecycle_name s) = Some s.
Proof. by destruct s. Qed.

Lemma lifecycle_of_string_name s l : lifecycle_of_string s = Some l -> lifecycle_name l = s.
Proof.
  unfold lifecycle_of_string. intros H.
  assert (Hin : l ∈ filter (fun l => lifecycle_name l = s) LIFECYCLE_STATES)
    by (destruct (filter _ _); [done|injection H as <-; apply elem_of_cons; auto]).
  by apply list_elem_of_filter in Hin as [? _].
Qed.

(** The stamps that the CHECKs tie to a state. *)
Definition stamped (s : lifecycle) : bool :=
  match s with COMPLETED | FAILED | CANCELLED => true | _ => false end.

Lemma stamp_matches_true s stamp r :
  stamp_matches s stamp r = true <-> (lifecycle_state r = s <-> is_Some stamp).
Proof.
  unfold stamp_matches. by rewrite eqb_true_iff, eq_iff_eq_true, !bool_decide_eq_true.
Qed.

Lemma run_checks_true r :
  run_checks r = true <->
  (lifecycle_state r = CANCELLED <-> is_Some (cancelled_at r)) /\
  (lifecycle_state r = COMPLETED <-> is_Some (completed_at r)) /\
  (lifecycle_state r = FAILED <-> is_Some (failed_at r)) /\
  (forall c, cancel_reason r = Some c -> c ∈ CANCEL_REASONS /\
     (c = "superseded" -> is_Some (superseded_by_run_id r))) /\
  (is_Some (superseded_by_run_id r) -> lifecycle_state r = CANCELLED).
Proof.
  unfold run_checks. rewrite !andb_true_iff, !stamp_matches_true, orb_true_iff, negb_true_iff,
    bool_decide_eq_true, bool_decide_eq_false.
  assert (Hc : (match cancel_reason r with
    | None => true
    | Some c => existsb (String.eqb c) CANCEL_REASONS
                && (negb (String.eqb c "superseded") || bool_decide (is_Some (superseded_by_run_id r)))
    end = true) <-> (forall c, cancel_reason r = Some c -> c ∈ CANCEL_REASONS /\
     (c = "superseded" -> is_Some (superseded_by_run_id r)))).
  { destruct (cancel_reason r) as [c|]; [|split; congruence].
    rewrite andb_true_iff, existsb_eqb_elem, orb_true_iff, negb_true_iff, String.eqb_neq,
      bool_decide_eq_true.
    destruct (decide (c = "superseded")); naive_solver. }
  rewrite Hc. destruct (decide (is_Some (superseded_by_run_id r))); tauto.
Qed.

(** A stamp is never cleared, so the CHECKs make stamped states final. *)
Lemma stamped_final s to now r :
  run_checks r = true -> lifecycle_state r = s -> stamped s = true -> to <> s ->
  run_checks (set_lifecycle to now r) = false.
Proof.
  intros Hr Es Hs Hne. apply not_true_iff_false. intros H.
  apply run_checks_true in Hr as (Hca & Hco & Hf & _), H as (Hca' & Hco' & Hf' & _).
  destruct s; try discriminate; destruct to; simpl in *; try done; naive_solver.
Qed.

(** From a state without stamp every state can be entered. *)
Lemma unstamped_step to now r :
  run_checks r = true -> stamped (lifecycle_state r) = false ->
  run_checks (set_lifecycle to now r) = true.
Proof.
  rewrite !run_checks_true. intros (Hca & Hco & Hf & Hc & Hs) Hst.
  destruct (lifecycle_state r); try discriminate;
    destruct to; simpl; rewrite <- ?Hca, <- ?Hco, <- ?Hf; naive_solver.
Qed.

Definition all_checks (t : gmap string run_row) : Prop :=
  forall k r, t !! k = Some r -> run_checks r = true.

Lemma update_run_checks g id t t' :
  update_run g id t = Some t' -> all_checks t -> all_checks t'.
Proof.
  unfold update_run. destruct (t !! id) as [r|]; [|by intros [= <-]].
  destruct (run_checks (g r)) eqn:E; [|done]. intros [= <-] Ha k q.
  rewrite lookup_insert_Some. intros [[_ <-]|[_ Hq]]; eauto.
Qed.

Lemma transition_validate_ok in_tx a from to :
  transition_validate in_tx a = Ok (from, to) ->
  in_tx = true /\ lifecycle_of_string (t_from a) = Some from /\
  lifecycle_of_string (t_to a) = Some to /\ t_activity a <> "" /\ 1 <= t_attempt a.
Proof.
  unfold transition_validate.
  destruct (lifecycle_of_string (t_from a)); [|discriminate].
  destruct (lifecycle_of_string (t_to a)); [|discriminate].
  destruct (negb _) eqn:E1; [|discriminate]. destruct (1 <=? _) eqn:E2; [|discriminate].
  destruct in_tx; [|discriminate]. intros [= <- <-]. bool_to_prop. done.
Qed.

Lemma select_run_some id db r v inst :
  select_run id db = Some (r, v, inst) ->
  runs db !! id = Some r /\ reviews db !! run_review r = Some v /\
  repositories db !! repo_id v = Some inst.
Proof.
  unfold select_run. destruct (runs db !! id) as [q|]; [|discriminate].
  destruct (reviews db !! run_review q) as [w|] eqn:Ew; [|discriminate].
  destruct (repositories db !! repo_id w) as [i|] eqn:Ei; [|discriminate].
  by intros [= <- <- <-].
Qed.

(** The event of a transition always passes the emitter's own checks. *)
Lemma transition_event_emits a r v inst eid now log k :
  runIdToLockKey (t_run a) = Some k ->
  emitWorkflowEvent true true (transition_event a r v inst) eid now log =
  Ok (log ++ [event_row (transition_event a r v inst) eid now (next_seq (t_run a) log)], eid).
Proof.
  intros Hk. unfold emitWorkflowEvent. simpl. rewrite Hk.
  assert (forall e l, ev_delivery e = None -> existsb (same_delivery e) l = false) as ->; [|done..].
  intros e l He. induction l as [|f l IH]; [done|]. simpl. rewrite IH.
  unfold same_delivery. by rewrite He.
Qed.

Lemma emit_needs_key in_tx fk a id now log r :
  emitWorkflowEvent in_tx fk a id now log = Ok r -> is_Some (runIdToLockKey (e_run a)).
Proof.
  unfold emitWorkflowEvent. intros H. apply rbind_ok in H as (? & _ & H).
  destruct (runIdToLockKey _); [by eexists|discriminate].
Qed.

(** * Properties *)

(** What a [transitionRun] that returns has done.  On [APPLIED] the run
    was in the caller's [from] state, which is not a stamped (terminal) one;
    it is now in [to], satisfying every CHECK, with exactly one
    [lifecycle_transition] event, numbered next in the run's stream; on
    [ALREADY_APPLIED] the run already was in [to] and nothing is written,
    counted or emitted.  Tenancy is never crossed, other runs are never
    touched, and the CHECKs keep holding of every run. *)
Theorem transitionRun_effect in_tx a eid now db pending db' pending' o :
  all_checks (runs db) ->
  transitionRun in_tx a eid now db pending = Ok (db', pending', o) ->
  exists r v inst, select_run (t_run a) db = Some (r, v, Some inst) /\
  (forall e, t_expected a = Some e -> inst = e) /\ all_checks (runs db') /\
  (forall k, k <> t_run a -> runs db' !! k = runs db !! k) /\
  match o with
  | ALREADY_APPLIED =>
      lifecycle_name (lifecycle_state r) = t_to a /\ db' = db /\ pending' = pending
  | APPLIED =>
      lifecycle_name (lifecycle_state r) = t_from a /\ stamped (lifecycle_state r) = false /\
      t_from a <> t_to a /\
      (exists r', runs db' !! t_run a = Some r' /\ lifecycle_name (lifecycle_state r') = t_to a) /\
      exists e, events db' = events db ++ [e] /\ event_type e = "lifecycle_transition" /\
        ev_run e = t_run a /\ ev_installation e = Some inst /\
        sequence_no e = next_seq (t_run a) (events db)
  end.
Proof.
  intros Hall H. unfold transitionRun in H.
  apply rbind_ok in H as ([from to] & Hv & H).
  apply transition_validate_ok in Hv as (-> & Hf & Ht & _).
  apply lifecycle_of_string_name in Hf, Ht.
  destruct (select_run _ _) as [[[r v] [inst|]]|] eqn:Es; try discriminate.
  destruct (match t_expected a with Some _ => _ | None => _ end) eqn:Ee; [|discriminate].
  exists r, v, inst. split; [done|].
  assert (Hexp : forall e, t_expected a = Some e -> inst = e).
  { intros e Hx. rewrite Hx in Ee. by apply String.eqb_eq. }
  destruct (decide (lifecycle_state r = to)) as [Eto|Hto].
  { injection H as <- <- <-. split_and!; try done. congruence. }
  destruct (bool_decide _) eqn:Ef; [|discriminate]. apply bool_decide_eq_true in Ef.
  destruct (update_run _ _ _) as [runs'|] eqn:Eu; [|discriminate].
  apply rbind_ok in H as ([log' id'] & Hem & H). injection H as <- <- <-.
  destruct (emitWorkflowEvent _ _ _ _ _ _) as [[l i]|] eqn:Eem; [|discriminate].
  injection Hem as <- <-. destruct (emit_needs_key _ _ _ _ _ _ _ Eem) as [k Hk].
  rewrite (transition_event_emits _ _ _ _ _ _ _ k Hk) in Eem. injection Eem as <- <-.
  pose proof (update_run_checks _ _ _ _ Eu Hall) as Hall'.
  apply select_run_some in Es as (Er & _ & _). unfold update_run in Eu. rewrite Er in Eu.
  destruct (run_checks (set_lifecycle to now r)) eqn:Ec; [|discriminate]. injection Eu as <-.
  split_and!; try done.
  - intros j Hj. simpl. by rewrite lookup_insert_ne.
  - congruence.
  - destruct (stamped (lifecycle_state r)) eqn:Est; [|done].
    rewrite (stamped_final _ to now r (Hall _ _ Er) eq_refl Est) in Ec; [done|congruence].
  - rewrite <- Hf, <- Ht. intros E. apply Hto. rewrite Ef.
    apply (f_equal lifecycle_of_string) in E. rewrite !lifecycle_of_name in E. congruence.
  - eexists. simpl. by rewrite lookup_insert_eq.
  - eexists. split; [done|]. done.
Qed.

(** Terminal states are final, and every other transition goes through.
    For a run of the caller's tenant that is in the named [from] state, a
    well-formed transition to another state succeeds when [from] is not
    COMPLETED, FAILED or CANCELLED, and is refused by the CHECK constraints,
    before any event is emitted, when it is. *)
Theorem transitionRun_terminal_final a eid now db pending from to r v inst k :
  all_checks (runs db) ->
  t_from a = lifecycle_name from -> t_to a = lifecycle_name to -> from <> to ->
  t_activity a <> "" -> 1 <= t_attempt a ->
  select_run (t_run a) db = Some (r, v, Some inst) -> lifecycle_state r = from ->
  match t_expected a with None => True | Some e => e = inst end ->
  runIdToLockKey (t_run a) = Some k ->
  if stamped from
  then transitionRun true a eid now db pending = Throw RunCheckViolation
  else exists db', transitionRun true a eid now db pending =
         Ok (db', pending ++ transition_metrics to r, APPLIED).
Proof.
  intros Hall Hf Ht Hne Hact Hatt Hs Er Hexp Hk.
  pose proof Hs as (Hr & _ & _)%select_run_some.
  unfold transitionRun, transition_validate.
  rewrite Hf, Ht, !lifecycle_of_name, Hs.
  apply String.eqb_neq in Hact as ->. apply Z.leb_le in Hatt as ->. simpl.
  assert (match t_expected a with None => true | Some e => String.eqb inst e end = true) as ->.
  { destruct (t_expected a); [subst; apply String.eqb_refl|done]. }
  rewrite decide_False by congruence. rewrite bool_decide_eq_true_2 by done.
  unfold update_run. rewrite Hr. destruct (stamped from) eqn:Est.
  - rewrite (stamped_final from to now r); [done|by eapply Hall|done|done|congruence].
  - rewrite unstamped_step; [|by eapply Hall|by subst].
    rewrite (transition_event_emits _ _ _ _ _ _ _ k Hk). simpl. by eexists.
Qed.

(** The stale-write guard.  [assertCurrentRun] lets a durable write pass
    exactly when the review's authoritative pointer names the writer's run,
    and then changes nothing; every refusal leaves runs, reviews and
    repositories alone, and a refusal because another run (or none) is current
    records one [STALE_WRITE_BLOCKED] event in the stale run's stream, which
    stays without gaps, and queues one counter. *)
Theorem assertCurrentRun_guard run review site eid now db pending :
  let '(db', pending', res) := assertCurrentRun true run review site eid now db pending in
  (res = Ok tt <-> exists v, reviews db !! review = Some v /\ current_run_id v = Some run) /\
  (res = Ok tt -> db' = db /\ pending' = pending) /\
  runs db' = runs db /\ reviews db' = reviews db /\ repositories db' = repositories db /\
  (forall j, gap_free j (events db) -> gap_free j (events db')) /\
  forall cur, res = Throw (StaleWriteError cur) ->
    match reviews db !! review with
    | None => cur = None /\ db' = db /\ pending' = pending
    | Some v => cur = current_run_id v /\ cur <> Some run /\
        pending' = pending ++ [stale_write_blocked site] /\
        exists e, events db' = events db ++ [e] /\ event_type e = "STALE_WRITE_BLOCKED" /\
          ev_run e = run /\ sequence_no e = next_seq run (events db)
    end.
Proof.
  unfold assertCurrentRun. simpl. destruct (reviews db !! review) as [v|] eqn:Ev.
  2:{ split_and!; try done. split; [done|]. intros (? & ? & _). discriminate.
      intros cur [= <-]. done. }
  destruct (decide (current_run_id v = Some run)) as [E|Hne].
  { split_and!; try done. split; [|done]. eauto. }
  assert (Hno : ~ exists w, Some v = Some w /\ current_run_id w = Some run)
    by (intros (w & [= <-] & ?); done).
  destruct (runIdToLockKey run); [destruct (runs db !! run)|]; (split_and!; try done).
  - intros j Hg. simpl. destruct (decide (run = j)) as [<-|Hj]; [by apply gap_free_snoc|].
    apply gap_free_other; [|done]. unfold of_run. by rewrite filter_cons_False.
  - intros cur [= <-]. split_and!; try done. by eexists.
Qed.

(** * Witnesses *)

Definition ex_run_id : string := "0192a1b2-0000-7000-8000-000000000001".
Definition ex_run (s : lifecycle) : run_row :=
  set_lifecycle s 5 (RunRow "r1" "pr_opened" PENDING None None None None None 1 None None).
Definition ex_review : review_row :=
  ReviewRow "github" 7 (Some ex_run_id) 41 "gh-pr-9" None (Some "feature").
Definition ex_db (s : lifecycle) : core_db :=
  CoreDb {[ ex_run_id := ex_run s ]} {[ "r1" := ex_review ]}
    {[ 7 := Some "i1" ]} [].
Definition ex_transition (from to : string) : transition_args :=
  TransitionArgs ex_run_id from to "review_workflow.run" 1 None (Some 120) None (Some "i1").

Lemma ex_db_checks s : all_checks (runs (ex_db s)).
Proof.
  intros k r. simpl. rewrite lookup_singleton_Some. intros [_ <-]. by destruct s.
Qed.

Lemma transitionRun_effect_witness :
  match transitionRun true (ex_transition "RUNNING" "COMPLETED") "e1" 9 (ex_db RUNNING) [] with
  | Ok (db', _, _) => all_checks (runs db')
  | Throw _ => False
  end.
Proof.
  destruct (transitionRun true (ex_transition "RUNNING" "COMPLETED") "e1" 9 (ex_db RUNNING) [])
    as [[[db' p'] o]|] eqn:E; [|vm_compute in E; discriminate].
  destruct (transitionRun_effect true (ex_transition "RUNNING" "COMPLETED") "e1" 9 (ex_db RUNNING) []
    db' p' o (ex_db_checks RUNNING) E) as (_ & _ & _ & _ & _ & H & _). exact H.
Defined.

Lemma transitionRun_terminal_final_witness :
  transitionRun true (ex_transition "COMPLETED" "CANCELLED") "e1" 9 (ex_db COMPLETED) [] =
    Throw RunCheckViolation.
Proof.
  apply (transitionRun_terminal_final (ex_transition "COMPLETED" "CANCELLED") "e1" 9 (ex_db COMPLETED)
    [] COMPLETED CANCELLED (ex_run COMPLETED) ex_review "i1" 26386866);
    first [apply ex_db_checks | reflexivity | discriminate | vm_compute; reflexivity].
Defined.
