(* ===== verification/RunAllocator.v ===== *)
(** [ingest/_review_run_allocator.ts], [workflow/_supersede.ts] and
    [ingest/_reviews_repository.ts]: how a review gets its run.  A new run
    supersedes the active one, becomes the review's authoritative pointer and
    opens its event stream, all in the caller's transaction.  The functions
    work on the rows and the event stream of [RunLifecycle], and the steps of
    the relation below include that file's [transitionRun] and
    [assertCurrentRun].  Both [SELECT ... FOR UPDATE OF prr] lock the review
    row, so two allocations on one review run one after the other. *)
From stdpp Require Import base gmap sets list strings pretty.
From Stdlib Require Import ZArith Lia.
From S2P Require Import Prelude Json WorkflowEvents RunLifecycle.
Open Scope Z_scope.

Definition TRIGGER_TYPES : list string :=
  ["pr_opened"; "pr_synchronize"; "manual_rerun"; "comment_trigger"; "retry"; "scheduled"].

Inductive alloc_error :=
| UnknownCancelReason
| UnknownTriggerType
| ParentRunRequired
| AllocNoTransaction
| AllocResolveFailed
| AllocCrossInstallation (actual : option string)
| CurrentRunMismatch (expected actual : option string)
| ReviewNotFound
| AllocCheckViolation          (* a CHECK of [core.review_runs] *)
| AllocUniqueViolation         (* [review_runs_pkey] *)
| AllocForeignKeyViolation
| AllocEvent (e : emit_error).

Definition lift_event {A} (m : result emit_error A) : result alloc_error A :=
  match m with Ok a => Ok a | Throw e => Throw (AllocEvent e) end.

(** [SELECT r.installation_id FROM reviews JOIN repositories ...], then
    [rows[0]?.installation_id ?? null]. *)
Definition review_installation (review : string) (db : core_db) : option string :=
  match reviews db !! review with
  | Some v => mjoin (repositories db !! repo_id v)
  | None => None
  end.
Arguments review_installation : simpl never.

Definition row_exists {A} (k : option string) (t : gmap string A) : bool :=
  match k with Some k => bool_decide (is_Some (t !! k)) | None => true end.

(** The two foreign keys of [audit.workflow_events]. *)
Definition event_fk (a : emit_args) (db : core_db) : bool :=
  row_exists (Some (e_run a)) (runs db) && row_exists (Some (e_review a)) (reviews db).

Definition emit_on (a : emit_args) (eid : string) (now : Z) (db : core_db)
    : result alloc_error core_db :=
  let? (events', _) := lift_event (emitWorkflowEvent true (event_fk a db) a eid now (events db)) in
  Ok (CoreDb (runs db) (reviews db) (repositories db) events').

(** * supersedeRun *)

Definition active (s : lifecycle) : bool :=
  match s with PENDING | RUNNING | WAITING_RETRY => true | _ => false end.

(** [SET lifecycle_state = 'CANCELLED', cancelled_at, cancel_reason,
    superseded_by_run_id]. *)
Definition supersede_row (reason newRun : string) (now : Z) (r : run_row) : run_row :=
  {| run_review := run_review r; trigger_type := trigger_type r; lifecycle_state := CANCELLED;
     cancel_reason := Some reason; superseded_by_run_id := Some newRun;
     completed_at := completed_at r; failed_at := failed_at r; cancelled_at := Some now;
     attempt_number := attempt_number r; parent_run_id := parent_run_id r;
     supersedes_run_id := supersedes_run_id r |}.

(** The rows of the UPDATE: the review's active runs. *)
Definition active_on (review : string) (p : string * run_row) : Prop :=
  run_review p.2 = review /\ active (lifecycle_state p.2) = true.
#[export] Instance active_on_dec review p : Decision (active_on review p).
Proof. unfold active_on. apply _. Defined.

Definition active_runs (review : string) (t : gmap string run_row) : gmap string run_row :=
  filter (active_on review) t.

(** [None] is a violated CHECK: one of the table's, or
    [ck_review_runs_no_self_supersede]. *)
Definition supersede_update (review reason newRun : string) (now : Z) (t : gmap string run_row)
    : option (gmap string run_row) :=
  let hit := active_runs review t in
  if forallb (fun p => run_checks (supersede_row reason newRun now p.2)
                       && negb (String.eqb p.1 newRun)) (map_to_list hit)
  then Some ((supersede_row reason newRun now <$> hit) ∪ t)
  else None.

(** [RETURNING run_id]: the first row of the result. *)
Definition returning_first (review : string) (t : gmap string run_row) : option string :=
  (map_to_list (active_runs review t)).*1 !! 0%nat.

Definition superseded_event (provider oldRun review newRun reason inst : string) : emit_args :=
  EmitArgs provider oldRun review "RUN_SUPERSEDED"
    (Some [("new_run_id", JStr newRun); ("reason", JStr reason)]) None (Some inst).

Record supersede_args := SupersedeArgs {
  s_review : string;
  s_new_run : string;
  s_provider : string;
  s_reason : option string;
  s_expected : option string;
}.

Definition supersedeRun (in_tx : bool) (a : supersede_args) (eid : string) (now : Z) (db : core_db)
    : result alloc_error (core_db * option string) :=
  let reason := default "superseded" (s_reason a) in
  guard? (existsb (String.eqb reason) CANCEL_REASONS) else UnknownCancelReason in
  guard? in_tx else AllocNoTransaction in
  match review_installation (s_review a) db with
  | None => Throw AllocResolveFailed
  | Some inst =>
      guard? (match s_expected a with None => true | Some e => String.eqb inst e end)
        else AllocCrossInstallation (Some inst) in
      match supersede_update (s_review a) reason (s_new_run a) now (runs db) with
      | None => Throw AllocCheckViolation
      | Some runs' =>
          let db1 := CoreDb runs' (reviews db) (repositories db) (events db) in
          match returning_first (s_review a) (runs db) with
          | None => Ok (db1, None)
          | Some old =>
              let? db2 := emit_on (superseded_event (s_provider a) old (s_review a) (s_new_run a)
                                     reason inst) eid now db1 in
              Ok (db2, Some old)
          end
      end
  end.

(** * flipCurrentRun *)

Definition set_current (newRun : string) (v : review_row) : review_row :=
  {| rv_provider := rv_provider v; repo_id := repo_id v; current_run_id := Some newRun;
     rv_pr_number := rv_pr_number v; rv_provider_pr_id := rv_provider_pr_id v;
     rv_pr_node_id := rv_pr_node_id v; rv_branch := rv_branch v |}.

Definition flipCurrentRun (in_tx : bool) (review newRun : string)
    (oldRunIdExpected expectedInstallationId : option string) (db : core_db)
    : result alloc_error (core_db * option string) :=
  guard? in_tx else AllocNoTransaction in
  guard? (match expectedInstallationId with
          | None => true
          | Some e => bool_decide (review_installation review db = Some e)
          end) else AllocCrossInstallation (review_installation review db) in
  match reviews db !! review with
  | None => Throw ReviewNotFound
  | Some v =>
      guard? (row_exists (Some newRun) (runs db)) else AllocForeignKeyViolation in
      guard? (match oldRunIdExpected with
              | None => true
              | Some e => bool_decide (current_run_id v = Some e)
              end) else CurrentRunMismatch oldRunIdExpected (current_run_id v) in
      Ok (CoreDb (runs db) (<[review := set_current newRun v]> (reviews db)) (repositories db)
            (events db), current_run_id v)
  end.

(** * upsertReview *)

Record upsert_args := UpsertArgs {
  u_provider : string;
  u_repo : Z;
  u_pr_number : Z;
  u_provider_pr_id : string;
  u_pr_node_id : option string;
  u_branch : option string;
}.

(** The conflict target [(provider, repo_id, pr_number)]. *)
Definition natural_key (v : review_row) : string * Z * Z := (rv_provider v, repo_id v, rv_pr_number v).
Definition upsert_key (a : upsert_args) : string * Z * Z := (u_provider a, u_repo a, u_pr_number a).

Definition find_review (k : string * Z * Z) (t : gmap string review_row)
    : option (string * review_row) :=
  map_to_list (filter (fun p => natural_key p.2 = k) t) !! 0%nat.

Definition upserted (a : upsert_args) (current : option string) : review_row :=
  {| rv_provider := u_provider a; repo_id := u_repo a; current_run_id := current;
     rv_pr_number := u_pr_number a; rv_provider_pr_id := u_provider_pr_id a;
     rv_pr_node_id := u_pr_node_id a; rv_branch := u_branch a |}.

(** [fresh] is the [uuid4()] of the INSERT; a used id is a primary-key violation. *)
Definition upsertReview (a : upsert_args) (fresh : string) (db : core_db)
    : result alloc_error (core_db * string) :=
  let put id v := CoreDb (runs db) (<[id := v]> (reviews db)) (repositories db) (events db) in
  match find_review (upsert_key a) (reviews db) with
  | Some (id, v) => Ok (put id (upserted a (current_run_id v)), id)
  | None =>
      guard? (bool_decide (reviews db !! fresh = None)) else AllocUniqueViolation in
      Ok (put fresh (upserted a None), fresh)
  end.

(** * allocateRun *)

Record alloc_args := AllocArgs {
  al_review : string;
  al_installation : string;
  al_trigger : string;
  al_provider : string;
  al_delivery : option string;
  al_parent : option string;
  al_attempt : Z;
}.

Definition new_run (a : alloc_args) (supersedes : option string) : run_row :=
  {| run_review := al_review a; trigger_type := al_trigger a; lifecycle_state := PENDING;
     cancel_reason := None; superseded_by_run_id := None; completed_at := None;
     failed_at := None; cancelled_at := None; attempt_number := al_attempt a;
     parent_run_id := al_parent a; supersedes_run_id := supersedes |}.

(** The CHECKs on the columns that only the INSERT writes. *)
Definition insert_checks (r : run_row) : bool :=
  (1 <=? attempt_number r)
  && negb (bool_decide (is_Some (parent_run_id r)) && bool_decide (is_Some (supersedes_run_id r)))
  && existsb (String.eqb (trigger_type r)) TRIGGER_TYPES.

Definition insert_run (id : string) (r : run_row) (db : core_db) : result alloc_error core_db :=
  guard? (insert_checks r && run_checks r) else AllocCheckViolation in
  guard? (bool_decide (runs db !! id = None)) else AllocUniqueViolation in
  guard? (row_exists (Some (run_review r)) (reviews db) && row_exists (parent_run_id r) (runs db)
          && row_exists (supersedes_run_id r) (runs db)) else AllocForeignKeyViolation in
  Ok (CoreDb (<[id := r]> (runs db)) (reviews db) (repositories db) (events db)).

Definition received_event (a : alloc_args) (newRun : string) : emit_args :=
  EmitArgs (al_provider a) newRun (al_review a) "WEBHOOK_RECEIVED"
    (Some [("trigger_type", JStr (al_trigger a)); ("attempt_number", JNum (pretty (al_attempt a)))])
    (al_delivery a) (Some (al_installation a)).

(** Step 1, skipped on a retry. *)
Definition allocate_supersede (a : alloc_args) (newRun eid : string) (now : Z) (db : core_db)
    : result alloc_error (core_db * option string) :=
  match al_parent a with
  | Some _ => Ok (db, None)
  | None => supersedeRun true
      (SupersedeArgs (al_review a) newRun (al_provider a) (Some "superseded")
         (Some (al_installation a))) eid now db
  end.

(** The whole call; [newRun] is its [uuid7], [eid1] and [eid2] the event ids.
    Returns [supersededRunId]; [wasSupersede] is whether there is one. *)
Definition allocateRun (in_tx : bool) (a : alloc_args) (newRun eid1 eid2 : string) (now : Z)
    (db : core_db) : result alloc_error (core_db * option string) :=
  guard? (existsb (String.eqb (al_trigger a)) TRIGGER_TYPES) else UnknownTriggerType in
  guard? (negb ((1 <? al_attempt a) && bool_decide (al_parent a = None))) else ParentRunRequired in
  guard? in_tx else AllocNoTransaction in
  let? (db1, old) := allocate_supersede a newRun eid1 now db in
  let? db2 := insert_run newRun (new_run a old) db1 in
  let? (db3, _) := flipCurrentRun true (al_review a) newRun old (Some (al_installation a)) db2 in
  match al_delivery a with
  | None => Ok (db3, old)
  | Some _ => let? db4 := emit_on (received_event a newRun) eid2 now db3 in Ok (db4, old)
  end.

(** * The database under every interleaving of transactions *)

(** One committed transaction.  [supersedeRun] on its own is the operator's
    cancel: its deferred foreign key requires the superseding run to exist at
    COMMIT.  A retry names a parent, and comes when no run of the review is
    active.  The callers of [transitionRun] name PENDING or RUNNING as [from]. *)
Inductive core_step (db : core_db) : core_db -> Prop :=
| core_upsert a fresh db' id :
    upsertReview a fresh db = Ok (db', id) -> core_step db db'
| core_allocate a newRun eid1 eid2 now db' old :
    allocateRun true a newRun eid1 eid2 now db = Ok (db', old) ->
    al_parent a = None \/ active_runs (al_review a) (runs db) = ∅ ->
    core_step db db'
| core_supersede a eid now db' old :
    supersedeRun true a eid now db = Ok (db', old) -> is_Some (runs db !! s_new_run a) ->
    core_step db db'
| core_transition a eid now pending db' pending' o :
    transitionRun true a eid now db pending = Ok (db', pending', o) -> t_from a <> "PARTIAL" ->
    core_step db db'
| core_guard run review site eid now pending db' pending' r :
    assertCurrentRun true run review site eid now db pending = (db', pending', r) ->
    core_step db db'
| core_event a eid now db' :
    emit_on a eid now db = Ok db' -> core_step db db'.

Inductive core_steps (db : core_db) : core_db -> Prop :=
| core_refl : core_steps db db
| core_more db' db'' : core_steps db db' -> core_step db' db'' -> core_steps db db''.

(** No runs and no reviews yet; the repositories are the tenants' own. *)
Definition core_empty (repos : gmap Z (option string)) : core_db := CoreDb ∅ ∅ repos [].

(** Every run belongs to a review; a review's pointer names a run of its own;
    an active run is its review's current one; who superseded a run exists;
    at most one review per pull request. *)
Record core_inv (db : core_db) : Prop := {
  inv_checks : all_checks (runs db);
  inv_review : forall k r, runs db !! k = Some r -> is_Some (reviews db !! run_review r);
  inv_pointer : forall w v k, reviews db !! w = Some v -> current_run_id v = Some k ->
    exists r, runs db !! k = Some r /\ run_review r = w;
  inv_active : forall k r, runs db !! k = Some r -> active (lifecycle_state r) = true ->
    exists v, reviews db !! run_review r = Some v /\ current_run_id v = Some k;
  inv_superseder : forall k r n, runs db !! k = Some r -> superseded_by_run_id r = Some n ->
    is_Some (runs db !! n);
  inv_key : forall w v w' v', reviews db !! w = Some v -> reviews db !! w' = Some v' ->
    natural_key v = natural_key v' -> w = w';
}.

(** * Lemmas *)

Lemma row_exists_true {A} k (t : gmap string A) :
  row_exists k t = true <-> forall j, k = Some j -> is_Some (t !! j).
Proof.
  destruct k as [k|]; simpl; [|split; [done|done]]. rewrite bool_decide_eq_true.
  split; [by intros H j [= <-]|auto].
Qed.

Lemma lookup_active_runs review t k r :
  active_runs review t !! k = Some r <->
  t !! k = Some r /\ run_review r = review /\ active (lifecycle_state r) = true.
Proof. unfold active_runs. by rewrite map_lookup_filter_Some. Qed.

Lemma active_runs_empty review t :
  active_runs review t = ∅ <->
  forall k r, t !! k = Some r -> run_review r = review -> active (lifecycle_state r) = false.
Proof.
  split.
  - intros H k r Hk Hr. apply not_true_iff_false. intros Ha.
    assert (active_runs review t !! k = Some r) as Hx by (by apply lookup_active_runs).
    rewrite H, lookup_empty in Hx. done.
  - intros H. apply map_empty. intros k. apply eq_None_not_Some. intros [r Hr].
    apply lookup_active_runs in Hr as (Hk & Hw & Ha). by rewrite (H k r Hk Hw) in Ha.
Qed.

(** What the UPDATE of [supersedeRun] makes of a row. *)
Definition superseded_row (review reason newRun : string) (now : Z) (p : string * run_row) : run_row :=
  if decide (active_on review p) then supersede_row reason newRun now p.2 else p.2.

Lemma supersede_update_lookup review reason newRun now t t' k :
  supersede_update review reason newRun now t = Some t' ->
  t' !! k = (fun r => superseded_row review reason newRun now (k, r)) <$> t !! k.
Proof.
  unfold supersede_update. destruct (forallb _ _); [|done]. intros [= <-].
  rewrite lookup_union, lookup_fmap. unfold superseded_row.
  destruct (t !! k) as [r|] eqn:Ek.
  - destruct (decide (active_on review (k, r))) as [Ha|Ha].
    + rewrite (proj2 (lookup_active_runs review t k r)) by (destruct Ha; done).
      simpl. by rewrite decide_True.
    + assert (active_runs review t !! k = None) as ->.
      { apply eq_None_not_Some. intros [q Hq]. apply lookup_active_runs in Hq as (Hq & ? & ?).
        rewrite Ek in Hq. injection Hq as <-. by apply Ha. }
      simpl. by rewrite decide_False.
  - assert (active_runs review t !! k = None) as ->; [|done].
    apply eq_None_not_Some. intros [q Hq]. apply lookup_active_runs in Hq as (Hq & ? & ?).
    congruence.
Qed.

Lemma supersede_update_fresh review reason newRun now t t' :
  supersede_update review reason newRun now t = Some t' ->
  active_runs review t !! newRun = None.
Proof.
  unfold supersede_update. destruct (forallb _ _) eqn:E; [|done]. intros _.
  apply eq_None_not_Some. intros [r Hr]. rewrite forallb_forall in E.
  specialize (E (newRun, r)). simpl in E.
  rewrite String.eqb_refl, andb_false_r in E. discriminate E.
  by apply list_elem_of_In, elem_of_map_to_list.
Qed.

Lemma active_unstamped s : active s = true -> stamped s = false.
Proof. by destruct s. Qed.

(** The CHECKs always let an active row be superseded. *)
Lemma supersede_row_checks reason newRun now r :
  reason ∈ CANCEL_REASONS -> active (lifecycle_state r) = true -> run_checks r = true ->
  run_checks (supersede_row reason newRun now r) = true.
Proof.
  intros Hin Ha. rewrite !run_checks_true. intros (Hca & Hco & Hf & _ & _).
  apply active_unstamped in Ha.
  destruct (lifecycle_state r); try discriminate; simpl; rewrite <- ?Hco, <- ?Hf;
    (split_and!; [done|done|done|intros c [= <-]; eauto|done]).
Qed.

Lemma supersede_update_succeeds review reason newRun now t :
  reason ∈ CANCEL_REASONS -> all_checks t -> active_runs review t !! newRun = None ->
  exists t', supersede_update review reason newRun now t = Some t'.
Proof.
  intros Hin Hc Hn. unfold supersede_update.
  assert (forallb (fun p => run_checks (supersede_row reason newRun now p.2)
    && negb (String.eqb p.1 newRun)) (map_to_list (active_runs review t)) = true) as ->; [|eauto].
  apply forallb_forall. intros [k r] Hk.
  apply list_elem_of_In, elem_of_map_to_list in Hk. simpl.
  apply andb_true_iff. split.
  - apply lookup_active_runs in Hk as (Hk & _ & Ha). apply supersede_row_checks; eauto.
  - apply negb_true_iff, String.eqb_neq. intros ->. congruence.
Qed.

Lemma returning_first_some review t k :
  returning_first review t = Some k -> exists r, active_runs review t !! k = Some r.
Proof.
  unfold returning_first. rewrite list_lookup_fmap. intros H.
  apply fmap_Some in H as ([k' r] & H & ->). exists r.
  apply list_elem_of_lookup_2 in H. by apply elem_of_map_to_list in H.
Qed.

Lemma returning_first_none review t :
  returning_first review t = None -> active_runs review t = ∅.
Proof.
  unfold returning_first. rewrite list_lookup_fmap. intros H. apply fmap_None in H.
  destruct (map_to_list (active_runs review t)) eqn:E; [|done].
  by apply map_to_list_empty_iff.
Qed.

(** [emit_on] appends one event of the run it names. *)
Lemma emit_on_ok a eid now db db' :
  emit_on a eid now db = Ok db' ->
  db' = CoreDb (runs db) (reviews db) (repositories db)
          (events db ++ [event_row a eid now (next_seq (e_run a) (events db))]).
Proof.
  unfold emit_on, lift_event, emitWorkflowEvent. intros H.
  destruct (emit_validate true a) as [[]|]; simpl in H; [|done].
  destruct (runIdToLockKey (e_run a)); simpl in H; [|done].
  destruct (negb _); simpl in H; [|done].
  destruct (event_fk a db); simpl in H; [|done]. by injection H as <-.
Qed.

(** ** What each call does when it returns *)

Record supersede_effect (a : supersede_args) (eid : string) (now : Z) (db db' : core_db)
    (old : option string) (inst : string) : Prop := {
  se_reason : default "superseded" (s_reason a) ∈ CANCEL_REASONS;
  se_tenant : review_installation (s_review a) db = Some inst;
  se_expected : forall e, s_expected a = Some e -> inst = e;
  se_runs : supersede_update (s_review a) (default "superseded" (s_reason a)) (s_new_run a) now
    (runs db) = Some (runs db');
  se_reviews : reviews db' = reviews db;
  se_repos : repositories db' = repositories db;
  se_old : old = returning_first (s_review a) (runs db);
  se_events : events db' = events db ++
    match old with
    | None => []
    | Some o => [event_row (superseded_event (s_provider a) o (s_review a) (s_new_run a)
                   (default "superseded" (s_reason a)) inst) eid now (next_seq o (events db))]
    end;
}.

Lemma supersedeRun_ok in_tx a eid now db db' old :
  supersedeRun in_tx a eid now db = Ok (db', old) ->
  exists inst, supersede_effect a eid now db db' old inst.
Proof.
  unfold supersedeRun. intros H. destruct (existsb _ _) eqn:Ereason; [|done].
  destruct in_tx; [|done]. destruct (review_installation _ _) as [inst|] eqn:Einst; [|done].
  destruct (match s_expected a with None => true | Some _ => _ end) eqn:Eexp; [|done].
  destruct (supersede_update _ _ _ _ _) as [runs'|] eqn:Eupd; [|done].
  apply existsb_eqb_elem in Ereason.
  assert (Hexp : forall e, s_expected a = Some e -> inst = e).
  { intros e He. rewrite He in Eexp. by apply String.eqb_eq. }
  exists inst. destruct (returning_first _ _) as [o|] eqn:Eold.
  - apply rbind_ok in H as (db2 & He & H). injection H as <- <-.
    apply emit_on_ok in He as ->. by constructor.
  - injection H as <- <-. constructor; rewrite ?app_nil_r; done.
Qed.

Lemma supersede_effect_lookup a eid now db db' old inst k :
  supersede_effect a eid now db db' old inst ->
  runs db' !! k = (fun r => superseded_row (s_review a) (default "superseded" (s_reason a))
                              (s_new_run a) now (k, r)) <$> runs db !! k.
Proof. intros H. by eapply supersede_update_lookup, se_runs. Qed.

Lemma flipCurrentRun_ok in_tx w newRun oldExp inst db db' old :
  flipCurrentRun in_tx w newRun oldExp inst db = Ok (db', old) ->
  exists v, reviews db !! w = Some v /\ old = current_run_id v /\
    (forall e, inst = Some e -> review_installation w db = Some e) /\
    (forall e, oldExp = Some e -> old = Some e) /\ is_Some (runs db !! newRun) /\
    db' = CoreDb (runs db) (<[w := set_current newRun v]> (reviews db)) (repositories db) (events db).
Proof.
  unfold flipCurrentRun. intros H. destruct in_tx; [|done].
  destruct (match inst with None => true | Some _ => _ end) eqn:Ei; [|done].
  destruct (reviews db !! w) as [v|] eqn:Ev; [|done].
  destruct (row_exists _ _) eqn:Er; [|done].
  destruct (match oldExp with None => true | Some _ => _ end) eqn:Eo; [|done].
  injection H as <- <-. exists v. split_and!; try done.
  - intros e ->. by apply bool_decide_eq_true in Ei.
  - intros e ->. by apply bool_decide_eq_true in Eo.
  - by apply (row_exists_true (Some newRun)).
Qed.

Lemma insert_run_ok id r db db' :
  insert_run id r db = Ok db' ->
  insert_checks r = true /\ run_checks r = true /\ runs db !! id = None /\
  is_Some (reviews db !! run_review r) /\
  db' = CoreDb (<[id := r]> (runs db)) (reviews db) (repositories db) (events db).
Proof.
  unfold insert_run. intros H.
  destruct (insert_checks r && run_checks r)%bool eqn:Ec; [|done].
  destruct (bool_decide (runs db !! id = None)) eqn:Eu; [|done].
  destruct (row_exists _ _ && _ && _)%bool eqn:Ef; [|done]. injection H as <-.
  bool_to_prop. split_and!; try done. by apply (row_exists_true (Some (run_review r))).
Qed.

Lemma allocate_supersede_ok a newRun eid now db db' old :
  allocate_supersede a newRun eid now db = Ok (db', old) ->
  (is_Some (al_parent a) /\ db' = db /\ old = None) \/
  (al_parent a = None /\ supersede_effect
     (SupersedeArgs (al_review a) newRun (al_provider a) (Some "superseded")
        (Some (al_installation a))) eid now db db' old (al_installation a)).
Proof.
  unfold allocate_supersede. destruct (al_parent a); [intros [= <- <-]; left; by eauto|].
  intros (inst & H)%supersedeRun_ok. right. split; [done|].
  by rewrite (se_expected _ _ _ _ _ _ _ H _ eq_refl) in H.
Qed.

(** The rows after [allocateRun]. *)
Definition after_allocate (a : alloc_args) (newRun : string) (now : Z) (old : option string)
    (t : gmap string run_row) (k : string) : option run_row :=
  if decide (k = newRun) then Some (new_run a old)
  else match al_parent a with
       | Some _ => t !! k
       | None => (fun r => superseded_row (al_review a) "superseded" newRun now (k, r)) <$> t !! k
       end.

Record allocate_effect (a : alloc_args) (newRun eid1 eid2 : string) (now : Z) (db db' : core_db)
    (old : option string) (v : review_row) : Prop := {
  ae_trigger : al_trigger a ∈ TRIGGER_TYPES;
  ae_fresh : runs db !! newRun = None;
  ae_tenant : review_installation (al_review a) db = Some (al_installation a);
  ae_review : reviews db !! al_review a = Some v;
  ae_runs : forall k, runs db' !! k = after_allocate a newRun now old (runs db) k;
  ae_reviews : reviews db' = <[al_review a := set_current newRun v]> (reviews db);
  ae_repos : repositories db' = repositories db;
  ae_old : match al_parent a with
           | Some _ => old = None
           | None => old = returning_first (al_review a) (runs db)
           end;
  ae_pointer : forall o, old = Some o -> current_run_id v = Some o;
  ae_new : run_checks (new_run a old) = true;
  ae_events : events db' = events db ++
    match old with
    | None => []
    | Some o => [event_row (superseded_event (al_provider a) o (al_review a) newRun "superseded"
                   (al_installation a)) eid1 now (next_seq o (events db))]
    end ++
    match al_delivery a with
    | None => []
    | Some _ => [event_row (received_event a newRun) eid2 now
                   (next_seq newRun (events db ++ match old with None => [] | Some o =>
                      [event_row (superseded_event (al_provider a) o (al_review a) newRun
                         "superseded" (al_installation a)) eid1 now (next_seq o (events db))] end))]
    end;
}.

Lemma allocateRun_ok in_tx a newRun eid1 eid2 now db db' old :
  allocateRun in_tx a newRun eid1 eid2 now db = Ok (db', old) ->
  exists v, allocate_effect a newRun eid1 eid2 now db db' old v.
Proof.
  unfold allocateRun. intros H. destruct (existsb _ _) eqn:Et; [|done].
  apply existsb_eqb_elem in Et. destruct (negb _); [|done]. destruct in_tx; [|done].
  apply rbind_ok in H as ([db1 o] & H1 & H).
  apply rbind_ok in H as (db2 & (_ & Hchk & Hnew & Hrv & ->)%insert_run_ok & H).
  apply rbind_ok in H as ([db3 o3] & (v & Hv & -> & Ht & Ho & _ & ->)%flipCurrentRun_ok & H).
  simpl in *.
  assert (Hfin : o = old /\ db' = CoreDb (<[newRun := new_run a o]> (runs db1))
    (<[al_review a := set_current newRun v]> (reviews db1)) (repositories db1)
    (events db1 ++ match al_delivery a with None => [] | Some _ =>
       [event_row (received_event a newRun) eid2 now (next_seq newRun (events db1))] end)).
  { destruct (al_delivery a).
    - apply rbind_ok in H as (db4 & ->%emit_on_ok & H). by injection H as <- <-.
    - injection H as <- <-. by rewrite app_nil_r. }
  destruct Hfin as [-> ->]. exists v. specialize (Ht _ eq_refl).
  destruct (allocate_supersede_ok _ _ _ _ _ _ _ H1) as [([p Hp] & -> & ->)|[Hp Hs]].
  - constructor; simpl; try done; try (by rewrite Hp); try (by rewrite app_nil_r).
    intros k. unfold after_allocate. rewrite Hp.
    case_decide; [subst; by rewrite lookup_insert_eq|by rewrite lookup_insert_ne].
  - pose proof (fun k => supersede_effect_lookup _ _ _ _ _ _ _ k Hs) as Hl.
    destruct Hs as [_ Hten _ _ Hr Hrep Hold Hev]. simpl in *.
    constructor; simpl; rewrite ?Hr, ?Hrep; try done; try congruence.
    + rewrite Hl in Hnew. by apply fmap_None in Hnew.
    + intros k. unfold after_allocate. rewrite Hp.
      case_decide; [subst; by rewrite lookup_insert_eq|by rewrite lookup_insert_ne].
    + by rewrite Hp.
    + rewrite Hev. destruct (al_delivery a); [|by rewrite !app_nil_r]. by rewrite app_assoc.
Qed.

(** ** The invariant is kept *)

Lemma core_inv_frame db db' :
  runs db' = runs db -> reviews db' = reviews db -> core_inv db -> core_inv db'.
Proof. intros Hr Hv [H1 H2 H3 H4 H5 H6]. constructor; by rewrite ?Hr, ?Hv. Qed.

Lemma core_empty_inv repos : core_inv (core_empty repos).
Proof. constructor; unfold all_checks; simpl; intros; simplify_map_eq. Qed.

(** Rewriting rows without touching their review, turning none active and
    naming only existing superseders. *)
Lemma core_inv_rows db t' :
  core_inv db -> all_checks t' ->
  (forall k r', t' !! k = Some r' -> exists r, runs db !! k = Some r /\
     run_review r' = run_review r /\
     (active (lifecycle_state r') = true -> active (lifecycle_state r) = true) /\
     (forall n, superseded_by_run_id r' = Some n ->
        superseded_by_run_id r = Some n \/ is_Some (runs db !! n))) ->
  (forall k r, runs db !! k = Some r -> exists r', t' !! k = Some r' /\ run_review r' = run_review r) ->
  core_inv (CoreDb t' (reviews db) (repositories db) (events db)).
Proof.
  intros [H1 H2 H3 H4 H5 H6] Hc Hback Hfwd. constructor; simpl; try done.
  - intros k r' Hr'. destruct (Hback k r' Hr') as (r & Hr & -> & _). eauto.
  - intros w v k Hv Hk. destruct (H3 w v k Hv Hk) as (r & Hr & <-).
    destruct (Hfwd k r Hr) as (r' & Hr' & Hw). eauto.
  - intros k r' Hr' Ha. destruct (Hback k r' Hr') as (r & Hr & -> & Hact & _). eauto.
  - intros k r' n Hr' Hn. destruct (Hback k r' Hr') as (r & Hr & _ & _ & Hs).
    destruct (Hs n Hn) as [Ho|Ho]; [pose proof (H5 _ _ _ Hr Ho) as Ho'|rename Ho into Ho'];
      destruct Ho' as [q Hq]; destruct (Hfwd n q Hq) as (q' & Hq' & _); eauto.
Qed.

Lemma superseded_row_facts review reason newRun now k r :
  run_review (superseded_row review reason newRun now (k, r)) = run_review r /\
  (active (lifecycle_state (superseded_row review reason newRun now (k, r))) = true ->
     active (lifecycle_state r) = true /\ run_review r <> review) /\
  (forall n, superseded_by_run_id (superseded_row review reason newRun now (k, r)) = Some n ->
     superseded_by_run_id r = Some n \/ n = newRun).
Proof.
  unfold superseded_row. destruct (decide (active_on review (k, r))) as [Ha|Ha]; simpl.
  - split; [done|split; [done|]]. intros n [= <-]. by right.
  - split; [done|split; [|auto]]. intros Hact. split; [done|]. intros Hr. by apply Ha.
Qed.

Lemma superseded_row_checks review reason newRun now k r :
  reason ∈ CANCEL_REASONS -> run_checks r = true ->
  run_checks (superseded_row review reason newRun now (k, r)) = true.
Proof.
  intros Hin Hc. unfold superseded_row.
  destruct (decide (active_on review (k, r))) as [[_ Ha]|]; [|done].
  by apply supersede_row_checks.
Qed.

Lemma core_inv_supersede a eid now db db' old inst :
  supersede_effect a eid now db db' old inst -> is_Some (runs db !! s_new_run a) ->
  core_inv db -> core_inv db'.
Proof.
  intros Hs Hnew Hi.
  apply (core_inv_frame (CoreDb (runs db') (reviews db) (repositories db) (events db)));
    [done|apply (se_reviews _ _ _ _ _ _ _ Hs)|].
  pose proof (fun k => supersede_effect_lookup _ _ _ _ _ _ _ k Hs) as Hl.
  apply core_inv_rows; [done|..].
  - intros k r' Hr'. rewrite Hl in Hr'. apply fmap_Some in Hr' as (r & Hr & ->).
    apply superseded_row_checks; [apply (se_reason _ _ _ _ _ _ _ Hs)|by eapply inv_checks].
  - intros k r' Hr'. rewrite Hl in Hr'. apply fmap_Some in Hr' as (r & Hr & ->). exists r.
    destruct (superseded_row_facts (s_review a) (default "superseded" (s_reason a)) (s_new_run a)
      now k r) as (Hw & Ha & Hn).
    split; [done|]. split; [done|]. split; [by intros [? _]%Ha|].
    intros n [?| ->]%Hn; auto.
  - intros k r Hr. rewrite Hl, Hr. simpl. eexists. split; [done|]. apply superseded_row_facts.
Qed.

Lemma after_allocate_old a newRun now old t k r' :
  k <> newRun -> after_allocate a newRun now old t k = Some r' ->
  exists r, t !! k = Some r /\ run_review r' = run_review r /\
    (run_checks r = true -> run_checks r' = true) /\
    (active (lifecycle_state r') = true -> active (lifecycle_state r) = true /\
       (al_parent a = None -> run_review r <> al_review a)) /\
    (forall n, superseded_by_run_id r' = Some n -> superseded_by_run_id r = Some n \/ n = newRun).
Proof.
  intros Hne. unfold after_allocate. rewrite decide_False by done.
  destruct (al_parent a) as [p|].
  - intros Hr. exists r'. split_and!; [done|done|done|by intros ?|auto].
  - intros (r & Hr & ->)%fmap_Some. exists r.
    destruct (superseded_row_facts (al_review a) "superseded" newRun now k r) as (Hw & Ha & Hn).
    split_and!; [done|done| |intros ?%Ha; tauto|done].
    intros. by apply superseded_row_checks; [left|].
Qed.

Lemma after_allocate_some a newRun now old t k r :
  t !! k = Some r -> k <> newRun ->
  exists r', after_allocate a newRun now old t k = Some r' /\ run_review r' = run_review r.
Proof.
  intros Hr Hne. unfold after_allocate. rewrite decide_False by done. rewrite Hr.
  destruct (al_parent a); [by eexists|]. simpl. eexists. split; [done|]. apply superseded_row_facts.
Qed.

Lemma after_allocate_new a newRun now old t :
  after_allocate a newRun now old t newRun = Some (new_run a old).
Proof. unfold after_allocate. by rewrite decide_True. Qed.

Lemma core_inv_allocate a newRun eid1 eid2 now db db' old v :
  allocate_effect a newRun eid1 eid2 now db db' old v ->
  al_parent a = None \/ active_runs (al_review a) (runs db) = ∅ ->
  core_inv db -> core_inv db'.
Proof.
  intros He Hpar [H1 H2 H3 H4 H5 H6].
  pose proof (ae_runs _ _ _ _ _ _ _ _ _ He) as Hl. pose proof (ae_reviews _ _ _ _ _ _ _ _ _ He) as Hrv.
  pose proof (ae_review _ _ _ _ _ _ _ _ _ He) as Hv. pose proof (ae_fresh _ _ _ _ _ _ _ _ _ He) as Hf.
  assert (Hcase : forall k r', runs db' !! k = Some r' ->
    (k = newRun /\ r' = new_run a old) \/
    (k <> newRun /\ after_allocate a newRun now old (runs db) k = Some r')).
  { intros k r'. rewrite Hl. destruct (decide (k = newRun)) as [->|]; [|auto].
    rewrite after_allocate_new. intros [= <-]. by left. }
  constructor.
  - intros k r' [[-> ->]|[Hne Hr]]%Hcase; [apply (ae_new _ _ _ _ _ _ _ _ _ He)|].
    apply after_allocate_old in Hr as (r & Hr & _ & Hc & _); eauto.
  - intros k r' Hr'. rewrite Hrv. apply lookup_insert_is_Some'.
    apply Hcase in Hr' as [[-> ->]|[Hne Hr]]; [by left|]. right.
    apply after_allocate_old in Hr as (r & Hr & -> & _); eauto.
  - intros w q k. rewrite Hrv, lookup_insert_Some. intros [[<- <-]|[Hw Hq]] Hk.
    + simpl in Hk. injection Hk as <-. exists (new_run a old).
      by rewrite Hl, after_allocate_new.
    + destruct (H3 w q k Hq Hk) as (r & Hr & <-).
      destruct (after_allocate_some a newRun now old _ _ _ Hr) as (r' & Hr' & Hw');
        [congruence|]. exists r'. by rewrite Hl.
  - intros k r' [[-> ->]|[Hne Hr]]%Hcase Ha; simpl.
    + rewrite Hrv. simpl. rewrite lookup_insert_eq. by eexists.
    + apply after_allocate_old in Hr as (r & Hr & -> & _ & Hact & _); [|done].
      destruct (Hact Ha) as [Har Hnr]. destruct (H4 k r Hr Har) as (q & Hq & Hk).
      exists q. rewrite Hrv, lookup_insert_ne; [done|]. intros E.
      destruct Hpar as [Hp|Hp]; [by apply (Hnr Hp)|].
      rewrite (proj1 (active_runs_empty _ _) Hp k r Hr) in Har; done.
  - intros k r' n [[-> ->]|[Hne Hr]]%Hcase Hn; [done|].
    apply after_allocate_old in Hr as (r & Hr & _ & _ & _ & Hs); [|done]. rewrite Hl.
    destruct (Hs n Hn) as [Ho| ->]; [|by rewrite after_allocate_new; eexists].
    destruct (H5 _ _ _ Hr Ho) as [q Hq].
    destruct (after_allocate_some a newRun now old _ _ _ Hq) as (q' & Hq' & _);
      [congruence|]. by eexists.
  - intros w q w' q'. rewrite Hrv, !lookup_insert_Some.
    intros [[<- <-]|[Hw Hq]] [[<- <-]|[Hw' Hq']] Hk; try done; [| |by eapply H6];
      [by apply (H6 _ v _ _ Hv Hq')|by apply (H6 _ _ _ v Hq Hv)].
Qed.

Lemma find_review_spec k t :
  match find_review k t with
  | Some (id, v) => t !! id = Some v /\ natural_key v = k
  | None => forall id v, t !! id = Some v -> natural_key v <> k
  end.
Proof.
  unfold find_review. set (m := filter _ t).
  assert (Hm : forall id v, m !! id = Some v <-> t !! id = Some v /\ natural_key v = k).
  { intros id v. unfold m. by rewrite map_lookup_filter_Some. }
  destruct (map_to_list m !! 0%nat) as [[id v]|] eqn:E.
  - by apply Hm, elem_of_map_to_list, (list_elem_of_lookup_2 _ 0).
  - intros id v Hv Hk. assert (Hl : (id, v) ∈ map_to_list m) by (by apply elem_of_map_to_list, Hm).
    apply list_elem_of_lookup in Hl as [i Hi]. apply lookup_lt_Some in Hi.
    apply lookup_ge_None in E. lia.
Qed.

Lemma upsertReview_ok a fresh db db' id :
  upsertReview a fresh db = Ok (db', id) ->
  exists cur, db' = CoreDb (runs db) (<[id := upserted a cur]> (reviews db)) (repositories db) (events db) /\
  match reviews db !! id with
  | Some v => natural_key v = upsert_key a /\ cur = current_run_id v
  | None => cur = None /\ forall j v, reviews db !! j = Some v -> natural_key v <> upsert_key a
  end.
Proof.
  unfold upsertReview. pose proof (find_review_spec (upsert_key a) (reviews db)) as Hs.
  destruct (find_review _ _) as [[j v]|]; intros H.
  - injection H as <- <-. destruct Hs as [Hj Hk]. exists (current_run_id v). by rewrite Hj.
  - destruct (bool_decide _) eqn:E; [|done]. injection H as <- <-. bool_to_prop. exists None.
    by rewrite E.
Qed.

Lemma core_inv_upsert a fresh db db' id :
  upsertReview a fresh db = Ok (db', id) -> core_inv db -> core_inv db'.
Proof.
  intros (cur & -> & Hc)%upsertReview_ok [H1 H2 H3 H4 H5 H6]. constructor; simpl; try done.
  - intros k r Hr. apply lookup_insert_is_Some'. right. eauto.
  - intros w v k. rewrite lookup_insert_Some. intros [[<- <-]|[_ Hv]] Hk; [|eauto].
    simpl in Hk. subst cur. destruct (reviews db !! id) as [v|] eqn:Ev; [|by destruct Hc].
    destruct Hc as [_ Hc]. eauto.
  - intros k r Hr Ha. destruct (H4 k r Hr Ha) as (v & Hv & Hk).
    destruct (decide (run_review r = id)) as [E|E]; [|exists v; by rewrite lookup_insert_ne].
    exists (upserted a cur). rewrite E, lookup_insert_eq. split; [done|].
    rewrite E in Hv. rewrite Hv in Hc. destruct Hc as [_ ->]. done.
  - assert (Hkey : forall w v, w <> id -> reviews db !! w = Some v -> natural_key v <> upsert_key a).
    { intros w v Hw Hv Hk. destruct (reviews db !! id) as [q|] eqn:Eq; [|by eapply Hc].
      destruct Hc as [Hq _]. apply Hw. eapply H6; eauto. congruence. }
    intros w v w' v'. rewrite !lookup_insert_Some.
    intros [[<- <-]|[Hw Hv]] [[<- <-]|[Hw' Hv']] Hk; try done; [| |by eapply H6]; exfalso.
    + by apply (Hkey w' v').
    + by apply (Hkey w v).
Qed.

(** The row a [transitionRun] rewrites. *)
Lemma transitionRun_rows in_tx a eid now db pending db' pending' o :
  transitionRun in_tx a eid now db pending = Ok (db', pending', o) ->
  reviews db' = reviews db /\
  (runs db' = runs db \/ exists r to, runs db !! t_run a = Some r /\
     lifecycle_name (lifecycle_state r) = t_from a /\ lifecycle_state r <> to /\
     run_checks (set_lifecycle to now r) = true /\
     runs db' = <[t_run a := set_lifecycle to now r]> (runs db)).
Proof.
  intros H. unfold transitionRun in H. apply rbind_ok in H as ([from to] & Hv & H).
  apply transition_validate_ok in Hv as (_ & Hf%lifecycle_of_string_name & _).
  destruct (select_run _ _) as [[[r v] [inst|]]|] eqn:Es; try discriminate.
  destruct (match t_expected a with Some _ => _ | None => _ end); [|discriminate].
  case_decide as Hne; [injection H as <- _ _; auto|].
  destruct (bool_decide _) eqn:Ef; [|discriminate]. apply bool_decide_eq_true in Ef.
  apply select_run_some in Es as (Er & _).
  destruct (update_run _ _ _) as [t|] eqn:Eu; [|discriminate].
  apply rbind_ok in H as ([log' id'] & _ & H). injection H as <- _ _. simpl. split; [done|right].
  unfold update_run in Eu. rewrite Er in Eu. destruct (run_checks _) eqn:Ec; [|discriminate].
  injection Eu as <-. exists r, to. split_and!; congruence.
Qed.

Lemma core_inv_transition in_tx a eid now db pending db' pending' o :
  transitionRun in_tx a eid now db pending = Ok (db', pending', o) -> t_from a <> "PARTIAL" ->
  core_inv db -> core_inv db'.
Proof.
  intros (Hv & Ht)%transitionRun_rows Hp Hi.
  destruct Ht as [Hr|(r & to & Hr & Hf & Hne & Hc & Ht)]; [by apply (core_inv_frame db)|].
  apply (core_inv_frame (CoreDb (runs db') (reviews db) (repositories db) (events db))); [done..|].
  pose proof (inv_checks _ Hi) as Hall.
  assert (Hact : active (lifecycle_state r) = true).
  { destruct (active (lifecycle_state r)) eqn:Ea; [done|exfalso].
    destruct (stamped (lifecycle_state r)) eqn:Est.
    - rewrite (stamped_final _ to now r (Hall _ _ Hr) eq_refl Est) in Hc; done.
    - destruct (lifecycle_state r); try discriminate. done. }
  rewrite Ht. apply core_inv_rows; [done|..].
  - intros k r'. rewrite lookup_insert_Some. intros [[<- <-]|[_ H]]; [done|by eapply Hall].
  - intros k r'. rewrite lookup_insert_Some. intros [[<- <-]|[_ H]]; [exists r|exists r']; auto.
  - intros k q Hq. destruct (decide (t_run a = k)) as [<-|Hk].
    + rewrite lookup_insert_eq. eexists. split; [done|]. simpl. congruence.
    + rewrite lookup_insert_ne by done. eauto.
Qed.

Lemma assertCurrentRun_rows in_tx run review site eid now db pending db' pending' r :
  assertCurrentRun in_tx run review site eid now db pending = (db', pending', r) ->
  runs db' = runs db /\ reviews db' = reviews db.
Proof.
  unfold assertCurrentRun. destruct in_tx; simpl; [|by intros [= <- _ _]].
  destruct (reviews db !! review) as [v|]; [|by intros [= <- _ _]].
  case_decide; [by intros [= <- _ _]|].
  destruct (runIdToLockKey run); [destruct (runs db !! run)|]; by intros [= <- _ _].
Qed.

Lemma core_step_inv db db' : core_step db db' -> core_inv db -> core_inv db'.
Proof.
  intros Hs Hi. destruct Hs.
  - by eapply core_inv_upsert.
  - match goal with H : allocateRun _ _ _ _ _ _ _ = _ |- _ => apply allocateRun_ok in H as [v H] end.
    by eapply core_inv_allocate.
  - match goal with H : supersedeRun _ _ _ _ _ = _ |- _ => apply supersedeRun_ok in H as [i H] end.
    by eapply core_inv_supersede.
  - by eapply core_inv_transition.
  - match goal with H : assertCurrentRun _ _ _ _ _ _ _ _ = _ |- _ => apply assertCurrentRun_rows in H as [Hr Hv] end.
    by apply (core_inv_frame db).
  - match goal with H : emit_on _ _ _ _ = _ |- _ => apply emit_on_ok in H as -> end.
    by apply (core_inv_frame db).
Qed.

Lemma core_steps_inv db db' : core_steps db db' -> core_inv db -> core_inv db'.
Proof. induction 1; [done|]. intros Hi. eapply core_step_inv; eauto. Qed.

(** ** When the calls succeed *)

Lemma emit_on_succeeds a eid now db i :
  e_installation a = Some i -> e_type a ∈ EVENT_TYPES -> is_Some (runIdToLockKey (e_run a)) ->
  is_Some (runs db !! e_run a) -> is_Some (reviews db !! e_review a) ->
  (forall f, f ∈ events db -> same_delivery (event_row a eid now (next_seq (e_run a) (events db))) f = false) ->
  emit_on a eid now db =
    Ok (CoreDb (runs db) (reviews db) (repositories db)
          (events db ++ [event_row a eid now (next_seq (e_run a) (events db))])).
Proof.
  intros Hi Ht [k Hk] [r Hr] [v Hv] Hd.
  unfold emit_on, lift_event, emitWorkflowEvent, emit_validate, event_fk, row_exists.
  rewrite Hi, Hk, Hr, Hv. apply existsb_eqb_elem in Ht as ->. simpl.
  assert (existsb (same_delivery (event_row a eid now (next_seq (e_run a) (events db)))) (events db)
    = false) as ->; [|done].
  apply not_true_iff_false. intros (f & Hf & E)%existsb_exists.
  by rewrite Hd in E by (by apply list_elem_of_In).
Qed.

(** The one run an allocation displaces. *)
Lemma returning_first_current db w v :
  core_inv db -> reviews db !! w = Some v ->
  returning_first w (runs db) =
  match current_run_id v with
  | Some k => match runs db !! k with
              | Some r => if active (lifecycle_state r) then Some k else None
              | None => None
              end
  | None => None
  end.
Proof.
  intros Hi Hv. destruct (returning_first w (runs db)) as [k|] eqn:Ek.
  - apply returning_first_some in Ek as (r & (Hr & Hw & Ha)%lookup_active_runs).
    destruct (inv_active _ Hi k r Hr Ha) as (q & Hq & Hk). rewrite Hw, Hv in Hq.
    injection Hq as <-. by rewrite Hk, Hr, Ha.
  - apply returning_first_none in Ek. destruct (current_run_id v) as [k|] eqn:Hk; [|done].
    destruct (inv_pointer _ Hi w v k Hv Hk) as (r & Hr & Hw). rewrite Hr.
    by rewrite (proj1 (active_runs_empty _ _) Ek k r Hr Hw).
Qed.

Record allocatable (a : alloc_args) (newRun : string) (now : Z) (db : core_db) : Prop := {
  al_trig : al_trigger a ∈ TRIGGER_TYPES;
  al_first : al_parent a = None /\ al_attempt a = 1;
  al_tenant : review_installation (al_review a) db = Some (al_installation a);
  al_unused : runs db !! newRun = None;
  al_keys : forall k, k = newRun \/ is_Some (runs db !! k) -> is_Some (runIdToLockKey k);
  al_undelivered : forall d f, al_delivery a = Some d -> f ∈ events db ->
    ~ (ev_delivery f = Some d /\ ev_provider f = al_provider a /\ received_at f = now);
}.

Lemma allocate_supersede_succeeds a newRun eid now db :
  core_inv db -> allocatable a newRun now db ->
  exists db1 old, allocate_supersede a newRun eid now db = Ok (db1, old).
Proof.
  intros Hi [Ht [Hp _] Hten Hf Hkeys _]. unfold allocate_supersede, supersedeRun. rewrite Hp. simpl.
  rewrite Hten. rewrite String.eqb_refl.
  destruct (supersede_update_succeeds (al_review a) "superseded" newRun now (runs db)) as [t Hu].
  { by left. } { apply Hi. }
  { apply eq_None_not_Some. intros [r (Hr & _)%lookup_active_runs]. congruence. }
  rewrite Hu. destruct (returning_first _ _) as [o|] eqn:Eo; [|eauto].
  apply returning_first_some in Eo as (r & (Hr & Hw & _)%lookup_active_runs).
  rewrite (emit_on_succeeds _ _ _ _ (al_installation a)); simpl; eauto.
  - by apply existsb_eqb_elem.
  - rewrite (supersede_update_lookup _ _ _ _ _ _ _ Hu), Hr. by eexists.
  - destruct (inv_review _ Hi o r Hr) as [v Hv]. rewrite Hw in Hv. by eexists.
Qed.

Lemma new_run_checks a old : run_checks (new_run a old) = true.
Proof. apply run_checks_true. simpl. split_and!; try done; split; by try intros [? ?]. Qed.

Lemma allocateRun_succeeds a newRun eid1 eid2 now db :
  core_inv db -> allocatable a newRun now db ->
  exists db' old, allocateRun true a newRun eid1 eid2 now db = Ok (db', old).
Proof.
  intros Hi Ha. pose proof Ha as [Ht [Hp Hatt] Hten Hf Hkeys Hd].
  assert (exists v, reviews db !! al_review a = Some v) as [v Hv].
  { unfold review_installation in Hten. destruct (reviews db !! al_review a); [eauto|done]. }
  unfold allocateRun. apply existsb_eqb_elem in Ht as Ht'. rewrite Ht', Hatt, Hp. simpl.
  destruct (allocate_supersede_succeeds a newRun eid1 now db Hi Ha) as (db1 & old & H1).
  rewrite H1. simpl.
  destruct (allocate_supersede_ok _ _ _ _ _ _ _ H1) as [([? ?] & _ & _)|[_ Hs]]; [congruence|].
  pose proof (fun k => supersede_effect_lookup _ _ _ _ _ _ _ k Hs) as Hl. simpl in Hl.
  destruct Hs as [_ _ _ _ Hrv Hrep Hold Hev]. simpl in *.
  assert (Hf1 : runs db1 !! newRun = None) by (by rewrite Hl, Hf).
  assert (Hpar : forall o, old = Some o -> current_run_id v = Some o /\ is_Some (runs db1 !! o)).
  { intros o ->. symmetry in Hold. rewrite (returning_first_current _ _ _ Hi Hv) in Hold.
    destruct (current_run_id v) as [k|]; [|done]. destruct (runs db !! k) as [r|] eqn:Er; [|done].
    destruct (active _); [|done]. injection Hold as ->. split; [done|]. rewrite Hl, Er. by eexists. }
  unfold insert_run, insert_checks. rewrite new_run_checks. simpl. rewrite Hp, Hatt, Ht'. simpl.
  rewrite Hf1, Hrv, Hv. simpl.
  assert (row_exists old (runs db1) = true) as ->.
  { apply row_exists_true. intros o Ho. by apply Hpar. }
  simpl. unfold flipCurrentRun. simpl.
  assert (review_installation (al_review a) (CoreDb (<[newRun := new_run a old]> (runs db1))
    (reviews db) (repositories db1) (events db1)) = Some (al_installation a)) as ->.
  { unfold review_installation in *. simpl. by rewrite Hrep. }
  rewrite bool_decide_eq_true_2 by done. rewrite Hv, lookup_insert_eq.
  assert (match old with None => true | Some e => bool_decide (current_run_id v = Some e) end = true) as ->.
  { destruct old as [o|]; [|done]. apply bool_decide_eq_true, Hpar. done. }
  simpl. destruct (al_delivery a) as [d|] eqn:Ed; [|eauto].
  rewrite (emit_on_succeeds _ _ _ _ (al_installation a)); simpl; eauto.
  - by left.
  - rewrite lookup_insert_eq. by eexists.
  - rewrite lookup_insert_eq. by eexists.
  - intros f Hin. unfold same_delivery. simpl. rewrite Ed. destruct (ev_delivery f) as [d'|] eqn:Ef; [|done].
    apply not_true_iff_false. rewrite !andb_true_iff, !String.eqb_eq, Z.eqb_eq. intros [[<- Hp2] Hr2].
    rewrite Hev in Hin. apply elem_of_app in Hin as [Hin|Hin]; [by eapply (Hd d f)|].
    destruct old; apply list_elem_of_In in Hin; simpl in Hin; [destruct Hin as [<-|[]]; done|done].
Qed.

(** A pointer that has left a run does not come back to it. *)
Definition displaced (k : string) (db : core_db) : Prop :=
  exists r, runs db !! k = Some r /\
  forall v, reviews db !! run_review r = Some v -> current_run_id v <> Some k.

Lemma displaced_frame k db db' :
  (forall r, runs db !! k = Some r -> exists r', runs db' !! k = Some r' /\ run_review r' = run_review r) ->
  (forall w v', reviews db' !! w = Some v' -> current_run_id v' = Some k ->
     exists v, reviews db !! w = Some v /\ current_run_id v = Some k) ->
  displaced k db -> displaced k db'.
Proof.
  intros Hr Hv (r & Hk & Hn). destruct (Hr r Hk) as (r' & Hk' & Hw). exists r'. split; [done|].
  rewrite Hw. intros v' Hv' Hc. destruct (Hv _ _ Hv' Hc) as (v & Hv0 & Hc0). by apply (Hn v).
Qed.

Lemma core_step_displaced k db db' :
  core_step db db' -> core_inv db -> displaced k db -> displaced k db'.
Proof.
  intros Hs Hi Hd. destruct Hs as [a fresh db' id H|a newRun eid1 eid2 now db' old H _
    |a eid now db' old H _|a eid now pending db' pending' o H _|run w site eid now pend db' pend' r H
    |a eid now db' H].
  - apply upsertReview_ok in H as (cur & -> & Hc). revert Hd.
    apply displaced_frame; simpl; [eauto|]. intros w v'. rewrite lookup_insert_Some.
    intros [[<- <-]|[_ Hw]] Hk; [|eauto]. simpl in Hk. subst cur.
    destruct (reviews db !! id) as [v|]; [|by destruct Hc]. exists v. by destruct Hc as [_ <-].
  - apply allocateRun_ok in H as [v He]. destruct Hd as (r & Hr & Hn).
    assert (Hne : k <> newRun) by (intros ->; by rewrite (ae_fresh _ _ _ _ _ _ _ _ _ He) in Hr).
    destruct (after_allocate_some a newRun now old _ _ _ Hr Hne) as (r' & Hr' & Hw').
    exists r'. rewrite (ae_runs _ _ _ _ _ _ _ _ _ He), Hw'. split; [done|].
    intros q. rewrite (ae_reviews _ _ _ _ _ _ _ _ _ He), lookup_insert_Some.
    intros [[_ <-]|[_ Hq]]; [|eauto]. simpl. congruence.
  - apply supersedeRun_ok in H as [i He]. revert Hd. apply displaced_frame.
    + intros r Hr. rewrite (supersede_effect_lookup _ _ _ _ _ _ _ k He), Hr. simpl.
      eexists. split; [done|]. apply superseded_row_facts.
    + rewrite (se_reviews _ _ _ _ _ _ _ He). eauto.
  - apply transitionRun_rows in H as [Hv Ht]. revert Hd. apply displaced_frame; rewrite ?Hv; [|eauto].
    intros r Hr. destruct Ht as [->|(q & to & Hq & _ & _ & _ & ->)]; [eauto|].
    destruct (decide (t_run a = k)) as [<-|Hk].
    + rewrite lookup_insert_eq. eexists. split; [done|]. simpl. congruence.
    + rewrite lookup_insert_ne by done. eauto.
  - apply assertCurrentRun_rows in H as [Hr Hv]. revert Hd. apply displaced_frame; rewrite ?Hr, ?Hv; eauto.
  - apply emit_on_ok in H as ->. revert Hd. apply displaced_frame; simpl; eauto.
Qed.

Lemma displaced_refused k db site eid now pending :
  displaced k db ->
  forall r, runs db !! k = Some r ->
  exists db' pending' e,
    assertCurrentRun true k (run_review r) site eid now db pending = (db', pending', Throw e).
Proof.
  intros (r & Hr & Hn) q Hq. rewrite Hr in Hq. injection Hq as <-. unfold assertCurrentRun. simpl.
  destruct (reviews db !! run_review r) as [v|] eqn:Ev; [|eauto].
  rewrite decide_False by (by apply Hn). destruct (runIdToLockKey k); [rewrite Hr|]; eauto.
Qed.

(** * Properties *)

(** C5: at most one active run per review, however allocations, supersedes,
    transitions and stale-write checks interleave.  Starting from a database
    without reviews, every committed state satisfies [core_inv]; in
    particular two active runs of one review are the same run, and it is the
    one the review's authoritative pointer names. *)
Theorem core_reachable_one_active repos db :
  core_steps (core_empty repos) db ->
  core_inv db /\
  forall k k' r r', runs db !! k = Some r -> runs db !! k' = Some r' ->
    run_review r = run_review r' ->
    active (lifecycle_state r) = true -> active (lifecycle_state r') = true -> k = k'.
Proof.
  intros Hs. assert (Hi : core_inv db) by (eapply core_steps_inv, core_empty_inv; done).
  split; [done|]. intros k k' r r' Hk Hk' Hw Ha Ha'.
  destruct (inv_active _ Hi k r Hk Ha) as (v & Hv & Hc).
  destruct (inv_active _ Hi k' r' Hk' Ha') as (v' & Hv' & Hc').
  rewrite <- Hw, Hv in Hv'. congruence.
Qed.

(** C28: a displaced run is fenced for good.  Once the review's authoritative
    pointer has left run [k] (a newer run was allocated), then after any
    further transactions the stale-write guard still refuses every write of
    [k], at every site. *)
Theorem core_displaced_run_fenced db db' k site eid now pending :
  core_inv db -> displaced k db -> core_steps db db' ->
  exists r db'' pending' e, runs db' !! k = Some r /\
    assertCurrentRun true k (run_review r) site eid now db' pending = (db'', pending', Throw e).
Proof.
  intros Hi Hd Hs. assert (core_inv db' /\ displaced k db') as [_ Hd'].
  { induction Hs as [|db' db'' Hs [Hi' Hd'] Hst]; [done|].
    split; [by eapply core_step_inv|by eapply core_step_displaced]. }
  destruct Hd' as (r & Hr & Hn).
  destruct (displaced_refused k db' site eid now pending (ex_intro _ r (conj Hr Hn)) r Hr)
    as (d & p & e & He).
  by exists r, d, p, e.
Qed.

(** Allocation for a new delivery succeeds and serialises the review.
    For a known review of the caller's tenant and a fresh run id,
    [allocateRun] returns the id of the review's active run, if it had one;
    afterwards the new run is PENDING, is the review's authoritative run and
    its only active one; the displaced run is CANCELLED, stamped, and names its
    successor, which names it back; no other run and no other review changes. *)
Theorem allocateRun_serial_supersede a newRun eid1 eid2 now db v :
  core_inv db -> allocatable a newRun now db -> reviews db !! al_review a = Some v ->
  exists db' old, allocateRun true a newRun eid1 eid2 now db = Ok (db', old) /\
  runs db' !! newRun = Some (new_run a old) /\
  reviews db' = <[al_review a := set_current newRun v]> (reviews db) /\
  (forall k r, runs db' !! k = Some r -> run_review r = al_review a ->
     active (lifecycle_state r) = true -> k = newRun) /\
  (forall k, k <> newRun -> old <> Some k -> runs db' !! k = runs db !! k) /\
  match old with
  | None => active_runs (al_review a) (runs db) = ∅
  | Some o => current_run_id v = Some o /\ exists r, runs db !! o = Some r /\
      active (lifecycle_state r) = true /\
      runs db' !! o = Some (supersede_row "superseded" newRun now r)
  end.
Proof.
  intros Hi Ha Hv. destruct (allocateRun_succeeds a newRun eid1 eid2 now db Hi Ha) as (db' & old & H).
  exists db', old. split; [done|]. apply allocateRun_ok in H as [q He].
  pose proof (ae_review _ _ _ _ _ _ _ _ _ He) as Hq. rewrite Hv in Hq. injection Hq as <-.
  pose proof (ae_runs _ _ _ _ _ _ _ _ _ He) as Hl. pose proof (ae_old _ _ _ _ _ _ _ _ _ He) as Ho.
  destruct (al_first _ _ _ _ Ha) as [Hp _]. rewrite Hp in Ho.
  assert (Hi' : core_inv db') by (eapply core_inv_allocate; eauto).
  assert (Hrow : forall k r, runs db !! k = Some r -> k <> newRun ->
    runs db' !! k = Some (superseded_row (al_review a) "superseded" newRun now (k, r))).
  { intros k r Hk Hne. rewrite Hl. unfold after_allocate. by rewrite decide_False, Hp, Hk. }
  split_and!.
  - by rewrite Hl, after_allocate_new.
  - apply (ae_reviews _ _ _ _ _ _ _ _ _ He).
  - intros k r Hk Hw Hact. destruct (inv_active _ Hi' k r Hk Hact) as (w & Hww & Hc).
    rewrite Hw, (ae_reviews _ _ _ _ _ _ _ _ _ He), lookup_insert_eq in Hww.
    injection Hww as <-. simpl in Hc. congruence.
  - intros k Hne Hno. destruct (runs db !! k) as [r|] eqn:Ek.
    + rewrite (Hrow k r Ek Hne). f_equal. unfold superseded_row. rewrite decide_False; [done|].
      intros [Hw Hact]. simpl in Hw, Hact. destruct (inv_active _ Hi k r Ek Hact) as (w & Hww & Hc).
      rewrite Hw, Hv in Hww. injection Hww as <-.
      rewrite (returning_first_current _ _ _ Hi Hv), Hc, Ek, Hact in Ho. congruence.
    + rewrite Hl. unfold after_allocate. by rewrite decide_False, Hp, Ek.
  - destruct old as [o|]; [|by apply returning_first_none].
    split; [by apply (ae_pointer _ _ _ _ _ _ _ _ _ He)|]. symmetry in Ho.
    apply returning_first_some in Ho as (r & (Hr & Hw & Hact)%lookup_active_runs).
    exists r. split; [done|]. split; [done|].
    rewrite (Hrow o r Hr); [unfold superseded_row; by rewrite decide_True|].
    intros ->. by rewrite (ae_fresh _ _ _ _ _ _ _ _ _ He) in Hr.
Qed.

(** The tenancy and linearizability fences of the pointer flip.  When
    [flipCurrentRun] returns, the review exists, belongs to the expected
    installation, pointed at the expected run when one was named, and now
    points at the new run, with nothing else written; naming another
    installation, or a run that is not current, throws. *)
Theorem flipCurrentRun_fenced w newRun oldExp inst db :
  match flipCurrentRun true w newRun oldExp inst db with
  | Ok (db', old) => exists v, reviews db !! w = Some v /\ old = current_run_id v /\
      (forall e, inst = Some e -> review_installation w db = Some e) /\
      (forall e, oldExp = Some e -> old = Some e) /\
      runs db' = runs db /\ events db' = events db /\ repositories db' = repositories db /\
      reviews db' = <[w := set_current newRun v]> (reviews db)
  | Throw e =>
      (exists i, inst = Some i /\ review_installation w db <> Some i /\
         e = AllocCrossInstallation (review_installation w db)) \/
      (reviews db !! w = None /\ e = ReviewNotFound) \/
      (runs db !! newRun = None /\ e = AllocForeignKeyViolation) \/
      exists v o, reviews db !! w = Some v /\ oldExp = Some o /\ current_run_id v <> Some o /\
        e = CurrentRunMismatch (Some o) (current_run_id v)
  end.
Proof.
  destruct (flipCurrentRun true w newRun oldExp inst db) as [[db' old]|e] eqn:E.
  - apply flipCurrentRun_ok in E as (v & Hv & -> & Hi & Ho & _ & ->). by exists v.
  - unfold flipCurrentRun in E. simpl in E.
    destruct inst as [i|].
    { destruct (bool_decide (review_installation w db = Some i)) eqn:Ei; simpl in E; bool_to_prop;
        [clear Ei|injection E as <-; left; eauto].
      all: destruct (reviews db !! w) as [v|] eqn:Ev; [|injection E as <-; auto].
      all: destruct (bool_decide (is_Some _)) eqn:Er; [|injection E as <-; bool_to_prop;
        right; right; left; split; [by apply eq_None_not_Some|done]].
      all: destruct oldExp as [o|]; [|done]. 
      all: destruct (bool_decide (current_run_id v = Some o)) eqn:Eo; [done|injection E as <-; bool_to_prop].
      all: right; right; right; eauto 10. }
    destruct (reviews db !! w) as [v|] eqn:Ev; [|injection E as <-; auto].
    destruct (bool_decide (is_Some _)) eqn:Er; [|injection E as <-; bool_to_prop;
      right; right; left; split; [by apply eq_None_not_Some|done]].
    destruct oldExp as [o|]; [|done].
    destruct (bool_decide (current_run_id v = Some o)) eqn:Eo; [done|injection E as <-; bool_to_prop].
    right; right; right; eauto 10.
Qed.

(** * Witnesses *)

Definition db_of {A} (d : core_db) (m : result alloc_error (core_db * A)) : core_db :=
  match m with Ok (d', _) => d' | Throw _ => d end.

Definition ex_repos : gmap Z (option string) := {[ 7 := Some "i1" ]}.
Definition ex_upsert : upsert_args := UpsertArgs "github" 7 41 "gh-pr-9" None (Some "feature").
Definition ex_alloc (d : string) : alloc_args :=
  AllocArgs "r1" "i1" "pr_opened" "github" (Some d) None 1.
Definition ex_second_run : string := "0192a1b2-0000-7000-8000-000000000002".
Definition ex_up (db : core_db) := upsertReview ex_upsert "r1" db.
Definition ex_al1 (db : core_db) := allocateRun true (ex_alloc "d1") ex_run_id "e1" "e2" 10 db.
Definition ex_al2 (db : core_db) := allocateRun true (ex_alloc "d2") ex_second_run "e3" "e4" 20 db.
Definition ex_db1 : core_db := Eval vm_compute in db_of (core_empty ex_repos) (ex_up (core_empty ex_repos)).
Definition ex_db2 : core_db := Eval vm_compute in db_of ex_db1 (ex_al1 ex_db1).
Definition ex_db3 : core_db := Eval vm_compute in db_of ex_db2 (ex_al2 ex_db2).

Lemma ex_steps1 : core_steps (core_empty ex_repos) ex_db1.
Proof.
  eapply core_more; [apply core_refl|]. eapply (core_upsert _ ex_upsert "r1"). vm_compute. reflexivity.
Qed.

Lemma ex_steps2 : core_steps (core_empty ex_repos) ex_db2.
Proof.
  eapply core_more; [apply ex_steps1|].
  eapply (core_allocate _ (ex_alloc "d1") ex_run_id "e1" "e2" 10); [vm_compute; reflexivity|by left].
Qed.

Lemma ex_step3 : core_step ex_db2 ex_db3.
Proof.
  eapply (core_allocate _ (ex_alloc "d2") ex_second_run "e3" "e4" 20); [vm_compute; reflexivity|by left].
Qed.

Lemma ex_inv db : core_steps (core_empty ex_repos) db -> core_inv db.
Proof. intros H. eapply core_steps_inv, core_empty_inv; done. Qed.

Lemma core_reachable_one_active_witness :
  core_inv ex_db3 /\ lifecycle_state <$> runs ex_db3 !! ex_run_id = Some CANCELLED.
Proof.
  split; [|vm_compute; reflexivity].
  apply (core_reachable_one_active ex_repos ex_db3).
  exact (core_more _ _ _ ex_steps2 ex_step3).
Defined.

Lemma ex_displaced : displaced ex_run_id ex_db3.
Proof.
  eexists. split; [vm_compute; reflexivity|].
  intros v Hv. vm_compute in Hv. injection Hv as <-. by vm_compute.
Qed.

Lemma core_displaced_run_fenced_witness :
  exists r db'' pending' e, runs ex_db3 !! ex_run_id = Some r /\
    assertCurrentRun true ex_run_id (run_review r) "post_review" "e9" 30 ex_db3 [] =
      (db'', pending', Throw e).
Proof.
  apply (core_displaced_run_fenced ex_db3 ex_db3 ex_run_id "post_review" "e9" 30 []).
  - exact (ex_inv _ (core_more _ _ _ ex_steps2 ex_step3)).
  - exact ex_displaced.
  - apply core_refl.
Defined.

Lemma ex_db2_dom : dom (runs ex_db2) = {[ ex_run_id ]}.
Proof. vm_compute. reflexivity. Qed.

Lemma ex_allocatable : allocatable (ex_alloc "d2") ex_second_run 20 ex_db2.
Proof.
  constructor.
  - by left.
  - done.
  - reflexivity.
  - reflexivity.
  - intros k Hk. assert (k = ex_second_run \/ k = ex_run_id) as [-> | ->].
    { destruct Hk as [->|Hk%elem_of_dom]; [by left|right]. rewrite ex_db2_dom in Hk. set_solver. }
    all: vm_compute; by eexists.
  - intros d f [= <-] Hf [Hd _]. vm_compute in Hf. apply list_elem_of_In in Hf. simpl in Hf.
    destruct Hf as [<-|[]]. done.
Qed.

Lemma allocateRun_serial_supersede_witness :
  exists db' old, ex_al2 ex_db2 = Ok (db', old) /\
    forall k r, runs db' !! k = Some r -> run_review r = "r1" ->
      active (lifecycle_state r) = true -> k = ex_second_run.
Proof.
  destruct (allocateRun_serial_supersede (ex_alloc "d2") ex_second_run "e3" "e4" 20 ex_db2
    (set_current ex_run_id (upserted ex_upsert None)) (ex_inv _ ex_steps2) ex_allocatable
    eq_refl) as (db' & old & H & _ & _ & Ha & _).
  exists db', old. split; [exact H|exact Ha].
Defined.
