(* ===== verification/Outbox.v ===== *)
(** [domain/repos/outbox_repo.ts], [activities/outbox_dispatch.activity.ts],
    [outbox/sink_registry.ts] and [runner/outbox_dispatcher_loop.ts]: the
    transactional outbox [core.outbox], its leased claim, its attempts fence
    and the drain loop.  A dispatch composes [assertCurrentRun] and
    [transitionRun] of [RunLifecycle] before it invokes the sink.  Times are
    milliseconds; the sink's outcome is an input. *)
From stdpp Require Import base gmap sets list strings.
From Stdlib Require Import ZArith Lia Sorting.Sorted Sorting.Permutation.
From S2P Require Import Prelude Json WorkflowEvents RunLifecycle.
Open Scope Z_scope.

(** * [core.outbox] *)

Inductive outbox_state := OPending | ODispatched | ODead.
#[export] Instance outbox_state_eq_dec : EqDecision outbox_state.
Proof. solve_decision. Defined.

Record outbox_row := OutboxRow {
  o_sink : string;
  o_payload : json;
  o_schema : Z;
  o_attempts : Z;
  o_state : outbox_state;
  o_last_error : option string;
  o_last_attempted : option Z;
  o_dispatched_at : option Z;
  o_created_at : Z;
  o_leased_until : option Z;
  o_delivery : option string;
  o_installation : option string;
  o_run : option string;
}.

Abbreviation outbox := (gmap string outbox_row).

Definition OUTBOX_SINK_TEMPORAL_WORKFLOW_START : string := "temporal_workflow_start".
Definition OUTBOX_SINK_INSTALLATION_RECONCILE : string := "installation_reconcile".
Definition OUTBOX_RETRY_BACKOFF_BASE_SECONDS : Z := 2.
Definition OUTBOX_RETRY_BACKOFF_CAP_SECONDS : Z := 300.

Inductive outbox_error :=
| OutboxCheckViolation      (* [ck_outbox_installation_id_required] *)
| OutboxUniqueViolation     (* the primary key *)
| OutboxForeignKeyViolation (* [fk_outbox_run_id] *).

(** ** Producers *)

(** [#insert]: the columns not bound take their DEFAULTs. *)
Definition outbox_insert (id sink : string) (payload : json) (schema : Z)
    (run installation delivery : option string) (now : Z) (known : gset string) (t : outbox)
    : result outbox_error outbox :=
  guard? (String.eqb sink OUTBOX_SINK_INSTALLATION_RECONCILE || bool_decide (is_Some installation))
    else OutboxCheckViolation in
  guard? (bool_decide (t !! id = None)) else OutboxUniqueViolation in
  guard? (match run with Some r => bool_decide (r ∈ known) | None => true end)
    else OutboxForeignKeyViolation in
  Ok (<[id := {| o_sink := sink; o_payload := payload; o_schema := schema; o_attempts := 0;
                 o_state := OPending; o_last_error := None; o_last_attempted := None;
                 o_dispatched_at := None; o_created_at := now; o_leased_until := None;
                 o_delivery := delivery; o_installation := installation; o_run := run |}]> t).

Definition appendReviewDispatch (id run : string) (payload : json) (schema : Z) (installation : string)
    (delivery : option string) : Z -> gset string -> outbox -> result outbox_error outbox :=
  outbox_insert id OUTBOX_SINK_TEMPORAL_WORKFLOW_START payload schema (Some run) (Some installation)
    delivery.

Definition appendNonReviewDispatch (id : string) (payload : json) (schema : Z) (installation : string)
    (delivery : option string) : Z -> gset string -> outbox -> result outbox_error outbox :=
  outbox_insert id OUTBOX_SINK_TEMPORAL_WORKFLOW_START payload schema None (Some installation) delivery.

Definition appendReconcile (id : string) (payload : json) (schema : Z) (delivery : option string)
    : Z -> gset string -> outbox -> result outbox_error outbox :=
  outbox_insert id OUTBOX_SINK_INSTALLATION_RECONCILE payload schema None None delivery.

(** ** The claim *)

(** [state = 'pending' AND (leased_until IS NULL OR leased_until < now)]. *)
Definition o_claimable (now : Z) (r : outbox_row) : bool :=
  bool_decide (o_state r = OPending)
  && match o_leased_until r with None => true | Some u => u <? now end.

Definition o_created_leb (p q : string * outbox_row) : bool := o_created_at p.2 <=? o_created_at q.2.

(** [ORDER BY created_at LIMIT batch FOR UPDATE SKIP LOCKED]; rows of one
    instant may come in any order, the model takes one. *)
Definition claim_batch (batch : nat) (locked : gset string) (now : Z) (t : outbox)
    : list (string * outbox_row) :=
  take batch (sort_by o_created_leb
    (filter (fun p => (p.1 ∉ locked) /\ o_claimable now p.2 = true) (rows t))).

Definition set_lease (until : option Z) (r : outbox_row) : outbox_row :=
  {| o_sink := o_sink r; o_payload := o_payload r; o_schema := o_schema r; o_attempts := o_attempts r;
     o_state := o_state r; o_last_error := o_last_error r; o_last_attempted := o_last_attempted r;
     o_dispatched_at := o_dispatched_at r; o_created_at := o_created_at r; o_leased_until := until;
     o_delivery := o_delivery r; o_installation := o_installation r; o_run := o_run r |}.

(** The projection of the claim: the LEFT JOINs give [review_id], [provider]. *)
Record claimed_row := ClaimedRow {
  c_id : string;
  c_sink : string;
  c_payload : json;
  c_attempts : Z;
  c_run : option string;
  c_review : option string;
  c_provider : option string;
  c_installation : option string;
  c_delivery : option string;
}.

Definition project_row (db : core_db) (p : string * outbox_row) : claimed_row :=
  let run := o_run p.2 in
  let review := r ← run; run_review <$> runs db !! r in
  {| c_id := p.1; c_sink := o_sink p.2; c_payload := o_payload p.2; c_attempts := o_attempts p.2;
     c_run := run; c_review := review;
     c_provider := w ← review; rv_provider <$> reviews db !! w;
     c_installation := o_installation p.2; c_delivery := o_delivery p.2 |}.

Definition claimPending (batch : nat) (lease_ms : Z) (locked : gset string) (now : Z) (db : core_db)
    (t : outbox) : outbox * list claimed_row :=
  let picked := claim_batch batch locked now t in
  (update_where (fun k _ => bool_decide (k ∈ picked.*1)) (set_lease (Some (now + lease_ms))) t,
   project_row db <$> picked).

(** ** The settles *)

(** [WHERE id AND state = 'pending' AND attempts = expected]. *)
Definition o_markDispatched (id : string) (expected now : Z) (t : outbox) : outbox * bool :=
  match t !! id with
  | Some r =>
      if bool_decide (o_state r = OPending) && (o_attempts r =? expected) then
        (<[id := {| o_sink := o_sink r; o_payload := o_payload r; o_schema := o_schema r;
                    o_attempts := o_attempts r; o_state := ODispatched;
                    o_last_error := o_last_error r; o_last_attempted := o_last_attempted r;
                    o_dispatched_at := Some now; o_created_at := o_created_at r;
                    o_leased_until := None; o_delivery := o_delivery r;
                    o_installation := o_installation r; o_run := o_run r |}]> t, true)
      else (t, false)
  | None => (t, false)
  end.

Definition left1024 (s : string) : string := String.substring 0 1024 s.

(** [LEAST(BASE * power(2, attempts), CAP)] seconds, on the attempts before the
    UPDATE. *)
Definition o_backoff_ms (attempts : Z) : Z :=
  1000 * Z.min (OUTBOX_RETRY_BACKOFF_BASE_SECONDS * 2 ^ attempts) OUTBOX_RETRY_BACKOFF_CAP_SECONDS.

Definition exhausts (permanent : bool) (maxAttempts : Z) (r : outbox_row) : bool :=
  permanent || (maxAttempts <=? o_attempts r + 1).

(** The SET list of [markAttemptFailed]. *)
Definition failed_row (error : string) (maxAttempts : Z) (permanent : bool) (now : Z) (r : outbox_row)
    : outbox_row :=
  {| o_sink := o_sink r; o_payload := o_payload r; o_schema := o_schema r;
     o_attempts := o_attempts r + 1;
     o_state := if exhausts permanent maxAttempts r then ODead else o_state r;
     o_last_error := Some (left1024 error); o_last_attempted := Some now;
     o_dispatched_at := o_dispatched_at r; o_created_at := o_created_at r;
     o_leased_until := if exhausts permanent maxAttempts r then None
                       else Some (now + o_backoff_ms (o_attempts r));
     o_delivery := o_delivery r; o_installation := o_installation r; o_run := o_run r |}.

(** [WHERE id AND attempts = expected]: the state is not part of the fence.
    Returns the state and sink of the row it wrote. *)
Definition o_markAttemptFailed (id error : string) (maxAttempts expected : Z) (permanent : bool) (now : Z)
    (t : outbox) : outbox * option (outbox_state * string) :=
  match t !! id with
  | Some r =>
      if o_attempts r =? expected then
        let r' := failed_row error maxAttempts permanent now r in
        (<[id := r']> t, Some (o_state r', o_sink r'))
      else (t, None)
  | None => (t, None)
  end.

Definition o_extendLease (id : string) (lease_ms now : Z) (t : outbox) : outbox :=
  alter (set_lease (Some (now + lease_ms))) id t.

(** ** The operator's dead-letter surface *)

Definition o_markDead (id error : string) (now : Z) (t : outbox) : outbox :=
  alter (fun r => {| o_sink := o_sink r; o_payload := o_payload r; o_schema := o_schema r;
    o_attempts := o_attempts r; o_state := ODead; o_last_error := Some (left1024 error);
    o_last_attempted := Some now; o_dispatched_at := o_dispatched_at r;
    o_created_at := o_created_at r; o_leased_until := None; o_delivery := o_delivery r;
    o_installation := o_installation r; o_run := o_run r |}) id t.

(** [ORDER BY last_attempted_at DESC NULLS LAST LIMIT n]. *)
Definition dead_leb (p q : string * outbox_row) : bool :=
  match o_last_attempted p.2, o_last_attempted q.2 with
  | _, None => true
  | None, Some _ => false
  | Some a, Some b => b <=? a
  end.

Definition o_listDead (limit : nat) (t : outbox) : list (string * outbox_row) :=
  take limit (sort_by dead_leb (filter (fun p => o_state p.2 = ODead) (rows t))).

Definition replayed_row (r : outbox_row) : outbox_row :=
  {| o_sink := o_sink r; o_payload := o_payload r; o_schema := o_schema r; o_attempts := 0;
     o_state := OPending; o_last_error := None; o_last_attempted := o_last_attempted r;
     o_dispatched_at := o_dispatched_at r; o_created_at := o_created_at r; o_leased_until := None;
     o_delivery := o_delivery r; o_installation := o_installation r; o_run := o_run r |}.

Definition o_replayDead (id : string) (t : outbox) : outbox * option (Z * option string) :=
  match t !! id with
  | Some r => if decide (o_state r = ODead)
              then (<[id := replayed_row r]> t, Some (o_attempts r, o_last_error r))
              else (t, None)
  | None => (t, None)
  end.

(** * The dispatch activity *)

(** [DispatchRowInputV1]. *)
Record dispatch_input := DispatchInput {
  d_row : string;
  d_sink : string;
  d_payload : json;
  d_run : option string;
  d_review : option string;
  d_provider : option string;
  d_installation : option string;
  d_orphan : option string;
}.

(** The contract's tagged union: an installation, or the reason there is none. *)
Definition dispatch_input_valid (i : dispatch_input) : bool :=
  match d_installation i, d_orphan i with
  | None, Some r => String.eqb r "bootstrap_sink"
  | Some _, None => true
  | _, _ => false
  end.

(** How the drain loop builds it. *)
Definition dispatch_input_of (c : claimed_row) : dispatch_input :=
  {| d_row := c_id c; d_sink := c_sink c; d_payload := c_payload c; d_run := c_run c;
     d_review := c_review c; d_provider := c_provider c; d_installation := c_installation c;
     d_orphan := match c_installation c with None => Some "bootstrap_sink" | Some _ => None end |}.

(** The classes of a failed dispatch, as far as the loop tells them apart. *)
Inductive dispatch_error :=
| PermanentSinkError (msg : string)
| UnknownSinkError (sink : string)
| RetryableSinkError (msg : string)
| DispatchTimeoutError (msg : string)
| DispatchParseError
| DispatchRunError (e : run_error).

(** What the handler does: it accepts the payload or throws. *)
Definition sink_outcome := result dispatch_error unit.

Definition dispatch_site : string := "outbox_dispatcher.dispatch_row".

Definition dispatch_transition (run : string) : transition_args :=
  TransitionArgs run "PENDING" "RUNNING" dispatch_site 1 None None None None.

Definition ingested_payload (i : dispatch_input) : list (string * json) :=
  [("outbox_id", JStr (d_row i)); ("sink", JStr (d_sink i))]
  ++ match d_orphan i with Some r => [("orphan_reason", JStr r)] | None => [] end.

Definition ingested_event (i : dispatch_input) (run review : string) : emit_args :=
  EmitArgs (default "github" (d_provider i)) run review "INGESTED" (Some (ingested_payload i)) None
    (d_installation i).

(** [#guardTransitionAndIngest]: one transaction.  Its savepoint is released,
    not rolled back to, on a [StaleWriteError], but the re-raise leaves the
    transaction: whatever the guard wrote goes with it.  On success the queued
    counters are fired. *)
Definition guardTransitionAndIngest (i : dispatch_input) (run review eid1 eid2 eid3 : string) (now : Z)
    (db : core_db) : result dispatch_error (core_db * list metric) :=
  match assertCurrentRun true run review dispatch_site eid1 now db [] with
  | (_, _, Throw e) => Throw (DispatchRunError e)
  | (db1, p1, Ok _) =>
      match transitionRun true (dispatch_transition run) eid2 now db1 p1 with
      | Throw e => Throw (DispatchRunError e)
      | Ok (db2, p2, ALREADY_APPLIED) => Ok (db2, p2)
      | Ok (db2, p2, APPLIED) =>
          let a := ingested_event i run review in
          match emitWorkflowEvent true (bool_decide (is_Some (runs db2 !! run)) &&
                  bool_decide (is_Some (reviews db2 !! review))) a eid3 now (events db2) with
          | Throw e => Throw (DispatchRunError (EventError e))
          | Ok (l, _) => Ok (CoreDb (runs db2) (reviews db2) (repositories db2) l, p2)
          end
      end
  end.

(** How the call of [markDispatched] ends: it returns, or the connection fails
    before or after the UPDATE took effect. *)
Inductive mark_outcome := MarkReturns | MarkLost (msg : string) | MarkUnacknowledged (msg : string).

(** What the environment decides about one dispatch: the clock at its
    transaction and at its settle, the event ids, the heartbeat's ticks that
    came before the handler finished, and the outcomes of handler and mark. *)
Record dispatch_env := DispatchEnv {
  v_now : Z;
  v_settle : Z;
  v_eid1 : string;
  v_eid2 : string;
  v_eid3 : string;
  v_beats : list Z;
  v_sink : sink_outcome;
  v_mark : mark_outcome;
}.

Definition HEARTBEAT_LEASE_SECONDS : Z := 10.
Definition HEARTBEAT_MAX_TOTAL_SECONDS : Z := 60.

(** [#startLeaseHeartbeat]: extend at each tick, stop at the cap. *)
Fixpoint heartbeat (id : string) (start : Z) (beats : list Z) (t : outbox) : outbox :=
  match beats with
  | [] => t
  | b :: beats' =>
      if start + 1000 * HEARTBEAT_MAX_TOTAL_SECONDS <=? b then t
      else heartbeat id start beats' (o_extendLease id (1000 * HEARTBEAT_LEASE_SECONDS) b t)
  end.

(** Tables, tenants' rows, counters fired, and the sinks' log: the ids of the
    rows that a handler was called with, and of those it accepted. *)
Record outbox_world := OutboxWorld {
  w_outbox : outbox;
  w_core : core_db;
  w_metrics : list metric;
  w_invoked : list string;
  w_accepted : list string;
}.

Definition dispatchRow (sinks : gset string) (i : dispatch_input) (v : dispatch_env) (w : outbox_world)
    : outbox_world * result dispatch_error unit :=
  if negb (dispatch_input_valid i) then (w, Throw DispatchParseError)
  else if negb (bool_decide (d_sink i ∈ sinks)) then (w, Throw (UnknownSinkError (d_sink i)))
  else
    match (match d_run i, d_review i with
           | Some run, Some review =>
               guardTransitionAndIngest i run review (v_eid1 v) (v_eid2 v) (v_eid3 v) (v_now v) (w_core w)
           | _, _ => Ok (w_core w, [])
           end) with
    | Throw e => (w, Throw e)
    | Ok (db', fired) =>
        (OutboxWorld (heartbeat (d_row i) (v_now v) (v_beats v) (w_outbox w)) db'
           (w_metrics w ++ fired) (w_invoked w ++ [d_row i])
           (w_accepted w ++ match v_sink v with Ok _ => [d_row i] | Throw _ => [] end),
         v_sink v)
    end.

(** * The drain loop *)

Definition permanent_error (e : dispatch_error) : bool :=
  match e with PermanentSinkError _ | UnknownSinkError _ => true | _ => false end.

(** The [message] of an error; those of the lifecycle errors are opaque here. *)
Definition dispatch_message (e : dispatch_error) : string :=
  match e with
  | PermanentSinkError m | RetryableSinkError m | DispatchTimeoutError m => m
  | UnknownSinkError s => s
  | DispatchParseError => "invalid dispatch input"
  | DispatchRunError _ => "lifecycle error"
  end.

Definition last_error_of (e : dispatch_error) : string :=
  match e with
  | PermanentSinkError m => left1024 ("PermanentSinkError: " +:+ m)
  | UnknownSinkError s => left1024 ("UnknownSinkError: " +:+ s)
  | _ => left1024 (dispatch_message e)
  end.

(** The body of the [try] after a dispatch that returned: [markDispatched],
    whose own failure lands in the same [catch]. *)
Definition settle_dispatched (c : claimed_row) (v : dispatch_env) (t : outbox)
    : outbox * result dispatch_error unit :=
  match v_mark v with
  | MarkReturns => ((o_markDispatched (c_id c) (c_attempts c) (v_settle v) t).1, Ok tt)
  | MarkLost m => (t, Throw (RetryableSinkError m))
  | MarkUnacknowledged m =>
      ((o_markDispatched (c_id c) (c_attempts c) (v_settle v) t).1, Throw (RetryableSinkError m))
  end.

(** The [catch]: both settles carry the claim-time attempts. *)
Definition settle_failed (maxAttempts : Z) (c : claimed_row) (v : dispatch_env) (e : dispatch_error)
    (t : outbox) : outbox :=
  (o_markAttemptFailed (c_id c) (last_error_of e) maxAttempts (c_attempts c) (permanent_error e)
     (v_settle v) t).1.

(** One iteration of the [for] of [drainOnce]. *)
Definition drain_row (sinks : gset string) (maxAttempts : Z) (v : dispatch_env) (c : claimed_row)
    (w : outbox_world) : outbox_world :=
  let '(w1, res) := dispatchRow sinks (dispatch_input_of c) v w in
  let t' := match res with
            | Throw e => settle_failed maxAttempts c v e (w_outbox w1)
            | Ok _ => match settle_dispatched c v (w_outbox w1) with
                      | (t, Ok _) => t
                      | (t, Throw e) => settle_failed maxAttempts c v e t
                      end
            end in
  OutboxWorld t' (w_core w1) (w_metrics w1) (w_invoked w1) (w_accepted w1).

Definition drain_rows (sinks : gset string) (maxAttempts : Z) (env : string -> dispatch_env)
    (cs : list claimed_row) (w : outbox_world) : outbox_world :=
  fold_left (fun w c => drain_row sinks maxAttempts (env (c_id c)) c w) cs w.

Definition DEFAULT_OUTBOX_BATCH_SIZE : nat := 100.
Definition DEFAULT_OUTBOX_LEASE_SECONDS : Z := 10.

(** [drainOnce]: the number of rows claimed; in shadow mode nothing at all. *)
Definition drainOnce (shadow : bool) (sinks : gset string) (maxAttempts : Z) (batch : nat) (lease_s : Z)
    (locked : gset string) (now : Z) (env : string -> dispatch_env) (w : outbox_world)
    : outbox_world * nat :=
  if shadow then (w, 0%nat)
  else
    let '(t', cs) := claimPending batch (1000 * lease_s) locked now (w_core w) (w_outbox w) in
    (drain_rows sinks maxAttempts env cs
       (OutboxWorld t' (w_core w) (w_metrics w) (w_invoked w) (w_accepted w)), length cs).

(** * What one pass makes of a claimed row *)

Definition dispatched_row (now : Z) (r : outbox_row) : outbox_row :=
  {| o_sink := o_sink r; o_payload := o_payload r; o_schema := o_schema r; o_attempts := o_attempts r;
     o_state := ODispatched; o_last_error := o_last_error r; o_last_attempted := o_last_attempted r;
     o_dispatched_at := Some now; o_created_at := o_created_at r; o_leased_until := None;
     o_delivery := o_delivery r; o_installation := o_installation r; o_run := o_run r |}.

Definition settled_row (maxAttempts : Z) (v : dispatch_env) (res : result dispatch_error unit)
    (r : outbox_row) : outbox_row :=
  let failed e := failed_row (last_error_of e) maxAttempts (permanent_error e) (v_settle v) in
  match res with
  | Throw e => failed e r
  | Ok _ => match v_mark v with
            | MarkReturns => dispatched_row (v_settle v) r
            | MarkLost m => failed (RetryableSinkError m) r
            | MarkUnacknowledged m => failed (RetryableSinkError m) (dispatched_row (v_settle v) r)
            end
  end.

(** ** Lemmas on single statements *)

Lemma o_markDispatched_hit id now r t :
  t !! id = Some r -> o_state r = OPending ->
  o_markDispatched id (o_attempts r) now t = (<[id := dispatched_row now r]> t, true).
Proof.
  intros Hr Hs. unfold o_markDispatched. by rewrite Hr, bool_decide_eq_true_2, Z.eqb_refl.
Qed.

Lemma o_markDispatched_lookup_ne id e now t k :
  k <> id -> (o_markDispatched id e now t).1 !! k = t !! k.
Proof.
  intros Hk. unfold o_markDispatched. destruct (t !! id); [|done].
  destruct (_ && _)%bool; [|done]. simpl. by rewrite lookup_insert_ne.
Qed.

Lemma o_markAttemptFailed_lookup_ne id err m e p now t k :
  k <> id -> (o_markAttemptFailed id err m e p now t).1 !! k = t !! k.
Proof.
  intros Hk. unfold o_markAttemptFailed. destruct (t !! id); [|done].
  destruct (_ =? _); [|done]. simpl. by rewrite lookup_insert_ne.
Qed.

Lemma o_markAttemptFailed_hit id err m p now r t :
  t !! id = Some r ->
  (o_markAttemptFailed id err m (o_attempts r) p now t).1 = <[id := failed_row err m p now r]> t.
Proof. intros Hr. unfold o_markAttemptFailed. by rewrite Hr, Z.eqb_refl. Qed.

Lemma heartbeat_lookup_ne id start beats t k :
  k <> id -> heartbeat id start beats t !! k = t !! k.
Proof.
  intros Hk. revert t. induction beats as [|b bs IH]; intros t; simpl; [done|].
  destruct (_ <=? _); [done|]. rewrite IH. unfold o_extendLease. by rewrite lookup_alter_ne.
Qed.

(** A heartbeat touches nothing but the lease. *)
Lemma heartbeat_lookup id start beats t r :
  t !! id = Some r ->
  exists u, heartbeat id start beats t !! id = Some (set_lease u r).
Proof.
  revert t r. induction beats as [|b bs IH]; intros t r Hr; simpl.
  - exists (o_leased_until r). rewrite Hr. by destruct r.
  - destruct (_ <=? _); [exists (o_leased_until r); rewrite Hr; by destruct r|].
    destruct (IH (o_extendLease id (1000 * HEARTBEAT_LEASE_SECONDS) b t)
      (set_lease (Some (b + 1000 * HEARTBEAT_LEASE_SECONDS)) r)) as [u Hu].
    { unfold o_extendLease. rewrite lookup_alter_eq, Hr. done. }
    exists u. rewrite Hu. by destruct r.
Qed.

Lemma settled_row_lease m v res u r : settled_row m v res (set_lease u r) = settled_row m v res r.
Proof.
  unfold settled_row. destruct res as [a|e]; [destruct (v_mark v)|]; try done;
    unfold failed_row, exhausts; simpl; by destruct (_ || _)%bool.
Qed.

(** A dispatch touches no row but its own, and of that only the lease. *)
Lemma dispatchRow_outbox sinks i v w w1 res :
  dispatchRow sinks i v w = (w1, res) ->
  (forall k, k <> d_row i -> w_outbox w1 !! k = w_outbox w !! k) /\
  (forall r, w_outbox w !! d_row i = Some r ->
     exists u, w_outbox w1 !! d_row i = Some (set_lease u r)).
Proof.
  assert (Hsame : (forall k, k <> d_row i -> w_outbox w !! k = w_outbox w !! k) /\
    (forall r, w_outbox w !! d_row i = Some r -> exists u, w_outbox w !! d_row i = Some (set_lease u r))).
  { split; [done|]. intros r Hr. exists (o_leased_until r). rewrite Hr. by destruct r. }
  unfold dispatchRow. destruct (negb _); [by intros [= <- _]|].
  destruct (negb _); [by intros [= <- _]|].
  destruct (match d_run i with Some _ => _ | None => _ end) as [[db' fired]|e];
    intros [= <- _]; [|done]. simpl. split.
  - intros k Hk. by apply heartbeat_lookup_ne.
  - intros r Hr. by apply heartbeat_lookup.
Qed.

(** The turn of a claimed row. *)
Lemma drain_row_settles sinks m v c w r :
  w_outbox w !! c_id c = Some r -> o_state r = OPending -> c_attempts c = o_attempts r ->
  w_outbox (drain_row sinks m v c w) =
    <[c_id c := settled_row m v (dispatchRow sinks (dispatch_input_of c) v w).2 r]>
      (w_outbox (dispatchRow sinks (dispatch_input_of c) v w).1).
Proof.
  intros Hr Hs Ha. unfold drain_row.
  destruct (dispatchRow _ _ _ _) as [w1 res] eqn:Ed. simpl.
  apply dispatchRow_outbox in Ed as [_ Hrow]. simpl in Hrow. destruct (Hrow r Hr) as [u Hu].
  rewrite <- (settled_row_lease m v res u r).
  replace (o_attempts r) with (o_attempts (set_lease u r)) in Ha by done.
  unfold settle_failed, settle_dispatched, settled_row. rewrite Ha.
  destruct res as [a|e]; [destruct (v_mark v) as [|msg|msg]|].
  - by rewrite (o_markDispatched_hit _ _ (set_lease u r)).
  - by rewrite (o_markAttemptFailed_hit _ _ _ _ _ (set_lease u r)).
  - rewrite (o_markDispatched_hit _ _ (set_lease u r)) by done. simpl.
    rewrite (o_markAttemptFailed_hit _ _ _ _ _ (dispatched_row (v_settle v) (set_lease u r)))
      by apply lookup_insert_eq.
    by rewrite insert_insert_eq.
  - by rewrite (o_markAttemptFailed_hit _ _ _ _ _ (set_lease u r)).
Qed.

Lemma drain_row_other sinks m v c w k :
  k <> c_id c -> w_outbox (drain_row sinks m v c w) !! k = w_outbox w !! k.
Proof.
  intros Hk. unfold drain_row. destruct (dispatchRow _ _ _ _) as [w1 res] eqn:Ed. simpl.
  apply dispatchRow_outbox in Ed as [Hother _]. rewrite <- (Hother k) by done.
  unfold settle_failed, settle_dispatched. destruct res as [a|e]; [destruct (v_mark v)|]; simpl;
    by rewrite ?o_markAttemptFailed_lookup_ne, ?o_markDispatched_lookup_ne.
Qed.

(** ** The claimed batch *)

Lemma elem_of_claim_batch batch locked now t k r :
  (k, r) ∈ claim_batch batch locked now t ->
  t !! k = Some r /\ (k ∉ locked) /\ o_claimable now r = true.
Proof.
  unfold claim_batch. intros (i & Hin & _)%elem_of_take.
  apply list_elem_of_lookup_2, elem_of_sort_by, list_elem_of_filter in Hin as [[Hl Hc] Hin].
  by apply elem_of_rows in Hin.
Qed.

Lemma claim_batch_NoDup batch locked now t : NoDup (claim_batch batch locked now t).*1.
Proof.
  apply (NoDup_fmap_fst (claim_batch batch locked now t)).
  - intros k r r' [Hr _]%elem_of_claim_batch [Hr' _]%elem_of_claim_batch. congruence.
  - eapply sublist_NoDup; [|apply sublist_take].
    rewrite sort_by_perm. apply NoDup_filter, NoDup_map_to_list.
Qed.

Lemma o_claimable_true now r :
  o_claimable now r = true ->
  o_state r = OPending /\ match o_leased_until r with None => True | Some u => u < now end.
Proof.
  unfold o_claimable. intros [Hs Hl]%andb_true_iff. bool_to_prop. split; [done|].
  destruct (o_leased_until r); [by apply Z.ltb_lt|done].
Qed.

(** The rows after the claim: leased if picked. *)
Lemma claimPending_lookup batch lease locked now db t k :
  (claimPending batch lease locked now db t).1 !! k =
  (fun r => if bool_decide (k ∈ (claim_batch batch locked now t).*1)
            then set_lease (Some (now + lease)) r else r) <$> t !! k.
Proof. unfold claimPending. simpl. by rewrite lookup_update_where. Qed.

Definition c_ids (cs : list claimed_row) : list string := c_id <$> cs.

Lemma claimPending_ids batch lease locked now db t :
  c_ids (claimPending batch lease locked now db t).2 = (claim_batch batch locked now t).*1.
Proof. unfold claimPending, c_ids. simpl. by rewrite <- list_fmap_compose. Qed.

Lemma drain_rows_other sinks m env cs w k :
  k ∉ c_ids cs -> w_outbox (drain_rows sinks m env cs w) !! k = w_outbox w !! k.
Proof.
  revert w. induction cs as [|c cs IH]; intros w; [done|]. unfold c_ids. simpl.
  intros [Hk Hks]%not_elem_of_cons.
  change (drain_rows sinks m env (c :: cs) w)
    with (drain_rows sinks m env cs (drain_row sinks m (env (c_id c)) c w)).
  rewrite IH by done. by apply drain_row_other.
Qed.

(** Whatever happened to the rows before it, a row's turn settles it, and
    nothing later in the pass touches it. *)
Lemma drain_rows_settles sinks m env pre c post w r :
  NoDup (c_ids (pre ++ c :: post)) ->
  w_outbox w !! c_id c = Some r -> o_state r = OPending -> c_attempts c = o_attempts r ->
  w_outbox (drain_rows sinks m env (pre ++ c :: post) w) !! c_id c =
    Some (settled_row m (env (c_id c))
            (dispatchRow sinks (dispatch_input_of c) (env (c_id c)) (drain_rows sinks m env pre w)).2 r).
Proof.
  unfold c_ids. rewrite fmap_app, fmap_cons. intros (_ & Hpre & Hpost)%NoDup_app Hr Hs Ha.
  apply NoDup_cons in Hpost as [Hpost _].
  assert (Hnp : c_id c ∉ c_ids pre) by (intros Hin; by apply (Hpre _ Hin); left).
  unfold drain_rows. rewrite fold_left_app. simpl.
  fold (drain_rows sinks m env pre w). set (w1 := drain_rows sinks m env pre w).
  fold (drain_rows sinks m env post (drain_row sinks m (env (c_id c)) c w1)).
  rewrite drain_rows_other by done.
  rewrite (drain_row_settles _ _ _ _ _ r); [apply lookup_insert_eq| |done|done].
  unfold w1. by rewrite drain_rows_other.
Qed.

(** * The table under any number of drainers and operators *)

(** [snaps] are the (row, attempts) pairs some drainer has claimed, [accepted]
    the rows whose sink has accepted them at least once, both ghosts.  A
    drainer settles under a snapshot it holds, and marks a row dispatched only
    after its sink returned; timeouts, zombies and expired leases only delay
    these steps, so each may come at any time. *)
Record outbox_sys := OutboxSys {
  ob_table : outbox;
  ob_snaps : gset (string * Z);
  ob_accepted : gset string;
}.

Inductive outbox_step (m : Z) (s : outbox_sys) : outbox_sys -> Prop :=
| ob_append id sink payload schema run inst delivery now known t' :
    outbox_insert id sink payload schema run inst delivery now known (ob_table s) = Ok t' ->
    outbox_step m s (OutboxSys t' (ob_snaps s) (ob_accepted s))
| ob_claim batch lease locked now db :
    let '(t', cs) := claimPending batch lease locked now db (ob_table s) in
    outbox_step m s (OutboxSys t' (ob_snaps s ∪ list_to_set ((fun c => (c_id c, c_attempts c)) <$> cs))
                       (ob_accepted s))
| ob_accept id e :
    (id, e) ∈ ob_snaps s ->
    outbox_step m s (OutboxSys (ob_table s) (ob_snaps s) ({[id]} ∪ ob_accepted s))
| ob_dispatched id e now :
    (id, e) ∈ ob_snaps s -> id ∈ ob_accepted s ->
    outbox_step m s (OutboxSys (o_markDispatched id e now (ob_table s)).1 (ob_snaps s) (ob_accepted s))
| ob_failed id e err permanent now :
    (id, e) ∈ ob_snaps s ->
    outbox_step m s (OutboxSys (o_markAttemptFailed id err m e permanent now (ob_table s)).1
                       (ob_snaps s) (ob_accepted s))
| ob_extend id lease now :
    outbox_step m s (OutboxSys (o_extendLease id lease now (ob_table s)) (ob_snaps s) (ob_accepted s))
| ob_mark_dead id err now :
    outbox_step m s (OutboxSys (o_markDead id err now (ob_table s)) (ob_snaps s) (ob_accepted s))
| ob_replay id :
    outbox_step m s (OutboxSys (o_replayDead id (ob_table s)).1 (ob_snaps s) (ob_accepted s)).

Inductive outbox_reachable (m : Z) : outbox_sys -> Prop :=
| ob_init : outbox_reachable m (OutboxSys ∅ ∅ ∅)
| ob_next s s' : outbox_reachable m s -> outbox_step m s s' -> outbox_reachable m s'.

(** What holds of every row: attempts are counted and bounded, a pending row
    has one left, a dispatched row was accepted and stamped, a dead row says
    why, and a row without an installation is a reconcile. *)
Definition row_ok (m : Z) (accepted : gset string) (id : string) (r : outbox_row) : Prop :=
  0 <= o_attempts r /\
  (o_sink r = OUTBOX_SINK_INSTALLATION_RECONCILE \/ is_Some (o_installation r)) /\
  match o_state r with
  | OPending => o_attempts r < m
  | ODispatched => id ∈ accepted /\ is_Some (o_dispatched_at r)
  | ODead => is_Some (o_last_error r) /\ is_Some (o_last_attempted r)
  end.

Definition table_ok (m : Z) (s : outbox_sys) : Prop :=
  forall id r, ob_table s !! id = Some r -> row_ok m (ob_accepted s) id r.

Lemma row_ok_lease m acc id u r : row_ok m acc id r -> row_ok m acc id (set_lease u r).
Proof. done. Qed.

Lemma row_ok_accept m acc x id r : row_ok m acc id r -> row_ok m ({[x]} ∪ acc) id r.
Proof. unfold row_ok. intros (? & ? & H). split_and!; [done..|]. destruct (o_state r); set_solver. Qed.

Lemma row_ok_failed m acc id err p now r :
  row_ok m acc id r -> row_ok m acc id (failed_row err m p now r).
Proof.
  unfold row_ok, failed_row. simpl. intros (Ha & Hi & Hs). split; [lia|]. split; [done|].
  destruct (exhausts p m r) eqn:E; [by split; eexists|].
  apply orb_false_iff in E as [_ E]. apply Z.leb_gt in E. by destruct (o_state r).
Qed.

Lemma outbox_step_ok m s s' : 1 <= m -> outbox_step m s s' -> table_ok m s -> table_ok m s'.
Proof.
  intros Hm Hst Hok.
  destruct Hst as [id sink payload schema run inst delivery now known t' H|batch lease locked now db
    |id e Hin|id e now Hin Hacc|id e err permanent now Hin|id lease now|id err now|id];
    intros k r; simpl.
  - unfold outbox_insert in H. destruct (_ || _)%bool eqn:Es; [|done].
    destruct (bool_decide (ob_table s !! id = None)); [|done].
    destruct (match run with Some _ => _ | None => _ end); [|done].
    injection H as <-. rewrite lookup_insert_Some. intros [[<- <-]|[_ Hk]]; [|by apply Hok].
    unfold row_ok. simpl. split; [done|]. split; [|lia].
    apply orb_true_iff in Es as [Es|Es]; bool_to_prop; auto.
  - rewrite lookup_update_where. intros (q & Hq & ->)%fmap_Some.
    destruct (bool_decide _); [apply row_ok_lease|]; by apply Hok.
  - intros Hk. by apply row_ok_accept, Hok.
  - unfold o_markDispatched. destruct (ob_table s !! id) as [q|] eqn:Eq; [|by apply Hok].
    destruct (_ && _)%bool; [|by apply Hok]. simpl. rewrite lookup_insert_Some.
    intros [[<- <-]|[_ Hk]]; [|by apply Hok].
    destruct (Hok _ _ Eq) as (Ha & Hi & _). split_and!; [done..|by eexists].
  - unfold o_markAttemptFailed. destruct (ob_table s !! id) as [q|] eqn:Eq; [|by apply Hok].
    destruct (_ =? _); [|by apply Hok]. simpl. rewrite lookup_insert_Some.
    intros [[<- <-]|[_ Hk]]; [|by apply Hok]. by apply row_ok_failed, Hok.
  - unfold o_extendLease. rewrite lookup_alter_Some.
    intros [(<- & q & Hq & ->)|[_ Hk]]; [apply row_ok_lease|]; by apply Hok.
  - unfold o_markDead. rewrite lookup_alter_Some.
    intros [(<- & q & Hq & ->)|[_ Hk]]; [|by apply Hok].
    destruct (Hok _ _ Hq) as (Ha & Hi & _). split; [done|]. split; [done|]. split; by eexists.
  - unfold o_replayDead. destruct (ob_table s !! id) as [q|] eqn:Eq; [|by apply Hok].
    case_decide; [|by apply Hok]. simpl. rewrite lookup_insert_Some.
    intros [[<- <-]|[_ Hk]]; [|by apply Hok].
    destruct (Hok _ _ Eq) as (_ & Hi & _). split; [done|]. split; [done|]. simpl. lia.
Qed.

(** ** The lifecycle part of a dispatch *)

(** What [guardTransitionAndIngest] establishes when it returns. *)
Lemma guardTransition_ok i run review e1 e2 e3 now db db' fired :
  guardTransitionAndIngest i run review e1 e2 e3 now db = Ok (db', fired) ->
  (exists v, reviews db !! review = Some v /\ current_run_id v = Some run) /\
  reviews db' = reviews db /\
  (exists r, runs db' !! run = Some r /\ lifecycle_state r = RUNNING) /\
  (forall k, k <> run -> runs db' !! k = runs db !! k) /\
  (db' = db \/ exists r x, runs db !! run = Some r /\ lifecycle_state r = PENDING /\
     events db' = events db ++ [x; event_row (ingested_event i run review) e3 now
                                    (next_seq run (events db ++ [x]))] /\
     event_type x = "lifecycle_transition").
Proof.
  unfold guardTransitionAndIngest. intros H.
  destruct (assertCurrentRun _ _ _ _ _ _ _ _) as [[db1 p1] [u|e]] eqn:Eg; [|done].
  unfold assertCurrentRun in Eg. simpl in Eg.
  destruct (reviews db !! review) as [v|] eqn:Ev; [|done].
  case_decide as Hcur; [|destruct (runIdToLockKey run); [destruct (runs db !! run)|]; done].
  injection Eg as <- <- <-.
  destruct (transitionRun _ _ _ _ _ _) as [[[db2 p2] o]|e] eqn:Et; [|done].
  unfold transitionRun in Et. apply rbind_ok in Et as ([from to] & Hv & Et).
  injection Hv as <- <-. destruct (select_run _ _) as [[[r rv] [inst|]]|] eqn:Es; try discriminate.
  apply select_run_some in Es as (Er & _). simpl in Et, Er. split; [eauto|].
  case_decide as Hrun.
  { injection Et as <- <- <-. injection H as <- <-. split_and!; eauto. }
  destruct (bool_decide _) eqn:Ef; [|done]. apply bool_decide_eq_true in Ef.
  unfold update_run in Et. rewrite Er in Et. destruct (run_checks _); [|done].
  apply rbind_ok in Et as ([l' id'] & Hem & Et). injection Et as <- <- <-. simpl in *.
  destruct (emitWorkflowEvent true true _ _ _ _) as [[l i']|] eqn:Eem; [|done]. injection Hem as <- <-.
  destruct (emit_needs_key _ _ _ _ _ _ _ Eem) as [k Hk].
  rewrite (transition_event_emits _ _ _ _ _ _ _ k Hk) in Eem. injection Eem as <- <-.
  destruct (emitWorkflowEvent true _ (ingested_event i run review) _ _ _) as [[l2 i2]|] eqn:Ei; [|done].
  injection H as <- <-. unfold emitWorkflowEvent in Ei. apply rbind_ok in Ei as ([] & _ & Ei).
  destruct (runIdToLockKey _); [|done]. destruct (negb _); [|done]. destruct (_ && _)%bool; [|done].
  injection Ei as <- _. simpl. split; [done|]. split; [rewrite lookup_insert_eq; by eexists|].
  split; [intros j Hj; by rewrite lookup_insert_ne|]. right.
  eexists r, _. split; [done|]. split; [done|]. split; [by rewrite <- app_assoc|done].
Qed.

(** * Properties *)

(** One pass of the drain loop settles exactly what it claimed.  The
    pass counts the rows it claims; every claimed row was pending, unleased and
    not locked, and ends, whatever happened to the rows before it, as the
    outcome of its own dispatch says: dispatched when the sink accepted it,
    dead at once for a permanent error, otherwise one attempt further with the
    backoff lease, or dead at the threshold; no other row is touched.  In
    shadow mode nothing is. *)
Theorem drainOnce_settles sinks m batch lease locked now env w :
  drainOnce true sinks m batch lease locked now env w = (w, 0%nat) /\
  let '(t1, cs) := claimPending batch (1000 * lease) locked now (w_core w) (w_outbox w) in
  let w1 := OutboxWorld t1 (w_core w) (w_metrics w) (w_invoked w) (w_accepted w) in
  let '(w', n) := drainOnce false sinks m batch lease locked now env w in
  n = length cs /\
  (forall k, k ∉ c_ids cs -> w_outbox w' !! k = w_outbox w !! k) /\
  forall pre c post, cs = pre ++ c :: post ->
    exists r, w_outbox w !! c_id c = Some r /\ o_claimable now r = true /\ (c_id c ∉ locked) /\
      w_outbox w' !! c_id c =
        Some (settled_row m (env (c_id c))
               (dispatchRow sinks (dispatch_input_of c) (env (c_id c))
                  (drain_rows sinks m env pre w1)).2 r).
Proof.
  split; [done|]. unfold drainOnce.
  destruct (claimPending _ _ _ _ _ _) as [t1 cs] eqn:Ec. split; [done|].
  pose proof (claimPending_ids batch (1000 * lease) locked now (w_core w) (w_outbox w)) as Hids.
  pose proof (claimPending_lookup batch (1000 * lease) locked now (w_core w) (w_outbox w)) as Hl.
  rewrite Ec in Hids, Hl. simpl in Hids, Hl. split.
  - intros k Hk. rewrite drain_rows_other by done. simpl. rewrite Hl, <- Hids.
    rewrite bool_decide_eq_false_2 by done. by destruct (w_outbox w !! k).
  - intros pre c post ->.
    assert (Hc : c ∈ pre ++ c :: post) by set_solver.
    replace (pre ++ c :: post) with
      (claimPending batch (1000 * lease) locked now (w_core w) (w_outbox w)).2 in Hc by (by rewrite Ec).
    unfold claimPending in Hc. simpl in Hc. apply list_elem_of_fmap in Hc as ([k r] & -> & Hin).
    pose proof Hin as (Hk & Hlk & Hcl)%elem_of_claim_batch. simpl. exists r. split_and!; [done..|].
    rewrite <- (settled_row_lease m _ _ (Some (now + 1000 * lease))).
    rewrite (drain_rows_settles _ _ _ pre (project_row (w_core w) (k, r)) post _
      (set_lease (Some (now + 1000 * lease)) r)); [done| | |by apply o_claimable_true in Hcl as [? _]|done].
    + rewrite Hids. apply claim_batch_NoDup.
    + simpl. rewrite Hl, Hk. simpl. rewrite bool_decide_eq_true_2; [done|].
      apply list_elem_of_fmap. by exists (k, r).
Qed.


(** Only the authoritative run reaches its sink.  For a row with a run
    and a review, either the sink is not invoked, the error is a retryable one
    (or the sink is unknown) and nothing at all is written, not even the guard's
    forensic event; or the run is its review's current one, is RUNNING
    afterwards, and the handler is invoked once, with the [INGESTED] milestone
    written exactly when this dispatch started the run.  Other runs and the
    reviews are never touched. *)
Theorem dispatchRow_guarded sinks i v w w' res run review :
  dispatch_input_valid i = true -> d_run i = Some run -> d_review i = Some review ->
  dispatchRow sinks i v w = (w', res) ->
  (exists e, w' = w /\ res = Throw e /\ (permanent_error e = true -> d_sink i ∉ sinks)) \/
  (d_sink i ∈ sinks /\ res = v_sink v /\ w_invoked w' = w_invoked w ++ [d_row i] /\
   (exists q, reviews (w_core w) !! review = Some q /\ current_run_id q = Some run) /\
   reviews (w_core w') = reviews (w_core w) /\
   (exists r, runs (w_core w') !! run = Some r /\ lifecycle_state r = RUNNING) /\
   (forall k, k <> run -> runs (w_core w') !! k = runs (w_core w) !! k) /\
   (w_core w' = w_core w \/ exists r x, runs (w_core w) !! run = Some r /\ lifecycle_state r = PENDING /\
      events (w_core w') = events (w_core w) ++
        [x; event_row (ingested_event i run review) (v_eid3 v) (v_now v)
              (next_seq run (events (w_core w) ++ [x]))] /\
      event_type x = "lifecycle_transition")).
Proof.
  intros Hv Hrun Hrev. unfold dispatchRow. rewrite Hv, Hrun, Hrev. simpl.
  destruct (bool_decide (d_sink i ∈ sinks)) eqn:Es; simpl; bool_to_prop.
  2:{ intros [= <- <-]. left. by eexists. }
  destruct (guardTransitionAndIngest _ _ _ _ _ _ _ _) as [[db' fired]|e] eqn:Eg.
  - intros [= <- <-]. right. apply guardTransition_ok in Eg as (? & ? & ? & ? & ?). by split_and!.
  - intros [= <- <-]. left. exists e. split_and!; [done|done|]. intros Hp. exfalso. revert Eg.
    unfold guardTransitionAndIngest.
    destruct (assertCurrentRun _ _ _ _ _ _ _ _) as [[db1 p1] [u|e']]; [|intros [= <-]; done].
    destruct (transitionRun _ _ _ _ _ _) as [[[db2 p2] [|]]|e']; [|done|intros [= <-]; done].
    destruct (emitWorkflowEvent _ _ _ _ _ _) as [[? ?]|e']; [done|intros [= <-]; done].
Qed.

(** The attempts fence, and what it does not fence.  Once a failure has
    been recorded under a snapshot, every settle under the same snapshot is
    without effect, and so is a second [markDispatched]; but a late
    [markAttemptFailed] under the snapshot that was dispatched does write: it
    charges an attempt to the delivered row, and turns it dead when the error is
    permanent or the threshold is reached. *)
Theorem outbox_attempts_fence id err m p now err' m' p' now' r t :
  t !! id = Some r -> o_state r = OPending ->
  let failed := (o_markAttemptFailed id err m (o_attempts r) p now t).1 in
  let sent := (o_markDispatched id (o_attempts r) now t).1 in
  o_markAttemptFailed id err' m' (o_attempts r) p' now' failed = (failed, None) /\
  o_markDispatched id (o_attempts r) now' failed = (failed, false) /\
  o_markDispatched id (o_attempts r) now' sent = (sent, false) /\
  exists r', (o_markAttemptFailed id err' m' (o_attempts r) p' now' sent).1 !! id = Some r' /\
    o_dispatched_at r' = Some now /\ o_attempts r' = o_attempts r + 1 /\
    o_state r' = if exhausts p' m' r then ODead else ODispatched.
Proof.
  intros Hr Hs failed sent.
  assert (Hf : failed !! id = Some (failed_row err m p now r)).
  { unfold failed. rewrite (o_markAttemptFailed_hit _ _ _ _ _ r) by done. by rewrite lookup_insert_eq. }
  assert (Hd : sent !! id = Some (dispatched_row now r)).
  { unfold sent. rewrite (o_markDispatched_hit _ _ r) by done. simpl. by rewrite lookup_insert_eq. }
  split_and!.
  - unfold o_markAttemptFailed. rewrite Hf. simpl. by rewrite (proj2 (Z.eqb_neq _ _)) by lia.
  - unfold o_markDispatched. rewrite Hf. simpl. rewrite (proj2 (Z.eqb_neq _ _)) by lia.
    by rewrite andb_false_r.
  - unfold o_markDispatched. by rewrite Hd.
  - exists (failed_row err' m' p' now' (dispatched_row now r)). split_and!; [|done..].
    replace (o_attempts r) with (o_attempts (dispatched_row now r)) by done.
    rewrite (o_markAttemptFailed_hit _ _ _ _ _ (dispatched_row now r)) by done.
    apply lookup_insert_eq.
Qed.

(** How often and how late a failing row is retried.  A row whose
    dispatch keeps failing with retryable errors is attempted exactly as many
    times as the threshold allows and then dead; after the [n]-th failure it is
    claimable again exactly when [min(2^n, 300)] seconds have passed. *)
Theorem outbox_retry_schedule m errs r :
  o_state r = OPending -> o_attempts r = 0 -> 1 <= m -> errs <> [] ->
  let r' := fold_left (fun r e => failed_row e.1 m false e.2 r) errs r in
  let n := Z.of_nat (length errs) in
  o_attempts r' = n /\
  (m <= n -> o_state r' = ODead) /\
  (n < m -> o_state r' = OPending /\ forall now, o_claimable now r' = true <->
     default 0 (last errs.*2) + 1000 * Z.min (2 ^ n) 300 < now).
Proof.
  intros Hs Ha Hm. induction errs as [|[err now] errs IH] using rev_ind; [done|]. intros _.
  rewrite fold_left_app, length_app, fmap_app, last_app. simpl.
  set (q := fold_left _ errs r) in *.
  assert (Hq : o_attempts q = Z.of_nat (length errs) /\
    (m <= Z.of_nat (length errs) -> o_state q = ODead) /\
    (Z.of_nat (length errs) < m -> o_state q = OPending)).
  { destruct errs as [|e errs]; [split_and!; [done|simpl; lia|done]|].
    destruct IH as (H1 & H2 & H3); [done|]. split_and!; [done|done|]. intros Hlt. by apply H3. }
  destruct Hq as (Hqa & Hqd & Hqp). unfold exhausts. simpl. rewrite Hqa.
  split; [lia|]. split.
  - intros Hle. by destruct (Z.leb_spec m (Z.of_nat (length errs) + 1)); [|lia].
  - intros Hlt. destruct (Z.leb_spec m (Z.of_nat (length errs) + 1)); [lia|].
    rewrite Hqp by lia. split; [done|]. intros n. unfold o_claimable, exhausts. simpl. rewrite Hqa.
    destruct (Z.leb_spec m (Z.of_nat (length errs) + 1)); [lia|]. rewrite Hqp by lia.
    rewrite bool_decide_eq_true_2 by done. simpl. rewrite Z.ltb_lt. unfold o_backoff_ms.
    rewrite Nat2Z.inj_add, Z.pow_add_r by lia.
    unfold OUTBOX_RETRY_BACKOFF_BASE_SECONDS, OUTBOX_RETRY_BACKOFF_CAP_SECONDS.
    replace (2 ^ Z.of_nat (length errs) * 2 ^ Z.of_nat 1) with (2 * 2 ^ Z.of_nat (length errs)) by lia.
    done.
Qed.

(** * Witnesses *)

Definition ex_outbox_row : outbox_row :=
  OutboxRow "temporal_workflow_start" JNull 2 0 OPending None None None 5 None (Some "d1") (Some "i1")
    (Some ex_run_id).

Definition ex_outbox : outbox := {[ "o1" := ex_outbox_row ]}.


Definition ex_env (out : sink_outcome) : dispatch_env :=
  DispatchEnv 10 12 "e1" "e2" "e3" [] out MarkReturns.

Definition ex_dispatch : dispatch_input :=
  dispatch_input_of (project_row (ex_db PENDING) ("o1", ex_outbox_row)).

Definition ex_world : outbox_world := OutboxWorld ex_outbox (ex_db PENDING) [] [] [].

Lemma dispatchRow_guarded_witness :
  let '(w', res) := dispatchRow {[ "temporal_workflow_start" ]} ex_dispatch (ex_env (Ok tt)) ex_world in
  res = Ok tt /\ w_invoked w' = ["o1"] /\
  exists r, runs (w_core w') !! ex_run_id = Some r /\ lifecycle_state r = RUNNING.
Proof.
  destruct (dispatchRow {[ "temporal_workflow_start" ]} ex_dispatch (ex_env (Ok tt)) ex_world)
    as [w' res] eqn:E.
  destruct (dispatchRow_guarded {[ "temporal_workflow_start" ]} ex_dispatch (ex_env (Ok tt)) ex_world
    w' res ex_run_id "r1" eq_refl eq_refl eq_refl E)
    as [(e & -> & -> & _)|(_ & Hres & Hinv & _ & _ & Hrun & _)].
  - vm_compute in E. discriminate.
  - split; [exact Hres|]. split; [exact Hinv|exact Hrun].
Defined.

Lemma outbox_attempts_fence_witness :
  exists r', (o_markAttemptFailed "o1" "late" 5 0 true 30 (o_markDispatched "o1" 0 20 ex_outbox).1).1
    !! "o1" = Some r' /\ o_dispatched_at r' = Some 20 /\ o_state r' = ODead.
Proof.
  destruct (outbox_attempts_fence "o1" "late" 5 true 20 "late" 5 true 30 ex_outbox_row ex_outbox
    eq_refl eq_refl) as (_ & _ & _ & r' & Hr & Hd & _ & Hs).
  exists r'. split; [exact Hr|]. split; [exact Hd|exact Hs].
Defined.

Lemma outbox_retry_schedule_witness :
  o_state (fold_left (fun r e => failed_row e.1 2 false e.2 r) [("x", 10); ("y", 3000)] ex_outbox_row)
    = ODead.
Proof.
  apply (outbox_retry_schedule 2 [("x", 10); ("y", 3000)] ex_outbox_row);
    [reflexivity|reflexivity|lia|discriminate|simpl; lia].
Defined.
