(* ===== verification/PrMutex.v ===== *)
(** [concurrency/pr_mutex.ts] and [activities/mutex_janitor.activity.ts]: the
    per-pull-request review mutex over [core.pr_review_mutex].  A call is one
    transaction; [now] is the database clock in microseconds. *)
From stdpp Require Import base gmap sets list strings pretty.
From Stdlib Require Import ZArith Lia Ascii.
From S2P Require Import Prelude.
Open Scope Z_scope.

(** * Data *)

Record mutex_row := MutexRow {
  m_installation : string;
  m_repository : string;
  m_pr : Z;
  holder_workflow_id : string;
  acquired_at : Z;
  released_at : option Z;
  lease_expires_at : option Z;
}.

Record pr_key := PrKey { k_installation : string; k_repository : string; k_pr : Z }.
#[export] Instance pr_key_eq_dec : EqDecision pr_key.
Proof. solve_decision. Defined.

Definition key_of (r : mutex_row) : pr_key := PrKey (m_installation r) (m_repository r) (m_pr r).

Definition live (r : mutex_row) : bool :=
  match released_at r with None => true | Some _ => false end.

Inductive mutex_error :=
| RangeErrorPr                  (* [pr_number must be > 0] *)
| MutexUniqueViolation.         (* primary key or [uq_pr_review_mutex_live_pr] *)

Record acquire_result := AcquireResult {
  acquired : bool;
  mutexId : option string;
  holderWorkflowId : option string;
}.

Definition DEFAULT_LEASE_TTL_SECONDS : Z := 30 * 60.
Definition secs (n : Z) : Z := n * 1000000.

(** ** advisoryKeys *)

Section Keys.
(** node's [createHash("sha256")]: the digest bytes. *)
Variable sha256 : string -> list Z.

Definition readUInt32BE (bytes : list Z) (off : nat) : Z :=
  Z.lor (Z.shiftl (nth off bytes 0) 24)
    (Z.lor (Z.shiftl (nth (off + 1) bytes 0) 16)
      (Z.lor (Z.shiftl (nth (off + 2) bytes 0) 8) (nth (off + 3) bytes 0))).

Definition advisoryKeys (k : pr_key) : Z * Z :=
  let digest := sha256 ("codemaster:pr_review_mutex:v1|" +:+ k_installation k +:+ "|"
                        +:+ k_repository k +:+ "|" +:+ pretty (k_pr k)) in
  (Z.land (readUInt32BE digest 0) 0x7fffffff, Z.land (readUInt32BE digest 4) 0x7fffffff).
End Keys.

(** * Operations *)

(** [SELECT ... WHERE installation_id, repository_id, pr_number AND released_at
    IS NULL]: the live rows of a pull request. *)
Definition live_rows (k : pr_key) (t : gmap string mutex_row) : list (string * mutex_row) :=
  filter (fun p => key_of p.2 = k /\ live p.2 = true) (rows t).

(** [lease_expires_at IS NOT NULL AND lease_expires_at > now()]. *)
Definition lease_valid (now : Z) (r : mutex_row) : bool :=
  match lease_expires_at r with Some e => now <? e | None => false end.

Definition set_released (at_us : Z) (r : mutex_row) : mutex_row :=
  {| m_installation := m_installation r; m_repository := m_repository r; m_pr := m_pr r;
     holder_workflow_id := holder_workflow_id r; acquired_at := acquired_at r;
     released_at := Some at_us; lease_expires_at := lease_expires_at r |}.

Definition set_lease (at_us : Z) (r : mutex_row) : mutex_row :=
  {| m_installation := m_installation r; m_repository := m_repository r; m_pr := m_pr r;
     holder_workflow_id := holder_workflow_id r; acquired_at := acquired_at r;
     released_at := released_at r; lease_expires_at := Some at_us |}.

(** [UPDATE ... WHERE [installation_id = $i AND] mutex_id = $m AND released_at
    IS NULL]: the table and the row count. *)
Definition update_live (inst : option string) (g : mutex_row -> mutex_row) (id : string)
    (t : gmap string mutex_row) : gmap string mutex_row * bool :=
  match t !! id with
  | Some r =>
      if live r && match inst with None => true | Some i => String.eqb (m_installation r) i end
      then (<[id := g r]> t, true) else (t, false)
  | None => (t, false)
  end.

(** [INSERT INTO core.pr_review_mutex ... RETURNING mutex_id], with the primary
    key and the partial unique index. *)
Definition insert_mutex (id : string) (r : mutex_row) (t : gmap string mutex_row)
    : result mutex_error (gmap string mutex_row) :=
  guard? (bool_decide (t !! id = None)) else MutexUniqueViolation in
  guard? (bool_decide (live_rows (key_of r) t = [])) else MutexUniqueViolation in
  Ok (<[id := r]> t).

(** [acquirePrReviewMutex].  [locked] is what [pg_try_advisory_xact_lock]
    returns, [id] the uuid the table default mints. *)
Definition acquirePrReviewMutex (k : pr_key) (holder : string) (ttl : Z) (locked : bool)
    (id : string) (now : Z) (t : gmap string mutex_row)
    : result mutex_error (gmap string mutex_row * acquire_result) :=
  guard? (0 <? k_pr k) else RangeErrorPr in
  if negb locked then
    Ok (t, AcquireResult false None
             ((fun p => holder_workflow_id p.2) <$> head (live_rows k t)))
  else
    let fresh := MutexRow (k_installation k) (k_repository k) (k_pr k) holder now None
                   (Some (now + secs ttl)) in
    match head (live_rows k t) with
    | Some (m, r) =>
        if lease_valid now r
        then Ok (t, AcquireResult false None (Some (holder_workflow_id r)))
        else
          let? t' := insert_mutex id fresh
            (update_live (Some (k_installation k)) (set_released now) m t).1 in
          Ok (t', AcquireResult true (Some id) (Some holder))
    | None =>
        let? t' := insert_mutex id fresh t in
        Ok (t', AcquireResult true (Some id) (Some holder))
    end.

(** [releasePrReviewMutex]; [clock_now] is the injected clock. *)
Definition releasePrReviewMutex (inst id : string) (clock_now : Z) (t : gmap string mutex_row) : gmap string mutex_row :=
  (update_live (Some inst) (set_released clock_now) id t).1.

(** [renewPrReviewMutexLease]. *)
Definition renewPrReviewMutexLease (inst id : string) (ttl now : Z) (t : gmap string mutex_row)
    : gmap string mutex_row * bool :=
  update_live (Some inst) (set_lease (now + secs ttl)) id t.

(** [withMutexTransaction]: commit what [fn] did, or roll it back. *)
Definition withMutexTransaction {A E} (fn : gmap string mutex_row -> result E (gmap string mutex_row * A))
    (t : gmap string mutex_row) : gmap string mutex_row * result E A :=
  match fn t with
  | Ok (t', a) => (t', Ok a)
  | Throw e => (t, Throw e)
  end.

(** ** The janitor *)

(** The audit rows of the sweeps (the columns the callers choose). *)
Record audit_event := AuditEvent {
  au_action : string;
  au_target_kind : string;
  au_target : string;
  au_installation : string;
}.

(** [released_at IS NULL AND (lease_expires_at IS NULL OR lease_expires_at <
    now())]. *)
Definition expired (now : Z) (r : mutex_row) : bool :=
  live r && match lease_expires_at r with None => true | Some e => e <? now end.

(** [ORDER BY lease_expires_at NULLS FIRST]. *)
Definition lease_leb (x y : string * mutex_row) : bool :=
  match lease_expires_at x.2, lease_expires_at y.2 with
  | None, _ => true
  | Some _, None => false
  | Some a, Some b => a <=? b
  end.

Definition DEFAULT_SWEEP_LIMIT : nat := 500.

Definition sweep_batch (limit : nat) (locked : gset string) (now : Z) (t : gmap string mutex_row)
    : list (string * mutex_row) :=
  take limit (sort_by lease_leb
    (filter (fun p => (p.1 ∉ locked) /\ expired now p.2 = true) (rows t))).

Definition sweep_one (clock_now : Z) (acc : gmap string mutex_row * list audit_event)
    (p : string * mutex_row) : gmap string mutex_row * list audit_event :=
  ((update_live None (set_released clock_now) p.1 acc.1).1,
   acc.2 ++ [AuditEvent "mutex.swept" "pr_review_mutex" p.1 (m_installation p.2)]).

(** Returns the table, the audit trail and the tally [scanned = swept]. *)
Definition mutexJanitor (limit : nat) (locked : gset string) (now clock_now : Z)
    (t : gmap string mutex_row) (audit : list audit_event) : gmap string mutex_row * list audit_event * nat :=
  let batch := sweep_batch limit locked now t in
  (fold_left (sweep_one clock_now) batch (t, audit), length batch).

(** ** The mutex as a transition system *)

Inductive mutex_step (t : gmap string mutex_row) : gmap string mutex_row -> Prop :=
| step_acquire k holder ttl locked id now t' r :
    acquirePrReviewMutex k holder ttl locked id now t = Ok (t', r) -> mutex_step t t'
| step_release inst id clock_now : mutex_step t (releasePrReviewMutex inst id clock_now t)
| step_renew inst id ttl now : mutex_step t (renewPrReviewMutexLease inst id ttl now t).1
| step_sweep limit locked now clock_now audit :
    mutex_step t (mutexJanitor limit locked now clock_now t audit).1.1.

Inductive mutex_steps (t : gmap string mutex_row) : gmap string mutex_row -> Prop :=
| mutex_steps_refl : mutex_steps t t
| mutex_steps_step t1 t2 : mutex_steps t t1 -> mutex_step t1 t2 -> mutex_steps t t2.

(** * Lemmas *)

Lemma elem_of_live_rows k t id r :
  (id, r) ∈ live_rows k t <-> t !! id = Some r /\ key_of r = k /\ live r = true.
Proof. unfold live_rows. rewrite list_elem_of_filter, elem_of_rows. simpl. tauto. Qed.

(** The invariant: one live row per pull request, and live rows have a lease. *)
Definition live_unique (t : gmap string mutex_row) : Prop :=
  forall i r j q, t !! i = Some r -> t !! j = Some q ->
    live r = true -> live q = true -> key_of r = key_of q -> i = j.

Definition live_has_lease (t : gmap string mutex_row) : Prop :=
  forall i r, t !! i = Some r -> live r = true -> is_Some (lease_expires_at r).

Definition mutex_inv (t : gmap string mutex_row) : Prop := live_unique t /\ live_has_lease t.

(** [t'] changes [t] only by releasing rows or moving leases. *)
Definition row_moves (r r' : mutex_row) : Prop :=
  key_of r' = key_of r /\ (live r = false -> r' = r) /\
  (live r' = true -> is_Some (lease_expires_at r) -> is_Some (lease_expires_at r')).

Definition moves (t t' : gmap string mutex_row) : Prop :=
  forall i, match t !! i, t' !! i with
            | None, None => True
            | Some r, Some r' => row_moves r r'
            | _, _ => False
            end.

Lemma row_moves_refl r : row_moves r r.
Proof. done. Qed.

Lemma row_moves_trans r1 r2 r3 : row_moves r1 r2 -> row_moves r2 r3 -> row_moves r1 r3.
Proof.
  intros (E1 & D1 & L1) (E2 & D2 & L2). split_and!; [congruence| |].
  - intros H. rewrite (D1 H) in *. auto.
  - intros H3 H. destruct (live r2) eqn:E; [|rewrite (D2 eq_refl) in H3; congruence]. auto.
Qed.

Lemma moves_refl t : moves t t.
Proof. intros i. destruct (t !! i); done. Qed.

Lemma moves_trans t1 t2 t3 : moves t1 t2 -> moves t2 t3 -> moves t1 t3.
Proof.
  intros H1 H2 i. specialize (H1 i). specialize (H2 i).
  destruct (t1 !! i), (t2 !! i), (t3 !! i); try done. by eapply row_moves_trans.
Qed.

Lemma update_live_moves inst g id t :
  (forall r, live r = true -> row_moves r (g r)) -> moves t (update_live inst g id t).1.
Proof.
  intros Hg i. unfold update_live. destruct (t !! id) as [r|] eqn:E; [|by apply moves_refl].
  destruct (live r && _) eqn:El; simpl; [|by apply moves_refl]. apply andb_true_iff in El as [El _].
  destruct (decide (i = id)) as [->|]; [rewrite E, lookup_insert_eq; auto|].
  rewrite lookup_insert_ne by done. by apply moves_refl.
Qed.

Lemma moves_live r r' : row_moves r r' -> live r' = true -> live r = true.
Proof. intros (_ & D & _) H. destruct (live r) eqn:E; [done|]. rewrite D in H; congruence. Qed.

Lemma moves_inv t t' : moves t t' -> mutex_inv t -> mutex_inv t'.
Proof.
  intros Hm [Hu Hl]. split.
  - intros i r' j q' Hi Hj Li Lj Hk. pose proof (Hm i) as Mi. pose proof (Hm j) as Mj.
    rewrite Hi in Mi. rewrite Hj in Mj.
    destruct (t !! i) as [r|] eqn:Ei; [|done]. destruct (t !! j) as [q|] eqn:Ej; [|done].
    eapply (Hu i r j q); eauto using moves_live. destruct Mi as [<- _], Mj as [<- _]. done.
  - intros i r' Hi Li. pose proof (Hm i) as Mi. rewrite Hi in Mi.
    destruct (t !! i) as [r|] eqn:Ei; [|done].
    destruct Mi as (E & D & L). apply L; [done|]. eapply Hl; [done|].
    by eapply moves_live.
Qed.

Lemma set_released_moves at_us r : live r = true -> row_moves r (set_released at_us r).
Proof. intros H. split_and!; [done|congruence|done]. Qed.

Lemma set_lease_moves at_us r : live r = true -> row_moves r (set_lease at_us r).
Proof. intros H. split_and!; [done|congruence|intros _ _; by eexists]. Qed.

#[export] Hint Resolve moves_refl set_released_moves set_lease_moves : codemaster.

Lemma sweep_moves clock_now batch t audit :
  moves t (fold_left (sweep_one clock_now) batch (t, audit)).1.
Proof.
  revert t audit. induction batch as [|p batch IH]; intros t audit; simpl; [apply moves_refl|].
  eapply moves_trans; [|apply IH]. apply update_live_moves. eauto with codemaster.
Qed.

Lemma insert_mutex_ok id r t t' :
  insert_mutex id r t = Ok t' ->
  t !! id = None /\ live_rows (key_of r) t = [] /\ t' = <[id := r]> t.
Proof.
  unfold insert_mutex. destruct (bool_decide _) eqn:E1; [|discriminate].
  destruct (bool_decide (live_rows _ _ = _)) eqn:E2; [|discriminate].
  intros [= <-]. bool_to_prop. done.
Qed.

Lemma insert_mutex_inv id r t :
  live_rows (key_of r) t = [] -> is_Some (lease_expires_at r) ->
  mutex_inv t -> mutex_inv (<[id := r]> t).
Proof.
  intros Hn Hl [Hu Hh].
  assert (Hno : forall j q, t !! j = Some q -> live q = true -> key_of r <> key_of q).
  { intros j q Hj Lq E. assert ((j, q) ∈ live_rows (key_of r) t) as Hin
      by (apply elem_of_live_rows; auto). rewrite Hn in Hin. by apply elem_of_nil in Hin. }
  split.
  - intros i a j b. rewrite !lookup_insert_Some.
    intros [[<- <-]|[? Hi]] [[<- <-]|[? Hj]] La Lb E; [done| | |by eapply Hu].
    + by destruct (Hno j b).
    + by destruct (Hno i a).
  - intros i a. rewrite lookup_insert_Some. intros [[<- <-]|[_ Hi]] La; [done|by eapply Hh].
Qed.

(** What [acquirePrReviewMutex] does, by cases. *)
Lemma acquire_cases k holder ttl locked id now t t' res :
  acquirePrReviewMutex k holder ttl locked id now t = Ok (t', res) ->
  (acquired res = false /\ mutexId res = None /\ t' = t /\
   (locked = true -> exists m r, t !! m = Some r /\ key_of r = k /\ live r = true /\
      lease_valid now r = true /\ holderWorkflowId res = Some (holder_workflow_id r))) \/
  (acquired res = true /\ mutexId res = Some id /\ locked = true /\ 0 < k_pr k /\
   exists t1, moves t t1 /\ t1 !! id = None /\ live_rows k t1 = [] /\
     t' = <[id := MutexRow (k_installation k) (k_repository k) (k_pr k) holder now None
                    (Some (now + secs ttl))]> t1 /\
     (t1 = t \/ exists m r, t !! m = Some r /\ key_of r = k /\ live r = true /\
        lease_valid now r = false /\ t1 = <[m := set_released now r]> t)).
Proof.
  unfold acquirePrReviewMutex. destruct (0 <? k_pr k) eqn:Hp; [|discriminate].
  apply Z.ltb_lt in Hp. destruct k as [ki kr kp]; simpl in *.
  destruct locked; simpl; [|intros [= <- <-]; left; done].
  destruct (head _) as [[m r]|] eqn:Eh.
  - assert ((m, r) ∈ live_rows (PrKey ki kr kp) t) as (Hm & Hk & Hl)%elem_of_live_rows.
    { destruct (live_rows _ _); [done|]. injection Eh as ->. apply elem_of_cons; auto. }
    destruct (lease_valid now r) eqn:El.
    + intros [= <- <-]. left. split_and!; try done. intros _. by exists m, r.
    + intros H. apply rbind_ok in H as (t2 & Hi & H). injection H as <- <-.
      apply insert_mutex_ok in Hi as (Hn & Hlr & ->). right. split_and!; try done.
      eexists. split; [apply (update_live_moves (Some ki) (set_released now) m); eauto with codemaster|].
      split; [exact Hn|]. split; [exact Hlr|]. split; [done|]. right. exists m, r.
      split_and!; try done. unfold update_live. rewrite Hm, Hl. injection Hk as <- <- <-.
      by rewrite String.eqb_refl.
  - intros H. apply rbind_ok in H as (t2 & Hi & H). injection H as <- <-.
    apply insert_mutex_ok in Hi as (Hn & Hlr & ->). right. split_and!; try done.
    exists t. split_and!; auto with codemaster.
Qed.

Lemma mutex_step_inv t t' : mutex_step t t' -> mutex_inv t -> mutex_inv t'.
Proof.
  intros Hs Hi. destruct Hs as [k holder ttl locked id now t' res H| | |].
  - apply acquire_cases in H as [(_ & _ & -> & _)|(_ & _ & _ & _ & t1 & Hm & Hn & Hl & -> & _)]; [done|].
    apply insert_mutex_inv; [by destruct k|by eexists|by eapply moves_inv].
  - eapply moves_inv; [|done]. apply update_live_moves. eauto with codemaster.
  - eapply moves_inv; [|done]. apply update_live_moves. eauto with codemaster.
  - eapply moves_inv; [|done]. apply sweep_moves.
Qed.

Lemma mutex_steps_inv t t' : mutex_steps t t' -> mutex_inv t -> mutex_inv t'.
Proof. induction 1; eauto using mutex_step_inv. Qed.

Lemma mutex_empty_inv : mutex_inv ∅.
Proof. split; [intros i r j q H|intros i r H]; by rewrite lookup_empty in H. Qed.

(** A released row never changes again. *)
Lemma moves_released t t' i r :
  moves t t' -> t !! i = Some r -> live r = false -> t' !! i = Some r.
Proof.
  intros Hm Hi Hl. specialize (Hm i). rewrite Hi in Hm.
  destruct (t' !! i) as [r'|]; [|done]. destruct Hm as (_ & D & _). by rewrite D.
Qed.

Lemma mutex_step_released t t' i r :
  mutex_step t t' -> t !! i = Some r -> live r = false -> t' !! i = Some r.
Proof.
  intros Hs Hi Hl. destruct Hs as [k holder ttl locked id now t' res H| | |].
  - apply acquire_cases in H as [(_ & _ & -> & _)|(_ & _ & _ & _ & t1 & Hm & Hn & _ & -> & _)]; [done|].
    pose proof (moves_released _ _ _ _ Hm Hi Hl). rewrite lookup_insert_ne; congruence.
  - eapply moves_released; eauto. apply update_live_moves. eauto with codemaster.
  - eapply moves_released; eauto. apply update_live_moves. eauto with codemaster.
  - eapply moves_released; eauto. apply sweep_moves.
Qed.

Lemma mutex_steps_released t t' i r :
  mutex_steps t t' -> t !! i = Some r -> live r = false -> t' !! i = Some r.
Proof. induction 1; eauto using mutex_step_released. Qed.

Lemma update_live_released inst g id t r :
  t !! id = Some r -> live r = false -> update_live inst g id t = (t, false).
Proof. unfold update_live. by intros -> ->. Qed.

Lemma head_live_rows_unique k t m r :
  mutex_inv t -> t !! m = Some r -> key_of r = k -> live r = true ->
  head (live_rows k t) = Some (m, r).
Proof.
  intros [Hu _] Hm Hk Hl. assert (Hin : (m, r) ∈ live_rows k t) by by apply elem_of_live_rows.
  destruct (live_rows k t) as [|[j q] l] eqn:E; [by apply elem_of_nil in Hin|].
  assert ((j, q) ∈ live_rows k t) as (Hj & Hkq & Hlq)%elem_of_live_rows
    by (rewrite E; apply elem_of_cons; auto).
  assert (j = m) as -> by (eapply Hu; eauto; congruence). simpl. congruence.
Qed.

(** ** The sweep *)

Lemma sweep_unswept clock_now batch acc i :
  i ∉ map fst batch -> (fold_left (sweep_one clock_now) batch acc).1 !! i = acc.1 !! i.
Proof.
  revert acc. induction batch as [|p batch IH]; intros acc Hi; [done|].
  simpl in *. apply not_elem_of_cons in Hi as [Hne Hi]. rewrite IH by done.
  unfold sweep_one, update_live. simpl. destruct (acc.1 !! p.1) as [r|]; [|done].
  destruct (_ && _); [|done]. simpl. by rewrite lookup_insert_ne.
Qed.

Lemma sweep_swept clock_now batch acc i r :
  NoDup (map fst batch) -> i ∈ map fst batch -> acc.1 !! i = Some r -> live r = true ->
  (fold_left (sweep_one clock_now) batch acc).1 !! i = Some (set_released clock_now r).
Proof.
  revert acc. induction batch as [|p batch IH]; intros acc Hnd Hi Ht Hl;
    [by apply elem_of_nil in Hi|].
  simpl in *. apply NoDup_cons in Hnd as [Hn Hnd]. apply elem_of_cons in Hi as [->|Hi].
  - rewrite sweep_unswept by done. unfold sweep_one, update_live. simpl. rewrite Ht, Hl. simpl.
    by rewrite lookup_insert_eq.
  - apply IH; try done. unfold sweep_one, update_live. simpl.
    destruct (acc.1 !! p.1) as [q|] eqn:E; [|done]. destruct (_ && _); [|done]. simpl.
    rewrite lookup_insert_ne; [done|]. intros <-. done.
Qed.

Lemma sweep_batch_elem limit locked now t p :
  p ∈ sweep_batch limit locked now t -> t !! p.1 = Some p.2 /\ (p.1 ∉ locked) /\ expired now p.2 = true.
Proof.
  unfold sweep_batch. intros H. apply (subseteq_take _ _) in H.
  apply elem_of_sort_by, list_elem_of_filter in H as [[? ?] Hin]. destruct p. by apply elem_of_rows in Hin.
Qed.

Lemma rows_NoDup_fst {R} (t : gmap string R) : NoDup (map fst (rows t)).
Proof. apply NoDup_fst_map_to_list. Qed.

Lemma sweep_batch_NoDup limit locked now t : NoDup (map fst (sweep_batch limit locked now t)).
Proof.
  unfold sweep_batch. eapply sublist_NoDup; [|apply fmap_sublist, sublist_take].
  change (map fst) with (fmap (M := list) (@fst string mutex_row)).
  rewrite sort_by_perm. eapply sublist_NoDup; [|apply fmap_sublist, sublist_filter].
  apply rows_NoDup_fst.
Qed.

Lemma live_rows_released k m r now t :
  mutex_inv t -> t !! m = Some r -> key_of r = k -> live r = true ->
  live_rows k (<[m := set_released now r]> t) = [].
Proof.
  intros [Hu _] Hm Hk Hl. destruct (live_rows _ _) as [|[j q] l] eqn:E; [done|].
  assert ((j, q) ∈ live_rows k (<[m := set_released now r]> t)) as (Hj & Hkq & Hlq)%elem_of_live_rows
    by (rewrite E; apply elem_of_cons; auto).
  apply lookup_insert_Some in Hj as [[<- <-]|[Hne Hj]]; [done|].
  destruct Hne. eapply Hu; eauto. congruence.
Qed.

(** On a well-formed table an [acquire] with a fresh id never throws. *)
Lemma acquire_total k holder ttl locked id now t :
  mutex_inv t -> 0 < k_pr k -> t !! id = None ->
  exists t' res, acquirePrReviewMutex k holder ttl locked id now t = Ok (t', res).
Proof.
  intros Hi Hp Hn. unfold acquirePrReviewMutex. apply Z.ltb_lt in Hp as ->.
  destruct locked; simpl; [|eauto]. destruct k as [ki kr kp]; simpl.
  destruct (head _) as [[m r]|] eqn:Eh.
  - assert ((m, r) ∈ live_rows (PrKey ki kr kp) t) as (Hm & Hk & Hl)%elem_of_live_rows.
    { destruct (live_rows _ _); [done|]. injection Eh as ->. apply elem_of_cons; auto. }
    destruct (lease_valid now r); [eauto|]. unfold update_live. rewrite Hm, Hl.
    pose proof Hk as Hk'. injection Hk as <- <- <-. rewrite String.eqb_refl. simpl.
    unfold insert_mutex.
    rewrite bool_decide_eq_true_2 by (rewrite lookup_insert_ne by congruence; done).
    rewrite bool_decide_eq_true_2; [simpl; eauto|]. by apply live_rows_released.
  - unfold insert_mutex. rewrite bool_decide_eq_true_2 by done.
    rewrite bool_decide_eq_true_2; [simpl; eauto|].
    destruct (live_rows (PrKey ki kr kp) t) eqn:E; [exact E|done].
Qed.

(** * Properties *)

(** C6: mutual exclusion per pull request.  In every state the operations can
    reach, an [acquire] returns; when it succeeds its row is the only live one
    of the pull request and holds a lease of the full term, and a row it
    replaced had let its lease run out and is released; when it fails it
    changes nothing, and under the advisory lock it names a holder whose lease
    is still valid.  So nobody acquires a pull request while a lease on it is
    valid. *)
Theorem pr_mutex_exclusion t k holder ttl locked id now :
  mutex_steps ∅ t -> 0 < k_pr k -> t !! id = None ->
  exists t' res, acquirePrReviewMutex k holder ttl locked id now t = Ok (t', res) /\
  (acquired res = true ->
     mutexId res = Some id /\
     (exists r, t' !! id = Some r /\ key_of r = k /\ live r = true /\
        holder_workflow_id r = holder /\ lease_expires_at r = Some (now + secs ttl)) /\
     (forall j q, t' !! j = Some q -> key_of q = k -> live q = true -> j = id) /\
     (forall j q, t !! j = Some q -> key_of q = k -> live q = true ->
        (exists e, lease_expires_at q = Some e /\ e <= now) /\
        t' !! j = Some (set_released now q))) /\
  (acquired res = false -> t' = t /\ mutexId res = None /\
     (locked = true -> exists m r, t !! m = Some r /\ key_of r = k /\ live r = true /\
        lease_valid now r = true /\ holderWorkflowId res = Some (holder_workflow_id r))).
Proof.
  intros Hr Hp Hid. pose proof (mutex_steps_inv _ _ Hr mutex_empty_inv) as Hi.
  destruct (acquire_total k holder ttl locked id now t Hi Hp Hid) as (t' & res & H).
  exists t', res. split; [done|].
  pose proof (mutex_step_inv _ _ (step_acquire _ _ _ _ _ _ _ _ _ H) Hi) as Hi'.
  apply acquire_cases in H as [(Ha & Hm & -> & Hv)|(Ha & Hm & Hl & _ & t1 & Hmv & Hn & Hlr & -> & Ht1)];
    (split; [intros Ha'; try congruence|intros Ha'; try congruence]); [done|].
  destruct k as [ki kr kp]. set (new := MutexRow _ _ _ _ _ _ _) in *.
  split_and!; [done| | |].
  - exists new. by rewrite lookup_insert_eq.
  - intros j q Hj Hk Hlq. eapply (proj1 Hi' j q id new); try done. by rewrite lookup_insert_eq.
  - intros j q Hj Hk Hlq. destruct Ht1 as [->|(m & r & Hmr & Hkr & Hlv & Hval & ->)].
    + assert ((j, q) ∈ live_rows (PrKey ki kr kp) t) as Hin by by apply elem_of_live_rows.
      rewrite Hlr in Hin. by apply elem_of_nil in Hin.
    + assert (j = m) as -> by (eapply (proj1 Hi j q m r); eauto; congruence).
      assert (q = r) as -> by congruence.
      destruct (proj2 Hi m r Hmr Hlv) as [e He]. split.
      * exists e. split; [done|]. unfold lease_valid in Hval. rewrite He in Hval.
        by apply Z.ltb_ge in Hval.
      * rewrite lookup_insert_ne by congruence. by rewrite lookup_insert_eq.
Qed.

(** A lost claim is final.  Once a mutex row is released, by its holder,
    by a steal or by the janitor, then whatever happens afterwards the row
    stays as it was released, renewing it reports the loss, and renewing or
    releasing it changes nothing: a superseded review can never revive its
    lease nor free its successor's. *)
Theorem pr_mutex_lost_claim t t' id r inst ttl now clock_now :
  t !! id = Some r -> live r = false -> mutex_steps t t' ->
  t' !! id = Some r /\
  renewPrReviewMutexLease inst id ttl now t' = (t', false) /\
  releasePrReviewMutex inst id clock_now t' = t'.
Proof.
  intros Hr Hl Hs. pose proof (mutex_steps_released _ _ _ _ Hs Hr Hl) as Hr'.
  unfold renewPrReviewMutexLease, releasePrReviewMutex.
  by rewrite !(update_live_released _ _ _ _ _ Hr' Hl).
Qed.

(** One janitor sweep releases only rows whose lease has run out (or is
    missing) and that nobody has locked, at most [limit] of them, one audit
    event each; every other row is untouched, the tally counts them, and a
    sweep below its limit leaves no such row behind. *)
Theorem mutex_janitor_sweep limit locked now clock_now t audit :
  let '(t', audit', n) := mutexJanitor limit locked now clock_now t audit in
  (n <= limit)%nat /\ length audit' = (length audit + n)%nat /\
  (forall i r, t !! i = Some r -> t' !! i = Some r \/
     ((i ∉ locked) /\ expired now r = true /\ t' !! i = Some (set_released clock_now r) /\
      AuditEvent "mutex.swept" "pr_review_mutex" i (m_installation r) ∈ audit')) /\
  ((n < limit)%nat -> forall i r, t' !! i = Some r -> (i ∉ locked) -> expired now r = false).
Proof.
  unfold mutexJanitor. set (batch := sweep_batch limit locked now t).
  destruct (fold_left _ _ _) as [t' audit'] eqn:E.
  assert (Et : t' = (fold_left (sweep_one clock_now) batch (t, audit)).1) by by rewrite E.
  assert (Ea : audit' = audit ++
    map (fun p => AuditEvent "mutex.swept" "pr_review_mutex" p.1 (m_installation p.2)) batch).
  { assert (G : forall l acc, (fold_left (sweep_one clock_now) l acc).2 = acc.2 ++
      map (fun p => AuditEvent "mutex.swept" "pr_review_mutex" p.1 (m_installation p.2)) l).
    { induction l as [|p l IH]; intros acc; simpl; [by rewrite app_nil_r|].
      rewrite IH. simpl. by rewrite <- app_assoc. }
    specialize (G batch (t, audit)). by rewrite E in G. }
  assert (Hswept : forall i r, t !! i = Some r -> t' !! i = Some r \/
     ((i ∉ locked) /\ expired now r = true /\ t' !! i = Some (set_released clock_now r) /\
      AuditEvent "mutex.swept" "pr_review_mutex" i (m_installation r) ∈ audit')).
  { intros i r Hi. destruct (decide (i ∈ map fst batch)) as [Hin|Hin].
    - right. apply list_elem_of_In, in_map_iff in Hin as ([j q] & <- & Hq%list_elem_of_In).
      pose proof (sweep_batch_elem _ _ _ _ _ Hq) as (Hj & Hlk & Hex). simpl in *.
      assert (q = r) as -> by congruence. split_and!; try done.
      + subst t'. apply sweep_swept; try done; [apply sweep_batch_NoDup| |].
        * apply list_elem_of_In, in_map_iff. exists (j, r). by rewrite <- list_elem_of_In.
        * unfold expired in Hex. by apply andb_true_iff in Hex as [? _].
      + rewrite Ea. apply elem_of_app. right.
        apply list_elem_of_In, in_map_iff. exists (j, r). by rewrite <- list_elem_of_In.
    - left. subst t'. by rewrite sweep_unswept. }
  split_and!; [apply firstn_le_length| |done|].
  - by rewrite Ea, length_app, length_map.
  - intros Hlt i r Hi Hlk. destruct (expired now r) eqn:Hex; [|done].
    assert (Ht : exists q, t !! i = Some q).
    { destruct (t !! i) eqn:Ei; [eauto|]. pose proof (sweep_moves clock_now batch t audit i) as M.
      rewrite <- Et, Ei, Hi in M. done. }
    destruct Ht as [q Hq]. destruct (Hswept i q Hq) as [Hs|(_ & _ & Hs & _)].
    + assert (q = r) as -> by congruence.
      assert (Hin : (i, r) ∈ batch).
      { unfold batch, sweep_batch in *. rewrite length_take in Hlt.
        rewrite take_ge by lia. apply elem_of_sort_by, list_elem_of_filter.
        split; [done|]. by apply elem_of_rows. }
      assert (Hl : live r = true) by (unfold expired in Hex; by apply andb_true_iff in Hex as [? _]).
      rewrite Et, (sweep_swept _ _ _ i r) in Hi; try done; [|apply sweep_batch_NoDup|].
      * injection Hi as Hi. rewrite <- Hi in Hl. done.
      * apply list_elem_of_In, in_map_iff. exists (i, r). by rewrite <- list_elem_of_In.
    + assert (r = set_released clock_now q) as -> by congruence. done.
Qed.

(** * Witnesses *)

Definition ex_key : pr_key := PrKey "i1" "repo1" 42.
Definition ex_mutex (released : option Z) : mutex_row :=
  MutexRow "i1" "repo1" 42 "ReviewPR-o/r-42-deadbeef" 0 released (Some 10).

Lemma pr_mutex_exclusion_witness :
  match acquirePrReviewMutex ex_key "w2" 1800 true "m2" 50 {["m1" := ex_mutex None]} with
  | Ok (t', res) => acquired res = true /\ t' !! "m1" = Some (ex_mutex (Some 50))
  | Throw _ => False
  end.
Proof.
  assert (Hr : mutex_steps ∅ {["m1" := ex_mutex None]}).
  { eapply mutex_steps_step; [eapply mutex_steps_step; [apply mutex_steps_refl|]|].
    - apply (step_acquire _ ex_key "ReviewPR-o/r-42-deadbeef" 0 true "m1" 0
        {["m1" := MutexRow "i1" "repo1" 42 "ReviewPR-o/r-42-deadbeef" 0 None (Some 0)]}
        (AcquireResult true (Some "m1") (Some "ReviewPR-o/r-42-deadbeef"))).
      vm_compute. reflexivity.
    - replace {["m1" := ex_mutex None]} with
        (renewPrReviewMutexLease "i1" "m1" 0 10
          {["m1" := MutexRow "i1" "repo1" 42 "ReviewPR-o/r-42-deadbeef" 0 None (Some 0)]}).1
        by (vm_compute; reflexivity).
      apply step_renew. }
  destruct (pr_mutex_exclusion _ ex_key "w2" 1800 true "m2" 50 Hr) as (t' & res & -> & Ht & Hf).
  - reflexivity.
  - reflexivity.
  - destruct (acquired res) eqn:E.
    + split; [done|]. destruct (Ht eq_refl) as (_ & _ & _ & H).
      by apply (H "m1" (ex_mutex None)).
    + destruct (Hf eq_refl) as (_ & _ & H). destruct (H eq_refl) as (m & r & Hm & _ & _ & Hv & _).
      apply lookup_singleton_Some in Hm as [_ <-]. discriminate.
Defined.

Lemma pr_mutex_lost_claim_witness :
  renewPrReviewMutexLease "i1" "m1" 1800 60 {["m1" := ex_mutex (Some 50)]}
    = ({["m1" := ex_mutex (Some 50)]}, false).
Proof.
  apply (pr_mutex_lost_claim {["m1" := ex_mutex (Some 50)]} _ "m1" (ex_mutex (Some 50)) "i1" 1800 60 0);
    [reflexivity|reflexivity|apply mutex_steps_refl].
Defined.
