(* ===== verification/ReviewPayload.v ===== *)
(** [ReviewPullRequestPayloadV1] of [libs/contracts/src/review_pull_request.v1.ts]:
    the strict Zod object the review queue stores, as a parser on JSON values
    that fills in the defaults and lists the fields in schema order.  Zod's own
    string formats ([uuid()], [datetime()]) are parameters. *)
From stdpp Require Import base gmap sets list strings.
From Stdlib Require Import ZArith Lia Ascii.
From S2P Require Import Prelude Json.
Open Scope Z_scope.

(** * Field validators *)

Definition str_len (lo hi : Z) (v : json) : bool :=
  match v with
  | JStr s => let n := Z.of_nat (String.length s) in (lo <=? n) && (n <=? hi)
  | _ => false
  end.

(** [z.number().int().gte(lo)], [lo >= 0], on a canonical numeral: plain digits,
    or the exponent form [String(n)] uses from 1e21 on. *)
Definition int_gte (lo : Z) (v : json) : bool :=
  match v with
  | JNum s => if JsString.all_digits s then lo <=? JsString.number_of_digits s
              else negb (JsString.includes_char "-" s) && JsString.includes_char "+" s
  | _ => false
  end.

Definition nullable (check : json -> bool) (v : json) : bool :=
  match v with JNull => true | _ => check v end.

Definition is_bool (v : json) : bool := match v with JBool _ => true | _ => false end.
Definition is_literal2 (v : json) : bool :=
  match v with JNum s => String.eqb s "2" | _ => false end.

(** Own property of an object. *)
Definition get (k : string) (kvs : list (string * json)) : option json :=
  match list_find (fun p => p.1 = k) kvs with Some (_, p) => Some p.2 | None => None end.

Record field := Field { f_name : string; f_check : json -> bool; f_default : option json }.

Section Schema.
(** Zod's [uuid] and [datetime({offset, local})] formats. *)
Variable zod_uuid zod_datetime : string -> bool.

Definition fmt (p : string -> bool) (v : json) : bool :=
  match v with JStr s => p s | _ => false end.

Definition review_fields : list field :=
  [Field "schema_version" is_literal2 (Some (JNum "2"));
   Field "installation_id" (fmt zod_uuid) None;
   Field "repository_id" (fmt zod_uuid) None;
   Field "pr_id" (fmt zod_uuid) None;
   Field "pr_number" (int_gte 1) None;
   Field "head_sha" (str_len 40 40) None;
   Field "gh_owner" (str_len 1 200) None;
   Field "gh_repo_name" (str_len 1 200) None;
   Field "pr_title" (str_len 0 500) None;
   Field "pr_description" (str_len 0 10000) None;
   Field "delivery_id" (str_len 1 200) None;
   Field "policy_revision" (int_gte 0) None;
   Field "run_id" (fmt zod_uuid) None;
   Field "review_id" (fmt zod_uuid) None;
   Field "github_installation_id" (nullable (int_gte 0)) (Some JNull);
   Field "author_login" (nullable (str_len 0 64)) (Some JNull);
   Field "draft" is_bool (Some (JBool false));
   Field "base_ref" (nullable (str_len 0 255)) (Some JNull);
   Field "head_ref" (nullable (str_len 0 255)) (Some JNull);
   Field "opened_at" (nullable (fmt zod_datetime)) (Some JNull)].

(** One field of the result; a missing key takes the default. *)
Definition parse_field (kvs : list (string * json)) (f : field) : result unit (string * json) :=
  match get (f_name f) kvs with
  | Some v => if f_check f v then Ok (f_name f, v) else Throw tt
  | None => match f_default f with Some d => Ok (f_name f, d) | None => Throw tt end
  end.

(** [.strict()]: an unknown key is an error. *)
Definition known_keys (kvs : list (string * json)) : bool :=
  forallb (fun p => existsb (String.eqb p.1) (map f_name review_fields)) kvs.

(** [ReviewPullRequestPayloadV1.parse]. *)
Definition parse_review (v : json) : result unit json :=
  match v with
  | JObj kvs =>
      guard? known_keys kvs else tt in
      let? out := rmap (parse_field kvs) review_fields in Ok (JObj out)
  | _ => Throw tt
  end.

(** * Lemmas *)

(** The validators accept scalars only, and scalars have one representation. *)
Definition scalar (v : json) : Prop :=
  match v with JArr _ | JObj _ | JNonJson => False | _ => True end.

Lemma checks_scalar f v : f ∈ review_fields -> f_check f v = true -> scalar v.
Proof.
  unfold review_fields. intros Hf.
  repeat (apply elem_of_cons in Hf as [->|Hf]; [by destruct v|]). by apply elem_of_nil in Hf.
Qed.

Lemma scalar_same v w : scalar v -> same_json v w -> v = w.
Proof. intros Hs H. inversion H; subst; done. Qed.

Lemma defaults_ok f d : f ∈ review_fields -> f_default f = Some d -> f_check f d = true.
Proof.
  unfold review_fields. intros Hf.
  repeat (apply elem_of_cons in Hf as [->|Hf]; [by intros [= <-]|]). by apply elem_of_nil in Hf.
Qed.

Lemma review_fields_NoDup : NoDup (map f_name review_fields).
Proof. simpl. repeat (constructor; [set_solver|]). constructor. Qed.

Lemma get_Some k kvs v : get k kvs = Some v -> (k, v) ∈ kvs.
Proof.
  unfold get. destruct (list_find _ _) as [[i p]|] eqn:E; [|discriminate].
  apply list_find_Some in E as (Hi & <- & _). intros [= <-].
  destruct p. by eapply list_elem_of_lookup_2.
Qed.

Lemma get_elem k kvs v : NoDup (map fst kvs) -> (k, v) ∈ kvs -> get k kvs = Some v.
Proof.
  intros Hnd Hin. unfold get. destruct (list_find _ _) as [[i p]|] eqn:E.
  - apply list_find_Some in E as (Hi & Hk & _). apply list_elem_of_lookup_2 in Hi.
    assert (p = (k, v)) as -> by by eapply NoDup_fst_inj. done.
  - apply list_find_None in E. rewrite Forall_forall in E. by destruct (E _ Hin).
Qed.

(** What a successful parse returns, field by field. *)
Lemma parse_fields_spec kvs fs out :
  rmap (parse_field kvs) fs = Ok out ->
  Forall2 (fun f p => p.1 = f_name f /\
    match get (f_name f) kvs with
    | Some v => p.2 = v /\ f_check f v = true
    | None => f_default f = Some p.2
    end) fs out.
Proof.
  intros H. apply rmap_ok in H. eapply Forall2_impl; [exact H|].
  intros f p Hp. unfold parse_field in Hp. destruct (get _ _) as [v|].
  - destruct (f_check f v) eqn:E; [|discriminate]. by injection Hp as <-.
  - destruct (f_default f); [|discriminate]. by injection Hp as <-.
Qed.

Lemma parse_fields_names kvs fs out :
  rmap (parse_field kvs) fs = Ok out -> map fst out = map f_name fs.
Proof.
  intros H. apply parse_fields_spec in H. induction H as [|f p fs out [E _] _ IH]; [done|].
  simpl. congruence.
Qed.

Lemma parse_fields_checked kvs out :
  rmap (parse_field kvs) review_fields = Ok out ->
  Forall2 (fun f p => p.1 = f_name f /\ f_check f p.2 = true) review_fields out.
Proof.
  intros H. apply parse_fields_spec in H.
  assert (G : forall fs out, (forall f, f ∈ fs -> f ∈ review_fields) ->
    Forall2 (fun f p => p.1 = f_name f /\
      match get (f_name f) kvs with
      | Some v => p.2 = v /\ f_check f v = true
      | None => f_default f = Some p.2
      end) fs out -> Forall2 (fun f p => p.1 = f_name f /\ f_check f p.2 = true) fs out).
  { clear. induction 2 as [|f p fs out [E Hv] _ IH]; constructor.
    - split; [done|]. destruct (get _ _) as [v|].
      + by destruct Hv as [-> ?].
      + eapply defaults_ok; [apply H, elem_of_cons; auto|done].
    - apply IH. intros g Hg. apply H, elem_of_cons. auto. }
  by apply G.
Qed.

Lemma rmap_parse_ok kvs fs out :
  NoDup (map f_name fs) ->
  Forall2 (fun f p => p.1 = f_name f /\ f_check f p.2 = true) fs out ->
  (forall p, p ∈ out -> get p.1 kvs = Some p.2) ->
  rmap (parse_field kvs) fs = Ok out.
Proof.
  intros _ H Hget. apply rmap_ok. induction H as [|f p fs out [E Hc] _ IH]; constructor.
  - unfold parse_field. rewrite <- E, (Hget p) by (apply elem_of_cons; auto). rewrite Hc.
    by destruct p.
  - apply IH. intros q Hq. apply Hget, elem_of_cons. auto.
Qed.

(** A parsed payload, its properties listed in any order, parses to itself. *)
Lemma parse_review_stable v p w :
  parse_review v = Ok p -> same_json p w -> parse_review w = Ok p.
Proof.
  intros H Hs. destruct v as [| | | | |kvs|]; try discriminate. unfold parse_review in H.
  destruct (known_keys kvs); [|discriminate]. apply rbind_ok in H as (out & Hout & H).
  injection H as <-. pose proof (parse_fields_names _ _ _ Hout) as Hn.
  pose proof (parse_fields_checked _ _ Hout) as Hc.
  assert (Hnd : NoDup (map fst out)) by (rewrite Hn; apply review_fields_NoDup).
  assert (Hp : exists l, w = JObj l /\ l ≡ₚ out).
  { inversion Hs as [| |? kvs' l Hk Hp]; subst; [by exists out|]. exists l. split; [done|].
    rewrite <- Hp. assert (out = kvs') as <-; [|done].
    assert (G : forall fs, (forall f, f ∈ fs -> f ∈ review_fields) ->
      Forall2 (fun f p => p.1 = f_name f /\ f_check f p.2 = true) fs out -> out = kvs').
    { clear -Hk. induction Hk as [|[k x] [k' y] o o' [E Hxy] _ IH]; [done|].
      intros fs Hfs H. inversion H as [|f q fs' o2 [Ef Hcf] Hrest]; subst. simpl in *. f_equal.
      - f_equal; [done|]. apply scalar_same; [|done].
        eapply checks_scalar; [apply Hfs, elem_of_cons; auto|done].
      - apply (IH fs'); [|done]. intros g Hg. apply Hfs, elem_of_cons. auto. }
    by apply (G review_fields). }
  destruct Hp as (l & -> & Hp). unfold parse_review.
  assert (known_keys l = true) as ->.
  { apply forallb_forall. intros p Hin%list_elem_of_In. apply existsb_eqb_elem.
    rewrite <- Hn, <- Hp. apply list_elem_of_In, in_map_iff. exists p. by rewrite <- list_elem_of_In. }
  rewrite (rmap_parse_ok l review_fields out); [done|apply review_fields_NoDup|exact Hc|].
  intros [k x] Hin. apply get_elem; [by rewrite Hp|by rewrite Hp].
Qed.

Lemma parse_review_distinct v p : parse_review v = Ok p -> distinct_keys p.
Proof.
  intros H. destruct v as [| | | | |kvs|]; try discriminate. unfold parse_review in H.
  destruct (known_keys kvs); [|discriminate]. apply rbind_ok in H as (out & Hout & H).
  injection H as <-. constructor.
  - rewrite (parse_fields_names _ _ _ Hout). apply review_fields_NoDup.
  - pose proof (parse_fields_checked _ _ Hout) as Hc.
    assert (G : forall fs out, (forall f, f ∈ fs -> f ∈ review_fields) ->
      Forall2 (fun f p => p.1 = f_name f /\ f_check f p.2 = true) fs out ->
      Forall (fun p => distinct_keys p.2) out).
    { clear. induction 2 as [|f p fs out [_ Hc] _ IH]; constructor.
      - apply checks_scalar in Hc; [|apply H, elem_of_cons; auto].
        destruct (p.2); try constructor; done.
      - apply IH. intros g Hg. apply H, elem_of_cons. auto. }
    by apply (G review_fields).
Qed.
End Schema.
