(* ===== verification/ReviewJobs.v ===== *)
(** [runner/review_jobs_repo.ts]: the durable review queue over
    [core.review_jobs], its lockstep writes to [core.review_runs] and
    [core.pr_review_mutex], and the stuck-run reaper.  The lease columns and
    the claim order are those of [JobTable]; the run rows and their CHECKs
    those of [RunLifecycle]; the mutex rows those of [PrMutex]. *)
From Stdlib Require Import QArith.
From stdpp Require Import base gmap sets list strings.
From Stdlib Require Import ZArith Lia.
From S2P Require Import Prelude JobTable Json ReviewPayload WorkflowEvents RunLifecycle PrMutex.
Open Scope Z_scope.

(** * Data *)

Record rv_row := RvRow {
  rv_core : lease_core;
  j_run_id : string;
  j_review_id : string;
  j_installation_id : string;
  j_delivery_id : option string;
  j_cancel_reason : option string;
  j_started_at : option Z;
  j_payload : json;
  j_payload_sha256 : string;
  j_mutex_id : option string;
}.

Definition rv_with_core (c : lease_core) (r : rv_row) : rv_row :=
  {| rv_core := c; j_run_id := j_run_id r; j_review_id := j_review_id r;
     j_installation_id := j_installation_id r; j_delivery_id := j_delivery_id r;
     j_cancel_reason := j_cancel_reason r; j_started_at := j_started_at r;
     j_payload := j_payload r; j_payload_sha256 := j_payload_sha256 r;
     j_mutex_id := j_mutex_id r |}.

#[export] Instance rv_row_job_row : JobRow rv_row :=
  {| core := rv_core; with_core := rv_with_core; core_with := fun _ _ => eq_refl |}.

Definition set_started (at_us : Z) (r : rv_row) : rv_row :=
  {| rv_core := rv_core r; j_run_id := j_run_id r; j_review_id := j_review_id r;
     j_installation_id := j_installation_id r; j_delivery_id := j_delivery_id r;
     j_cancel_reason := j_cancel_reason r;
     j_started_at := Some (default at_us (j_started_at r));
     j_payload := j_payload r; j_payload_sha256 := j_payload_sha256 r;
     j_mutex_id := j_mutex_id r |}.

Definition set_cancel_reason (reason : string) (r : rv_row) : rv_row :=
  {| rv_core := rv_core r; j_run_id := j_run_id r; j_review_id := j_review_id r;
     j_installation_id := j_installation_id r; j_delivery_id := j_delivery_id r;
     j_cancel_reason := Some reason; j_started_at := j_started_at r;
     j_payload := j_payload r; j_payload_sha256 := j_payload_sha256 r;
     j_mutex_id := j_mutex_id r |}.

Definition set_mutex_id (m : string) (r : rv_row) : rv_row :=
  {| rv_core := rv_core r; j_run_id := j_run_id r; j_review_id := j_review_id r;
     j_installation_id := j_installation_id r; j_delivery_id := j_delivery_id r;
     j_cancel_reason := j_cancel_reason r; j_started_at := j_started_at r;
     j_payload := j_payload r; j_payload_sha256 := j_payload_sha256 r;
     j_mutex_id := Some m |}.

Record rv_enqueue_args := RvEnqueueArgs {
  a_run : string;
  a_review : string;
  a_inst : string;
  a_pay : json;
  a_delivery : option string;
  a_prio : option Z;
  a_max : option Z;
}.

Inductive rv_error :=
| PayloadInvalid               (* ZodError *)
| PayloadIntegrity             (* PayloadIntegrityError *)
| JobCheckViolation
| JobPrimaryKeyViolation
| ActiveRunViolation           (* 23505 on [uq_review_jobs_active_run], rethrown *)
| MutexForeignKey
| RunRowViolation              (* a CHECK of [core.review_runs] *)
| DsnMissing.

(** [state IN ('ready','leased')] for a run: the partial unique index. *)
Definition active_core (c : lease_core) : bool :=
  match state c with ready | leased => true | _ => false end.
Definition active_for (run : string) (r : rv_row) : bool :=
  active_core (rv_core r) && String.eqb (j_run_id r) run.

Definition active_rows (run : string) (t : gmap string rv_row) : list (string * rv_row) :=
  filter (fun p => active_for run p.2 = true) (rows t).

(** A string property of the parsed payload. *)
Definition str_field (k : string) (p : json) : option string :=
  match p with
  | JObj kvs => match get k kvs with Some (JStr s) => Some s | _ => None end
  | _ => None
  end.

Definition same_str (o : option string) (s : string) : bool := bool_decide (o = Some s).

(** * The payload checks *)

(** No mismatch between the payload's identity and the envelope's. *)
Definition assertPayloadIdentityMatchesEnvelope (p : json) (a : rv_enqueue_args) : bool :=
  same_str (str_field "run_id" p) (a_run a)
  && same_str (str_field "review_id" p) (a_review a)
  && same_str (str_field "installation_id" p) (a_inst a)
  && match a_delivery a with
     | Some d => same_str (str_field "delivery_id" p) d
     | None => true
     end.

Definition assertPayloadIdentityMatchesJobRow (p : json) (job : rv_row) : bool :=
  same_str (str_field "run_id" p) (j_run_id job)
  && same_str (str_field "review_id" p) (j_review_id job)
  && same_str (str_field "installation_id" p) (j_installation_id job)
  && match j_delivery_id job with
     | Some d => same_str (str_field "delivery_id" p) d
     | None => true
     end.

Section Repo.
Variable sha256hex : string -> string.
Variable zod_uuid zod_datetime : string -> bool.

Definition parse_payload (v : json) : result rv_error json :=
  match parse_review zod_uuid zod_datetime v with
  | Ok p => Ok p
  | Throw _ => Throw PayloadInvalid
  end.

(** ** enqueue *)

Definition new_job (a : rv_enqueue_args) (p : json) (now : Z) : rv_row :=
  {| rv_core :=
       {| state := ready; priority := default 0 (a_prio a); attempts := 0;
          max_attempts := default 3 (a_max a); run_after := now; created_at := now;
          lease_owner := None; attempt_token := None; leased_until := None;
          timeout_at := None; heartbeat_at := None; last_error := None;
          dead_reason := None; finished_at := None |};
     j_run_id := a_run a; j_review_id := a_review a; j_installation_id := a_inst a;
     j_delivery_id := a_delivery a; j_cancel_reason := None; j_started_at := None;
     j_payload := sortKeysDeep p; j_payload_sha256 := sha256hex (canonicalJson p);
     j_mutex_id := None |}.

(** The INSERT, with the table's CHECKs, primary key and partial unique
    index. *)
Definition insert_job (a : rv_enqueue_args) (p : json) (now : Z) (id : string)
    (t : gmap string rv_row) : result rv_error (gmap string rv_row) :=
  guard? (0 <=? default 0 (a_prio a)) && (1 <=? default 3 (a_max a)) else JobCheckViolation in
  guard? bool_decide (t !! id = None) else JobPrimaryKeyViolation in
  guard? bool_decide (active_rows (a_run a) t = []) else ActiveRunViolation in
  Ok (<[id := new_job a p now]> t).

Definition isActiveRunUniqueViolation (e : rv_error) : bool :=
  match e with ActiveRunViolation => true | _ => false end.

(** [env] is what other transactions do between the INSERT and the SELECT. *)
Definition rv_enqueue (a : rv_enqueue_args) (id : string) (now : Z)
    (env : gmap string rv_row -> gmap string rv_row) (t : gmap string rv_row)
    : result rv_error (gmap string rv_row * string) :=
  let? p := parse_payload (a_pay a) in
  guard? assertPayloadIdentityMatchesEnvelope p a else PayloadIntegrity in
  match insert_job a p now id t with
  | Ok t' => Ok (t', id)
  | Throw e =>
      if isActiveRunUniqueViolation e then
        let t' := env t in
        match head (filter (fun q => j_installation_id q.2 = a_inst a) (active_rows (a_run a) t')) with
        | Some q => Ok (t', q.1)
        | None => Throw e
        end
      else Throw e
  end.

(** ** verifyPayload *)

Definition rv_verifyPayload (job : rv_row) : result rv_error json :=
  let? p := parse_payload (j_payload job) in
  guard? String.eqb (sha256hex (canonicalJson p)) (j_payload_sha256 job) else PayloadIntegrity in
  guard? assertPayloadIdentityMatchesJobRow p job else PayloadIntegrity in
  Ok p.
End Repo.

(** * The fenced single-row statements *)

Definition rv_getById (id : string) (t : gmap string rv_row) : option rv_row := t !! id.

Definition rv_claim (owner token : string) (leaseMs maxRuntimeMs : Z) (locked : gset string)
    (now : Z) (t : gmap string rv_row) : gmap string rv_row * option (string * rv_row) :=
  match claim_pick locked now t with
  | None => (t, None)
  | Some (id, r) =>
      let r' := set_started now (with_core (core_claim now owner token leaseMs maxRuntimeMs (core r)) r) in
      (<[id := r']> t, Some (id, r'))
  end.

Definition rv_heartbeat (id owner token : string) (leaseMs now : Z) (t : gmap string rv_row)
    : gmap string rv_row * bool :=
  fenced_update (fun c => now_lt_opt_or_null now (timeout_at c))
    (fun r => with_core (core_heartbeat now leaseMs (core r)) r) id owner token t.

Definition rv_markDone (id owner token : string) (now : Z) (t : gmap string rv_row)
    : gmap string rv_row * bool :=
  fenced_update (fun _ => true) (fun r => with_core (core_finish done now (core r)) r) id owner token t.

(** The cancelled branch of [terminalSettle] and [markCancelled]. *)
Definition cancel_job (reason : string) (now : Z) (r : rv_row) : rv_row :=
  set_cancel_reason (left2000 reason) (with_core (core_finish cancelled now (core r)) r).
Definition kill_job (reason : string) (now : Z) (r : rv_row) : rv_row :=
  with_core (set_dead_reason (Some (left2000 reason)) (core_finish dead now (core r))) r.

Definition markCancelled (id owner token reason : string) (now : Z) (t : gmap string rv_row)
    : gmap string rv_row * bool :=
  fenced_update (fun _ => true) (cancel_job reason now) id owner token t.

(** [mutex_id] references [core.pr_review_mutex]. *)
Definition persistMutexId (id owner token m : string) (mutexes : gmap string mutex_row)
    (t : gmap string rv_row) : result rv_error (gmap string rv_row * bool) :=
  let '(t', applied) := fenced_update (fun _ => true) (set_mutex_id m) id owner token t in
  guard? negb applied || bool_decide (is_Some (mutexes !! m)) else MutexForeignKey in
  Ok (t', applied).

Definition readMutexRow (m : string) (mutexes : gmap string mutex_row) : option mutex_row :=
  mutexes !! m.

Definition rv_markFailed (id owner token error : string) (baseBackoffMs : Z) (rnd : Q) (now : Z)
    (t : gmap string rv_row) : gmap string rv_row * (bool * bool) :=
  let '(t', applied) := fenced_update (fun _ => true)
    (fun r => with_core (core_failed now error baseBackoffMs rnd (core r)) r) id owner token t in
  (t', (applied,
        applied && match t' !! id with
                   | Some r => bool_decide (state (core r) = dead)
                   | None => false
                   end)).

Definition rv_deferRetry (id owner token error : string) (runAfter : Z) (t : gmap string rv_row)
    : gmap string rv_row * bool :=
  fenced_update (fun _ => true) (fun r => with_core (core_defer error runAfter (core r)) r)
    id owner token t.

(** * terminalSettle: job and run in one transaction *)

Inductive settle_job := SettleCancelled | SettleDead.
Inductive settle_run := RunCancelled | RunFailed.

(** [SET lifecycle_state = 'CANCELLED', cancelled_at = now(), cancel_reason]. *)
Definition cancel_run (reason : string) (now : Z) (r : run_row) : run_row :=
  let r' := set_lifecycle CANCELLED now r in
  {| run_review := run_review r'; trigger_type := trigger_type r';
     lifecycle_state := lifecycle_state r'; cancel_reason := Some reason;
     superseded_by_run_id := superseded_by_run_id r'; completed_at := completed_at r';
     failed_at := failed_at r'; cancelled_at := cancelled_at r';
     attempt_number := attempt_number r'; parent_run_id := parent_run_id r';
     supersedes_run_id := supersedes_run_id r' |}.

Definition settle_run_row (s : settle_run) (runCancelReason : option string) (now : Z) (r : run_row)
    : run_row :=
  match s with
  | RunCancelled => cancel_run (default "operator_cancelled" runCancelReason) now r
  | RunFailed => set_lifecycle FAILED now r
  end.

(** A throw rolls both writes back: the caller keeps the state it had. *)
Definition rv_terminalSettle (id owner token run : string) (js : settle_job) (rs : settle_run)
    (reason : string) (runCancelReason : option string) (now : Z)
    (t : gmap string rv_row) (runs : gmap string run_row)
    : result rv_error (gmap string rv_row * gmap string run_row * bool) :=
  let '(t', affected) := fenced_update (fun _ => true)
    (match js with SettleCancelled => cancel_job reason now | SettleDead => kill_job reason now end)
    id owner token t in
  if negb affected then Ok (t', runs, false)
  else match update_run (settle_run_row rs runCancelReason now) run runs with
       | None => Throw RunRowViolation
       | Some runs' => Ok (t', runs', true)
       end.

(** * reapStuckRuns *)

Record rv_world := RvWorld {
  w_jobs : gmap string rv_row;
  w_db : core_db;
  w_mutexes : gmap string mutex_row;
  w_audit : list audit_event;
}.

Definition REAP_STUCK_RUNS_SWEEP_LIMIT : nat := 500.

(** [ORDER BY leased_until]. *)
Definition leased_until_leb (x y : string * rv_row) : bool :=
  match leased_until (rv_core x.2), leased_until (rv_core y.2) with
  | _, None => true
  | None, Some _ => false
  | Some a, Some b => a <=? b
  end.

Definition reap_batch (limit : nat) (locked : gset string) (now : Z) (t : gmap string rv_row)
    : list (string * rv_row) :=
  take limit (sort_by leased_until_leb
    (filter (fun p => (p.1 ∉ locked) /\ stuck now (rv_core p.2) = true) (rows t))).

(** The [reaped] CTE: one UPDATE of the batch. *)
Definition reap_jobs (batch : list (string * rv_row)) (now : Z) (t : gmap string rv_row)
    : gmap string rv_row :=
  update_where (fun k _ => bool_decide (k ∈ map fst batch))
    (fun r => with_core (core_reap now (core r)) r) t.

(** The joined SELECT keeps the jobs whose run and review exist; the
    installation comes from a LEFT JOIN. *)
Definition reap_install (db : core_db) (job : rv_row) : option (option string) :=
  match runs db !! j_run_id job with
  | None => None
  | Some r => match reviews db !! run_review r with
              | None => None
              | Some v => Some (match repositories db !! repo_id v with Some i => i | None => None end)
              end
  end.

(** Steps (2)-(4) for one reaped row. *)
Definition reap_one (now : Z) (acc : result rv_error (rv_world * nat)) (p : string * rv_row)
    : result rv_error (rv_world * nat) :=
  let? (w, n) := acc in
  match reap_install (w_db w) p.2 with
  | None => Ok (w, n)
  | Some inst =>
      match update_run (cancel_run "timeout" now) (j_run_id p.2) (runs (w_db w)) with
      | None => Throw RunRowViolation
      | Some runs' =>
          Ok (RvWorld (w_jobs w)
                (CoreDb runs' (reviews (w_db w)) (repositories (w_db w)) (events (w_db w)))
                (match j_mutex_id p.2 with
                 | Some m => (update_live None (set_released now) m (w_mutexes w)).1
                 | None => w_mutexes w
                 end)
                (match inst with
                 | Some i => w_audit w ++ [AuditEvent "review_run.reaped" "review_run" (j_run_id p.2) i]
                 | None => w_audit w
                 end), S n)
      end
  end.

(** One transaction: a throw leaves the world as it was. *)
Definition rv_reapStuckRuns (dsn : option string) (limit : nat) (locked : gset string) (now : Z)
    (w : rv_world) : rv_world * result rv_error nat :=
  match dsn with
  | None | Some "" => (w, Throw DsnMissing)
  | Some _ =>
      let batch := reap_batch limit locked now (w_jobs w) in
      let w1 := RvWorld (reap_jobs batch now (w_jobs w)) (w_db w) (w_mutexes w) (w_audit w) in
      match fold_left (reap_one now) batch (Ok (w1, 0%nat)) with
      | Ok (w', n) => (w', Ok n)
      | Throw e => (w, Throw e)
      end
  end.

(** * The queue as a transition system *)

Record rv_state := RvState { rv_jobs : gmap string rv_row; rv_issued : gset string }.

Section Steps.
Variable sha256hex : string -> string.

(** One committed transaction of any client, as the job table sees it. *)
Inductive rv_step (s : rv_state) : rv_state -> Prop :=
| rs_insert a p now id t' :
    insert_job sha256hex a p now id (rv_jobs s) = Ok t' -> rv_step s (RvState t' (rv_issued s))
| rs_claim owner token leaseMs maxRuntimeMs locked now :
    token ∉ rv_issued s ->
    rv_step s (RvState (rv_claim owner token leaseMs maxRuntimeMs locked now (rv_jobs s)).1
                       ({[token]} ∪ rv_issued s))
| rs_heartbeat id owner token leaseMs now :
    rv_step s (RvState (rv_heartbeat id owner token leaseMs now (rv_jobs s)).1 (rv_issued s))
| rs_mark_done id owner token now :
    rv_step s (RvState (rv_markDone id owner token now (rv_jobs s)).1 (rv_issued s))
| rs_mark_cancelled id owner token reason now :
    rv_step s (RvState (markCancelled id owner token reason now (rv_jobs s)).1 (rv_issued s))
| rs_persist id owner token m mutexes t' b :
    persistMutexId id owner token m mutexes (rv_jobs s) = Ok (t', b) ->
    rv_step s (RvState t' (rv_issued s))
| rs_mark_failed id owner token error base rnd now :
    rv_step s (RvState (rv_markFailed id owner token error base rnd now (rv_jobs s)).1 (rv_issued s))
| rs_defer id owner token error runAfter :
    rv_step s (RvState (rv_deferRetry id owner token error runAfter (rv_jobs s)).1 (rv_issued s))
| rs_settle id owner token run js runst reason rcr now runs t' runs' b :
    rv_terminalSettle id owner token run js runst reason rcr now (rv_jobs s) runs = Ok (t', runs', b) ->
    rv_step s (RvState t' (rv_issued s))
| rs_reap limit locked now :
    rv_step s (RvState (reap_jobs (reap_batch limit locked now (rv_jobs s)) now (rv_jobs s))
                       (rv_issued s)).

Inductive rv_steps (s : rv_state) : rv_state -> Prop :=
| rv_steps_refl : rv_steps s s
| rv_steps_step s1 s2 : rv_steps s s1 -> rv_step s1 s2 -> rv_steps s s2.
End Steps.

Definition rv_init : rv_state := RvState ∅ ∅.

(** The columns no statement rewrites. *)
Definition same_job (r r' : rv_row) : Prop :=
  j_run_id r' = j_run_id r /\ j_review_id r' = j_review_id r /\
  j_installation_id r' = j_installation_id r /\ j_delivery_id r' = j_delivery_id r /\
  j_payload r' = j_payload r /\ j_payload_sha256 r' = j_payload_sha256 r.

#[export] Instance same_job_refl : Reflexive same_job.
Proof. by intros []. Qed.

Lemma insert_job_ok sha a p now id t t' :
  insert_job sha a p now id t = Ok t' ->
  t' = <[id := new_job sha a p now]> t /\ t !! id = None /\ active_rows (a_run a) t = [] /\
  fresh_core (core (new_job sha a p now)).
Proof.
  unfold insert_job. destruct (_ && _) eqn:E; [|discriminate].
  destruct (bool_decide (t !! id = None)) eqn:E1; [|discriminate].
  destruct (bool_decide (active_rows _ _ = _)) eqn:E2; [|discriminate].
  intros [= <-]. bool_to_prop. split_and!; try done.
Qed.

Lemma reap_batch_elem limit locked now t p :
  p ∈ reap_batch limit locked now t ->
  t !! p.1 = Some p.2 /\ (p.1 ∉ locked) /\ stuck now (rv_core p.2) = true.
Proof.
  unfold reap_batch. intros H. apply (subseteq_take _ _) in H.
  apply elem_of_sort_by, list_elem_of_filter in H as [[? ?] Hin]. destruct p. by apply elem_of_rows in Hin.
Qed.

Lemma lookup_reap_jobs batch now t k :
  reap_jobs batch now t !! k =
  (fun r => if bool_decide (k ∈ map fst batch) then with_core (core_reap now (core r)) r else r) <$> t !! k.
Proof. unfold reap_jobs. by rewrite lookup_update_where. Qed.

Lemma reap_batch_key limit locked now t k r :
  t !! k = Some r -> k ∈ map fst (reap_batch limit locked now t) -> stuck now (rv_core r) = true.
Proof.
  intros Hk Hin. apply list_elem_of_In, in_map_iff in Hin as ([j q] & <- & Hq%list_elem_of_In).
  apply reap_batch_elem in Hq as (Hj & _ & Hs). simpl in *. congruence.
Qed.

Lemma settle_ok id owner token run js rs reason rcr now t runs t' runs' b :
  rv_terminalSettle id owner token run js rs reason rcr now t runs = Ok (t', runs', b) ->
  fenced_update (fun _ => true)
    (match js with SettleCancelled => cancel_job reason now | SettleDead => kill_job reason now end)
    id owner token t = (t', b) /\
  (b = false -> runs' = runs) /\
  (b = true -> update_run (settle_run_row rs rcr now) run runs = Some runs').
Proof.
  unfold rv_terminalSettle. destruct (fenced_update _ _ _ _ _ _) as [t1 [|]] eqn:E; simpl.
  - destruct (update_run _ _ _) as [runs1|] eqn:Eu; [|discriminate]. by intros [= <- <- <-].
  - by intros [= <- <- <-].
Qed.

(** Every transaction moves every job by the abstract lifecycle. *)
Lemma rv_step_table sha s s' :
  rv_step sha s s' -> exists fresh,
    rv_issued s' = grant fresh (rv_issued s) /\
    table_step same_job (rv_issued s) fresh (rv_jobs s) (rv_jobs s').
Proof.
  intros [a p now id t' Hi|owner token l m locked now Hfr| | | |id owner token m mx t' b Hp
         |id owner token error base rnd now| |id owner token run js rst reason rcr now rn t' rn' b Hs|limit locked now];
    simpl;
    try (exists None; split; [done|]; apply table_step_fenced; [apply _|]; intros r Hf Hg;
         split; [|done]; simpl; eauto with codemaster).
  - exists None. split; [done|]. apply insert_job_ok in Hi as (-> & Hn & _ & Hf).
    by apply table_step_insert.
  - exists (Some token). split; [done|]. unfold rv_claim.
    destruct (claim_pick _ _ _) as [[k r]|] eqn:E; [|by apply table_step_refl].
    apply claim_pick_some in E as (Hk & _ & Hc & _).
    eapply table_step_update; [apply _|done|simpl; by eapply cs_claim|done].
  - exists None. split; [done|]. unfold persistMutexId in Hp.
    destruct (fenced_update _ _ _ _ _ _) as [t1 b1] eqn:E. destruct (_ || _); [|discriminate].
    injection Hp as <- <-. change t1 with (t1, b1).1. rewrite <- E.
    apply table_step_fenced; [apply _|]. intros r Hf Hg. split; [|done]. simpl. constructor.
  - exists None. split; [done|]. unfold rv_markFailed.
    destruct (fenced_update _ _ _ _ _ _) as [t1 b1] eqn:E. change t1 with (t1, b1).1. rewrite <- E.
    apply table_step_fenced; [apply _|]. intros r Hf Hg. split; [|done]. simpl.
    eauto with codemaster.
  - exists None. split; [done|]. apply settle_ok in Hs as [E _]. change t' with (t', b).1. rewrite <- E.
    apply table_step_fenced; [apply _|]. intros r Hf Hg.
    destruct js; (split; [|done]); simpl; [eapply cs_finish; eauto|eapply cs_dead; eauto].
  - exists None. split; [done|]. intros k. rewrite lookup_reap_jobs.
    destruct (rv_jobs s !! k) as [r|] eqn:Hk; simpl; [|done].
    destruct (bool_decide _) eqn:E; [|by split; [constructor|]]. apply bool_decide_eq_true in E.
    split; [|done]. simpl. constructor. by eapply reap_batch_key.
Qed.

Lemma active_for_true run r :
  active_for run r = true <-> terminal (rv_core r) = false /\ j_run_id r = run.
Proof.
  unfold active_for, active_core, terminal. rewrite andb_true_iff, String.eqb_eq.
  destruct (state (rv_core r)); split; intros [? ?]; done.
Qed.

Lemma active_rows_none run t k r :
  active_rows run t = [] -> t !! k = Some r -> active_for run r = false.
Proof.
  intros Hn Hk. destruct (active_for run r) eqn:E; [|done].
  assert (Hin : (k, r) ∈ active_rows run t)
    by (apply list_elem_of_filter; split; [done|by apply elem_of_rows]).
  rewrite Hn in Hin. by apply elem_of_nil in Hin.
Qed.

Lemma fenced_keeps_none guard g id owner token (t : gmap string rv_row) t' b k :
  fenced_update guard g id owner token t = (t', b) -> t !! k = None -> t' !! k = None.
Proof.
  intros E Hn. pose proof (proj2 (fenced_update_None guard g id owner token t k) Hn) as H.
  by rewrite E in H.
Qed.

(** A transaction that adds a job is an INSERT under a run without active job. *)
Lemma rv_step_new sha s s' k r' :
  rv_step sha s s' -> rv_jobs s !! k = None -> rv_jobs s' !! k = Some r' ->
  rv_jobs s' = <[k := r']> (rv_jobs s) /\ active_rows (j_run_id r') (rv_jobs s) = [].
Proof.
  intros Hs Hn Hk. destruct Hs as [a p now id t' Hi| | | | |id owner token m mx t' b Hp| | |
    id owner token run js rst reason rcr now rn t' rn' b Hs|limit locked now]; simpl in *;
    try (by apply (fenced_update_None) in Hn; rewrite Hn in Hk).
  - apply insert_job_ok in Hi as (-> & Hid & Hact & _).
    destruct (decide (id = k)) as [->|Hne]; [|rewrite lookup_insert_ne in Hk; congruence].
    rewrite lookup_insert_eq in Hk. injection Hk as <-. done.
  - unfold rv_claim in Hk. destruct (claim_pick _ _ _) as [[j r]|] eqn:E; [|simpl in Hk; congruence].
    apply claim_pick_some in E as (Hj & _). simpl in Hk.
    rewrite lookup_insert_ne in Hk by congruence. congruence.
  - exfalso. unfold rv_heartbeat in Hk. apply (fenced_update_None (fun c => now_lt_opt_or_null now (timeout_at c))
      (fun r => with_core (core_heartbeat now leaseMs (core r)) r) id owner token) in Hn. congruence.
  - exfalso. unfold rv_markDone in Hk. apply (fenced_update_None (fun _ => true)
      (fun r => with_core (core_finish done now (core r)) r) id owner token) in Hn. congruence.
  - exfalso. unfold markCancelled in Hk. apply (fenced_update_None (fun _ => true)
      (cancel_job reason now) id owner token) in Hn. congruence.
  - unfold persistMutexId in Hp. destruct (fenced_update _ _ _ _ _ _) as [t1 b1] eqn:E.
    destruct (_ || _); [|discriminate]. injection Hp as <- <-.
    rewrite (fenced_keeps_none _ _ _ _ _ _ _ _ _ E Hn) in Hk. discriminate.
  - unfold rv_markFailed in Hk. destruct (fenced_update _ _ _ _ _ _) as [t1 b1] eqn:E. simpl in Hk.
    rewrite (fenced_keeps_none _ _ _ _ _ _ _ _ _ E Hn) in Hk. discriminate.
  - exfalso. unfold rv_deferRetry in Hk. apply (fenced_update_None (fun _ => true)
      (fun r => with_core (core_defer error runAfter (core r)) r) id owner token) in Hn. congruence.
  - apply settle_ok in Hs as [E _].
    rewrite (fenced_keeps_none _ _ _ _ _ _ _ _ _ E Hn) in Hk. discriminate.
  - rewrite lookup_reap_jobs, Hn in Hk. discriminate.
Qed.

(** At most one active job per run, every row well formed, every token
    issued. *)
Definition rv_inv (s : rv_state) : Prop :=
  table_wf (rv_issued s) (rv_jobs s) /\ unique_holder active_for (rv_jobs s).

Lemma rv_step_inv sha s s' : rv_step sha s s' -> rv_inv s -> rv_inv s'.
Proof.
  intros Hs [Hwf Hu]. destruct (rv_step_table _ _ _ Hs) as (fresh & Hg & Ht). split.
  - rewrite Hg. eapply table_step_wf; [exact Ht|exact Hwf].
  - eapply (table_step_unique same_job active_for); [| |exact Ht|exact Hu].
    + intros c r r' key Hc <- (Er & _) Ha. apply active_for_true in Ha as [Ha Hk].
      apply active_for_true. split; [|congruence]. by eapply core_step_active.
    + intros k r' Hn Hk. destruct (rv_step_new _ _ _ _ _ Hs Hn Hk) as [E Hno]. split; [done|].
      intros key j q Hj Ha. apply active_for_true in Ha as [_ <-]. by eapply active_rows_none.
Qed.

Lemma rv_steps_inv sha s s' : rv_steps sha s s' -> rv_inv s -> rv_inv s'.
Proof. induction 1; eauto using rv_step_inv. Qed.

Lemma rv_init_inv : rv_inv rv_init.
Proof.
  split; [intros k r H|intros key k1 r1 k2 r2 H]; simpl in H; rewrite lookup_empty in H; discriminate.
Qed.

(** ** The sweep, row by row *)

Definition timed_out (now : Z) (r : run_row) : Prop :=
  lifecycle_state r = CANCELLED /\ cancel_reason r = Some "timeout" /\ cancelled_at r = Some now.

(** The rows the joined SELECT hands to steps (2)-(4). *)
Definition driven (db : core_db) (p : string * rv_row) : Prop := is_Some (reap_install db p.2).

Lemma reap_install_runs db db' job :
  reviews db' = reviews db -> repositories db' = repositories db ->
  (forall k, run_review <$> runs db' !! k = run_review <$> runs db !! k) ->
  reap_install db' job = reap_install db job.
Proof.
  intros Hv Hr Hk. unfold reap_install. specialize (Hk (j_run_id job)).
  destruct (runs db' !! j_run_id job), (runs db !! j_run_id job); try done.
  simpl in Hk. injection Hk as ->. by rewrite Hv, Hr.
Qed.

(** What one processed row does to the world. *)
Record reap_effect (now : Z) (batch : list (string * rv_row)) (w w' : rv_world) : Prop := {
  re_jobs : w_jobs w' = w_jobs w;
  re_reviews : reviews (w_db w') = reviews (w_db w);
  re_repos : repositories (w_db w') = repositories (w_db w);
  re_events : events (w_db w') = events (w_db w);
  re_review_of : forall k, run_review <$> runs (w_db w') !! k = run_review <$> runs (w_db w) !! k;
  re_checks : all_checks (runs (w_db w)) -> all_checks (runs (w_db w'));
  re_other : forall k, (forall p, p ∈ batch -> j_run_id p.2 <> k) ->
    runs (w_db w') !! k = runs (w_db w) !! k;
  re_mutexes : moves (w_mutexes w) (w_mutexes w');
  re_kept : forall k q, runs (w_db w) !! k = Some q -> timed_out now q ->
    exists q', runs (w_db w') !! k = Some q' /\ timed_out now q';
  re_done : forall p, p ∈ batch -> driven (w_db w) p ->
    (exists q', runs (w_db w') !! j_run_id p.2 = Some q' /\ timed_out now q') /\
    (forall m r, j_mutex_id p.2 = Some m -> w_mutexes w' !! m = Some r -> live r = false);
}.

Lemma reap_effect_refl now w : reap_effect now [] w w.
Proof.
  constructor; try done; [apply moves_refl|eauto|]. intros p Hp. by apply elem_of_nil in Hp.
Qed.

Lemma reap_one_effect now w n p w' n' :
  reap_one now (Ok (w, n)) p = Ok (w', n') -> reap_effect now [p] w w'.
Proof.
  unfold reap_one. simpl. destruct (reap_install (w_db w) p.2) as [inst|] eqn:Ei.
  2:{ intros [= <- <-]. constructor; try done; [apply moves_refl|eauto|].
      intros q Hq. apply list_elem_of_singleton in Hq as ->. intros [? E]. congruence. }
  destruct (update_run _ _ _) as [runs'|] eqn:Eu; [|discriminate]. intros [= <- <-].
  pose proof (update_run_checks _ _ _ _ Eu) as Hc.
  assert (Hq : exists q, runs (w_db w) !! j_run_id p.2 = Some q).
  { unfold reap_install in Ei. destruct (runs (w_db w) !! j_run_id p.2); [eauto|discriminate]. }
  destruct Hq as [q Hq]. unfold update_run in Eu. rewrite Hq in Eu.
  destruct (run_checks _); [|discriminate]. injection Eu as <-.
  assert (Hmv : moves (w_mutexes w) match j_mutex_id p.2 with
      | Some m => (update_live None (set_released now) m (w_mutexes w)).1
      | None => w_mutexes w
      end).
  { destruct (j_mutex_id p.2); [|apply moves_refl].
    apply update_live_moves. intros r Hr. by apply set_released_moves. }
  constructor; simpl; try done.
  - intros k. destruct (decide (k = j_run_id p.2)) as [->|]; [by rewrite lookup_insert_eq, Hq|].
    by rewrite lookup_insert_ne.
  - intros k Hk. rewrite lookup_insert_ne; [done|]. apply (Hk p). apply list_elem_of_singleton. done.
  - intros k r Hr Ht. destruct (decide (k = j_run_id p.2)) as [->|].
    + rewrite lookup_insert_eq. eexists. done.
    + rewrite lookup_insert_ne by done. eauto.
  - intros p' Hp' _. apply list_elem_of_singleton in Hp' as ->. split.
    + rewrite lookup_insert_eq. eexists. done.
    + intros m r Em. rewrite Em. unfold update_live.
      destruct (w_mutexes w !! m) as [x|] eqn:Ex; [|simpl; congruence].
      destruct (live x) eqn:El; simpl; [|congruence].
      rewrite lookup_insert_eq. by intros [= <-].
Qed.

Lemma reap_effect_app now b1 b2 w1 w2 w3 :
  reap_effect now b1 w1 w2 -> reap_effect now b2 w2 w3 -> reap_effect now (b1 ++ b2) w1 w3.
Proof.
  intros E1 E2. destruct E1 as [J1 V1 P1 N1 W1 C1 O1 M1 K1 D1], E2 as [J2 V2 P2 N2 W2 C2 O2 M2 K2 D2].
  constructor; try congruence; auto.
  - intros k Hk. rewrite O2, O1; [done| |]; intros p Hp; apply Hk, elem_of_app; auto.
  - by eapply moves_trans.
  - intros k q Hq Ht. destruct (K1 k q Hq Ht) as (q' & Hq' & Ht'). eauto.
  - intros p Hp Hd. apply elem_of_app in Hp as [Hp|Hp].
    + destruct (D1 p Hp Hd) as [(q' & Hq' & Ht') Hm]. split; [eauto|].
      intros m r Em Hr. specialize (M2 m). rewrite Hr in M2.
      destruct (w_mutexes w2 !! m) as [x|] eqn:Ex; [|done].
      specialize (Hm m x Em Ex). destruct M2 as (_ & M2 & _). by rewrite (M2 Hm).
    + apply D2; [done|]. unfold driven. by rewrite (reap_install_runs (w_db w1)).
Qed.

Lemma reap_fold_throw now batch e : fold_left (reap_one now) batch (Throw e) = Throw e.
Proof. by induction batch. Qed.

Lemma reap_fold_effect now batch w n w' n' :
  fold_left (reap_one now) batch (Ok (w, n)) = Ok (w', n') -> reap_effect now batch w w'.
Proof.
  revert w n. induction batch as [|p batch IH]; intros w n H; cbn [fold_left] in H.
  - injection H as <- <-. apply reap_effect_refl.
  - destruct (reap_one now (Ok (w, n)) p) as [[w1 n1]|e] eqn:E;
      [|rewrite reap_fold_throw in H; discriminate].
    change (p :: batch) with ([p] ++ batch).
    eapply reap_effect_app; [by eapply reap_one_effect|by eapply IH].
Qed.

(** A run that is COMPLETED or FAILED cannot be cancelled. *)
Lemma cancel_run_stamped now r :
  run_checks r = true -> lifecycle_state r = COMPLETED \/ lifecycle_state r = FAILED ->
  run_checks (cancel_run "timeout" now r) = false.
Proof.
  intros Hr Hs. apply not_true_iff_false. intros H.
  apply run_checks_true in Hr as (_ & Hco & Hf & _), H as (_ & Hco' & Hf' & _).
  simpl in *. destruct Hs as [Hs|Hs].
  - destruct Hco as [Hco _]. destruct Hco' as [_ Hco']. discriminate (Hco' (Hco Hs)).
  - destruct Hf as [Hf _]. destruct Hf' as [_ Hf']. discriminate (Hf' (Hf Hs)).
Qed.

Lemma reap_fold_poison now batch w n p q :
  p ∈ batch -> runs (w_db w) !! j_run_id p.2 = Some q -> run_checks q = true ->
  lifecycle_state q = COMPLETED \/ lifecycle_state q = FAILED ->
  is_Some (reviews (w_db w) !! run_review q) ->
  fold_left (reap_one now) batch (Ok (w, n)) = Throw RunRowViolation.
Proof.
  revert w n. induction batch as [|p0 batch IH]; intros w n Hp Hq Hc Hs Hv; [by apply elem_of_nil in Hp|].
  cbn [fold_left].
  assert (Hbad : forall p1, j_run_id p1.2 = j_run_id p.2 ->
    reap_one now (Ok (w, n)) p1 = Throw RunRowViolation).
  { intros p1 E. unfold reap_one. simpl. unfold reap_install. rewrite E, Hq.
    destruct Hv as [v ->]. unfold update_run. by rewrite Hq, cancel_run_stamped. }
  destruct (decide (j_run_id p0.2 = j_run_id p.2)) as [E|Hne].
  { rewrite Hbad by done. apply reap_fold_throw. }
  apply elem_of_cons in Hp as [->|Hp]; [done|].
  destruct (reap_one now (Ok (w, n)) p0) as [[w1 n1]|e] eqn:E1.
  - pose proof (reap_one_effect _ _ _ _ _ _ E1) as Ef. apply IH; try done.
    + rewrite (re_other _ _ _ _ Ef); [done|]. intros p' Hp'. by apply list_elem_of_singleton in Hp' as ->.
    + by rewrite (re_reviews _ _ _ _ Ef).
  - rewrite reap_fold_throw. f_equal. revert E1. unfold reap_one. simpl.
    destruct (reap_install _ _); [|discriminate]. destruct (update_run _ _ _); congruence.
Qed.

(** ** The active job of a run *)

Lemma active_rows_elem run t k r :
  (k, r) ∈ active_rows run t <-> t !! k = Some r /\ active_for run r = true.
Proof. unfold active_rows. rewrite list_elem_of_filter, elem_of_rows. simpl. tauto. Qed.

Lemma active_head_unique run t k r inst :
  unique_holder active_for t -> t !! k = Some r -> active_for run r = true ->
  j_installation_id r = inst ->
  head (filter (fun q => j_installation_id q.2 = inst) (active_rows run t)) = Some (k, r).
Proof.
  intros Hu Hk Ha Hi.
  assert (Hin : (k, r) ∈ filter (fun q => j_installation_id q.2 = inst) (active_rows run t))
    by (apply list_elem_of_filter; split; [done|by apply active_rows_elem]).
  destruct (filter _ _) as [|[j q] l] eqn:E; [by apply elem_of_nil in Hin|].
  assert (Hq : (j, q) ∈ filter (fun q => j_installation_id q.2 = inst) (active_rows run t))
    by (rewrite E; apply elem_of_cons; auto).
  apply list_elem_of_filter in Hq as [_ Hq]. apply active_rows_elem in Hq as [Hj Hqa].
  assert (j = k) as -> by by eapply (Hu run). simpl. congruence.
Qed.

(** * Properties *)

(** C4: whatever transactions the queue's clients commit in whatever order,
    from the empty table on, every review job satisfies the lease invariant,
    every token was issued, and a run has at most one active job. *)
Theorem rv_reachable_invariant sha256hex s : rv_steps sha256hex rv_init s -> rv_inv s.
Proof. intros Hs. eapply rv_steps_inv; [exact Hs|]. apply rv_init_inv. Qed.

(** Job and run settle together.  When [terminalSettle] reports
    [applied], the caller held the lease, the job is settled in the asked state
    and (if the run exists) the run is in the asked state with its stamp; when
    it reports [applied:false] the caller did not hold the lease and neither
    table changed.  It throws only under the lease, when the run's CHECKs
    refuse, and then (rolled back) nothing changed either.  Other jobs and
    runs are never touched, and the CHECKs hold afterwards. *)
Theorem rv_terminalSettle_lockstep id owner token run js rs reason rcr now t runs :
  all_checks runs ->
  match rv_terminalSettle id owner token run js rs reason rcr now t runs with
  | Ok (t', runs', true) =>
      (exists r r', t !! id = Some r /\ fence owner token (core r) = true /\
         t' = <[id := r']> t /\ lease_cleared (core r') /\ finished_at (core r') = Some now /\
         state (core r') = match js with SettleCancelled => cancelled | SettleDead => dead end) /\
      (forall k, k <> run -> runs' !! k = runs !! k) /\ all_checks runs' /\
      forall q, runs !! run = Some q -> exists q', runs' !! run = Some q' /\
        match rs with
        | RunCancelled => lifecycle_state q' = CANCELLED /\ cancelled_at q' = Some now
        | RunFailed => lifecycle_state q' = FAILED /\ failed_at q' = Some now
        end
  | Ok (t', runs', false) =>
      t' = t /\ runs' = runs /\ forall r, t !! id = Some r -> fence owner token (core r) = false
  | Throw e => e = RunRowViolation /\
      (exists r, t !! id = Some r /\ fence owner token (core r) = true) /\ is_Some (runs !! run)
  end.
Proof.
  intros Hall. unfold rv_terminalSettle, fenced_update.
  destruct (t !! id) as [r|] eqn:Hr; simpl; [|done].
  destruct (fence owner token (rv_core r)) eqn:Hf; simpl; [|by split_and!; try done; intros ? [= <-]].
  destruct (update_run _ _ _) as [runs'|] eqn:Eu.
  - pose proof (update_run_checks _ _ _ _ Eu Hall) as Hall'. split.
    { exists r. eexists. split_and!; try done; by destruct js. }
    unfold update_run in Eu. destruct (runs !! run) as [q|] eqn:Hq.
    + destruct (run_checks _); [|discriminate]. injection Eu as <-.
      split; [intros k Hk; by rewrite lookup_insert_ne|]. split; [done|].
      intros q0 [= <-]. rewrite lookup_insert_eq. eexists. split; [done|]. by destruct rs.
    + injection Eu as <-. by split_and!.
  - split; [done|]. split; [eauto|]. unfold update_run in Eu.
    destruct (runs !! run); [by eexists|discriminate].
Qed.

(** The stuck-run sweep is one atomic lockstep.  When it returns, exactly
    the rows of its batch (stuck, unlocked, oldest lease first, at most
    [limit]) are dead-lettered; for each of them whose run and review exist
    the run is CANCELLED with reason [timeout] and the PR mutex it held is
    released; no other job and no other run changed, no mutex was revived, and
    the CHECKs of the run table hold.  When it throws, nothing changed. *)
Theorem rv_reap_lockstep dsn limit locked now w :
  all_checks (runs (w_db w)) ->
  match rv_reapStuckRuns dsn limit locked now w with
  | (w', Throw _) => w' = w
  | (w', Ok n) =>
      let batch := reap_batch limit locked now (w_jobs w) in
      (length batch <= limit)%nat /\
      (forall k r, w_jobs w !! k = Some r -> k ∉ map fst batch -> w_jobs w' !! k = Some r) /\
      (forall k r, (k, r) ∈ batch -> stuck now (rv_core r) = true /\
         exists r', w_jobs w' !! k = Some r' /\ state (rv_core r') = dead /\
           lease_cleared (rv_core r')) /\
      (forall p, p ∈ batch -> driven (w_db w) p ->
         (exists q', runs (w_db w') !! j_run_id p.2 = Some q' /\ timed_out now q') /\
         (forall m r, j_mutex_id p.2 = Some m -> w_mutexes w' !! m = Some r -> live r = false)) /\
      (forall k, (forall p, p ∈ batch -> j_run_id p.2 <> k) ->
         runs (w_db w') !! k = runs (w_db w) !! k) /\
      moves (w_mutexes w) (w_mutexes w') /\ all_checks (runs (w_db w'))
  end.
Proof.
  intros Hall. unfold rv_reapStuckRuns.
  destruct dsn as [[|]|]; [done| |done].
  set (batch := reap_batch limit locked now (w_jobs w)).
  destruct (fold_left _ _ _) as [[w' n]|e] eqn:E; [|done].
  apply reap_fold_effect in E. destruct E as [J V P N W C O M K D]. simpl in *.
  split_and!; try done.
  - apply firstn_le_length.
  - intros k r Hk Hn. rewrite J, lookup_reap_jobs, Hk. simpl.
    by rewrite bool_decide_eq_false_2.
  - intros k r Hin. pose proof (reap_batch_elem _ _ _ _ _ Hin) as (Hk & _ & Hst).
    simpl in Hk, Hst. split; [done|]. rewrite J, lookup_reap_jobs, Hk. simpl. rewrite bool_decide_eq_true_2.
    + eexists. split; [done|]. done.
    + apply list_elem_of_In, in_map_iff. exists (k, r). by rewrite <- list_elem_of_In.
  - auto.
Qed.

(** One finished run blocks the whole sweep.  If a stuck job in the batch
    belongs to a run that is already COMPLETED or FAILED (its worker died
    between finishing the run and settling the job, on the last attempt), the
    unconditional cancellation of that run violates the stamp CHECKs: the sweep
    throws and leaves everything, the other stuck jobs included, as it was. *)
Theorem rv_reap_poisoned url limit locked now w k r q :
  url <> "" -> (k, r) ∈ reap_batch limit locked now (w_jobs w) ->
  runs (w_db w) !! j_run_id r = Some q -> run_checks q = true ->
  lifecycle_state q = COMPLETED \/ lifecycle_state q = FAILED ->
  is_Some (reviews (w_db w) !! run_review q) ->
  rv_reapStuckRuns (Some url) limit locked now w = (w, Throw RunRowViolation).
Proof.
  intros Hu Hin Hq Hc Hs Hv. unfold rv_reapStuckRuns. destruct url; [done|].
  by rewrite (reap_fold_poison now _ _ 0%nat (k, r) q).
Qed.

(** Enqueue coalesces redeliveries.  When [enqueue] returns an id, that is
    an active job of the caller's run and tenant, whatever other transactions
    did; without interference, enqueueing the same run again while it is active
    returns the same job and writes nothing; and a payload whose identity
    differs from the envelope's never reaches the table. *)
Theorem rv_enqueue_idempotent sha256hex zu zd a id now env t t' id' :
  unique_holder active_for t ->
  rv_enqueue sha256hex zu zd a id now env t = Ok (t', id') ->
  (exists r, t' !! id' = Some r /\ active_for (a_run a) r = true /\ j_installation_id r = a_inst a) /\
  (exists p, parse_payload zu zd (a_pay a) = Ok p /\ assertPayloadIdentityMatchesEnvelope p a = true) /\
  ((forall u, env u = u) -> forall id2 now2, t' !! id2 = None ->
     rv_enqueue sha256hex zu zd a id2 now2 env t' = Ok (t', id')).
Proof.
  intros Hu H. unfold rv_enqueue in H |- *. apply rbind_ok in H as (p & Hp & H).
  destruct (assertPayloadIdentityMatchesEnvelope p a) eqn:Ea; [|discriminate].
  assert (Hpost : (exists r, t' !! id' = Some r /\ active_for (a_run a) r = true /\
      j_installation_id r = a_inst a) /\
    ((forall u, env u = u) -> unique_holder active_for t') /\
    (0 <=? default 0 (a_prio a)) && (1 <=? default 3 (a_max a)) = true).
  { destruct (insert_job sha256hex a p now id t) as [t1|e] eqn:Ei.
    - injection H as <- <-. pose proof Ei as (-> & Hn & Hact & _)%insert_job_ok. split_and!.
      + eexists. rewrite lookup_insert_eq. split; [done|].
        split; [|done]. apply active_for_true. done.
      + intros _ key k1 r1 k2 r2.
        assert (Hfree : forall j q, t !! j = Some q -> active_for (a_run a) q = false)
          by (intros; by eapply active_rows_none).
        rewrite !lookup_insert_Some. intros [[<- <-]|[? H1]] [[<- <-]|[? H2]] A1 A2; try done.
        * apply active_for_true in A1 as [_ <-]. simpl in A2. by rewrite (Hfree _ _ H2) in A2.
        * apply active_for_true in A2 as [_ <-]. simpl in A1. by rewrite (Hfree _ _ H1) in A1.
        * by eapply Hu.
      + unfold insert_job in Ei. by destruct (_ && _).
    - destruct e; try discriminate. simpl in H.
      destruct (head _) as [[k r]|] eqn:Eh; [|discriminate]. injection H as <- <-.
      assert (Hin : (k, r) ∈ filter (fun q => j_installation_id q.2 = a_inst a)
                                (active_rows (a_run a) (env t))).
      { destruct (filter _ _); [done|]. injection Eh as ->. apply elem_of_cons; auto. }
      apply list_elem_of_filter in Hin as [Hi Hin]. apply active_rows_elem in Hin as [Hk Hact].
      split_and!; [by exists r|by intros ->|]. unfold insert_job in Ei. by destruct (_ && _). }
  destruct Hpost as ((r & Hr & Hact & Hi) & Hu' & Hck).
  split; [by exists r|]. split; [by exists p|]. intros Henv id2 now2 Hn2.
  rewrite Hp. simpl. rewrite Ea. unfold insert_job. rewrite Hck, bool_decide_eq_true_2 by done.
  rewrite bool_decide_eq_false_2.
  - simpl. rewrite Henv. by rewrite (active_head_unique _ _ _ _ _ (Hu' Henv) Hr Hact Hi).
  - intros E. by rewrite (active_rows_none _ _ _ _ E Hr) in Hact.
Qed.

(** The durable workflow argument survives storage.  The row [enqueue]
    inserts, read back with its [jsonb] properties in any order, passes
    [verifyPayload], which returns the very payload [enqueue] parsed. *)
Theorem rv_payload_roundtrip sha256hex zu zd a p now id t t' r r' :
  parse_payload zu zd (a_pay a) = Ok p -> assertPayloadIdentityMatchesEnvelope p a = true ->
  insert_job sha256hex a p now id t = Ok t' -> t' !! id = Some r ->
  same_job r (RvRow (rv_core r') (j_run_id r') (j_review_id r') (j_installation_id r')
                (j_delivery_id r') None None (j_payload r) (j_payload_sha256 r') None) ->
  same_json (j_payload r) (j_payload r') ->
  rv_verifyPayload sha256hex zu zd r' = Ok p.
Proof.
  intros Hp Ha Hi Hr (E1 & E2 & E3 & E4 & _ & E6) Hs. simpl in *.
  apply insert_job_ok in Hi as (-> & _). rewrite lookup_insert_eq in Hr. injection Hr as <-.
  simpl in *. unfold parse_payload in Hp.
  destruct (parse_review zu zd (a_pay a)) as [p0|] eqn:Ep; [|discriminate]. injection Hp as ->.
  unfold rv_verifyPayload, parse_payload.
  rewrite (parse_review_stable zu zd (a_pay a) p (j_payload r'));
    [|done|by eapply same_json_trans; [apply same_sortKeysDeep|]].
  simpl. rewrite E6, String.eqb_refl. simpl.
  assert (assertPayloadIdentityMatchesJobRow p r' = true) as ->; [|done].
  unfold assertPayloadIdentityMatchesJobRow. by rewrite E1, E2, E3, E4.
Qed.

(** * Witnesses *)

Definition ex_sha : string -> string := fun s => "sha:" +:+ s.
Definition any : string -> bool := fun _ => true.
Definition ex_kvs : list (string * json) :=
  [("installation_id", JStr "i1"); ("repository_id", JStr "repo1"); ("pr_id", JStr "pr1");
   ("pr_number", JNum "42"); ("head_sha", JStr "0123456789012345678901234567890123456789");
   ("gh_owner", JStr "o"); ("gh_repo_name", JStr "r"); ("pr_title", JStr "t");
   ("pr_description", JStr ""); ("delivery_id", JStr "d1"); ("policy_revision", JNum "0");
   ("run_id", JStr ex_run_id); ("review_id", JStr "r1")].
Definition ex_args : rv_enqueue_args :=
  RvEnqueueArgs ex_run_id "r1" "i1" (JObj ex_kvs) (Some "d1") None (Some 1).
Definition ex_parsed : json :=
  match parse_payload any any (JObj ex_kvs) with Ok p => p | Throw _ => JNull end.

(** One job with a single attempt, claimed at 10 under a 5 ms lease. *)
Definition ex_job : rv_row := new_job ex_sha ex_args ex_parsed 0.
Definition ex_jobs1 : gmap string rv_row := {[ "job-1" := ex_job ]}.
Definition ex_jobs2 : gmap string rv_row := (rv_claim "w1" "tok1" 5 60000 ∅ 10 ex_jobs1).1.
Definition ex_leased : rv_row :=
  set_started 10 (with_core (core_claim 10 "w1" "tok1" 5 60000 (rv_core ex_job)) ex_job).
Definition ex_world (s : lifecycle) : rv_world := RvWorld ex_jobs2 (ex_db s) ∅ [].

Lemma ex_rv_reach : rv_steps ex_sha rv_init (RvState ex_jobs2 {["tok1"]}).
Proof.
  eapply rv_steps_step; [eapply rv_steps_step; [apply rv_steps_refl|]|].
  - apply (rs_insert _ _ ex_args ex_parsed 0 "job-1" ex_jobs1). vm_compute. reflexivity.
  - change ex_jobs2 with (rv_claim "w1" "tok1" 5 60000 ∅ 10 ex_jobs1).1.
    replace ({["tok1"]} : gset string) with ({["tok1"]} ∪ ∅ : gset string) by set_solver.
    apply rs_claim. simpl. set_solver.
Qed.

Lemma rv_reachable_invariant_witness : rv_inv (RvState ex_jobs2 {["tok1"]}).
Proof. apply (rv_reachable_invariant ex_sha). exact ex_rv_reach. Defined.

Lemma rv_terminalSettle_lockstep_witness :
  exists t' runs', rv_terminalSettle "job-1" "w1" "tok1" ex_run_id SettleDead RunFailed "boom" None 20
      ex_jobs2 (runs (ex_db RUNNING)) = Ok (t', runs', true) /\ all_checks runs'.
Proof.
  generalize (rv_terminalSettle_lockstep "job-1" "w1" "tok1" ex_run_id SettleDead RunFailed "boom" None 20
    ex_jobs2 (runs (ex_db RUNNING)) (ex_db_checks RUNNING)).
  assert (E : exists t' runs', rv_terminalSettle "job-1" "w1" "tok1" ex_run_id SettleDead RunFailed "boom"
    None 20 ex_jobs2 (runs (ex_db RUNNING)) = Ok (t', runs', true))
    by (do 2 eexists; vm_compute; reflexivity).
  destruct E as (t' & runs' & E). rewrite E. intros (_ & _ & H & _). eauto.
Defined.

Lemma rv_reap_lockstep_witness :
  exists n, (rv_reapStuckRuns (Some "pg") 500 ∅ 900000 (ex_world RUNNING)).2 = Ok n /\
  forall p, p ∈ reap_batch 500 ∅ 900000 ex_jobs2 -> driven (ex_db RUNNING) p ->
    exists q', runs (w_db (rv_reapStuckRuns (Some "pg") 500 ∅ 900000 (ex_world RUNNING)).1) !! j_run_id p.2
                 = Some q' /\ timed_out 900000 q'.
Proof.
  pose proof (rv_reap_lockstep (Some "pg") 500 ∅ 900000 (ex_world RUNNING) (ex_db_checks RUNNING)) as H.
  destruct (rv_reapStuckRuns _ _ _ _ _) as [w' [n|e]] eqn:E; [|vm_compute in E; discriminate].
  exists n. split; [done|]. destruct H as (_ & _ & _ & H & _). intros p Hp Hd. by apply H.
Defined.

(** The worker finished the run ([RUNNING] to [COMPLETED], through
    [transitionRun]) and died before settling its last attempt. *)
Lemma rv_reap_poisoned_witness :
  exists db', transitionRun true (ex_transition "RUNNING" "COMPLETED") "e1" 9 (ex_db RUNNING) [] =
    Ok (db', [], APPLIED) /\
  rv_reapStuckRuns (Some "pg") 500 ∅ 900000 (RvWorld ex_jobs2 db' ∅ []) =
    (RvWorld ex_jobs2 db' ∅ [], Throw RunRowViolation).
Proof.
  destruct (transitionRun true (ex_transition "RUNNING" "COMPLETED") "e1" 9 (ex_db RUNNING) [])
    as [[[db' p] o]|] eqn:E; [|vm_compute in E; discriminate].
  exists db'. vm_compute in E. injection E as <- <- <-. split; [done|].
  eapply (rv_reap_poisoned "pg" 500 ∅ 900000 _ "job-1" ex_leased);
    [discriminate| |vm_compute; reflexivity|vm_compute; reflexivity|left; reflexivity|by eexists].
  simpl. replace (reap_batch 500 ∅ 900000 ex_jobs2) with [("job-1", ex_leased)]
    by (vm_compute; reflexivity).
  by apply list_elem_of_singleton.
Defined.

Lemma rv_enqueue_idempotent_witness :
  rv_enqueue ex_sha any any ex_args "job-2" 5 (fun u => u) ex_jobs1 = Ok (ex_jobs1, "job-1").
Proof.
  apply (rv_enqueue_idempotent ex_sha any any ex_args "job-1" 0 (fun u => u) ∅ ex_jobs1 "job-1").
  - intros key k1 r1 k2 r2 H. by rewrite lookup_empty in H.
  - vm_compute. reflexivity.
  - done.
  - reflexivity.
Defined.

Lemma rv_payload_roundtrip_witness : rv_verifyPayload ex_sha any any ex_leased = Ok ex_parsed.
Proof.
  apply (rv_payload_roundtrip ex_sha any any ex_args ex_parsed 0 "job-1" ∅ ex_jobs1 ex_job ex_leased).
  - vm_compute. reflexivity.
  - vm_compute. reflexivity.
  - vm_compute. reflexivity.
  - reflexivity.
  - done.
  - apply same_refl.
Defined.
