(* ===== verification/Cron.v ===== *)
(** [computeNextRun] and the cron-field parser of [runner/scheduler.ts].
    Instants are milliseconds since the epoch, as in a JavaScript [Date]. *)
From stdpp Require Import base gmap sets list strings.
From Stdlib Require Import ZArith Lia Ascii.
From S2P Require Import Prelude.
Open Scope Z_scope.

(** * Dates *)

(** [new Date(ms)]: out of the ECMAScript range it is the Invalid Date. *)
Definition MAX_TIME : Z := 8640000000000000.
Definition new_Date (ms : Z) : option Z :=
  if (- MAX_TIME <=? ms) && (ms <=? MAX_TIME) then Some ms else None.

Definition MINUTE : Z := 60000.
Definition getUTCMinutes (ms : Z) : Z := (ms / MINUTE) mod 60.
Definition getUTCHours (ms : Z) : Z := (ms / (60 * MINUTE)) mod 24.

(** The minute boundary at or below [ms]: [Date.UTC] of its fields down to the
    minute. *)
Definition base_minute (ms : Z) : Z := (ms / MINUTE) * MINUTE.

(** * Cron fields *)

Inductive cron_error :=
| BadIntervalSpec
| BadCronSpec
| InternalNoMatch      (* "no matching instant within 48h" *)
| BadCadenceKind.

(** [for (let v = lo; v <= hi; v += step) out.add(v)]; the fuel is the number
    of values in the range, enough as [step >= 1]. *)
Fixpoint range_step (fuel : nat) (lo hi step : Z) : list Z :=
  match fuel with
  | O => []
  | S n => if lo <=? hi then lo :: range_step n (lo + step) hi step else []
  end.

(** The base and step of one atom: [indexOf("/")] and the two slices. *)
Definition atom_step (atom : string) : result cron_error (string * Z) :=
  match JsString.cut "/" atom with
  | None => Ok (atom, 1)
  | Some (base, stepStr) =>
      guard? JsString.all_digits stepStr && (1 <=? JsString.number_of_digits stepStr)
        else BadCronSpec in
      guard? String.eqb base "*" || JsString.includes_char "-" base else BadCronSpec in
      Ok (base, JsString.number_of_digits stepStr)
  end.

(** The bounds a base denotes. *)
Definition base_bounds (base : string) (min max : Z) : result cron_error (Z * Z) :=
  if String.eqb base "*" then Ok (min, max)
  else if JsString.includes_char "-" base then
    match JsString.split "-" base with
    | [a; b] =>
        guard? JsString.all_digits a && JsString.all_digits b else BadCronSpec in
        guard? JsString.number_of_digits a <=? JsString.number_of_digits b else BadCronSpec in
        Ok (JsString.number_of_digits a, JsString.number_of_digits b)
    | _ => Throw BadCronSpec
    end
  else
    guard? JsString.all_digits base else BadCronSpec in
    Ok (JsString.number_of_digits base, JsString.number_of_digits base).

Definition parse_atom (min max : Z) (atom : string) : result cron_error (list Z) :=
  let? (base, step) := atom_step atom in
  let? (lo, hi) := base_bounds base min max in
  guard? (min <=? lo) && (hi <=? max) else BadCronSpec in
  Ok (range_step (Z.to_nat (hi - lo + 1)) lo hi step).

Definition parseCronField (field : string) (min max : Z) : result cron_error (list Z) :=
  guard? negb (String.eqb field "") else BadCronSpec in
  let? sets := rmap (parse_atom min max) (JsString.split "," field) in
  Ok (concat sets).

(** [set.has(v)]. *)
Definition has (s : list Z) (v : Z) : bool := existsb (Z.eqb v) s.

(** * computeNextRun *)

Inductive cadence_kind := interval | cron.

Definition cron_match (minutes hours : list Z) (ms : Z) : bool :=
  has minutes (getUTCMinutes ms) && has hours (getUTCHours ms).

(** The scan over candidates [i], [i + 1], ...; an Invalid Date has [NaN]
    fields and matches nothing. *)
Fixpoint scan (fuel : nat) (i baseMs : Z) (minutes hours : list Z) : option Z :=
  match fuel with
  | O => None
  | S n =>
      match new_Date (baseMs + i * MINUTE) with
      | Some c => if cron_match minutes hours c then Some c
                  else scan n (i + 1) baseMs minutes hours
      | None => scan n (i + 1) baseMs minutes hours
      end
  end.

Definition SCAN_LIMIT : nat := 2 * 1440.

Definition parse_cron (spec : string) : result cron_error (list Z * list Z) :=
  match JsString.split " " spec with
  | [m; h; d; mo; dw] =>
      guard? String.eqb d "*" && String.eqb mo "*" && String.eqb dw "*" else BadCronSpec in
      let? minutes := parseCronField m 0 59 in
      let? hours := parseCronField h 0 23 in
      Ok (minutes, hours)
  | _ => Throw BadCronSpec
  end.

(** The result is a [Date], possibly the Invalid Date ([None]). *)
Definition computeNextRun (kind : cadence_kind) (spec : string) (after : Z)
    : result cron_error (option Z) :=
  match kind with
  | interval =>
      guard? JsString.all_digits spec && (1 <=? JsString.number_of_digits spec)
        else BadIntervalSpec in
      Ok (new_Date (after + JsString.number_of_digits spec * 1000))
  | cron =>
      let? (minutes, hours) := parse_cron spec in
      match scan SCAN_LIMIT 1 (base_minute after) minutes hours with
      | Some c => Ok (Some c)
      | None => Throw InternalNoMatch
      end
  end.

(** * Lemmas *)

Lemma has_elem s v : has s v = true <-> v ∈ s.
Proof.
  unfold has. rewrite existsb_exists. setoid_rewrite <- list_elem_of_In. split.
  - by intros (y & Hy & ->%Z.eqb_eq).
  - intros H. exists v. by rewrite Z.eqb_refl.
Qed.

(** The range loop terminates within its fuel and collects the progression. *)
Lemma range_step_elem fuel lo hi step v :
  1 <= step -> hi - lo + 1 <= Z.of_nat fuel ->
  v ∈ range_step fuel lo hi step <-> lo <= v <= hi /\ (v - lo) mod step = 0.
Proof.
  intros Hs. revert lo. induction fuel as [|n IH]; intros lo Hf; simpl.
  - rewrite elem_of_nil. split; [done|]. intros [? _]. lia.
  - destruct (Z.leb_spec lo hi) as [Hle|Hlt].
    + rewrite elem_of_cons, (IH (lo + step)) by lia.
      split.
      * intros [->|[Hv Hm]].
        -- rewrite Z.sub_diag, Z.mod_0_l by lia. lia.
        -- split; [lia|]. replace (v - lo) with (v - (lo + step) + 1 * step) by lia.
           by rewrite Z.mod_add by lia.
      * intros [Hv Hm]. destruct (Z.eq_dec v lo) as [->|Hne]; [by left|right].
        assert (step <= v - lo).
        { apply Z.mod_divide in Hm as [q Hq]; [|lia]. assert (0 < q) by nia. nia. }
        split; [lia|]. replace (v - (lo + step)) with (v - lo + (-1) * step) by lia.
        by rewrite Z.mod_add by lia.
    + rewrite elem_of_nil. split; [done|]. intros [? _]. lia.
Qed.

Lemma atom_step_ok atom base step : atom_step atom = Ok (base, step) -> 1 <= step.
Proof.
  unfold atom_step. destruct (JsString.cut _ _) as [[b s]|].
  - destruct (_ && _) eqn:E; [|discriminate]. destruct (_ || _); [|discriminate].
    intros [= _ <-]. bool_to_prop. lia.
  - intros [= _ <-]. lia.
Qed.

Lemma base_bounds_ok base min max lo hi :
  min <= max -> base_bounds base min max = Ok (lo, hi) -> lo <= hi.
Proof.
  intros Hm. unfold base_bounds. destruct (String.eqb base "*"); [intros [= <- <-]; lia|].
  destruct (JsString.includes_char _ _).
  - destruct (JsString.split _ _) as [|a [|b [|]]]; try discriminate.
    destruct (_ && _); [|discriminate]. destruct (_ <=? _) eqn:E; [|discriminate].
    intros [= <- <-]. bool_to_prop. lia.
  - destruct (JsString.all_digits base); [|discriminate]. intros [= <- <-]. lia.
Qed.

(** An accepted field is a non-empty set of values within its bounds. *)
Definition field_set (min max : Z) (s : list Z) : Prop :=
  s <> [] /\ forall v, v ∈ s -> min <= v <= max.

Lemma nonempty_elem (s : list Z) : s <> [] -> exists v, v ∈ s.
Proof. destruct s as [|v s]; [done|]. intros _. exists v. apply elem_of_cons. auto. Qed.

Lemma parse_atom_set min max atom s :
  min <= max -> parse_atom min max atom = Ok s -> field_set min max s.
Proof.
  intros Hm H. unfold parse_atom in H.
  apply rbind_ok in H as ([base step] & Hs & H). apply atom_step_ok in Hs.
  apply rbind_ok in H as ([lo hi] & Hb & H). apply (base_bounds_ok _ _ _ _ _ Hm) in Hb.
  destruct (_ && _) eqn:E; [|discriminate]. injection H as <-. bool_to_prop.
  assert (Hel : forall v, v ∈ range_step (Z.to_nat (hi - lo + 1)) lo hi step <->
    lo <= v <= hi /\ (v - lo) mod step = 0) by (intros; apply range_step_elem; lia).
  split.
  - intros Hn. assert (Hlo : lo ∈ range_step (Z.to_nat (hi - lo + 1)) lo hi step).
    { apply Hel. rewrite Z.sub_diag, Z.mod_0_l by lia. lia. }
    rewrite Hn in Hlo. by apply elem_of_nil in Hlo.
  - intros v Hv. apply Hel in Hv. lia.
Qed.

Lemma parseCronField_set field min max s :
  min <= max -> parseCronField field min max = Ok s -> field_set min max s.
Proof.
  intros Hm H. unfold parseCronField in H. destruct (negb _); [|discriminate].
  apply rbind_ok in H as (sets & Hs & H). injection H as <-. apply rmap_ok in Hs.
  assert (Hall : Forall (field_set min max) sets).
  { clear -Hs Hm. induction Hs as [|a s l l' Ha _ IH]; constructor; [by eapply parse_atom_set|done]. }
  pose proof (JsString.split_nonempty "," field) as Hne.
  destruct Hs as [|a s l l' _ _]; [done|].
  split.
  - apply Forall_inv in Hall as [Hn _]. simpl. by destruct s.
  - intros v Hv. apply list_elem_of_In, in_concat in Hv as (s' & Hs' & Hv).
    rewrite List.Forall_forall in Hall. apply (Hall s' Hs').
    by apply list_elem_of_In.
Qed.

Lemma parse_cron_sets spec minutes hours :
  parse_cron spec = Ok (minutes, hours) -> field_set 0 59 minutes /\ field_set 0 23 hours.
Proof.
  unfold parse_cron. intros H.
  destruct (JsString.split _ _) as [|? [|? [|? [|? [|? [|]]]]]]; try discriminate.
  destruct (_ && _); [|discriminate].
  apply rbind_ok in H as (ms & Hm & H). apply rbind_ok in H as (hs & Hh & H). injection H as <- <-.
  split; (eapply parseCronField_set; [|done]; lia).
Qed.

(** ** The scan *)

Lemma new_Date_Some ms c : new_Date ms = Some c -> c = ms.
Proof. unfold new_Date. destruct (_ && _); congruence. Qed.

Lemma new_Date_in ms : - MAX_TIME <= ms <= MAX_TIME -> new_Date ms = Some ms.
Proof.
  intros H. unfold new_Date. destruct (_ && _) eqn:E; [done|].
  apply andb_false_iff in E as [E|E]; bool_to_prop; lia.
Qed.

(** The scan returns the first matching candidate. *)
Lemma scan_Some fuel i baseMs minutes hours c :
  scan fuel i baseMs minutes hours = Some c ->
  exists j, i <= j /\ c = baseMs + j * MINUTE /\ cron_match minutes hours c = true /\
    forall j', i <= j' < j -> forall d, new_Date (baseMs + j' * MINUTE) = Some d ->
      cron_match minutes hours d = false.
Proof.
  revert i. induction fuel as [|n IH]; intros i H; [discriminate|]. simpl in H.
  assert (Hrest : scan n (i + 1) baseMs minutes hours = Some c ->
    (forall d, new_Date (baseMs + i * MINUTE) = Some d -> cron_match minutes hours d = false) ->
    exists j, i <= j /\ c = baseMs + j * MINUTE /\ cron_match minutes hours c = true /\
    forall j', i <= j' < j -> forall d, new_Date (baseMs + j' * MINUTE) = Some d ->
      cron_match minutes hours d = false).
  { intros Hs Hi. destruct (IH _ Hs) as (j & Hj & Hc & Hm & Hno). exists j.
    split_and!; [lia|done|done|]. intros j' Hj' d Hd.
    destruct (Z.eq_dec j' i) as [->|]; [by apply Hi|]. apply (Hno j'); [lia|done]. }
  destruct (new_Date (baseMs + i * MINUTE)) as [d|] eqn:Ed; [|by apply Hrest].
  destruct (cron_match minutes hours d) eqn:Em.
  - injection H as <-. apply new_Date_Some in Ed as ->. exists i. split_and!; [lia|done|done|lia].
  - apply Hrest; [done|]. by intros ? [= <-].
Qed.

Lemma scan_None fuel i baseMs minutes hours j d :
  scan fuel i baseMs minutes hours = None -> i <= j < i + Z.of_nat fuel ->
  new_Date (baseMs + j * MINUTE) = Some d -> cron_match minutes hours d = false.
Proof.
  revert i. induction fuel as [|n IH]; intros i H Hj Hd; [lia|]. simpl in H.
  destruct (Z.eq_dec j i) as [->|Hne].
  - rewrite Hd in H. by destruct (cron_match minutes hours d).
  - apply (IH (i + 1)); [|lia|done].
    destruct (new_Date (baseMs + i * MINUTE)) as [d'|]; [|done].
    by destruct (cron_match minutes hours d').
Qed.

(** Some candidate within a day matches, whatever non-empty sets are asked. *)
Lemma match_within_a_day baseMin m h :
  0 <= m <= 59 -> 0 <= h <= 23 ->
  exists j, 1 <= j <= 1440 /\
    getUTCMinutes ((baseMin + j) * MINUTE) = m /\ getUTCHours ((baseMin + j) * MINUTE) = h.
Proof.
  intros Hm Hh. set (x := h * 60 + m).
  exists (1 + (x - baseMin - 1) mod 1440).
  pose proof (Z.mod_pos_bound (x - baseMin - 1) 1440 ltac:(lia)).
  split; [lia|].
  pose proof (Z.div_mod (x - baseMin - 1) 1440 ltac:(lia)) as E.
  set (q := (x - baseMin - 1) / 1440) in *.
  assert (En : baseMin + (1 + (x - baseMin - 1) mod 1440) = x + (- q) * 1440) by lia.
  rewrite En. unfold getUTCMinutes, getUTCHours, MINUTE.
  rewrite Z.div_mul by lia. replace (60 * 60000) with (60000 * 60) by lia.
  rewrite <- Z.div_div, Z.div_mul by lia. unfold x.
  replace (h * 60 + m + - q * 1440) with (m + (h + - q * 24) * 60) by lia.
  rewrite Z.mod_add, Z.div_add, (Z.mod_small m), (Z.div_small m) by lia.
  rewrite Z.add_0_l, Z.mod_add, Z.mod_small by lia. done.
Qed.

Lemma base_minute_bounds ms : base_minute ms <= ms < base_minute ms + MINUTE.
Proof.
  unfold base_minute, MINUTE. pose proof (Z.div_mod ms 60000 ltac:(lia)).
  pose proof (Z.mod_pos_bound ms 60000 ltac:(lia)). lia.
Qed.

Lemma SCAN_LIMIT_Z : Z.of_nat SCAN_LIMIT = 2880.
Proof. reflexivity. Qed.

Lemma computeNextRun_cron spec after minutes hours :
  parse_cron spec = Ok (minutes, hours) ->
  computeNextRun cron spec after =
  match scan SCAN_LIMIT 1 (base_minute after) minutes hours with
  | Some c => Ok (Some c)
  | None => Throw InternalNoMatch
  end.
Proof. intros H. unfold computeNextRun. rewrite H. reflexivity. Qed.

(** The first matching boundary, for any accepted spec. *)
Lemma cron_next spec after minutes hours :
  parse_cron spec = Ok (minutes, hours) -> 0 <= after <= MAX_TIME - 86460000 ->
  exists t, computeNextRun cron spec after = Ok (Some t) /\
    after < t <= after + 86400000 /\ t mod MINUTE = 0 /\
    getUTCMinutes t ∈ minutes /\ getUTCHours t ∈ hours /\
    forall u, after < u < t -> u mod MINUTE = 0 ->
      ~ (getUTCMinutes u ∈ minutes /\ getUTCHours u ∈ hours).
Proof.
  intros Hp Ha. destruct (parse_cron_sets _ _ _ Hp) as [[Hm Hmb] [Hh Hhb]].
  destruct (nonempty_elem _ Hm) as [m Hmin]. destruct (nonempty_elem _ Hh) as [h Hhin].
  pose proof (base_minute_bounds after) as Hb.
  destruct (match_within_a_day (after / MINUTE) m h ltac:(by apply Hmb) ltac:(by apply Hhb))
    as (j & Hj & Hjm & Hjh).
  assert (Ej : base_minute after + j * MINUTE = (after / MINUTE + j) * MINUTE)
    by (unfold base_minute; ring).
  assert (Hjd : new_Date (base_minute after + j * MINUTE) = Some (base_minute after + j * MINUTE)).
  { apply new_Date_in. unfold MAX_TIME, MINUTE in *. lia. }
  assert (Hjmatch : cron_match minutes hours (base_minute after + j * MINUTE) = true).
  { unfold cron_match. rewrite Ej, Hjm, Hjh. apply andb_true_iff. by rewrite !has_elem. }
  rewrite (computeNextRun_cron _ _ _ _ Hp).
  destruct (scan SCAN_LIMIT 1 (base_minute after) minutes hours) as [t|] eqn:Es.
  2:{ assert (F : cron_match minutes hours (base_minute after + j * MINUTE) = false)
        by (apply (scan_None _ 1 _ _ _ j _ Es); [rewrite SCAN_LIMIT_Z; lia|exact Hjd]). congruence. }
  exists t. apply scan_Some in Es as (i & Hi & -> & Hmatch & Hleast).
  assert (Hij : i <= j).
  { destruct (Z.le_gt_cases i j); [done|]. rewrite (Hleast j) in Hjmatch; [done|lia|exact Hjd]. }
  unfold cron_match in Hmatch. apply andb_true_iff in Hmatch as [Hx Hy].
  split; [done|]. split; [unfold MINUTE in *; lia|]. split_and!; [| by apply has_elem | by apply has_elem |].
  - unfold base_minute. rewrite <- Z.mul_add_distr_r. apply Z.mod_mul. done.
  - intros u Hu Hum [Hu1 Hu2]. apply Z.mod_divide in Hum as [k ->]; [|done].
    set (j' := k - after / MINUTE).
    assert (Ek : k * MINUTE = base_minute after + j' * MINUTE) by (unfold base_minute, j'; lia).
    rewrite Ek in *.
    assert (F : cron_match minutes hours (base_minute after + j' * MINUTE) = false).
    { apply (Hleast j'); [unfold MINUTE in *; nia|]. apply new_Date_in.
      unfold MAX_TIME, MINUTE in *. nia. }
    unfold cron_match in F. apply has_elem in Hu1, Hu2. by rewrite Hu1, Hu2 in F.
Qed.

(** * Properties *)

(** The cron cadence is exact and total.  For every spec the parser
    accepts and every representable instant, [computeNextRun] returns the
    first UTC minute boundary strictly after it whose minute and hour are both
    in the spec's sets, within 24 hours and a minute; the internal 48-hour
    failure is unreachable. *)
Theorem computeNextRun_cron_least spec after minutes hours :
  parse_cron spec = Ok (minutes, hours) -> 0 <= after <= MAX_TIME - 86460000 ->
  exists t, computeNextRun cron spec after = Ok (Some t) /\
    after < t <= after + 86400000 /\ t mod MINUTE = 0 /\
    getUTCMinutes t ∈ minutes /\ getUTCHours t ∈ hours /\
    forall u, after < u < t -> u mod MINUTE = 0 ->
      ~ (getUTCMinutes u ∈ minutes /\ getUTCHours u ∈ hours).
Proof. apply cron_next. Qed.

(** An accepted cron field denotes its progression.  An atom with base
    bounds [lo..hi] and step [s] contributes exactly the values [lo, lo+s, ...]
    up to [hi], all inside the field's range; so an accepted field is never
    empty and never out of range, and the parse always terminates. *)
Theorem parseCronField_denotes min max field s :
  min <= max -> parseCronField field min max = Ok s ->
  field_set min max s /\
  forall v, v ∈ s <-> exists atom base step lo hi,
    atom ∈ JsString.split "," field /\ atom_step atom = Ok (base, step) /\
    base_bounds base min max = Ok (lo, hi) /\ min <= lo /\ hi <= max /\
    lo <= v <= hi /\ (v - lo) mod step = 0.
Proof.
  intros Hm H. split; [by eapply parseCronField_set|]. intros v.
  unfold parseCronField in H. destruct (negb _); [|discriminate].
  apply rbind_ok in H as (sets & Hs & H). injection H as <-. apply rmap_ok in Hs.
  generalize dependent (JsString.split "," field). intros l Hs.
  induction Hs as [|a s l l' Ha _ IH]; simpl.
  - rewrite elem_of_nil. split; [done|]. intros (? & ? & ? & ? & ? & Hn & _). by apply elem_of_nil in Hn.
  - rewrite elem_of_app, IH. clear IH. unfold parse_atom in Ha.
    apply rbind_ok in Ha as ([base step] & Hst & Ha). apply rbind_ok in Ha as ([lo hi] & Hb & Ha).
    destruct (_ && _) eqn:E; [|discriminate]. injection Ha as <-. bool_to_prop.
    pose proof (atom_step_ok _ _ _ Hst). pose proof (base_bounds_ok _ _ _ _ _ Hm Hb).
    rewrite range_step_elem by lia. split.
    + intros [Hv|(a' & b' & s' & lo' & hi' & Hin & Hr)].
      * exists a, base, step, lo, hi. split_and!; try done; try lia. apply elem_of_cons. auto.
      * exists a', b', s', lo', hi'. split; [|done]. apply elem_of_cons. auto.
    + intros (a' & b' & s' & lo' & hi' & Hin & Hst' & Hb' & Hlo & Hhi & Hv).
      apply elem_of_cons in Hin as [->|Hin].
      * left. rewrite Hst in Hst'. injection Hst' as <- <-. rewrite Hb in Hb'. by injection Hb' as <- <-.
      * right. by exists a', b', s', lo', hi'.
Qed.

(** * Witnesses *)

Lemma computeNextRun_cron_least_witness :
  exists t, computeNextRun cron "*/15 9-17 * * *" 1700000000000 = Ok (Some t) /\
    1700000000000 < t <= 1700000000000 + 86400000.
Proof.
  destruct (computeNextRun_cron_least "*/15 9-17 * * *" 1700000000000
    [0; 15; 30; 45] [9; 10; 11; 12; 13; 14; 15; 16; 17]) as (t & Ht & Hb & _).
  - vm_compute. reflexivity.
  - split; vm_compute; discriminate.
  - exists t. split; [exact Ht|exact Hb].
Defined.

Lemma parseCronField_denotes_witness : field_set 0 59 [0; 10; 20; 30; 45].
Proof.
  apply (parseCronField_denotes 0 59 "0-30/10,45" [0; 10; 20; 30; 45]);
    [lia | vm_compute; reflexivity].
Defined.
