(* ===== verification/Scheduler.v ===== *)
(** [runner/scheduler.ts] ([pollAndEnqueue], [SchedulerLoop]) and
    [runner/cron_schedules.ts].  The poller talks to the job queue through
    [SchedulerEnqueuePort], here a class of operations with the laws the
    poller relies on; [BackgroundJobs.enqueue] is its instance. *)
From stdpp Require Import base gmap sets list strings.
From Stdlib Require Import ZArith Lia.
From S2P Require Import Prelude Json JobTable BackgroundJobs Cron.
Open Scope Z_scope.

(** * The port *)

(** A keyed queue: [enqueue jobType payload dedupKey]; [holder s k] is the
    active job under key [k]. *)
Class SchedulerEnqueuePort (S E : Type) := {
  port_enqueue : S -> string -> json -> string -> result E (S * string);
  holder : S -> string -> option string;
}.

(** What the poller relies on, on the states [port_inv] describes: *)
Class LawfulPort (S E : Type) `{SchedulerEnqueuePort S E} (acceptable : json -> bool)
    (port_inv : S -> Prop) := {
  (** an accepted call keeps the queue well formed, *)
  port_keeps s jt p k s' id : port_inv s -> port_enqueue s jt p k = Ok (s', id) -> port_inv s';
  (** leaves its job active under its key, *)
  port_holds s jt p k s' id : port_inv s -> port_enqueue s jt p k = Ok (s', id) ->
    holder s' k = Some id;
  (** leaves the jobs of the other keys alone, *)
  port_frame s jt p k s' id j i : port_inv s -> port_enqueue s jt p k = Ok (s', id) -> j <> k ->
    holder s j = Some i -> holder s' j = Some i;
  (** and an active key absorbs the call. *)
  port_absorbs s jt p k id : acceptable p = true -> holder s k = Some id ->
    port_enqueue s jt p k = Ok (s, id);
}.

(** * Rows *)

Record sched_row := SchedRow {
  s_job_type : string;
  s_cadence_kind : string;
  s_cadence_spec : string;
  s_input : json;
  next_run_at : Z;
  s_enabled : bool;
  s_schema_version : Z;
  last_enqueued_at : option Z;
  s_updated_at : Z;
}.

Definition SCHEDULED_JOB_ENVELOPE_SCHEMA_VERSION : Z := 1.

(** [CadenceKind.parse]. *)
Definition parse_CadenceKind (s : string) : option cadence_kind :=
  if String.eqb s "interval" then Some interval
  else if String.eqb s "cron" then Some cron else None.

(** The columns the advance UPDATE sets. *)
Definition advance (nextRunAt enqueuedAt : Z) (r : sched_row) : sched_row :=
  {| s_job_type := s_job_type r; s_cadence_kind := s_cadence_kind r;
     s_cadence_spec := s_cadence_spec r; s_input := s_input r; next_run_at := nextRunAt;
     s_enabled := s_enabled r; s_schema_version := s_schema_version r;
     last_enqueued_at := Some enqueuedAt; s_updated_at := enqueuedAt |}.

(** What the pass logs and counts. *)
Inductive sched_log :=
| WouldEnqueue (id : string)
| CadenceLate (id : string)
| ScheduleError (id : string).   (* the WARN and the bounded error counter *)

(** * pollAndEnqueue *)

(** [enabled AND next_run_at <= now], minus the rows other pollers hold. *)
Definition due (now : Z) (r : sched_row) : bool := s_enabled r && (next_run_at r <=? now).

Definition due_rows (locked : gset string) (now : Z) (t : gmap string sched_row)
    : list (string * sched_row) :=
  filter (fun p => (p.1 ∉ locked) /\ due now p.2 = true) (rows t).

(** The boundary registry is default-deny; absent, it lets everything pass. *)
Definition contract_ok (contracts : option (gmap string (json -> bool))) (r : sched_row) : bool :=
  match contracts with
  | None => true
  | Some m => match m !! s_job_type r with
              | None => false
              | Some contract => contract (s_input r)
              end
  end.

(** The envelope gate, the input contract and the cadence, all before the
    enqueue; [None] is a throw.  [Some None] is an Invalid Date. *)
Definition row_gate (contracts : option (gmap string (json -> bool))) (enqueuedAt : Z)
    (r : sched_row) : option (option Z) :=
  if SCHEDULED_JOB_ENVELOPE_SCHEMA_VERSION <? s_schema_version r then None
  else if contract_ok contracts r
  then match parse_CadenceKind (s_cadence_kind r) with
       | None => None
       | Some kind => match computeNextRun kind (s_cadence_spec r) enqueuedAt with
                      | Ok d => Some d
                      | Throw _ => None
                      end
       end
  else None.

(** The lateness signal after the UPDATE: [None] when the recomputation throws. *)
Definition lateness (enqueuedAt : Z) (r : sched_row) : option bool :=
  match parse_CadenceKind (s_cadence_kind r) with
  | None => None
  | Some kind => match computeNextRun kind (s_cadence_spec r) (next_run_at r) with
                 | Throw _ => None
                 | Ok None => Some false
                 | Ok (Some n) => Some (n - next_run_at r <? enqueuedAt - next_run_at r)
                 end
  end.

Lemma due_rows_NoDup locked now t : NoDup (map fst (due_rows locked now t)).
Proof.
  unfold due_rows. change (map fst) with (fmap (M := list) (@fst string sched_row)).
  eapply sublist_NoDup; [|apply fmap_sublist, sublist_filter]. apply NoDup_fst_map_to_list.
Qed.

Lemma elem_of_due_rows locked now t k r :
  (k, r) ∈ due_rows locked now t <-> t !! k = Some r /\ (k ∉ locked) /\ due now r = true.
Proof. unfold due_rows. rewrite list_elem_of_filter, elem_of_rows. simpl. tauto. Qed.

Lemma row_gate_next contracts clock_now r n :
  row_gate contracts clock_now r = Some (Some n) ->
  exists kind, parse_CadenceKind (s_cadence_kind r) = Some kind /\
    computeNextRun kind (s_cadence_spec r) clock_now = Ok (Some n).
Proof.
  unfold row_gate. destruct (_ <? _); [discriminate|]. destruct (contract_ok _ _);
    [|discriminate]. destruct (parse_CadenceKind _) as [kind|]; [|discriminate].
  destruct (computeNextRun _ _ _) as [d|] eqn:Ed; [|discriminate]. intros [= ->]. eauto.
Qed.
Section Poll.
Context {S E : Type} `{SchedulerEnqueuePort S E}.
(** The boundary registry, if the composition root passes one. *)
Variable contracts : option (gmap string (json -> bool)).
(** Whether the database accepts the advance UPDATE of a schedule. *)
Variable update_ok : string -> bool.

Record pass := Pass {
  queue : S;                      (* autocommitted on its own connection *)
  table : gmap string sched_row;  (* inside the poll transaction *)
  enqueued : nat;
  logs : list sched_log;
}.

(** One schedule, inside its savepoint; [at_us i] is the clock reading of
    iteration [i]. *)
Definition process_row (enqueuedAt : Z) (st : pass) (p : string * sched_row) : pass :=
  let failed q := Pass q (table st) (enqueued st) (logs st ++ [ScheduleError p.1]) in
  match row_gate contracts enqueuedAt p.2 with
  | None => failed (queue st)
  | Some d =>
      match port_enqueue (queue st) (s_job_type p.2) (s_input p.2) p.1 with
      | Throw _ => failed (queue st)
      | Ok (q', _) =>
          match d with
          | None => failed q'                       (* the UPDATE rejects an Invalid Date *)
          | Some nextRunAt =>
              if update_ok p.1 then
                match lateness enqueuedAt p.2 with
                | None => failed q'
                | Some late =>
                    Pass q' (<[p.1 := advance nextRunAt enqueuedAt p.2]> (table st))
                      (1 + enqueued st)
                      (logs st ++ if late then [CadenceLate p.1] else [])
                end
              else failed q'
          end
      end
  end.

Fixpoint process_rows (clock : nat -> Z) (i : nat) (l : list (string * sched_row)) (st : pass)
    : pass :=
  match l with
  | [] => st
  | p :: l' => process_rows clock (i + 1) l' (process_row (clock i) st p)
  end.

(** [clock 0] is the reading at the start of the pass. *)
Definition pollAndEnqueue (shadow : bool) (locked : gset string) (clock : nat -> Z)
    (q : S) (t : gmap string sched_row) : pass :=
  let rs := due_rows locked (clock 0%nat) t in
  if shadow then Pass q t 0 (map (fun p => WouldEnqueue p.1) rs)
  else process_rows clock 1 rs (Pass q t 0 []).

(** [SchedulerLoop.run]: one pass per iteration until [stop()]; the last one
    completes.  [stops] tells after which passes the loop was stopped. *)
Fixpoint scheduler_loop (fuel : nat) (stops : nat -> bool) (shadow : bool)
    (clock : nat -> nat -> Z) (i : nat) (q : S) (t : gmap string sched_row)
    : S * gmap string sched_row :=
  match fuel with
  | O => (q, t)
  | Datatypes.S n =>
      if stops i then (q, t)
      else let st := pollAndEnqueue shadow ∅ (clock i) q t in
           scheduler_loop n stops shadow clock (i + 1) (queue st) (table st)
  end.

(** ** Lemmas *)

(** A row that runs through: it is gated, enqueued and advanced. *)
Definition healthy (enqueuedAt : Z) (id : string) (r : sched_row) : Prop :=
  update_ok id = true /\ (exists n, row_gate contracts enqueuedAt r = Some (Some n)) /\
  is_Some (lateness enqueuedAt r).

Lemma process_row_table enqueuedAt st p k :
  table (process_row enqueuedAt st p) !! k = table st !! k \/
  (k = p.1 /\ exists n, row_gate contracts enqueuedAt p.2 = Some (Some n) /\
     update_ok p.1 = true /\
     table (process_row enqueuedAt st p) !! k = Some (advance n enqueuedAt p.2) /\
     enqueued (process_row enqueuedAt st p) = Datatypes.S (enqueued st)).
Proof.
  unfold process_row. destruct (row_gate _ _ _) as [[n|]|] eqn:Eg;
    [|destruct (port_enqueue _ _ _ _) as [[q' id]|]; by left|by left].
  destruct (port_enqueue _ _ _ _) as [[q' id]|]; [|by left].
  destruct (update_ok p.1) eqn:Eu; [|by left].
  destruct (lateness _ _); [|by left]. simpl.
  destruct (decide (k = p.1)) as [->|]; [|left; by rewrite lookup_insert_ne].
  right. split; [done|]. exists n. by rewrite lookup_insert_eq.
Qed.

Lemma process_row_gated enqueuedAt st p :
  row_gate contracts enqueuedAt p.2 = None ->
  process_row enqueuedAt st p =
  Pass (queue st) (table st) (enqueued st) (logs st ++ [ScheduleError p.1]).
Proof. unfold process_row. by intros ->. Qed.

Lemma process_rows_other clock i l st k :
  k ∉ map fst l -> table (process_rows clock i l st) !! k = table st !! k.
Proof.
  revert i st. induction l as [|p l IH]; intros i st Hk; [done|]. simpl in *.
  apply not_elem_of_cons in Hk as [Hne Hk]. rewrite IH by done.
  destruct (process_row_table (clock i) st p k) as [->|[-> _]]; done.
Qed.

(** Where each row of the batch ends up depends on that row alone. *)
Lemma process_rows_row clock i l st k r :
  NoDup (map fst l) -> (k, r) ∈ l -> table st !! k = Some r ->
  table (process_rows clock i l st) !! k = Some r \/
  exists j n, row_gate contracts (clock j) r = Some (Some n) /\ update_ok k = true /\
    table (process_rows clock i l st) !! k = Some (advance n (clock j) r).
Proof.
  revert i st. induction l as [|p l IH]; intros i st Hnd Hin Hk; [by apply elem_of_nil in Hin|].
  simpl in *. apply NoDup_cons in Hnd as [Hn Hnd]. apply elem_of_cons in Hin as [<-|Hin].
  - rewrite process_rows_other by done.
    destruct (process_row_table (clock i) st (k, r) k) as [->|[_ (n & Hg & Hu & -> & _)]]; [by left|].
    right. by exists i, n.
  - apply IH; [done..|]. destruct (process_row_table (clock i) st p k) as [->|[-> _]]; [done|].
    destruct Hn. apply list_elem_of_In, in_map_iff. exists (p.1, r). by rewrite <- list_elem_of_In.
Qed.

End Poll.

(** An instant [computeNextRun] returns is strictly later than the one given. *)
Lemma computeNextRun_later kind spec after n :
  computeNextRun kind spec after = Ok (Some n) -> after < n.
Proof.
  destruct kind.
  - unfold computeNextRun. destruct (_ && _) eqn:E; [|discriminate]. bool_to_prop. intros [= Hd].
    apply new_Date_Some in Hd. lia.
  - destruct (parse_cron spec) as [[ms hs]|e] eqn:Ep;
      [|unfold computeNextRun; rewrite Ep; discriminate].
    rewrite (computeNextRun_cron _ _ _ _ Ep).
    destruct (scan SCAN_LIMIT 1 (base_minute after) ms hs) as [t|] eqn:Es; [|discriminate].
    intros [= ->]. apply scan_Some in Es as (j & Hj & -> & _).
    pose proof (base_minute_bounds after). unfold MINUTE in *. lia.
Qed.

Section Lawful.
Context {S E : Type} `{SchedulerEnqueuePort S E} (acceptable : json -> bool)
  (port_inv : S -> Prop) `{!LawfulPort S E acceptable port_inv}.
Variable contracts : option (gmap string (json -> bool)).
Variable update_ok : string -> bool.

(** The queue a row leaves: unchanged, or the result of its enqueue. *)
Lemma process_row_queue enqueuedAt st p :
  queue (process_row contracts update_ok enqueuedAt st p) = queue st \/
  exists id, port_enqueue (queue st) (s_job_type p.2) (s_input p.2) p.1 =
    Ok (queue (process_row contracts update_ok enqueuedAt st p), id).
Proof.
  unfold process_row. destruct (row_gate _ _ _) as [d|]; [|by left].
  destruct (port_enqueue _ _ _ _) as [[q' id]|] eqn:Ee; [|by left]. right. exists id.
  destruct d; [|done]. destruct (update_ok _); [|done]. by destruct (lateness _ _).
Qed.

Lemma process_row_inv enqueuedAt st p :
  port_inv (queue st) -> port_inv (queue (process_row contracts update_ok enqueuedAt st p)).
Proof.
  intros Hi. destruct (process_row_queue enqueuedAt st p) as [->|[id He]]; [done|].
  by eapply port_keeps.
Qed.

(** A held key stays with its job through a row and through a batch. *)
Lemma process_row_holder enqueuedAt st p k id :
  port_inv (queue st) -> acceptable (s_input p.2) = true -> holder (queue st) k = Some id ->
  holder (queue (process_row contracts update_ok enqueuedAt st p)) k = Some id.
Proof.
  intros Hi Ha Hk. destruct (process_row_queue enqueuedAt st p) as [->|[id' He]]; [done|].
  destruct (decide (k = p.1)) as [->|Hne].
  - rewrite (port_absorbs _ _ _ _ id Ha Hk) in He. injection He as E1 _. by rewrite <- E1.
  - by eapply port_frame.
Qed.

Lemma process_rows_holder clock i l st k id :
  port_inv (queue st) -> Forall (fun p => acceptable (s_input p.2) = true) l ->
  holder (queue st) k = Some id ->
  holder (queue (process_rows contracts update_ok clock i l st)) k = Some id.
Proof.
  intros Hi Ha. revert i st Hi. induction Ha as [|p l Hp _ IH]; intros i st Hi Hk; [done|].
  simpl. apply IH; [by apply process_row_inv|by apply process_row_holder].
Qed.

(** A batch whose rows are all enqueued holds all its keys. *)
Lemma process_rows_enqueues clock i l st k r :
  port_inv (queue st) -> Forall (fun p => acceptable (s_input p.2) = true) l ->
  (forall q p, port_inv q -> p ∈ l -> exists q' id,
     port_enqueue q (s_job_type p.2) (s_input p.2) p.1 = Ok (q', id)) ->
  (forall c, is_Some (row_gate contracts c r)) -> (k, r) ∈ l ->
  exists id, holder (queue (process_rows contracts update_ok clock i l st)) k = Some id.
Proof.
  revert i st. induction l as [|p l IH]; intros i st Hi Ha Hen Hg Hin; [by apply elem_of_nil in Hin|].
  apply Forall_cons in Ha as [Hp Ha]. simpl. apply elem_of_cons in Hin as [<-|Hin].
  - destruct (Hen (queue st) (k, r) Hi) as (q' & id & He); [apply elem_of_cons; auto|].
    exists id. apply process_rows_holder; [by apply process_row_inv|done|].
    destruct (Hg (clock i)) as [d Hd]. unfold process_row. simpl in *. rewrite Hd, He.
    pose proof (port_holds _ _ _ _ _ _ Hi He) as Hh.
    destruct d; [|done]. destruct (update_ok _); [|done]. by destruct (lateness _ _).
  - apply IH; try done; [by apply process_row_inv|].
    intros q p' Hq Hp'. apply Hen; [done|]. apply elem_of_cons. auto.
Qed.

(** When every key of the batch is already held, a pass adds no job. *)
Lemma process_rows_absorbed clock i l st :
  Forall (fun p => acceptable (s_input p.2) = true /\ is_Some (holder (queue st) p.1)) l ->
  queue (process_rows contracts update_ok clock i l st) = queue st.
Proof.
  revert i st. induction l as [|p l IH]; intros i st Hl; [done|].
  apply Forall_cons in Hl as [[Ha [id Hid]] Hl]. simpl.
  assert (Hq : queue (process_row contracts update_ok (clock i) st p) = queue st).
  { destruct (process_row_queue (clock i) st p) as [->|[id' He]]; [done|].
    rewrite (port_absorbs _ _ _ _ id Ha Hid) in He. by injection He. }
  rewrite IH; [done|]. by rewrite Hq.
Qed.
End Lawful.

(** * The job queue as the port *)

Section BgPort.
Variable sha256hex : string -> string.
(** The uuids and database instants of an enqueue, arbitrary functions of
    the queue. *)
Variable mint : gmap string bg_row -> nat -> string.
Variable dbclock : gmap string bg_row -> nat -> Z.

Definition bg_args (jt : string) (p : json) (k : string) : enqueue_args :=
  EnqueueArgs jt p (Some k) None None None None.

#[export] Instance bg_port : SchedulerEnqueuePort (gmap string bg_row) bg_error := {|
  port_enqueue t jt p k := enqueue sha256hex (bg_args jt p k) (mint t) (dbclock t) no_interference t;
  holder t k := select_holder (Some k) t;
|}.

Definition bg_acceptable (p : json) : bool :=
  match payload_object p with Some _ => true | None => false end.

#[export] Instance bg_port_lawful :
  LawfulPort (gmap string bg_row) bg_error bg_acceptable dedup_unique.
Proof.
  split; simpl.
  - intros t jt p k t' id Hu He.
    destruct (enqueue_select _ _ _ _ _ _ _ k He eq_refl) as [_ [->|(q & now & -> & Hn & Hs)]]; [done|].
    intros key k1 r1 k2 r2. rewrite !lookup_insert_Some.
    assert (Hfree : forall j r, t !! j = Some r ->
      holds_key key (new_row sha256hex (bg_args jt p k) q now) = true -> holds_key key r = true -> False).
    { intros j r Hj Hh Hr. apply holds_key_true in Hh as [_ [= ->]].
      by rewrite (select_holder_None _ _ _ _ Hs Hj) in Hr. }
    intros [[<- <-]|[? H1]] [[<- <-]|[? H2]] Hh1 Hh2; [done| | |by eapply Hu].
    + by destruct (Hfree _ _ H2).
    + by destruct (Hfree _ _ H1).
  - intros t jt p k t' id _ He. by destruct (enqueue_select _ _ _ _ _ _ _ k He eq_refl).
  - intros t jt p k t' id j i Hu He Hne Hj.
    destruct (enqueue_select _ _ _ _ _ _ _ k He eq_refl) as [_ [->|(q & now & -> & Hn & Hs)]]; [done|].
    apply select_holder_Some in Hj as (r & Hr & Hh).
    set (t' := <[id := _]> t). change (select_holder (Some j) t' = Some i).
    destruct (select_holder (Some j) t') as [i'|] eqn:Ei.
    + apply select_holder_Some in Ei as (r' & Hr' & Hh'). f_equal.
      unfold t' in Hr'. apply lookup_insert_Some in Hr' as [[<- <-]|[_ Hr']];
        [|exact (Hu j i' r' i r Hr' Hr Hh' Hh)].
      apply holds_key_true in Hh' as [_ [= ->]]. done.
    + rewrite (select_holder_None j _ i r Ei) in Hh; [done|].
      unfold t'. rewrite lookup_insert_ne; [done|]. intros ->. congruence.
  - intros t jt p k id Ha Hk. unfold bg_acceptable in Ha.
    destruct (payload_object p) as [q|] eqn:Ep; [|discriminate].
    eapply enqueue_absorbed; simpl; eauto; lia.
Qed.
End BgPort.

(** * The seeds ([cron_schedules.ts]) *)

Record seed := Seed {
  seed_id : string; seed_job_type : string; seed_kind : cadence_kind; seed_spec : string;
  seed_input : json;
}.

Definition kind_name (k : cadence_kind) : string :=
  match k with interval => "interval" | cron => "cron" end.

Definition CRON_SCHEDULES : list seed :=
  [Seed "codemaster-mutex-janitor" "mutex_janitor" interval "300" (JObj []);
   Seed "codemaster-review-run-reaper" "review_run_reaper" interval "600" (JObj []);
   Seed "codemaster-mark-stale-chunks" "mark_stale_chunks" cron "0 2 * * *" (JObj []);
   Seed "codemaster-partition-maintenance" "partition_maintenance" cron "0 2 * * *" (JObj []);
   Seed "codemaster-run-id-retention" "run_id_retention" cron "0 3 * * *"
     (JObj [("prTtlDays", JNum "7"); ("runTtlDays", JNum "30"); ("eventTtlDays", JNum "90")]);
   Seed "codemaster-workspace-retention" "workspace_retention" interval "300" (JObj []);
   Seed "codemaster-confluence-ingest" "confluence_ingest" interval "21600" (JObj []);
   Seed "codemaster-job-retention" "job_retention" cron "30 3 * * *"
     (JObj [("reviewJobsTtlDays", JNum "30"); ("backgroundJobsTtlDays", JNum "30")]);
   Seed "codemaster-installation-drift-reconcile" "installation_drift_reconcile" cron "15 4 * * *"
     (JObj [])].

(** The inserted row: the column defaults are [enabled = true] and version 1. *)
Definition seed_row (now : Z) (s : seed) : sched_row :=
  {| s_job_type := seed_job_type s; s_cadence_kind := kind_name (seed_kind s);
     s_cadence_spec := seed_spec s; s_input := seed_input s; next_run_at := now;
     s_enabled := true; s_schema_version := 1; last_enqueued_at := None; s_updated_at := now |}.

(** [INSERT ... ON CONFLICT (schedule_id) DO NOTHING] per seed; [clock i] is
    the reading for seed [i]. *)
Fixpoint ensure_from (clock : nat -> Z) (i : nat) (l : list seed) (t : gmap string sched_row)
    : gmap string sched_row :=
  match l with
  | [] => t
  | s :: l' => ensure_from clock (i + 1) l'
                 (match t !! seed_id s with
                  | Some _ => t
                  | None => <[seed_id s := seed_row (clock i) s]> t
                  end)
  end.
Definition ensureScheduledJobs (clock : nat -> Z) (t : gmap string sched_row) : gmap string sched_row :=
  ensure_from clock 0 CRON_SCHEDULES t.

Lemma ensure_from_keeps clock i l t k r :
  t !! k = Some r -> ensure_from clock i l t !! k = Some r.
Proof.
  revert i t. induction l as [|s l IH]; intros i t Hk; [done|]. simpl. apply IH.
  destruct (t !! seed_id s) eqn:E; [done|]. rewrite lookup_insert_ne; [done|]. congruence.
Qed.

Lemma ensure_from_has clock i l t s :
  s ∈ l -> t !! seed_id s = None ->
  exists s' j, s' ∈ l /\ seed_id s' = seed_id s /\
    ensure_from clock i l t !! seed_id s = Some (seed_row (clock j) s').
Proof.
  revert i t. induction l as [|s0 l IH]; intros i t Hin Hn; [by apply elem_of_nil in Hin|]. simpl.
  destruct (decide (seed_id s0 = seed_id s)) as [E|Hne].
  - rewrite E, Hn. exists s0, i. split; [apply elem_of_cons; auto|]. split; [done|].
    apply ensure_from_keeps. by rewrite lookup_insert_eq.
  - apply elem_of_cons in Hin as [->|Hin]; [done|].
    destruct (IH (i + 1)%nat (match t !! seed_id s0 with
      | Some _ => t | None => <[seed_id s0 := seed_row (clock i) s0]> t end) Hin) as (s' & j & H1 & H2 & H3).
    + destruct (t !! seed_id s0); [done|]. by rewrite lookup_insert_ne.
    + exists s', j. split; [apply elem_of_cons; auto|done].
Qed.

Lemma ensure_from_done clock i l t :
  (forall s, s ∈ l -> is_Some (t !! seed_id s)) -> ensure_from clock i l t = t.
Proof.
  revert i. induction l as [|s l IH]; intros i Ht; [done|]. simpl.
  destruct (Ht s) as [r ->]; [apply elem_of_cons; auto|]. apply IH.
  intros s' Hs'. apply Ht, elem_of_cons. auto.
Qed.

Lemma seeds_ids_unique s s' :
  s ∈ CRON_SCHEDULES -> s' ∈ CRON_SCHEDULES -> seed_id s = seed_id s' -> s = s'.
Proof.
  unfold CRON_SCHEDULES. intros Hs Hs'.
  repeat (apply elem_of_cons in Hs as [->|Hs];
    [repeat (apply elem_of_cons in Hs' as [->|Hs']; [done|]); by apply elem_of_nil in Hs'|]).
  by apply elem_of_nil in Hs.
Qed.

(** Every seeded cadence computes a next run at every current instant. *)
Lemma seed_cadence_ok s after :
  s ∈ CRON_SCHEDULES -> 0 <= after <= MAX_TIME - 86460000 ->
  exists n, computeNextRun (seed_kind s) (seed_spec s) after = Ok (Some n).
Proof.
  assert (Hc : forall spec ms hs, parse_cron spec = Ok (ms, hs) -> 0 <= after <= MAX_TIME - 86460000 ->
    exists n, computeNextRun cron spec after = Ok (Some n)).
  { intros spec ms hs Hp Ha. destruct (cron_next _ _ _ _ Hp Ha) as (t & Ht & _). eauto. }
  assert (Hi : forall spec n, JsString.all_digits spec = true -> JsString.number_of_digits spec = n ->
    1 <= n <= 86400 -> 0 <= after <= MAX_TIME - 86460000 ->
    exists n', computeNextRun interval spec after = Ok (Some n')).
  { intros spec n Hd En Hn Ha. unfold computeNextRun. rewrite Hd, En.
    destruct (Z.leb_spec 1 n); [|lia]. simpl. rewrite new_Date_in by (unfold MAX_TIME in *; lia). eauto. }
  unfold CRON_SCHEDULES. intros Hs Ha.
  repeat (apply elem_of_cons in Hs as [->|Hs];
    [first [eapply Hi; [reflexivity|reflexivity|vm_compute; split; discriminate|exact Ha]
           |eapply Hc; [vm_compute; reflexivity|exact Ha]]|]).
  by apply elem_of_nil in Hs.
Qed.

(** ** Accounting *)

Definition is_error (l : sched_log) : bool := match l with ScheduleError _ => true | _ => false end.
Definition errors (l : list sched_log) : nat := length (filter (fun x => is_error x = true) l).

Section Account.
Context {S E : Type} `{SchedulerEnqueuePort S E}.
Variable contracts : option (gmap string (json -> bool)).
Variable update_ok : string -> bool.

Lemma errors_app l1 l2 : errors (l1 ++ l2) = (errors l1 + errors l2)%nat.
Proof. unfold errors. by rewrite filter_app, length_app. Qed.

Lemma process_row_account c (st : pass (S := S)) p :
  let st' := process_row contracts update_ok c st p in
  (enqueued st' + errors (logs st') = 1 + (enqueued st + errors (logs st)))%nat.
Proof.
  unfold process_row. destruct (row_gate _ _ _) as [d|]; [destruct (port_enqueue _ _ _ _) as [[q' i]|]|];
    [destruct d; [destruct (update_ok _); [destruct (lateness _ _) as [[]|]|]|]| |];
    simpl; rewrite errors_app; unfold errors; simpl; lia.
Qed.

Lemma process_rows_account clock i l (st : pass (S := S)) :
  let st' := process_rows contracts update_ok clock i l st in
  (enqueued st' + errors (logs st') = length l + (enqueued st + errors (logs st)))%nat.
Proof.
  revert i st. induction l as [|p l IH]; intros i st; [done|]. simpl.
  simpl in IH. rewrite IH. pose proof (process_row_account (clock i) st p) as Ha. simpl in Ha. lia.
Qed.

(** A healthy row whose enqueue is accepted is advanced, whatever the rows
    around it do. *)
Lemma process_rows_healthy clock i l (st : pass (S := S)) k r :
  NoDup (map fst l) -> (k, r) ∈ l ->
  (forall c, healthy contracts update_ok c k r) ->
  (forall q, exists q' id, port_enqueue q (s_job_type r) (s_input r) k = Ok (q', id)) ->
  exists j n, row_gate contracts (clock j) r = Some (Some n) /\
    table (process_rows contracts update_ok clock i l st) !! k = Some (advance n (clock j) r).
Proof.
  revert i st. induction l as [|p l IH]; intros i st Hnd Hin Hh Hen; [by apply elem_of_nil in Hin|].
  simpl in *. apply NoDup_cons in Hnd as [Hn Hnd]. apply elem_of_cons in Hin as [<-|Hin]; [|by apply IH].
  rewrite process_rows_other by done.
  destruct (Hh (clock i)) as (Hu & [n Hg] & [late Hl]). destruct (Hen (queue st)) as (q' & id & He).
  exists i, n. split; [done|]. unfold process_row. simpl. rewrite Hg, He, Hu, Hl. simpl.
  by rewrite lookup_insert_eq.
Qed.
End Account.

(** * Properties *)

(** Per-schedule isolation.  A pass touches only due, unlocked schedules;
    each of them either keeps its row or advances to the next run computed at
    a clock reading of the pass, strictly later than that reading; a healthy
    schedule whose enqueue is accepted does advance, whatever poison schedules
    stand around it; and every due schedule is accounted for, as enqueued or as
    one counted error. *)
Theorem poll_isolates {S E} `{SchedulerEnqueuePort S E} contracts update_ok locked clock (q : S) t :
  let st := pollAndEnqueue contracts update_ok false locked clock q t in
  let ds := due_rows locked (clock 0%nat) t in
  (forall k r, t !! k = Some r -> k ∉ map fst ds -> table st !! k = Some r) /\
  (forall k r, (k, r) ∈ ds -> table st !! k = Some r \/
     exists j n, table st !! k = Some (advance n (clock j) r) /\ clock j < n) /\
  (forall k r, (k, r) ∈ ds -> (forall c, healthy contracts update_ok c k r) ->
     (forall q0, exists q' id, port_enqueue q0 (s_job_type r) (s_input r) k = Ok (q', id)) ->
     exists j n, table st !! k = Some (advance n (clock j) r) /\ clock j < n) /\
  (enqueued st + errors (logs st) = length ds)%nat.
Proof.
  unfold pollAndEnqueue. simpl.
  set (ds := due_rows locked (clock 0%nat) t). set (st := Pass q t 0 []).
  assert (Hlater : forall c r n, row_gate contracts c r = Some (Some n) -> c < n).
  { intros c r n Hg. apply row_gate_next in Hg as (kind & _ & Hc). by eapply computeNextRun_later. }
  split_and!.
  - intros k r Hk Hn. by rewrite process_rows_other.
  - intros k r Hin. pose proof Hin as (Hk & _ & _)%elem_of_due_rows.
    destruct (process_rows_row contracts update_ok clock 1 ds st k r (due_rows_NoDup _ _ _) Hin Hk)
      as [Hs|(j & n & Hg & _ & Hs)]; [by left|]. right. exists j, n.
    split; [done|by eapply Hlater].
  - intros k r Hin Hh Hen.
    destruct (process_rows_healthy contracts update_ok clock 1 ds st k r (due_rows_NoDup _ _ _) Hin Hh Hen)
      as (j & n & Hg & Hs). exists j, n.
    split; [done|by eapply Hlater].
  - rewrite process_rows_account. simpl. unfold errors. simpl. lia.
Qed.

(** The boundary is default-deny.  A due row that is stamped newer than
    this build, whose job type has no registered contract, whose input fails
    its contract, or whose cadence does not compute, has no effect at all: no
    job is enqueued, no row moves, one error is counted. *)
Theorem poll_default_deny {S E} `{SchedulerEnqueuePort S E} registry update_ok c (st : pass) k r :
  1 < s_schema_version r \/ registry !! s_job_type r = None \/
  (exists contract, registry !! s_job_type r = Some contract /\ contract (s_input r) = false) \/
  parse_CadenceKind (s_cadence_kind r) = None \/
  (exists kind e, parse_CadenceKind (s_cadence_kind r) = Some kind /\
     computeNextRun kind (s_cadence_spec r) c = Throw e) ->
  process_row (Some registry) update_ok c st (k, r) =
  Pass (queue st) (table st) (enqueued st) (logs st ++ [ScheduleError k]).
Proof.
  intros Hc. apply (process_row_gated (Some registry) update_ok c st (k, r)).
  unfold row_gate, contract_ok, SCHEDULED_JOB_ENVELOPE_SCHEMA_VERSION. simpl.
  destruct (Z.ltb_spec 1 (s_schema_version r)); [done|].
  destruct Hc as [Hc|[Hc|[(f & Hf & Hc)|[Hc|(kind & e & Hk & Hc)]]]].
  - lia.
  - by rewrite Hc.
  - by rewrite Hf, Hc.
  - rewrite Hc. by destruct (registry !! _) as [f|]; [destruct (f _)|].
  - rewrite Hk, Hc. by destruct (registry !! _) as [f|]; [destruct (f _)|].
Qed.

(** At least once, one active job.  Over [BackgroundJobs] as the queue: a
    pass that enqueued its due schedules and then crashed, so that its
    [next_run_at] advances rolled back, left each schedule an active job; a
    retry over the same schedules enqueues nothing further, and any later pass
    keeps those very jobs. *)
Theorem poll_crash_retry sha mint dbclock contracts update_ok locked clock t q :
  (forall t0 i, t0 !! mint t0 i = None) -> dedup_unique q ->
  (forall k r, (k, r) ∈ due_rows locked (clock 0%nat) t ->
     bg_acceptable (s_input r) = true /\ forall c, is_Some (row_gate contracts c r)) ->
  let port := bg_port sha mint dbclock in
  let q1 := queue (pollAndEnqueue (H := port) contracts update_ok false locked clock q t) in
  (forall k r, (k, r) ∈ due_rows locked (clock 0%nat) t -> exists id, select_holder (Some k) q1 = Some id) /\
  (forall locked2 clock2, (forall p, p ∈ due_rows locked2 (clock2 0%nat) t ->
     p ∈ due_rows locked (clock 0%nat) t) ->
     queue (pollAndEnqueue (H := port) contracts update_ok false locked2 clock2 q1 t) = q1) /\
  (forall locked2 clock2 t2 k id,
     (forall p, p ∈ due_rows locked2 (clock2 0%nat) t2 -> bg_acceptable (s_input p.2) = true) ->
     select_holder (Some k) q1 = Some id ->
     select_holder (Some k)
       (queue (pollAndEnqueue (H := port) contracts update_ok false locked2 clock2 q1 t2)) = Some id).
Proof.
  intros Hmint Hu Hok port.
  pose proof (bg_port_lawful sha mint dbclock) as Hlaw. fold port in Hlaw.
  set (ds := due_rows locked (clock 0%nat) t).
  assert (Hacc : Forall (fun p => bg_acceptable (s_input p.2) = true) ds).
  { apply Forall_forall. intros [k r] Hin. by apply (Hok k r). }
  assert (Hen : forall q0 p, dedup_unique q0 -> p ∈ ds -> exists q' id,
    port_enqueue (SchedulerEnqueuePort := port) q0 (s_job_type p.2) (s_input p.2) p.1 = Ok (q', id)).
  { intros q0 [k r] _ Hin. destruct (Hok k r Hin) as [Ha _]. unfold bg_acceptable in Ha.
    destruct (payload_object (s_input r)) as [pl|] eqn:Ep; [|discriminate].
    cbn [port_enqueue port bg_port]. unfold enqueue. cbn [a_payload bg_args snd]. rewrite Ep.
    rewrite enqueue_loop_quiet. unfold try_insert. cbn [a_priority a_max_attempts a_dedup_key bg_args default].
    cbn -[select_holder]. destruct (select_holder (Some k) q0) as [h|] eqn:Eh; [by exists q0, h|].
    rewrite Hmint. eauto. }
  assert (Hinv : forall clk i l (st : pass), dedup_unique (queue st) ->
    dedup_unique (queue (process_rows (H := port) contracts update_ok clk i l st))).
  { intros clk i l. revert i. induction l as [|p l IH]; intros i st Hi; [done|]. simpl.
    apply IH. by eapply (process_row_inv (H := port) bg_acceptable dedup_unique). }
  assert (Hheld : forall k r, (k, r) ∈ ds -> exists id, select_holder (Some k)
      (queue (process_rows (H := port) contracts update_ok clock 1 ds (Pass q t 0 []))) = Some id).
  { intros k r Hin. apply (process_rows_enqueues (H := port) bg_acceptable dedup_unique
      contracts update_ok clock 1 ds (Pass q t 0 []) k r); try done. by apply (Hok k r). }
  cbv zeta. unfold pollAndEnqueue. fold ds. split_and!; [exact Hheld| |].
  - intros locked2 clock2 Hsub.
    rewrite (process_rows_absorbed (H := port) bg_acceptable dedup_unique); [done|].
    apply Forall_forall. intros [k r] Hin. specialize (Hsub _ Hin). split; [by apply (Hok k r)|].
    destruct (Hheld k r Hsub) as [id Hid]. by exists id.
  - intros locked2 clock2 t2 k id Ha Hid.
    apply (process_rows_holder (H := port) bg_acceptable dedup_unique);
      [by apply Hinv|by apply Forall_forall|done].
Qed.

(** Seeding is idempotent and never clobbers.  [ensureScheduledJobs]
    leaves every existing row (paused or re-cadenced by an operator) as it is,
    adds every missing seed due at once, changes nothing the second time, and
    installs only cadences that [computeNextRun] can compute. *)
Theorem ensureScheduledJobs_seeds clock clock2 t :
  let t' := ensureScheduledJobs clock t in
  (forall k r, t !! k = Some r -> t' !! k = Some r) /\
  (forall s, s ∈ CRON_SCHEDULES -> t !! seed_id s = None ->
     exists j, t' !! seed_id s = Some (seed_row (clock j) s)) /\
  ensureScheduledJobs clock2 t' = t' /\
  (forall s after, s ∈ CRON_SCHEDULES -> 0 <= after <= MAX_TIME - 86460000 ->
     exists n, computeNextRun (seed_kind s) (seed_spec s) after = Ok (Some n)).
Proof.
  assert (Hhas : forall s, s ∈ CRON_SCHEDULES -> t !! seed_id s = None ->
    exists j, ensureScheduledJobs clock t !! seed_id s = Some (seed_row (clock j) s)).
  { intros s Hs Hn. destruct (ensure_from_has clock 0 CRON_SCHEDULES t s Hs Hn) as (s' & j & Hs' & E & H).
    exists j. rewrite (seeds_ids_unique _ _ Hs' Hs E) in H. exact H. }
  split_and!; [intros k r; apply ensure_from_keeps|exact Hhas| |exact seed_cadence_ok].
  apply ensure_from_done. intros s Hs. destruct (t !! seed_id s) as [r|] eqn:E.
  - exists r. by apply ensure_from_keeps.
  - destruct (Hhas s Hs E) as [j ->]. by eexists.
Qed.

(** * Witnesses *)

Definition ex_sched : sched_row :=
  seed_row 0 (Seed "codemaster-mutex-janitor" "mutex_janitor" interval "300" (JObj [])).
Definition ex_table : gmap string sched_row := {[ "codemaster-mutex-janitor" := ex_sched ]}.
Definition ex_mint (t : gmap string bg_row) (_ : nat) : string := fresh (dom t).

Lemma poll_default_deny_witness :
  process_row (H := bg_port ex_sha ex_mint (fun _ _ => 0)) (Some ∅) (fun _ => true) 7
    (Pass ∅ ex_table 0 []) ("codemaster-mutex-janitor", ex_sched) =
  Pass ∅ ex_table 0 [ScheduleError "codemaster-mutex-janitor"].
Proof.
  apply (poll_default_deny (H := bg_port ex_sha ex_mint (fun _ _ => 0)) ∅ (fun _ => true) 7
    (Pass ∅ ex_table 0 []) "codemaster-mutex-janitor" ex_sched).
  right. left. reflexivity.
Defined.

Lemma poll_crash_retry_witness :
  exists id, select_holder (Some "codemaster-mutex-janitor")
    (queue (pollAndEnqueue (H := bg_port ex_sha ex_mint (fun _ _ => 0)) None (fun _ => false) false ∅
       (fun _ => 1000) ∅ ex_table)) = Some id.
Proof.
  apply (poll_crash_retry ex_sha ex_mint (fun _ _ => 0) None (fun _ => false) ∅ (fun _ => 1000) ex_table ∅)
    with (r := ex_sched).
  - intros t0 i. apply not_elem_of_dom, is_fresh.
  - intros key k1 r1 k2 r2 H. by rewrite lookup_empty in H.
  - intros k r Hin. apply elem_of_due_rows in Hin as (Hk & _). unfold ex_table in Hk.
    apply lookup_singleton_Some in Hk as [_ <-]. split; [reflexivity|]. intros c. by eexists.
  - apply elem_of_due_rows. split; [reflexivity|]. split; [set_solver|reflexivity].
Defined.
