(* ===== verification/CostCap.v ===== *)
(** [cost/enforcer.ts] and [cost/postgres_enforcer.ts]: the daily spend caps in
    front of every paid model call.  [CostCapEnforcer] is the interface both
    enforcers implement.  A Postgres call is one transaction; every reservation
    of a day updates the day's global row first and keeps its row lock to the
    commit, so the transactions that count apply one after the other, and a
    call is one atomic step.  Amounts are integer cents. *)
From stdpp Require Import base gmap sets list strings.
From Stdlib Require Import ZArith Lia.
From S2P Require Import Prelude.
Open Scope Z_scope.

(** * The interface *)

Inductive cost_error :=
| RangeErrorCents                  (* a negative amount *)
| BedrockBudgetExceeded (scope : string)
| CostCapLockTimeout               (* SQLSTATE 55P03, mapped *)
| TransactionAborted               (* 25P02: a statement after a failed one *)
| DailyRowMissing
| TotalNegative.                   (* [cost_daily_total_nonneg] *)

Record decision := Decision {
  cents_spent_today_global : Z;
  cents_spent_today_org : Z;
  cents_estimated : Z;
}.

Record call := Call { c_installation : string; c_estimated : Z; c_today : string }.

Definition ZERO_UUID : string := "00000000-0000-0000-0000-000000000000".

Class CostCapEnforcer (S : Type) := {
  checkOrRaise : S -> call -> result cost_error (S * decision);
  recordCallCost : S -> call -> Z -> result cost_error S;
  (** what an enforcer has on its books, and the caps it holds calls to *)
  global_spend : S -> string -> Z;
  org_spend : S -> string -> string -> Z;
  global_cap : S -> string -> Z;
  org_cap : S -> string -> string -> Z;
}.

(** What the model client relies on, whichever enforcer is injected. *)
Class LawfulEnforcer (S : Type) `{CostCapEnforcer S} := {
  (** a refused or failed call changes nothing by construction; an admitted one
      fits under both caps of the state it leaves, *)
  admitted_fits s a s' d : checkOrRaise s a = Ok (s', d) ->
    cents_spent_today_global d = global_spend s (c_today a) /\ 0 <= c_estimated a /\
    global_spend s (c_today a) + c_estimated a <= global_cap s' (c_today a) /\
    (c_installation a <> ZERO_UUID ->
       org_spend s (c_today a) (c_installation a) + c_estimated a
         <= org_cap s' (c_today a) (c_installation a));
  (** and once its actual cost is recorded, exactly that cost is on the books *)
  recorded_exactly s a s' d cost s'' :
    checkOrRaise s a = Ok (s', d) -> recordCallCost s' a cost = Ok s'' ->
    global_spend s'' (c_today a) = global_spend s (c_today a) + cost /\
    (c_installation a <> ZERO_UUID ->
       org_spend s'' (c_today a) (c_installation a) =
       org_spend s (c_today a) (c_installation a) + cost);
}.

(** * The in-memory enforcer *)

Definition DEFAULT_GLOBAL_CAP_CENTS : Z := 500000.
Definition DEFAULT_PER_ORG_CAP_CENTS : Z := 100000.

Record in_memory := InMemory {
  globalCapCents : Z;
  perOrgCapCents : Z;
  killSwitch : bool;
  globalSpend : gmap string Z;                (* today -> cents *)
  orgSpend : gmap (string * string) Z;        (* (today, installation) -> cents *)
  perOrgOverrides : gmap string Z;
}.

Definition getGlobalSpend (s : in_memory) (today : string) : Z := default 0 (globalSpend s !! today).
Definition getOrgSpend (s : in_memory) (today inst : string) : Z :=
  default 0 (orgSpend s !! (today, inst)).
Definition capForOrg (s : in_memory) (inst : string) : Z :=
  default (perOrgCapCents s) (perOrgOverrides s !! inst).

Definition mem_checkOrRaise (s : in_memory) (a : call) : result cost_error (in_memory * decision) :=
  guard? (0 <=? c_estimated a) else RangeErrorCents in
  guard? negb (killSwitch s) else BedrockBudgetExceeded "kill_switch" in
  guard? (getGlobalSpend s (c_today a) + c_estimated a <=? globalCapCents s)
    else BedrockBudgetExceeded "global" in
  guard? (getOrgSpend s (c_today a) (c_installation a) + c_estimated a <=? capForOrg s (c_installation a))
    else BedrockBudgetExceeded "per_org" in
  Ok (s, Decision (getGlobalSpend s (c_today a)) (getOrgSpend s (c_today a) (c_installation a))
           (c_estimated a)).

(** Non-reserving: the actual cost in full, [estimatedCents] ignored. *)
Definition mem_recordCallCost (s : in_memory) (a : call) (cost : Z) : result cost_error in_memory :=
  guard? (0 <=? cost) else RangeErrorCents in
  Ok {| globalCapCents := globalCapCents s; perOrgCapCents := perOrgCapCents s;
        killSwitch := killSwitch s;
        globalSpend := <[c_today a := getGlobalSpend s (c_today a) + cost]> (globalSpend s);
        orgSpend := <[(c_today a, c_installation a) :=
                        getOrgSpend s (c_today a) (c_installation a) + cost]> (orgSpend s);
        perOrgOverrides := perOrgOverrides s |}.

#[export] Instance in_memory_enforcer : CostCapEnforcer in_memory := {|
  checkOrRaise := mem_checkOrRaise;
  recordCallCost := mem_recordCallCost;
  global_spend := getGlobalSpend;
  org_spend := getOrgSpend;
  global_cap s _ := globalCapCents s;
  org_cap s _ inst := capForOrg s inst;
|}.

Lemma mem_check_Ok s a s' d :
  mem_checkOrRaise s a = Ok (s', d) ->
  s' = s /\ cents_spent_today_global d = getGlobalSpend s (c_today a) /\ 0 <= c_estimated a /\
  getGlobalSpend s (c_today a) + c_estimated a <= globalCapCents s /\
  getOrgSpend s (c_today a) (c_installation a) + c_estimated a <= capForOrg s (c_installation a).
Proof.
  unfold mem_checkOrRaise. destruct (Z.leb_spec 0 (c_estimated a)); [|discriminate].
  destruct (killSwitch s); [discriminate|]. simpl.
  destruct (Z.leb_spec (getGlobalSpend s (c_today a) + c_estimated a) (globalCapCents s)); [|discriminate].
  destruct (Z.leb_spec (getOrgSpend s (c_today a) (c_installation a) + c_estimated a)
    (capForOrg s (c_installation a))); [|discriminate].
  by intros [= <- <-].
Qed.

#[export] Instance in_memory_lawful : LawfulEnforcer in_memory.
Proof.
  split.
  - intros s a s' d (-> & ? & ? & ? & ?)%mem_check_Ok. done.
  - intros s a s' d cost s'' (-> & _)%mem_check_Ok. simpl. unfold mem_recordCallCost.
    destruct (0 <=? cost); [|discriminate]. intros [= <-].
    unfold getGlobalSpend, getOrgSpend. simpl. by rewrite !lookup_insert_eq.
Qed.

(** * The Postgres enforcer *)

(** [telemetry.cost_daily], keyed by [(today, scope, scope_id)]; the
    [cost_daily_global_has_zero_scope_id] CHECK leaves these two shapes. *)
Record daily_row := DailyRow { daily_total_cents : Z; cap_cents : Z }.
Definition gkey (today : string) : string * string := (today, ZERO_UUID).
Definition okey (today inst : string) : string * string := (today, inst).

Record cost_db := CostDb {
  cost_daily : gmap (string * string) daily_row;
  cap_overrides : gmap string (Z * option Z);     (* cap, expires_at *)
  cap_settings : gmap string Z;                   (* "global" / "per_org_default" *)
}.

Definition set_daily (m : gmap (string * string) daily_row) (db : cost_db) : cost_db :=
  CostDb m (cap_overrides db) (cap_settings db).

(** [INSERT ... VALUES (..., 0, cap) ON CONFLICT DO NOTHING]. *)
Definition ensure_row (k : string * string) (cap : Z) (m : gmap (string * string) daily_row)
    : gmap (string * string) daily_row :=
  match m !! k with Some _ => m | None => <[k := DailyRow 0 cap]> m end.

(** [refreshCapCents]. *)
Definition refreshCapCents (k : string * string) (cap : Z) (m : gmap (string * string) daily_row)
    : gmap (string * string) daily_row :=
  match m !! k with
  | Some r => if cap_cents r =? cap then m else <[k := DailyRow (daily_total_cents r) cap]> m
  | None => m
  end.

(** [UPDATE ... SET total = total + est WHERE ... AND total + est <= cap_cents
    RETURNING total]: the new table and the returned (post-update) total. *)
Definition gate (k : string * string) (est : Z) (m : gmap (string * string) daily_row)
    : option (gmap (string * string) daily_row * Z) :=
  match m !! k with
  | Some r => if daily_total_cents r + est <=? cap_cents r
              then Some (<[k := DailyRow (daily_total_cents r + est) (cap_cents r)]> m,
                         daily_total_cents r + est)
              else None
  | None => None
  end.

(** [readDailyRow], for the refusal message: its row must exist. *)
Definition readDailyRow (k : string * string) (m : gmap (string * string) daily_row)
    : result cost_error (Z * Z) :=
  match m !! k with
  | Some r => Ok (daily_total_cents r, cap_cents r)
  | None => Throw DailyRowMissing
  end.

(** [UPDATE ... SET total = total + diff], with the non-negativity CHECK; no
    row, nothing to do. *)
Definition adjust (k : string * string) (diff : Z) (m : gmap (string * string) daily_row)
    : result cost_error (gmap (string * string) daily_row) :=
  match m !! k with
  | Some r => guard? (0 <=? daily_total_cents r + diff) else TotalNegative in
              Ok (<[k := DailyRow (daily_total_cents r + diff) (cap_cents r)]> m)
  | None => Ok m
  end.

Section Postgres.
(** The constructor arguments. *)
Variable cfg_global cfg_org : Z.
Variable readCapsFromDb : bool.
(** The instant the clock reads; whether the row locks were granted within
    [lock_timeout]; whether the cap-configuration reads succeed. *)
Variable now : Z.
Variable locks_granted reads_ok : bool.

Definition unexpired (o : option Z) : bool :=
  match o with None => true | Some e => now <? e end.

(** [resolveEffectiveCap]: a failing read is swallowed and the fallback
    returned. *)
Definition resolve_global (db : cost_db) : Z :=
  if negb readCapsFromDb || negb reads_ok then cfg_global
  else default cfg_global (cap_settings db !! "global").

Definition resolve_org (inst : string) (db : cost_db) : Z :=
  if negb readCapsFromDb || negb reads_ok then cfg_org
  else match cap_overrides db !! inst with
       | Some (cap, expires) =>
           if unexpired expires then cap
           else default cfg_org (cap_settings db !! "per_org_default")
       | None => default cfg_org (cap_settings db !! "per_org_default")
       end.

(** A failed statement leaves the transaction aborted: every later statement
    of it fails (SQLSTATE 25P02), the swallowed error notwithstanding. *)
Definition aborted : bool := readCapsFromDb && negb reads_ok.

Definition platform (a : call) : bool := String.eqb (c_installation a) ZERO_UUID.

Definition refreshed (a : call) (db : cost_db) (m : gmap (string * string) daily_row)
    : gmap (string * string) daily_row :=
  let m1 := refreshCapCents (gkey (c_today a)) (resolve_global db) m in
  if platform a then m1
  else refreshCapCents (okey (c_today a) (c_installation a)) (resolve_org (c_installation a) db) m1.

Definition pg_checkOrRaise (db : cost_db) (a : call) : result cost_error (cost_db * decision) :=
  guard? (0 <=? c_estimated a) else RangeErrorCents in
  guard? locks_granted else CostCapLockTimeout in
  let m0 := ensure_row (gkey (c_today a)) cfg_global (cost_daily db) in
  let m1 := if platform a then m0
            else ensure_row (okey (c_today a) (c_installation a)) cfg_org m0 in
  guard? negb aborted else TransactionAborted in
  let m2 := refreshed a db m1 in
  match gate (gkey (c_today a)) (c_estimated a) m2 with
  | None => let? _ := readDailyRow (gkey (c_today a)) m2 in Throw (BedrockBudgetExceeded "global")
  | Some (m3, g) =>
      if platform a
      then Ok (set_daily m3 db, Decision (g - c_estimated a) 0 (c_estimated a))
      else match gate (okey (c_today a) (c_installation a)) (c_estimated a) m3 with
           | None => let? _ := readDailyRow (okey (c_today a) (c_installation a)) m3 in
                     Throw (BedrockBudgetExceeded "per_org")
           | Some (m4, o) =>
               Ok (set_daily m4 db,
                   Decision (g - c_estimated a) (o - c_estimated a) (c_estimated a))
           end
  end.

Definition pg_recordCallCost (db : cost_db) (a : call) (cost : Z) : result cost_error cost_db :=
  guard? (0 <=? cost) else RangeErrorCents in
  let diff := cost - c_estimated a in
  if diff =? 0 then Ok db
  else
    guard? locks_granted else CostCapLockTimeout in
    guard? negb aborted else TransactionAborted in
    let m1 := refreshed a db (cost_daily db) in
    let? m2 := adjust (gkey (c_today a)) diff m1 in
    let? m3 := if platform a then Ok m2
               else adjust (okey (c_today a) (c_installation a)) diff m2 in
    Ok (set_daily m3 db).

Definition row_total (k : string * string) (m : gmap (string * string) daily_row) : Z :=
  match m !! k with Some r => daily_total_cents r | None => 0 end.
Definition row_cap (k : string * string) (m : gmap (string * string) daily_row) : Z :=
  match m !! k with Some r => cap_cents r | None => 0 end.

#[export] Instance pg_enforcer : CostCapEnforcer cost_db := {|
  checkOrRaise := pg_checkOrRaise;
  recordCallCost := pg_recordCallCost;
  global_spend db today := row_total (gkey today) (cost_daily db);
  org_spend db today inst := row_total (okey today inst) (cost_daily db);
  global_cap db today := row_cap (gkey today) (cost_daily db);
  org_cap db today inst := row_cap (okey today inst) (cost_daily db);
|}.

(** ** Lemmas *)

Lemma ensure_row_total k cap m j : row_total j (ensure_row k cap m) = row_total j m.
Proof.
  unfold ensure_row, row_total. destruct (m !! k) eqn:E; [done|].
  destruct (decide (j = k)) as [->|]; [by rewrite lookup_insert_eq, E|by rewrite lookup_insert_ne].
Qed.

Lemma ensure_row_has k cap m : is_Some (ensure_row k cap m !! k).
Proof. unfold ensure_row. destruct (m !! k) eqn:E; [by rewrite E|by rewrite lookup_insert_eq]. Qed.

Lemma ensure_row_mono k cap m j : is_Some (m !! j) -> is_Some (ensure_row k cap m !! j).
Proof.
  unfold ensure_row. intros Hj. destruct (m !! k) eqn:E; [done|].
  rewrite lookup_insert_ne; [done|]. intros ->. rewrite E in Hj. by destruct Hj.
Qed.

Lemma refresh_total k cap m j : row_total j (refreshCapCents k cap m) = row_total j m.
Proof.
  unfold refreshCapCents, row_total. destruct (m !! k) as [r|] eqn:E; [|done].
  destruct (_ =? _); [done|].
  destruct (decide (j = k)) as [->|]; [by rewrite lookup_insert_eq, E|by rewrite lookup_insert_ne].
Qed.

Lemma refresh_mono k cap m j : is_Some (m !! j) -> is_Some (refreshCapCents k cap m !! j).
Proof.
  unfold refreshCapCents. intros Hj. destruct (m !! k) as [r|] eqn:E; [|done].
  destruct (_ =? _); [done|].
  destruct (decide (j = k)) as [->|]; [by rewrite lookup_insert_eq|by rewrite lookup_insert_ne].
Qed.

Lemma refresh_cap k cap m : is_Some (m !! k) -> row_cap k (refreshCapCents k cap m) = cap.
Proof.
  unfold refreshCapCents, row_cap. intros [r Hr]. rewrite Hr.
  destruct (Z.eqb_spec (cap_cents r) cap); [by rewrite Hr|by rewrite lookup_insert_eq].
Qed.

Lemma refresh_cap_ne k cap m j : j <> k -> row_cap j (refreshCapCents k cap m) = row_cap j m.
Proof.
  unfold refreshCapCents, row_cap. intros Hne. destruct (m !! k) as [r|]; [|done].
  destruct (_ =? _); [done|]. by rewrite lookup_insert_ne.
Qed.

Lemma refreshed_total a db m j : row_total j (refreshed a db m) = row_total j m.
Proof. unfold refreshed. destruct (platform a); by rewrite !refresh_total. Qed.

Lemma refreshed_mono a db m j : is_Some (m !! j) -> is_Some (refreshed a db m !! j).
Proof. unfold refreshed. intros. destruct (platform a); repeat apply refresh_mono; done. Qed.

Lemma platform_false a : platform a = false <-> c_installation a <> ZERO_UUID.
Proof. unfold platform. by rewrite String.eqb_neq. Qed.

Lemma keys_ne a : platform a = false -> okey (c_today a) (c_installation a) <> gkey (c_today a).
Proof. rewrite platform_false. unfold okey, gkey. intros H [= E]. done. Qed.

Lemma gate_Some k est m m' tot :
  gate k est m = Some (m', tot) ->
  tot = row_total k m + est /\ tot <= row_cap k m /\
  row_total k m' = tot /\ row_cap k m' = row_cap k m /\
  (forall j, j <> k -> m' !! j = m !! j).
Proof.
  unfold gate, row_total, row_cap. destruct (m !! k) as [r|]; [|discriminate].
  destruct (Z.leb_spec (daily_total_cents r + est) (cap_cents r)); [|discriminate].
  intros [= <- <-]. rewrite lookup_insert_eq. split_and!; try done.
  intros j Hj. by rewrite lookup_insert_ne.
Qed.

Lemma gate_None k est m :
  is_Some (m !! k) -> gate k est m = None -> row_cap k m < row_total k m + est.
Proof.
  unfold gate, row_total, row_cap. intros [r ->].
  destruct (Z.leb_spec (daily_total_cents r + est) (cap_cents r)); [discriminate|done].
Qed.

Lemma adjust_Ok k diff m m' :
  adjust k diff m = Ok m' -> is_Some (m !! k) ->
  row_total k m' = row_total k m + diff /\ (forall j, j <> k -> row_total j m' = row_total j m) /\
  (forall j, is_Some (m !! j) -> is_Some (m' !! j)).
Proof.
  unfold adjust, row_total. intros H [r Hr]. rewrite Hr in *. destruct (_ <=? _); [|discriminate].
  injection H as <-. rewrite lookup_insert_eq. split_and!; [done| |].
  - intros j Hj. by rewrite lookup_insert_ne.
  - intros j Hj. destruct (decide (j = k)) as [->|];
      [by rewrite lookup_insert_eq|by rewrite lookup_insert_ne].
Qed.

(** The table the gates see. *)
Definition gate_table (db : cost_db) (a : call) : gmap (string * string) daily_row :=
  let m0 := ensure_row (gkey (c_today a)) cfg_global (cost_daily db) in
  refreshed a db (if platform a then m0
                  else ensure_row (okey (c_today a) (c_installation a)) cfg_org m0).

Lemma gate_table_total db a k : row_total k (gate_table db a) = row_total k (cost_daily db).
Proof.
  unfold gate_table. rewrite refreshed_total.
  destruct (platform a); by rewrite ?ensure_row_total.
Qed.

Lemma gate_table_has_global db a : is_Some (gate_table db a !! gkey (c_today a)).
Proof.
  apply refreshed_mono. destruct (platform a); [apply ensure_row_has|].
  apply ensure_row_mono, ensure_row_has.
Qed.

Lemma gate_table_has_org db a :
  platform a = false -> is_Some (gate_table db a !! okey (c_today a) (c_installation a)).
Proof. intros E. unfold gate_table. rewrite E. apply refreshed_mono, ensure_row_has. Qed.

Lemma gate_table_caps db a :
  row_cap (gkey (c_today a)) (gate_table db a) = resolve_global db /\
  (platform a = false ->
   row_cap (okey (c_today a) (c_installation a)) (gate_table db a) = resolve_org (c_installation a) db).
Proof.
  unfold gate_table, refreshed. destruct (platform a) eqn:E.
  - split; [|done]. apply refresh_cap, ensure_row_has.
  - split.
    + rewrite refresh_cap_ne by (apply not_eq_sym, keys_ne; done).
      apply refresh_cap, ensure_row_mono, ensure_row_has.
    + intros _. apply refresh_cap, refresh_mono, ensure_row_has.
Qed.

Lemma pg_check_Ok db a db' d :
  pg_checkOrRaise db a = Ok (db', d) ->
  0 <= c_estimated a /\ locks_granted = true /\ aborted = false /\
  cents_estimated d = c_estimated a /\
  cents_spent_today_global d = row_total (gkey (c_today a)) (cost_daily db) /\
  row_total (gkey (c_today a)) (cost_daily db') =
    row_total (gkey (c_today a)) (cost_daily db) + c_estimated a /\
  row_cap (gkey (c_today a)) (cost_daily db') = resolve_global db /\
  row_total (gkey (c_today a)) (cost_daily db') <= resolve_global db /\
  is_Some (cost_daily db' !! gkey (c_today a)) /\
  (platform a = false ->
     row_total (okey (c_today a) (c_installation a)) (cost_daily db') =
       row_total (okey (c_today a) (c_installation a)) (cost_daily db) + c_estimated a /\
     row_cap (okey (c_today a) (c_installation a)) (cost_daily db') = resolve_org (c_installation a) db /\
     row_total (okey (c_today a) (c_installation a)) (cost_daily db') <= resolve_org (c_installation a) db /\
     is_Some (cost_daily db' !! okey (c_today a) (c_installation a))) /\
  (forall k, k <> gkey (c_today a) ->
     (platform a = true \/ k <> okey (c_today a) (c_installation a)) ->
     row_total k (cost_daily db') = row_total k (cost_daily db)) /\
  cap_overrides db' = cap_overrides db /\ cap_settings db' = cap_settings db.
Proof.
  unfold pg_checkOrRaise. intros H.
  destruct (Z.leb_spec 0 (c_estimated a)); [|discriminate].
  destruct locks_granted; [|discriminate].
  destruct (negb aborted) eqn:Ea; [|discriminate]. apply negb_true_iff in Ea.
  fold (gate_table db a) in H.
  pose proof (gate_table_caps db a) as [Hcg Hco].
  destruct (gate (gkey (c_today a)) _ _) as [[m3 g]|] eqn:Eg.
  2:{ destruct (readDailyRow _ _); discriminate. }
  pose proof Eg as (Hg & Hgc & Hgt & Hgcap & Hgo)%gate_Some. rewrite gate_table_total in Hg.
  assert (Hg3 : is_Some (m3 !! gkey (c_today a))).
  { unfold gate in Eg. destruct (_ !! _); [|discriminate]. destruct (_ <=? _); [|discriminate].
    injection Eg as <- _. by rewrite lookup_insert_eq. }
  destruct (platform a) eqn:Ep.
  - injection H as <- <-. simpl. split_and!; try done; try lia.
    intros k Hk _. unfold row_total. rewrite Hgo by done. fold (row_total k (gate_table db a)).
    by rewrite gate_table_total.
  - specialize (Hco eq_refl). pose proof (keys_ne _ Ep) as Hkn.
    destruct (gate (okey _ _) _ _) as [[m4 o]|] eqn:Eo.
    2:{ destruct (readDailyRow _ _); discriminate. }
    pose proof Eo as (Ho & Hoc & Hot & Hocap & Hoo)%gate_Some.
    assert (E3 : row_total (okey (c_today a) (c_installation a)) m3 =
      row_total (okey (c_today a) (c_installation a)) (cost_daily db)).
    { unfold row_total at 1. rewrite Hgo by done.
      fold (row_total (okey (c_today a) (c_installation a)) (gate_table db a)).
      apply gate_table_total. }
    assert (E4 : row_cap (okey (c_today a) (c_installation a)) m3 = resolve_org (c_installation a) db).
    { unfold row_cap. rewrite Hgo by done. exact Hco. }
    assert (Ho4 : is_Some (m4 !! okey (c_today a) (c_installation a))).
    { unfold gate in Eo. destruct (_ !! _); [|discriminate]. destruct (_ <=? _); [|discriminate].
      injection Eo as <- _. by rewrite lookup_insert_eq. }
    assert (Hsame : m4 !! gkey (c_today a) = m3 !! gkey (c_today a)) by (apply Hoo; done).
    injection H as <- <-. simpl. unfold row_total at 2 4, row_cap at 1. rewrite Hsame.
    fold (row_total (gkey (c_today a)) m3). fold (row_cap (gkey (c_today a)) m3).
    split_and!; try done; try lia.
    + intros _. split_and!; try done; lia.
    + intros k Hk [?|Hk']; [done|]. unfold row_total. rewrite Hoo, Hgo by done.
      fold (row_total k (gate_table db a)). by rewrite gate_table_total.
Qed.

(** Settling adds the difference to the rows the call touched. *)
Lemma pg_record_Ok db a cost db' :
  pg_recordCallCost db a cost = Ok db' ->
  is_Some (cost_daily db !! gkey (c_today a)) ->
  (platform a = false -> is_Some (cost_daily db !! okey (c_today a) (c_installation a))) ->
  (forall k, is_Some (cost_daily db !! k) -> is_Some (cost_daily db' !! k)) /\
  (forall k, row_total k (cost_daily db') = row_total k (cost_daily db) +
     if decide (k = gkey (c_today a) \/ k = okey (c_today a) (c_installation a))
     then cost - c_estimated a else 0).
Proof.
  unfold pg_recordCallCost. intros H Hg Ho.
  destruct (0 <=? cost); [|discriminate].
  destruct (Z.eqb_spec (cost - c_estimated a) 0) as [E0|E0].
  { injection H as <-. split; [done|]. intros k. destruct (decide _); lia. }
  destruct locks_granted; [|discriminate]. destruct (negb aborted); [|discriminate].
  apply rbind_ok in H as (m2 & H2 & H). apply rbind_ok in H as (m3 & H3 & H).
  injection H as <-. simpl.
  pose proof (refreshed_mono a db (cost_daily db)) as Hmono.
  pose proof (refreshed_total a db (cost_daily db)) as Htot.
  apply adjust_Ok in H2 as (Hk2 & Ho2 & Hm2); [|by apply Hmono].
  destruct (platform a) eqn:Ep.
  - injection H3 as <-. apply String.eqb_eq in Ep. split; [eauto|].
    intros k. unfold okey. rewrite Ep. fold (gkey (c_today a)).
    destruct (decide _) as [[-> | ->]|Hn]; [rewrite Hk2, Htot; done..|].
    rewrite Ho2, Htot; [lia|]. intros ->. apply Hn. auto.
  - pose proof (keys_ne _ Ep) as Hkn.
    apply adjust_Ok in H3 as (Hk3 & Ho3 & Hm3); [|by apply Hm2, Hmono, Ho].
    split; [eauto|]. intros k. destruct (decide _) as [[-> | ->]|Hn].
    + rewrite Ho3, Hk2, Htot by (by apply not_eq_sym). done.
    + rewrite Hk3, Ho2, Htot by done. done.
    + rewrite Ho3, Ho2, Htot; [lia|intros ->; apply Hn; auto|intros ->; apply Hn; auto].
Qed.

#[export] Instance pg_lawful : LawfulEnforcer cost_db.
Proof.
  split.
  - intros db a db' d H. cbn in H. pose proof H as (? & _ & _ & _ & Hs & Hg & Hc & Hle & _ & Ho & _)%pg_check_Ok.
    cbn. split_and!; [done|done|lia|]. intros Hz%platform_false.
    destruct (Ho Hz) as (? & ? & ? & _). lia.
  - intros db a db' d cost db'' H H'. cbn in H, H'. cbn.
    pose proof H as (_ & _ & _ & _ & _ & Hg & _ & _ & Hsg & Ho & _)%pg_check_Ok.
    apply pg_record_Ok in H' as [_ H']; [|done|intros E; by apply Ho].
    rewrite H', decide_True by auto. split; [lia|]. intros Hz%platform_false.
    rewrite H', decide_True by auto. destruct (Ho Hz) as (? & _). lia.
Qed.
End Postgres.

(** * The day's books under concurrent calls *)

(** The calls that hold a reservation and the settled ones with their cost. *)
Record books := Books {
  b_db : cost_db;
  b_inflight : list call;
  b_settled : list (call * Z);
}.

(** The rows a call is billed to. *)
Definition touches (k : string * string) (a : call) : bool :=
  bool_decide (k = gkey (c_today a) \/ k = okey (c_today a) (c_installation a)).

Fixpoint billed (k : string * string) (l : list (call * Z)) : Z :=
  match l with
  | [] => 0
  | (a, n) :: l' => (if touches k a then n else 0) + billed k l'
  end.

Definition estimates (l : list call) : list (call * Z) := map (fun a => (a, c_estimated a)) l.

(** A committed transaction, or an administrator's edit of the cap tables. *)
Inductive books_step (cfg_global cfg_org : Z) (readCaps : bool) : books -> books -> Prop :=
| b_reserve now locks_granted reads_ok b a db' d :
    pg_checkOrRaise cfg_global cfg_org readCaps now locks_granted reads_ok (b_db b) a = Ok (db', d) ->
    books_step cfg_global cfg_org readCaps b (Books db' (a :: b_inflight b) (b_settled b))
| b_settle now locks_granted reads_ok b l1 a l2 cost db' :
    b_inflight b = l1 ++ a :: l2 ->
    pg_recordCallCost cfg_global cfg_org readCaps now locks_granted reads_ok (b_db b) a cost = Ok db' ->
    books_step cfg_global cfg_org readCaps b (Books db' (l1 ++ l2) ((a, cost) :: b_settled b))
| b_admin b overrides settings :
    books_step cfg_global cfg_org readCaps b
      (Books (CostDb (cost_daily (b_db b)) overrides settings) (b_inflight b) (b_settled b)).

Lemma billed_app k l1 l2 : billed k (l1 ++ l2) = billed k l1 + billed k l2.
Proof. induction l1 as [|[a n] l1 IH]; simpl; [done|]. rewrite IH. lia. Qed.

Lemma billed_nonneg k l : (forall a n, (a, n) ∈ l -> 0 <= n) -> 0 <= billed k l.
Proof.
  induction l as [|[a n] l IH]; simpl; intros H; [done|].
  pose proof (H a n ltac:(apply elem_of_cons; auto)).
  assert (0 <= billed k l) by (apply IH; intros b m Hb; apply (H b m), elem_of_cons; auto).
  destruct (touches k a); lia.
Qed.

(** What every reachable state of the books satisfies. *)
Record balanced (db0 : cost_db) (b : books) : Prop := Balanced {
  bal_total k : row_total k (cost_daily (b_db b)) =
    row_total k (cost_daily db0) + billed k (estimates (b_inflight b)) + billed k (b_settled b);
  bal_rows a : a ∈ b_inflight b -> is_Some (cost_daily (b_db b) !! gkey (c_today a)) /\
    is_Some (cost_daily (b_db b) !! okey (c_today a) (c_installation a));
  bal_est a : a ∈ b_inflight b -> 0 <= c_estimated a;
  bal_cost a n : (a, n) ∈ b_settled b -> 0 <= n;
}.

Lemma estimates_app l1 l2 : estimates (l1 ++ l2) = estimates l1 ++ estimates l2.
Proof. apply map_app. Qed.

Lemma pg_check_rows cfg_global cfg_org rc now lg ok db a db' d :
  pg_checkOrRaise cfg_global cfg_org rc now lg ok db a = Ok (db', d) ->
  0 <= c_estimated a /\
  is_Some (cost_daily db' !! gkey (c_today a)) /\
  is_Some (cost_daily db' !! okey (c_today a) (c_installation a)) /\
  forall k, row_total k (cost_daily db') =
    row_total k (cost_daily db) + (if touches k a then c_estimated a else 0).
Proof.
  intros (He & _ & _ & _ & _ & Hg & _ & _ & Hsg & Ho & Hk & _)%pg_check_Ok.
  destruct (platform a) eqn:Ep.
  - assert (okey (c_today a) (c_installation a) = gkey (c_today a)) as Ek.
    { apply String.eqb_eq in Ep. unfold okey, gkey. by rewrite Ep. }
    rewrite Ek. split_and!; try done. intros k. unfold touches. rewrite Ek.
    case_bool_decide as E; [destruct E as [-> | ->]; lia|].
    rewrite Hk; [lia|intros ->; apply E; auto|auto].
  - destruct (Ho eq_refl) as (Hot & _ & _ & Hso). split_and!; try done.
    intros k. unfold touches. case_bool_decide as E; [destruct E as [-> | ->]; lia|].
    rewrite Hk; [lia|intros ->; apply E; auto|right; intros ->; apply E; auto].
Qed.

Lemma pg_check_mono cfg_global cfg_org rc now lg ok db a db' d k :
  pg_checkOrRaise cfg_global cfg_org rc now lg ok db a = Ok (db', d) ->
  is_Some (cost_daily db !! k) -> is_Some (cost_daily db' !! k).
Proof.
  unfold pg_checkOrRaise. intros H Hk.
  destruct (0 <=? c_estimated a); [|discriminate].
  destruct lg; [|discriminate]. destruct (negb _); [|discriminate].
  fold (gate_table cfg_global cfg_org rc now ok db a) in H.
  assert (Ht : is_Some (gate_table cfg_global cfg_org rc now ok db a !! k)).
  { apply refreshed_mono. destruct (platform a); repeat apply ensure_row_mono; done. }
  assert (Hgate : forall j m m' t, gate j (c_estimated a) m = Some (m', t) ->
    is_Some (m !! k) -> is_Some (m' !! k)).
  { clear. unfold gate. intros j m m' t H Hk. destruct (m !! j) eqn:E; [|discriminate].
    destruct (_ <=? _); [|discriminate]. injection H as <- <-.
    destruct (decide (k = j)) as [->|]; [by rewrite lookup_insert_eq|by rewrite lookup_insert_ne]. }
  destruct (gate (gkey (c_today a)) _ _) as [[m3 g]|] eqn:E3; [|destruct (readDailyRow _ _); discriminate].
  apply Hgate in E3; [|done].
  destruct (platform a); [by injection H as <- <-|].
  destruct (gate (okey _ _) _ m3) as [[m4 o]|] eqn:E4; [|destruct (readDailyRow _ _); discriminate].
  apply Hgate in E4; [|done]. by injection H as <- <-.
Qed.

Lemma balanced_step cfg_global cfg_org rc db0 b b' :
  balanced db0 b -> books_step cfg_global cfg_org rc b b' -> balanced db0 b'.
Proof.
  intros [Ht Hr He Hc] Hstep.
  destruct Hstep as [now lg ok b a db' d H|now lg ok b l1 a l2 cost db' Ein H|b o st].
  - pose proof (pg_check_rows _ _ _ _ _ _ _ _ _ _ H) as (Hpos & Hg & Ho & Htot).
    split; simpl; [| | |done].
    + intros k. rewrite Htot, Ht. lia.
    + intros a' [->|Hin]%elem_of_cons; [done|].
      split; eapply pg_check_mono; try exact H; by apply Hr.
    + intros a' [->|Hin]%elem_of_cons; auto.
  - destruct (Hr a) as [Hg Ho]; [rewrite Ein; set_solver|].
    assert (0 <= cost) as Hcost.
    { unfold pg_recordCallCost in H. by destruct (Z.leb_spec 0 cost). }
    apply pg_record_Ok in H as [Hm Htot]; [|done|done].
    split; simpl.
    + intros k. rewrite Htot, Ht, Ein, !estimates_app, !billed_app. simpl. unfold touches.
      destruct (decide _) as [D|D]; [rewrite bool_decide_eq_true_2 by done|rewrite bool_decide_eq_false_2 by done]; lia.
    + intros a' Hin. destruct (Hr a') as [? ?]; [rewrite Ein; set_solver|]. auto.
    + intros a' Hin. apply He. rewrite Ein. set_solver.
    + intros a' n [[= -> ->]|Hin]%elem_of_cons; eauto.
  - by split.
Qed.

Lemma balanced_start db0 : balanced db0 (Books db0 [] []).
Proof. split; simpl; [intros; lia|by intros ? ?%elem_of_nil..|by intros ? ? ?%elem_of_nil]. Qed.

Lemma balanced_reachable cfg_global cfg_org rc db0 b :
  rtc (books_step cfg_global cfg_org rc) (Books db0 [] []) b -> balanced db0 b.
Proof.
  intros H. pose proof (balanced_start db0) as Hi. revert Hi. induction H as [|b1 b2 b3 H12 _ IH]; [done|]. intros. by eapply IH, balanced_step.
Qed.

Lemma billed_ge_member k a l1 l2 :
  (forall x, x ∈ l1 ++ a :: l2 -> 0 <= c_estimated x) -> touches k a = true ->
  c_estimated a <= billed k (estimates (l1 ++ a :: l2)).
Proof.
  intros Hpos Ha. rewrite estimates_app, billed_app. simpl. rewrite Ha.
  assert (forall l, (forall x, x ∈ l -> 0 <= c_estimated x) -> 0 <= billed k (estimates l)) as Hn.
  { intros l Hl. apply billed_nonneg. unfold estimates. intros x n Hx.
    apply list_elem_of_fmap in Hx as (y & [= -> ->] & Hy). by apply Hl. }
  assert (0 <= billed k (estimates l1)) by (apply Hn; intros x Hx; apply Hpos; set_solver).
  assert (0 <= billed k (estimates l2)) by (apply Hn; intros x Hx; apply Hpos; set_solver).
  lia.
Qed.

(** The rows of a call in flight hold its estimate. *)
Lemma in_flight_covered db0 b a k :
  (forall k, 0 <= row_total k (cost_daily db0)) -> balanced db0 b -> a ∈ b_inflight b -> touches k a = true ->
  c_estimated a <= row_total k (cost_daily (b_db b)).
Proof.
  intros H0 [Ht Hr He Hc] Hin Hk. rewrite Ht. specialize (H0 k). pose proof (billed_nonneg k _ Hc).
  apply list_elem_of_split in Hin as (l1 & l2 & E). rewrite E.
  pose proof (billed_ge_member k a l1 l2) as Hm. rewrite E in He. specialize (Hm He Hk). lia.
Qed.

Lemma adjust_nonneg k diff m :
  0 <= row_total k m + diff -> exists m', adjust k diff m = Ok m'.
Proof.
  unfold adjust, row_total. destruct (m !! k) as [r|]; [|eauto].
  intros H%Z.leb_le. rewrite H. eauto.
Qed.

(** A settlement that finds the estimate on its rows passes the CHECK. *)
Lemma pg_record_settles cfg_global cfg_org rc now lg ok db a cost :
  0 <= cost -> is_Some (cost_daily db !! gkey (c_today a)) ->
  c_estimated a <= row_total (gkey (c_today a)) (cost_daily db) ->
  c_estimated a <= row_total (okey (c_today a) (c_installation a)) (cost_daily db) ->
  lg = true -> aborted rc ok = false ->
  is_ok (pg_recordCallCost cfg_global cfg_org rc now lg ok db a cost) = true.
Proof.
  intros Hc Hrow Hg Ho -> Ha. unfold pg_recordCallCost. rewrite Ha.
  apply Z.leb_le in Hc as Hc'. rewrite Hc'. simpl.
  destruct (_ =? 0); [done|].
  set (m1 := refreshed _ _ _ _ _ _ _ _).
  destruct (adjust_nonneg (gkey (c_today a)) (cost - c_estimated a) m1) as [m2 Hm2].
  { unfold m1. rewrite refreshed_total. lia. }
  rewrite Hm2. simpl. destruct (platform a) eqn:Ep; [done|].
  destruct (adjust_nonneg (okey (c_today a) (c_installation a)) (cost - c_estimated a) m2) as [m3 Hm3].
  { apply adjust_Ok in Hm2 as (_ & Hm2 & _); [|by apply refreshed_mono].
    rewrite Hm2 by (apply keys_ne; done). unfold m1. rewrite refreshed_total. lia. }
  by rewrite Hm3.
Qed.

(** C38: the books balance under any interleaving of reservations,
    settlements and cap edits: on every row the spend is the opening spend
    plus the estimates still in flight plus the actual costs settled; and an
    in-flight call can always be settled at any actual cost, so that
    [cost_daily_total_nonneg] never rejects a settlement (only a lock timeout
    or an aborted read can). *)
Theorem cost_ledger_balances cfg_global cfg_org rc db0 b :
  (forall k, 0 <= row_total k (cost_daily db0)) ->
  rtc (books_step cfg_global cfg_org rc) (Books db0 [] []) b ->
  (forall k, row_total k (cost_daily (b_db b)) =
     row_total k (cost_daily db0) + billed k (estimates (b_inflight b)) + billed k (b_settled b)) /\
  (forall a cost now, a ∈ b_inflight b -> 0 <= cost ->
     is_ok (pg_recordCallCost cfg_global cfg_org rc now true true (b_db b) a cost) = true).
Proof.
  intros H0 Hb%balanced_reachable. split; [apply (bal_total _ _ Hb)|].
  intros a cost now Hin Hcost. destruct (bal_rows _ _ Hb a Hin) as [Hg Ho].
  apply pg_record_settles; [done..| | |done|by destruct rc]; apply (in_flight_covered db0); try done;
    apply bool_decide_eq_true_2; auto.
Qed.

Definition demo_books : books :=
  Books (CostDb {[ gkey "d" := DailyRow 70 500000; okey "d" "i" := DailyRow 70 100000 ]} ∅ ∅)
    [Call "i" 70 "d"] [].

Lemma cost_ledger_balances_witness :
  row_total (gkey "d") (cost_daily (b_db demo_books)) = 70 /\
  is_ok (pg_recordCallCost 500000 100000 false 0 true true (b_db demo_books) (Call "i" 70 "d") 3) = true.
Proof.
  assert (H : rtc (books_step 500000 100000 false) (Books (CostDb ∅ ∅ ∅) [] []) demo_books).
  { eapply rtc_l; [|apply rtc_refl].
    apply (b_reserve 500000 100000 false 0 true true (Books (CostDb ∅ ∅ ∅) [] []) (Call "i" 70 "d")
      (b_db demo_books) (Decision 0 0 70)). vm_compute. reflexivity. }
  destruct (cost_ledger_balances 500000 100000 false (CostDb ∅ ∅ ∅) demo_books) as [H1 H2].
  - intros k. unfold row_total. simpl. rewrite lookup_empty. lia.
  - exact H.
  - split; [reflexivity|]. apply H2; [|lia]. apply elem_of_cons. by left.
Defined.

(** The reservation gate of the Postgres enforcer.  With the row lock
    granted and the caps readable, a non-negative estimate is admitted exactly
    when the prior spend plus the estimate fits under the effective global cap
    and, for an organisation's call, under its effective cap; an admitted call
    reports the prior spend and leaves the rows it is billed to increased by
    the estimate, hence never above the cap; a refusal names the first cap
    that does not fit and, a rolled-back transaction, leaves no state. *)
Theorem pg_reservation_gate cfg_global cfg_org rc now db a :
  0 <= c_estimated a ->
  let g := row_total (gkey (c_today a)) (cost_daily db) in
  let o := row_total (okey (c_today a) (c_installation a)) (cost_daily db) in
  let gcap := resolve_global cfg_global rc true db in
  let ocap := resolve_org cfg_org rc now true (c_installation a) db in
  match pg_checkOrRaise cfg_global cfg_org rc now true true db a with
  | Ok (db', d) =>
      g + c_estimated a <= gcap /\ (platform a = false -> o + c_estimated a <= ocap) /\
      d = Decision g (if platform a then 0 else o) (c_estimated a) /\
      forall k, row_total k (cost_daily db') =
        row_total k (cost_daily db) + (if touches k a then c_estimated a else 0)
  | Throw e =>
      (gcap < g + c_estimated a /\ e = BedrockBudgetExceeded "global") \/
      (g + c_estimated a <= gcap /\ platform a = false /\ ocap < o + c_estimated a /\
       e = BedrockBudgetExceeded "per_org")
  end.
Proof.
  intros Hest. cbv zeta.
  destruct (pg_checkOrRaise _ _ _ _ _ _ _ _) as [[db' d]|e] eqn:H.
  - pose proof (pg_check_rows _ _ _ _ _ _ _ _ _ _ H) as (_ & _ & _ & Htot).
    pose proof H as (_ & _ & _ & Hd3 & Hd1 & Hg & _ & Hgle & _ & Ho & _)%pg_check_Ok.
    split_and!; [lia|intros E; destruct (Ho E) as (? & _ & ? & _); lia| |done].
    destruct d as [d1 d2 d3]; simpl in *; subst d1 d3. f_equal.
    revert H. unfold pg_checkOrRaise. rewrite (proj2 (Z.leb_le _ _) Hest).
    destruct (negb _); [|discriminate].
    destruct (gate (gkey _) _ _) as [[m3 g]|]; [|destruct (readDailyRow _ _); discriminate].
    destruct (platform a); [by intros [= _ _ <-]|]. destruct (Ho eq_refl) as (Ho1 & _).
    destruct (gate (okey _ _) _ _) as [[m4 o]|] eqn:E; [|destruct (readDailyRow _ _); discriminate].
    intros [= <- _ <-]. apply gate_Some in E as (_ & _ & E & _). simpl in Ho1. lia.
  - revert H. unfold pg_checkOrRaise. rewrite (proj2 (Z.leb_le _ _) Hest).
    assert (Ha : aborted rc true = false) by (by destruct rc). rewrite Ha. simpl.
    fold (gate_table cfg_global cfg_org rc now true db a).
    pose proof (gate_table_caps cfg_global cfg_org rc now true db a) as [Hcg Hco].
    destruct (gate_table_has_global cfg_global cfg_org rc now true db a) as [r Hr].
    destruct (gate (gkey _) _ _) as [[m3 g]|] eqn:Eg.
    + destruct (platform a) eqn:Ep; [discriminate|].
      destruct (gate (okey _ _) _ m3) as [[m4 o]|] eqn:Eo; [discriminate|].
      apply gate_Some in Eg as (Hg & Hgc & _ & _ & Hother).
      pose proof (keys_ne _ Ep) as Hkn. pose proof (gate_table_has_org cfg_global cfg_org rc now true db a Ep) as Hro.
      rewrite <- Hother in Hro by done. destruct Hro as [r' Hr'].
      unfold readDailyRow. rewrite Hr'. simpl. intros [= <-]. right.
      apply gate_None in Eo; [|by eexists]. revert Eo. unfold row_cap, row_total at 1.
      rewrite Hother by done.
      fold (row_cap (okey (c_today a) (c_installation a)) (gate_table cfg_global cfg_org rc now true db a)).
      fold (row_total (okey (c_today a) (c_installation a)) (gate_table cfg_global cfg_org rc now true db a)).
      rewrite gate_table_total, (Hco eq_refl). rewrite gate_table_total, Hcg in *.
      intros. split_and!; [lia|done|lia|done].
    + unfold readDailyRow. rewrite Hr. simpl. intros [= <-]. left.
      apply gate_None in Eg; [|by eexists]. rewrite gate_table_total, Hcg in Eg. done.
Qed.

Lemma pg_reservation_gate_witness :
  let a := Call "i" 70 "d" in
  let db := b_db demo_books in
  (exists db' d, pg_checkOrRaise 500000 100000 false 0 true true db a = Ok (db', d)) /\ 70 + 70 <= 500000.
Proof.
  intros a db. pose proof (pg_reservation_gate 500000 100000 false 0 db a ltac:(vm_compute; discriminate)) as H.
  destruct (pg_checkOrRaise _ _ _ _ _ _ _ _) as [[db' d]|e] eqn:E.
  - destruct H as (Hg & _). split; [eauto|exact Hg].
  - vm_compute in E. discriminate.
Defined.

(** The client's bracket around each paid call: reserve, call, record. *)
Fixpoint spend_calls {S} `{CostCapEnforcer S} (s : S) (l : list (call * Z)) : result cost_error S :=
  match l with
  | [] => Ok s
  | (a, cost) :: l' =>
      let? (s1, _) := checkOrRaise s a in
      let? s2 := recordCallCost s1 a cost in
      spend_calls s2 l'
  end.

Fixpoint sum_costs (l : list (call * Z)) : Z :=
  match l with [] => 0 | (_, cost) :: l' => cost + sum_costs l' end.

(** Whichever enforcer is injected, after any sequence of calls of one day,
    each admitted and then recorded, the day's books hold exactly the actual
    costs, whatever the estimates were. *)
Theorem spend_calls_actual {S} `{LawfulEnforcer S} today l s s' :
  Forall (fun ac => c_today ac.1 = today) l ->
  spend_calls s l = Ok s' -> global_spend s' today = global_spend s today + sum_costs l.
Proof.
  intros Hl. revert s. induction Hl as [|[a cost] l Ha _ IH]; simpl; intros s E.
  - injection E as <-. lia.
  - apply rbind_ok in E as ([s1 d] & E1 & E). apply rbind_ok in E as (s2 & E2 & E).
    apply IH in E. pose proof (recorded_exactly _ _ _ _ _ _ E1 E2) as [Hg _].
    simpl in Ha. rewrite Ha in Hg. lia.
Qed.

Definition two_calls : list (call * Z) := [(Call "i" 70 "d", 3); (Call ZERO_UUID 5 "d", 9)].

Lemma spend_calls_actual_witness :
  match spend_calls (InMemory 100 100 false ∅ ∅ ∅) two_calls with
  | Ok s' => global_spend s' "d" = 12
  | Throw _ => False
  end /\
  match @spend_calls cost_db (pg_enforcer 100 100 false 0 true true) (CostDb ∅ ∅ ∅) two_calls with
  | Ok s' => @global_spend cost_db (pg_enforcer 100 100 false 0 true true) s' "d" = 12
  | Throw _ => False
  end.
Proof.
  split.
  - destruct (spend_calls (InMemory 100 100 false ∅ ∅ ∅) two_calls) as [s'|e] eqn:E.
    + rewrite (spend_calls_actual "d" two_calls (InMemory 100 100 false ∅ ∅ ∅) s');
        [vm_compute; reflexivity|repeat constructor|exact E].
    + assert (is_ok (spend_calls (InMemory 100 100 false ∅ ∅ ∅) two_calls) = true) as F
        by (vm_compute; reflexivity).
      rewrite E in F. discriminate.
  - destruct (@spend_calls cost_db (pg_enforcer 100 100 false 0 true true) (CostDb ∅ ∅ ∅) two_calls)
      as [s'|e] eqn:E.
    + rewrite (@spend_calls_actual cost_db (pg_enforcer 100 100 false 0 true true)
        (pg_lawful 100 100 false 0 true true) "d" two_calls (CostDb ∅ ∅ ∅) s');
        [vm_compute; reflexivity|repeat constructor|exact E].
    + assert (is_ok (@spend_calls cost_db (pg_enforcer 100 100 false 0 true true) (CostDb ∅ ∅ ∅)
        two_calls) = true) as F by (vm_compute; reflexivity).
      rewrite E in F. discriminate.
Defined.
