(* ===== verification/Retry.v ===== *)
(** [runner/run_with_retry.ts], [runner/retry_policies.ts] and
    [runner/retry_hints.ts]: the in-place retry of the review shell's ports and
    the throttle hints that escape it.  Numbers of seconds are exact rationals
    where the code has doubles.  What the wrapped operation and the abort signal
    do is given by functions of the attempt number. *)
From Stdlib Require Import QArith.
From stdpp Require Import base gmap sets list strings.
From Stdlib Require Import ZArith Lia Ascii Qround Qminmax.
From S2P Require Import Prelude.
Local Open Scope Z_scope.

(** * Thrown values *)

(** A thrown value as the classifiers see it: they test [instanceof Error], the
    [name], [instanceof TerminalCancelError] (with its [reason]) and the two
    duck-typed hint fields ([None]: absent, of another type, or not finite). *)
Record js_error := JsError {
  is_error : bool;
  e_name : string;
  e_message : string;
  terminal_cancel : option string;
  retryAfterSeconds : option Q;
  resetAt : option Z;                       (* milliseconds *)
}.

(** * Throttle hints *)

Definition THROTTLE_ERROR_NAMES : list string := ["GitHubRateLimitExceeded"; "LlmRateLimitError"].
Definition DEFAULT_THROTTLE_DEFER_SECONDS : Q := 60.
Definition MAX_THROTTLE_DEFER_SECONDS : Q := 3600.

Definition is_throttle (e : js_error) : bool :=
  is_error e && existsb (String.eqb (e_name e)) THROTTLE_ERROR_NAMES.

(** [waitSeconds] before its floor and cap. *)
Definition derived_wait (e : js_error) (nowMs : Z) : Q :=
  match retryAfterSeconds e with
  | Some s =>
      if negb (Qle_bool s 0) then s
      else match resetAt e with
           | Some t => (inject_Z (t - nowMs) / 1000)%Q
           | None => DEFAULT_THROTTLE_DEFER_SECONDS
           end
  | None => match resetAt e with
            | Some t => (inject_Z (t - nowMs) / 1000)%Q
            | None => DEFAULT_THROTTLE_DEFER_SECONDS
            end
  end.

(** [new Date(x)] truncates to whole milliseconds; instants are after 1970. *)
Definition extractRetryAtHint (e : js_error) (nowMs : Z) : option Z :=
  if negb (is_throttle e) then None
  else
    let w := derived_wait e nowMs in
    let waitSeconds := if Qle_bool w 0 then DEFAULT_THROTTLE_DEFER_SECONDS else w in
    Some (nowMs + Qfloor (Qmin waitSeconds MAX_THROTTLE_DEFER_SECONDS * 1000)).

(** * Policies *)

Record retry_policy := RetryPolicy {
  startToCloseS : Q;
  initialIntervalS : Q;
  maxIntervalS : Q;
  backoff : Q;
  maxAttempts : nat;
  nonRetryable : js_error -> bool;
}.

(** [RetryActivityOptions], its optional [retry] object flattened. *)
Record retry_options := RetryOptions {
  startToCloseTimeout : option string;
  initialInterval : option string;
  maximumInterval : option string;
  backoffCoefficient : option Q;
  maximumAttempts : option nat;
  nonRetryableErrorTypes : list string;
}.

Section Duration.
Local Open Scope string_scope.

(** White space: the ASCII part of what [trim] and [\s] accept. *)
Definition is_space (c : ascii) : bool :=
  let n := nat_of_ascii c in (Nat.eqb n 32 || ((9 <=? n) && (n <=? 13)))%nat%bool.

Fixpoint trim_start (s : string) : string :=
  match s with String c s' => if is_space c then trim_start s' else s | "" => "" end.

Fixpoint trim_end (s : string) : string :=
  match s with
  | "" => ""
  | String c s' =>
      match trim_end s' with
      | "" => if is_space c then "" else String c ""
      | t => String c t
      end
  end.

(** The maximal prefix of digits, and what follows. *)
Fixpoint span_digits (s : string) : string * string :=
  match s with
  | String c s' =>
      if JsString.is_digit c then let '(d, r) := span_digits s' in (String c d, r) else ("", s)
  | "" => ("", "")
  end.

Definition unit_seconds (u : string) : option Q :=
  if String.eqb u "ms" then Some (1 # 1000)%Q
  else if existsb (String.eqb u) ["s"; "second"; "seconds"] then Some 1%Q
  else if existsb (String.eqb u) ["m"; "min"; "minute"; "minutes"] then Some 60%Q
  else if existsb (String.eqb u) ["h"; "hour"; "hours"] then Some 3600%Q
  else None.

(** [(\d+(?:\.\d+)?)\s*(unit)]: a unit starts with a letter, so the regular
    expression has one way to match.  [None] is the [throw]. *)
Definition parseTemporalDuration (d : string) : option Q :=
  let '(int, r) := span_digits (trim_end (trim_start d)) in
  if String.eqb int "" then None
  else
    let '(value, r') :=
      match r with
      | String "." r1 =>
          let '(frac, r2) := span_digits r1 in
          if String.eqb frac "" then (inject_Z (JsString.number_of_digits int), r)
          else ((inject_Z (JsString.number_of_digits int)
                 + (JsString.number_of_digits frac # Pos.pow 10 (Pos.of_nat (String.length frac))))%Q, r2)
      | _ => (inject_Z (JsString.number_of_digits int), r)
      end in
    match unit_seconds (trim_start r') with
    | Some u => Some (value * u)%Q
    | None => None
    end.
End Duration.

Definition SDK_DEFAULT_INITIAL_INTERVAL_S : Q := 1.
Definition SDK_DEFAULT_BACKOFF_COEFFICIENT : Q := 2.
Definition SDK_DEFAULT_MAX_INTERVAL_FACTOR : Q := 100.

Inductive policy_error := NoStartToClose | NoMaximumAttempts | UnparseableDuration.

Definition parse_opt (o : option string) (d : Q) : result policy_error Q :=
  match o with
  | None => Ok d
  | Some s => match parseTemporalDuration s with Some q => Ok q | None => Throw UnparseableDuration end
  end.

(** The declared names, with the TypeScript name of the one class that was
    renamed. *)
Definition declared_names (o : retry_options) : list string :=
  if existsb (String.eqb "BedrockOutputUnsafeError") (nonRetryableErrorTypes o)
  then nonRetryableErrorTypes o ++ ["LlmOutputUnsafeError"]
  else nonRetryableErrorTypes o.

Definition toRetryPolicy (o : retry_options) : result policy_error retry_policy :=
  match startToCloseTimeout o with
  | None => Throw NoStartToClose
  | Some stc =>
      match maximumAttempts o with
      | None => Throw NoMaximumAttempts
      | Some n =>
          let? initial := parse_opt (initialInterval o) SDK_DEFAULT_INITIAL_INTERVAL_S in
          let? maxI := parse_opt (maximumInterval o) (initial * SDK_DEFAULT_MAX_INTERVAL_FACTOR)%Q in
          let? stcS := parse_opt (Some stc) 0%Q in
          Ok {| startToCloseS := stcS; initialIntervalS := initial; maxIntervalS := maxI;
                backoff := default SDK_DEFAULT_BACKOFF_COEFFICIENT (backoffCoefficient o);
                maxAttempts := n;
                nonRetryable := fun e =>
                  is_error e &&
                  (existsb (String.eqb (e_name e)) (declared_names o)
                   || existsb (String.eqb (e_name e)) THROTTLE_ERROR_NAMES
                   || String.eqb (e_name e) "TerminalCancelError") |}
      end
  end.

(** The five [RETRY_POLICIES] entries of the wrap set. *)
Definition IN_PROCESS_RETRY_POLICIES : list (string * retry_options) :=
  [("clone", RetryOptions (Some "60s") (Some "2s") None None (Some 3%nat) []);
   ("embedQuery", RetryOptions (Some "15s") (Some "2s") (Some "15s") (Some 2%Q) (Some 3%nat) []);
   ("retrieveKnowledge", RetryOptions (Some "20s") (Some "2s") (Some "20s") (Some 2%Q) (Some 3%nat) []);
   ("reviewChunk", RetryOptions (Some "90s") (Some "5s") (Some "60s") (Some 2%Q) (Some 4%nat)
      ["BedrockBudgetExceededError"; "BedrockOutputUnsafeError"; "BedrockInvalidRequestError"]);
   ("staticAnalysis", RetryOptions (Some "120s") (Some "2s") None None (Some 2%nat) [])]%string.

Definition policy_by_port (name : string) : option retry_options :=
  match List.find (fun p => String.eqb p.1 name) IN_PROCESS_RETRY_POLICIES with
  | Some p => Some p.2
  | None => None
  end.

(** * runWithRetry *)

(** What [Promise.race([fn(ac.signal), timeout])] settled to. *)
Inductive attempt_result (V : Type) :=
| Resolved (v : V)
| Rejected (e : js_error)
| TimedOut.
Arguments Resolved {V} _.
Arguments Rejected {V} _.
Arguments TimedOut {V}.

Inductive retry_event := Dispatch (attempt : nat) | Sleep (seconds : Q).

Section Run.
Context {V : Type} (p : retry_policy).
(** The operation; whether the outer signal has fired when attempt [n] is
    about to start, and when it has failed; the reason of the abort; the
    jitter [random.uniform(0.75, 1.25)] drawn after attempt [n]. *)
Context (run : nat -> attempt_result V) (aborted_before aborted_after : nat -> bool)
        (abort_reason : js_error) (jitter : nat -> Q).

(** [new Error(`timeout after ...s`)], without the rendered number. *)
Definition timeout_error : js_error := JsError true "Error" "timeout" None None None.

(** One turn per attempt left; [Throw None] is the [throw undefined] of a
    policy without attempts. *)
Fixpoint retry_loop (left attempt : nat) (interval : Q) (lastErr : option js_error)
    : list retry_event * result (option js_error) V :=
  match left with
  | O => ([], Throw lastErr)
  | S left' =>
      if aborted_before attempt then ([], Throw (Some (default abort_reason lastErr)))
      else
        let retry e :=
          let '(evs, r) := retry_loop left' (S attempt)
                             (Qmin (interval * backoff p) (maxIntervalS p)) (Some e) in
          (Dispatch attempt :: Sleep (interval * jitter attempt) :: evs, r) in
        match run attempt with
        | Resolved v => ([Dispatch attempt], Ok v)
        | Rejected e =>
            if nonRetryable p e || Nat.eqb attempt (maxAttempts p) || aborted_after attempt
            then ([Dispatch attempt], Throw (Some e))
            else retry e
        | TimedOut =>
            if Nat.eqb attempt (maxAttempts p) || aborted_after attempt
            then ([Dispatch attempt], Throw (Some timeout_error))
            else retry timeout_error
        end
  end.

Definition runWithRetry : list retry_event * result (option js_error) V :=
  retry_loop (maxAttempts p) 1 (initialIntervalS p) None.
End Run.

(** [applyInProcessRetry]: the wrapped ports under their curve, the others as
    they are. *)
Definition applyInProcessRetry {V} (name : string) (run : nat -> attempt_result V)
    (aborted_before aborted_after : nat -> bool) (abort_reason : js_error) (jitter : nat -> Q)
    : result policy_error (list retry_event * result (option js_error) V) :=
  match policy_by_port name with
  | None =>
      Ok ([Dispatch 1], match run 1%nat with
                        | Resolved v => Ok v
                        | Rejected e => Throw (Some e)
                        | TimedOut => Throw (Some timeout_error)
                        end)
  | Some o =>
      let? p := toRetryPolicy o in
      Ok (runWithRetry p run aborted_before aborted_after abort_reason jitter)
  end.

(** * Lemmas *)

Definition failure {V} (run : nat -> attempt_result V) (n : nat) : option js_error :=
  match run n with Resolved _ => None | Rejected e => Some e | TimedOut => Some timeout_error end.

Definition fatal {V} (p : retry_policy) (run : nat -> attempt_result V) (n : nat) : bool :=
  match run n with Rejected e => nonRetryable p e | _ => false end.

(** The interval slept on after attempt [n], before the jitter. *)
Definition interval_at (p : retry_policy) (n : nat) : Q :=
  Nat.iter (n - 1) (fun i => Qmin (i * backoff p) (maxIntervalS p)) (initialIntervalS p).

Lemma interval_at_S p n : (1 <= n)%nat ->
  interval_at p (S n) = Qmin (interval_at p n * backoff p) (maxIntervalS p).
Proof. intros Hn. unfold interval_at. by replace (S n - 1)%nat with (S (n - 1)) by lia. Qed.

Lemma interval_at_max p n :
  (initialIntervalS p <= maxIntervalS p)%Q -> (interval_at p n <= maxIntervalS p)%Q.
Proof.
  intros H. unfold interval_at. destruct (n - 1)%nat; [done|]. simpl. apply Q.le_min_r.
Qed.

Definition dispatches (evs : list retry_event) : list nat :=
  omap (fun e => match e with Dispatch n => Some n | Sleep _ => None end) evs.
Definition sleeps (evs : list retry_event) : list Q :=
  omap (fun e => match e with Sleep s => Some s | Dispatch _ => None end) evs.

Section RunLemmas.
Context {V : Type} (p : retry_policy) (run : nat -> attempt_result V)
        (ab aa : nat -> bool) (reason : js_error) (jitter : nat -> Q).

(** Attempt [n] failed and is followed by another. *)
Definition retried (n : nat) : Prop :=
  ab n = false /\ is_Some (failure run n) /\ fatal p run n = false /\
  n <> maxAttempts p /\ aa n = false.

(** How the loop ends, at attempt [k]. *)
Definition ends (lastErr : option js_error) (k : nat) (r : result (option js_error) V) : Prop :=
  (ab k = true /\ r = Throw (Some (default reason lastErr))) \/
  (ab k = false /\ exists v, run k = Resolved v /\ r = Ok v) \/
  (ab k = false /\ exists e, failure run k = Some e /\ r = Throw (Some e) /\
     (fatal p run k = true \/ k = maxAttempts p \/ aa k = true)).

Definition last_failure (from : nat) (le : option js_error) (k : nat) : option js_error :=
  if Nat.eqb k from then le else failure run (k - 1).

Lemma retry_loop_spec left from le :
  (1 <= left)%nat -> (1 <= from)%nat -> (from + left = S (maxAttempts p))%nat ->
  let '(evs, r) := retry_loop p run ab aa reason jitter left from (interval_at p from) le in
  exists k, (from <= k <= maxAttempts p)%nat /\
    (forall n, (from <= n < k)%nat -> retried n) /\
    dispatches evs = seq from (if ab k then k - from else S k - from) /\
    sleeps evs = map (fun n => (interval_at p n * jitter n)%Q) (seq from (k - from)) /\
    ends (last_failure from le k) k r.
Proof.
  revert from le. induction left as [|left IH]; intros from le Hl Hf Hm; [lia|]. simpl.
  destruct (ab from) eqn:Eab.
  { exists from. split_and!; [lia..| | | |].
    - intros n Hn. lia.
    - by rewrite Eab, Nat.sub_diag.
    - by rewrite Nat.sub_diag.
    - left. unfold last_failure. by rewrite Nat.eqb_refl. }
  assert (Hstop : forall r, ends (last_failure from le from) from r ->
    exists k, (from <= k <= maxAttempts p)%nat /\
      (forall n, (from <= n < k)%nat -> retried n) /\
      dispatches [Dispatch from] = seq from (if ab k then k - from else S k - from) /\
      sleeps [Dispatch from] = map (fun n => (interval_at p n * jitter n)%Q) (seq from (k - from)) /\
      ends (last_failure from le k) k r).
  { intros r Hr. exists from. split_and!; [lia..| | | |done].
    - intros n Hn. lia.
    - rewrite Eab. by replace (S from - from)%nat with 1%nat by lia.
    - by rewrite Nat.sub_diag. }
  assert (Hmore : forall e, failure run from = Some e -> fatal p run from = false ->
    from <> maxAttempts p -> aa from = false ->
    let '(evs, r) := retry_loop p run ab aa reason jitter left (S from)
      (Qmin (interval_at p from * backoff p) (maxIntervalS p)) (Some e) in
    exists k, (from <= k <= maxAttempts p)%nat /\
      (forall n, (from <= n < k)%nat -> retried n) /\
      dispatches (Dispatch from :: Sleep (interval_at p from * jitter from) :: evs) =
        seq from (if ab k then k - from else S k - from) /\
      sleeps (Dispatch from :: Sleep (interval_at p from * jitter from) :: evs) =
        map (fun n => (interval_at p n * jitter n)%Q) (seq from (k - from)) /\
      ends (last_failure from le k) k r).
  { intros e He Hfa Hne Haa. rewrite <- interval_at_S by lia.
    specialize (IH (S from) (Some e) ltac:(lia) ltac:(lia) ltac:(lia)).
    destruct (retry_loop _ _ _ _ _ _ _ _ _) as [evs r].
    destruct IH as (k & Hk & Hr & Hd & Hs & He'). exists k. split_and!; [lia..| | | |].
    - intros n Hn. destruct (decide (n = from)) as [->|]; [|apply Hr; lia].
      split_and!; [done|by eexists|done..].
    - simpl. rewrite Hd. destruct (ab k).
      + replace (k - from)%nat with (S (k - S from)) by lia. done.
      + replace (S k - from)%nat with (S (S k - S from)) by lia. done.
    - simpl. rewrite Hs. replace (k - from)%nat with (S (k - S from)) by lia. done.
    - unfold last_failure in *. destruct (Nat.eqb_spec k from); [lia|].
      destruct (Nat.eqb_spec k (S from)) as [->|]; [|done].
      simpl. rewrite Nat.sub_0_r, He. exact He'. }
  unfold failure, fatal in Hmore.
  destruct (run from) as [v|e|] eqn:Er.
  - apply Hstop. right. left. eauto.
  - destruct (nonRetryable p e || _ || _) eqn:Eb.
    + apply Hstop. right. right. split; [done|]. exists e. unfold failure, fatal. rewrite Er.
      apply orb_true_iff in Eb as [[?|?%Nat.eqb_eq]%orb_true_iff|?]; auto.
    + apply orb_false_iff in Eb as [[? ?%Nat.eqb_neq]%orb_false_iff ?].
      specialize (Hmore e eq_refl). destruct (retry_loop _ _ _ _ _ _ _ _ _). auto.
  - destruct (_ || _) eqn:Eb.
    + apply Hstop. right. right. split; [done|]. exists timeout_error. unfold failure, fatal. rewrite Er.
      apply orb_true_iff in Eb as [?%Nat.eqb_eq|?]; auto.
    + apply orb_false_iff in Eb as [?%Nat.eqb_neq ?].
      specialize (Hmore timeout_error eq_refl). destruct (retry_loop _ _ _ _ _ _ _ _ _). auto.
Qed.
End RunLemmas.

Lemma runWithRetry_spec {V} (p : retry_policy) (run : nat -> attempt_result V) ab aa reason jitter :
  (1 <= maxAttempts p)%nat ->
  let '(evs, r) := runWithRetry p run ab aa reason jitter in
  exists k, (1 <= k <= maxAttempts p)%nat /\
    (forall n, (1 <= n < k)%nat -> retried p run ab aa n) /\
    dispatches evs = seq 1 (if ab k then k - 1 else k) /\
    sleeps evs = map (fun n => (interval_at p n * jitter n)%Q) (seq 1 (k - 1)) /\
    ends p run ab aa reason (last_failure run 1 None k) k r.
Proof.
  intros Hm. pose proof (retry_loop_spec p run ab aa reason jitter (maxAttempts p) 1 None Hm
    ltac:(lia) ltac:(lia)) as H.
  unfold runWithRetry. change (interval_at p 1) with (initialIntervalS p) in H.
  destruct (retry_loop _ _ _ _ _ _ _ _ _) as [evs r]. destruct H as (k & ? & ? & Hd & ? & ?).
  exists k. split_and!; try done; try lia. rewrite Hd. by destruct (ab k); rewrite ?Nat.sub_succ, ?Nat.sub_0_r.
Qed.

Lemma is_throttle_fatal o p e :
  toRetryPolicy o = Ok p -> is_throttle e = true -> nonRetryable p e = true.
Proof.
  unfold toRetryPolicy. destruct (startToCloseTimeout o); [|discriminate].
  destruct (maximumAttempts o); [|discriminate]. intros H Ht.
  apply rbind_ok in H as (? & _ & H). apply rbind_ok in H as (? & _ & H).
  apply rbind_ok in H as (? & _ & H). injection H as <-. cbn [nonRetryable].
  unfold is_throttle in Ht. apply andb_true_iff in Ht as [-> Ht].
  unfold THROTTLE_ERROR_NAMES in Ht. cbn [existsb] in Ht. rewrite Ht. by rewrite orb_true_r.
Qed.

(** Every entry of the wrap set translates, within these budgets. *)
Lemma wrap_set_translates name o :
  policy_by_port name = Some o ->
  exists p, toRetryPolicy o = Ok p /\ (1 <= maxAttempts p <= 4)%nat /\
    (0 < initialIntervalS p <= maxIntervalS p)%Q /\ (maxIntervalS p <= 200)%Q.
Proof.
  unfold policy_by_port. destruct (List.find _ _) as [[n q]|] eqn:E; [|discriminate]. intros [= <-].
  apply List.find_some in E as [Hin _].
  assert (H : Forall (fun p => exists pol, toRetryPolicy p.2 = Ok pol /\ (1 <= maxAttempts pol <= 4)%nat /\
    (0 < initialIntervalS pol <= maxIntervalS pol)%Q /\ (maxIntervalS pol <= 200)%Q) IN_PROCESS_RETRY_POLICIES).
  { repeat apply Forall_cons_2; try apply Forall_nil_2; eexists;
      (split; [vm_compute; reflexivity|]); simpl; (split; [lia|]); repeat split; vm_compute; congruence. }
  rewrite Forall_forall in H. apply (H (n, q)). by apply list_elem_of_In.
Qed.

Lemma derived_wait_hint e nowMs : is_throttle e = true ->
  exists t, extractRetryAtHint e nowMs = Some t /\ nowMs <= t <= nowMs + 3600000.
Proof.
  intros Ht. unfold extractRetryAtHint. rewrite Ht. cbn [negb]. eexists. split; [done|].
  match goal with |- context [Qmin ?x _] => set (w := x) end.
  assert (Hw : (0 <= w)%Q).
  { unfold w. destruct (Qle_bool (derived_wait e nowMs) 0) eqn:E; [by vm_compute|].
    destruct (Qlt_le_dec (derived_wait e nowMs) 0) as [H|H]; [|done].
    apply Qlt_le_weak, Qle_bool_iff in H. congruence. }
  assert (H1 : (0 <= Qmin w MAX_THROTTLE_DEFER_SECONDS * 1000)%Q).
  { apply Qmult_le_0_compat; [|by vm_compute]. apply Q.min_glb; [done|by vm_compute]. }
  assert (H2 : (Qmin w MAX_THROTTLE_DEFER_SECONDS * 1000 <= inject_Z 3600000)%Q).
  { change (inject_Z 3600000) with (3600 * 1000)%Q. apply Qmult_le_compat_r; [apply Q.le_min_r|by vm_compute]. }
  apply Qfloor_resp_le in H1, H2. rewrite Qfloor_Z in H2. change (Qfloor 0) with 0 in H1. lia.
Qed.

(** * Properties *)

(** [runWithRetry] under a policy with a budget ends at one attempt
    [k <= maxAttempts]: attempts [1 .. k-1] each failed without a fatal error
    and without an abort, each was followed by one jittered sleep of its own
    interval (the previous one times the coefficient, capped); attempts are
    dispatched in order, once each, none after [k] and not [k] itself when the
    abort came first; and the outcome is the value of attempt [k], its error
    when that is fatal, aborted or the last of the budget, or on an abort before
    dispatch the last failure (the abort reason before the first). *)
Theorem runWithRetry_outcome {V} (p : retry_policy) (run : nat -> attempt_result V) ab aa reason jitter :
  (1 <= maxAttempts p)%nat -> (initialIntervalS p <= maxIntervalS p)%Q ->
  let '(evs, r) := runWithRetry p run ab aa reason jitter in
  exists k, (1 <= k <= maxAttempts p)%nat /\
    (forall n, (1 <= n < k)%nat -> retried p run ab aa n) /\
    dispatches evs = seq 1 (if ab k then k - 1 else k) /\
    sleeps evs = map (fun n => (interval_at p n * jitter n)%Q) (seq 1 (k - 1)) /\
    (forall n, (interval_at p n <= maxIntervalS p)%Q) /\
    ends p run ab aa reason (last_failure run 1 None k) k r.
Proof.
  intros Hm Hi. pose proof (runWithRetry_spec p run ab aa reason jitter Hm) as H.
  destruct (runWithRetry p run ab aa reason jitter) as [evs r].
  destruct H as (k & ? & ? & ? & ? & ?). exists k. split_and!; try done; try lia.
  intros n. by apply interval_at_max.
Qed.

Definition ex_policy : retry_policy :=
  RetryPolicy 1 2 15 2 3 (fun e => String.eqb (e_name e) "Fatal").
Definition ex_error (name : string) : js_error := JsError true name "m" None None None.
Definition never : nat -> bool := fun _ => false.

Lemma runWithRetry_outcome_witness :
  let run := fun n => if Nat.eqb n 3 then Resolved 7%Z else TimedOut in
  exists k, (1 <= k <= 3)%nat /\
    dispatches (runWithRetry ex_policy run never never (ex_error "Abort") (fun _ => 1%Q)).1 = seq 1 k.
Proof.
  intros run.
  pose proof (runWithRetry_outcome ex_policy run never never (ex_error "Abort") (fun _ => 1%Q)
    ltac:(vm_compute; lia) ltac:(vm_compute; congruence)) as H.
  destruct (runWithRetry _ _ _ _ _ _) as [evs r]. destruct H as (k & Hk & _ & Hd & _).
  exists k. split; [exact Hk|exact Hd].
Defined.

(** The wrap set is wired: every wrapped port's curve translates, and its
    call dispatches at most four attempts.  A throttle fault always escapes: the
    attempt that raises it is the last one dispatched and the call fails with
    that very error, for which the classifier of the runners yields an instant
    between now and an hour from now. *)
Theorem wrapped_port_throttle_escapes {V} name o (run : nat -> attempt_result V) ab aa reason jitter nowMs :
  policy_by_port name = Some o ->
  exists evs r, applyInProcessRetry name run ab aa reason jitter = Ok (evs, r) /\
    (length (dispatches evs) <= 4)%nat /\
    (forall n e, n ∈ dispatches evs -> run n = Rejected e -> is_throttle e = true ->
       r = Throw (Some e) /\ last (dispatches evs) = Some n /\
       exists t, extractRetryAtHint e nowMs = Some t /\ nowMs <= t <= nowMs + 3600000).
Proof.
  intros Ho. unfold applyInProcessRetry. rewrite Ho.
  destruct (wrap_set_translates _ _ Ho) as (p & Hp & Hm & _). rewrite Hp. simpl.
  pose proof (runWithRetry_spec p run ab aa reason jitter ltac:(lia)) as H.
  destruct (runWithRetry p run ab aa reason jitter) as [evs r].
  destruct H as (k & Hk & Hret & Hd & _ & Hend). exists evs, r. split; [done|]. split.
  { rewrite Hd, length_seq. destruct (ab k); lia. }
  intros n e Hn Hrun Ht. pose proof (is_throttle_fatal o p e Hp Ht) as Hfat.
  assert (Hfn : fatal p run n = true) by (unfold fatal; by rewrite Hrun).
  rewrite Hd in Hn. apply elem_of_seq in Hn.
  assert (Hnk : ~ (1 <= n < k)%nat) by (intros Hlt; destruct (Hret n Hlt) as (_ & _ & Hf & _); congruence).
  destruct (ab k) eqn:Eab; [lia|]. assert (n = k) as -> by lia.
  split; [|split].
  - destruct Hend as [[? _]|[(_ & v & Hv & _)|(_ & e' & He' & Hr & _)]]; [congruence|congruence|].
    unfold failure in He'. rewrite Hrun in He'. by injection He' as <-.
  - rewrite Hd. destruct k as [|k]; [lia|]. rewrite seq_S, last_snoc. done.
  - by apply derived_wait_hint.
Qed.

Definition ex_throttle : js_error := JsError true "LlmRateLimitError" "429" None (Some 30%Q) None.

Lemma wrapped_port_throttle_escapes_witness :
  exists o, policy_by_port "reviewChunk" = Some o /\
    exists evs r, applyInProcessRetry (V := Z) "reviewChunk"
      (fun n => if Nat.eqb n 2 then Rejected ex_throttle else TimedOut) never never (ex_error "Abort") (fun _ => 1%Q)
      = Ok (evs, r) /\ (length (dispatches evs) <= 4)%nat.
Proof.
  eexists. split; [vm_compute; reflexivity|].
  destruct (wrapped_port_throttle_escapes (V := Z) "reviewChunk" _
    (fun n => if Nat.eqb n 2 then Rejected ex_throttle else TimedOut) never never (ex_error "Abort")
    (fun _ => 1%Q) 0 eq_refl) as (evs & r & H & Hl & _).
  exists evs, r. by split.
Defined.

(** The curve of [reviewChunk] retries the authentication faults that the
    error's own documentation says are not to be retried. *)
Theorem reviewChunk_retries_auth_error :
  exists o p, policy_by_port "reviewChunk" = Some o /\ toRetryPolicy o = Ok p /\
    nonRetryable p (ex_error "LlmAuthError") = false /\
    nonRetryable p (ex_error "LlmRoleDisabledError") = false.
Proof. do 2 eexists. split_and!; vm_compute; reflexivity. Qed.
