(* ===== verification/ReviewRunner.v ===== *)
(** [runner/review_job_runner.ts]: one turn of the review worker, which claims a
    job, runs its handler under a heartbeat and a hard runtime ceiling, and
    settles the job and its run by what the handler did; and the idle
    maintenance of the loop.  The heartbeat's writes are among the steps of the
    queue that may happen between the claim and the settlement. *)
From Stdlib Require Import QArith.
From stdpp Require Import base gmap sets list strings.
From Stdlib Require Import ZArith Lia.
From S2P Require Import Prelude JobTable Json ReviewPayload WorkflowEvents RunLifecycle PrMutex ReviewJobs Retry.
Local Open Scope Z_scope.

(** What the race of the handler with the runtime ceiling came to. *)
Inductive handler_result := HandlerDone | HandlerHardTimeout | HandlerThrew (e : js_error).

Inductive run_outcome := OIdle | ODone | OFailed | OLeaseLost | OCancelled.

Definition RUN_CANCEL_REASON : string := "operator_cancelled".

Definition tables : Type := gmap string rv_row * gmap string run_row.

(** A fault of the database driver, as the [catch] of the settlement sees it. *)
Definition db_fault : js_error := JsError true "error" "database error" None None None.

Section Settle.
(** The claimed row and its token; the clock of the process (ms) and of the
    database (us); the [random()] of the backoff; the ceiling's message. *)
Context (id owner token : string) (job : rv_row).
Context (clockMs now : Z) (rnd : Q) (timeout_message : string).

Definition isLastAttempt : bool := max_attempts (rv_core job) <=? attempts (rv_core job).

Definition settleFailure (error : string) (s : tables) : result rv_error (tables * run_outcome) :=
  if isLastAttempt then
    let? (t', runs', applied) :=
      rv_terminalSettle id owner token (j_run_id job) SettleDead RunFailed error None now s.1 s.2 in
    Ok ((t', runs'), if applied then OFailed else OLeaseLost)
  else
    let '(t', (applied, _)) := rv_markFailed id owner token error 1000 rnd now s.1 in
    Ok ((t', s.2), if applied then OFailed else OLeaseLost).

(** The [catch] of [runOneJob]. *)
Definition settle_thrown (e : js_error) (s : tables) : result rv_error (tables * run_outcome) :=
  match terminal_cancel e with
  | Some reason =>
      let? (t', runs', applied) :=
        rv_terminalSettle id owner token (j_run_id job) SettleCancelled RunCancelled reason
          (Some RUN_CANCEL_REASON) now s.1 s.2 in
      Ok ((t', runs'), if applied then OCancelled else OLeaseLost)
  | None =>
      match extractRetryAtHint e clockMs with
      | Some retryAt =>
          let '(t', applied) := rv_deferRetry id owner token (e_message e) (ms retryAt) s.1 in
          Ok ((t', s.2), if applied then OFailed else OLeaseLost)
      | None => settleFailure (e_message e) s
      end
  end.

(** The [try]: what it throws, its own [catch] settles. *)
Definition settle (h : handler_result) (s : tables) : result rv_error (tables * run_outcome) :=
  match h with
  | HandlerDone =>
      let '(t', applied) := rv_markDone id owner token now s.1 in
      Ok ((t', s.2), if applied then ODone else OLeaseLost)
  | HandlerHardTimeout =>
      match settleFailure timeout_message s with
      | Ok r => Ok r
      | Throw _ => settle_thrown db_fault s
      end
  | HandlerThrew e => settle_thrown e s
  end.
End Settle.

(** [meanwhile] is what everyone, the heartbeat included, did to the tables
    while the handler ran. *)
Definition runOneJob (owner token : string) (leaseMs maxRuntimeMs : Z) (locked : gset string)
    (claim_now : Z) (h : string -> rv_row -> handler_result) (meanwhile : tables -> tables)
    (clockMs now : Z) (rnd : Q) (timeout_message : string) (s : tables)
    : result rv_error (tables * run_outcome) :=
  match rv_claim owner token leaseMs maxRuntimeMs locked claim_now s.1 with
  | (_, None) => Ok (s, OIdle)
  | (t1, Some (id, job)) =>
      settle id owner token job clockMs now rnd timeout_message (h id job) (meanwhile (t1, s.2))
  end.

(** * The idle maintenance *)

(** The reaper always; the ledger prune at most once per interval.  [None] is
    the [-Infinity] of a loop that never pruned; times are [clock.monotonic()]
    seconds. *)
Definition prune_due (interval monotonic : Z) (lastPrune : option Z) : bool :=
  match lastPrune with None => true | Some l => interval <=? monotonic - l end.

Inductive idle_error := ReapFailed (e : rv_error) | PruneFailed.

(** Besides the tables: the new throttle marker, and whether a prune ran. *)
Definition runIdleMaintenance (interval : Z) (dsn : option string) (limit : nat) (locked : gset string)
    (now monotonic : Z) (prune_ok : bool) (lastPrune : option Z) (w : rv_world)
    : rv_world * option Z * result idle_error bool :=
  let (w', reaped) := rv_reapStuckRuns dsn limit locked now w in
  match reaped with
  | Throw e => (w', lastPrune, Throw (ReapFailed e))
  | Ok _ =>
      if prune_due interval monotonic lastPrune
      then if prune_ok then (w', Some monotonic, Ok true) else (w', lastPrune, Throw PruneFailed)
      else (w', lastPrune, Ok false)
  end.

(** * Lemmas *)

(** Between the claim and the settlement the job keeps its identity, and as
    long as the token holds, its attempt count. *)
Definition attempt_of (id tok : string) (job : rv_row) (s : rv_state) : Prop :=
  tok ∈ rv_issued s /\
  forall r, rv_jobs s !! id = Some r ->
    same_job job r /\
    (attempt_token (rv_core r) = Some tok ->
       attempts (rv_core r) = attempts (rv_core job) /\
       max_attempts (rv_core r) = max_attempts (rv_core job)).

Lemma attempt_of_step sha id tok job s s' :
  is_Some (rv_jobs s !! id) -> attempt_of id tok job s -> rv_step sha s s' ->
  is_Some (rv_jobs s' !! id) /\ attempt_of id tok job s'.
Proof.
  intros [r Hr] [Hin Ha] Hs. destruct (rv_step_table _ _ _ Hs) as (fresh & Hg & Ht).
  specialize (Ht id). rewrite Hr in Ht. destruct (Ha r Hr) as [Hsame Hatt].
  destruct (rv_jobs s' !! id) as [r'|] eqn:Hr'; [|done]. destruct Ht as [Hc Hk].
  split; [by eexists|]. split; [rewrite Hg; by apply (grant_sub fresh)|].
  intros q Hq. rewrite Hr' in Hq. injection Hq as <-. split.
  - unfold same_job in *. naive_solver congruence.
  - intros Htok. change (core r) with (rv_core r) in Hc. change (core r') with (rv_core r') in Hc.
    destruct (decide (attempt_token (rv_core r) = Some tok)) as [Et|Et].
    + destruct (core_step_same_attempt _ _ _ _ _ Hc Hin Et Htok). destruct (Hatt Et). split; congruence.
    + by destruct (core_step_stale _ _ _ _ _ Hc Hin Et).
Qed.

Lemma attempt_of_steps sha id tok job s s' :
  rv_steps sha s s' -> is_Some (rv_jobs s !! id) -> attempt_of id tok job s ->
  is_Some (rv_jobs s' !! id) /\ attempt_of id tok job s'.
Proof.
  induction 1 as [|s1 s2 _ IH H12]; [done|]. intros Hs Ha.
  destruct (IH Hs Ha). by eapply attempt_of_step.
Qed.

(** [terminalSettle] as its caller sees it. *)
Lemma terminalSettle_cases id owner token run js rs reason rcr now t runs :
  match rv_terminalSettle id owner token run js rs reason rcr now t runs with
  | Ok (t', runs', true) =>
      (exists r, t !! id = Some r /\ fence owner token (rv_core r) = true /\
         t' = <[id := match js with SettleCancelled => cancel_job reason now r
                                  | SettleDead => kill_job reason now r end]> t) /\
      update_run (settle_run_row rs rcr now) run runs = Some runs'
  | Ok (t', runs', false) =>
      t' = t /\ runs' = runs /\ forall r, t !! id = Some r -> fence owner token (rv_core r) = false
  | Throw _ =>
      (exists r, t !! id = Some r /\ fence owner token (rv_core r) = true) /\
      update_run (settle_run_row rs rcr now) run runs = None
  end.
Proof.
  unfold rv_terminalSettle, fenced_update. destruct (t !! id) as [r|] eqn:Hr; simpl; [|done].
  destruct (fence owner token (rv_core r)) eqn:Hf; simpl.
  - destruct (update_run _ _ _); (split; [|done]); exists r; by destruct js.
  - split_and!; [done|done|]. by intros ? [= <-].
Qed.

Lemma settle_run_row_effect rs rcr now run runs runs' q :
  update_run (settle_run_row rs rcr now) run runs = Some runs' -> runs !! run = Some q ->
  exists q', runs' !! run = Some q' /\
    lifecycle_state q' = match rs with RunCancelled => CANCELLED | RunFailed => FAILED end.
Proof.
  unfold update_run. intros H Hq. rewrite Hq in H. destruct (run_checks _); [|discriminate].
  injection H as <-. rewrite lookup_insert_eq. eexists. split; [done|]. by destruct rs.
Qed.

Lemma fenced_settle g id owner token (t : gmap string rv_row) t' b :
  fenced_update (fun _ => true) g id owner token t = (t', b) ->
  if b then exists r, t !! id = Some r /\ fence owner token (rv_core r) = true /\ t' = <[id := g r]> t
  else t' = t /\ forall r, t !! id = Some r -> fence owner token (rv_core r) = false.
Proof.
  unfold fenced_update. destruct (t !! id) as [r|]; simpl; [|by intros [= <- <-]].
  destruct (fence owner token (rv_core r)) eqn:E; simpl; intros [= <- <-]; [eauto|].
  split; [done|]. by intros ? [= <-].
Qed.

Section Outcome.
Context (id owner token : string) (job : rv_row) (clockMs now : Z) (rnd : Q) (tmsg : string).
Context (t2 : gmap string rv_row) (runs2 : gmap string run_row).
(** The claimed attempt was charged, and its row still counts it. *)
Context (Hcharged : 1 <= attempts (rv_core job)).
Context (Hattempt : forall r, t2 !! id = Some r -> attempt_token (rv_core r) = Some token ->
  attempts (rv_core r) = attempts (rv_core job) /\ max_attempts (rv_core r) = max_attempts (rv_core job)).

Definition run_is (runs' : gmap string run_row) (s : lifecycle) : Prop :=
  forall q, runs2 !! j_run_id job = Some q ->
    exists q', runs' !! j_run_id job = Some q' /\ lifecycle_state q' = s.

(** What a settlement under a valid lease leaves in the job's row [r'] and in
    the runs. *)
Definition settled_as (h : handler_result) (o : run_outcome) (r' : rv_row)
    (runs' : gmap string run_row) : Prop :=
  match o with
  | ODone => h = HandlerDone /\ state (rv_core r') = done /\ runs' = runs2
  | OCancelled => (exists e reason, h = HandlerThrew e /\ terminal_cancel e = Some reason) /\
      state (rv_core r') = cancelled /\ run_is runs' CANCELLED
  | OFailed =>
      (exists e at_ms, h = HandlerThrew e /\ is_throttle e = true /\ state (rv_core r') = ready /\
         attempts (rv_core r') = attempts (rv_core job) - 1 /\ run_after (rv_core r') = ms at_ms /\
         clockMs <= at_ms <= clockMs + 3600000 /\ runs' = runs2) \/
      ((forall e, h = HandlerThrew e -> is_throttle e = false) /\
       ((attempts (rv_core job) < max_attempts (rv_core job) /\ state (rv_core r') = ready /\
         attempts (rv_core r') = attempts (rv_core job) /\ runs' = runs2) \/
        (max_attempts (rv_core job) <= attempts (rv_core job) /\ state (rv_core r') = dead /\
         run_is runs' FAILED)))
  | OIdle | OLeaseLost => False
  end.

Definition settle_post (h : handler_result) (x : result rv_error (tables * run_outcome)) : Prop :=
  match x with
  | Ok ((t', runs'), o) =>
      (o = OLeaseLost /\ t' = t2 /\ runs' = runs2 /\
       forall r, t2 !! id = Some r -> fence owner token (rv_core r) = false) \/
      (exists r r', t2 !! id = Some r /\ fence owner token (rv_core r) = true /\
         t' = <[id := r']> t2 /\ lease_cleared (rv_core r') /\ settled_as h o r' runs')
  | Throw _ =>
      (exists r, t2 !! id = Some r /\ fence owner token (rv_core r) = true) /\
      is_Some (runs2 !! j_run_id job)
  end.

Lemma update_run_None (g : run_row -> run_row) k (runs : gmap string run_row) :
  update_run g k runs = None -> is_Some (runs !! k).
Proof. unfold update_run. destruct (runs !! k); [by eexists|discriminate]. Qed.

Lemma terminal_post h js rs reason rcr o :
  (forall r r' runs', t2 !! id = Some r -> fence owner token (rv_core r) = true ->
     r' = match js with SettleCancelled => cancel_job reason now r | SettleDead => kill_job reason now r end ->
     run_is runs' (match rs with RunCancelled => CANCELLED | RunFailed => FAILED end) ->
     settled_as h o r' runs') ->
  settle_post h
    (rbind (rv_terminalSettle id owner token (j_run_id job) js rs reason rcr now t2 runs2)
       (fun '(t', runs', applied) => Ok ((t', runs'), if applied then o else OLeaseLost))).
Proof.
  intros Hok. pose proof (terminalSettle_cases id owner token (j_run_id job) js rs reason rcr now t2 runs2) as H.
  destruct (rv_terminalSettle _ _ _ _ _ _ _ _ _ _ _) as [[[t' runs'] [|]]|e]; simpl.
  - destruct H as [(r & Hr & Hf & ->) Hu]. right. exists r. eexists.
    do 3 (split; [done|]). split; [by destruct js|].
    eapply Hok; [done..|]. intros q Hq. by eapply settle_run_row_effect.
  - left. destruct H as (-> & -> & H). done.
  - destruct H as [H Hu]. split; [done|by eapply update_run_None].
Qed.

Lemma settleFailure_post h error :
  (forall e, h = HandlerThrew e -> is_throttle e = false) ->
  settle_post h (settleFailure id owner token job now rnd error (t2, runs2)).
Proof.
  intros Hh. unfold settleFailure, isLastAttempt. simpl.
  destruct (Z.leb_spec (max_attempts (rv_core job)) (attempts (rv_core job))) as [Hlast|Hmore].
  - apply terminal_post. intros r r' runs' _ _ -> Hrun. right. split; [done|]. by right.
  - unfold rv_markFailed.
    destruct (fenced_update _ _ _ _ _ _) as [t' b] eqn:E. apply fenced_settle in E. simpl.
    destruct b; [|left; by destruct E as [-> E]].
    destruct E as (r & Hr & Hf & ->). right. exists r. eexists.
    do 3 (split; [done|]); split; [by split_and!|].
    pose proof Hf as (_ & _ & Htok)%fence_true. destruct (Hattempt r Hr Htok) as [Ea Em].
    right. split; [done|]. left. simpl. rewrite Ea, Em, (proj2 (Z.leb_gt _ _)) by done. done.
Qed.

Lemma not_throttle_hint e : extractRetryAtHint e clockMs = None -> is_throttle e = false.
Proof.
  intros H. destruct (is_throttle e) eqn:E; [|done].
  destruct (derived_wait_hint e clockMs E) as (t & Ht & _). congruence.
Qed.

Lemma settle_thrown_post h e :
  h = HandlerThrew e \/ (e = db_fault /\ forall e', h <> HandlerThrew e') ->
  settle_post h (settle_thrown id owner token job clockMs now rnd e (t2, runs2)).
Proof.
  intros Hh. unfold settle_thrown. destruct (terminal_cancel e) as [reason|] eqn:Et.
  - apply terminal_post. intros r r' runs' _ _ -> Hrun. split; [|done].
    destruct Hh as [->|[-> _]]; [eauto|discriminate].
  - destruct (extractRetryAtHint e clockMs) as [at_ms|] eqn:Eh.
    + unfold rv_deferRetry.
      destruct (fenced_update _ _ _ _ _ _) as [t' b] eqn:E. apply fenced_settle in E. simpl in *.
      destruct b; [|left; by destruct E as [-> E]].
      destruct E as (r & Hr & Hf & ->). right. exists r. eexists.
      do 3 (split; [done|]); split; [by split_and!|].
      assert (Hthr : is_throttle e = true)
        by (unfold extractRetryAtHint in Eh; destruct (is_throttle e); [done|discriminate]).
      pose proof Hf as (_ & _ & Htok)%fence_true. destruct (Hattempt r Hr Htok) as [Ea _].
      destruct Hh as [->|[-> _]]; [|discriminate]. left.
      destruct (derived_wait_hint e clockMs Hthr) as (t & Ht & ?). rewrite Eh in Ht. injection Ht as ->.
      exists e, t. split_and!; try done; simpl; lia.
    + apply settleFailure_post. intros e' He'. apply not_throttle_hint.
      destruct Hh as [->|[-> Hn]]; [by injection He' as <-|]. by apply Hn in He'.
Qed.

Lemma settle_ok_post h : settle_post h (settle id owner token job clockMs now rnd tmsg h (t2, runs2)).
Proof.
  unfold settle. destruct h as [| |e].
  - unfold rv_markDone. simpl.
    destruct (fenced_update _ _ _ _ _ _) as [t' b] eqn:E. apply fenced_settle in E. simpl.
    destruct b; [|left; by destruct E as [-> E]]. destruct E as (r & Hr & Hf & ->). right. exists r. eexists.
    by do 3 (split; [done|]); split; [by split_and!|].
  - pose proof (settleFailure_post HandlerHardTimeout tmsg ltac:(done)) as H.
    destruct (settleFailure _ _ _ _ _ _ _ _); [done|]. apply settle_thrown_post. right. by split.
  - apply settle_thrown_post. by left.
Qed.
End Outcome.

(** * Properties *)

(** A turn of the review worker.  However the queue moved while the
    handler ran, the settlement either reports [lease_lost], and then the lease
    under this token is gone and nothing was written, or holds the lease and
    settles the job by what the handler did: done; cancelled together with its
    run; parked attempt-free at an instant within the hour on a throttle fault,
    even on the last attempt; back to ready with its run untouched while
    attempts remain; dead together with its FAILED run on the last one.  It
    throws only when the run's CHECKs refuse the run's half. *)
Theorem runOneJob_settles sha owner token leaseMs maxRuntimeMs locked claim_now h meanwhile
    clockMs now rnd tmsg issued issued2 t0 runs0 t1 t2 runs2 id job :
  rv_inv (RvState t0 issued) -> token ∉ issued ->
  rv_claim owner token leaseMs maxRuntimeMs locked claim_now t0 = (t1, Some (id, job)) ->
  meanwhile (t1, runs0) = (t2, runs2) ->
  rv_steps sha (RvState t1 ({[token]} ∪ issued)) (RvState t2 issued2) ->
  settle_post id owner token job clockMs t2 runs2 (h id job)
    (runOneJob owner token leaseMs maxRuntimeMs locked claim_now h meanwhile clockMs now rnd tmsg (t0, runs0)).
Proof.
  intros [Hwf _] Hfr Hclaim Hmw Hsteps. unfold runOneJob. simpl. rewrite Hclaim, Hmw.
  unfold rv_claim in Hclaim. destruct (claim_pick _ _ _) as [[k r]|] eqn:E; [|discriminate].
  injection Hclaim as <- <- <-. apply claim_pick_some in E as (Hk & _).
  destruct (Hwf k r Hk) as [(Hpos & _) _]. simpl in Hpos.
  match goal with |- settle_post _ _ _ ?j _ _ _ _ _ => set (job' := j) in * end.
  destruct (attempt_of_steps _ k token job' _ _ Hsteps) as [_ [_ Hatt]].
  - simpl. rewrite lookup_insert_eq. by eexists.
  - split; [simpl; set_solver|]. simpl. rewrite lookup_insert_eq. by intros ? [= <-].
  - apply settle_ok_post; [simpl; change (attempts (core r)) with (attempts (rv_core r)) in *; lia|].
    intros q Hq Htok. by apply (Hatt q Hq).
Qed.

Lemma runOneJob_settles_witness :
  settle_post "job-1" "w1" "tok1" ex_leased 1000 ex_jobs2 (runs (ex_db RUNNING)) (HandlerThrew ex_throttle)
    (runOneJob "w1" "tok1" 5 60000 ∅ 10 (fun _ _ => HandlerThrew ex_throttle) (fun s => s) 1000 20 (1#2) "t"
       (ex_jobs1, runs (ex_db RUNNING))).
Proof.
  apply (runOneJob_settles ex_sha "w1" "tok1" 5 60000 ∅ 10 (fun _ _ => HandlerThrew ex_throttle) (fun s => s)
    1000 20 (1#2) "t" ∅ {["tok1"]} ex_jobs1 (runs (ex_db RUNNING)) ex_jobs2 ex_jobs2 (runs (ex_db RUNNING))
    "job-1" ex_leased).
  - apply (rv_steps_inv ex_sha rv_init); [|apply rv_init_inv].
    eapply rv_steps_step; [apply rv_steps_refl|].
    apply (rs_insert ex_sha rv_init ex_args ex_parsed 0 "job-1" ex_jobs1). vm_compute. reflexivity.
  - set_solver.
  - vm_compute. reflexivity.
  - reflexivity.
  - replace ({["tok1"]} ∪ ∅ : gset string) with ({["tok1"]} : gset string) by set_solver.
    apply rv_steps_refl.
Defined.
