(* ===== verification/Findings.v ===== *)
(** [libs/contracts/src/review_findings.v1.ts]: the review finding, its
    contract check, and the order of severities.  Strings are byte strings, so
    the length bounds of the contract count bytes where JavaScript counts
    UTF-16 units; the two agree on ASCII text.  A confidence is a double, hence
    a rational; the code only compares confidences. *)
From stdpp Require Import base gmap sets list strings.
From Stdlib Require Import ZArith QArith Lia Ascii.
From S2P Require Import Prelude.
Local Open Scope Z_scope.

Inductive Severity := nit | suggestion | issue | blocker.
Inductive Category :=
  bug | security | performance | style | test | docs | config | context_breaks_consumer | other.
Inductive CitationKind := repo_path | knowledge_chunk | linter_rule | policy_rule.
Inductive FindingScope := chunk_observed | cross_chunk | pr_global.
#[export] Instance Severity_eq_dec : EqDecision Severity.
Proof. solve_decision. Defined.
#[export] Instance Category_eq_dec : EqDecision Category.
Proof. solve_decision. Defined.
#[export] Instance FindingScope_eq_dec : EqDecision FindingScope.
Proof. solve_decision. Defined.

Record citation := Citation { c_kind : CitationKind; c_locator : string; c_excerpt : option string }.

Record finding := Finding {
  f_file : string;
  start_line : Z;
  end_line : Z;
  severity : Severity;
  category : Category;
  title : string;
  body : string;
  f_suggestion : option string;
  confidence : Q;
  sources : list citation;
  scope : FindingScope;
  evidence_refs : list string;
}.

(** ** The contract *)

Definition len_in (lo hi : nat) (s : string) : bool :=
  ((lo <=? String.length s) && (String.length s <=? hi))%nat.

Definition is_hex_lower (c : ascii) : bool :=
  let n := nat_of_ascii c in
  ((48 <=? n) && (n <=? 57) || (97 <=? n) && (n <=? 102))%nat%bool.

(** [EV_ID_PATTERN], [/^ev_[0-9a-f]{16}$/]. *)
Definition ev_id (s : string) : bool :=
  String.prefix "ev_" s && Nat.eqb (String.length s) 19 &&
  JsString.forall_chars is_hex_lower (String.substring 3 16 s).

Definition citation_ok (c : citation) : bool :=
  len_in 1 500 (c_locator c) &&
  match c_excerpt c with None => true | Some e => (String.length e <=? 300)%nat end.

(** [ReviewFindingV1.safeParse(f).success] on a value of the record's shape;
    the enums and the literal [schema_version] hold by typing. *)
Definition finding_ok (f : finding) : bool :=
  (1 <=? String.length (f_file f))%nat && (1 <=? start_line f) && (1 <=? end_line f) &&
  len_in 1 200 (title f) && len_in 1 2000 (body f) &&
  Qle_bool 0 (confidence f) && Qle_bool (confidence f) 1 &&
  forallb citation_ok (sources f) && (length (evidence_refs f) <=? 20)%nat &&
  (start_line f <=? end_line f) && forallb ev_id (evidence_refs f).

(** ** Severities *)

(** [SEVERITY_RANK]; the [-1] of an unknown severity is excluded by the enum. *)
Definition severityRank (s : Severity) : Z :=
  match s with blocker => 3 | issue => 2 | suggestion => 1 | nit => 0 end.

Definition maxSeverity (a b : Severity) : Severity :=
  if severityRank b <=? severityRank a then a else b.

Lemma severityRank_inj a b : severityRank a = severityRank b -> a = b.
Proof. by destruct a, b. Qed.

Lemma maxSeverity_ge a b :
  severityRank a <= severityRank (maxSeverity a b) /\ severityRank b <= severityRank (maxSeverity a b).
Proof. unfold maxSeverity. destruct (Z.leb_spec (severityRank b) (severityRank a)); lia. Qed.

(** ** Confidences *)

Definition q_gt (a b : Q) : bool := negb (Qle_bool a b).

Definition q_max (a b : Q) : Q := if Qle_bool b a then a else b.

Lemma q_max_ge a b : (a <= q_max a b)%Q /\ (b <= q_max a b)%Q.
Proof.
  unfold q_max. destruct (Qle_bool b a) eqn:E.
  - apply Qle_bool_iff in E. split; [apply Qle_refl|done].
  - split; [|apply Qle_refl]. destruct (Qlt_le_dec a b) as [H|H]; [by apply Qlt_le_weak|].
    apply Qle_bool_iff in H. congruence.
Qed.

(** ** Substrings *)

(** [s.split(sep)] for a non-empty separator: leftmost, non-overlapping.
    [skip] counts the characters of a separator still to be passed over. *)
Fixpoint split_on (sep : string) (skip : nat) (s : string) : list string :=
  match s with
  | EmptyString => [EmptyString]
  | String c s' =>
      match skip with
      | S k => split_on sep k s'
      | O =>
          if String.prefix sep s then EmptyString :: split_on sep (String.length sep - 1) s'
          else match split_on sep 0 s' with
               | w :: ws => String c w :: ws
               | [] => [String c EmptyString]
               end
      end
  end.

Definition substr (s t : string) : Prop := exists pre post, t = (pre +:+ s +:+ post)%string.

Lemma app_empty_r s : (s +:+ "")%string = s.
Proof. induction s as [|c s IH]; [done|]. change (String c (s +:+ "") = String c s). by rewrite IH. Qed.

Lemma app_assoc_s a b c : ((a +:+ b) +:+ c)%string = (a +:+ (b +:+ c))%string.
Proof.
  induction a as [|x a IH]; [done|].
  change (String x ((a +:+ b) +:+ c) = String x (a +:+ (b +:+ c))). by rewrite IH.
Qed.

Lemma substr_refl s : substr s s.
Proof. exists ""%string, ""%string. change (s = (s +:+ "")%string). by rewrite app_empty_r. Qed.

Lemma substr_trans a b c : substr a b -> substr b c -> substr a c.
Proof.
  intros (p & q & ->) (p' & q' & ->). exists (p' +:+ p)%string, (q +:+ q')%string.
  by rewrite !app_assoc_s.
Qed.

Lemma substr_app_l a b : substr a (a +:+ b)%string.
Proof. by exists ""%string, b. Qed.

Lemma substr_app_r a b : substr b (a +:+ b)%string.
Proof. exists a, ""%string. by rewrite app_empty_r. Qed.

(** The first segment of a split is a prefix when no separator is being
    skipped, and every segment is a substring. *)
Lemma split_on_substr sep k s :
  (forall w, w ∈ split_on sep k s -> substr w s) /\
  (k = 0%nat -> exists w ws post, split_on sep k s = w :: ws /\ s = (w +:+ post)%string).
Proof.
  revert k. induction s as [|c s IH]; intros k; cbn [split_on].
  - split; [intros w ->%list_elem_of_singleton; apply substr_refl|].
    intros _. by exists ""%string, [], ""%string.
  - assert (Hs : forall w, substr w s -> substr w (String c s)).
    { intros w (p & q & ->). by exists (String c p), q. }
    destruct k as [|k].
    + destruct (String.prefix sep (String c s)).
      * split; [|intros _; do 3 eexists; split; [reflexivity|]; by instantiate (1 := String c s)].
        intros w [->|Hw]%elem_of_cons; [by exists ""%string, (String c s)|].
        apply Hs. by apply (proj1 (IH (String.length sep - 1)%nat)).
      * destruct (IH 0%nat) as [H1 H2]. destruct (H2 eq_refl) as (w & ws & post & E & Ep).
        rewrite E in *. split.
        -- intros v [->|Hv]%elem_of_cons; [exists ""%string, post; by rewrite Ep|].
           apply Hs, H1, elem_of_cons. by right.
        -- intros _. exists (String c w), ws, post. by rewrite Ep.
    + split; [|done]. intros w Hw. by apply Hs, (proj1 (IH k)).
Qed.
