(* ===== verification/Aggregation.v ===== *)
(** [review/aggregation.ts], [review/aggregation_semantic.ts] and
    [activities/aggregate_findings.activity.ts] / [dedup_findings.activity.ts]:
    the findings that a review collected are deduplicated by location, merged
    when their bodies are semantically close, ranked and capped. *)
From stdpp Require Import base gmap sets list strings.
From Stdlib Require Import ZArith QArith Lia Ascii Sorting.Sorted SpecFloat.
From S2P Require Import Prelude Findings.
Local Open Scope Z_scope.

(** * Scope authority *)

Definition ACTIVITIES_THAT_MAY_EMIT_BEYOND_CHUNK_SCOPE : list string := [].

Definition activityMayEmitScope (activityName : string) (s : FindingScope) : bool :=
  match s with
  | chunk_observed => true
  | _ => existsb (String.eqb activityName) ACTIVITIES_THAT_MAY_EMIT_BEYOND_CHUNK_SCOPE
  end.

Definition AGGREGATOR_UPSTREAM_ACTIVITY : string := "bedrock_review_chunk".

Definition assertFindingScopeConsistency (findings : list finding) : list finding * nat :=
  foldl (fun '(kept, dropped) f =>
    if activityMayEmitScope AGGREGATOR_UPSTREAM_ACTIVITY (scope f)
    then (kept ++ [f], dropped) else (kept, S dropped)) ([], 0%nat) findings.

(** * Exact deduplication *)

Definition BODY_SEPARATOR : string :=
  String "010"%char ("---" +:+ String "010"%char "").

Definition category_name (c : Category) : string :=
  match c with
  | bug => "bug" | security => "security" | performance => "performance" | style => "style"
  | test => "test" | docs => "docs" | config => "config"
  | context_breaks_consumer => "context_breaks_consumer" | other => "other"
  end.

(** The NUL-delimited key: the two numbers and the category hold no NUL, so the
    string determines the four components and the tuple stands for it. *)
Definition key : Type := string * Z * Z * string.
Definition dedup_key (f : finding) : key :=
  (f_file f, start_line f, end_line f, category_name (category f)).

Definition union_body (existing incoming : string) : string :=
  if existsb (String.eqb incoming) (split_on BODY_SEPARATOR 0 existing)
  then existing
  else existing +:+ BODY_SEPARATOR +:+ incoming.

(** The merge of [aggregateExact]: title and suggestion of the strictly more
    confident source. *)
Definition merge_exact (existing f : finding) : finding :=
  let higher := if q_gt (confidence f) (confidence existing) then f else existing in
  Finding (f_file existing) (start_line existing) (end_line existing)
    (maxSeverity (severity existing) (severity f)) (category existing)
    (title higher) (union_body (body existing) (body f)) (f_suggestion higher)
    (q_max (confidence existing) (confidence f)) [] chunk_observed [].

Definition exact_step (st : gmap key finding * list key) (f : finding) : gmap key finding * list key :=
  match st.1 !! dedup_key f with
  | None => (<[dedup_key f := f]> st.1, st.2 ++ [dedup_key f])
  | Some existing => (<[dedup_key f := merge_exact existing f]> st.1, st.2)
  end.

(** The [Throw] is the unreachable one of the final [order.map]. *)
Definition aggregateExact (findings : list finding) : result unit (list finding) :=
  let st := foldl exact_step (∅, []) findings in
  rmap (fun k => match st.1 !! k with Some v => Ok v | None => Throw () end) st.2.

(** * Semantic merging *)

(** Vectors of doubles: IEEE 754 binary64, the operations of [SpecFloat]. *)
Definition f64_add := SFadd 53 1024.
Definition f64_mul := SFmul 53 1024.
Definition f64_div := SFdiv 53 1024.
Definition f64_sqrt := SFsqrt 53 1024.
Definition f64_zero : spec_float := S754_zero false.

Fixpoint cosine_acc (u v : list spec_float) (dot nu nv : spec_float)
    : spec_float * spec_float * spec_float :=
  match u, v with
  | a :: u', b :: v' =>
      cosine_acc u' v' (f64_add dot (f64_mul a b)) (f64_add nu (f64_mul a a)) (f64_add nv (f64_mul b b))
  | _, _ => (dot, nu, nv)
  end.

Definition cosine (u v : list spec_float) : spec_float :=
  if negb (Nat.eqb (length u) (length v)) || Nat.eqb (length u) 0 then f64_zero
  else
    let '(dot, nu, nv) := cosine_acc u v f64_zero f64_zero f64_zero in
    if SFeqb nu f64_zero || SFeqb nv f64_zero then f64_zero
    else f64_div dot (f64_mul (f64_sqrt nu) (f64_sqrt nv)).

(** The double nearest to [0.92]. *)
Definition SEMANTIC_MERGE_THRESHOLD : spec_float := S754_finite false 8286623314361713 (-53).
Definition EMBED_MAX_TEXTS : nat := 128.

(** The merge of the semantic stage: everything but the severity, the body and
    the confidence follows the absorber. *)
Definition merge (absorber absorbed : finding) : finding :=
  Finding (f_file absorber) (start_line absorber) (end_line absorber)
    (maxSeverity (severity absorber) (severity absorbed)) (category absorber)
    (title absorber) (union_body (body absorber) (body absorbed)) (f_suggestion absorber)
    (q_max (confidence absorber) (confidence absorbed)) [] chunk_observed [].

Record slot := Slot { absorber : finding; vec : list spec_float; consumed : bool }.

(** The inner loop: slot [i] against the slots after it. *)
Fixpoint absorb_from (threshold : spec_float) (si : slot) (rest : list slot) : slot * list slot :=
  match rest with
  | [] => (si, [])
  | sj :: rest' =>
      if consumed sj
         || negb (String.eqb (f_file (absorber sj)) (f_file (absorber si)))
         || SFltb (cosine (vec si) (vec sj)) threshold
      then let '(si', r') := absorb_from threshold si rest' in (si', sj :: r')
      else
        let si1 :=
          if q_gt (confidence (absorber sj)) (confidence (absorber si))
          then Slot (merge (absorber sj) (absorber si)) (vec sj) (consumed si)
          else Slot (merge (absorber si) (absorber sj)) (vec si) (consumed si) in
        let '(si', r') := absorb_from threshold si1 rest' in
        (si', Slot (absorber sj) (vec sj) true :: r')
  end.

(** The outer loop; the list shrinks by one a turn, so its length is enough
    fuel. *)
Fixpoint greedy (threshold : spec_float) (fuel : nat) (slots : list slot) : list finding :=
  match fuel, slots with
  | S n, si :: rest =>
      if consumed si then greedy threshold n rest
      else let '(si', rest') := absorb_from threshold si rest in
           absorber si' :: greedy threshold n rest'
  | _, _ => []
  end.

(** [embedder.embed] of the [i]-th batch: [None] is a throw. *)
Definition embedder := nat -> list string -> option (list (list spec_float)).

(** The batching loop: [texts.slice(i, i + 128)], one call each. *)
Fixpoint embed_batches (fuel i : nat) (e : embedder) (texts : list string)
    : option (list (list spec_float)) :=
  match fuel, texts with
  | S n, _ :: _ =>
      match e i (take EMBED_MAX_TEXTS texts) with
      | None => None
      | Some vs =>
          match embed_batches n (S i) e (drop EMBED_MAX_TEXTS texts) with
          | None => None
          | Some vs' => Some (vs ++ vs')
          end
      end
  | _, _ => Some []
  end.

Definition aggregateSemantic (findings : list finding) (e : option embedder) : list finding * bool :=
  if (length findings <? 2)%nat then (findings, false)
  else match e with
       | None => (findings, true)
       | Some e =>
           match embed_batches (length findings) 0 e (map body findings) with
           | None => (findings, true)
           | Some vectors =>
               if negb (Nat.eqb (length vectors) (length findings)) then (findings, true)
               else (greedy SEMANTIC_MERGE_THRESHOLD (length findings)
                       (zip_with (fun f v => Slot f v false) findings vectors), false)
           end
       end.

(** * Ranking and capping *)

Definition PER_FILE_CAP : Z := 10.
Definition PER_REVIEW_CAP : Z := 50.

(** The comparator, as [cmp(x, y) <= 0]: severity, then confidence, both
    descending, then the input index. *)
Definition rank_leb (x y : nat * finding) : bool :=
  let rx := severityRank (severity x.2) in
  let ry := severityRank (severity y.2) in
  if negb (ry - rx =? 0) then (ry - rx <? 0)
  else if q_gt (confidence x.2) (confidence y.2) then true
  else if q_gt (confidence y.2) (confidence x.2) then false
  else (x.1 <=? y.1)%nat.

(** The per-file pass, in rank order, with its counters. *)
Fixpoint per_file (perFile : Z) (counts : gmap string Z) (l : list (nat * finding))
    : list (nat * finding) :=
  match l with
  | [] => []
  | (idx, f) :: l' =>
      let current := default 0 (counts !! f_file f) in
      if perFile <=? current then per_file perFile counts l'
      else (idx, f) :: per_file perFile (<[f_file f := current + 1]> counts) l'
  end.

Definition rankAndCap (perFile perReview : Z) (findings : list finding)
    : result string (list finding * nat) :=
  guard? negb ((perFile <=? 0) || (perReview <=? 0)) else "per_file and per_review must be positive"%string in
  match findings with
  | [] => Ok ([], 0%nat)
  | _ =>
      let indexed := sort_by rank_leb (zip (seq 0 (length findings)) findings) in
      let survivors := take (Z.to_nat perReview) (per_file perFile ∅ indexed) in
      Ok (map snd survivors, (length findings - length survivors)%nat)
  end.

(** * The two activities *)

Record dedupe_stats := DedupeStats {
  input_count : nat; exact_dropped : nat; semantic_merged : nat; capped : nat; semantic_skipped : bool;
}.

Inductive agg_error := Unreachable | BadCaps (msg : string) | ContractViolation.

Definition lift_err {E F A} (g : E -> F) (m : result E A) : result F A :=
  match m with Ok a => Ok a | Throw e => Throw (g e) end.

Definition doAggregate (findings : list finding) (e : option embedder)
    : result agg_error (list finding * dedupe_stats) :=
  let afterScope := (assertFindingScopeConsistency findings).1 in
  let? afterExact := lift_err (fun _ => Unreachable) (aggregateExact afterScope) in
  let (afterSemantic, skipped) := aggregateSemantic afterExact e in
  let? (afterCap, cappedN) := lift_err BadCaps (rankAndCap PER_FILE_CAP PER_REVIEW_CAP afterSemantic) in
  Ok (afterCap,
      DedupeStats (length findings) (length afterScope - length afterExact)
        (length afterExact - length afterSemantic) cappedN skipped).

(** The activity parses its input first: one finding outside the contract
    rejects the batch. *)
Definition aggregateFindings (findings : list finding) (e : option embedder)
    : result agg_error (list finding * dedupe_stats) :=
  guard? forallb finding_ok findings else ContractViolation in
  doAggregate findings e.

Definition doDedupLinterWithLlm (linter llm : list finding) (e : option embedder)
    : result agg_error (list finding * bool) :=
  match linter, llm with
  | [], [] => Ok ([], false)
  | [], _ => Ok (llm, false)
  | _, [] => Ok (linter, false)
  | _, _ =>
      let? afterExact := lift_err (fun _ => Unreachable) (aggregateExact (linter ++ llm)) in
      Ok (aggregateSemantic afterExact e)
  end.

(** * Lemmas: scope *)

Lemma assertFindingScopeConsistency_filter l :
  assertFindingScopeConsistency l =
  (filter (fun f => scope f = chunk_observed) l,
   length (filter (fun f => scope f <> chunk_observed) l)).
Proof.
  unfold assertFindingScopeConsistency. induction l as [|f l IH] using rev_ind; [done|].
  rewrite foldl_app, !filter_app, length_app, IH. simpl.
  rewrite !filter_cons, !filter_nil. destruct (scope f) eqn:E; simpl;
    rewrite ?app_nil_r, ?Nat.add_0_r, ?Nat.add_1_r; done.
Qed.

(** * Lemmas: covering

    [covers g f]: the finding [g] stands for [f]: same file, at least its
    severity and confidence, and its text. *)

Definition covers (g f : finding) : Prop :=
  f_file g = f_file f /\ severityRank (severity f) <= severityRank (severity g) /\
  (confidence f <= confidence g)%Q /\ substr (body f) (body g).

#[export] Instance covers_preorder : PreOrder covers.
Proof.
  split.
  - intros f. split_and!; [done|lia|apply Qle_refl|apply substr_refl].
  - intros f g h (?&?&?&?) (?&?&?&?). split_and!;
      [congruence|lia|by eapply Qle_trans|by eapply substr_trans].
Qed.

Lemma union_body_substr e f : substr e (union_body e f) /\ substr f (union_body e f).
Proof.
  unfold union_body. destruct (existsb _ _) eqn:E.
  - split; [apply substr_refl|]. apply existsb_eqb_elem in E. by apply split_on_substr in E.
  - split; [apply substr_app_l|]. rewrite <- app_assoc_s. apply substr_app_r.
Qed.

Lemma merged_covers g e f :
  f_file g = f_file e -> f_file e = f_file f ->
  severity g = maxSeverity (severity e) (severity f) ->
  body g = union_body (body e) (body f) ->
  confidence g = q_max (confidence e) (confidence f) -> covers g e /\ covers g f.
Proof.
  intros Hf Hef Hs Hb Hc. unfold covers. rewrite Hs, Hb, Hc.
  pose proof (maxSeverity_ge (severity e) (severity f)) as [? ?].
  pose proof (q_max_ge (confidence e) (confidence f)) as [? ?].
  pose proof (union_body_substr (body e) (body f)) as [? ?].
  split; split_and!; congruence || done.
Qed.

Lemma merge_exact_covers e f :
  f_file e = f_file f -> covers (merge_exact e f) e /\ covers (merge_exact e f) f.
Proof. intros. by apply merged_covers. Qed.

Lemma merge_covers e f :
  f_file e = f_file f -> covers (merge e f) e /\ covers (merge e f) f.
Proof. intros. by apply merged_covers. Qed.

Lemma maxSeverity_cases a b : maxSeverity a b = a \/ maxSeverity a b = b.
Proof. unfold maxSeverity. destruct (_ <=? _); auto. Qed.

(** * Lemmas: the exact stage against grouping by key *)

(** Distinct keys in the order of their first occurrence. *)
Definition first_keys (ks : list key) : list key :=
  foldl (fun acc k => if bool_decide (k ∈ acc) then acc else acc ++ [k]) [] ks.

Definition group (k : key) (l : list finding) : list finding := filter (fun f => dedup_key f = k) l.

Definition merge_group (l : list finding) : option finding :=
  match l with [] => None | f :: fs => Some (foldl merge_exact f fs) end.

Lemma first_keys_elem ks k : k ∈ first_keys ks <-> k ∈ ks.
Proof.
  unfold first_keys. induction ks as [|x ks IH] using rev_ind; [done|].
  rewrite foldl_app. simpl. rewrite elem_of_app, list_elem_of_singleton, <- IH.
  case_bool_decide as E; [|by rewrite elem_of_app, list_elem_of_singleton].
  split; [auto|]. by intros [?| ->].
Qed.

Lemma first_keys_nodup ks : NoDup (first_keys ks).
Proof.
  unfold first_keys. induction ks as [|x ks IH] using rev_ind; [constructor|].
  rewrite foldl_app. simpl. case_bool_decide as E; [done|].
  apply NoDup_app. split_and!; [done| |apply NoDup_singleton].
  by intros y Hy ->%list_elem_of_singleton.
Qed.

Lemma merge_group_snoc l f :
  merge_group (l ++ [f]) =
  match merge_group l with None => Some f | Some e => Some (merge_exact e f) end.
Proof. destruct l as [|x l]; [done|]. simpl. by rewrite foldl_app. Qed.

Lemma exact_fold l :
  let st := foldl exact_step (∅, []) l in
  st.2 = first_keys (map dedup_key l) /\ forall k, st.1 !! k = merge_group (group k l).
Proof.
  induction l as [|f l IH] using rev_ind; [by split; [|intros k; apply lookup_empty]|].
  cbv zeta in *. rewrite foldl_app, map_app. simpl. destruct IH as [IH2 IH1].
  set (st := foldl exact_step (∅, []) l) in *.
  unfold first_keys. rewrite foldl_app. fold (first_keys (map dedup_key l)). simpl.
  rewrite <- IH2. unfold exact_step at 1 2. rewrite IH1.
  assert (Hg : forall k, group k (l ++ [f]) =
    if decide (dedup_key f = k) then group k l ++ [f] else group k l).
  { intros k. unfold group. rewrite filter_app, filter_cons, filter_nil.
    destruct (decide _); by rewrite ?app_nil_r. }
  assert (Hin : dedup_key f ∈ st.2 <-> merge_group (group (dedup_key f) l) <> None).
  { rewrite IH2, first_keys_elem, list_elem_of_In, in_map_iff. split.
    - intros (g & Eg & Hg'). assert (g ∈ group (dedup_key f) l) as Hin
        by (apply list_elem_of_filter; split; [done|by apply list_elem_of_In]).
      destruct (group _ l); [by apply elem_of_nil in Hin|done].
    - destruct (group (dedup_key f) l) as [|g gs] eqn:E; [done|]. intros _.
      assert (g ∈ group (dedup_key f) l) as Hin by (rewrite E; apply elem_of_cons; auto).
      apply list_elem_of_filter in Hin as [? ?]. exists g. split; [done|by apply list_elem_of_In]. }
  destruct (merge_group (group (dedup_key f) l)) as [e|] eqn:Ee; simpl; split.
  - rewrite bool_decide_eq_true_2; [done|]. by apply Hin.
  - intros k. rewrite Hg. destruct (decide _) as [<-|Hne].
    + by rewrite merge_group_snoc, Ee, lookup_insert_eq.
    + by rewrite lookup_insert_ne.
  - rewrite bool_decide_eq_false_2; [done|]. rewrite Hin. auto.
  - intros k. rewrite Hg. destruct (decide _) as [<-|Hne].
    + by rewrite merge_group_snoc, Ee, lookup_insert_eq.
    + by rewrite lookup_insert_ne.
Qed.

Lemma merge_exact_key e f : dedup_key (merge_exact e f) = dedup_key e.
Proof. done. Qed.

(** What the merge of one group keeps of each member. *)
Lemma merge_group_spec k l g :
  (forall f, f ∈ l -> dedup_key f = k) -> merge_group l = Some g ->
  dedup_key g = k /\ (forall f, f ∈ l -> covers g f) /\
  exists f, f ∈ l /\ severity g = severity f.
Proof.
  revert g. induction l as [|f l IH] using rev_ind; [done|]. intros g Hk.
  rewrite merge_group_snoc. destruct (merge_group l) as [e|] eqn:Ee.
  - intros [= <-]. destruct (IH e) as (He & Hc & x & Hx & Hs); [|done|].
    { intros x Hx. apply Hk, elem_of_app. by left. }
    pose proof (Hk f ltac:(apply elem_of_app; right; by apply list_elem_of_singleton)) as Hf.
    assert (f_file e = f_file f) as Hfile by (rewrite <- Hf in He; by injection He).
    destruct (merge_exact_covers e f Hfile) as [H1 H2]. split_and!.
    + by rewrite merge_exact_key.
    + intros y [Hy| ->%list_elem_of_singleton]%elem_of_app; [|done].
      etrans; [exact H1|]. by apply Hc.
    + change (severity (merge_exact e f)) with (maxSeverity (severity e) (severity f)).
      destruct (maxSeverity_cases (severity e) (severity f)) as [-> | ->].
      * exists x. rewrite elem_of_app. auto.
      * exists f. rewrite elem_of_app, list_elem_of_singleton. auto.
  - intros [= <-]. assert (l = []) as -> by (by destruct l). split_and!.
    + by apply Hk, list_elem_of_singleton.
    + by intros y ->%list_elem_of_singleton.
    + exists f. split; [by apply list_elem_of_singleton|done].
Qed.

Lemma group_key k l f : f ∈ group k l -> dedup_key f = k.
Proof. by intros [? _]%list_elem_of_filter. Qed.

Lemma first_key_group k l :
  k ∈ first_keys (map dedup_key l) -> exists g, merge_group (group k l) = Some g.
Proof.
  rewrite first_keys_elem, list_elem_of_In, in_map_iff. intros (f & Hf & Hin).
  assert (f ∈ group k l) as H by (apply list_elem_of_filter; split; [done|by apply list_elem_of_In]).
  destruct (group k l); [by apply elem_of_nil in H|]. by eexists.
Qed.

Lemma rmap_total {E A B} (h : A -> option B) (e : E) (l : list A) :
  (forall x, x ∈ l -> is_Some (h x)) ->
  rmap (fun x => match h x with Some v => Ok v | None => Throw e end) l = Ok (omap h l).
Proof.
  induction l as [|x l IH]; simpl; intros H; [done|].
  destruct (H x) as [v Hv]; [apply elem_of_cons; auto|]. rewrite Hv. simpl.
  rewrite IH; [done|]. intros y Hy. apply H, elem_of_cons. by right.
Qed.

Lemma aggregateExact_eq l :
  aggregateExact l =
  Ok (omap (fun k => merge_group (group k l)) (first_keys (map dedup_key l))).
Proof.
  unfold aggregateExact. destruct (exact_fold l) as [H2 H1]. rewrite H2.
  rewrite <- (rmap_total (fun k => merge_group (group k l)) ()).
  - clear H2. induction (first_keys _) as [|k ks IH]; [done|]. simpl. by rewrite H1, IH.
  - intros k Hk. apply first_key_group in Hk as [g ->]. by eexists.
Qed.

Lemma omap_section {A B} (h : A -> option B) (g : B -> A) l :
  (forall x, x ∈ l -> exists y, h x = Some y /\ g y = x) -> map g (omap h l) = l.
Proof.
  induction l as [|x l IH]; [done|]. intros H. simpl.
  destruct (H x) as (y & -> & Hy); [apply elem_of_cons; auto|]. simpl. rewrite Hy. f_equal.
  apply IH. intros z Hz. apply H, elem_of_cons. by right.
Qed.

(** Locations come out once each, in order of first occurrence, and each output
    covers its group. *)
Lemma aggregateExact_out l out :
  aggregateExact l = Ok out ->
  map dedup_key out = first_keys (map dedup_key l) /\
  (forall f, f ∈ l -> exists g, g ∈ out /\ dedup_key g = dedup_key f /\ covers g f) /\
  (forall g, g ∈ out -> exists f, f ∈ l /\ dedup_key g = dedup_key f /\ severity g = severity f).
Proof.
  rewrite aggregateExact_eq. intros [= <-].
  pose proof (fun k g => merge_group_spec k (group k l) g (group_key k l)) as Hk.
  split_and!.
  - apply omap_section. intros k Hin. destruct (first_key_group _ _ Hin) as [g Hg].
    exists g. split; [done|]. by apply Hk.
  - intros f Hf.
    assert (Hin : dedup_key f ∈ first_keys (map dedup_key l)).
    { rewrite first_keys_elem. apply list_elem_of_In, in_map, list_elem_of_In, Hf. }
    destruct (first_key_group _ _ Hin) as [g Hg]. exists g.
    destruct (Hk _ _ Hg) as (He & Hc & _). split_and!; [|done|].
    + apply list_elem_of_omap. eauto.
    + apply Hc, list_elem_of_filter. done.
  - intros g (k & Hin & Hg)%list_elem_of_omap.
    destruct (Hk _ _ Hg) as (He & _ & f & [Hfk Hf]%list_elem_of_filter & Hs).
    exists f. split_and!; [done|congruence|done].
Qed.

Lemma aggregateExact_total l : exists out, aggregateExact l = Ok out.
Proof. rewrite aggregateExact_eq. by eexists. Qed.

(** * Lemmas: the semantic stage *)

Definition unconsumed (sl : list slot) (s : slot) : Prop := s ∈ sl /\ consumed s = false.

Lemma absorb_from_spec t rest si :
  let '(si', rest') := absorb_from t si rest in
  covers (absorber si') (absorber si) /\ length rest' = length rest /\
  (forall s, unconsumed rest s -> covers (absorber si') (absorber s) \/ unconsumed rest' s) /\
  (forall s, unconsumed rest' s -> unconsumed rest s) /\
  (severity (absorber si') = severity (absorber si) \/
   exists s, unconsumed rest s /\ f_file (absorber s) = f_file (absorber si) /\
             severity (absorber si') = severity (absorber s)).
Proof.
  revert si. induction rest as [|sj rest IH]; intros si; simpl.
  { split_and!; try done; auto. }
  destruct (consumed sj || negb (_ =? _)%string || SFltb _ _) eqn:Eskip.
  - specialize (IH si). destruct (absorb_from t si rest) as [si' r'].
    destruct IH as (H1 & H2 & H3 & H4 & H5). split_and!; [done|simpl; lia| | |].
    + intros s [[->|Hs]%elem_of_cons Hc]; [right; split; [apply elem_of_cons; auto|done]|].
      destruct (H3 s) as [?|[? ?]]; [done|auto|]. right. split; [apply elem_of_cons; auto|done].
    + intros s [[->|Hs]%elem_of_cons Hc]; [split; [apply elem_of_cons; auto|done]|].
      destruct (H4 s) as [? ?]; [done|]. split; [apply elem_of_cons; auto|done].
    + destruct H5 as [?|(s & [? ?] & ? & ?)]; [auto|]. right. exists s.
      split_and!; [split; [apply elem_of_cons; auto|done]|done..].
  - apply orb_false_iff in Eskip as [[Ecj Ef]%orb_false_iff _].
    apply negb_false_iff, String.eqb_eq in Ef.
    match goal with |- context [absorb_from t ?x rest] => set (si1 := x) end.
    assert (Hc1 : covers (absorber si1) (absorber si) /\ covers (absorber si1) (absorber sj) /\
      (severity (absorber si1) = severity (absorber si) \/
       severity (absorber si1) = severity (absorber sj))).
    { unfold si1. destruct (q_gt _ _); simpl.
      - destruct (merge_covers (absorber sj) (absorber si)) as [? ?]; [done|].
        destruct (maxSeverity_cases (severity (absorber sj)) (severity (absorber si))); auto.
      - destruct (merge_covers (absorber si) (absorber sj)) as [? ?]; [done|].
        destruct (maxSeverity_cases (severity (absorber si)) (severity (absorber sj))); auto. }
    destruct Hc1 as (Hci & Hcj & Hsev).
    specialize (IH si1). destruct (absorb_from t si1 rest) as [si' r'].
    destruct IH as (H1 & H2 & H3 & H4 & H5). split_and!; [by etrans|simpl; lia| | |].
    + intros s [[->|Hs]%elem_of_cons Hc]; [left; by etrans|].
      destruct (H3 s) as [?|[? ?]]; [done|auto|]. right. split; [apply elem_of_cons; auto|done].
    + intros s [[->|Hs]%elem_of_cons Hc]; [done|].
      destruct (H4 s) as [? ?]; [done|]. split; [apply elem_of_cons; auto|done].
    + destruct H5 as [E|(s & [? ?] & ? & ?)].
      * rewrite E. destruct Hsev as [?|?]; [auto|]. right. exists sj.
        split_and!; [split; [apply elem_of_cons; auto|done]|done..].
      * right. exists s. destruct Hci as [? _].
        split_and!; [split; [apply elem_of_cons; auto|done]|congruence|done].
Qed.

Lemma greedy_spec t n sl :
  (length sl <= n)%nat ->
  (forall s, unconsumed sl s -> exists g, g ∈ greedy t n sl /\ covers g (absorber s)) /\
  (forall g, g ∈ greedy t n sl -> exists s, unconsumed sl s /\
     f_file g = f_file (absorber s) /\ severity g = severity (absorber s)) /\
  (length (greedy t n sl) <= length sl)%nat.
Proof.
  revert sl. induction n as [|n IH]; intros [|si rest] Hn; simpl in *.
  1,3: split_and!; [by intros s [?%elem_of_nil _]|by intros g ?%elem_of_nil|lia].
  - lia.
  - destruct (consumed si) eqn:Eci.
    + destruct (IH rest) as (H1 & H2 & H3); [lia|]. split_and!; [| |lia].
      * intros s [[->|Hs]%elem_of_cons Hc]; [congruence|]. by apply H1.
      * intros g Hg. destruct (H2 g Hg) as (s & [? ?] & ?). exists s.
        split; [split; [apply elem_of_cons; auto|done]|done].
    + pose proof (absorb_from_spec t rest si) as Ha.
      destruct (absorb_from t si rest) as [si' rest'].
      destruct Ha as (Hc & Hlen & Hcov & Hback & Hsev).
      destruct (IH rest') as (H1 & H2 & H3); [lia|]. split_and!; [| |simpl; lia].
      * intros s [[->|Hs]%elem_of_cons Hsc].
        -- exists (absorber si'). split; [apply elem_of_cons; auto|done].
        -- destruct (Hcov s) as [?|Hu]; [done|exists (absorber si'); split; [apply elem_of_cons; auto|done]|].
           destruct (H1 s Hu) as (g & ? & ?). exists g. split; [apply elem_of_cons; auto|done].
      * intros g [->|Hg]%elem_of_cons.
        -- destruct Hc as [Hf _]. destruct Hsev as [?|(s & [? ?] & ? & ?)].
           ++ exists si. split; [split; [apply elem_of_cons; auto|done]|done].
           ++ exists s. split; [split; [apply elem_of_cons; auto|done]|]. split; [congruence|done].
        -- destruct (H2 g Hg) as (s & [? ?]%Hback & ?). exists s.
           split; [split; [apply elem_of_cons; auto|done]|done].
Qed.

(** Whatever the embedder answers, nothing is lost, nothing is made up. *)
Lemma aggregateSemantic_spec l e :
  (forall f, f ∈ l -> exists g, g ∈ (aggregateSemantic l e).1 /\ covers g f) /\
  (forall g, g ∈ (aggregateSemantic l e).1 ->
     exists f, f ∈ l /\ f_file g = f_file f /\ severity g = severity f) /\
  (length (aggregateSemantic l e).1 <= length l)%nat.
Proof.
  assert (Hid : (forall f, f ∈ l -> exists g, g ∈ l /\ covers g f) /\
    (forall g, g ∈ l -> exists f, f ∈ l /\ f_file g = f_file f /\ severity g = severity f) /\
    (length l <= length l)%nat).
  { split_and!; [|by eauto|done]. intros f Hf. by exists f. }
  unfold aggregateSemantic. destruct (length l <? 2)%nat; [done|].
  destruct e as [e|]; [|done]. destruct (embed_batches _ _ _ _) as [vs|]; [|done].
  destruct (negb _) eqn:El; [done|]. apply negb_false_iff, Nat.eqb_eq in El. simpl.
  set (sl := zip_with _ l vs).
  assert (Hsl : forall f, f ∈ l <-> exists s, unconsumed sl s /\ absorber s = f).
  { intros f. unfold sl, unconsumed. split.
    - intros [i Hi]%list_elem_of_lookup. destruct (lookup_lt_is_Some_2 vs i) as [v Hv].
      { rewrite El. by eapply lookup_lt_Some. }
      exists (Slot f v false). split; [|done]. split; [|done].
      apply elem_of_lookup_zip_with. eauto 6.
    - intros (s & [Hs _] & <-). apply elem_of_lookup_zip_with in Hs as (i & x & v & -> & Hx & _).
      by eapply list_elem_of_lookup_2. }
  destruct (greedy_spec SEMANTIC_MERGE_THRESHOLD (length l) sl) as (H1 & H2 & H3).
  { unfold sl. rewrite length_zip_with. lia. }
  split_and!.
  - intros f (s & Hs & <-)%Hsl. by apply H1.
  - intros g (s & Hs & ?)%H2. exists (absorber s). split; [apply Hsl; eauto|done].
  - etrans; [exact H3|]. unfold sl. rewrite length_zip_with. lia.
Qed.

(** * Lemmas: the rank order and the caps *)

(** [outranks g f]: [g] is rendered no later than [f] on severity and
    confidence. *)
Definition outranks (g f : finding) : Prop :=
  severityRank (severity f) < severityRank (severity g) \/
  (severity f = severity g /\ (confidence f <= confidence g)%Q).

Lemma q_gt_true a b : q_gt a b = true <-> (b < a)%Q.
Proof.
  unfold q_gt. rewrite negb_true_iff. split.
  - intros H. apply Qnot_le_lt. intros Hle%Qle_bool_iff. congruence.
  - intros H. destruct (Qle_bool a b) eqn:E; [|done]. apply Qle_bool_iff in E.
    by apply Qlt_not_le in H.
Qed.

Lemma q_gt_false a b : q_gt a b = false <-> (a <= b)%Q.
Proof. unfold q_gt. by rewrite negb_false_iff, Qle_bool_iff. Qed.

(** The comparator as a proposition. *)
Lemma rank_leb_iff x y :
  rank_leb x y = true <->
  severityRank (severity y.2) < severityRank (severity x.2) \/
  (severity x.2 = severity y.2 /\
   ((confidence y.2 < confidence x.2)%Q \/
    (confidence x.2 == confidence y.2)%Q /\ (x.1 <= y.1)%nat)).
Proof.
  unfold rank_leb.
  destruct (Z.eqb_spec (severityRank (severity y.2) - severityRank (severity x.2)) 0) as [E|E]; simpl.
  - assert (severity x.2 = severity y.2) as Es by (apply severityRank_inj; lia). rewrite Es.
    destruct (q_gt (confidence x.2) (confidence y.2)) eqn:E1; [apply q_gt_true in E1; by intuition|].
    apply q_gt_false in E1.
    destruct (q_gt (confidence y.2) (confidence x.2)) eqn:E2.
    + apply q_gt_true in E2. split; [done|]. intros [?|[_ [H|[H _]]]]; [lia| |].
      * by apply Qlt_not_le in H.
      * rewrite H in E2. by apply Qlt_irrefl in E2.
    + apply q_gt_false in E2. rewrite Nat.leb_le. split.
      * intros H. right. split; [done|]. right. split; [by apply Qle_antisym|done].
      * intros [?|[_ [H|[_ H]]]]; [lia|by apply Qlt_not_le in H|done].
  - rewrite Z.ltb_lt. split; [intros; left; lia|]. intros [?|[Es _]]; [lia|].
    rewrite Es in E. lia.
Qed.

Lemma rank_leb_total x y : rank_leb x y = true \/ rank_leb y x = true.
Proof.
  rewrite !rank_leb_iff.
  destruct (Z.lt_trichotomy (severityRank (severity x.2)) (severityRank (severity y.2))) as [H|[H|H]]; [auto| |auto].
  apply severityRank_inj in H. rewrite H.
  destruct (Qlt_le_dec (confidence x.2) (confidence y.2)) as [H1|H1]; [auto 6|].
  destruct (Qlt_le_dec (confidence y.2) (confidence x.2)) as [H2|H2]; [auto 6|].
  assert ((confidence x.2 == confidence y.2)%Q) as E by (by apply Qle_antisym).
  destruct (Nat.le_ge_cases x.1 y.1); [left|right]; right; split; try done; right; by split.
Qed.

Lemma rank_leb_trans x y z : rank_leb x y = true -> rank_leb y z = true -> rank_leb x z = true.
Proof.
  rewrite !rank_leb_iff. intros [H1|[E1 H1]] [H2|[E2 H2]]; try rewrite <- E2 in *; try rewrite E1 in *;
    [left; lia|left; lia|left; lia|]. right. split; [congruence|].
  destruct H1 as [H1|[Q1 I1]], H2 as [H2|[Q2 I2]].
  - left. by eapply Qlt_trans.
  - left. by rewrite <- Q2.
  - left. by rewrite Q1.
  - right. split; [by rewrite Q1|lia].
Qed.

Lemma rank_leb_outranks x y : rank_leb x y = true -> outranks x.2 y.2.
Proof.
  rewrite rank_leb_iff. intros [H|[E [H|[H _]]]]; [by left| |]; right; (split; [done|]).
  - by apply Qlt_le_weak.
  - rewrite H. apply Qle_refl.
Qed.

Definition in_file (F : string) (x : nat * finding) : Prop := f_file x.2 = F.
#[export] Instance in_file_dec F x : Decision (in_file F x).
Proof. unfold in_file. apply _. Defined.

Definition count_in (counts : gmap string Z) (F : string) : Z := default 0 (counts !! F).

Lemma count_in_insert counts F n G :
  count_in (<[F := n]> counts) G = if decide (G = F) then n else count_in counts G.
Proof.
  unfold count_in. destruct (decide (G = F)) as [->|H]; [by rewrite lookup_insert_eq|].
  by rewrite lookup_insert_ne.
Qed.

(** The per-file pass keeps a sublist, at most the cap of each file, and drops a
    finding only when the kept ones of its file, all ranked before it, reach the
    cap. *)
Lemma per_file_sublist pf counts l : sublist (per_file pf counts l) l.
Proof.
  revert counts. induction l as [|[i f] l IH]; intros counts; simpl; [constructor|].
  destruct (_ <=? _); by constructor.
Qed.

Lemma per_file_bound pf counts l F :
  count_in counts F <= pf ->
  count_in counts F + Z.of_nat (length (filter (in_file F) (per_file pf counts l))) <= pf.
Proof.
  revert counts. induction l as [|[i f] l IH]; intros counts Hc; simpl; [lia|].
  fold (count_in counts (f_file f)). destruct (Z.leb_spec pf (count_in counts (f_file f))); [by apply IH|].
  specialize (IH (<[f_file f := count_in counts (f_file f) + 1]> counts)).
  rewrite count_in_insert in IH. rewrite filter_cons. unfold in_file at 1. simpl.
  destruct (decide (f_file f = F)) as [<-|Hne].
  - rewrite decide_True in IH by done. simpl. lia.
  - rewrite decide_False in IH by done. by apply IH.
Qed.

Definition peer (x y : nat * finding) : Prop := f_file y.2 = f_file x.2 /\ rank_leb y x = true.
#[export] Instance peer_dec x y : Decision (peer x y).
Proof. unfold peer. apply _. Defined.

Lemma per_file_drops pf counts l x :
  StronglySorted (fun a b => rank_leb a b = true) l -> x ∈ l ->
  x ∈ per_file pf counts l \/
  pf <= count_in counts (f_file x.2) + Z.of_nat (length (filter (peer x) (per_file pf counts l))).
Proof.
  intros Hs. revert counts. induction Hs as [|[i f] l Hs IH Hhd]; intros counts Hx.
  { by apply elem_of_nil in Hx. }
  simpl. fold (count_in counts (f_file f)).
  destruct (Z.leb_spec pf (count_in counts (f_file f))) as [Hfull|Hroom].
  - apply elem_of_cons in Hx as [->|Hx]; [right; simpl; lia|]. by apply IH.
  - apply elem_of_cons in Hx as [->|Hx]; [left; apply elem_of_cons; auto|].
    destruct (IH (<[f_file f := count_in counts (f_file f) + 1]> counts) Hx) as [?|Hn].
    { left. apply elem_of_cons. auto. }
    right. rewrite count_in_insert in Hn. rewrite filter_cons.
    assert (Hr : rank_leb (i, f) x = true).
    { rewrite Forall_forall in Hhd. by apply Hhd. }
    destruct (decide (f_file x.2 = f_file f)) as [E|E].
    + rewrite decide_True by (by split). simpl. rewrite E. lia.
    + rewrite decide_False by (by intros [? _]). done.
Qed.

Lemma sublist_rest {A} (k l : list A) : sublist k l -> exists r, l ≡ₚ k ++ r.
Proof. intros H%sublist_submseteq. by apply submseteq_Permutation in H. Qed.

Lemma in_rest_not_kept {A} (l k r : list A) x : NoDup l -> l ≡ₚ k ++ r -> x ∈ r -> x ∈ l /\ x ∉ k.
Proof.
  intros Hn Hp Hx. split; [rewrite Hp; apply elem_of_app; auto|].
  rewrite Hp in Hn. apply NoDup_app in Hn as (_ & Hn & _). intros Hk. by apply (Hn x).
Qed.

Lemma StronglySorted_sublist {A} (R : A -> A -> Prop) k l :
  sublist k l -> StronglySorted R l -> StronglySorted R k.
Proof.
  induction 1 as [|x k l Hs IH|x k l Hs IH]; intros Hl; [done| |].
  - apply StronglySorted_inv in Hl as [Hl Hx]. constructor; [by apply IH|].
    apply Forall_forall. intros y Hy. rewrite Forall_forall in Hx. apply Hx.
    eapply elem_of_submseteq; [exact Hy|by apply sublist_submseteq].
  - apply StronglySorted_inv in Hl as [Hl _]. by apply IH.
Qed.

Lemma StronglySorted_split {A} (R : A -> A -> Prop) l1 l2 x y :
  StronglySorted R (l1 ++ l2) -> x ∈ l1 -> y ∈ l2 -> R x y.
Proof.
  induction l1 as [|z l1 IH]; simpl; intros Hs Hx Hy; [by apply elem_of_nil in Hx|].
  apply StronglySorted_inv in Hs as [Hs Hz]. apply elem_of_cons in Hx as [->|Hx]; [|by apply IH].
  rewrite Forall_forall in Hz. apply Hz, elem_of_app. by right.
Qed.

(** The ranked list, its surviving prefix and what the caps dropped. *)
Lemma caps_split pf pr (l : list finding) :
  0 < pf ->
  let s := sort_by rank_leb (zip (seq 0 (length l)) l) in
  let k := per_file pf ∅ s in
  exists r, s ≡ₚ take pr k ++ r /\
    StronglySorted (fun a b => rank_leb a b = true) (take pr k) /\
    (forall x, x ∈ r ->
      pf <= Z.of_nat (length (filter (peer x) (take pr k))) \/
      (length (take pr k) = pr /\ forall y, y ∈ take pr k -> rank_leb y x = true)).
Proof.
  intros Hpf s k.
  assert (Hs : StronglySorted (fun a b => rank_leb a b = true) s)
    by (apply sort_by_sorted; [apply rank_leb_total|apply rank_leb_trans]).
  assert (Hk : sublist k s) by apply per_file_sublist.
  assert (Hks : StronglySorted (fun a b => rank_leb a b = true) k) by (by eapply StronglySorted_sublist).
  assert (Hnd : NoDup s).
  { unfold s. rewrite sort_by_perm. apply (NoDup_fmap_1 fst). rewrite fst_zip by (by rewrite length_seq).
    apply NoDup_seq. }
  destruct (sublist_rest _ _ Hk) as [r1 Hr1].
  assert (Htd : k = take pr k ++ drop pr k) by (by rewrite take_drop).
  exists (drop pr k ++ r1). split_and!.
  - rewrite Hr1 at 1. rewrite Htd at 1. by rewrite <- app_assoc.
  - rewrite Htd in Hks. eapply StronglySorted_sublist; [|exact Hks]. apply sublist_inserts_r. done.
  - assert (Hfull : forall y, y ∈ drop pr k -> length (take pr k) = pr).
    { intros y Hy. rewrite length_take. assert (0 < length (drop pr k))%nat
        by (destruct (drop pr k); [by apply elem_of_nil in Hy|simpl; lia]).
      rewrite length_drop in *. lia. }
    rewrite Htd in Hks.
    assert (Hbefore : forall y x, y ∈ take pr k -> x ∈ drop pr k -> rank_leb y x = true)
      by (intros; by eapply (StronglySorted_split _ _ _ _ _ Hks)).
    intros x [Hx|Hx]%elem_of_app; [right; eauto|].
    destruct (in_rest_not_kept s k r1 x Hnd Hr1 Hx) as [Hxs Hxk].
    destruct (per_file_drops pf ∅ s x Hs Hxs) as [?|Hn]; [done|].
    fold k in Hn. rewrite Htd, filter_app, length_app in Hn.
    unfold count_in in Hn. rewrite lookup_empty in Hn. simpl in Hn.
    destruct (filter (peer x) (drop pr k)) as [|y ys] eqn:Ey; [left; simpl in Hn; lia|].
    assert (y ∈ filter (peer x) (drop pr k)) as [[_ Hyx] Hy]%list_elem_of_filter
      by (rewrite Ey; apply elem_of_cons; auto).
    right. split; [by eapply Hfull|]. intros z Hz. eapply rank_leb_trans; eauto.
Qed.

Definition file_count (F : string) (l : list finding) : nat :=
  length (filter (fun g => f_file g = F) l).

Lemma filter_snd_length {P : finding -> Prop} `{!forall f, Decision (P f)} (l : list (nat * finding)) :
  length (filter P (map snd l)) = length (filter (fun x => P x.2) l).
Proof.
  induction l as [|[i f] l IH]; [done|]. simpl. rewrite !filter_cons. simpl.
  destruct (decide (P f)); simpl; by rewrite IH.
Qed.

Lemma zip_indexed_perm (l : list finding) :
  map snd (sort_by rank_leb (zip (seq 0 (length l)) l)) ≡ₚ l.
Proof. rewrite sort_by_perm. change (map snd) with (fmap (M := list) (@snd nat finding)).
  rewrite snd_zip; [done|]. by rewrite length_seq. Qed.

Lemma rankAndCap_ok pf pr l :
  0 < pf -> 0 < pr ->
  rankAndCap pf pr l =
  let k := take (Z.to_nat pr) (per_file pf ∅ (sort_by rank_leb (zip (seq 0 (length l)) l))) in
  Ok (map snd k, (length l - length k)%nat).
Proof.
  intros Hpf Hpr. unfold rankAndCap.
  rewrite (proj2 (Z.leb_gt pf 0)), (proj2 (Z.leb_gt pr 0)) by done. simpl.
  destruct l; [simpl; by rewrite !take_nil|done].
Qed.

Lemma map_snd_sorted (l : list (nat * finding)) :
  StronglySorted (fun a b => rank_leb a b = true) l -> StronglySorted outranks (map snd l).
Proof.
  induction 1 as [|x l Hs IH Hx]; simpl; [constructor|]. constructor; [done|].
  apply Forall_forall. intros g (y & -> & Hy)%list_elem_of_fmap.
  rewrite Forall_forall in Hx. by apply rank_leb_outranks, Hx.
Qed.

#[export] Instance outranks_dec g f : Decision (outranks g f).
Proof.
  unfold outranks. apply or_dec; [apply Z_lt_dec|]. apply and_dec; [apply _|].
  destruct (Qle_bool (confidence f) (confidence g)) eqn:E; [left; by apply Qle_bool_iff|].
  right. intros Hle%Qle_bool_iff. congruence.
Defined.

Lemma filter_length_mono {A} (P P' : A -> Prop) `{!forall x, Decision (P x), !forall x, Decision (P' x)} l :
  (forall x, P x -> P' x) -> (length (filter P l) <= length (filter P' l))%nat.
Proof.
  intros HPP. induction l as [|x l IH]; [done|]. rewrite !filter_cons.
  destruct (decide (P x)), (decide (P' x)); simpl; try lia. exfalso. auto.
Qed.

(** What ranking and capping keep and drop. *)
Lemma rankAndCap_out pf pr l out dropped :
  0 < pf -> 0 < pr -> rankAndCap pf pr l = Ok (out, dropped) ->
  exists rest, l ≡ₚ out ++ rest /\ dropped = length rest /\
    StronglySorted outranks out /\
    Z.of_nat (length out) <= pr /\
    (forall F, Z.of_nat (file_count F out) <= pf) /\
    (forall f, f ∈ rest ->
      pf <= Z.of_nat (length (filter (fun g => f_file g = f_file f /\ outranks g f) out)) \/
      Z.of_nat (length out) = pr /\ forall g, g ∈ out -> outranks g f).
Proof.
  intros Hpf Hpr. rewrite rankAndCap_ok by done. cbv zeta. intros [= <- <-].
  set (s := sort_by rank_leb _). set (k := per_file pf ∅ s).
  destruct (caps_split pf (Z.to_nat pr) l Hpf) as (r & Hp & Hs & Hr). fold s k in Hp, Hs, Hr.
  set (sv := take (Z.to_nat pr) k) in *.
  assert (Hl : l ≡ₚ map snd sv ++ map snd r).
  { rewrite <- map_app, <- Hp. symmetry. apply zip_indexed_perm. }
  exists (map snd r). split_and!; [done| |by apply map_snd_sorted| | |].
  - rewrite Hl, length_app, !length_map. lia.
  - rewrite length_map. unfold sv. rewrite length_take. lia.
  - intros F. unfold file_count. rewrite filter_snd_length.
    assert (H0 : count_in ∅ F = 0) by (unfold count_in; by rewrite lookup_empty).
    pose proof (per_file_bound pf ∅ s F) as Hb. rewrite H0 in Hb. fold k in Hb. specialize (Hb ltac:(lia)).
    assert (length (filter (in_file F) sv) <= length (filter (in_file F) k))%nat.
    { rewrite <- (take_drop (Z.to_nat pr) k). fold sv. rewrite filter_app, length_app. lia. }
    eapply Z.le_trans; [apply inj_le, (filter_length_mono _ (in_file F)); by intros|]. lia.
  - intros f (x & -> & Hx)%list_elem_of_fmap.
    destruct (Hr x Hx) as [Hn|[Hn Hall]].
    + left. rewrite filter_snd_length. etrans; [exact Hn|]. apply inj_le, filter_length_mono.
      intros y [? ?%rank_leb_outranks]. done.
    + right. rewrite length_map, Hn. split; [lia|].
      intros g (y & -> & Hy)%list_elem_of_fmap. by apply rank_leb_outranks, Hall.
Qed.

(** The head of the ranked list survives the caps. *)
Lemma rankAndCap_head pf pr l out dropped f :
  0 < pf -> 0 < pr -> rankAndCap pf pr l = Ok (out, dropped) -> f ∈ l ->
  exists g out', out = g :: out' /\ outranks g f.
Proof.
  intros Hpf Hpr H Hf. apply rankAndCap_out in H as (rest & Hp & _ & Hs & _ & _ & Hr); [|done..].
  assert (Hhd : forall g out', out = g :: out' -> forall x, x ∈ out -> outranks g x).
  { intros g out' -> x [->|Hx]%elem_of_cons; [right; split; [done|apply Qle_refl]|].
    apply StronglySorted_inv in Hs as [_ Hg]. rewrite Forall_forall in Hg. by apply Hg. }
  rewrite Hp in Hf. apply elem_of_app in Hf as [Hf|Hf].
  - destruct out as [|g out']; [by apply elem_of_nil in Hf|]. exists g, out'. split; [done|].
    by eapply Hhd.
  - destruct out as [|g out']; [destruct (Hr f Hf) as [Hn|[Hn _]]; simpl in Hn; lia|].
    exists g, out'. split; [done|]. destruct (Hr f Hf) as [Hn|[_ Hall]].
    + destruct (filter _ (g :: out')) as [|x xs] eqn:Ex; [simpl in Hn; lia|].
      assert (x ∈ filter (fun g => f_file g = f_file f /\ outranks g f) (g :: out'))
        as [[_ Hxf] Hx]%list_elem_of_filter by (rewrite Ex; apply elem_of_cons; auto).
      specialize (Hhd g out' eq_refl x Hx). revert Hhd Hxf. unfold outranks.
      intros [?|[E1 ?]] [?|[E2 ?]]; [left; lia|left; by rewrite E2|left; by rewrite <- E1|right].
      split; [congruence|by eapply Qle_trans].
    + apply Hall, elem_of_cons. by left.
Qed.

(** * Properties *)

(** Exact deduplication never throws; its output has each location
    [(file, start, end, category)] of the input once, in the order of first
    occurrence, as the left fold of the merge over that location's findings; and
    each output covers every finding it stands for: the same file, at least its
    severity (one of the group's) and confidence, and its text. *)
Theorem aggregateExact_groups l :
  exists out,
    aggregateExact l = Ok out /\
    out = omap (fun k => merge_group (group k l)) (first_keys (map dedup_key l)) /\
    map dedup_key out = first_keys (map dedup_key l) /\ NoDup (map dedup_key out) /\
    (forall f, f ∈ l -> exists g, g ∈ out /\ dedup_key g = dedup_key f /\ covers g f) /\
    (forall g, g ∈ out -> exists f, f ∈ l /\ dedup_key g = dedup_key f /\ severity g = severity f).
Proof.
  pose proof (aggregateExact_eq l) as E. eexists. split; [exact E|]. split; [done|].
  apply aggregateExact_out in E as (Hk & H1 & H2). split_and!; [done| |done..].
  rewrite Hk. apply first_keys_nodup.
Qed.

(** Ranking and capping.  With positive caps the output is sorted by severity,
    then confidence, both descending; holds at most the per-review cap in all and the per-file
    cap of each file; [dropped] counts exactly the findings left out; and a
    finding is left out only when the per-file cap's worth of findings of its own
    file that rank at least as high are kept, or when the review is full of
    findings that rank at least as high. *)
Theorem rankAndCap_keeps_best perFile perReview l :
  0 < perFile -> 0 < perReview ->
  exists out rest,
    rankAndCap perFile perReview l = Ok (out, length rest) /\
    l ≡ₚ out ++ rest /\ StronglySorted outranks out /\
    Z.of_nat (length out) <= perReview /\
    (forall F, Z.of_nat (file_count F out) <= perFile) /\
    (forall f, f ∈ rest ->
      perFile <= Z.of_nat (length (filter (fun g => f_file g = f_file f /\ outranks g f) out)) \/
      Z.of_nat (length out) = perReview /\ forall g, g ∈ out -> outranks g f).
Proof.
  intros Hpf Hpr. pose proof (rankAndCap_ok perFile perReview l Hpf Hpr) as E. cbv zeta in E.
  pose proof E as E'. apply rankAndCap_out in E' as (rest & Hp & Hd & H); [|done..].
  rewrite Hd in E. eexists _, rest. split; [exact E|]. by split.
Qed.

Definition ex_finding (file : string) (line : Z) (s : Severity) (q : Q) (b : string) : finding :=
  Finding file line line s bug "t" b None q [] chunk_observed [].

Lemma rankAndCap_keeps_best_witness :
  0 < 1 /\ exists out (rest : list finding), rankAndCap 1 1
    [ex_finding "a" 1 nit (1#2) "x"; ex_finding "a" 2 blocker (1#3) "y"; ex_finding "b" 3 issue 1 "z"] =
      Ok (out, length rest) /\ Z.of_nat (length out) <= 1.
Proof.
  split; [lia|].
  destruct (rankAndCap_keeps_best 1 1
    [ex_finding "a" 1 nit (1#2) "x"; ex_finding "a" 2 blocker (1#3) "y"; ex_finding "b" 3 issue 1 "z"]
    ltac:(lia) ltac:(lia)) as (out & rest & H & _ & _ & Hl & _).
  exists out, rest. by split.
Defined.

(** The aggregation pipeline never throws on its own account, whatever the
    embedder answers.  Its statistics account for every chunk-scoped finding; no
    output is made up (file and severity come from a chunk-scoped input); the
    worst input finding is never lost: the first finding published ranks at
    least as high in severity as every chunk-scoped input; and when the caps
    dropped nothing, every chunk-scoped input is covered, text included. *)
Theorem doAggregate_keeps_findings l e :
  exists out st,
    doAggregate l e = Ok (out, st) /\
    input_count st = length l /\
    (length out + capped st + semantic_merged st + exact_dropped st =
       length (filter (fun f => scope f = chunk_observed) l))%nat /\
    (forall g, g ∈ out -> exists f, f ∈ l /\ scope f = chunk_observed /\
       f_file g = f_file f /\ severity g = severity f) /\
    (forall f, f ∈ l -> scope f = chunk_observed ->
       exists g out', out = g :: out' /\ severityRank (severity f) <= severityRank (severity g)) /\
    (capped st = 0%nat ->
     forall f, f ∈ l -> scope f = chunk_observed -> exists g, g ∈ out /\ covers g f).
Proof.
  unfold doAggregate. rewrite assertFindingScopeConsistency_filter. simpl.
  set (sc := filter _ l).
  assert (Hsc : forall f, f ∈ sc <-> f ∈ l /\ scope f = chunk_observed).
  { intros f. unfold sc. rewrite list_elem_of_filter. tauto. }
  destruct (aggregateExact_total sc) as [ex Eex]. rewrite Eex. simpl.
  destruct (aggregateExact_out sc ex Eex) as (Hkeys & Hc1 & Hs1).
  assert (Hlen1 : (length ex <= length sc)%nat).
  { rewrite <- (length_map dedup_key ex), <- (length_map dedup_key sc), Hkeys.
    apply submseteq_length, NoDup_submseteq; [apply first_keys_nodup|]. intros k. apply first_keys_elem. }
  pose proof (aggregateSemantic_spec ex e) as (Hc2 & Hs2 & Hlen2).
  destruct (aggregateSemantic ex e) as [sem skipped]. simpl in *.
  pose proof (rankAndCap_ok PER_FILE_CAP PER_REVIEW_CAP sem ltac:(done) ltac:(done)) as Erc. cbv zeta in Erc.
  match type of Erc with _ = Ok (?o, ?d) => set (out := o) in *; set (dr := d) in * end.
  rewrite Erc. simpl.
  pose proof Erc as (rest & Hp & Hd & _)%rankAndCap_out; [|done..].
  pose proof (fun f => rankAndCap_head PER_FILE_CAP PER_REVIEW_CAP sem out dr f eq_refl eq_refl Erc) as Hhead.
  assert (Hcov : forall f, f ∈ sc -> exists g, g ∈ sem /\ covers g f).
  { intros f Hf. destruct (Hc1 f Hf) as (g & Hg & _ & Hgf). destruct (Hc2 g Hg) as (h & Hh & Hhg).
    exists h. split; [done|by etrans]. }
  exists out. eexists. split; [reflexivity|]. simpl. split_and!; [done| | | |].
  - fold sc. rewrite Hd. apply (f_equal length) in Hp || apply Permutation_length in Hp.
    rewrite length_app in Hp. lia.
  - intros g Hg. destruct (Hs2 g) as (h & Hh & Hf & Hsev); [rewrite Hp; apply elem_of_app; auto|].
    destruct (Hs1 h Hh) as (f & Hfsc & Hk & Hsf). apply Hsc in Hfsc as [? ?].
    exists f. split_and!; [done..| |congruence]. injection Hk as Hk _ _. congruence.
  - intros f Hf Hs. destruct (Hcov f) as (g & Hg & (_ & Hr & _)); [by apply Hsc|].
    destruct (Hhead g Hg) as (x & out' & Eo & Ho). exists x, out'. split; [done|].
    destruct Ho as [?|[E _]]; [lia|]. by rewrite E in Hr.
  - intros Hz f Hf Hs. destruct (Hcov f) as (g & Hg & Hgf); [by apply Hsc|].
    exists g. split; [|done]. rewrite Hd in Hz. destruct rest; [|done].
    rewrite Hp, app_nil_r in Hg. done.
Qed.

(** The deduplication activity's merged bodies are not bounded by the contract
    the aggregation activity parses its input with: two contract-valid findings
    at one location, with bodies of 1200 characters, make it reject the batch. *)
Definition long_body (c : ascii) : string := Nat.iter 1200 (String c) "".

Theorem dedup_output_rejected :
  let a := ex_finding "f.ts" 1 issue (1#2) (long_body "a"%char) in
  let b := ex_finding "f.ts" 1 issue (1#2) (long_body "b"%char) in
  finding_ok a = true /\ finding_ok b = true /\
  exists out skipped, doDedupLinterWithLlm [a] [b] None = Ok (out, skipped) /\
    aggregateFindings out None = Throw ContractViolation.
Proof.
  intros a b. split_and!; [vm_compute; reflexivity..|].
  destruct (doDedupLinterWithLlm [a] [b] None) as [[out sk]|e] eqn:E.
  - exists out, sk. split; [done|].
    assert (match doDedupLinterWithLlm [a] [b] None with
            | Ok (o, _) => forallb finding_ok o = false | Throw _ => False end) as F
      by (vm_compute; reflexivity).
    rewrite E in F. unfold aggregateFindings. by rewrite F.
  - assert (is_ok (doDedupLinterWithLlm [a] [b] None) = true) as F by (vm_compute; reflexivity).
    rewrite E in F. discriminate.
Qed.
