(* ===== verification/WorkspaceLease.v ===== *)
(** [workspace/transition.ts], [workspace/lease_repo.ts],
    [activities/allocate_workspace.activity.ts],
    [activities/release_workspace.activity.ts] and
    [activities/workspace_retention.activity.ts]: the on-disk workspace of a
    run and its lease row.  The table's CHECKs and its partial unique index
    (one active lease per run) are part of the model, and so is the path
    containment that stands between a lease and [rm -rf].  The file system is
    the argument of the calls that use it. *)
From stdpp Require Import base gmap sets list strings.
From Stdlib Require Import ZArith Lia.
From S2P Require Import Prelude Json WorkflowEvents.
Open Scope Z_scope.

(** * Rows *)

(** [LEASE_STATES] / [core.workspace_lease_state]. *)
Inductive lease_state := ALLOCATED | RELEASE_REQUESTED | RELEASED | ORPHANED | FAILED_CLEANUP.
#[export] Instance lease_state_eq_dec : EqDecision lease_state.
Proof. solve_decision. Defined.

Definition lease_state_name (s : lease_state) : string :=
  match s with
  | ALLOCATED => "ALLOCATED" | RELEASE_REQUESTED => "RELEASE_REQUESTED"
  | RELEASED => "RELEASED" | ORPHANED => "ORPHANED" | FAILED_CLEANUP => "FAILED_CLEANUP"
  end.

Definition LEASE_STATES : list lease_state :=
  [ALLOCATED; RELEASE_REQUESTED; RELEASED; ORPHANED; FAILED_CLEANUP].

(** [LEASE_STATES.has(s)], and which state it is. *)
Definition lease_state_of_string (s : string) : option lease_state :=
  head (filter (fun l => lease_state_name l = s) LEASE_STATES).

(** [WorkspaceLeaseRow] without the pod columns, written once and never read. *)
Record lease := Lease {
  l_run : string;
  l_review : string;
  l_installation : string;
  l_state : lease_state;
  worker_id : string;
  created_at : Z;
  heartbeat_at : Z;
  orphan_check_after : Z;
  release_requested_at : option Z;
  release_requested_by : option string;
  released_at : option Z;
  cleanup_failed_at : option Z;
  last_cleanup_attempt_at : option Z;
  cleanup_attempts : Z;
  last_cleanup_error : option string;
}.

Record lease_db := LeaseDb {
  leases : gmap string lease;                (* by [workspace_id] *)
  lease_events : list wf_event;
}.

(** The CHECKs of [core.workspace_leases]. *)
Definition lease_checks (l : lease) : bool :=
  (0 <=? cleanup_attempts l) &&
  Bool.eqb (bool_decide (l_state l = FAILED_CLEANUP)) (bool_decide (is_Some (cleanup_failed_at l))) &&
  match l_state l with
  | RELEASE_REQUESTED | RELEASED | FAILED_CLEANUP => bool_decide (is_Some (release_requested_at l))
  | _ => true
  end &&
  (negb (bool_decide (l_state l = RELEASED)) || negb (bool_decide (is_Some (cleanup_failed_at l)))) &&
  Bool.eqb (bool_decide (l_state l = RELEASED)) (bool_decide (is_Some (released_at l))).

(** The predicate of [ux_workspace_active_run]. *)
Definition active (l : lease) : bool :=
  match l_state l with ALLOCATED | RELEASE_REQUESTED => true | _ => false end.

(** Another active lease holds the run: the unique index refuses this row. *)
Definition active_conflict (id run : string) (t : gmap string lease) : bool :=
  existsb (fun kl => negb (String.eqb kl.1 id) && active kl.2 && String.eqb (l_run kl.2) run) (rows t).

Inductive lease_error :=
| LInvalidFromState
| LInvalidToState
| LInvalidActivity
| LNoTransaction
| LStateDrift (actual : string)
| LCrossInstallation
| LCheckViolation
| LActiveRunViolation
| LEventTypeDrift
| LEventError (e : emit_error)
| LForeignKeyViolation
| LDuplicateKey
| NoActiveLease
| WorkspaceSecurityViolation
| RmError (message : string).

(** [UPDATE core.workspace_leases SET g WHERE workspace_id = $id]. *)
Definition update_lease (g : lease -> lease) (id : string) (t : gmap string lease)
    : result lease_error (gmap string lease) :=
  match t !! id with
  | None => Ok t
  | Some l =>
      guard? lease_checks (g l) else LCheckViolation in
      guard? negb (active (g l) && active_conflict id (l_run l) t) else LActiveRunViolation in
      Ok (<[id := g l]> t)
  end.

(** * transitionLease *)

Inductive lease_outcome := LAPPLIED | LALREADY_APPLIED.

Record lease_args := LeaseArgs {
  la_workspace : string;
  la_from : string;
  la_to : string;
  la_activity : string;
  la_reason : option string;
  la_expected : option string;
}.

(** The one UPDATE: the state, the column of [STATE_TIMESTAMP_COLUMNS], the
    attribution of a release request, and the cleared failure stamp. *)
Definition flip_lease (from to : lease_state) (activity : string) (now : Z) (l : lease) : lease :=
  {| l_run := l_run l; l_review := l_review l; l_installation := l_installation l; l_state := to;
     worker_id := worker_id l; created_at := created_at l; heartbeat_at := heartbeat_at l;
     orphan_check_after := orphan_check_after l;
     release_requested_at :=
       match to with RELEASE_REQUESTED => Some now | _ => release_requested_at l end;
     release_requested_by :=
       match to with RELEASE_REQUESTED => Some activity | _ => release_requested_by l end;
     released_at := match to with RELEASED => Some now | _ => released_at l end;
     cleanup_failed_at :=
       match to with
       | FAILED_CLEANUP => Some now
       | _ => if decide (from = FAILED_CLEANUP) then None else cleanup_failed_at l
       end;
     last_cleanup_attempt_at := last_cleanup_attempt_at l;
     cleanup_attempts := cleanup_attempts l; last_cleanup_error := last_cleanup_error l |}.

Definition eventTypeFor (state : string) : string :=
  if String.eqb state "FAILED_CLEANUP" then "WORKSPACE_CLEANUP_FAILED"
  else ("WORKSPACE_" +:+ state)%string.

Definition lease_payload (a : lease_args) : list (string * json) :=
  [("workspace_id", JStr (la_workspace a)); ("from_state", JStr (la_from a));
   ("to_state", JStr (la_to a)); ("activity", JStr (la_activity a));
   ("reason", match la_reason a with Some r => JStr r | None => JNull end)].

Definition lease_event (a : lease_args) (l : lease) : emit_args :=
  EmitArgs "github" (l_run l) (l_review l) (eventTypeFor (la_to a)) (Some (lease_payload a)) None
    (Some (l_installation l)).

Definition lift_event {A} (m : result emit_error A) : result lease_error A :=
  match m with Ok a => Ok a | Throw e => Throw (LEventError e) end.

Definition lease_validate (in_tx : bool) (a : lease_args)
    : result lease_error (lease_state * lease_state) :=
  match lease_state_of_string (la_from a) with
  | None => Throw LInvalidFromState
  | Some from =>
      match lease_state_of_string (la_to a) with
      | None => Throw LInvalidToState
      | Some to =>
          guard? negb (String.eqb (la_activity a) "") else LInvalidActivity in
          guard? in_tx else LNoTransaction in Ok (from, to)
      end
  end.

(** The run and review of a lease exist: its foreign keys are [RESTRICT]. *)
Definition transitionLease (in_tx : bool) (a : lease_args) (eid : string) (now : Z) (db : lease_db)
    : result lease_error (lease_db * lease_outcome) :=
  let? (from, to) := lease_validate in_tx a in
  match leases db !! la_workspace a with
  | None => Throw (LStateDrift "<missing>")
  | Some l =>
      guard? (match la_expected a with None => true | Some e => String.eqb (l_installation l) e end)
        else LCrossInstallation in
      if decide (l_state l = to) then Ok (db, LALREADY_APPLIED)
      else
        guard? bool_decide (l_state l = from) else LStateDrift (lease_state_name (l_state l)) in
        let? t := update_lease (flip_lease from to (la_activity a) now) (la_workspace a) (leases db) in
        guard? existsb (String.eqb (eventTypeFor (la_to a))) EVENT_TYPES else LEventTypeDrift in
        let? (evs, _) := lift_event (emitWorkflowEvent true true (lease_event a l) eid now
                           (lease_events db)) in
        Ok (LeaseDb t evs, LAPPLIED)
  end.

(** * LeaseRepo *)

Record insert_args := InsertArgs {
  in_workspace : string;
  in_run : string;
  in_review : string;
  in_installation : string;
  in_worker : string;
  in_orphan_check_after : Z;
}.

Definition new_lease (a : insert_args) (now : Z) : lease :=
  {| l_run := in_run a; l_review := in_review a; l_installation := in_installation a;
     l_state := ALLOCATED; worker_id := in_worker a; created_at := now; heartbeat_at := now;
     orphan_check_after := in_orphan_check_after a; release_requested_at := None;
     release_requested_by := None; released_at := None; cleanup_failed_at := None;
     last_cleanup_attempt_at := None; cleanup_attempts := 0; last_cleanup_error := None |}.

(** [LeaseRepo.insert]: nothing when the run has an active lease; [fk] says
    whether the run and the review exist. *)
Definition lease_insert (fk : bool) (a : insert_args) (now : Z) (t : gmap string lease)
    : result lease_error (gmap string lease) :=
  if existsb (fun kl => active kl.2 && String.eqb (l_run kl.2) (in_run a)) (rows t) then Ok t
  else
    guard? bool_decide (t !! in_workspace a = None) else LDuplicateKey in
    guard? fk else LForeignKeyViolation in
    Ok (<[in_workspace a := new_lease a now]> t).

(** [LeaseRepo.findActiveByRun]. *)
Definition findActiveByRun (run : string) (t : gmap string lease) : option (string * lease) :=
  head (filter (fun kl => active kl.2 = true /\ l_run kl.2 = run) (rows t)).

(** [LeaseRepo.touchHeartbeat]: [now] is the database's [clock_timestamp()]. *)
Definition beat (now : Z) (l : lease) : lease :=
  {| l_run := l_run l; l_review := l_review l; l_installation := l_installation l;
     l_state := l_state l; worker_id := worker_id l; created_at := created_at l;
     heartbeat_at := now; orphan_check_after := orphan_check_after l;
     release_requested_at := release_requested_at l; release_requested_by := release_requested_by l;
     released_at := released_at l; cleanup_failed_at := cleanup_failed_at l;
     last_cleanup_attempt_at := last_cleanup_attempt_at l;
     cleanup_attempts := cleanup_attempts l; last_cleanup_error := last_cleanup_error l |}.

Definition touchHeartbeat (id : string) (now : Z) (db : lease_db) : lease_db * bool :=
  match leases db !! id with
  | Some l =>
      if decide (l_state l = ALLOCATED)
      then (LeaseDb (<[id := beat now l]> (leases db)) (lease_events db), true)
      else (db, false)
  | None => (db, false)
  end.

(** * Path containment *)

(** An absolute path is the list of its components. *)
Definition path := list string.

(** [path.join(root, "installations", iid, "runs", rid)]: ids are uuids, one
    component each. *)
Definition deriveWorkspacePath (root : path) (installation run : string) : path :=
  root ++ ["installations"; installation; "runs"; run].

(** [path.relative(from, to)]: one [".."] per component of [from] beyond the
    common prefix, then the rest of [to]. *)
Fixpoint path_relative (from to : path) : path :=
  match from, to with
  | f :: from', t :: to' => if String.eqb f t then path_relative from' to'
                            else map (fun _ => "..") from ++ to
  | _, _ => map (fun _ => "..") from ++ to
  end.

(** [rel === ".." || rel.startsWith("../")]: an absolute [rel] does not occur
    on this platform. *)
Definition escapes (rel : path) : bool :=
  match rel with c :: _ => String.eqb c ".." | [] => false end.

Section FileSystem.
(** [fs.realpath]: [None] is a rejected promise. *)
Variable realpath : path -> option path.

(** The loop of [resolveNonStrict] over the prefix lengths [depth], ..., 0. *)
Fixpoint resolve_from (p : path) (depth : nat) : path :=
  match realpath (take depth p) with
  | Some real => real ++ drop depth p
  | None => match depth with O => p | S d => resolve_from p d end
  end.

Definition resolveNonStrict (p : path) : path := resolve_from p (length p).

Definition validateCleanupPath (root candidate : path) : result lease_error path :=
  match realpath root with
  | None => Throw WorkspaceSecurityViolation
  | Some rootResolved =>
      let resolved := resolveNonStrict candidate in
      guard? negb (escapes (path_relative rootResolved resolved))
        else WorkspaceSecurityViolation in
      Ok resolved
  end.

(** [resolveAndValidate] of the allocate activity: the directory exists. *)
Definition resolveAndValidate (root candidate : path) : result lease_error path :=
  match realpath root, realpath candidate with
  | Some rootResolved, Some resolved =>
      guard? negb (escapes (path_relative rootResolved resolved))
        else WorkspaceSecurityViolation in
      Ok resolved
  | _, _ => Throw WorkspaceSecurityViolation
  end.
End FileSystem.

(** * releaseWorkspace *)

Definition MAX_CLEANUP_ERROR_LEN : nat := 1024.

(** The second UPDATE of [transitionToFailedCleanup]. *)
Definition bump_attempt (now : Z) (reason : string) (l : lease) : lease :=
  {| l_run := l_run l; l_review := l_review l; l_installation := l_installation l;
     l_state := l_state l; worker_id := worker_id l; created_at := created_at l;
     heartbeat_at := heartbeat_at l; orphan_check_after := orphan_check_after l;
     release_requested_at := release_requested_at l; release_requested_by := release_requested_by l;
     released_at := released_at l; cleanup_failed_at := cleanup_failed_at l;
     last_cleanup_attempt_at := Some now;
     cleanup_attempts := cleanup_attempts l + 1;
     last_cleanup_error := Some (String.substring 0 MAX_CLEANUP_ERROR_LEN reason) |}.

Definition release_args (id : string) (from to : lease_state) (reason : option string) : lease_args :=
  LeaseArgs id (lease_state_name from) (lease_state_name to) "release_workspace_activity" reason None.

(** A one-shot transaction: committed when the body returns. *)
Definition runTransition (id : string) (from to : lease_state) (reason : option string)
    (eid : string) (now : Z) (db : lease_db) : result lease_error lease_db :=
  let? (db', _) := transitionLease true (release_args id from to reason) eid now db in Ok db'.

Definition transitionToFailedCleanup (id : string) (from : lease_state) (reason : string)
    (eid : string) (now : Z) (db : lease_db) : result lease_error lease_db :=
  let? (db', _) := transitionLease true (release_args id from FAILED_CLEANUP (Some reason)) eid now db in
  let? t := update_lease (bump_attempt now reason) id (leases db') in
  Ok (LeaseDb t (lease_events db')).

(** The cleanup that failed is recorded before its error leaves the activity;
    an error of the recording itself replaces it. *)
Definition fail_cleanup (id : string) (from : lease_state) (reason : string) (e : lease_error)
    (eid : string) (now : Z) (db : lease_db) : lease_db * result lease_error unit :=
  match transitionToFailedCleanup id from reason eid now db with
  | Ok db' => (db', Throw e)
  | Throw e' => (db, Throw e')
  end.

Section Release.
Variable realpath : path -> option path.
(** [fs.rm(p, {recursive, force})]: the message of the error it throws. *)
Variable rm : path -> option string.

(** Steps 4 to 6 on a lease in [RELEASE_REQUESTED] or [FAILED_CLEANUP]; the
    middle component lists the paths handed to [fs.rm]. *)
Definition release_cleanup (id : string) (l : lease) (root : path) (from : lease_state)
    (eid : string) (now : Z) (db : lease_db) : lease_db * list path * result lease_error unit :=
  match validateCleanupPath realpath root (deriveWorkspacePath root (l_installation l) (l_run l)) with
  | Throw e => let '(db', r) := fail_cleanup id from "security_violation" e eid now db in (db', [], r)
  | Ok resolved =>
      match rm resolved with
      | Some message =>
          let '(db', r) := fail_cleanup id from ("rm failed: " +:+ message) (RmError message) eid now db in
          (db', [resolved], r)
      | None =>
          match runTransition id from RELEASED None eid now db with
          | Ok db' => (db', [resolved], Ok tt)
          | Throw e => (db, [resolved], Throw e)
          end
      end
  end.

(** [eid1]/[now1] serve the [RELEASE_REQUESTED] hop, [eid2]/[now2] the last
    transaction. *)
Definition releaseWorkspace (id : string) (root : path) (eid1 eid2 : string) (now1 now2 : Z)
    (db : lease_db) : lease_db * list path * result lease_error unit :=
  match leases db !! id with
  | None => (db, [], Ok tt)
  | Some l =>
      match l_state l with
      | RELEASED => (db, [], Ok tt)
      | ALLOCATED | ORPHANED =>
          match runTransition id (l_state l) RELEASE_REQUESTED
                  (Some "release_workspace_activity entry") eid1 now1 db with
          | Throw e => (db, [], Throw e)
          | Ok db1 => release_cleanup id l root RELEASE_REQUESTED eid2 now2 db1
          end
      | s => release_cleanup id l root s eid2 now2 db
      end
  end.
End Release.

(** * allocateWorkspace *)

Definition ORPHAN_GRACE_SECONDS : Z := 1800.

Record workspace_handle := WorkspaceHandle {
  wh_workspace : string;
  wh_installation : string;
  wh_run : string;
  wh_path : path;
  wh_state : lease_state;
}.

(** [realpath] is the file system after the [mkdir]; [now] the injected clock,
    [db_now] the database's column default. *)
Definition allocateWorkspace (realpath : path -> option path) (fk : bool) (root : path)
    (candidate run review installation worker : string) (now db_now : Z) (db : lease_db)
    : lease_db * result lease_error workspace_handle :=
  let args := InsertArgs candidate run review installation worker
                (now + ORPHAN_GRACE_SECONDS * 1000) in
  match lease_insert fk args db_now (leases db) with
  | Throw e => (db, Throw e)
  | Ok t =>
      match findActiveByRun run t with
      | None => (db, Throw NoActiveLease)
      | Some (id, _) =>
          let db' := LeaseDb t (lease_events db) in
          match resolveAndValidate realpath root (deriveWorkspacePath root installation run) with
          | Throw e => (db', Throw e)
          | Ok derived => (db', Ok (WorkspaceHandle id installation run derived ALLOCATED))
          end
      end
  end.

(** * The retention sweeps *)

Definition WORKER_DEAD_AFTER_MS : Z := 5 * 60 * 1000.
Definition RELEASE_GRACE_MS : Z := 5 * 60 * 1000.
Definition CLEANUP_MAX_ATTEMPTS : Z := 5.
Definition CLEANUP_BACKOFF_SCHEDULE_MS : list Z :=
  [1 * 60 * 1000; 5 * 60 * 1000; 30 * 60 * 1000; 2 * 60 * 60 * 1000; 12 * 60 * 60 * 1000].
Definition RELEASED_LEASE_RETENTION_MS : Z := 7 * 24 * 60 * 60 * 1000.
Definition ORPHANED_AGED_THRESHOLD_MS : Z := 24 * 60 * 60 * 1000.

(** The candidate SELECT of the orphan sweep; [heartbeats] is
    [core.worker_heartbeats], worker to [last_seen_at]. *)
Definition orphan_candidate (heartbeats : gmap string Z) (now : Z) (l : lease) : bool :=
  bool_decide (l_state l = ALLOCATED) && (orphan_check_after l <? now) &&
  match heartbeats !! worker_id l with
  | Some seen => seen <? now - WORKER_DEAD_AFTER_MS
  | None => false
  end.

Definition orphan_args (id : string) : lease_args :=
  LeaseArgs id "ALLOCATED" "ORPHANED" "run_workspace_orphan_sweep_activity"
    (Some "worker_dead_after_threshold") None.

(** The errors a statement raises: Postgres refuses every later statement of
    the transaction and turns its COMMIT into a ROLLBACK. *)
Definition db_fault (e : lease_error) : bool :=
  match e with
  | LCheckViolation | LActiveRunViolation | LForeignKeyViolation | LDuplicateKey
  | LEventError DuplicateDelivery | LEventError EventForeignKeyViolation => true
  | _ => false
  end.

(** The loop of the sweep in its one transaction; [aborted] is the state of the
    transaction, [eids] draws the event ids. *)
Fixpoint orphan_loop (ids : list string) (eids : string -> string) (now : Z) (aborted : bool)
    (orphaned : Z) (db : lease_db) : lease_db * bool * Z :=
  match ids with
  | [] => (db, aborted, orphaned)
  | id :: ids' =>
      if aborted then orphan_loop ids' eids now aborted orphaned db
      else match transitionLease true (orphan_args id) (eids id) now db with
           | Ok (db', _) => orphan_loop ids' eids now false (orphaned + 1) db'
           | Throw e => orphan_loop ids' eids now (db_fault e) orphaned db
           end
  end.

(** [runWorkspaceOrphanSweepActivity]; [candidates] is the locked SELECT. *)
Definition runWorkspaceOrphanSweep (heartbeats : gmap string Z) (eids : string -> string) (now : Z)
    (db : lease_db) : lease_db * Z :=
  let candidates := map fst (filter (fun kl => orphan_candidate heartbeats now kl.2 = true)
                               (rows (leases db))) in
  let '(db', aborted, n) := orphan_loop candidates eids now false 0 db in
  (if aborted then db else db', n).

(** The backoff test of the reap activity. *)
Definition backoff_index (attempts : Z) : nat :=
  Z.to_nat (Z.min attempts (Z.of_nat (length CLEANUP_BACKOFF_SCHEDULE_MS) - 1)).

Definition backoff_elapsed (now : Z) (l : lease) : bool :=
  match last_cleanup_attempt_at l with
  | None => true
  | Some t => match CLEANUP_BACKOFF_SCHEDULE_MS !! backoff_index (cleanup_attempts l) with
              | Some ms => t + ms <? now
              | None => false
              end
  end.

Definition reap_eligible (now : Z) (l : lease) : bool :=
  match l_state l with
  | ORPHANED => true
  | RELEASE_REQUESTED =>
      match release_requested_at l with Some t => t <? now - RELEASE_GRACE_MS | None => false end
  | FAILED_CLEANUP => (cleanup_attempts l <? CLEANUP_MAX_ATTEMPTS) && backoff_elapsed now l
  | _ => false
  end.

(** [runWorkspaceReapActivity]: the three SELECTs partition the eligible rows
    by state; the union is sorted. *)
Definition runWorkspaceReap (now : Z) (db : lease_db) : list string :=
  sort_by str_leb (map fst (filter (fun kl => reap_eligible now kl.2 = true) (rows (leases db)))).

Definition expired (now : Z) (l : lease) : bool :=
  bool_decide (l_state l = RELEASED) &&
  match released_at l with
  | Some t => t <? now - RELEASED_LEASE_RETENTION_MS
  | None => false
  end.

Definition runWorkspaceReleasedRetention (now : Z) (db : lease_db) : lease_db * Z :=
  (LeaseDb (filter (fun kl => expired now kl.2 = false) (leases db)) (lease_events db),
   Z.of_nat (length (filter (fun kl => expired now kl.2 = true) (rows (leases db))))).

(** The dead-letter counts: failed cleanups at the ceiling, and aged orphans. *)
Definition count_leases (p : lease -> bool) (db : lease_db) : Z :=
  Z.of_nat (length (filter (fun kl => p kl.2 = true) (rows (leases db)))).

Definition failed_cleanup_stuck (l : lease) : bool :=
  bool_decide (l_state l = FAILED_CLEANUP) && (CLEANUP_MAX_ATTEMPTS <=? cleanup_attempts l).

Definition orphaned_aged (now : Z) (l : lease) : bool :=
  bool_decide (l_state l = ORPHANED) && (created_at l <? now - ORPHANED_AGED_THRESHOLD_MS).

Definition runWorkspaceDeadLetterSweep (now : Z) (db : lease_db) : Z * Z :=
  (count_leases failed_cleanup_stuck db, count_leases (orphaned_aged now) db).

(** * All atomic steps of the table *)

(** The transactions that write the table, from any process, in any order. *)
Inductive lease_step (db : lease_db) : lease_db -> Prop :=
| ls_allocate realpath fk root c run rev inst w now db_now :
    lease_step db (allocateWorkspace realpath fk root c run rev inst w now db_now db).1
| ls_heartbeat id now : lease_step db (touchHeartbeat id now db).1
| ls_release realpath rm id root e1 e2 now1 now2 :
    lease_step db (releaseWorkspace realpath rm id root e1 e2 now1 now2 db).1.1
| ls_transition id from to reason eid now db' :
    to <> FAILED_CLEANUP -> runTransition id from to reason eid now db = Ok db' -> lease_step db db'
| ls_failed id from reason eid now db' :
    transitionToFailedCleanup id from reason eid now db = Ok db' -> lease_step db db'
| ls_orphan heartbeats eids now : lease_step db (runWorkspaceOrphanSweep heartbeats eids now db).1
| ls_purge now : lease_step db (runWorkspaceReleasedRetention now db).1.

Inductive lease_reachable : lease_db -> Prop :=
| lr_start : lease_reachable (LeaseDb ∅ [])
| lr_next db db' : lease_reachable db -> lease_step db db' -> lease_reachable db'.

(** * Lemmas *)

Lemma lease_state_of_name s : lease_state_of_string (lease_state_name s) = Some s.
Proof. by destruct s. Qed.

Lemma lease_checks_true l :
  lease_checks l = true <->
  0 <= cleanup_attempts l /\
  (l_state l = FAILED_CLEANUP <-> is_Some (cleanup_failed_at l)) /\
  (l_state l = RELEASE_REQUESTED \/ l_state l = RELEASED \/ l_state l = FAILED_CLEANUP ->
     is_Some (release_requested_at l)) /\
  (l_state l = RELEASED <-> is_Some (released_at l)).
Proof.
  unfold lease_checks.
  rewrite !andb_true_iff, !eqb_true_iff, orb_true_iff, !negb_true_iff, !bool_decide_eq_false, Z.leb_le.
  assert (forall P Q `{Decision P} `{Decision Q},
    bool_decide P = bool_decide Q <-> (P <-> Q)) as Hb.
  { intros. by rewrite eq_iff_eq_true, !bool_decide_eq_true. }
  rewrite !Hb. destruct (l_state l); rewrite ?bool_decide_eq_true; naive_solver.
Qed.

Lemma active_conflict_true id run t :
  active_conflict id run t = true <->
  exists j m, t !! j = Some m /\ j <> id /\ active m = true /\ l_run m = run.
Proof.
  unfold active_conflict. rewrite existsb_exists. split.
  - intros ([j m] & Hin & H). apply list_elem_of_In, elem_of_rows in Hin. simpl in H.
    bool_to_prop. by exists j, m.
  - intros (j & m & Hj & Hne & Ha & Hr). exists (j, m).
    rewrite <- list_elem_of_In, elem_of_rows. simpl. rewrite Ha, Hr, String.eqb_refl.
    by apply String.eqb_neq in Hne as ->.
Qed.

(** What every statement keeps: the CHECKs and the unique index. *)
Definition table_ok (t : gmap string lease) : Prop :=
  (forall id l, t !! id = Some l -> lease_checks l = true) /\
  (forall i j l m, t !! i = Some l -> t !! j = Some m -> active l = true -> active m = true ->
     l_run l = l_run m -> i = j).

Lemma table_ok_insert id l t :
  table_ok t -> lease_checks l = true ->
  active l && active_conflict id (l_run l) t = false -> table_ok (<[id := l]> t).
Proof.
  intros [Hc Hu] Hl Hno. split.
  - intros j m. rewrite lookup_insert_Some. intros [[_ <-]|[_ Hm]]; eauto.
  - assert (Hnew : forall j m, t !! j = Some m -> j <> id -> active m = true ->
      active l = true -> l_run m = l_run l -> False).
    { intros j m Hm Hne Ham Hal Hr. rewrite Hal in Hno.
      assert (active_conflict id (l_run l) t = true) by (apply active_conflict_true; eauto 6).
      simpl in Hno. congruence. }
    intros i j x y Hi Hj Hx Hy Hr.
    rewrite lookup_insert_Some in Hi. rewrite lookup_insert_Some in Hj.
    destruct Hi as [[<- <-]|[Hi1 Hi]], Hj as [[<- <-]|[Hj1 Hj]]; [done| | |by eauto].
    + exfalso. eapply Hnew; eauto.
    + exfalso. eapply Hnew; eauto.
Qed.

Lemma update_lease_ok g id t l t' :
  t !! id = Some l -> update_lease g id t = Ok t' ->
  lease_checks (g l) = true /\ active (g l) && active_conflict id (l_run l) t = false /\
  t' = <[id := g l]> t.
Proof.
  unfold update_lease. intros ->. destruct (lease_checks (g l)) eqn:E; [|discriminate].
  destruct (negb _) eqn:F; [|discriminate]. intros [= <-]. by apply negb_true_iff in F.
Qed.

(** Internal events always pass the emitter's checks. *)
Lemma emit_internal a id now log k :
  e_delivery a = None -> is_Some (e_installation a) ->
  existsb (String.eqb (e_type a)) EVENT_TYPES = true -> runIdToLockKey (e_run a) = Some k ->
  emitWorkflowEvent true true a id now log =
  Ok (log ++ [event_row a id now (next_seq (e_run a) log)], id).
Proof.
  intros Hd [i Hi] Ht Hk. unfold emitWorkflowEvent, emit_validate. rewrite Hi, Ht, Hk. simpl.
  assert (existsb (same_delivery (event_row a id now (next_seq (e_run a) log))) log = false) as ->; [|done].
  induction log as [|f l IH]; [done|]. simpl in *.
  unfold same_delivery at 1. simpl. rewrite Hd. simpl.
  clear IH. induction l as [|g l IH]; [done|]. simpl. unfold same_delivery at 1. simpl.
  by rewrite Hd.
Qed.

Lemma eventTypeFor_known s : existsb (String.eqb (eventTypeFor (lease_state_name s))) EVENT_TYPES = true.
Proof. by destruct s. Qed.

Lemma emit_appends a id now log log' r :
  emitWorkflowEvent true true a id now log = Ok (log', r) ->
  log' = log ++ [event_row a id now (next_seq (e_run a) log)].
Proof.
  unfold emitWorkflowEvent. intros H. apply rbind_ok in H as (? & _ & H).
  destruct (runIdToLockKey _); [|discriminate]. destruct (negb _); [|discriminate].
  by injection H as <- _.
Qed.

Lemma lease_state_of_string_name s l : lease_state_of_string s = Some l -> s = lease_state_name l.
Proof.
  unfold lease_state_of_string. intros H.
  assert (Hin : l ∈ filter (fun l => lease_state_name l = s) LEASE_STATES)
    by (destruct (filter _ _); [done|injection H as <-; apply elem_of_cons; auto]).
  by apply list_elem_of_filter in Hin as [<- _].
Qed.

(** The two ways in which [transitionLease] returns. *)
Lemma transitionLease_cases in_tx a eid now db db' o :
  transitionLease in_tx a eid now db = Ok (db', o) ->
  exists l from to, leases db !! la_workspace a = Some l /\
  la_from a = lease_state_name from /\ la_to a = lease_state_name to /\
  match o with
  | LALREADY_APPLIED => db' = db /\ l_state l = to
  | LAPPLIED => l_state l = from /\ from <> to /\
      lease_checks (flip_lease from to (la_activity a) now l) = true /\
      active (flip_lease from to (la_activity a) now l)
        && active_conflict (la_workspace a) (l_run l) (leases db) = false /\
      db' = LeaseDb (<[la_workspace a := flip_lease from to (la_activity a) now l]> (leases db))
              (lease_events db ++ [event_row (lease_event a l) eid now
                                     (next_seq (l_run l) (lease_events db))])
  end.
Proof.
  unfold transitionLease. intros H. apply rbind_ok in H as ([from to] & Hv & H).
  unfold lease_validate in Hv.
  destruct (lease_state_of_string (la_from a)) as [f|] eqn:Ef; [|discriminate].
  destruct (lease_state_of_string (la_to a)) as [t|] eqn:Et; [|discriminate].
  destruct (negb _); [|discriminate]. destruct in_tx; [|discriminate]. injection Hv as <- <-.
  apply lease_state_of_string_name in Ef, Et.
  destruct (leases db !! la_workspace a) as [l|] eqn:El; [|discriminate].
  destruct (match la_expected a with Some _ => _ | None => _ end); [|discriminate].
  exists l, f, t. split; [done|]. split; [done|]. split; [done|].
  destruct (decide (l_state l = t)) as [E|Hne]; [by injection H as <- <-|].
  destruct (bool_decide (l_state l = f)) eqn:Ebf; [|discriminate].
  apply bool_decide_eq_true in Ebf.
  apply rbind_ok in H as (t' & Hu & H).
  destruct (existsb _ _); [|discriminate]. apply rbind_ok in H as ([evs r] & Hem & H).
  injection H as <- <-. unfold lift_event in Hem.
  destruct (emitWorkflowEvent _ _ _ _ _ _) as [[evs' r']|] eqn:Ee; [|discriminate].
  injection Hem as -> ->. apply emit_appends in Ee as ->.
  destruct (update_lease_ok _ _ _ _ _ El Hu) as (Hc & Hno & ->).
  split; [done|]. split; [congruence|]. split; [done|]. split; done.
Qed.

(** ** The invariant of the table and its event streams *)

(** A failed cleanup has been counted, every statement's constraints hold, and
    every run's events are numbered without gaps. *)
Definition lease_inv (db : lease_db) : Prop :=
  table_ok (leases db) /\
  (forall id l, leases db !! id = Some l -> l_state l = FAILED_CLEANUP -> 1 <= cleanup_attempts l) /\
  (forall run, gap_free run (lease_events db)).

Lemma gap_free_event a id now log :
  (forall run, gap_free run log) ->
  forall run, gap_free run (log ++ [event_row a id now (next_seq (e_run a) log)]).
Proof.
  intros H run. destruct (decide (e_run a = run)) as [<-|Hne]; [by apply gap_free_snoc|].
  apply gap_free_other; [|done]. unfold of_run. by rewrite filter_cons_False.
Qed.

Lemma flip_attempts from to act now l :
  cleanup_attempts (flip_lease from to act now l) = cleanup_attempts l.
Proof. done. Qed.

(** A transition to any other state than [FAILED_CLEANUP] keeps the invariant. *)
Lemma transitionLease_inv in_tx a eid now db db' o :
  transitionLease in_tx a eid now db = Ok (db', o) -> la_to a <> "FAILED_CLEANUP" ->
  lease_inv db -> lease_inv db'.
Proof.
  intros H Hto (Ht & Hf & Hg).
  destruct (transitionLease_cases _ _ _ _ _ _ _ H) as (l & from & to & Hl & _ & Et & Ho).
  destruct o; [|by destruct Ho as [-> _]].
  destruct Ho as (_ & _ & Hc & Hno & ->). split; [|split].
  - by apply table_ok_insert.
  - simpl. intros id m. rewrite lookup_insert_Some. intros [[_ <-]|[_ Hm]]; [|by eauto].
    simpl. intros ->. by rewrite Et in Hto.
  - apply (gap_free_event (lease_event a l)); done.
Qed.

Lemma bump_checks now reason l :
  lease_checks l = true -> lease_checks (bump_attempt now reason l) = true.
Proof. rewrite !lease_checks_true. simpl. intros (? & ? & ? & ?). split; [lia|done]. Qed.

Lemma failed_cleanup_inv id from reason eid now db db' :
  transitionToFailedCleanup id from reason eid now db = Ok db' -> lease_inv db -> lease_inv db'.
Proof.
  unfold transitionToFailedCleanup. intros H (Ht & Hf & Hg).
  apply rbind_ok in H as ([db1 o] & H1 & H). apply rbind_ok in H as (t & Hu & H). injection H as <-.
  destruct (transitionLease_cases _ _ _ _ _ _ _ H1) as (l & fr & to & Hl & _ & Et & Ho).
  simpl in Hl, Et. assert (to = FAILED_CLEANUP) as -> by (by destruct to).
  assert (H1' : table_ok (leases db1) /\ (forall run, gap_free run (lease_events db1)) /\
    forall m, leases db1 !! id = Some m -> 0 <= cleanup_attempts m).
  { destruct o; [|destruct Ho as [-> _]; split; [done|split; [done|]]].
    - destruct Ho as (_ & _ & Hc & Hno & ->). split; [by apply table_ok_insert|].
      split; [by apply (gap_free_event (lease_event _ l))|].
      simpl. intros m. rewrite lookup_insert_eq. intros [= <-].
      by apply lease_checks_true in Hc as (? & _).
    - intros m Hm. apply (proj1 Ht) in Hm. by apply lease_checks_true in Hm as (? & _). }
  destruct H1' as (Ht1 & Hg1 & Ha1).
  assert (Hl1 : exists m, leases db1 !! id = Some m).
  { destruct o; [destruct Ho as (_ & _ & _ & _ & ->); simpl; rewrite lookup_insert_eq|
      destruct Ho as [-> _]]; by eexists. }
  destruct Hl1 as [m Hm]. destruct (update_lease_ok _ _ _ _ _ Hm Hu) as (Hc & Hno & ->).
  split; [|split; [|done]]; [by apply table_ok_insert|].
  simpl. intros j x. rewrite lookup_insert_Some. intros [[_ <-]|[Hj Hx]] Hs.
  - simpl. specialize (Ha1 m Hm). lia.
  - destruct o; [|destruct Ho as [-> _]; by eauto].
    destruct Ho as (_ & _ & _ & _ & ->). simpl in Hx. rewrite lookup_insert_ne in Hx by done. eauto.
Qed.

Lemma runTransition_inv id from to reason eid now db db' :
  runTransition id from to reason eid now db = Ok db' -> to <> FAILED_CLEANUP ->
  lease_inv db -> lease_inv db'.
Proof.
  unfold runTransition. intros H Hto. apply rbind_ok in H as ([db1 o] & H1 & H). injection H as <-.
  apply (transitionLease_inv _ _ _ _ _ _ _ H1). by destruct to.
Qed.

Lemma fail_cleanup_inv id from reason e eid now db :
  lease_inv db -> lease_inv (fail_cleanup id from reason e eid now db).1.
Proof.
  unfold fail_cleanup. destruct (transitionToFailedCleanup _ _ _ _ _ _) eqn:E; [|done].
  by apply (failed_cleanup_inv _ _ _ _ _ _ _ E).
Qed.

Lemma release_cleanup_inv realpath rm id l root from eid now db :
  lease_inv db -> lease_inv (release_cleanup realpath rm id l root from eid now db).1.1.
Proof.
  unfold release_cleanup. intros H. destruct (validateCleanupPath _ _ _) as [p|e].
  - destruct (rm p) as [m|].
    + pose proof (fail_cleanup_inv id from ("rm failed: " +:+ m) (RmError m) eid now db H).
      by destruct (fail_cleanup _ _ _ _ _ _ _).
    + destruct (runTransition _ _ _ _ _ _ _) eqn:E; [|done]. by apply (runTransition_inv _ _ _ _ _ _ _ _ E).
  - pose proof (fail_cleanup_inv id from "security_violation" e eid now db H).
    by destruct (fail_cleanup _ _ _ _ _ _ _).
Qed.

Lemma releaseWorkspace_inv realpath rm id root e1 e2 n1 n2 db :
  lease_inv db -> lease_inv (releaseWorkspace realpath rm id root e1 e2 n1 n2 db).1.1.
Proof.
  unfold releaseWorkspace. intros H. destruct (leases db !! id) as [l|]; [|done].
  assert (Hhop : forall from,
    lease_inv (match runTransition id from RELEASE_REQUESTED
                 (Some "release_workspace_activity entry") e1 n1 db with
               | Throw e => (db, [], Throw e)
               | Ok db1 => release_cleanup realpath rm id l root RELEASE_REQUESTED e2 n2 db1
               end).1.1).
  { intros from. destruct (runTransition _ _ _ _ _ _ _) eqn:E; [|done].
    apply release_cleanup_inv. by apply (runTransition_inv _ _ _ _ _ _ _ _ E). }
  destruct (l_state l); auto using release_cleanup_inv.
Qed.

Lemma lease_insert_ok fk a now t t' :
  lease_insert fk a now t = Ok t' -> table_ok t ->
  table_ok t' /\ (t' = t \/ t' = <[in_workspace a := new_lease a now]> t).
Proof.
  unfold lease_insert. destruct (existsb _ _) eqn:Ex; [by intros [= <-]; auto|].
  destruct (bool_decide _); [|discriminate]. destruct fk; [|discriminate]. intros [= <-] Ht.
  split; [|by right]. apply table_ok_insert; [done|done|].
  apply andb_false_intro2, not_true_iff_false. rewrite active_conflict_true.
  intros (j & m & Hj & _ & Ha & Hr). apply not_true_iff_false in Ex. apply Ex, existsb_exists.
  exists (j, m). rewrite <- list_elem_of_In, elem_of_rows. split; [done|].
  simpl in *. by rewrite Ha, Hr, String.eqb_refl.
Qed.

Lemma allocate_inv realpath fk root c run rev inst w now db_now db :
  lease_inv db -> lease_inv (allocateWorkspace realpath fk root c run rev inst w now db_now db).1.
Proof.
  unfold allocateWorkspace. intros Hall. pose proof Hall as (Ht & Hf & Hg).
  destruct (lease_insert _ _ _ _) as [t|] eqn:E; [|done].
  destruct (lease_insert_ok _ _ _ _ _ E Ht) as [Ht' Ht1].
  assert (Hinv : lease_inv (LeaseDb t (lease_events db))).
  { split; [done|split; [|done]]. intros id l Hl Hs. destruct Ht1 as [->| ->]; [by eauto|].
    simpl in Hl. rewrite lookup_insert_Some in Hl. destruct Hl as [[_ <-]|[_ Hl]]; [done|by eauto]. }
  destruct (findActiveByRun run t) as [[id l]|]; [|done].
  by destruct (resolveAndValidate _ _ _).
Qed.

Lemma heartbeat_inv id now db : lease_inv db -> lease_inv (touchHeartbeat id now db).1.
Proof.
  unfold touchHeartbeat. intros Hall. pose proof Hall as (Ht & Hf & Hg). destruct (leases db !! id) as [l|] eqn:E; [|done].
  destruct (decide _) as [Hs|]; [|done]. split; [|split; [|done]]; simpl.
  - apply table_ok_insert; [done|exact (proj1 Ht id l E)|]. simpl.
    apply andb_false_intro2, not_true_iff_false. rewrite active_conflict_true.
    intros (j & m & Hj & Hne & Ha & Hr). apply Hne, (proj2 Ht j id m l); try done.
    unfold active. by rewrite Hs.
  - intros j m. rewrite lookup_insert_Some. intros [[_ <-]|[_ Hm]]; [by simpl; rewrite Hs|by eauto].
Qed.

Lemma orphan_loop_inv ids eids now ab n db :
  lease_inv db -> lease_inv (orphan_loop ids eids now ab n db).1.1.
Proof.
  revert ab n db. induction ids as [|id ids IH]; intros ab n db H; [done|]. simpl.
  destruct ab; [by apply IH|].
  destruct (transitionLease _ _ _ _ _) as [[db' o]|] eqn:E; [|by apply IH].
  apply IH. by apply (transitionLease_inv _ _ _ _ _ _ _ E).
Qed.

Lemma orphan_sweep_inv hb eids now db :
  lease_inv db -> lease_inv (runWorkspaceOrphanSweep hb eids now db).1.
Proof.
  unfold runWorkspaceOrphanSweep. intros H.
  pose proof (orphan_loop_inv (map fst (filter (fun kl => orphan_candidate hb now kl.2 = true)
    (rows (leases db)))) eids now false 0 db H) as Hi.
  destruct (orphan_loop _ _ _ _ _ _) as [[db' ab] n]. by destruct ab.
Qed.

Lemma purge_inv now db : lease_inv db -> lease_inv (runWorkspaceReleasedRetention now db).1.
Proof.
  intros ((Hc & Hu) & Hf & Hg). split; [split|split; [|done]]; simpl.
  - intros i l Hl. apply map_lookup_filter_Some in Hl as [Hl _]. eauto.
  - intros i j l m Hl Hm. apply map_lookup_filter_Some in Hl as [Hl _].
    apply map_lookup_filter_Some in Hm as [Hm _]. eauto.
  - intros i l Hl. apply map_lookup_filter_Some in Hl as [Hl _]. eauto.
Qed.

Lemma lease_step_inv db db' : lease_step db db' -> lease_inv db -> lease_inv db'.
Proof.
  destruct 1; eauto using allocate_inv, heartbeat_inv, releaseWorkspace_inv, runTransition_inv,
    failed_cleanup_inv, orphan_sweep_inv, purge_inv.
Qed.

Lemma lease_reachable_inv db : lease_reachable db -> lease_inv db.
Proof.
  induction 1 as [|db db' _ IH Hs]; [|by eapply lease_step_inv].
  split; [split|split; [|done]]; simpl; intros; by rewrite lookup_empty in *.
Qed.

(** ** Containment *)

Lemma path_relative_inside root p :
  ".." ∉ p -> escapes (path_relative root p) = false -> root `prefix_of` p.
Proof.
  revert p. induction root as [|c root IH]; intros p Hp H; [apply prefix_nil|].
  destruct p as [|d p]; simpl in H; [discriminate|].
  destruct (String.eqb c d) eqn:E; [|discriminate]. apply String.eqb_eq in E as <-.
  apply prefix_cons, IH; [|done]. set_solver.
Qed.

Lemma path_relative_below root p : escapes (path_relative root (root ++ p)) = true -> ".." ∈ p.
Proof.
  induction root as [|c root IH]; simpl; [|by rewrite String.eqb_refl].
  destruct p as [|c p]; simpl; [discriminate|]. intros ->%String.eqb_eq. set_solver.
Qed.

Section Containment.
Context (realpath : path -> option path).
(** [realpath(3)] returns a canonical path. *)
Hypothesis realpath_canonical : forall q r, realpath q = Some r -> ".." ∉ r.

Lemma resolve_canonical p n : ".." ∉ p -> ".." ∉ resolve_from realpath p n.
Proof.
  intros Hp. induction n as [|n IH]; simpl.
  - destruct (realpath _) eqn:E; [|exact Hp]. apply realpath_canonical in E. set_solver.
  - destruct (realpath (take (S n) p)) eqn:E; [|done]. apply realpath_canonical in E.
    rewrite elem_of_app. intros [?|Hd]; [done|]. apply Hp.
    rewrite <- (take_drop (S n) p). set_solver.
Qed.

Lemma validateCleanupPath_inside root candidate p :
  ".." ∉ candidate -> validateCleanupPath realpath root candidate = Ok p ->
  exists real, realpath root = Some real /\ real `prefix_of` p.
Proof.
  unfold validateCleanupPath. intros Hc. destruct (realpath root) as [real|]; [|discriminate].
  destruct (negb _) eqn:E; [|discriminate]. intros [= <-]. exists real. split; [done|].
  apply negb_true_iff in E. apply path_relative_inside; [|done].
  by apply resolve_canonical.
Qed.
End Containment.

(** ** The transitions of a release *)

Lemma transitionLease_applies id l from to reason eid now db k :
  leases db !! id = Some l -> l_state l = from -> from <> to ->
  lease_checks (flip_lease from to "release_workspace_activity" now l) = true ->
  active (flip_lease from to "release_workspace_activity" now l)
    && active_conflict id (l_run l) (leases db) = false ->
  runIdToLockKey (l_run l) = Some k ->
  exists evs, transitionLease true (release_args id from to reason) eid now db =
    Ok (LeaseDb (<[id := flip_lease from to "release_workspace_activity" now l]> (leases db)) evs,
        LAPPLIED).
Proof.
  intros Hl Hs Hne Hc Hno Hk. unfold transitionLease, lease_validate, release_args.
  cbn [la_from la_to la_workspace la_activity la_expected].
  rewrite !lease_state_of_name. cbn [negb String.eqb Ascii.eqb Bool.eqb rbind].
  rewrite Hl, decide_False, bool_decide_eq_true_2 by congruence.
  unfold update_lease. rewrite Hl, Hc, Hno. cbn [negb rbind].
  rewrite (eventTypeFor_known to).
  rewrite (emit_internal _ _ _ _ k); [by eexists|done|by eexists|by apply eventTypeFor_known|done].
Qed.

(** A cleanup that fails is always recorded, whatever its state before. *)
Lemma fail_cleanup_records id l reason e eid now db k :
  lease_inv db -> leases db !! id = Some l ->
  l_state l = RELEASE_REQUESTED \/ l_state l = FAILED_CLEANUP ->
  runIdToLockKey (l_run l) = Some k ->
  exists db' l', fail_cleanup id (l_state l) reason e eid now db = (db', Throw e) /\
    leases db' = <[id := l']> (leases db) /\ l_state l' = FAILED_CLEANUP /\
    cleanup_attempts l' = cleanup_attempts l + 1.
Proof.
  intros ((Hc & _) & _) Hl Hs Hk. pose proof (Hc _ _ Hl) as Hcl.
  pose proof Hcl as (Ha & Hcf & Hrr & Hre)%lease_checks_true.
  unfold fail_cleanup, transitionToFailedCleanup. destruct Hs as [Hs|Hs]; rewrite Hs.
  - destruct (transitionLease_applies id l RELEASE_REQUESTED FAILED_CLEANUP (Some reason) eid now db k)
      as [evs ->]; try done.
    { apply lease_checks_true. simpl. rewrite <- Hre, Hs. naive_solver. }
    simpl. unfold update_lease. rewrite lookup_insert_eq. rewrite bump_checks; simpl.
    + do 2 eexists. split; [done|]. simpl. by rewrite insert_insert_eq.
    + apply lease_checks_true. simpl. rewrite <- Hre, Hs. naive_solver.
  - assert (transitionLease true (release_args id FAILED_CLEANUP FAILED_CLEANUP (Some reason)) eid now db
            = Ok (db, LALREADY_APPLIED)) as ->.
    { unfold transitionLease. simpl. by rewrite Hl, Hs. }
    simpl. unfold update_lease. rewrite Hl, bump_checks by done.
    unfold active. simpl. rewrite Hs. simpl. do 2 eexists. split; [done|]. simpl. done.
Qed.

Lemma release_succeeds id l eid now db k :
  lease_inv db -> leases db !! id = Some l ->
  l_state l = RELEASE_REQUESTED \/ l_state l = FAILED_CLEANUP ->
  runIdToLockKey (l_run l) = Some k ->
  exists db' l', runTransition id (l_state l) RELEASED None eid now db = Ok db' /\
    leases db' = <[id := l']> (leases db) /\ l_state l' = RELEASED /\
    cleanup_attempts l' = cleanup_attempts l.
Proof.
  intros ((Hc & _) & _) Hl Hs Hk. pose proof (Hc _ _ Hl) as (Ha & Hcf & Hrr & Hre)%lease_checks_true.
  unfold runTransition.
  destruct (transitionLease_applies id l (l_state l) RELEASED None eid now db k) as [evs ->]; try done.
  - by destruct Hs as [-> | ->].
  - apply lease_checks_true. simpl. destruct Hs as [Hs|Hs]; rewrite Hs in *;
      destruct (cleanup_failed_at l); naive_solver.
  - do 2 eexists. done.
Qed.

(** The cleanup of a lease that is ready for it. *)
Lemma release_cleanup_spec realpath rm id l root eid now db k :
  lease_inv db -> leases db !! id = Some l ->
  l_state l = RELEASE_REQUESTED \/ l_state l = FAILED_CLEANUP ->
  runIdToLockKey (l_run l) = Some k ->
  let candidate := deriveWorkspacePath root (l_installation l) (l_run l) in
  let '(db', removed, r) := release_cleanup realpath rm id l root (l_state l) eid now db in
  exists l', leases db' = <[id := l']> (leases db) /\
    match validateCleanupPath realpath root candidate with
    | Throw e => r = Throw e /\ removed = [] /\
        l_state l' = FAILED_CLEANUP /\ cleanup_attempts l' = cleanup_attempts l + 1
    | Ok p => removed = [p] /\
        match rm p with
        | Some m => r = Throw (RmError m) /\ l_state l' = FAILED_CLEANUP /\
            cleanup_attempts l' = cleanup_attempts l + 1
        | None => r = Ok tt /\ l_state l' = RELEASED /\ cleanup_attempts l' = cleanup_attempts l
        end
    end.
Proof.
  intros Hi Hl Hs Hk candidate. unfold release_cleanup. fold candidate.
  destruct (validateCleanupPath _ _ _) as [p|e].
  - destruct (rm p) as [m|].
    + destruct (fail_cleanup_records id l ("rm failed: " +:+ m) (RmError m) eid now db k)
        as (db' & l' & -> & ? & ? & ?); try done. by exists l'.
    + destruct (release_succeeds id l eid now db k) as (db' & l' & -> & ? & ? & ?); try done.
      by exists l'.
  - destruct (fail_cleanup_records id l "security_violation" e eid now db k)
      as (db' & l' & -> & ? & ? & ?); try done. by exists l'.
Qed.

(** The hop through [RELEASE_REQUESTED] of a lease that has no release stamp. *)
Lemma release_hop id l eid now db k :
  lease_inv db -> leases db !! id = Some l -> l_state l = ALLOCATED \/ l_state l = ORPHANED ->
  runIdToLockKey (l_run l) = Some k ->
  if active_conflict id (l_run l) (leases db)
  then l_state l = ORPHANED /\
    runTransition id (l_state l) RELEASE_REQUESTED (Some "release_workspace_activity entry") eid now db
      = Throw LActiveRunViolation
  else exists db' l', runTransition id (l_state l) RELEASE_REQUESTED
         (Some "release_workspace_activity entry") eid now db = Ok db' /\ lease_inv db' /\
       leases db' = <[id := l']> (leases db) /\ l_state l' = RELEASE_REQUESTED /\ l_run l' = l_run l /\
       l_installation l' = l_installation l /\ cleanup_attempts l' = cleanup_attempts l.
Proof.
  intros Hi Hl Hs Hk. pose proof Hi as ((Hc & Hu) & _).
  pose proof (Hc _ _ Hl) as (Ha & Hcf & _ & Hre)%lease_checks_true.
  assert (Hflip : lease_checks (flip_lease (l_state l) RELEASE_REQUESTED
            "release_workspace_activity" now l) = true).
  { apply lease_checks_true. simpl. rewrite decide_False by (destruct Hs; congruence).
    rewrite <- Hcf, <- Hre. destruct Hs as [-> | ->]; naive_solver. }
  destruct (active_conflict id (l_run l) (leases db)) eqn:Ec.
  - assert (Ho : l_state l = ORPHANED).
    { destruct Hs as [Hs|]; [|done]. apply active_conflict_true in Ec as (j & m & Hj & Hne & Ham & Hr).
      exfalso. apply Hne, (Hu j id m l); try done. unfold active. by rewrite Hs. }
    split; [done|]. unfold runTransition, transitionLease. rewrite Ho in *. simpl.
    rewrite Hl, Ho. simpl. unfold update_lease. by rewrite Hl, Hflip, Ec.
  - unfold runTransition at 1.
    destruct (transitionLease_applies id l (l_state l) RELEASE_REQUESTED
      (Some "release_workspace_activity entry") eid now db k) as [evs E]; try done.
    { by destruct Hs as [-> | ->]. }
    rewrite E. simpl. do 2 eexists. split; [done|].
    split; [|done]. by apply (transitionLease_inv _ _ _ _ _ _ _ E).
Qed.

(** The cleanup of a lease [l], now in the version [l1] of the state [db1] that
    differs from [db] in this lease only; with what it handed to [rm]. *)
Lemma release_cleanup_from realpath rm id l l1 root eid now db db1 k :
  (forall q r, realpath q = Some r -> ".." ∉ r) ->
  ".." ∉ deriveWorkspacePath root (l_installation l) (l_run l) ->
  lease_inv db1 -> leases db1 = <[id := l1]> (leases db) ->
  l_state l1 = RELEASE_REQUESTED \/ l_state l1 = FAILED_CLEANUP ->
  l_run l1 = l_run l -> l_installation l1 = l_installation l ->
  cleanup_attempts l1 = cleanup_attempts l -> runIdToLockKey (l_run l) = Some k ->
  let '(db', removed, r) := release_cleanup realpath rm id l root (l_state l1) eid now db1 in
  (forall p, p ∈ removed -> exists real, realpath root = Some real /\ real `prefix_of` p) /\
  exists l', leases db' = <[id := l']> (leases db) /\
    match validateCleanupPath realpath root (deriveWorkspacePath root (l_installation l) (l_run l)) with
    | Throw e => r = Throw e /\ removed = [] /\
        l_state l' = FAILED_CLEANUP /\ cleanup_attempts l' = cleanup_attempts l + 1
    | Ok p => removed = [p] /\
        match rm p with
        | Some m => r = Throw (RmError m) /\ l_state l' = FAILED_CLEANUP /\
            cleanup_attempts l' = cleanup_attempts l + 1
        | None => r = Ok tt /\ l_state l' = RELEASED /\ cleanup_attempts l' = cleanup_attempts l
        end
    end.
Proof.
  intros Hcan Hdd Hi E1 Hs Er Ei Ea Hk.
  assert (Hl1 : leases db1 !! id = Some l1) by (rewrite E1; apply lookup_insert_eq).
  pose proof (release_cleanup_spec realpath rm id l1 root eid now db1 k Hi Hl1 Hs) as Hsp.
  assert (release_cleanup realpath rm id l root (l_state l1) eid now db1 =
          release_cleanup realpath rm id l1 root (l_state l1) eid now db1) as ->
    by (unfold release_cleanup; by rewrite Er, Ei).
  rewrite Er, Ei, Ea in Hsp. specialize (Hsp Hk). cbv zeta in Hsp.
  destruct (release_cleanup _ _ _ _ _ _ _ _ _) as [[db' removed] r].
  destruct Hsp as (l' & E & Hm). rewrite E1, insert_insert_eq in E.
  split; [|by exists l'].
  destruct (validateCleanupPath _ _ _) as [p|e] eqn:Ev; destruct Hm as [H1 H2].
  - subst. intros q ->%list_elem_of_singleton.
    by apply (validateCleanupPath_inside realpath Hcan _ _ _ Hdd).
  - destruct H2 as [-> _]. intros q Hq. by apply elem_of_nil in Hq.
Qed.

(** * Properties *)


(** What [releaseWorkspace] does to a lease that is not yet released.
    An orphan whose run has meanwhile been given another active lease is
    refused by the unique index and nothing is touched.  Otherwise the call
    ends in exactly one of three ways: the directory was removed and the lease
    is RELEASED; or the path was rejected, nothing was handed to [rm], the
    lease is FAILED_CLEANUP and the violation is thrown; or [rm] failed and the
    lease is FAILED_CLEANUP and its error is thrown, each failure counted once.
    Only the lease itself changes, and whatever was handed to [rm -rf] lies
    below the resolved workspace root. *)
Theorem releaseWorkspace_outcome realpath rm id root e1 e2 n1 n2 db l k :
  (forall q r, realpath q = Some r -> ".." ∉ r) ->
  ".." ∉ deriveWorkspacePath root (l_installation l) (l_run l) ->
  lease_inv db -> leases db !! id = Some l -> l_state l <> RELEASED ->
  runIdToLockKey (l_run l) = Some k ->
  let '(db', removed, r) := releaseWorkspace realpath rm id root e1 e2 n1 n2 db in
  (forall p, p ∈ removed -> exists real, realpath root = Some real /\ real `prefix_of` p) /\
  if bool_decide (l_state l = ORPHANED) && active_conflict id (l_run l) (leases db)
  then db' = db /\ removed = [] /\ r = Throw LActiveRunViolation
  else exists l', leases db' = <[id := l']> (leases db) /\
    match validateCleanupPath realpath root (deriveWorkspacePath root (l_installation l) (l_run l)) with
    | Throw e => r = Throw e /\ removed = [] /\
        l_state l' = FAILED_CLEANUP /\ cleanup_attempts l' = cleanup_attempts l + 1
    | Ok p => removed = [p] /\
        match rm p with
        | Some m => r = Throw (RmError m) /\ l_state l' = FAILED_CLEANUP /\
            cleanup_attempts l' = cleanup_attempts l + 1
        | None => r = Ok tt /\ l_state l' = RELEASED /\ cleanup_attempts l' = cleanup_attempts l
        end
    end.
Proof.
  intros Hcan Hdd Hi Hl Hs Hk. unfold releaseWorkspace. rewrite Hl.
  destruct (decide (l_state l = ALLOCATED \/ l_state l = ORPHANED)) as [Hs'|Hs'].
  - pose proof (release_hop id l e1 n1 db k Hi Hl Hs' Hk) as Hh.
    pose proof (fun l1 db1 => release_cleanup_from realpath rm id l l1 root e2 n2 db db1 k Hcan Hdd) as Hc.
    destruct (active_conflict _ _ _).
    + destruct Hh as [Es Et]. rewrite Es in *. rewrite Et. simpl.
      split; [intros p Hp; by apply elem_of_nil in Hp|done].
    + destruct Hh as (db1 & l1 & Et & Hi1 & E1 & Es1 & Er1 & Ei1 & Ea1).
      specialize (Hc l1 db1 Hi1 E1 (or_introl Es1) Er1 Ei1 Ea1 Hk). rewrite Es1 in Hc.
      rewrite andb_false_r. destruct Hs' as [Es|Es]; rewrite Es in *; rewrite Et; exact Hc.
  - pose proof (release_cleanup_from realpath rm id l l root e2 n2 db db k Hcan Hdd Hi) as Hc.
    rewrite insert_id in Hc by done.
    destruct (l_state l) eqn:Es; try (by destruct Hs'; auto); try done;
      (eapply Hc; auto).
Qed.

(** The first entry of the backoff schedule is never the delay of a reachable
    failed cleanup: the index is the number of attempts already made. *)
Theorem first_backoff_never_used db id l :
  lease_reachable db -> leases db !! id = Some l -> l_state l = FAILED_CLEANUP ->
  (1 <= backoff_index (cleanup_attempts l))%nat.
Proof.
  intros Hr Hl Hs. apply lease_reachable_inv in Hr as (_ & Hf & _). specialize (Hf _ _ Hl Hs).
  unfold backoff_index. simpl. lia.
Qed.

(** * Witnesses *)

Definition lx_run : string := "0192a1b2-0000-7000-8000-000000000001".
Definition lx_root : path := ["var"; "ws"].
(** A disk on which every path exists and is canonical. *)
Definition lx_disk (p : path) : option path := Some (filter (fun c => c <> "..") p).
(** A disk on which the run's directory is a link out of the root. *)
Definition lx_hostile (p : path) : option path :=
  if decide (p = deriveWorkspacePath lx_root "i1" lx_run) then Some ["etc"] else lx_disk p.

Definition lx_db : lease_db :=
  (allocateWorkspace lx_disk true lx_root "w1" lx_run "r1" "i1" "k1" 1000 1000 (LeaseDb ∅ [])).1.
Definition lx_lease : lease :=
  new_lease (InsertArgs "w1" lx_run "r1" "i1" "k1" 1801000) 1000.

Lemma lx_reachable : lease_reachable lx_db.
Proof. eapply lr_next; [apply lr_start|apply ls_allocate]. Qed.

Lemma lx_lookup : leases lx_db !! "w1" = Some lx_lease.
Proof. reflexivity. Qed.

Lemma lx_disk_canonical q r : lx_disk q = Some r -> ".." ∉ r.
Proof. intros [= <-]. rewrite list_elem_of_filter. naive_solver. Qed.

Lemma lx_hostile_canonical q r : lx_hostile q = Some r -> ".." ∉ r.
Proof.
  unfold lx_hostile. destruct (decide _); [|apply lx_disk_canonical].
  intros [= <-]. set_solver.
Qed.


(** The hostile link is refused: nothing is removed and the failure counted. *)
Lemma releaseWorkspace_outcome_witness :
  let '(db', removed, r) :=
    releaseWorkspace lx_hostile (fun _ => None) "w1" lx_root "e1" "e2" 2000 2001 lx_db in
  removed = [] /\ r = Throw WorkspaceSecurityViolation /\
  exists l', leases db' !! "w1" = Some l' /\ l_state l' = FAILED_CLEANUP /\ cleanup_attempts l' = 1.
Proof.
  pose proof (releaseWorkspace_outcome lx_hostile (fun _ => None) "w1" lx_root "e1" "e2" 2000 2001
    lx_db lx_lease 26386866 lx_hostile_canonical ltac:(vm_compute; set_solver)
    (lease_reachable_inv _ lx_reachable) lx_lookup ltac:(discriminate) eq_refl) as H.
  destruct (releaseWorkspace _ _ _ _ _ _ _ _ _) as [[db' removed] r].
  assert (bool_decide (l_state lx_lease = ORPHANED) && active_conflict "w1" (l_run lx_lease) (leases lx_db)
          = false) as E by reflexivity.
  assert (validateCleanupPath lx_hostile lx_root
    (deriveWorkspacePath lx_root (l_installation lx_lease) (l_run lx_lease)) =
    Throw WorkspaceSecurityViolation) as Ev by reflexivity.
  rewrite E, Ev in H. destruct H as (_ & l' & -> & -> & -> & Hs & Ha).
  split; [done|split; [done|]]. exists l'. rewrite lookup_insert_eq. by rewrite Hs, Ha.
Defined.

(** [allocateWorkspace] answers ALLOCATED for a lease whose release has already
    been requested. *)
Theorem allocate_reuses_releasing_lease :
  match runTransition "w1" ALLOCATED RELEASE_REQUESTED None "e1" 2000 lx_db with
  | Ok db => exists db' h, allocateWorkspace lx_disk true lx_root "w2" lx_run "r1" "i1" "k1" 3000 3000 db
      = (db', Ok h) /\ wh_workspace h = "w1" /\ wh_state h = ALLOCATED /\
      (l_state <$> leases db' !! "w1") = Some RELEASE_REQUESTED
  | Throw _ => False
  end.
Proof. vm_compute. do 2 eexists. repeat split. Qed.
