(* ===== verification/FanOut.v ===== *)
(** [review/pipeline/parallelism.ts]: the bounded fan-out of the per-chunk
    reviews.  [fanOutReview] runs a pool of workers over one shared cursor; the
    workers are interleaved at their [await]s, so the pool is a step relation
    whose every schedule is considered, and the sequential meaning of the call
    is its specification. *)
From stdpp Require Import base gmap sets list strings relations.
From Stdlib Require Import ZArith Lia.
From S2P Require Import Prelude Retry.
Local Open Scope nat_scope.

(** [isCancellation] of [degradation.ts]. *)
Definition isCancellation (e : js_error) : bool :=
  is_error e && (String.eqb (e_name e) "AbortError" || String.eqb (e_name e) "TerminalCancelError").

Definition FANOUT_ABORT_CLASS_ERROR_NAMES : list string :=
  ["GitHubRateLimitExceeded"; "LlmRateLimitError"; "TerminalCancelError"].

Record chunk := Chunk { chunk_id : string; chunk_path : string }.

(** [ChunkDispatchFailure]. *)
Record chunk_failure := ChunkFailure {
  cf_index : nat;
  cf_chunk : string;
  cf_path : string;
  cf_error : js_error;
}.

Inductive fan_error :=
| ConcurrencyNotPositive
| Rejection (e : js_error)
| EmptySlot.

(** Where a worker stands: before its next [next()], awaiting [invoke], or its
    promise settled. *)
Inductive worker := AtTop | InFlight (idx : nat) | Returned | Rejected.

Section Pool.
Context {F I : Type}.
Variable chunks : list chunk.
(** [options.failureSlot !== undefined]. *)
Variable soft : bool.
(** What [invoke(chunks[idx])] settles with, coerced: the findings and the
    intents of the envelope, or the rejection. *)
Variable outcome : nat -> result js_error (list F * list I).

Record pool := Pool {
  cursor : nat;
  aborted : bool;
  slots : gmap nat (list F * list I);
  failureSlots : gmap nat chunk_failure;
  workers : list worker;
  rejection : option js_error;       (* of [Promise.all]: the first one *)
}.

(** The rejections that abort the fan-out. *)
Definition fatal (e : js_error) : bool :=
  negb soft || isCancellation e
  || (is_error e && existsb (String.eqb (e_name e)) FANOUT_ABORT_CLASS_ERROR_NAMES).

Definition failure_of (idx : nat) (e : js_error) : chunk_failure :=
  match chunks !! idx with
  | Some c => ChunkFailure idx (chunk_id c) (chunk_path c) e
  | None => ChunkFailure idx "" "" e
  end.

(** [idx = next()], the loop test, and the check of the abort flag before the
    dispatch: no [await] separates them. *)
Definition pull (w : nat) (s : pool) : pool :=
  let idx := cursor s in
  let st := if negb (idx <? length chunks) then Returned
            else if aborted s then Returned else InFlight idx in
  Pool (S idx) (aborted s) (slots s) (failureSlots s) (<[w := st]> (workers s)) (rejection s).

(** The continuation of [await invoke(...)], with its [catch]. *)
Definition settle (w idx : nat) (s : pool) : pool :=
  match outcome idx with
  | Ok r =>
      Pool (cursor s) (aborted s) (<[idx := r]> (slots s)) (failureSlots s)
        (<[w := AtTop]> (workers s)) (rejection s)
  | Throw e =>
      if fatal e
      then Pool (cursor s) true (slots s) (failureSlots s) (<[w := Rejected]> (workers s))
             (match rejection s with Some e0 => Some e0 | None => Some e end)
      else Pool (cursor s) (aborted s) (slots s) (<[idx := failure_of idx e]> (failureSlots s))
             (<[w := AtTop]> (workers s)) (rejection s)
  end.

Inductive pool_step (s : pool) : pool -> Prop :=
| step_pull w : workers s !! w = Some AtTop -> pool_step s (pull w s)
| step_settle w idx : workers s !! w = Some (InFlight idx) -> pool_step s (settle w idx s).

Definition pool_init (concurrency : Z) : pool :=
  Pool 0 false ∅ ∅ (replicate (Nat.min (Z.to_nat concurrency) (length chunks)) AtTop) None.

(** Every worker's promise has settled. *)
Definition settled (w : worker) : bool :=
  match w with Returned | Rejected => true | _ => false end.
Definition finished (s : pool) : bool := forallb settled (workers s).

(** The fan-in over the slots from index [i] on. *)
Fixpoint fan_in (s : pool) (idxs : list nat) : result fan_error (list F * list I) :=
  match idxs with
  | [] => Ok ([], [])
  | i :: idxs' =>
      match slots s !! i with
      | Some (findings, intents) =>
          let? (outFindings, outIntents) := fan_in s idxs' in
          Ok (findings ++ outFindings, intents ++ outIntents)
      | None => match failureSlots s !! i with
                | Some _ => fan_in s idxs'
                | None => Throw EmptySlot
                end
      end
  end.

Definition indices : list nat := seq 0 (length chunks).

(** The calls of [failureSlot.recordFailure], in order. *)
Definition recorded (s : pool) : list chunk_failure :=
  if soft then omap (fun i => failureSlots s !! i) indices else [].

(** A result of the call and the failures it recorded.  [Promise.all] rejects
    with the first rejection, whatever the other workers still do. *)
Inductive fanOutReview (concurrency : Z)
    : result fan_error (list F * list I) -> list chunk_failure -> Prop :=
| fan_bad : (concurrency <= 0)%Z -> fanOutReview concurrency (Throw ConcurrencyNotPositive) []
| fan_empty : (0 < concurrency)%Z -> chunks = [] -> fanOutReview concurrency (Ok ([], [])) []
| fan_reject s e :
    (0 < concurrency)%Z -> chunks <> [] -> rtc pool_step (pool_init concurrency) s ->
    rejection s = Some e -> fanOutReview concurrency (Throw (Rejection e)) []
| fan_done s :
    (0 < concurrency)%Z -> chunks <> [] -> rtc pool_step (pool_init concurrency) s ->
    finished s = true -> rejection s = None ->
    fanOutReview concurrency (fan_in s indices) (recorded s).

(** ** The sequential meaning *)

Definition is_fatal (idx : nat) : bool :=
  match outcome idx with Throw e => fatal e | Ok _ => false end.

Definition chunk_result (idx : nat) : list F * list I :=
  match outcome idx with Ok r => r | Throw _ => ([], []) end.

Definition chunk_failed (idx : nat) : option chunk_failure :=
  match outcome idx with Ok _ => None | Throw e => Some (failure_of idx e) end.

Definition sequential : list F * list I :=
  (concat (map (fun i => (chunk_result i).1) indices),
   concat (map (fun i => (chunk_result i).2) indices)).

(** * Invariant *)

Record pool_inv (concurrency : Z) (s : pool) : Prop := PoolInv {
  pi_workers : length (workers s) = Nat.min (Z.to_nat concurrency) (length chunks);
  pi_slots i r : slots s !! i = Some r -> i < length chunks /\ outcome i = Ok r;
  pi_failures i f : failureSlots s !! i = Some f ->
    exists e, i < length chunks /\ outcome i = Throw e /\ fatal e = false /\ f = failure_of i e;
  pi_flight w i : workers s !! w = Some (InFlight i) ->
    i < cursor s /\ i < length chunks /\ slots s !! i = None /\ failureSlots s !! i = None;
  pi_once v w i : workers s !! v = Some (InFlight i) -> workers s !! w = Some (InFlight i) -> v = w;
  pi_fresh i : cursor s <= i -> slots s !! i = None /\ failureSlots s !! i = None;
  pi_aborted : aborted s = true <-> is_Some (rejection s);
  pi_rejection e : rejection s = Some e ->
    exists i, i < length chunks /\ outcome i = Throw e /\ fatal e = true;
  pi_rejected w : workers s !! w = Some Rejected -> aborted s = true;
  pi_returned w : workers s !! w = Some Returned -> aborted s = true \/ length chunks <= cursor s;
  pi_done i : i < cursor s -> i < length chunks -> aborted s = false ->
    is_Some (slots s !! i) \/ is_Some (failureSlots s !! i) \/
    exists w, workers s !! w = Some (InFlight i);
}.

Lemma pool_inv_init concurrency : pool_inv concurrency (pool_init concurrency).
Proof.
  assert (Hw : forall w st, replicate (Nat.min (Z.to_nat concurrency) (length chunks)) AtTop !! w
    = Some st -> st = AtTop) by (intros w st H; by apply lookup_replicate in H as [-> _]).
  split; simpl.
  - by rewrite length_replicate.
  - intros i r. by rewrite lookup_empty.
  - intros i f. by rewrite lookup_empty.
  - intros w i H. by apply Hw in H.
  - intros v w i H. by apply Hw in H.
  - intros i _. by rewrite !lookup_empty.
  - split; [done|]. by intros [? [=]].
  - done.
  - intros w H. by apply Hw in H.
  - intros w H. by apply Hw in H.
  - lia.
Qed.

Lemma insert_worker w st (l : list worker) v x :
  <[w := st]> l !! v = Some x -> (v = w /\ x = st) \/ (v <> w /\ l !! v = Some x).
Proof.
  intros H. apply list_lookup_insert_Some in H as [(-> & -> & _)|[? ?]]; auto.
Qed.

Lemma pull_inv concurrency w s :
  pool_inv concurrency s -> workers s !! w = Some AtTop -> pool_inv concurrency (pull w s).
Proof.
  intros [Hlen Hsl Hfa Hfl Hon Hfr Hab Hrj Hrd Hrt Hdo] Hw.
  assert (Hnew : forall v i, workers (pull w s) !! v = Some (InFlight i) ->
    (v = w /\ i = cursor s /\ i < length chunks) \/ (v <> w /\ workers s !! v = Some (InFlight i))).
  { intros v i Hv. apply insert_worker in Hv as [[-> E]|?]; [left|by right].
    destruct (cursor s <? length chunks) eqn:El; [|discriminate].
    apply Nat.ltb_lt in El. destruct (aborted s); [discriminate|]. by injection E as ->. }
  split; simpl.
  - by rewrite length_insert.
  - done.
  - done.
  - intros v i [(-> & -> & Hi)|[_ Hv]]%Hnew; [|apply Hfl in Hv; naive_solver lia].
    destruct (Hfr (cursor s)); [lia|]. naive_solver lia.
  - intros v u i [(-> & Ei & _)|[Hn Hv]]%Hnew [(-> & Ei' & _)|[Hn' Hu]]%Hnew; try done.
    + apply Hfl in Hu. lia.
    + apply Hfl in Hv. lia.
    + eauto.
  - intros i Hi. apply Hfr. lia.
  - done.
  - done.
  - intros v Hv. apply insert_worker in Hv as [[-> E]|[_ Hv]]; [|eauto].
    destruct (negb _); [discriminate|]. by destruct (aborted s).
  - intros v Hv. apply insert_worker in Hv as [[-> E]|[_ Hv]].
    + destruct (cursor s <? length chunks) eqn:El; simpl in E.
      * destruct (aborted s); [by left|discriminate].
      * apply Nat.ltb_ge in El. right. lia.
    + destruct (Hrt _ Hv); [by left|right; lia].
  - intros i Hi Hn Ha. destruct (decide (i = cursor s)) as [->|Hne].
    + right. right. exists w. apply Nat.ltb_lt in Hn as ->. rewrite Ha. simpl.
      apply list_lookup_insert_eq. by eapply lookup_lt_Some.
    + destruct (Hdo i) as [?|[?|[v Hv]]]; [lia|done|done|by left|by right; left|].
      right. right. exists v. rewrite list_lookup_insert_ne; [done|].
      intros ->. by rewrite Hw in Hv.
Qed.

(** The workers other than [w] are where they were. *)
Lemma flight_other (st : worker) w (s : pool) v i :
  (forall j, st <> InFlight j) -> <[w := st]> (workers s) !! v = Some (InFlight i) ->
  v <> w /\ workers s !! v = Some (InFlight i).
Proof. intros Hst Hv. apply insert_worker in Hv as [[_ E]|?]; [by destruct (Hst i)|done]. Qed.

(** A chunk of another index is accounted for as before. *)
Lemma done_other (st : worker) w idx (s : pool) i :
  workers s !! w = Some (InFlight idx) -> i <> idx ->
  (exists v, workers s !! v = Some (InFlight i)) ->
  exists v, <[w := st]> (workers s) !! v = Some (InFlight i).
Proof.
  intros Hw Hne [v Hv]. exists v. rewrite list_lookup_insert_ne; [done|].
  intros <-. congruence.
Qed.

Lemma settle_ok_inv concurrency w idx r s :
  pool_inv concurrency s -> workers s !! w = Some (InFlight idx) -> outcome idx = Ok r ->
  pool_inv concurrency (Pool (cursor s) (aborted s) (<[idx := r]> (slots s)) (failureSlots s)
    (<[w := AtTop]> (workers s)) (rejection s)).
Proof.
  intros [Hlen Hsl Hfa Hfl Hon Hfr Hab Hrj Hrd Hrt Hdo] Hw Ho.
  pose proof (Hfl _ _ Hw) as (Hc & Hn & _ & _).
  assert (Hat : forall j, AtTop <> InFlight j) by done.
  split; simpl; try done.
  - by rewrite length_insert.
  - intros i q. rewrite lookup_insert_Some. intros [[<- <-]|[_ Hq]]; eauto.
  - intros v i Hv. destruct (flight_other _ _ _ _ _ Hat Hv) as [Hne Hv'].
    pose proof (Hfl _ _ Hv'). rewrite lookup_insert_ne; [done|].
    intros <-. by destruct Hne, (Hon _ _ _ Hv' Hw).
  - intros v u i Hv Hu. destruct (flight_other _ _ _ _ _ Hat Hv), (flight_other _ _ _ _ _ Hat Hu). eauto.
  - intros i Hi. rewrite lookup_insert_ne by lia. auto.
  - intros v Hv. apply insert_worker in Hv as [[_ ?]|[_ ?]]; [done|eauto].
  - intros v Hv. apply insert_worker in Hv as [[_ ?]|[_ ?]]; [done|eauto].
  - intros i Hi Hl Ha. destruct (decide (i = idx)) as [->|Hne].
    + left. rewrite lookup_insert_eq. by eexists.
    + rewrite lookup_insert_ne by done. destruct (Hdo i Hi Hl Ha) as [?|[?|?]]; auto.
      right. right. by apply (done_other _ _ idx).
Qed.

Lemma settle_soft_inv concurrency w idx e s :
  pool_inv concurrency s -> workers s !! w = Some (InFlight idx) -> outcome idx = Throw e ->
  fatal e = false ->
  pool_inv concurrency (Pool (cursor s) (aborted s) (slots s)
    (<[idx := failure_of idx e]> (failureSlots s)) (<[w := AtTop]> (workers s)) (rejection s)).
Proof.
  intros [Hlen Hsl Hfa Hfl Hon Hfr Hab Hrj Hrd Hrt Hdo] Hw Ho Hf.
  pose proof (Hfl _ _ Hw) as (Hc & Hn & _ & _).
  assert (Hat : forall j, AtTop <> InFlight j) by done.
  split; simpl; try done.
  - by rewrite length_insert.
  - intros i f. rewrite lookup_insert_Some. intros [[<- <-]|[_ Hq]]; eauto 6.
  - intros v i Hv. destruct (flight_other _ _ _ _ _ Hat Hv) as [Hne Hv'].
    pose proof (Hfl _ _ Hv'). rewrite lookup_insert_ne; [done|].
    intros <-. by destruct Hne, (Hon _ _ _ Hv' Hw).
  - intros v u i Hv Hu. destruct (flight_other _ _ _ _ _ Hat Hv), (flight_other _ _ _ _ _ Hat Hu). eauto.
  - intros i Hi. rewrite lookup_insert_ne by lia. auto.
  - intros v Hv. apply insert_worker in Hv as [[_ ?]|[_ ?]]; [done|eauto].
  - intros v Hv. apply insert_worker in Hv as [[_ ?]|[_ ?]]; [done|eauto].
  - intros i Hi Hl Ha. destruct (decide (i = idx)) as [->|Hne].
    + right. left. rewrite lookup_insert_eq. by eexists.
    + rewrite lookup_insert_ne by done. destruct (Hdo i Hi Hl Ha) as [?|[?|?]]; auto.
      right. right. by apply (done_other _ _ idx).
Qed.

Lemma settle_fatal_inv concurrency w idx e s :
  pool_inv concurrency s -> workers s !! w = Some (InFlight idx) -> outcome idx = Throw e ->
  fatal e = true ->
  pool_inv concurrency (Pool (cursor s) true (slots s) (failureSlots s)
    (<[w := Rejected]> (workers s))
    (match rejection s with Some e0 => Some e0 | None => Some e end)).
Proof.
  intros [Hlen Hsl Hfa Hfl Hon Hfr Hab Hrj Hrd Hrt Hdo] Hw Ho Hf.
  pose proof (Hfl _ _ Hw) as (Hc & Hn & _ & _).
  assert (Hat : forall j, Rejected <> InFlight j) by done.
  split; simpl; try done.
  - by rewrite length_insert.
  - intros v i Hv. destruct (flight_other _ _ _ _ _ Hat Hv). eauto.
  - intros v u i Hv Hu. destruct (flight_other _ _ _ _ _ Hat Hv), (flight_other _ _ _ _ _ Hat Hu). eauto.
  - split; [|done]. intros _. destruct (rejection s); by eexists.
  - intros e0. destruct (rejection s) eqn:E; intros [= <-]; eauto.
  - intros v _. by left.
Qed.

Lemma step_inv concurrency s s' : pool_step s s' -> pool_inv concurrency s -> pool_inv concurrency s'.
Proof.
  intros [w Hw|w idx Hw] Hi; [by apply pull_inv|]. unfold settle.
  destruct (outcome idx) as [r|e] eqn:Ho; [by apply settle_ok_inv|].
  destruct (fatal e) eqn:Hf; [by eapply settle_fatal_inv|by apply settle_soft_inv].
Qed.

Lemma reachable_inv concurrency s :
  rtc pool_step (pool_init concurrency) s -> pool_inv concurrency s.
Proof.
  intros H. eapply (rtc_ind_r (fun s => pool_inv concurrency s)); [apply pool_inv_init| |exact H].
  intros x y _ Hs. by apply step_inv.
Qed.

(** * Termination *)

Definition weight (w : worker) : nat :=
  match w with AtTop => 1 | InFlight _ => 2 | Returned | Rejected => 0 end.

Definition fuel (s : pool) : nat :=
  3 * (length chunks - cursor s) + sum_list (map weight (workers s)).

Lemma sum_weight_insert w st old (l : list worker) :
  l !! w = Some old ->
  sum_list (map weight (<[w := st]> l)) + weight old = sum_list (map weight l) + weight st.
Proof.
  revert w. induction l as [|x l IH]; intros [|w] H; simpl in *; try done.
  - injection H as ->. lia.
  - specialize (IH _ H). lia.
Qed.

Lemma step_fuel s s' : pool_step s s' -> fuel s' < fuel s.
Proof.
  unfold fuel. intros [w Hw|w idx Hw].
  - unfold pull. simpl.
    pose proof (sum_weight_insert w (if negb (cursor s <? length chunks) then Returned
      else if aborted s then Returned else InFlight (cursor s)) AtTop _ Hw) as Hs.
    destruct (cursor s <? length chunks) eqn:El; simpl in *; [apply Nat.ltb_lt in El|];
      [destruct (aborted s)|]; simpl in *; lia.
  - unfold settle. destruct (outcome idx) as [r|e]; [|destruct (fatal e)]; simpl;
    match goal with |- context [<[w := ?st]> _] =>
      pose proof (sum_weight_insert w st _ _ Hw) as Hs; simpl in Hs; lia end.
Qed.

Lemma unfinished_steps s : finished s = false -> exists s', pool_step s s'.
Proof.
  unfold finished. intros H. apply not_true_iff_false in H. rewrite forallb_forall in H.
  assert (exists x, x ∈ workers s /\ settled x = false) as (x & Hx & Hs).
  { destruct (decide (Exists (fun x => settled x = false) (workers s))) as [E|E].
    - by apply Exists_exists in E.
    - exfalso. apply H. intros x Hx%list_elem_of_In. destruct (settled x) eqn:Es; [done|].
      exfalso. apply E, Exists_exists. eauto. }
  apply list_elem_of_lookup in Hx as [w Hw].
  destruct x; try discriminate; eexists; [by apply step_pull|by eapply step_settle].
Qed.

(** * The result *)

(** A pool that has finished without a rejection has settled every chunk. *)
Lemma finished_complete concurrency s i :
  (0 < concurrency)%Z -> chunks <> [] -> pool_inv concurrency s ->
  finished s = true -> rejection s = None -> i < length chunks ->
  (exists r, slots s !! i = Some r /\ outcome i = Ok r) \/
  (exists e, slots s !! i = None /\ failureSlots s !! i = Some (failure_of i e) /\
     outcome i = Throw e /\ fatal e = false).
Proof.
  intros Hc Hne [Hlen Hsl Hfa Hfl Hon Hfr Hab Hrj Hrd Hrt Hdo] Hfin Hr Hi.
  assert (Ha : aborted s = false).
  { destruct (aborted s); [|done]. destruct (proj1 Hab eq_refl). congruence. }
  unfold finished in Hfin. rewrite forallb_forall in Hfin.
  assert (Hw : forall w x, workers s !! w = Some x -> settled x = true).
  { intros w x Hx. apply Hfin, list_elem_of_In. by eapply list_elem_of_lookup_2. }
  assert (Hcur : length chunks <= cursor s).
  { destruct (lookup_lt_is_Some_2 (workers s) 0) as [x Hx].
    { rewrite Hlen. destruct chunks; [done|]. simpl. lia. }
    specialize (Hw _ _ Hx). destruct x; try discriminate.
    - destruct (Hrt _ Hx); [congruence|done].
    - apply Hrd in Hx. congruence. }
  destruct (Hdo i) as [[r Hs]|[[f Hf]|[w Hx]]]; [lia|done|done|..].
  - left. exists r. split; [done|]. by apply Hsl in Hs as [_ ?].
  - right. destruct (Hfa _ _ Hf) as (e & _ & Ho & Hfe & ->). exists e. split; [|done].
    destruct (slots s !! i) as [r|] eqn:E; [|done]. apply Hsl in E as [_ ?]. congruence.
  - by apply Hw in Hx.
Qed.

Lemma fan_in_sequential s idxs :
  (forall i, i ∈ idxs -> (exists r, slots s !! i = Some r /\ outcome i = Ok r) \/
     (exists e, slots s !! i = None /\ failureSlots s !! i = Some (failure_of i e) /\
        outcome i = Throw e /\ fatal e = false)) ->
  fan_in s idxs = Ok (concat (map (fun i => (chunk_result i).1) idxs),
                      concat (map (fun i => (chunk_result i).2) idxs)).
Proof.
  induction idxs as [|i idxs IH]; intros H; [done|]. simpl.
  rewrite IH by (intros j Hj; apply H, elem_of_cons; auto).
  destruct (H i) as [([f n] & -> & Ho)|(e & -> & -> & Ho & _)]; [apply elem_of_cons; auto|..].
  - assert (chunk_result i = (f, n)) as -> by (unfold chunk_result; by rewrite Ho). done.
  - assert (chunk_result i = ([], [])) as -> by (unfold chunk_result; by rewrite Ho). done.
Qed.

Lemma omap_agree {A B} (g h : A -> option B) (l : list A) :
  (forall x, x ∈ l -> g x = h x) -> omap g l = omap h l.
Proof.
  intros H. apply list_omap_ext, Forall2_same_length_lookup_2; [done|].
  intros i x y Hx Hy. rewrite Hx in Hy. injection Hy as <-.
  apply H. by eapply list_elem_of_lookup_2.
Qed.

Lemma omap_nil {A B} (g : A -> option B) (l : list A) : (forall x, x ∈ l -> g x = None) -> omap g l = [].
Proof.
  intros H. rewrite (omap_agree g (fun _ => None)) by done. induction l as [|x l IH]; [done|].
  apply IH. intros y Hy. apply H, elem_of_cons. auto.
Qed.

Lemma run_fuel k s s' : nsteps pool_step k s s' -> k + fuel s' <= fuel s.
Proof. induction 1 as [|k x y z H _ IH]; [lia|]. apply step_fuel in H. lia. Qed.

(** * Properties *)

(** C26: whatever the concurrency and however the reviews are scheduled and
    complete, a call of [fanOutReview] means the same as reviewing the chunks
    one after the other.  If no chunk's review aborts the fan-out, the call
    returns the findings and the intents of the successful chunks in the
    order of the chunks, and has recorded exactly the failed chunks, in that
    order; if some chunk's review does, the call rejects with such a
    rejection, of one of the chunks, and records nothing.  It never fails
    with an empty slot. *)
Theorem fanOutReview_sequential concurrency res rec :
  (0 < concurrency)%Z -> fanOutReview concurrency res rec ->
  if existsb is_fatal indices
  then exists i e, i < length chunks /\ outcome i = Throw e /\ fatal e = true /\
         res = Throw (Rejection e) /\ rec = []
  else res = Ok sequential /\ rec = omap chunk_failed indices.
Proof.
  intros Hc H. destruct H as [Hc'|_ E|s e _ _ Hs He|s _ Hne Hs Hf Hr].
  - lia.
  - unfold sequential, indices. rewrite E. done.
  - destruct (pi_rejection _ _ (reachable_inv _ _ Hs) _ He) as (i & Hi & Ho & Hfe).
    assert (existsb is_fatal indices = true) as ->; [|by exists i, e].
    apply existsb_exists. exists i. split; [apply in_seq; lia|]. unfold is_fatal. by rewrite Ho.
  - pose proof (fun i => finished_complete _ _ i Hc Hne (reachable_inv _ _ Hs) Hf Hr) as Hall.
    assert (Hin : forall i, i ∈ indices -> i < length chunks)
      by (intros i Hi; apply elem_of_seq in Hi; lia).
    assert (existsb is_fatal indices = false) as ->.
    { apply not_true_iff_false. rewrite existsb_exists. intros (i & Hi & Hfa).
      apply list_elem_of_In, Hin, Hall in Hi. unfold is_fatal in Hfa.
      destruct Hi as [(r & _ & Ho)|(e & _ & _ & Ho & Hfe)]; rewrite Ho in Hfa; congruence. }
    split; [by apply fan_in_sequential; auto|].
    assert (Hfs : forall i, i ∈ indices -> soft = true -> failureSlots s !! i = chunk_failed i).
    { intros i Hi _. unfold chunk_failed. destruct (failureSlots s !! i) as [f|] eqn:E.
      - destruct (pi_failures _ _ (reachable_inv _ _ Hs) _ _ E) as (e & _ & -> & _ & ->). done.
      - destruct (Hall i (Hin i Hi)) as [(r & _ & ->)|(e & _ & E' & _)]; [done|congruence]. }
    unfold recorded. destruct soft eqn:Esoft.
    + apply omap_agree. auto.
    + symmetry. apply omap_nil. intros i Hi. unfold chunk_failed.
      destruct (Hall i (Hin i Hi)) as [(r & _ & ->)|(e & _ & _ & _ & Hfe)]; [done|].
      unfold fatal in Hfe. by rewrite Esoft in Hfe.
Qed.

(** The pool always finishes and never exceeds its bound.  No schedule is
    longer than three steps per chunk and one per worker; a pool that is not
    finished can always take a step; at no time are more reviews in flight
    than the concurrency, or the same chunk reviewed twice; and after the
    abort flag is set no further chunk is dispatched. *)
Theorem fanOutReview_terminates concurrency k s :
  nsteps pool_step k (pool_init concurrency) s ->
  k <= 3 * length chunks + Nat.min (Z.to_nat concurrency) (length chunks) /\
  (finished s = true \/ exists s', pool_step s s') /\
  length (workers s) <= Z.to_nat concurrency /\
  (forall v w i, workers s !! v = Some (InFlight i) -> workers s !! w = Some (InFlight i) -> v = w) /\
  (aborted s = true -> forall s' w i, pool_step s s' ->
     workers s' !! w = Some (InFlight i) -> workers s !! w = Some (InFlight i)).
Proof.
  intros Hs. pose proof (reachable_inv concurrency s (rtc_nsteps_2 _ _ _ Hs)) as Hi.
  split; [|split; [|split; [|split]]].
  - apply run_fuel in Hs. unfold fuel at 2 in Hs. simpl in Hs.
    assert (forall n, sum_list (map weight (replicate n AtTop)) = n) as Hr
      by (intros n; induction n; simpl; lia).
    rewrite Hr in Hs. lia.
  - destruct (finished s) eqn:E; [by left|right]. by apply unfinished_steps.
  - rewrite (pi_workers _ _ Hi). lia.
  - exact (pi_once _ _ Hi).
  - intros Ha s' w i [v Hv|v idx Hv] Hw.
    + unfold pull in Hw. simpl in Hw. rewrite Ha in Hw.
      apply insert_worker in Hw as [[_ E]|[_ ?]]; [by destruct (negb _)|done].
    + unfold settle in Hw. destruct (outcome idx) as [r|e]; [|destruct (fatal e)]; simpl in Hw;
        apply insert_worker in Hw as [[_ E]|[_ ?]]; done.
Qed.
End Pool.

(** A throttled review always aborts the fan-out: the two name lists are kept
    in step. *)
Lemma throttle_is_fatal soft e : is_throttle e = true -> fatal soft e = true.
Proof.
  unfold is_throttle, fatal. intros H. bool_to_prop. rewrite H. simpl in H0.
  apply orb_true_iff. right. simpl. bool_to_prop. rewrite !orb_false_r in *.
  destruct (_ =? "GitHubRateLimitExceeded")%string; [done|]. simpl in *. by rewrite H0.
Qed.

(** * Witnesses *)

Definition fx_chunks : list chunk := [Chunk "c0" "a.ts"; Chunk "c1" "b.ts"; Chunk "c2" "c.ts"].
Definition fx_boom : js_error := JsError true "Error" "boom" None None None.
(** The middle chunk fails; findings are numbers here, intents strings. *)
Definition fx_outcome (i : nat) : result js_error (list nat * list string) :=
  match i with 0 => Ok ([10; 11], ["x"]) | 1 => Throw fx_boom | _ => Ok ([12], []) end.

(** Two workers; the second chunk fails first and the third overtakes the first. *)
Definition fx_schedule : pool (F := nat) (I := string) -> pool :=
  fun s0 => pull fx_chunks 1 (pull fx_chunks 0 (settle fx_chunks true fx_outcome 0 0
    (settle fx_chunks true fx_outcome 1 2 (pull fx_chunks 1
    (settle fx_chunks true fx_outcome 1 1 (pull fx_chunks 1 (pull fx_chunks 0 s0))))))).

Lemma fx_run : fanOutReview fx_chunks true fx_outcome 2
  (Ok ([10; 11; 12], ["x"])) [ChunkFailure 1 "c1" "b.ts" fx_boom].
Proof.
  apply (fan_done fx_chunks true fx_outcome 2 (fx_schedule (pool_init fx_chunks 2)));
    [done|done| |reflexivity|reflexivity].
  unfold fx_schedule.
  repeat (eapply rtc_r; [|first [apply step_pull; reflexivity|apply step_settle; reflexivity]]).
  apply rtc_refl.
Qed.

Lemma fanOutReview_sequential_witness :
  Ok ([10; 11; 12], ["x"]) = Ok (E := fan_error) (sequential fx_chunks fx_outcome).
Proof.
  exact (proj1 (fanOutReview_sequential fx_chunks true fx_outcome 2 _ _ eq_refl fx_run)).
Defined.

Lemma fanOutReview_terminates_witness :
  finished (pull fx_chunks 0 (pool_init (F := nat) (I := string) fx_chunks 2)) = true \/
  exists s', pool_step fx_chunks true fx_outcome
    (pull fx_chunks 0 (pool_init fx_chunks 2)) s'.
Proof.
  apply (fanOutReview_terminates fx_chunks true fx_outcome 2 1).
  eapply nsteps_l; [apply (step_pull _ _ _ _ 0); reflexivity|apply nsteps_O].
Defined.
