(* ===== verification/Arbitration.v ===== *)
(** [review/arbitration/suppression_policy.ts] and
    [review/arbitration/arbitrate.ts]: which findings of the static analysers a
    model's SUPPRESS intents may silence.  A confidence is the decimal text of
    the contract; the code compares [Number(text)], here its exact rational
    value (the contract bounds it to three decimals, where doubles order as the
    decimals do). *)
From Stdlib Require Import QArith.
From stdpp Require Import base gmap sets list strings.
From Stdlib Require Import ZArith Lia Ascii Sorting.Sorted.
From S2P Require Import Prelude Findings.
Local Open Scope Z_scope.

(** * The policy *)

Record RuleSuppressibility := Rule { rule_suppressible : bool; min_confidence : Q }.

(** [rules] is the record of overrides, a map by rule id. *)
Record ToolPolicy := Tool { tool_default : RuleSuppressibility; tool_rules : gmap string RuleSuppressibility }.

Record SuppressionPolicy := Policy {
  p_ruff : ToolPolicy;
  p_gitleaks : ToolPolicy;
  p_semgrep : ToolPolicy;
  p_trivy : ToolPolicy;
  p_eslint : ToolPolicy;
  p_llm : ToolPolicy;
}.

Definition KNOWN_TOOLS : list string := ["ruff"; "gitleaks"; "semgrep"; "trivy"; "eslint"; "llm"].

Definition BUNDLED_SUPPRESSION_POLICY : SuppressionPolicy := {|
  p_ruff := Tool (Rule true (85 # 100))
              {[ "F401" := Rule true (90 # 100); "E501" := Rule true (80 # 100) ]};
  p_gitleaks := Tool (Rule false 1) ∅;
  p_semgrep := Tool (Rule true (90 # 100)) ∅;
  p_trivy := Tool (Rule false 1) ∅;
  p_eslint := Tool (Rule true (85 # 100)) {[ "no-unused-vars" := Rule true (90 # 100) ]};
  p_llm := Tool (Rule true (85 # 100)) ∅;
|}.

Definition lookupRuleOrDefault (t : ToolPolicy) (rule_id : string) : RuleSuppressibility :=
  default (tool_default t) (tool_rules t !! rule_id).

Definition selectToolBranch (p : SuppressionPolicy) (tool : string) : ToolPolicy :=
  if String.eqb tool "ruff" then p_ruff p
  else if String.eqb tool "gitleaks" then p_gitleaks p
  else if String.eqb tool "semgrep" then p_semgrep p
  else if String.eqb tool "trivy" then p_trivy p
  else if String.eqb tool "eslint" then p_eslint p
  else if String.eqb tool "llm" then p_llm p
  else p_gitleaks p.

(** [isSuppressible(...)]: the flag and the threshold. *)
Definition isSuppressible (p : SuppressionPolicy) (tool rule_id : string) (confidence : Q) : bool * Q :=
  if negb (existsb (String.eqb tool) KNOWN_TOOLS) then (false, 1%Q)
  else
    let rule := lookupRuleOrDefault (selectToolBranch p tool) rule_id in
    (rule_suppressible rule && Qle_bool (min_confidence rule) confidence, min_confidence rule).

(** * Findings, intents and decisions *)

(** The fields of [AnalysisFindingV1] the layer reads. *)
Record tier1_finding := Tier1 { t1_id : string; t1_tool : string; t1_rule : string }.

Record intent := Intent { target_finding_id : string; i_confidence : string; i_reason : string }.

(** [Number(s)] of a decimal text. *)
Definition Number (s : string) : Q :=
  match JsString.cut "." s with
  | None => inject_Z (JsString.number_of_digits s)
  | Some (whole, frac) =>
      let scale := (10 ^ Z.of_nat (String.length frac))%Z in
      (inject_Z (JsString.number_of_digits whole * scale + JsString.number_of_digits frac)
       / inject_Z scale)%Q
  end.

Inductive suppression_state := NONE | SUPPRESSED_BY_LLM | SUPPRESSED_BY_POLICY.
#[export] Instance suppression_state_eq_dec : EqDecision suppression_state.
Proof. solve_decision. Defined.

Record decision := Decision_ {
  d_finding : string;
  d_state : suppression_state;
  d_reason : option string;
  d_confidence : option string;
  d_model : option string;
  d_prompt_version : option string;
  d_at : option string;
}.

Inductive RejectionReason :=
| target_not_found | below_min_confidence | policy_forbids | duplicate_intent_loser.

Definition reason_name (r : RejectionReason) : string :=
  match r with
  | target_not_found => "target_not_found"
  | below_min_confidence => "below_min_confidence"
  | policy_forbids => "policy_forbids"
  | duplicate_intent_loser => "duplicate_intent_loser"
  end.

Record rejected_intent := RejectedIntent {
  r_target : string;
  r_reason : RejectionReason;
  r_confidence : string;
  r_intent_reason : string;
}.

Definition rejectionReason (p : SuppressionPolicy) (tool rule_id : string) : RejectionReason :=
  if negb (existsb (String.eqb tool) KNOWN_TOOLS) then policy_forbids
  else if negb (rule_suppressible (lookupRuleOrDefault (selectToolBranch p tool) rule_id))
       then policy_forbids else below_min_confidence.

Definition noneDecision (id : string) : decision := Decision_ id NONE None None None None None.

Definition reject (r : RejectionReason) (i : intent) : rejected_intent :=
  RejectedIntent (target_finding_id i) r (i_confidence i) (i_reason i).

(** * arbitrate *)

(** The comparator of the intent sort: target, confidence downwards, reason. *)
Definition intent_leb (a b : intent) : bool :=
  if negb (String.eqb (target_finding_id a) (target_finding_id b))
  then str_leb (target_finding_id a) (target_finding_id b)
  else
    let ca := Number (i_confidence a) in
    let cb := Number (i_confidence b) in
    if negb (Qeq_bool ca cb) then Qle_bool cb ca
    else str_leb (i_reason a) (i_reason b).

(** The loop that fills [intentByTarget] and [duplicateLosers]. *)
Fixpoint index_intents (l : list intent) (m : gmap string intent) : gmap string intent * list intent :=
  match l with
  | [] => (m, [])
  | i :: l' =>
      match m !! target_finding_id i with
      | None => index_intents l' (<[target_finding_id i := i]> m)
      | Some _ => let '(m', losers) := index_intents l' m in (m', i :: losers)
      end
  end.

Record arb_args := ArbArgs {
  a_policy : SuppressionPolicy;
  a_model : string;
  a_prompt_version : string;
  a_now : string;
}.

(** One round of the Tier-1 loop: the decision, and the rejection pushed. *)
Definition decide_tier1 (a : arb_args) (m : gmap string intent) (f : tier1_finding)
    : decision * option rejected_intent :=
  match m !! t1_id f with
  | None => (noneDecision (t1_id f), None)
  | Some i =>
      if (isSuppressible (a_policy a) (t1_tool f) (t1_rule f) (Number (i_confidence i))).1
      then (Decision_ (t1_id f) SUPPRESSED_BY_LLM (Some (i_reason i)) (Some (i_confidence i))
              (Some (a_model a)) (Some (a_prompt_version a)) (Some (a_now a)), None)
      else (noneDecision (t1_id f),
            Some (reject (rejectionReason (a_policy a) (t1_tool f) (t1_rule f)) i))
  end.

Definition state_name (s : suppression_state) : string :=
  match s with
  | NONE => "NONE" | SUPPRESSED_BY_LLM => "SUPPRESSED_BY_LLM"
  | SUPPRESSED_BY_POLICY => "SUPPRESSED_BY_POLICY"
  end.

Definition decision_leb (a b : decision) : bool :=
  if negb (String.eqb (state_name (d_state a)) (state_name (d_state b)))
  then str_leb (state_name (d_state a)) (state_name (d_state b))
  else str_leb (d_finding a) (d_finding b).

Definition rejected_leb (a b : rejected_intent) : bool :=
  if negb (String.eqb (reason_name (r_reason a)) (reason_name (r_reason b)))
  then str_leb (reason_name (r_reason a)) (reason_name (r_reason b))
  else str_leb (r_target a) (r_target b).

Record arb_result := ArbResult {
  decisions : list decision;
  rejected_intents : list rejected_intent;
}.

(** [tier2] are the ids of the Tier-2 pairs. *)
Definition arbitrate (a : arb_args) (tier1 : list tier1_finding) (tier2 : list string)
    (intents : list intent) : arb_result :=
  let sortedIntents := sort_by intent_leb intents in
  let '(intentByTarget, duplicateLosers) := index_intents sortedIntents ∅ in
  let outcomes := map (decide_tier1 a intentByTarget) tier1 in
  let dangling := filter (fun i => target_finding_id i ∉ map t1_id tier1) sortedIntents in
  ArbResult
    (sort_by decision_leb (map fst outcomes ++ map noneDecision tier2))
    (sort_by rejected_leb (omap snd outcomes ++ map (reject target_not_found) dangling
                           ++ map (reject duplicate_intent_loser) duplicateLosers)).

(** * Lemmas *)

Lemma intent_leb_total a b : intent_leb a b = true \/ intent_leb b a = true.
Proof.
  unfold intent_leb. rewrite (String.eqb_sym (target_finding_id b)).
  destruct (String.eqb (target_finding_id a) _); simpl; [|apply str_leb_total].
  destruct (Qeq_bool (Number (i_confidence a)) (Number (i_confidence b))) eqn:E.
  - apply Qeq_bool_iff, Qeq_sym, Qeq_bool_iff in E. rewrite E. simpl. apply str_leb_total.
  - assert (Qeq_bool (Number (i_confidence b)) (Number (i_confidence a)) = false) as ->.
    { apply not_true_iff_false. intros E'. apply Qeq_bool_iff, Qeq_sym, Qeq_bool_iff in E'. congruence. }
    simpl. rewrite !Qle_bool_iff.
    destruct (Qlt_le_dec (Number (i_confidence a)) (Number (i_confidence b))) as [H|H];
      [right; by apply Qlt_le_weak|by left].
Qed.

(** [intent_leb] as an order on keys. *)
Lemma intent_leb_true a b :
  intent_leb a b = true <->
  if decide (target_finding_id a = target_finding_id b)
  then (Number (i_confidence b) < Number (i_confidence a))%Q \/
       (Number (i_confidence a) == Number (i_confidence b) /\ str_leb (i_reason a) (i_reason b) = true)%Q
  else str_leb (target_finding_id a) (target_finding_id b) = true.
Proof.
  unfold intent_leb. case_decide as Et.
  - rewrite Et, String.eqb_refl. simpl.
    destruct (Qeq_bool _ _) eqn:E; simpl.
    + apply Qeq_bool_iff in E. split; [by right|]. intros [H|[_ H]]; [|done].
      rewrite E in H. by apply Qlt_irrefl in H.
    + assert (~ (Number (i_confidence a) == Number (i_confidence b))%Q) as Hn
        by (rewrite <- Qeq_bool_iff; by rewrite E).
      rewrite Qle_bool_iff, Qle_lteq. split.
      * intros [H|H]; [by left|by apply Qeq_sym in H].
      * intros [H|[H _]]; [by left|done].
  - apply String.eqb_neq in Et as ->. done.
Qed.

Lemma intent_leb_trans a b c :
  intent_leb a b = true -> intent_leb b c = true -> intent_leb a c = true.
Proof.
  rewrite !intent_leb_true.
  destruct (decide (target_finding_id a = target_finding_id b)) as [E1|E1],
    (decide (target_finding_id b = target_finding_id c)) as [E2|E2].
  - rewrite decide_True by congruence. intros [H1|[H1 R1]] [H2|[H2 R2]].
    + left. by eapply Qlt_trans.
    + left. by rewrite <- H2.
    + left. by rewrite H1.
    + right. split; [by rewrite H1|by eapply str_leb_trans].
  - rewrite decide_False by congruence. by rewrite E1.
  - rewrite decide_False by congruence. by rewrite E2.
  - intros H1 H2. destruct (decide (target_finding_id a = target_finding_id c)) as [E|E].
    + rewrite <- E in H2. destruct E1. by apply str_leb_antisym.
    + by eapply str_leb_trans.
Qed.

(** ** The intent index *)

Lemma index_intents_spec l m m' losers :
  index_intents l m = (m', losers) ->
  (forall t w, m' !! t = Some w <-> m !! t = Some w \/
     (m !! t = None /\ head (filter (fun i => target_finding_id i = t) l) = Some w)) /\
  (forall i, i ∈ l -> m' !! target_finding_id i = Some i \/ i ∈ losers) /\
  (forall i, i ∈ losers -> i ∈ l).
Proof.
  revert m losers. induction l as [|i l IH]; intros m losers; simpl.
  - intros [= <- <-]. split; [naive_solver|split; intros i Hi; by apply elem_of_nil in Hi].
  - destruct (m !! target_finding_id i) as [j|] eqn:Em.
    + destruct (index_intents l m) as [m1 l1] eqn:E. intros [= <- <-].
      destruct (IH _ _ E) as (H1 & H2 & H3). split; [|split].
      * intros t w. rewrite H1, filter_cons. destruct (decide _) as [<-|]; [|done].
        rewrite Em. naive_solver.
      * intros x [->|Hx]%elem_of_cons; [right; apply elem_of_cons; auto|].
        destruct (H2 _ Hx); [by left|right; apply elem_of_cons; auto].
      * intros x [->|Hx]%elem_of_cons; apply elem_of_cons; auto.
    + intros E. destruct (IH _ _ E) as (H1 & H2 & H3). split; [|split].
      * intros t w. rewrite H1, filter_cons. destruct (decide _) as [<-|Hne].
        -- rewrite lookup_insert_eq, Em. simpl. naive_solver.
        -- rewrite lookup_insert_ne by done. done.
      * intros x [->|Hx]%elem_of_cons; [|by destruct (H2 _ Hx); auto].
        left. apply H1. left. by rewrite lookup_insert_eq.
      * intros x Hx. apply elem_of_cons. auto.
Qed.

Lemma head_filter_sorted {A} (leb : A -> A -> bool) (P : A -> Prop) `{!forall x, Decision (P x)} l w :
  (forall x, leb x x = true) -> StronglySorted (fun a b => leb a b = true) l ->
  head (filter P l) = Some w -> w ∈ l /\ P w /\ forall x, x ∈ l -> P x -> leb w x = true.
Proof.
  intros Hrefl. induction 1 as [|y l Hl IH Hy]; [done|]. rewrite filter_cons.
  destruct (decide (P y)) as [Hp|Hp]; simpl.
  - intros [= <-]. split; [apply elem_of_cons; auto|split; [done|]].
    intros x [->|Hx]%elem_of_cons _; [apply Hrefl|]. rewrite Forall_forall in Hy. auto.
  - intros Hw. destruct (IH Hw) as (? & ? & Hle). split; [apply elem_of_cons; auto|split; [done|]].
    intros x [->|Hx]%elem_of_cons ?; [done|auto].
Qed.

Section Arbitrate.
Context (a : arb_args) (tier1 : list tier1_finding) (tier2 : list string) (intents : list intent).

(** The two halves of the index of the sorted intents. *)
Let m := (index_intents (sort_by intent_leb intents) ∅).1.
Let losers := (index_intents (sort_by intent_leb intents) ∅).2.

(** The indexed intent of a target is a best one. *)
Lemma winner_best t w :
  m !! t = Some w -> w ∈ intents /\ target_finding_id w = t /\
  forall x, x ∈ intents -> target_finding_id x = t ->
    (Number (i_confidence x) <= Number (i_confidence w))%Q.
Proof.
  unfold m. destruct (index_intents _ _) as [m' l'] eqn:E. simpl. intros Hw.
  apply index_intents_spec in E as (H1 & _ & _). apply H1 in Hw as [Hw|[_ Hw]].
  { by rewrite lookup_empty in Hw. }
  apply (head_filter_sorted intent_leb) in Hw as (Hin & Ht & Hle).
  - rewrite elem_of_sort_by in Hin. split; [done|split; [done|]].
    intros x Hx Et. assert (Hx' : intent_leb w x = true) by (apply Hle; [by rewrite elem_of_sort_by|done]).
    apply intent_leb_true in Hx'. rewrite decide_True in Hx' by congruence.
    destruct Hx' as [H|[H _]]; [by apply Qlt_le_weak|]. rewrite H. apply Qle_refl.
  - intros x. by destruct (intent_leb_total x x).
  - apply sort_by_sorted; [apply intent_leb_total|apply intent_leb_trans].
Qed.

Lemma winner_or_loser i : i ∈ intents -> m !! target_finding_id i = Some i \/ i ∈ losers.
Proof.
  unfold m, losers. destruct (index_intents _ _) as [m' l'] eqn:E. simpl. intros Hi.
  apply index_intents_spec in E as (_ & H2 & _). apply H2. by rewrite elem_of_sort_by.
Qed.

Lemma target_indexed i : i ∈ intents -> is_Some (m !! target_finding_id i).
Proof.
  unfold m. destruct (index_intents _ _) as [m' l'] eqn:E. simpl. intros Hi.
  apply index_intents_spec in E as (H1 & _ & _).
  destruct (head (filter (fun j => target_finding_id j = target_finding_id i)
    (sort_by intent_leb intents))) as [w|] eqn:Eh.
  - exists w. apply H1. right. by rewrite lookup_empty.
  - assert (i ∈ filter (fun j => target_finding_id j = target_finding_id i) (sort_by intent_leb intents))
      as Hf by (apply list_elem_of_filter; split; [done|by rewrite elem_of_sort_by]).
    destruct (filter _ _); [by apply elem_of_nil in Hf|discriminate].
Qed.

Lemma arbitrate_unfold :
  arbitrate a tier1 tier2 intents = ArbResult
    (sort_by decision_leb (map fst (map (decide_tier1 a m) tier1) ++ map noneDecision tier2))
    (sort_by rejected_leb (omap snd (map (decide_tier1 a m) tier1)
       ++ map (reject target_not_found)
            (filter (fun i => target_finding_id i ∉ map t1_id tier1) (sort_by intent_leb intents))
       ++ map (reject duplicate_intent_loser) losers)).
Proof. unfold arbitrate, m, losers. by destruct (index_intents _ _). Qed.

(** A decision belongs to a Tier-1 finding or to a Tier-2 one. *)
Lemma decision_origin d :
  d ∈ decisions (arbitrate a tier1 tier2 intents) <->
  (exists f, f ∈ tier1 /\ d = (decide_tier1 a m f).1) \/ (exists t, t ∈ tier2 /\ d = noneDecision t).
Proof.
  rewrite arbitrate_unfold. simpl. rewrite elem_of_sort_by, elem_of_app, !list_elem_of_fmap.
  setoid_rewrite list_elem_of_fmap. naive_solver.
Qed.

Lemma decide_tier1_id f : d_finding (decide_tier1 a m f).1 = t1_id f.
Proof. unfold decide_tier1. destruct (m !! t1_id f); [destruct (isSuppressible _ _ _ _).1|]; done. Qed.

(** A threshold is cleared by some intent exactly when the best clears it. *)
Lemma suppressed_iff f :
  d_state (decide_tier1 a m f).1 = SUPPRESSED_BY_LLM <->
  exists i, i ∈ intents /\ target_finding_id i = t1_id f /\
    (isSuppressible (a_policy a) (t1_tool f) (t1_rule f) (Number (i_confidence i))).1 = true.
Proof.
  unfold decide_tier1. destruct (m !! t1_id f) as [w|] eqn:Em.
  - destruct (winner_best _ _ Em) as (Hw & Ht & Hbest).
    destruct (isSuppressible _ _ _ (Number (i_confidence w))).1 eqn:Es; simpl.
    + split; [eauto|done].
    + split; [discriminate|]. intros (i & Hi & Et & Hs). exfalso.
      specialize (Hbest _ Hi Et). unfold isSuppressible in Es, Hs.
      destruct (negb _); [discriminate|]. simpl in *. bool_to_prop. rewrite H in Es. simpl in Es.
      apply not_true_iff_false in Es. apply Es, Qle_bool_iff. apply Qle_bool_iff in H0.
      by eapply Qle_trans.
  - split; [discriminate|]. intros (i & Hi & Et & _).
    destruct (target_indexed _ Hi) as [w Hw]. rewrite Et in Hw. congruence.
Qed.
End Arbitrate.

(** A tool whose every rule the policy protects is never suppressed. *)
Lemma protected_tool p tool rule c :
  rule_suppressible (tool_default (selectToolBranch p tool)) = false ->
  tool_rules (selectToolBranch p tool) = ∅ -> (isSuppressible p tool rule c).1 = false.
Proof.
  intros Hd Hr. unfold isSuppressible, lookupRuleOrDefault. destruct (negb _); [done|].
  by rewrite Hr, lookup_empty; simpl; rewrite Hd.
Qed.

(** * Properties *)

(** What the arbitration layer grants.  Every finding gets exactly one
    decision; a Tier-1 finding is suppressed exactly when some intent for it
    clears the policy's threshold for its tool and rule, and never a Tier-2
    one; the suppression carries the text of a most confident such intent, and
    the caller's model, prompt version and instant; every intent is either the
    one that suppressed its target or is reported as rejected; and under the
    bundled policy no set of intents, whatever its confidences, suppresses a
    finding of the secret scanner or of the vulnerability scanner. *)
Theorem arbitrate_correct a tier1 tier2 intents :
  let r := arbitrate a tier1 tier2 intents in
  map d_finding (decisions r) ≡ₚ map t1_id tier1 ++ tier2 /\
  (forall f, f ∈ tier1 -> exists d, d ∈ decisions r /\ d_finding d = t1_id f /\
     (d_state d = SUPPRESSED_BY_LLM <-> exists i, i ∈ intents /\ target_finding_id i = t1_id f /\
        (isSuppressible (a_policy a) (t1_tool f) (t1_rule f) (Number (i_confidence i))).1 = true)) /\
  (forall d, d ∈ decisions r -> d_state d = SUPPRESSED_BY_LLM ->
     exists f i, f ∈ tier1 /\ i ∈ intents /\ target_finding_id i = t1_id f /\
       d = Decision_ (t1_id f) SUPPRESSED_BY_LLM (Some (i_reason i)) (Some (i_confidence i))
             (Some (a_model a)) (Some (a_prompt_version a)) (Some (a_now a)) /\
       (forall x, x ∈ intents -> target_finding_id x = t1_id f ->
          (Number (i_confidence x) <= Number (i_confidence i))%Q) /\
       (a_policy a = BUNDLED_SUPPRESSION_POLICY -> t1_tool f ∉ ["gitleaks"; "trivy"])) /\
  (forall i, i ∈ intents ->
     (exists d, d ∈ decisions r /\ d_state d = SUPPRESSED_BY_LLM /\ d_finding d = target_finding_id i /\
        d_reason d = Some (i_reason i) /\ d_confidence d = Some (i_confidence i)) \/
     exists why, reject why i ∈ rejected_intents r).
Proof.
  intros r. set (m := (index_intents (sort_by intent_leb intents) ∅).1). split; [|split; [|split]].
  - unfold r. rewrite arbitrate_unfold. cbn [decisions]. rewrite sort_by_perm, map_app, !map_map.
    erewrite (map_ext _ t1_id) by apply decide_tier1_id. by rewrite map_id.
  - intros f Hf. exists (decide_tier1 a m f).1. split; [apply decision_origin; eauto|].
    split; [apply decide_tier1_id|apply suppressed_iff].
  - intros d Hd Hs. apply decision_origin in Hd as [(f & Hf & ->)|(t & _ & ->)]; [|done].
    fold m in Hs |- *. unfold decide_tier1 in *. destruct (m !! t1_id f) as [w|] eqn:Em; [|done].
    destruct (winner_best _ _ _ Em) as (Hw & Ht & Hbest).
    destruct (isSuppressible _ _ _ _).1 eqn:Es; [|done].
    exists f, w. split; [done|split; [done|split; [done|split; [done|split; [done|]]]]].
    intros Ep. rewrite Ep in Es. rewrite !not_elem_of_cons.
    split; [|split; [|by intros ?%elem_of_nil]]; intros Et; rewrite Et in Es;
      by rewrite protected_tool in Es.
  - intros i Hi. unfold r.
    destruct (winner_or_loser _ _ Hi) as [Hw|Hl].
    + destruct (decide (target_finding_id i ∈ map t1_id tier1)) as [Ht|Ht].
      * apply list_elem_of_fmap in Ht as (f & Et & Hf). fold m in Hw.
        destruct ((isSuppressible (a_policy a) (t1_tool f) (t1_rule f) (Number (i_confidence i))).1) eqn:Es.
        -- left. exists (decide_tier1 a m f).1. split; [apply decision_origin; eauto|].
           unfold decide_tier1. rewrite Et in Hw. by rewrite Hw, Es.
        -- right. exists (rejectionReason (a_policy a) (t1_tool f) (t1_rule f)).
           rewrite arbitrate_unfold. simpl. rewrite elem_of_sort_by, elem_of_app. left.
           apply list_elem_of_omap. exists (decide_tier1 a m f). split; [by apply list_elem_of_fmap_2|].
           unfold decide_tier1. rewrite Et in Hw. by rewrite Hw, Es.
      * right. exists target_not_found. rewrite arbitrate_unfold. simpl.
        rewrite elem_of_sort_by, !elem_of_app. right; left. apply list_elem_of_fmap_2.
        apply list_elem_of_filter. by rewrite elem_of_sort_by.
    + right. exists duplicate_intent_loser. rewrite arbitrate_unfold. simpl.
      rewrite elem_of_sort_by, !elem_of_app. right; right. by apply list_elem_of_fmap_2.
Qed.

(** The result depends on the set of intents only, provided equal confidences
    are written alike. *)
Theorem arbitrate_order_independent a tier1 tier2 intents intents' :
  (forall x y, x ∈ intents -> y ∈ intents -> (Number (i_confidence x) == Number (i_confidence y))%Q ->
     i_confidence x = i_confidence y) ->
  intents ≡ₚ intents' -> arbitrate a tier1 tier2 intents = arbitrate a tier1 tier2 intents'.
Proof.
  intros Htext Hp. unfold arbitrate.
  rewrite (sort_by_canonical intent_leb intent_leb_total intent_leb_trans intents intents'); [done| |done].
  intros x y Hx Hy Hxy Hyx. rewrite !intent_leb_true in *.
  destruct (decide (target_finding_id x = target_finding_id y)) as [Et|Et].
  - rewrite decide_True in Hyx by done.
    destruct Hxy as [H1|[H1 R1]], Hyx as [H2|[H2 R2]].
    + exfalso. by apply (Qlt_not_le _ _ H1), Qlt_le_weak.
    + exfalso. rewrite H2 in H1. by apply Qlt_irrefl in H1.
    + exfalso. rewrite H1 in H2. by apply Qlt_irrefl in H2.
    + pose proof (str_leb_antisym _ _ R1 R2). pose proof (Htext _ _ Hx Hy H1).
      destruct x, y; simpl in *; congruence.
  - rewrite decide_False in Hyx by done. destruct Et. by apply str_leb_antisym.
Qed.

(** Two texts of one confidence: the order of the intents decides which of them
    is written on the decision. *)
Definition ax_args : arb_args := ArbArgs BUNDLED_SUPPRESSION_POLICY "m" "v1" "2026-01-01T00:00:00Z".
Definition ax_intent (c : string) : intent := Intent "f1" c "false positive".

Theorem arbitrate_text_dependent :
  arbitrate ax_args [Tier1 "f1" "ruff" "E501"] [] [ax_intent "0.9"; ax_intent "0.90"] <>
  arbitrate ax_args [Tier1 "f1" "ruff" "E501"] [] [ax_intent "0.90"; ax_intent "0.9"].
Proof. vm_compute. congruence. Qed.
