(* ===== verification/PathMatch.v ===== *)
(** [config/path_match.ts]: the gitignore-style globs of [path_filters] and
    [path_instructions].  The code translates a glob to the source text of a
    regular expression and lets the engine match it.  Here the source text is
    built as the code builds it, read back by a parser of the fragment of the
    regular-expression grammar it lies in, matched by an executable matcher,
    and compared with a direct reading of the glob.  Strings are code units
    below 256; of the line terminators only LF and CR are below 256. *)
From stdpp Require Import base list strings sets.
From Stdlib Require Import ZArith Lia Ascii.
From S2P Require Import Prelude.

Definition chars : string -> list ascii := String.list_ascii_of_string.
Definition text : list ascii -> string := String.string_of_list_ascii.

Definition slash : ascii := "/".
Definition star : ascii := "*".
Definition quest : ascii := "?".
Definition bslash : ascii := "\".

(** * Building the source text *)

Definition RE_ESCAPE_CHARS : list ascii :=
  ascii_of_nat <$> [9; 10; 11; 12; 13; 32; 35; 36; 38; 40; 41; 42; 43; 45; 46; 63; 91; 92; 93; 94;
                    123; 124; 125; 126]%nat.

Definition escapeRegexChar (ch : ascii) : list ascii :=
  if bool_decide (ch ∈ RE_ESCAPE_CHARS) then [bslash; ch] else [ch].

(** [pattern.replace(/\/+$/, "")]. *)
Fixpoint strip_slashes_rev (l : list ascii) : list ascii :=
  match l with
  | c :: l' => if Ascii.eqb c slash then strip_slashes_rev l' else l
  | [] => []
  end.
Definition strip_trailing_slashes (l : list ascii) : list ascii := rev (strip_slashes_rev (rev l)).

(** The translation loop: [**] with an optional slash after it, [*], [?], and
    every other character escaped. *)
Fixpoint glob_body (pat : list ascii) : list ascii :=
  match pat with
  | [] => []
  | c :: pat1 =>
      if Ascii.eqb c star then
        match pat1 with
        | c2 :: pat2 =>
            if Ascii.eqb c2 star then
              match pat2 with
              | c3 :: pat3 => if Ascii.eqb c3 slash then chars ".*" ++ glob_body pat3
                              else chars ".*" ++ glob_body pat2
              | [] => chars ".*"
              end
            else chars "[^/]*" ++ glob_body pat1
        | [] => chars "[^/]*"
        end
      else if Ascii.eqb c quest then chars "[^/]" ++ glob_body pat1
      else escapeRegexChar c ++ glob_body pat1
  end.

(** [anchorRoot] and the pattern without its leading slash. *)
Definition glob_split (pattern : string) : bool * list ascii :=
  match strip_trailing_slashes (chars pattern) with
  | c :: p => if Ascii.eqb c slash then (true, p) else (false, c :: p)
  | [] => (false, [])
  end.

Definition globToRegexSource (pattern : string) : string :=
  let '(anchorRoot, p) := glob_split pattern in
  text (chars (if anchorRoot then "^" else "^(?:.*/)?") ++ glob_body p ++ chars "$").

(** * Regular expressions *)

(** The atoms of the fragment. *)
Inductive atom :=
| ADotStar            (* .*     *)
| ASegStar            (* [^/]*  *)
| ASeg                (* [^/]   *)
| ALit (c : ascii).

(** What a character between atoms means to the engine. *)
Definition syntax_chars : list ascii := chars "^$\.*+?()[]{}|".

(** Letters and digits after a backslash are classes, controls and references,
    not themselves. *)
Definition identity_escape (c : ascii) : bool :=
  let n := nat_of_ascii c in
  negb (((48 <=? n) && (n <=? 57)) || ((65 <=? n) && (n <=? 90)) || ((97 <=? n) && (n <=? 122))
        || (n =? 95))%nat.

Fixpoint parse_atoms (l : list ascii) : option (list atom) :=
  match l with
  | [] => Some []
  | "." :: "*" :: l' => cons ADotStar <$> parse_atoms l'
  | "[" :: "^" :: "/" :: "]" :: l1 =>
      match l1 with
      | "*" :: l' => cons ASegStar <$> parse_atoms l'
      | _ => cons ASeg <$> parse_atoms l1
      end
  | "\" :: c :: l' => if identity_escape c then cons (ALit c) <$> parse_atoms l' else None
  | c :: l' => if bool_decide (c ∈ syntax_chars) then None else cons (ALit c) <$> parse_atoms l'
  end%char.

(** [\^ (?:.*/)? atoms $]: whether the prefix is there, and the atoms. *)
Definition regex := (bool * list atom)%type.

Fixpoint drop_prefix (p l : list ascii) : option (list ascii) :=
  match p, l with
  | [], _ => Some l
  | a :: p', b :: l' => if Ascii.eqb a b then drop_prefix p' l' else None
  | _ :: _, [] => None
  end.

Definition drop_dollar (l : list ascii) : option (list ascii) :=
  match rev l with
  | c :: l' => if Ascii.eqb c "$" then Some (rev l') else None
  | [] => None
  end.

Definition parse_regex (s : string) : option regex :=
  l ← drop_prefix (chars "^") (chars s);
  l ← drop_dollar l;
  match drop_prefix (chars "(?:.*/)?") l with
  | Some l' => pair true <$> parse_atoms l'
  | None => pair false <$> parse_atoms l
  end.

(** ** Matching *)

Definition line_terminator (c : ascii) : bool :=
  let n := nat_of_ascii c in ((n =? 10) || (n =? 13))%nat.

(** A class repeated, then the rest [k] of the expression. *)
Fixpoint match_star (p : ascii -> bool) (k : list ascii -> bool) (s : list ascii) : bool :=
  k s || match s with c :: s' => p c && match_star p k s' | [] => false end.

Fixpoint match_atoms (l : list atom) (s : list ascii) : bool :=
  match l with
  | [] => match s with [] => true | _ => false end
  | ADotStar :: l' => match_star (fun c => negb (line_terminator c)) (match_atoms l') s
  | ASegStar :: l' => match_star (fun c => negb (Ascii.eqb c slash)) (match_atoms l') s
  | ASeg :: l' => match s with c :: s' => negb (Ascii.eqb c slash) && match_atoms l' s' | [] => false end
  | ALit a :: l' => match s with c :: s' => Ascii.eqb a c && match_atoms l' s' | [] => false end
  end.

Definition regex_test (r : regex) (s : list ascii) : bool :=
  match_atoms r.2 s || (r.1 && match_atoms (ADotStar :: ALit slash :: r.2) s).

(** [new RegExp(source).test(path)]; a source outside the fragment would be a
    [SyntaxError] or another expression. *)
Definition matchesGlob (path pattern : string) : option bool :=
  (fun r => regex_test r (chars path)) <$> parse_regex (globToRegexSource pattern).

(** * Callers *)

Definition matches (path pattern : string) : bool := default false (matchesGlob path pattern).

Record path_instruction := PathInstruction { pi_path : string; pi_instructions : string }.

Definition matchPathInstructions (rules : list path_instruction) (chunkPath : string)
    : list path_instruction :=
  filter (fun r => matches chunkPath (pi_path r) = true) rules.

Definition starts_with (c : ascii) (s : string) : bool :=
  match s with String d _ => Ascii.eqb d c | EmptyString => false end.

Definition slice1 (s : string) : string := match s with String _ s' => s' | EmptyString => EmptyString end.

Definition filterMatchesGlob (path pattern : string) : bool :=
  matches path (if starts_with slash pattern then pattern else String slash pattern).

(** The inner loop of [filterReviewPaths]: every filter may overrule. *)
Definition filter_step (path : string) (included : bool) (f : string) : bool :=
  if starts_with "!" f
  then if filterMatchesGlob path (slice1 f) then false else included
  else if filterMatchesGlob path f then true else included.

Definition path_included (pathFilters : list string) (path : string) : bool :=
  let hasIncludes := existsb (fun f => negb (starts_with "!" f)) pathFilters in
  fold_left (filter_step path) pathFilters (negb hasIncludes).

Definition filterReviewPaths (paths pathFilters : list string) : list string :=
  match pathFilters with
  | [] => paths
  | _ => filter (fun p => path_included pathFilters p = true) paths
  end.

(** * What a glob means *)

(** [**] stands for any characters but line terminators, a following slash
    included or not; [*] for any characters but slashes; [?] for one of them;
    everything else for itself. *)
Inductive glob_match : list ascii -> list ascii -> Prop :=
| gm_nil : glob_match [] []
| gm_dirs p u v :
    Forall (fun c => line_terminator c = false) u -> glob_match p v ->
    glob_match (star :: star :: slash :: p) (u ++ v)
| gm_dstar p u v :
    head p <> Some slash -> Forall (fun c => line_terminator c = false) u -> glob_match p v ->
    glob_match (star :: star :: p) (u ++ v)
| gm_star p u v :
    head p <> Some star -> slash ∉ u -> glob_match p v -> glob_match (star :: p) (u ++ v)
| gm_quest p c v : c <> slash -> glob_match p v -> glob_match (quest :: p) (c :: v)
| gm_lit c p v : c <> star -> c <> quest -> glob_match p v -> glob_match (c :: p) (c :: v).

(** An unanchored pattern may start after any slash. *)
Definition path_matches (path : list ascii) (pattern : string) : Prop :=
  let '(anchorRoot, p) := glob_split pattern in
  glob_match p path \/
  (anchorRoot = false /\ exists u v, path = u ++ slash :: v /\
     Forall (fun c => line_terminator c = false) u /\ glob_match p v).

(** The atoms the translation means to emit. *)
Fixpoint glob_atoms (pat : list ascii) : list atom :=
  match pat with
  | [] => []
  | c :: pat1 =>
      if Ascii.eqb c star then
        match pat1 with
        | c2 :: pat2 =>
            if Ascii.eqb c2 star then
              match pat2 with
              | c3 :: pat3 => ADotStar :: if Ascii.eqb c3 slash then glob_atoms pat3 else glob_atoms pat2
              | [] => [ADotStar]
              end
            else ASegStar :: glob_atoms pat1
        | [] => [ASegStar]
        end
      else if Ascii.eqb c quest then ASeg :: glob_atoms pat1
      else ALit c :: glob_atoms pat1
  end.

(** * Lemmas *)

(** Induction along the translation loop. *)
Lemma glob_ind (P : list ascii -> Prop) :
  P [] ->
  (forall p, P p -> P (star :: star :: slash :: p)) ->
  (forall p, head p <> Some slash -> P p -> P (star :: star :: p)) ->
  (forall p, head p <> Some star -> P p -> P (star :: p)) ->
  (forall p, P p -> P (quest :: p)) ->
  (forall c p, c <> star -> c <> quest -> P p -> P (c :: p)) ->
  forall p, P p.
Proof.
  intros H0 H1 H2 H3 H4 H5 p. remember (length p) as n eqn:En. revert p En.
  induction (lt_wf n) as [n _ IH]. intros p ->.
  assert (IH' : forall q, (length q < length p)%nat -> P q) by eauto.
  destruct p as [|c p1]; [done|].
  destruct (decide (c = star)) as [->|Hs].
  - destruct p1 as [|c2 p2]; [apply H3; [done|apply IH'; simpl; lia]|].
    destruct (decide (c2 = star)) as [->|Hs2]; [|apply H3; [by intros [= ->]|apply IH'; simpl; lia]].
    destruct p2 as [|c3 p3]; [apply H2; [done|apply IH'; simpl; lia]|].
    destruct (decide (c3 = slash)) as [->|Hc3].
    + apply H1, IH'. simpl. lia.
    + apply H2; [by intros [= ->]|apply IH'; simpl; lia].
  - destruct (decide (c = quest)) as [->|Hq]; [apply H4|apply H5; [done|done|]]; apply IH'; simpl; lia.
Qed.

(** The equations of the two translations. *)
Lemma glob_eqs (c : ascii) p :
  glob_body (star :: star :: slash :: p) = chars ".*" ++ glob_body p /\
  glob_atoms (star :: star :: slash :: p) = ADotStar :: glob_atoms p /\
  (head p <> Some slash -> glob_body (star :: star :: p) = chars ".*" ++ glob_body p /\
     glob_atoms (star :: star :: p) = ADotStar :: glob_atoms p) /\
  (head p <> Some star -> glob_body (star :: p) = chars "[^/]*" ++ glob_body p /\
     glob_atoms (star :: p) = ASegStar :: glob_atoms p) /\
  glob_body (quest :: p) = chars "[^/]" ++ glob_body p /\
  glob_atoms (quest :: p) = ASeg :: glob_atoms p /\
  (c <> star -> c <> quest -> glob_body (c :: p) = escapeRegexChar c ++ glob_body p /\
     glob_atoms (c :: p) = ALit c :: glob_atoms p).
Proof.
  assert (Hne : forall a b : ascii, a <> b -> Ascii.eqb a b = false) by (intros; by apply Ascii.eqb_neq).
  split_and!; try done.
  - intros Hp. destruct p as [|a p]; [done|]. assert (a <> slash) as Ha by (intros ->; by apply Hp).
    simpl. by rewrite (Hne _ _ Ha).
  - intros Hp. destruct p as [|a p]; [done|]. assert (a <> star) as Ha by (intros ->; by apply Hp).
    simpl. by rewrite (Hne _ _ Ha).
  - intros Hs Hq. simpl. by rewrite (Hne _ _ Hs), (Hne _ _ Hq).
Qed.

(** A literal, escaped if need be, reads back as itself. *)
Lemma parse_escaped c l :
  parse_atoms (escapeRegexChar c ++ l) = cons (ALit c) <$> parse_atoms l.
Proof. by destruct c as [[] [] [] [] [] [] [] []]. Qed.

Lemma escape_head c l : head (escapeRegexChar c ++ l) <> Some star.
Proof. by destruct c as [[] [] [] [] [] [] [] []]. Qed.

(** No piece of the body starts with a quantifier or a group. *)
Lemma glob_body_head p : head (glob_body p) <> Some star /\ head (glob_body p) <> Some "("%char.
Proof.
  induction p as [|p _|p Hp _|p Hp _|p _|c p Hs Hq _] using glob_ind; [done|..];
    try (destruct (glob_eqs "a" p) as (H1 & _ & H2 & H3 & H4 & _);
      first [rewrite H1|rewrite H4|destruct H2 as [-> _]; [done|]|destruct H3 as [-> _]; [done|]]; done).
  destruct (glob_eqs c p) as (_ & _ & _ & _ & _ & _ & H). destruct H as [-> _]; [done..|].
  by destruct c as [[] [] [] [] [] [] [] []].
Qed.

Lemma parse_seg l : head l <> Some star -> parse_atoms (chars "[^/]" ++ l) = cons ASeg <$> parse_atoms l.
Proof.
  intros Hl. destruct l as [|c l]; [done|].
  destruct c as [[] [] [] [] [] [] [] []]; try reflexivity. by destruct Hl.
Qed.

Lemma parse_glob_body p : parse_atoms (glob_body p) = Some (glob_atoms p).
Proof.
  induction p as [|p IH|p Hp IH|p Hp IH|p IH|c p Hs Hq IH] using glob_ind; [done|..].
  - destruct (glob_eqs "a" p) as (-> & -> & _). simpl. by rewrite IH.
  - destruct (glob_eqs "a" p) as (_ & _ & H & _). destruct (H Hp) as [-> ->]. simpl. by rewrite IH.
  - destruct (glob_eqs "a" p) as (_ & _ & _ & H & _). destruct (H Hp) as [-> ->]. simpl. by rewrite IH.
  - destruct (glob_eqs "a" p) as (_ & _ & _ & _ & -> & -> & _).
    rewrite parse_seg by apply glob_body_head. by rewrite IH.
  - destruct (glob_eqs c p) as (_ & _ & _ & _ & _ & _ & H). destruct (H Hs Hq) as [-> ->].
    by rewrite parse_escaped, IH.
Qed.

Lemma drop_prefix_app p l : drop_prefix p (p ++ l) = Some l.
Proof. induction p as [|a p IH]; simpl; [done|]. by rewrite Ascii.eqb_refl. Qed.

Lemma drop_group_none l : head l <> Some "("%char -> drop_prefix (chars "(?:.*/)?") l = None.
Proof.
  intros Hl. destruct l as [|c l]; [done|]. simpl.
  destruct c as [[] [] [] [] [] [] [] []]; try reflexivity; by destruct Hl.
Qed.

Lemma drop_dollar_app l : drop_dollar (l ++ chars "$") = Some l.
Proof. unfold drop_dollar. rewrite rev_app_distr. simpl. by rewrite rev_involutive. Qed.

Lemma parse_regex_source pattern :
  parse_regex (globToRegexSource pattern) =
  Some (negb (glob_split pattern).1, glob_atoms (glob_split pattern).2).
Proof.
  unfold parse_regex, globToRegexSource. destruct (glob_split pattern) as [anchor p]. cbn [fst snd].
  unfold chars at 2, text. rewrite String.list_ascii_of_string_of_list_ascii.
  destruct anchor.
  - rewrite drop_prefix_app. cbn [mbind option_bind]. rewrite drop_dollar_app.
    cbn [mbind option_bind].
    rewrite drop_group_none by apply glob_body_head. by rewrite parse_glob_body.
  - change (chars "^(?:.*/)?") with (chars "^" ++ chars "(?:.*/)?"). rewrite <- app_assoc.
    rewrite drop_prefix_app. cbn [mbind option_bind]. rewrite app_assoc, drop_dollar_app.
    cbn [mbind option_bind]. by rewrite drop_prefix_app, parse_glob_body.
Qed.

Lemma match_star_spec p k s :
  match_star p k s = true <->
  exists u v, s = u ++ v /\ Forall (fun c => p c = true) u /\ k v = true.
Proof.
  induction s as [|c s IH]; simpl; rewrite orb_true_iff.
  - split; [intros [H|H]; [by exists [], []|done]|].
    intros (u & v & E & _ & Hk). destruct u, v; try done. by left.
  - rewrite andb_true_iff, IH. split.
    + intros [H|[Hc (u & v & -> & Hu & Hv)]]; [by exists [], (c :: s)|].
      exists (c :: u), v. split; [done|]. split; [by constructor|done].
    + intros (u & v & E & Hu & Hv). destruct u as [|a u]; simpl in E; [subst; by left|].
      injection E as <- ->. inversion Hu; subst. right. split; [done|]. by exists u, v.
Qed.

Lemma dot_class u :
  Forall (fun c => negb (line_terminator c) = true) u <-> Forall (fun c => line_terminator c = false) u.
Proof. apply Forall_iff. intros c. apply negb_true_iff. Qed.

Lemma seg_class u : Forall (fun c => negb (Ascii.eqb c slash) = true) u <-> slash ∉ u.
Proof.
  rewrite Forall_forall. setoid_rewrite negb_true_iff. setoid_rewrite Ascii.eqb_neq.
  split; [by intros H Hin; apply (H slash)|by intros H c Hc ->].
Qed.

Lemma match_glob_atoms p s : match_atoms (glob_atoms p) s = true <-> glob_match p s.
Proof.
  revert s. induction p as [|p IH|p Hp IH|p Hp IH|p IH|c p Hs Hq IH] using glob_ind; intros s.
  - simpl. split; [destruct s; [constructor|done]|]. by inversion 1.
  - destruct (glob_eqs "a" p) as (_ & -> & _). simpl. rewrite match_star_spec.
    setoid_rewrite dot_class. setoid_rewrite IH. split.
    + intros (u & v & -> & Hu & Hv). by apply gm_dirs.
    + inversion 1; subst; try done; [by eexists _, _|by match goal with H : head _ <> _ |- _ => destruct H end..].
  - destruct (glob_eqs "a" p) as (_ & _ & H & _). destruct (H Hp) as [_ ->]. simpl.
    rewrite match_star_spec. setoid_rewrite dot_class. setoid_rewrite IH. split.
    + intros (u & v & -> & Hu & Hv). by apply gm_dstar.
    + inversion 1; subst; try done. by eexists _, _.
  - destruct (glob_eqs "a" p) as (_ & _ & _ & H & _). destruct (H Hp) as [_ ->]. simpl.
    rewrite match_star_spec. setoid_rewrite seg_class. setoid_rewrite IH. split.
    + intros (u & v & -> & Hu & Hv). by apply gm_star.
    + inversion 1; subst; try done. by eexists _, _.
  - destruct (glob_eqs "a" p) as (_ & _ & _ & _ & _ & -> & _). simpl. split.
    + destruct s as [|c s]; [done|]. rewrite andb_true_iff, negb_true_iff, Ascii.eqb_neq, IH.
      intros [? ?]. by apply gm_quest.
    + inversion 1; subst; try done. rewrite andb_true_iff, negb_true_iff, Ascii.eqb_neq, IH. done.
  - destruct (glob_eqs c p) as (_ & _ & _ & _ & _ & _ & H). destruct (H Hs Hq) as [_ ->]. simpl. split.
    + destruct s as [|d s]; [done|]. rewrite andb_true_iff, Ascii.eqb_eq, IH.
      intros [-> ?]. by apply gm_lit.
    + inversion 1; subst; try done. rewrite Ascii.eqb_refl. by apply IH.
Qed.

Lemma match_anywhere p s :
  match_atoms (ADotStar :: ALit slash :: glob_atoms p) s = true <->
  exists u v, s = u ++ slash :: v /\ Forall (fun c => line_terminator c = false) u /\ glob_match p v.
Proof.
  cbn [match_atoms]. rewrite match_star_spec. setoid_rewrite dot_class. split.
  - intros (u & v & -> & Hu & Hv). destruct v as [|c v]; [done|].
    apply andb_true_iff in Hv as [Hc%Ascii.eqb_eq Hv%match_glob_atoms]. subst c. by exists u, v.
  - intros (u & v & -> & Hu & Hv%match_glob_atoms). exists u, (slash :: v).
    split; [done|]. split; [done|]. by rewrite Ascii.eqb_refl.
Qed.

Lemma matchesGlob_total path pattern : matchesGlob path pattern = Some (matches path pattern).
Proof. unfold matches, matchesGlob. by rewrite parse_regex_source. Qed.

Lemma matches_spec path pattern : matches path pattern = true <-> path_matches (chars path) pattern.
Proof.
  unfold matches, matchesGlob, path_matches. rewrite parse_regex_source. simpl.
  destruct (glob_split pattern) as [anchor p]. unfold regex_test. cbn [fst snd].
  rewrite orb_true_iff, andb_true_iff, negb_true_iff, match_glob_atoms, match_anywhere. done.
Qed.

(** Which filters speak about a path, and what the last of them says. *)
Definition filter_matches (path f : string) : bool :=
  if starts_with "!" f then filterMatchesGlob path (slice1 f) else filterMatchesGlob path f.

Lemma fold_filter path fs b :
  fold_left (filter_step path) fs b =
  match last (filter (fun f => filter_matches path f = true) fs) with
  | Some f => negb (starts_with "!" f)
  | None => b
  end.
Proof.
  induction fs as [|f fs IH] using rev_ind; [done|].
  rewrite fold_left_app, filter_app. simpl. rewrite IH. unfold filter_step at 1, filter_matches at 2.
  destruct (starts_with "!" f) eqn:Ef.
  - destruct (filterMatchesGlob path (slice1 f)) eqn:Em.
    + rewrite filter_cons_True by (unfold filter_matches; by rewrite Ef, Em).
      by rewrite filter_nil, last_snoc, Ef.
    + rewrite filter_cons_False by (unfold filter_matches; rewrite Ef, Em; done).
      by rewrite filter_nil, app_nil_r.
  - destruct (filterMatchesGlob path f) eqn:Em.
    + rewrite filter_cons_True by (unfold filter_matches; by rewrite Ef, Em).
      by rewrite filter_nil, last_snoc, Ef.
    + rewrite filter_cons_False by (unfold filter_matches; rewrite Ef, Em; done).
      by rewrite filter_nil, app_nil_r.
Qed.

(** * Properties *)

(** The translation is right.  For every pattern the source text the code
    builds is a well-formed regular expression of the fragment (so the compile
    never throws and no character of the pattern is taken for an operator), and
    it matches exactly the paths the glob denotes, anchored at the root when the
    pattern starts with a slash and after any slash otherwise. *)
Theorem matchesGlob_denotes path pattern :
  exists b, matchesGlob path pattern = Some b /\ (b = true <-> path_matches (chars path) pattern).
Proof. exists (matches path pattern). split; [apply matchesGlob_total|apply matches_spec]. Qed.

(** Last match wins.  [filterReviewPaths] returns a subsequence of the
    paths; a path is kept exactly when the last filter that matches it is an
    include, or when none matches and the filters are all excludes; without
    filters every path is kept. *)
Theorem filterReviewPaths_last_match paths fs :
  filterReviewPaths paths fs `sublist_of` paths /\
  forall p, p ∈ filterReviewPaths paths fs <-> p ∈ paths /\
    match last (filter (fun f => filter_matches p f = true) fs) with
    | Some f => starts_with "!" f = false
    | None => forall f, f ∈ fs -> starts_with "!" f = true
    end.
Proof.
  unfold filterReviewPaths. destruct fs as [|f0 fs'] eqn:Efs.
  { split; [done|]. intros p. simpl. split; [|tauto]. intros Hp. split; [done|].
    intros f Hf. by apply elem_of_nil in Hf. }
  rewrite <- Efs. clear. split; [apply sublist_filter|]. intros p.
  rewrite list_elem_of_filter, (Logic.and_comm (path_included fs p = true)). apply and_iff_compat_l.
  unfold path_included. rewrite fold_filter.
  destruct (last _) as [f|]; [by rewrite negb_true_iff|].
  rewrite negb_true_iff. split.
  - intros He f Hf. apply not_false_iff_true. intros Hs.
    assert (existsb (fun f => negb (starts_with "!" f)) fs = true); [|congruence].
    apply existsb_exists. exists f. rewrite Hs. split; [by apply list_elem_of_In|done].
  - intros H. apply not_true_iff_false. intros (f & Hf & Hn)%existsb_exists.
    rewrite H in Hn by (by apply list_elem_of_In). done.
Qed.

(** [**] is not confined to whole segments, although the module's comment says
    that it matches zero or more path segments. *)
Lemma doublestar_within_segment : matchesGlob "src/mytest.ts" "/src/**/test.ts" = Some true.
Proof. reflexivity. Qed.
