(* ===== verification/PipelineHelpers.v ===== *)
(** [review/pipeline/helpers.ts], [state.ts] (the degradation collector),
    [policy/system_invariants.ts], [policy/trust_filter.ts],
    [policy/citation_context_builder.ts] and the pure parts of [posting.ts] and
    [retrieval_query.ts]: the functions without effects that the review
    pipeline is put together from.  Strings are byte strings: the slices count
    bytes where JavaScript counts UTF-16 units. *)
From stdpp Require Import base gmap sets list strings.
From Stdlib Require Import ZArith QArith Lia Ascii Sorting.Sorted.
From S2P Require Import Prelude Findings.
Local Open Scope nat_scope.

(** * Degradation notes *)

(** [DegradationCollector.add] on the list of notes. *)
Definition add_note (notes : list string) (note : string) : list string :=
  if existsb (String.eqb note) notes then notes else notes ++ [note].

(** The loop of [composeOrchestratorDegradationNote]: [seen] and [deduped]
    hold the same strings. *)
Definition compose_step (deduped : list string) (n : string) : list string :=
  let nClean := JsString.trim n in
  if String.eqb nClean "" || existsb (String.eqb nClean) deduped then deduped
  else deduped ++ [nClean].

Definition composeOrchestratorDegradationNote (notes : list string) (priorNote : option string)
    : option string :=
  match fold_left compose_step notes [] with
  | [] => priorNote
  | deduped =>
      let composed := ("pipeline degraded: " +:+ JsString.join ", " deduped)%string in
      match priorNote with
      | Some p => if String.eqb p "" then Some composed else Some (p +:+ "; " +:+ composed)%string
      | None => Some composed
      end
  end.

(** * Outcomes of the publication *)

Inductive PublicationOutcome := inline_posted | body_only_posted | degraded_unposted.

Definition stageOutcomeForPublication (outcome : option PublicationOutcome) : string :=
  match outcome with
  | None | Some inline_posted => "ok"
  | Some _ => "fallback"
  end.

Definition fixPromptStageOutcome (generated : bool) (generationMode : string) : string :=
  if negb generated then "skipped"
  else if String.eqb generationMode "llm" then "ok" else "fallback".

Definition resolveDegradedPayload {A} (outcome : option PublicationOutcome) (keptRfids : list A)
    : list A * option string :=
  match outcome with
  | Some body_only_posted => (keptRfids, Some "body_only_fallback")
  | Some degraded_unposted => (keptRfids, Some "failed")
  | _ => ([], None)
  end.

(** * Notices *)

(** The aggregated findings of a review ([AggregatedFindingsV1]). *)
Record dedupe_counts := DedupeCounts {
  dc_input : nat; dc_exact : nat; dc_semantic : nat; dc_capped : nat; dc_skipped : bool;
}.

Record aggregated := Aggregated {
  a_findings : list finding;
  a_stats : dedupe_counts;
  a_policy_revision : Z;
}.

Definition with_findings (a : aggregated) (l : list finding) : aggregated :=
  Aggregated l (a_stats a) (a_policy_revision a).

Definition CONFIG_YAML_PATH : string := ".codemaster.yaml".
Definition CONFIG_NOTICE_TITLE : string := "codemaster: this PR modifies .codemaster.yaml".
Definition MALFORMED_CONFIG_TITLE : string :=
  "codemaster: .codemaster.yaml is malformed and was ignored".
Definition EXCLUDED_ALL_TITLE : string := "codemaster: 0 files reviewed (path_filters)".

(** The fields the three notices share, with the defaults of the contract for
    the fields they omit. *)
Definition notice (t b : string) : finding :=
  Finding CONFIG_YAML_PATH 1 1 suggestion config t b None (99 # 100) [] chunk_observed [].

Definition configChangeNoticeFinding : finding :=
  notice CONFIG_NOTICE_TITLE
    ("This PR modifies `.codemaster.yaml` (review settings). Confirm " +:+
     "the change is intended; settings in this file affect how " +:+
     "codemaster reviews this and future PRs.").

Definition malformedConfigNoticeFinding : finding :=
  notice MALFORMED_CONFIG_TITLE
    ("Your `.codemaster.yaml` could not be parsed or validated, so codemaster ignored it and " +:+
     "reviewed this PR with the defaults. Any opt-outs, path filters, or thresholds in the " +:+
     "file are NOT currently in effect " +:+ String.string_of_list_ascii
        [ascii_of_nat 226; ascii_of_nat 128; ascii_of_nat 148] +:+
     " fix the file to restore them.").

Definition pathFiltersExcludedAllFinding : finding :=
  notice EXCLUDED_ALL_TITLE
    ("codemaster reviewed 0 files: `path_filters` in .codemaster.yaml " +:+
     "excluded all changed files. Adjust path_filters if this is " +:+
     "unintended.").

(** [hasConfigNotice] and [hasMalformedConfigNotice]. *)
Definition has_notice (t : string) (l : list finding) : bool :=
  existsb (fun f => String.eqb (f_file f) CONFIG_YAML_PATH &&
    bool_decide (category f = config) && String.eqb (title f) t) l.

Definition maybeAppendConfigNotice (a : aggregated) (changedPaths : list string) : aggregated :=
  if negb (existsb (String.eqb CONFIG_YAML_PATH) changedPaths) then a
  else if has_notice CONFIG_NOTICE_TITLE (a_findings a) then a
  else with_findings a (a_findings a ++ [configChangeNoticeFinding]).

Inductive config_status := cs_absent | cs_valid | cs_malformed.

Definition maybeAppendMalformedConfigNotice (a : aggregated) (st : config_status) : aggregated :=
  match st with
  | cs_malformed =>
      if has_notice MALFORMED_CONFIG_TITLE (a_findings a) then a
      else with_findings a (a_findings a ++ [malformedConfigNoticeFinding])
  | _ => a
  end.

(** * The topology tag of a path *)

Definition DOC_SUFFIXES : list string := [".md"; ".rst"; ".txt"].
Definition CONFIG_SUFFIXES : list string := [".yaml"; ".yml"; ".toml"; ".json"; ".ini"; ".cfg"].
Definition CODE_SUFFIXES : list string :=
  [".py"; ".ts"; ".tsx"; ".js"; ".jsx"; ".go"; ".rs"; ".java"].

Definition inferPrTopologyKind (path : string) : string :=
  let lower := JsString.to_lower path in
  let ends l := existsb (fun s => JsString.ends_with s lower) l in
  if JsString.includes "/test" lower || JsString.starts_with "test" lower
     || JsString.includes "test_" lower then "test"
  else if ends DOC_SUFFIXES then "doc"
  else if ends CONFIG_SUFFIXES || JsString.starts_with "." lower
          || JsString.ends_with ".dockerfile" lower then "config"
  else if ends CODE_SUFFIXES then "code" else "other".

(** * The retrieval query *)

Definition RETRIEVAL_QUERY_MAX : nat := Z.to_nat 8000.
Definition DESCRIPTION_CAP : nat := Z.to_nat 2000.

Definition newline : string := String (ascii_of_nat 10) "".

Definition buildRetrievalQueryText (prTitle prDescription chunkPath chunkBody : string) : string :=
  let parts := filter (fun p => p <> "")
    [JsString.trim prTitle; JsString.left DESCRIPTION_CAP (JsString.trim prDescription);
     JsString.trim chunkPath; JsString.trim chunkBody] in
  let joined := JsString.left RETRIEVAL_QUERY_MAX (JsString.join newline parts) in
  if String.eqb joined "" then chunkPath else joined.

(** * Guidance bundles *)

(** [DedupedRuleV1]: the rule id, and the rest of the rule. *)
Record rule := Rule_ { rule_id : string; rule_rest : string }.

Record bundle := Bundle {
  changed_path : string;
  applicable_rules : list rule;
  resolution_explanation : list string;
}.

(** One bundle of the loop of [mergePerChunkBundles]: the set of seen ids and
    the merged pairs. *)
Definition merge_pair (st : list string * list (rule * string)) (p : rule * string)
    : list string * list (rule * string) :=
  let (seen, merged) := st in
  if existsb (String.eqb (rule_id p.1)) seen then st
  else (rule_id p.1 :: seen, merged ++ [p]).

Definition bundle_pairs (b : bundle) : list (rule * string) :=
  let explanations :=
    if (length (resolution_explanation b) =? length (applicable_rules b))%nat
    then resolution_explanation b else map (fun _ => ""%string) (applicable_rules b) in
  zip (applicable_rules b) explanations.

Definition pair_leb (a b : rule * string) : bool := str_leb (rule_id a.1) (rule_id b.1).

Definition mergePerChunkBundles (bundles : list bundle) : bundle :=
  let merged := (fold_left (fun st b => fold_left merge_pair (bundle_pairs b) st) bundles ([], [])).2 in
  let sorted := sort_by pair_leb merged in
  Bundle "*" (map fst sorted) (map snd sorted).

(** [buildPolicyCitationContext]: the distinct rule ids, sorted. *)
Definition add_id (ids : list string) (id : string) : list string :=
  if existsb (String.eqb id) ids then ids else ids ++ [id].

Definition buildPolicyCitationContext (bundles : list bundle) : list string :=
  sort_by str_leb
    (fold_left (fun ids b => fold_left add_id (map rule_id (applicable_rules b)) ids) bundles []).

(** * The post-filter *)

Definition SAFETY_FLOOR_SEVERITY : Severity := issue.

(** [enforceSeverityFloor]; the result's second part says whether a fresh
    object was returned, which is how the caller learns that the invariant
    fired. *)
Definition enforceSeverityFloor (f : finding) (categoryMustBe : Category) : finding * bool :=
  if negb (bool_decide (category f = categoryMustBe)) then (f, false)
  else if (severityRank SAFETY_FLOOR_SEVERITY <=? severityRank (severity f))%Z then (f, false)
  else (Finding (f_file f) (start_line f) (end_line f) SAFETY_FLOOR_SEVERITY (category f)
          (title f) (body f) (f_suggestion f) (confidence f) (sources f) (scope f)
          (evidence_refs f), true).

Definition enforceSecurityNonSuppressible (f : finding) (_ : bundle) : finding * bool :=
  enforceSeverityFloor f security.

Definition enforceSeverityGradingPlatformOwned (f : finding) (_ : bundle) : finding * bool :=
  if bool_decide (category f = security) then enforceSeverityFloor f security else (f, false).

Definition SI_001 : string := "SI-001-security-finding-non-suppressible".
Definition SI_005 : string := "SI-005-severity-grading-platform-owned".

Definition SYSTEM_INVARIANTS : list (string * (finding -> bundle -> finding * bool)) :=
  [(SI_001, enforceSecurityNonSuppressible); (SI_005, enforceSeverityGradingPlatformOwned)].

Record finding_policy_metadata := Meta {
  invariant_violation_attempted : bool;
  invariants_fired : list string;
}.

(** The inner loop over the registry; neither enforcement throws. *)
Definition enforce_step (b : bundle) (st : finding * list string)
    (inv : string * (finding -> bundle -> finding * bool)) : finding * list string :=
  let (current, fired) := st in
  let (next, changed) := inv.2 current b in
  (next, if changed then fired ++ [inv.1] else fired).

Definition enforce_all (b : bundle) (f : finding) : finding * finding_policy_metadata :=
  let (current, fired) := fold_left (enforce_step b) SYSTEM_INVARIANTS (f, []) in
  (current, Meta (negb (length fired =? 0)%nat) fired).

Definition postFilterFindingsWithMetadata (l : list finding) (b : bundle)
    : list finding * list finding_policy_metadata :=
  (map (fun f => (enforce_all b f).1) l, map (fun f => (enforce_all b f).2) l).

(** * Lemmas: notes *)

Lemma add_note_NoDup notes n : NoDup notes -> NoDup (add_note notes n).
Proof.
  unfold add_note. intros H. destruct (existsb (String.eqb n) notes) eqn:E; [done|].
  apply NoDup_app. split_and!; [done| |apply NoDup_singleton].
  intros x Hx ->%list_elem_of_singleton. apply existsb_eqb_elem in Hx. congruence.
Qed.

Lemma add_note_elem notes n x : x ∈ add_note notes n <-> x ∈ notes \/ x = n.
Proof.
  unfold add_note. destruct (existsb (String.eqb n) notes) eqn:E.
  - apply existsb_eqb_elem in E. naive_solver.
  - rewrite elem_of_app, list_elem_of_singleton. done.
Qed.

(** * Lemmas: the severity floor *)

Lemma enforceSeverityFloor_floor f :
  category f = security ->
  (severityRank issue <= severityRank (severity (enforceSeverityFloor f security).1))%Z.
Proof.
  intros Hc. unfold enforceSeverityFloor. rewrite bool_decide_eq_true_2 by done. simpl.
  destruct (severity f) eqn:E; simpl; rewrite ?E; simpl; lia.
Qed.

Lemma enforceSeverityFloor_fixed f c :
  (severityRank issue <= severityRank (severity f))%Z -> enforceSeverityFloor f c = (f, false).
Proof.
  intros H. unfold enforceSeverityFloor, SAFETY_FLOOR_SEVERITY.
  destruct (negb _); [done|]. by apply Z.leb_le in H as ->.
Qed.

Lemma enforceSeverityFloor_category f c : category (enforceSeverityFloor f c).1 = category f.
Proof. unfold enforceSeverityFloor. destruct (negb _); [done|]. by destruct (_ <=? _)%Z. Qed.

(** The registry as a whole: the floor of the security findings, reported as
    SI-001; SI-005 finds nothing left to do. *)
Lemma enforce_all_floor b f :
  enforce_all b f = ((enforceSeverityFloor f security).1,
    if (enforceSeverityFloor f security).2 then Meta true [SI_001] else Meta false []).
Proof.
  unfold enforce_all, SYSTEM_INVARIANTS. simpl.
  unfold enforceSecurityNonSuppressible, enforceSeverityGradingPlatformOwned.
  destruct (decide (category f = security)) as [Hc|Hc].
  - pose proof (enforceSeverityFloor_floor f Hc) as Hfl.
    pose proof (enforceSeverityFloor_category f security) as Hcat.
    destruct (enforceSeverityFloor f security) as [g ch]. simpl in *.
    rewrite bool_decide_eq_true_2 by congruence.
    rewrite enforceSeverityFloor_fixed by done. by destruct ch.
  - unfold enforceSeverityFloor. rewrite !(bool_decide_eq_false_2 (category f = security)) by done.
    simpl. by rewrite bool_decide_eq_false_2 by done.
Qed.

Lemma postFilter_length l b :
  length (postFilterFindingsWithMetadata l b).1 = length l /\
  length (postFilterFindingsWithMetadata l b).2 = length l.
Proof. simpl. by rewrite !length_map. Qed.

(** * Properties *)

(** The post-filter puts every security finding at [issue] or above and
    touches nothing else: each finding of the result is the finding of the same
    position with its severity raised exactly when its category is security and
    its severity is below [issue].  The metadata of a raised finding names
    SI-001 alone, and that of every other finding names nothing. *)
Theorem postFilter_floors l b i f :
  l !! i = Some f ->
  exists g m,
    (postFilterFindingsWithMetadata l b).1 !! i = Some g /\
    (postFilterFindingsWithMetadata l b).2 !! i = Some m /\
    (category g = security -> (severityRank issue <= severityRank (severity g))%Z) /\
    (category f = security /\ (severityRank (severity f) < severityRank issue)%Z ->
       severity g = issue /\ m = Meta true [SI_001]) /\
    (~ (category f = security /\ (severityRank (severity f) < severityRank issue)%Z) ->
       g = f /\ m = Meta false []) /\
    (f_file g, start_line g, end_line g, category g, title g, body g, confidence g)
      = (f_file f, start_line f, end_line f, category f, title f, body f, confidence f).
Proof.
  intros Hf. exists (enforce_all b f).1, (enforce_all b f).2.
  unfold postFilterFindingsWithMetadata. cbn [fst snd].
  change (@map) with (@fmap list _). rewrite !list_lookup_fmap, Hf.
  pose proof (enforceSeverityFloor_category f security) as Hcat.
  cbn [fst snd fmap option_fmap option_map]. rewrite enforce_all_floor. cbn [fst snd].
  do 2 (split; [done|]). split; [intros Hg; apply enforceSeverityFloor_floor; congruence|].
  clear Hcat. unfold enforceSeverityFloor, SAFETY_FLOOR_SEVERITY.
  destruct (bool_decide_reflect (category f = security)) as [Hc|Hc]; cbn [negb fst snd];
    [|split_and!; [tauto|done|done]].
  destruct (Z.leb_spec (severityRank issue) (severityRank (severity f))); cbn [fst snd];
    (split; [|split; [|done]]); first [done | lia | tauto | intros [? ?]; lia].
Qed.

Example compose_notes :
  composeOrchestratorDegradationNote [" a "; ""; "b"; "a"] (Some "prior")
    = Some "prior; pipeline degraded: a, b"%string.
Proof. reflexivity. Qed.

Example topology_kinds :
  map inferPrTopologyKind ["TESTING.md"; "docs/a.MD"; ".eslintrc"; "src/a.ts"; "bin/x"]
    = ["test"; "doc"; "config"; "code"; "other"]%string.
Proof. reflexivity. Qed.

(** A security finding below the floor. *)
Definition low_security : finding :=
  Finding "src/login.ts" 3 4 suggestion security "token in url" "move it" None (8 # 10) []
    chunk_observed [].

Lemma postFilter_floors_witness :
  exists g m,
    (postFilterFindingsWithMetadata [malformedConfigNoticeFinding; low_security]
       (Bundle "*" [] [])).1 !! 1%nat = Some g /\
    (postFilterFindingsWithMetadata [malformedConfigNoticeFinding; low_security]
       (Bundle "*" [] [])).2 !! 1%nat = Some m /\
    severity g = issue /\ m = Meta true [SI_001].
Proof.
  destruct (postFilter_floors [malformedConfigNoticeFinding; low_security]
    (Bundle "*" [] []) 1 low_security) as (g & m & Hg & Hm & _ & H & _); [reflexivity|].
  exists g, m. destruct H as [H1 H2]; [split; [reflexivity | reflexivity] |].
  exact (conj Hg (conj Hm (conj H1 H2))).
Defined.
