(* ===== verification/Degradation.v ===== *)
(** [review/pipeline/degradation.ts], with what a run of the review pipeline
    does to the outside: the dispatches of [activity_ports.ts] as a type of
    calls, each with the type of its reply, and the monad in which the pipeline
    runs.  A run appends every dispatch to a trace together with the error it
    was answered with, if any; the answer to a call is given by an oracle that
    sees the trace so far, so that a port may behave differently each time. *)
From Stdlib Require Import SpecFloat.
From stdpp Require Import base gmap sets list strings.
From Stdlib Require Import ZArith QArith Lia Sorting.Sorted.
From S2P Require Import Prelude Retry Findings FanOut Arbitration PathMatch PipelineHelpers.
Local Open Scope nat_scope.

(** * The values that cross the ports *)

(** [DiffChunkV1]. *)
Record dchunk := DChunk {
  dc_id : string; dc_path : string; dc_start : Z; dc_end : Z; dc_body : string;
}.

(** The part of [CodemasterConfigV1] the pipeline reads. *)
Record repo_config := RepoConfig {
  path_filters : list string;
  path_instructions : list path_instruction;
  knowledge_enabled : bool;
  file_patterns : list string;
}.

Record file_routing := FileRouting {
  review_files : list string; sandbox_files : list string; classifier_failures : list string;
}.

Record tool_status := ToolStatus { tool_name : string; tool_state : string }.

(** [StaticAnalysisResultV1]; the two objects are lists of entries. *)
Record static_analysis := StaticAnalysis {
  sa_findings : list finding;
  per_tool_errors : list (string * string);
  truncated_per_tool : list (string * nat);
  tier1_findings : list tier1_finding;
  tool_statuses : list tool_status;
}.

Record selection := Selection { carried : list finding; to_review : list dchunk }.

Record knowledge_chunk := Knowledge { kc_id : string; kc_text : string }.

Record retrieve_result := RetrieveResult {
  items : list knowledge_chunk; rr_degraded : bool; rr_reason : string;
}.

Definition vector := list spec_float.

Record topology_entry := Topology {
  te_id : string; te_path : string; te_start : Z; te_end : Z; te_kind : string;
}.

(** [ChunkThreadingV1]. *)
Record threading := Threading {
  th_tier1 : list tier1_finding;
  th_statuses : list tool_status;
  th_manifest : list topology_entry;
}.

(** The fields of [ReviewContextV1] that differ between chunks or reviews. *)
Record review_context := ReviewContext {
  rc_chunk : dchunk;
  rc_policy_revision : Z;
  rc_instructions : list path_instruction;
  rc_config : repo_config;
  rc_knowledge : list knowledge_chunk;
  rc_degraded : bool;
  rc_reason : string;
  rc_policy : option bundle;
  rc_threading : threading;
  rc_evidence : list string;
}.

(** [ReviewChunkResponseV1]; the event is the text it carries. *)
Record chunk_response := ChunkResponse {
  cr_findings : list finding; cr_intents : list intent; cr_event : option string;
}.

Record walkthrough := Walkthrough { w_tldr : string; w_event : option string; w_text : string }.

Record dropped_classification := Dropped { dr_index : Z; dr_reason : string }.

Record posted_review := PostedReview {
  p_review_id : option Z;
  p_comment_ids : list Z;
  p_kept : list Z;
  p_outcome : PublicationOutcome;
  p_notes : list string;
  p_dropped : list dropped_classification;
}.

(** [ClonedRepoV1]. *)
Record cloned_repo := Cloned { workspace_path : string; repo_path : option string }.

Record corpus_probe := Probe { has_repo_knowledge : bool; has_confluence_knowledge : bool }.

(** * The dispatches *)

(** The places of [orchestrate] where the claim is checked. *)
Inductive boundary := before_clone | before_classify | before_advisory | before_aggregate | before_post.
#[export] Instance boundary_eq_dec : EqDecision boundary.
Proof. solve_decision. Defined.

(** [LifecycleBundle] of [review_job_shell.ts]: what the shell around a review
    dispatches itself.  An rfid is [None] where the code reads past its array. *)
Inductive shell_call :=
| s_postReviewPlaceholder
| s_enrichPrFilesV2
| s_allocateWorkspace
| s_analysisStarted
| s_fetchLinkedIssues
| s_fetchSuggestedReviewers
| s_fetchManifestSnapshots (paths : list string)
| s_parseManifestDependencies (manifests : list string)
| s_loadParentReviewFindings
| s_recordDeliveryFinalized (rfids : list (option string)) (comment_ids : list Z) (posted_pr : string)
| s_recordDeliverySkipped (rfids : list (option string)) (reasons : list string) (posted_pr : string)
| s_recordDeliveryDegraded (rfids : list (option string)) (outcome posted_pr : string)
| s_analyzed (findings : nat) (outcome : option PublicationOutcome) (publication pipeline : list string)
| s_finalizeReviewRun
| s_releasePrReviewMutex (mutex_id : string)
| s_releaseWorkspace (workspace_id : string).

(** The answers that no branch reads are [unit]. *)
Definition shell_reply (s : shell_call) : Type :=
  match s with
  | s_enrichPrFilesV2 => list string
  | s_allocateWorkspace => string
  | s_fetchManifestSnapshots _ | s_parseManifestDependencies _ => list string
  | s_loadParentReviewFindings => list finding * option string
  | _ => unit
  end.

(** [ReviewActivityPorts], and the two callbacks of the context.  A call keeps
    the part of its input that varies during a review. *)
Inductive call :=
| c_claimCheck (b : boundary)
| c_clone (changed : list string)
| c_loadRepoConfig (root : string)
| c_computePolicyRules (root : string) (patterns : list string) (enabled : bool) (changed : list string)
| c_classify (root : string) (files : list string)
| c_chunkAndRedact (root : string) (files : list string)
| c_staticAnalysis (root : string) (files : list string)
| c_selectCarryForward (parents : list finding) (chunks : list dchunk) (parent : option string)
| c_probeKnowledgeCorpus
| c_embedQuery (query : string)
| c_retrieveKnowledge (query : string) (override : option vector)
| c_buildRetrievedEvidence (c : dchunk) (l : list knowledge_chunk) (t : threading)
| c_reviewChunk (rc : review_context)
| c_emitOutputSafetyAudit (event : string)
| c_dedupFindings (linter llm : list finding)
| c_aggregate (l : list finding) (revision : Z)
| c_citationValidate (root : string) (l : list finding) (ids : option (list string)) (rules : list string)
| c_persistReviewFindings (a : aggregated) (meta : option (list finding_policy_metadata))
| c_applyArbitration (tier1 : list tier1_finding) (tier2 : list (string * finding))
    (ids : list string) (intents : list intent)
| c_recordToolRuns (l : list tool_status)
| c_generateWalkthrough (a : aggregated)
| c_persistReviewWalkthrough (w : walkthrough)
| c_postReview (a : aggregated) (w : walkthrough) (footer : option arb_result) (l : list tool_status)
| c_postCheckRun (summary : string)
| c_recordDeliverySkipped (rfids reasons : list string) (posted_pr : string)
| c_updatePrDescriptionSummary (a : aggregated)
| c_generateFixPrompt (a : aggregated)
| c_placeholderTeardown
| c_cleanup (workspace_id : string)
| c_shell (s : shell_call).

Definition reply (c : call) : Type :=
  match c with
  | c_clone _ => cloned_repo
  | c_loadRepoConfig _ => repo_config * config_status
  | c_computePolicyRules _ _ _ _ => list (string * bundle)
  | c_classify _ _ => file_routing
  | c_chunkAndRedact _ _ => list dchunk
  | c_staticAnalysis _ _ => static_analysis
  | c_selectCarryForward _ _ _ => selection
  | c_probeKnowledgeCorpus => corpus_probe
  | c_embedQuery _ => vector
  | c_retrieveKnowledge _ _ => retrieve_result
  | c_buildRetrievedEvidence _ _ _ => list string
  | c_reviewChunk _ => chunk_response
  | c_dedupFindings _ _ => list finding * bool
  | c_aggregate _ _ => aggregated
  | c_citationValidate _ _ _ _ => list finding * list finding
  | c_persistReviewFindings _ _ => list string
  | c_applyArbitration _ _ _ _ => arb_result
  | c_generateWalkthrough _ => walkthrough
  | c_postReview _ _ _ _ => posted_review
  | c_generateFixPrompt _ => bool * string
  | c_shell s => shell_reply s
  | _ => unit
  end.

(** A dispatch, and the error it was answered with. *)
Record event := Event { ev_call : call; ev_error : option js_error }.

Definition oracle := list event -> forall c : call, result js_error (reply c).

(** * The state of a review *)

Record post_capture := PostCapture {
  pc_review_id : option Z;
  pc_comment_ids : list Z;
  pc_pr_id : option string;
  pc_kept : list Z;
  pc_outcome : option PublicationOutcome;
  pc_notes : list string;
  pc_dropped : list dropped_classification;
}.

Definition makePostReviewCapture : post_capture := PostCapture None [] None [] None [] [].

(** [ReviewWorkflowState]; a [Map] lists its entries in insertion order. *)
Record review_state := ReviewState {
  policyBundles : list (string * bundle);
  queryVectorCache : gmap string vector;
  retrievalShortCircuit : option bool;
  retrievalResultCache : gmap string retrieve_result;
  retrievedKnowledgeChunkIds : gset string;
  degradation : list string;
  repoConfig : repo_config;
  repoConfigStatus : config_status;
  inlinePostFilterMetadata : option (list finding_policy_metadata);
  postedReview : post_capture;
  arbitration_result : option arb_result;
  arbitration_statuses : list tool_status;
  persistedFindingIds : list string;
}.

(** What a run changes: the review's state, the dispatches made, and the
    counts recorded by [recordStage]. *)
Record world := World {
  st : review_state;
  trace : list event;
  stages : list (string * string);
}.

(** * The monad *)

Definition M (A : Type) : Type := world -> result js_error A * world.

Definition ret {A} (a : A) : M A := fun w => (Ok a, w).
Definition throw {A} (e : js_error) : M A := fun w => (Throw e, w).
Definition bind {A B} (m : M A) (k : A -> M B) : M B :=
  fun w => match m w with
           | (Ok a, w') => k a w'
           | (Throw e, w') => (Throw e, w')
           end.
Notation "'let!' x ':=' m 'in' k" := (bind m (fun x => k))
  (at level 10, x pattern, m at level 100, k at level 200) : codemaster_scope.

(** The settled outcome of [m] as a value ([Promise.allSettled], [catch]). *)
Definition settle {A} (m : M A) : M (result js_error A) := fun w => let (r, w') := m w in (Ok r, w').
Definition of_result {A} (r : result js_error A) : M A := fun w => (r, w).

Definition gets {A} (g : review_state -> A) : M A := fun w => (Ok (g (st w)), w).
Definition modify (g : review_state -> review_state) : M unit :=
  fun w => (Ok tt, World (g (st w)) (trace w) (stages w)).

(** One awaited dispatch. *)
Definition dispatch (orc : oracle) (c : call) : M (reply c) :=
  fun w =>
    let r := orc (trace w) c in
    (r, World (st w) (trace w ++ [Event c (match r with Ok _ => None | Throw e => Some e end)])
          (stages w)).

(** [if (port !== undefined) await ...]. *)
Definition when (b : bool) (m : M unit) : M unit := if b then m else ret tt.

Definition set_degradation (notes : list string) (s : review_state) : review_state :=
  ReviewState (policyBundles s) (queryVectorCache s) (retrievalShortCircuit s)
    (retrievalResultCache s) (retrievedKnowledgeChunkIds s) notes (repoConfig s)
    (repoConfigStatus s) (inlinePostFilterMetadata s) (postedReview s)
    (arbitration_result s) (arbitration_statuses s) (persistedFindingIds s).

(** [state.degradation.add]. *)
Definition add (note : string) : M unit :=
  modify (fun s => set_degradation (add_note (degradation s) note) s).

(** * recordStage and stageOutcome *)

Definition STAGE_NAMES : list string :=
  ["allocate_workspace"; "clone"; "classify"; "chunk_and_redact"; "static_analysis";
   "select_carry_forward"; "review_chunk"; "aggregate"; "walkthrough"; "post_review";
   "post_check_run"; "update_pr_description"; "enrich_pr_files"; "fetch_linked_issues";
   "fetch_suggested_reviewers"; "retrieve_knowledge"; "embed_query"; "persist_findings";
   "citation_validate"; "cleanup"; "apply_arbitration"; "record_tool_runs";
   "post_review_placeholder"; "delete_review_placeholder"; "policy_compute";
   "policy_post_filter"; "lifecycle_bookkeeping"; "load_repo_config"; "persist_walkthrough";
   "fix_prompt"; "fetch_manifest_snapshots"; "parse_manifest_dependencies";
   "load_parent_review_findings"; "dedup"; "probe_knowledge_corpus"].

Definition OUTCOMES : list string := ["ok"; "error"; "fallback"; "skipped"].

Definition plain_error (msg : string) : js_error := JsError true "Error" msg None None None.

Definition recordStage (stage outcome : string) : M unit :=
  fun w =>
    if existsb (String.eqb outcome) OUTCOMES
    then (Ok tt, World (st w) (trace w) (stages w ++ [(stage, outcome)]))
    else (Throw (plain_error "record_stage: invalid outcome"), w).

(** [StageOutcomeHandle]: the body reads and writes it. *)
Record handle := Handle { extraNotes : list string; suppressSuccessLog : bool }.

Definition body A := handle -> world -> result js_error A * handle * world.

(** A body that leaves its handle alone, and one that calls [skipOutcome]
    first. *)
Definition plain {A} (m : M A) : body A := fun h w => let (r, w') := m w in (r, h, w').
Definition skipping {A} (m : M A) : body A :=
  fun h w => let (r, w') := m w in (r, Handle (extraNotes h) true, w').

(** [options.degradationNotes?.push] of each note. *)
Definition push_notes (withNotes : bool) (notes : list string) : M unit :=
  if withNotes then modify (fun s => set_degradation (fold_left add_note notes (degradation s)) s)
  else ret tt.

Definition stageOutcome {A} (stage : string) (withNotes raiseAfterLog : bool) (b : body A)
    : M (option A) :=
  fun w =>
    if negb (existsb (String.eqb stage) STAGE_NAMES)
    then (Throw (plain_error "stageOutcome called with unknown stage"), w)
    else
      match b (Handle [] false) w with
      | (Throw exc, h, w1) =>
          if isCancellation exc then (Throw exc, w1)
          else
            (let! _ := recordStage stage "error" in
             let! _ := push_notes withNotes ((stage +:+ "_failed")%string :: extraNotes h) in
             if raiseAfterLog then throw exc else ret None) w1
      | (Ok a, h, w1) =>
          (let! _ := when (negb (suppressSuccessLog h)) (recordStage stage "ok") in
           let! _ := push_notes withNotes (extraNotes h) in
           ret (Some a)) w1
      end.

(** * Reasoning about runs *)

Lemma bind_run {A B} (m : M A) (k : A -> M B) w :
  bind m k w = match m w with (Ok a, w') => k a w' | (Throw e, w') => (Throw e, w') end.
Proof. done. Qed.

(** Every dispatch of [m] satisfies [P]. *)
Definition emits (P : event -> Prop) {A} (m : M A) : Prop :=
  forall w, exists l, trace (m w).2 = trace w ++ l /\ Forall P l.

(** [m] keeps the invariant [I]. *)
Definition preserves (I : world -> Prop) {A} (m : M A) : Prop := forall w, I w -> I (m w).2.

(** [m] returns. *)
Definition returns {A} (m : M A) : Prop := forall w, is_ok (m w).1 = true.

Section Judgements.
Context {A B : Type}.
Lemma emits_bind P (m : M A) (k : A -> M B) :
  emits P m -> (forall a, emits P (k a)) -> emits P (bind m k).
Proof.
  intros Hm Hk w. destruct (Hm w) as (l & E & Hl). unfold bind.
  destruct (m w) as [[a|e] w']; simpl in *; [|by exists l].
  destruct (Hk a w') as (l' & E' & Hl'). exists (l ++ l').
  by rewrite E', E, (assoc_L (++)), Forall_app.
Qed.

Lemma emits_quiet P (m : M A) : (forall w, trace (m w).2 = trace w) -> emits P m.
Proof. intros H w. exists []. by rewrite H, app_nil_r. Qed.

Lemma emits_weaken P Q (m : M A) : (forall e, P e -> Q e) -> emits P m -> emits Q m.
Proof. intros H Hm w. destruct (Hm w) as (l & E & Hl). exists l. split; [done|]. by eapply Forall_impl. Qed.

Lemma emits_settle P (m : M A) : emits P m -> emits P (settle m).
Proof. intros Hm w. unfold settle. specialize (Hm w). by destruct (m w). Qed.

Lemma preserves_bind I (m : M A) (k : A -> M B) :
  preserves I m -> (forall a, preserves I (k a)) -> preserves I (bind m k).
Proof.
  intros Hm Hk w Hw. specialize (Hm w Hw). unfold bind.
  destruct (m w) as [[a|e] w']; simpl in *; [by apply Hk|done].
Qed.

Lemma preserves_settle I (m : M A) : preserves I m -> preserves I (settle m).
Proof. intros Hm w Hw. specialize (Hm w Hw). unfold settle. by destruct (m w). Qed.

Lemma preserves_same I (m : M A) : (forall w, (m w).2 = w) -> preserves I m.
Proof. intros H w. by rewrite H. Qed.

Lemma returns_bind (m : M A) (k : A -> M B) :
  returns m -> (forall a, returns (k a)) -> returns (bind m k).
Proof.
  intros Hm Hk w. specialize (Hm w). unfold bind.
  destruct (m w) as [[a|e] w']; [apply Hk|done].
Qed.

Lemma returns_settle (m : M A) : returns (settle m).
Proof. intros w. unfold settle. by destruct (m w). Qed.
End Judgements.

Lemma emits_dispatch P orc c :
  (forall o, P (Event c o)) -> emits P (dispatch orc c).
Proof. intros H w. unfold dispatch. simpl. eexists. split; [done|]. by constructor. Qed.

Lemma emits_when P b m : emits P m -> emits P (when b m).
Proof. intros H. destruct b; [done|]. by apply emits_quiet. Qed.

Lemma emits_recordStage P stage o : emits P (recordStage stage o).
Proof. apply emits_quiet. intros w. unfold recordStage. by destruct (existsb _ _). Qed.

Lemma emits_push_notes P b l : emits P (push_notes b l).
Proof. apply emits_quiet. intros w. by destruct b. Qed.

(** A stage dispatches what its body does. *)
Lemma emits_stageOutcome {A} P stage n r (b : body A) :
  (forall h, emits P (fun w => let '(r, _, w') := b h w in (r, w'))) ->
  emits P (stageOutcome stage n r b).
Proof.
  intros Hb w. unfold stageOutcome.
  destruct (negb _); [exists []; by rewrite app_nil_r|].
  destruct (Hb (Handle [] false) w) as (l & E & Hl).
  destruct (b (Handle [] false) w) as [[[a|e] h] w1]; simpl in *.
  - destruct (emits_bind P (when (negb (suppressSuccessLog h)) (recordStage stage "ok"))
      (fun _ => let! _ := push_notes n (extraNotes h) in ret (Some a))
      ltac:(apply emits_when, emits_recordStage)
      ltac:(intros ?; apply emits_bind; [apply emits_push_notes|intros ?; by apply emits_quiet])
      w1) as (l' & E' & Hl').
    exists (l ++ l'). by rewrite E', E, (assoc_L (++)), Forall_app.
  - destruct (isCancellation e); [by exists l|].
    destruct (emits_bind P (recordStage stage "error")
      (fun _ => let! _ := push_notes n ((stage +:+ "_failed")%string :: extraNotes h) in
                if r then @throw (option A) e else ret None)
      ltac:(apply emits_recordStage)
      ltac:(intros ?; apply emits_bind; [apply emits_push_notes|intros ?; destruct r; by apply emits_quiet])
      w1) as (l' & E' & Hl').
    exists (l ++ l'). by rewrite E', E, (assoc_L (++)), Forall_app.
Qed.

Lemma emits_plain {A} P (m : M A) h :
  emits P m -> emits P (fun w => let '(r, _, w') := plain m h w in (r, w')).
Proof. intros H w. specialize (H w). unfold plain. by destruct (m w). Qed.

Lemma emits_skipping {A} P (m : M A) h :
  emits P m -> emits P (fun w => let '(r, _, w') := skipping m h w in (r, w')).
Proof. intros H w. specialize (H w). unfold skipping. by destruct (m w). Qed.

(** ** The notes tell every failed stage *)

(** The stages whose failure is only logged. *)
Definition SILENT_STAGES : list string :=
  ["embed_query"; "retrieve_knowledge"; "probe_knowledge_corpus"; "update_pr_description"; "fix_prompt"].

Record notes_inv (w : world) : Prop := NotesInv {
  ni_nodup : NoDup (degradation (st w));
  ni_noted s : (s, "error"%string) ∈ stages w -> s ∉ SILENT_STAGES ->
    (s +:+ "_failed")%string ∈ degradation (st w);
}.

Lemma notes_inv_add w note :
  notes_inv w ->
  notes_inv (World (set_degradation (add_note (degradation (st w)) note) (st w)) (trace w) (stages w)).
Proof.
  intros [Hn Hs]. split; simpl; [by apply add_note_NoDup|].
  intros s H1 H2. apply add_note_elem. left. by apply Hs.
Qed.

Lemma notes_inv_fold w l :
  notes_inv w ->
  notes_inv (World (set_degradation (fold_left add_note l (degradation (st w))) (st w))
               (trace w) (stages w)).
Proof.
  revert w. induction l as [|n l IH]; intros w Hw; simpl.
  - by destruct w as [[] ? ?].
  - specialize (IH _ (notes_inv_add w n Hw)). by destruct w as [[] ? ?].
Qed.

Lemma preserves_notes_modify g :
  (forall s, degradation (g s) = degradation s) -> preserves notes_inv (modify g).
Proof. intros H w [Hn Hs]. split; simpl; rewrite H; [done|by apply Hs]. Qed.

Lemma preserves_notes_add n : preserves notes_inv (add n).
Proof. intros w Hw. by apply notes_inv_add. Qed.

Lemma preserves_notes_push b l : preserves notes_inv (push_notes b l).
Proof. intros w Hw. destruct b; [by apply notes_inv_fold|done]. Qed.

Lemma preserves_notes_dispatch orc c : preserves notes_inv (dispatch orc c).
Proof. intros w [Hn Hs]. by split. Qed.

Lemma preserves_when I b m : preserves I m -> preserves I (when b m).
Proof. intros H. destruct b; [done|]. by apply preserves_same. Qed.

Lemma preserves_notes_record stage o :
  o <> "error"%string -> preserves notes_inv (recordStage stage o).
Proof.
  intros Ho w [Hn Hs]. unfold recordStage. destruct (existsb _ _); [|by split].
  split; simpl; [done|]. intros s Hin. apply Hs.
  apply elem_of_app in Hin as [Hin|Hin]; [done|]. apply list_elem_of_singleton in Hin. congruence.
Qed.

(** An error that is recorded is noted, or silent. *)
Lemma notes_inv_error w stage n l :
  notes_inv w -> n = true \/ stage ∈ SILENT_STAGES ->
  notes_inv (push_notes n ((stage +:+ "_failed")%string :: l)
               (World (st w) (trace w) (stages w ++ [(stage, "error"%string)]))).2.
Proof.
  intros [Hn Hs] Hst. unfold push_notes. destruct n; simpl.
  - apply (notes_inv_fold (World (set_degradation (add_note (degradation (st w)) (stage +:+ "_failed"))
      (st w)) (trace w) (stages w ++ [(stage, "error"%string)]))).
    split; simpl; [by apply add_note_NoDup|].
    intros s [Hin|Hin]%elem_of_app Hsil; apply add_note_elem; [left; by apply Hs|right].
    apply list_elem_of_singleton in Hin. congruence.
  - destruct Hst as [?|Hst]; [done|]. split; simpl; [done|].
    intros s [Hin|Hin]%elem_of_app Hsil; [by apply Hs|].
    apply list_elem_of_singleton in Hin. congruence.
Qed.

Lemma preserves_notes_stage {A} stage n r (b : body A) :
  n = true \/ stage ∈ SILENT_STAGES ->
  (forall h, preserves notes_inv (fun w => let '(r, _, w') := b h w in (r, w'))) ->
  preserves notes_inv (stageOutcome stage n r b).
Proof.
  intros Hst Hb w Hw. unfold stageOutcome. destruct (negb _); [done|].
  specialize (Hb (Handle [] false) w Hw). cbv beta in Hb.
  destruct (b (Handle [] false) w) as [[[a|e] h] w1] eqn:Eb; simpl in *.
  - apply (preserves_bind notes_inv); [|intros ?; apply preserves_bind|done].
    + by apply preserves_when, preserves_notes_record.
    + apply preserves_notes_push.
    + intros ?. by apply preserves_same.
  - destruct (isCancellation e); [done|]. unfold bind, recordStage. simpl.
    pose proof (notes_inv_error w1 stage n (extraNotes h) Hb Hst) as Hp.
    destruct (push_notes n _ _) as [[?|?] w2]; simpl in *; [|done]. by destruct r.
Qed.

Lemma preserves_plain {A} I (m : M A) h :
  preserves I m -> preserves I (fun w => let '(r, _, w') := plain m h w in (r, w')).
Proof. intros H w Hw. specialize (H w Hw). unfold plain. by destruct (m w). Qed.

Lemma preserves_skipping {A} I (m : M A) h :
  preserves I m -> preserves I (fun w => let '(r, _, w') := skipping m h w in (r, w')).
Proof. intros H w Hw. specialize (H w Hw). unfold skipping. by destruct (m w). Qed.

Lemma notes_stage_plain {A} stage n r (m : M A) :
  n = true \/ stage ∈ SILENT_STAGES -> preserves notes_inv m ->
  preserves notes_inv (stageOutcome stage n r (plain m)).
Proof. intros H Hm. apply preserves_notes_stage; [done|]. intros h. by apply preserves_plain. Qed.

Lemma notes_stage_skipping {A} stage n r (m : M A) :
  n = true \/ stage ∈ SILENT_STAGES -> preserves notes_inv m ->
  preserves notes_inv (stageOutcome stage n r (skipping m)).
Proof. intros H Hm. apply preserves_notes_stage; [done|]. intros h. by apply preserves_skipping. Qed.

(** ** What a stage leaves of its body *)

Lemma stageOutcome_trace {A} stage n r (m : M A) (b : body A) w :
  b = plain m \/ b = skipping m -> existsb (String.eqb stage) STAGE_NAMES = true ->
  trace (stageOutcome stage n r b w).2 = trace (m w).2.
Proof.
  intros Hb Hs. unfold stageOutcome. rewrite Hs. cbn [negb].
  destruct (m w) as [[a|e] w1] eqn:E.
  - assert (exists h, b (Handle [] false) w = (Ok a, h, w1)) as [h ->].
    { destruct Hb as [-> | ->]; unfold plain, skipping; rewrite E; eauto. }
    unfold bind, when, recordStage, push_notes. destruct (negb (suppressSuccessLog h)), n; done.
  - assert (exists h, b (Handle [] false) w = (Throw e, h, w1)) as [h ->].
    { destruct Hb as [-> | ->]; unfold plain, skipping; rewrite E; eauto. }
    destruct (isCancellation e); [done|]. unfold bind, push_notes. destruct n, r; done.
Qed.

(** A stage that swallows its failures returns unless it is cancelled. *)
Lemma stageOutcome_returns {A} stage n (m : M A) (b : body A) w :
  b = plain m \/ b = skipping m -> existsb (String.eqb stage) STAGE_NAMES = true ->
  match (m w).1 with Throw e => isCancellation e = false | Ok _ => True end ->
  (stageOutcome stage n false b w).1 =
    match (m w).1 with Ok a => Ok (Some a) | Throw _ => Ok None end.
Proof.
  intros Hb Hs Hm. unfold stageOutcome. rewrite Hs. cbn [negb].
  destruct (m w) as [[a|e] w1] eqn:E; cbn [fst] in *.
  - assert (exists h, b (Handle [] false) w = (Ok a, h, w1)) as [h ->].
    { destruct Hb as [-> | ->]; unfold plain, skipping; rewrite E; eauto. }
    unfold bind, when, recordStage, push_notes. destruct (negb (suppressSuccessLog h)), n; done.
  - assert (exists h, b (Handle [] false) w = (Throw e, h, w1)) as [h ->].
    { destruct Hb as [-> | ->]; unfold plain, skipping; rewrite E; eauto. }
    rewrite Hm. unfold bind, push_notes. destruct n; done.
Qed.

(** A stage that rethrows has the outcome of its body. *)
Lemma stageOutcome_raises {A} stage n (m : M A) w :
  existsb (String.eqb stage) STAGE_NAMES = true ->
  (stageOutcome stage n true (plain m) w).1 =
    match (m w).1 with Ok a => Ok (Some a) | Throw e => Throw e end.
Proof.
  intros Hs. unfold stageOutcome. rewrite Hs. cbn [negb]. unfold plain.
  destruct (m w) as [[a|e] w1]; cbn [fst].
  - unfold bind, when, recordStage, push_notes. destruct n; done.
  - destruct (isCancellation e); [done|]. unfold bind, push_notes. destruct n; done.
Qed.

(** ** The order of the stages *)

(** The positions of a call in the pipeline; the audit of a redaction belongs
    to the chunks and to the walkthrough. *)
Definition phases (c : call) : list nat :=
  match c with
  | c_claimCheck before_clone => [0] | c_clone _ => [1] | c_loadRepoConfig _ => [2]
  | c_computePolicyRules _ _ _ _ => [3] | c_claimCheck before_classify => [4]
  | c_classify _ _ => [5] | c_chunkAndRedact _ _ => [6] | c_staticAnalysis _ _ => [7]
  | c_selectCarryForward _ _ _ => [8] | c_probeKnowledgeCorpus => [9]
  | c_embedQuery _ | c_retrieveKnowledge _ _ | c_buildRetrievedEvidence _ _ _
  | c_reviewChunk _ => [10]
  | c_emitOutputSafetyAudit _ => [10; 19]
  | c_dedupFindings _ _ => [11] | c_claimCheck before_advisory => [12]
  | c_claimCheck before_aggregate => [12] | c_aggregate _ _ => [13]
  | c_citationValidate _ _ _ _ => [14] | c_persistReviewFindings _ _ => [15]
  | c_applyArbitration _ _ _ _ => [16] | c_recordToolRuns _ => [17]
  | c_generateWalkthrough _ => [18] | c_persistReviewWalkthrough _ => [20]
  | c_claimCheck before_post => [21] | c_postReview _ _ _ _ => [22] | c_postCheckRun _ => [23]
  | c_recordDeliverySkipped _ _ _ => [24] | c_updatePrDescriptionSummary _ => [24]
  | c_generateFixPrompt _ => [25] | c_placeholderTeardown => [26] | c_cleanup _ => [27]
  | c_shell _ => []
  end.

(** Only the position of the chunks is taken more than once. *)
Definition before (k k' : nat) : Prop := k < k' \/ (k = 10 /\ k' = 10).

Definition staged (lo hi : nat) {A} (m : M A) : Prop :=
  forall w, exists l ks, trace (m w).2 = trace w ++ l /\
    Forall2 (fun e k => k ∈ phases (ev_call e)) l ks /\
    StronglySorted before ks /\ Forall (fun k => lo <= k <= hi) ks.

Lemma before_app lo mid hi ks1 ks2 :
  StronglySorted before ks1 -> StronglySorted before ks2 ->
  Forall (fun k => lo <= k <= mid) ks1 -> Forall (fun k => S mid <= k <= hi) ks2 ->
  StronglySorted before (ks1 ++ ks2).
Proof.
  intros H1 H2 F1 F2. induction H1 as [|k ks1 H1 IH Hk]; simpl; [done|].
  apply Forall_cons in F1 as [Hk1 F1]. constructor; [by apply IH|].
  apply Forall_app. split; [done|]. eapply Forall_impl; [exact F2|].
  intros k' Hk'. simpl in *. left. lia.
Qed.

Lemma staged_bind {A B} mid lo hi (m : M A) (k : A -> M B) :
  lo <= S mid -> mid <= hi -> staged lo mid m -> (forall a, staged (S mid) hi (k a)) ->
  staged lo hi (bind m k).
Proof.
  intros Hlo Hhi Hm Hk w. destruct (Hm w) as (l & ks & E & HF & HS & HB). unfold bind.
  destruct (m w) as [[a|e] w']; simpl in *.
  - destruct (Hk a w') as (l' & ks' & E' & HF' & HS' & HB'). exists (l ++ l'), (ks ++ ks').
    split_and!; [by rewrite E', E, (assoc_L (++))|by apply Forall2_app|by eapply before_app|].
    apply Forall_app. split; (eapply Forall_impl; [eassumption|]); intros x; simpl; lia.
  - exists l, ks. split_and!; [done..|]. eapply Forall_impl; [eassumption|]. intros x; simpl; lia.
Qed.

Lemma staged_quiet {A} lo hi (m : M A) : (forall w, trace (m w).2 = trace w) -> staged lo hi m.
Proof. intros H w. exists [], []. rewrite H, app_nil_r. split_and!; constructor. Qed.

Lemma staged_then {A B} lo hi (m : M A) (k : A -> M B) :
  (forall w, trace (m w).2 = trace w) -> (forall a, staged lo hi (k a)) -> staged lo hi (bind m k).
Proof.
  intros Hm Hk w. specialize (Hm w). unfold bind. destruct (m w) as [[a|e] w']; simpl in *.
  - rewrite <- Hm. apply Hk.
  - exists [], []. rewrite Hm, app_nil_r. split_and!; constructor.
Qed.

Lemma staged_after {A B} lo hi (m : M A) (k : A -> M B) :
  staged lo hi m -> (forall a w, trace (k a w).2 = trace w) -> staged lo hi (bind m k).
Proof.
  intros Hm Hk w. specialize (Hm w). unfold bind. destruct (m w) as [[a|e] w']; simpl in *; [|done].
  by rewrite Hk.
Qed.

Lemma staged_dispatch orc lo hi k c :
  k ∈ phases c -> lo <= k <= hi -> staged lo hi (dispatch orc c).
Proof.
  intros Hp Hk w. eexists [_], [k]. unfold dispatch. simpl. split_and!; [done|by repeat constructor..|].
  by constructor.
Qed.

Lemma staged_trace {A B} lo hi (m : M A) (m' : M B) :
  (forall w, trace (m' w).2 = trace (m w).2) -> staged lo hi m -> staged lo hi m'.
Proof. intros H Hm w. rewrite H. apply Hm. Qed.

Lemma staged_weaken {A} lo hi lo' hi' (m : M A) :
  lo' <= lo -> hi <= hi' -> staged lo hi m -> staged lo' hi' m.
Proof.
  intros H1 H2 Hm w. destruct (Hm w) as (l & ks & E & F2 & S & F). exists l, ks.
  split_and!; [done..|]. eapply Forall_impl; [exact F|]. intros k; simpl; lia.
Qed.

Lemma staged_settle {A} lo hi (m : M A) : staged lo hi m -> staged lo hi (settle m).
Proof. apply staged_trace. intros w. unfold settle. by destruct (m w). Qed.

Lemma staged_when lo hi b m : staged lo hi m -> staged lo hi (when b m).
Proof. destruct b; [done|]. intros _. by apply staged_quiet. Qed.

Lemma staged_plain {A} lo hi stage n r (m : M A) :
  existsb (String.eqb stage) STAGE_NAMES = true -> staged lo hi m ->
  staged lo hi (stageOutcome stage n r (plain m)).
Proof. intros Hs. apply staged_trace. intros w. apply stageOutcome_trace; auto. Qed.

Lemma staged_skipping {A} lo hi stage n r (m : M A) :
  existsb (String.eqb stage) STAGE_NAMES = true -> staged lo hi m ->
  staged lo hi (stageOutcome stage n r (skipping m)).
Proof. intros Hs. apply staged_trace. intros w. apply stageOutcome_trace; auto. Qed.

(** The dispatches of one position, all allowed together. *)
Lemma staged_chunks {A} (m : M A) : emits (fun e => 10 ∈ phases (ev_call e)) m -> staged 10 10 m.
Proof.
  intros Hm w. destruct (Hm w) as (l & E & Hl). exists l, (replicate (length l) 10).
  split_and!; [done|..].
  - clear E. induction Hl; simpl; constructor; done.
  - clear. induction (length l) as [|n IH]; simpl; constructor; [done|].
    apply Forall_forall. intros k [-> _]%elem_of_replicate. by right.
  - apply Forall_forall. intros k [-> _]%elem_of_replicate. lia.
Qed.
