(* ===== verification/Orchestrator.v ===== *)
(** [review/pipeline/orchestrator.ts] and [review/pipeline/posting.ts]: one
    review, from the clone to the post.  Each stage is one definition, in the
    order of the code.  The chunks of the fan-out run in the order that the
    argument [schedule] gives, one invocation after the other: [FanOut] shows
    that the interleaving of the pool does not matter for its result; the
    retrieval caches that the chunks share are filled in that order.  The two
    pure functions of [retrieval/] that the fan-out consults are arguments. *)
From stdpp Require Import base gmap sets list strings.
From Stdlib Require Import ZArith QArith Lia Sorting.Sorted.
From S2P Require Import Prelude Retry Findings FanOut Arbitration PathMatch PipelineHelpers Degradation.
Local Open Scope nat_scope.

(** [ReviewPipelinePrCtx] and [ReviewPipelineRepoCtx], the fields that are used
    other than by being passed on. *)
Record review_input := ReviewInput {
  workspace_id : string;
  changedPaths : list string;
  pr_id : string;
  pr_title : string;
  pr_description : string;
  policyRevision : Z;
  parentFindings : list finding;
  parentReviewId : option string;
  chunkConcurrency : Z;
  has_enrichment : bool;
}.

(** Which optional ports and callbacks the caller injected. *)
Record wiring := Wiring {
  has_claimCheck : bool;
  has_teardown : bool;
  has_probe : bool;
  has_evidence : bool;
  has_emit : bool;
  has_citation : bool;
  has_arbitration : bool;
  has_toolRuns : bool;
  has_skipped : bool;
  has_prDescription : bool;
  has_fixPrompt : bool;
}.

(** [details[0]] of a post failure, as loosely typed as the code reads it. *)
Record dropped_details := DroppedDetails {
  dd_dropped : option (list (option Z * option string));
  dd_posted_pr : option string;
}.

(** [ReviewPipelineResult]. *)
Record pipeline_result := PipelineResult {
  r_status : string;
  findingsCount : nat;
  r_walkthrough : walkthrough;
  r_aggregated : aggregated;
  r_routing : file_routing;
  r_static : option static_analysis;
  r_carry : option selection;
  classifierFailureRatio : Q;
  degradationNotes : list string;
  reviewFindingIds : list string;
  arbitrationIntents : list intent;
  arbitrationResult : option arb_result;
}.

Definition POST_REVIEW_FAILED_WITH_DROPPED_STATE : string := "PostReviewFailedWithDroppedState".
Definition EVIDENCE_ENTRY_CAP : nat := 100.
Definition MAX_CHUNKS_PER_REVIEW : nat := 100.
Definition MAX_INLINE_FINDINGS : nat := 250.

(** ** Updates of the state *)

Definition set_policyBundles v s := ReviewState v (queryVectorCache s) (retrievalShortCircuit s)
  (retrievalResultCache s) (retrievedKnowledgeChunkIds s) (degradation s) (repoConfig s)
  (repoConfigStatus s) (inlinePostFilterMetadata s) (postedReview s) (arbitration_result s)
  (arbitration_statuses s) (persistedFindingIds s).
Definition set_queryVectorCache v s := ReviewState (policyBundles s) v (retrievalShortCircuit s)
  (retrievalResultCache s) (retrievedKnowledgeChunkIds s) (degradation s) (repoConfig s)
  (repoConfigStatus s) (inlinePostFilterMetadata s) (postedReview s) (arbitration_result s)
  (arbitration_statuses s) (persistedFindingIds s).
Definition set_shortCircuit v s := ReviewState (policyBundles s) (queryVectorCache s) v
  (retrievalResultCache s) (retrievedKnowledgeChunkIds s) (degradation s) (repoConfig s)
  (repoConfigStatus s) (inlinePostFilterMetadata s) (postedReview s) (arbitration_result s)
  (arbitration_statuses s) (persistedFindingIds s).
Definition set_resultCache v s := ReviewState (policyBundles s) (queryVectorCache s)
  (retrievalShortCircuit s) v (retrievedKnowledgeChunkIds s) (degradation s) (repoConfig s)
  (repoConfigStatus s) (inlinePostFilterMetadata s) (postedReview s) (arbitration_result s)
  (arbitration_statuses s) (persistedFindingIds s).
Definition set_knowledgeIds v s := ReviewState (policyBundles s) (queryVectorCache s)
  (retrievalShortCircuit s) (retrievalResultCache s) v (degradation s) (repoConfig s)
  (repoConfigStatus s) (inlinePostFilterMetadata s) (postedReview s) (arbitration_result s)
  (arbitration_statuses s) (persistedFindingIds s).
Definition set_config c status s := ReviewState (policyBundles s) (queryVectorCache s)
  (retrievalShortCircuit s) (retrievalResultCache s) (retrievedKnowledgeChunkIds s)
  (degradation s) c status (inlinePostFilterMetadata s) (postedReview s) (arbitration_result s)
  (arbitration_statuses s) (persistedFindingIds s).
Definition set_metadata v s := ReviewState (policyBundles s) (queryVectorCache s)
  (retrievalShortCircuit s) (retrievalResultCache s) (retrievedKnowledgeChunkIds s)
  (degradation s) (repoConfig s) (repoConfigStatus s) v (postedReview s) (arbitration_result s)
  (arbitration_statuses s) (persistedFindingIds s).
Definition set_posted v s := ReviewState (policyBundles s) (queryVectorCache s)
  (retrievalShortCircuit s) (retrievalResultCache s) (retrievedKnowledgeChunkIds s)
  (degradation s) (repoConfig s) (repoConfigStatus s) (inlinePostFilterMetadata s) v
  (arbitration_result s) (arbitration_statuses s) (persistedFindingIds s).
Definition set_arbitration v s := ReviewState (policyBundles s) (queryVectorCache s)
  (retrievalShortCircuit s) (retrievalResultCache s) (retrievedKnowledgeChunkIds s)
  (degradation s) (repoConfig s) (repoConfigStatus s) (inlinePostFilterMetadata s)
  (postedReview s) v (arbitration_statuses s) (persistedFindingIds s).
Definition set_statuses v s := ReviewState (policyBundles s) (queryVectorCache s)
  (retrievalShortCircuit s) (retrievalResultCache s) (retrievedKnowledgeChunkIds s)
  (degradation s) (repoConfig s) (repoConfigStatus s) (inlinePostFilterMetadata s)
  (postedReview s) (arbitration_result s) v (persistedFindingIds s).
Definition set_persisted v s := ReviewState (policyBundles s) (queryVectorCache s)
  (retrievalShortCircuit s) (retrievalResultCache s) (retrievedKnowledgeChunkIds s)
  (degradation s) (repoConfig s) (repoConfigStatus s) (inlinePostFilterMetadata s)
  (postedReview s) (arbitration_result s) (arbitration_statuses s) v.

(** [Map.set] on a list of entries. *)
Fixpoint map_set {V} (k : string) (v : V) (l : list (string * V)) : list (string * V) :=
  match l with
  | [] => [(k, v)]
  | (k', v') :: l' => if String.eqb k k' then (k, v) :: l' else (k', v') :: map_set k v l'
  end.

Fixpoint map_get {V} (k : string) (l : list (string * V)) : option V :=
  match l with
  | [] => None
  | (k', v) :: l' => if String.eqb k k' then Some v else map_get k l'
  end.

(** ** Notes *)

Definition classifier_note (failed total : nat) : string :=
  "file classification failed for " +:+ JsString.decimal failed +:+ "/" +:+
  JsString.decimal total +:+ " files; results may be incomplete".
Definition tool_errors_note (l : list (string * string)) : string :=
  "static-analysis tool failures: " +:+ JsString.join ", " (sort_by str_leb (map fst l)).
Definition truncated_note (l : list (string * nat)) : string :=
  "static-analysis truncated: " +:+ JsString.join ", "
    (map (fun e => e.1 +:+ "=" +:+ JsString.decimal e.2)
       (sort_by (fun a b => str_leb a.1 b.1) l)).
Definition carry_forward_note : string := "carry-forward selector failed; every chunk re-reviewed".
Definition chunks_capped_note (n : nat) : string :=
  "chunk set truncated to " +:+ JsString.decimal MAX_CHUNKS_PER_REVIEW +:+ " of " +:+
  JsString.decimal n +:+ " chunks; review may be incomplete".
Definition chunks_failed_note (failed total : nat) : string :=
  JsString.decimal failed +:+ " of " +:+ JsString.decimal total +:+
  " chunks failed review; findings may be incomplete".
Definition all_failed_note (total carried : nat) : string :=
  "all " +:+ JsString.decimal total +:+ " chunks failed review; posting " +:+
  JsString.decimal carried +:+ " carried finding(s) from the prior review".
Definition semantic_skipped_note : string :=
  "dedup semantic stage skipped; exact-match dedupe still applied".
Definition citations_note (n : nat) : string :=
  "citation-validator dropped " +:+ JsString.decimal n +:+
  " finding(s) with unresolvable sources".

Section Orchestrate.
Variable orc : oracle.
Variable wire : wiring.
Variable inp : review_input.

(** [pickPrContext] for a chunk's path: it may throw.  [full_labels] is the
    number of effective labels of the full-PR context. *)
Variable pickPrContext : string -> result js_error unit.
Variable full_labels : repo_config -> result js_error nat.

(** [asActivityError(err)]: the name and the details of the [ActivityError]. *)
Variable asActivityError : js_error -> option (string * list dropped_details).

(** The order in which the chunks of a fan-out settle, and which of the two
    parallel dispatches of Step 3 rejects first when both do. *)
Variable schedule : nat -> list nat.
Variable static_first : bool.

Definition port (c : call) : M (reply c) := dispatch orc c.

Definition claimCheck (b : boundary) : M unit := when (has_claimCheck wire) (port (c_claimCheck b)).

(** Steps 1a and 1b. *)
Definition loadConfig (root : string) : M unit :=
  let! (c, status) := port (c_loadRepoConfig root) in
  modify (set_config c status).

Definition policyStage (root : string) : M unit :=
  let! cfg := gets repoConfig in
  let! computed := stageOutcome "policy_compute" true false
    (plain (port (c_computePolicyRules root (file_patterns cfg) (knowledge_enabled cfg)
                    (changedPaths inp)))) in
  match computed with
  | Some bundles =>
      modify (fun s => set_policyBundles
        (fold_left (fun m e => map_set e.1 e.2 m) bundles (policyBundles s)) s)
  | None => ret tt
  end.

(** Step 2.  The ratio of failures is compared with 0.1; on counts of files the
    comparison of doubles agrees with that of the fractions. *)
Definition failure_ratio (failed total : nat) : Q :=
  (Z.of_nat failed # Pos.of_nat (Nat.max 1 total)).

Definition CLASSIFIER_FAILURE_THRESHOLD : Q := 1 # 10.

Definition classifyStage (root : string) : M file_routing :=
  let! outcome := stageOutcome "classify" true false
    (plain (port (c_classify root (changedPaths inp)))) in
  let routing := match outcome with Some r => r | None => FileRouting (changedPaths inp) [] [] end in
  let failed := length (classifier_failures routing) in
  let total := length (changedPaths inp) in
  let! _ := when (q_gt (failure_ratio failed total) CLASSIFIER_FAILURE_THRESHOLD)
              (add (classifier_note failed total)) in
  ret routing.

(** ** Posting *)

Definition captureFromPostedReview (p : posted_review) : M unit :=
  modify (set_posted (PostCapture (p_review_id p) (p_comment_ids p) (Some (pr_id inp)) (p_kept p)
    (Some (p_outcome p)) (p_notes p) (p_dropped p))).

Definition extractDroppedStateFromPostFailure (e : js_error) : option dropped_details :=
  match asActivityError e with
  | Some (name, details) =>
      if String.eqb name POST_REVIEW_FAILED_WITH_DROPPED_STATE then head details else None
  | None => None
  end.

Definition skipped_pair (rfids : list string) (entry : option Z * option string)
    : option (string * string) :=
  match entry with
  | (Some idx, Some reason) =>
      if ((0 <=? idx) && (idx <? Z.of_nat (length rfids)))%Z
      then (fun r => (r, reason)) <$> rfids !! Z.to_nat idx else None
  | _ => None
  end.

Definition dispatchInlineSkippedLifecycle (d : dropped_details) : M unit :=
  let! rfids := gets persistedFindingIds in
  match dd_dropped d, dd_posted_pr d with
  | Some dropped, Some posted =>
      if ((length dropped =? 0) || (length rfids =? 0)) then ret tt
      else
        let pairs := omap (skipped_pair rfids) dropped in
        if ((length pairs =? 0) || negb (has_skipped wire)) then ret tt
        else
          let! _ := settle (port (c_recordDeliverySkipped (map fst pairs) (map snd pairs) posted)) in
          ret tt
  | _, _ => ret tt
  end.

(** [postReviewResults] after its dispatch of the post has settled. *)
Definition afterPost (a : aggregated) (posted : result js_error posted_review) : M unit :=
  match posted with
  | Throw e =>
      let! _ := match extractDroppedStateFromPostFailure e with
                | Some d => dispatchInlineSkippedLifecycle d
                | None => ret tt
                end in
      throw e
  | Ok p =>
      let! _ := captureFromPostedReview p in
      let! _ := when (has_prDescription wire)
        (let! _ := stageOutcome "update_pr_description" false false
           (skipping (port (c_updatePrDescriptionSummary a))) in ret tt) in
      when (negb (length (a_findings a) =? 0) && has_fixPrompt wire)
        (let! _ := stageOutcome "fix_prompt" false false
           (skipping (let! (generated, mode) := port (c_generateFixPrompt a) in
                      recordStage "fix_prompt" (fixPromptStageOutcome generated mode))) in ret tt)
  end.

(** Both dispatches are issued before either is awaited. *)
Definition runPostStage (w : walkthrough) (a : aggregated) : M unit :=
  let! footer := gets arbitration_result in
  let! statuses := gets arbitration_statuses in
  let! posted := settle (port (c_postReview a w footer statuses)) in
  let! check := settle (port (c_postCheckRun (w_tldr w))) in
  let! review := settle (afterPost a posted) in
  match review with
  | Throw e => throw e
  | Ok _ =>
      let! _ := when (has_teardown wire) (port c_placeholderTeardown) in
      match check with
      | Throw _ =>
          let! _ := recordStage "post_check_run" "error" in
          add "post_check_run_failed"
      | Ok _ => ret tt
      end
  end.

(** Step 2a.1: the path filters excluded every review file. *)
Definition advisory (routing : file_routing) : M pipeline_result :=
  let! _ := claimCheck before_advisory in
  let! a := port (c_aggregate [pathFiltersExcludedAllFinding] (policyRevision inp)) in
  let! w := port (c_generateWalkthrough a) in
  let! _ := runPostStage w a in
  let! _ := add "path_filters_excluded_all" in
  let! notes := gets degradation in
  ret (PipelineResult "accepted" (length (a_findings a)) w a routing None None
         (failure_ratio (length (classifier_failures routing)) (length (changedPaths inp)))
         notes [] [] None).

(** ** Chunks *)

(** Step 3. *)
Definition empty_analysis : static_analysis := StaticAnalysis [] [] [] [] [].

Definition analysisStage (root : string) (routing : file_routing) (reviewFiles : list string)
    : M (list dchunk * static_analysis) :=
  let! chunks := settle (port (c_chunkAndRedact root reviewFiles)) in
  let! outcome := settle (stageOutcome "static_analysis" true false
    (plain (port (c_staticAnalysis root (sandbox_files routing))))) in
  let! (cs, o) := match chunks, outcome with
    | Ok cs, Ok o => ret (cs, o)
    | Throw e, Ok _ => throw e
    | Ok _, Throw e => throw e
    | Throw e, Throw e' => throw (if static_first then e' else e)
    end in
  let sa := default empty_analysis o in
  let! _ := when (negb (length (per_tool_errors sa) =? 0)) (add (tool_errors_note (per_tool_errors sa))) in
  let! _ := when (negb (length (truncated_per_tool sa) =? 0))
              (add (truncated_note (truncated_per_tool sa))) in
  ret (cs, sa).

(** Step 4: any failure, a cancellation included, falls back. *)
Definition selectCarryForwardWithFallback (chunks : list dchunk) : M selection :=
  let! r := settle (stageOutcome "select_carry_forward" true true
    (plain (port (c_selectCarryForward (parentFindings inp) chunks (parentReviewId inp))))) in
  match r with
  | Ok (Some s) => ret s
  | _ =>
      let! _ := add carry_forward_note in
      ret (Selection [] chunks)
  end.

Definition capChunks (l : list dchunk) : M (list dchunk) :=
  if (MAX_CHUNKS_PER_REVIEW <? length l) then
    let! _ := add (chunks_capped_note (length l)) in
    ret (take MAX_CHUNKS_PER_REVIEW l)
  else ret l.

Definition topology (l : list dchunk) : list topology_entry :=
  map (fun c => Topology (dc_id c) (dc_path c) (dc_start c) (dc_end c)
                  (inferPrTopologyKind (dc_path c))) l.

(** Whether the retrieval is skipped for the whole review. *)
Definition resolveRetrievalShortCircuit : M bool :=
  if negb (has_probe wire) then ret false
  else
    let! cfg := gets repoConfig in
    let! outcome := stageOutcome "probe_knowledge_corpus" false false
      (plain (let! probe := port c_probeKnowledgeCorpus in
              let! labelsApply :=
                (if has_enrichment inp
                 then let! n := of_result (full_labels cfg) in ret (negb (n =? 0))
                 else ret true) in
              ret (probe, labelsApply))) in
    match outcome with
    | None => ret false
    | Some (probe, labelsApply) =>
        let repoSideDead := negb (knowledge_enabled cfg) || negb (has_repo_knowledge probe) in
        let confluenceSideDead := negb (has_confluence_knowledge probe) || negb labelsApply in
        ret (repoSideDead && confluenceSideDead)
    end.

(** The embedding of a query: the override, and whether an empty vector
    degraded the retrieval. *)
Definition embedQuery (query : string) : M (option vector * bool) :=
  let! cache := gets queryVectorCache in
  match cache !! query with
  | Some v => ret (Some v, false)
  | None =>
      let! r := stageOutcome "embed_query" false false (plain (port (c_embedQuery query))) in
      match r with
      | Some v =>
          if negb (length v =? 0)
          then let! _ := modify (set_queryVectorCache (<[query := v]> cache)) in ret (Some v, false)
          else ret (None, true)
      | None => ret (None, false)
      end
  end.

Definition EMPTY_VECTOR_REASON : string := "embed_query returned an empty vector".

(** The retrieval of one chunk: what was retrieved, whether it is degraded, and
    why. *)
Definition retrieve (c : dchunk) : M (list knowledge_chunk * bool * string) :=
  let query := buildRetrievalQueryText (pr_title inp) (pr_description inp) (dc_path c) (dc_body c) in
  let! short := gets retrievalShortCircuit in
  let skipRetrieval := match short with Some true => true | _ => false end in
  let! memo := gets retrievalResultCache in
  let hit : option retrieve_result := if skipRetrieval then None else memo !! query in
  let! (found, emptyVector) :=
    (if skipRetrieval || (match hit with Some _ => true | None => false end) then ret (hit, false)
     else
       let! (override, emptyVector) := embedQuery query in
       let! r := stageOutcome "retrieve_knowledge" false false
         (plain (let! _ := of_result (pickPrContext (dc_path c)) in
                 port (c_retrieveKnowledge query override))) in
       let! _ := match r with
                 | Some r' => when (negb (rr_degraded r'))
                     (modify (fun s => set_resultCache (<[query := r']> (retrievalResultCache s)) s))
                 | None => ret tt
                 end in
       ret (r, emptyVector) : M (option retrieve_result * bool)) in
  match found with
  | Some r =>
      let! _ := modify (fun s => set_knowledgeIds
        (retrievedKnowledgeChunkIds s ∪ list_to_set (map kc_id (items r))) s) in
      ret (items r, emptyVector || rr_degraded r,
           if String.eqb (rr_reason r) "" then (if emptyVector then EMPTY_VECTOR_REASON else ""%string)
           else rr_reason r)
  | None => ret ([], emptyVector || negb skipRetrieval,
                 if emptyVector then EMPTY_VECTOR_REASON else ""%string)
  end.

Definition buildChunkContext (c : dchunk) (t : threading) : M review_context :=
  let! bundles := gets policyBundles in
  let! (knowledge, degraded, reason) := retrieve c in
  let! evidence := (if has_evidence wire then port (c_buildRetrievedEvidence c knowledge t)
                    else ret []) in
  let! cfg := gets repoConfig in
  ret (ReviewContext c (policyRevision inp)
         (matchPathInstructions (path_instructions cfg) (dc_path c)) cfg knowledge degraded reason
         (map_get (dc_path c) bundles) t evidence).

Definition emitAudit (event : option string) : M unit :=
  match event with
  | Some e => when (has_emit wire) (port (c_emitOutputSafetyAudit e))
  | None => ret tt
  end.

(** [invokeChunk] of Step 5b, coerced by the fan-out. *)
Definition invokeChunk (c : dchunk) (t : threading) : M (list finding * list intent) :=
  let! rc := buildChunkContext c t in
  let! r := stageOutcome "review_chunk" true true (plain (port (c_reviewChunk rc))) in
  match r with
  | None => throw (plain_error "review_chunk: unexpected empty result")
  | Some res =>
      let! _ := emitAudit (cr_event res) in
      ret (cr_findings res, cr_intents res)
  end.

(** The invocations of a fan-out, in the order given: the outcome of each
    index, up to the first one that aborts. *)
Fixpoint invokeAll (chunks : list dchunk) (t : threading) (order : list nat)
    (acc : gmap nat (result js_error (list finding * list intent)))
    : M (gmap nat (result js_error (list finding * list intent))) :=
  match order with
  | [] => ret acc
  | i :: order' =>
      match chunks !! i with
      | None => invokeAll chunks t order' acc
      | Some c =>
          let! r := settle (invokeChunk c t) in
          match r with
          | Throw e => if FanOut.fatal true e then throw e
                       else invokeAll chunks t order' (<[i := r]> acc)
          | Ok _ => invokeAll chunks t order' (<[i := r]> acc)
          end
      end
  end.

Definition no_outcome : js_error := plain_error "fanOutReview: result slot unexpectedly empty after fan-in".

Definition outcome_of (m : gmap nat (result js_error (list finding * list intent))) (i : nat)
    : result js_error (list finding * list intent) := default (Throw no_outcome) (m !! i).

Definition fan_chunks (l : list dchunk) : list chunk := map (fun c => Chunk (dc_id c) (dc_path c)) l.

Definition fanOut (chunks : list dchunk) (t : threading)
    : M (list finding * list intent * list chunk_failure) :=
  if (chunkConcurrency inp <=? 0)%Z then throw (plain_error "concurrency must be positive")
  else if (length chunks =? 0) then ret ([], [], [])
  else
    let! m := invokeAll chunks t (schedule (length chunks)) ∅ in
    let (findings, intents) := FanOut.sequential (fan_chunks chunks) (outcome_of m) in
    ret (findings, intents,
         omap (FanOut.chunk_failed (fan_chunks chunks) (outcome_of m))
           (FanOut.indices (fan_chunks chunks))).

(** Step 5, and the rule for failed chunks. *)
Definition fanOutStage (sel : selection) (sa : static_analysis)
    : M (list finding * list intent) :=
  let! toReview := capChunks (to_review sel) in
  let t := Threading (tier1_findings sa) (tool_statuses sa) (topology toReview) in
  let! skip := resolveRetrievalShortCircuit in
  let! _ := modify (set_shortCircuit (Some skip)) in
  let! (newFindings, intents, failures) := fanOut toReview t in
  let! _ :=
    match failures with
    | [] => ret tt
    | first :: _ =>
        let! _ := add (chunks_failed_note (length failures) (length toReview)) in
        if (Nat.max 1 (length toReview) <=? length failures) then
          match carried sel with
          | [] => throw (cf_error first)
          | _ => add (all_failed_note (length toReview) (length (carried sel)))
          end
        else ret tt
    end in
  ret (carried sel ++ newFindings, intents).

(** ** Findings *)

(** Step 6. *)
Definition dedupStage (linter llm : list finding) : M (list finding) :=
  let! outcome := stageOutcome "dedup" true false (plain (port (c_dedupFindings linter llm))) in
  match outcome with
  | Some (findings, skipped) =>
      let! _ := when skipped (add semantic_skipped_note) in ret findings
  | None => ret llm
  end.

(** Step 7, with the cap and the two notices. *)
Definition aggregateStage (l : list finding) : M aggregated :=
  let! outcome := stageOutcome "aggregate" true false
    (plain (port (c_aggregate l (policyRevision inp)))) in
  ret (match outcome with
       | Some a => a
       | None => Aggregated l (DedupeCounts (length l) 0 0 0 false) (policyRevision inp)
       end).

Definition capFindings (a : aggregated) : aggregated :=
  if (MAX_INLINE_FINDINGS <? length (a_findings a))
  then with_findings a (take MAX_INLINE_FINDINGS (a_findings a)) else a.

Definition noticeStage (a : aggregated) : M aggregated :=
  let! status := gets repoConfigStatus in
  ret (maybeAppendMalformedConfigNotice
         (maybeAppendConfigNotice (capFindings a) (changedPaths inp)) status).

(** Step 7.2.  The findings are compared by reference, which tells whether an
    invariant fired. *)
Definition applyPolicyPostFilter (a : aggregated) : M aggregated :=
  let! bundles := gets policyBundles in
  if (length bundles =? 0) then ret a
  else
    let merged := mergePerChunkBundles (map snd bundles) in
    let (filtered, meta) := postFilterFindingsWithMetadata (a_findings a) merged in
    let! _ := recordStage "policy_post_filter" "ok" in
    let! _ := modify (set_metadata (Some meta)) in
    if forallb (fun m => negb (invariant_violation_attempted m)) meta then ret a
    else ret (with_findings a filtered).

(** Step 7.5. *)
Definition citationStage (root : string) (a : aggregated) : M aggregated :=
  if negb (has_citation wire) then ret a
  else
    let! ids := gets retrievedKnowledgeChunkIds in
    let! bundles := gets policyBundles in
    let! (surviving, dropped) := port (c_citationValidate root (a_findings a)
      (if decide (ids = ∅) then None else Some (sort_by str_leb (elements ids)))
      (buildPolicyCitationContext (map snd bundles))) in
    if negb (length dropped =? 0) then
      let! _ := add (citations_note (length dropped)) in
      ret (with_findings a surviving)
    else ret a.

(** Step 7.6. *)
Definition persistStage (a : aggregated) : M unit :=
  let! meta := gets inlinePostFilterMetadata in
  let! ids := stageOutcome "persist_findings" true false
    (plain (port (c_persistReviewFindings a meta))) in
  modify (set_persisted (default [] ids)).

(** Step 7.7; [sa] is never null here. *)
Definition applyArbitrationStep (sa : static_analysis) (a : aggregated) (intents : list intent)
    : M unit :=
  let! rfids := gets persistedFindingIds in
  let! _ := when (has_arbitration wire)
    (let! r := stageOutcome "apply_arbitration" true false
       (plain (port (c_applyArbitration (tier1_findings sa) (zip rfids (a_findings a)) rfids intents))) in
     match r with
     | Some x => modify (set_arbitration (Some x))
     | None => ret tt
     end) in
  when (has_toolRuns wire && negb (length (tool_statuses sa) =? 0))
    (let! _ := modify (set_statuses (tool_statuses sa)) in
     let! _ := stageOutcome "record_tool_runs" true false
       (plain (port (c_recordToolRuns (tool_statuses sa)))) in
     ret tt).

(** Steps 8 and 8a. *)
Definition walkthroughStage (a : aggregated) : M walkthrough :=
  let! w := port (c_generateWalkthrough a) in
  let! _ := emitAudit (w_event w) in
  let! _ := stageOutcome "persist_walkthrough" true false
    (plain (port (c_persistReviewWalkthrough w))) in
  ret w.

(** Steps 6 to 9. *)
Definition deliver (root : string) (routing : file_routing) (sa : static_analysis)
    (sel : selection) (llmFindings : list finding) (intents : list intent) : M pipeline_result :=
  let! deduped := dedupStage (sa_findings sa) llmFindings in
  let! _ := claimCheck before_aggregate in
  let! a0 := aggregateStage deduped in
  let! a1 := noticeStage a0 in
  let! a2 := applyPolicyPostFilter a1 in
  let! a := citationStage root a2 in
  let! _ := persistStage a in
  let! _ := applyArbitrationStep sa a intents in
  let! w := walkthroughStage a in
  let! _ := claimCheck before_post in
  let! _ := runPostStage w a in
  let! notes := gets degradation in
  let! ids := gets persistedFindingIds in
  let! arb := gets arbitration_result in
  ret (PipelineResult "accepted" (length (a_findings a)) w a routing (Some sa) (Some sel)
         (failure_ratio (length (classifier_failures routing)) (length (changedPaths inp)))
         notes ids intents arb).

(** Steps 3 to 9. *)
Definition fullReview (root : string) (routing : file_routing) (reviewFiles : list string)
    : M pipeline_result :=
  let! (chunks, sa) := analysisStage root routing reviewFiles in
  let! sel := selectCarryForwardWithFallback chunks in
  let! (llmFindings, intents) := fanOutStage sel sa in
  deliver root routing sa sel llmFindings intents.

(** The [try] block. *)
Definition pipeline (cloned : cloned_repo) : M pipeline_result :=
  let root := default (workspace_path cloned +:+ "/repo")%string (repo_path cloned) in
  let! _ := loadConfig root in
  let! _ := policyStage root in
  let! _ := claimCheck before_classify in
  let! routing := classifyStage root in
  let! cfg := gets repoConfig in
  let reviewFiles := filterReviewPaths (review_files routing) (path_filters cfg) in
  if (0 <? length (review_files routing)) && (length reviewFiles =? 0)
  then advisory routing
  else fullReview root routing reviewFiles.

(** The [finally] block. *)
Definition cleanup : M unit :=
  let! _ := stageOutcome "cleanup" true false
    (skipping (port (c_cleanup (workspace_id inp)))) in
  ret tt.

Definition orchestrate : M pipeline_result :=
  let! _ := claimCheck before_clone in
  let! cloned := port (c_clone (changedPaths inp)) in
  let! r := settle (pipeline cloned) in
  let! _ := cleanup in
  of_result r.
End Orchestrate.
