(* ===== verification/OrchestratorProofs.v ===== *)
(** What a run of [Orchestrator.orchestrate] does, whatever the ports answer:
    the order of its dispatches, what follows a lost claim, that the workspace
    is released, that the failures of the optional stages only degrade the
    review, that the notes tell them, and that one set of findings is
    persisted, explained and posted. *)
From stdpp Require Import base gmap sets list strings.
From Stdlib Require Import ZArith QArith Lia Sorting.Sorted.
From S2P Require Import Prelude Retry Findings Aggregation FanOut Arbitration PathMatch PipelineHelpers Degradation Orchestrator.
Local Open Scope nat_scope.

(** * Lemmas: what a review keeps *)

(** The building blocks of a review keep [I]; [notes_inv] is such an invariant,
    and any invariant of the trace that the dispatches keep. *)
Record kept (orc : oracle) (I : world -> Prop) : Prop := Kept {
  kp_dispatch : forall c, preserves I (port orc c);
  kp_add : forall note, preserves I (add note);
  kp_modify : forall g, (forall s, degradation (g s) = degradation s) -> preserves I (modify g);
  kp_record : forall stage o, o <> "error"%string -> preserves I (recordStage stage o);
  kp_check : preserves I (let! _ := recordStage "post_check_run" "error" in add "post_check_run_failed");
  kp_stage : forall A stage n r (m : M A) (b : body A), b = plain m \/ b = skipping m ->
    n = true \/ stage ∈ SILENT_STAGES -> preserves I m -> preserves I (stageOutcome stage n r b);
}.

(** The one error recorded outside [stageOutcome] has its note too. *)
Lemma notes_kept orc : kept orc notes_inv.
Proof.
  split.
  - intros c. apply preserves_notes_dispatch.
  - apply preserves_notes_add.
  - apply preserves_notes_modify.
  - apply preserves_notes_record.
  - intros w [Hn Hs]. unfold bind, recordStage. simpl. split; simpl; [by apply add_note_NoDup|].
    intros s [Hin|Hin]%elem_of_app Hsil; apply add_note_elem; [left; by apply Hs|right].
    apply list_elem_of_singleton in Hin. injection Hin as ->. done.
  - intros A stage n r m b [-> | ->] Hn Hm; [by apply notes_stage_plain|by apply notes_stage_skipping].
Qed.

(** An invariant of the trace is kept by every stage whose body keeps it. *)
Lemma trace_stage {A} (I : list event -> Prop) stage n r (m : M A) (b : body A) :
  b = plain m \/ b = skipping m -> preserves (fun w => I (trace w)) m ->
  preserves (fun w => I (trace w)) (stageOutcome stage n r b).
Proof.
  intros Hb Hm w Hw. destruct (existsb (String.eqb stage) STAGE_NAMES) eqn:E.
  - rewrite (stageOutcome_trace _ _ _ m) by done. by apply Hm.
  - unfold stageOutcome. by rewrite E.
Qed.

Lemma trace_kept orc (I : list event -> Prop) :
  (forall w c, I (trace w) -> I (trace (port orc c w).2)) -> kept orc (fun w => I (trace w)).
Proof.
  intros Hd. split; try (intros; intros w Hw; exact Hw).
  - intros c w. apply Hd.
  - intros stage o _ w Hw. unfold recordStage. by destruct (existsb _ _).
  - intros A stage n r m b Hb _. by apply trace_stage.
Qed.

(** Close a [preserves] goal by the shape of the program. *)
Ltac keeping HI :=
  repeat (intros; lazymatch goal with
    | |- preserves _ (bind _ _) => apply preserves_bind
    | |- preserves _ (settle _) => apply preserves_settle
    | |- preserves _ (port _ _) => apply (kp_dispatch _ _ HI)
    | |- preserves _ (add _) => apply (kp_add _ _ HI)
    | |- preserves _ (modify _) => apply (kp_modify _ _ HI); reflexivity
    | |- preserves _ (when _ _) => apply preserves_when
    | |- preserves _ (recordStage _ ?o) => apply (kp_record _ _ HI); discriminate
    | |- preserves _ (stageOutcome _ _ _ (plain ?m)) =>
        apply (kp_stage _ _ HI _ _ _ _ m); [by left|first [by left | right; set_solver]|]
    | |- preserves _ (stageOutcome _ _ _ (skipping ?m)) =>
        apply (kp_stage _ _ HI _ _ _ _ m); [by right|first [by left | right; set_solver]|]
    | |- preserves _ (ret _) => apply preserves_same; reflexivity
    | |- preserves _ (throw _) => apply preserves_same; reflexivity
    | |- preserves _ (gets _) => apply preserves_same; reflexivity
    | |- preserves _ (of_result _) => apply preserves_same; reflexivity
    | |- preserves _ (match ?x with _ => _ end) => destruct x
    end).

Section Keeps.
Variables (orc : oracle) (wire : wiring) (inp : review_input).
Variables (pick : string -> result js_error unit) (labels : repo_config -> result js_error nat).
Variables (act : js_error -> option (string * list dropped_details)) (sched : nat -> list nat) (sf : bool).
Variables (I : world -> Prop) (HI : kept orc I).

Lemma keeps_claimCheck b : preserves I (claimCheck orc wire b).
Proof. unfold claimCheck. keeping HI. Qed.

Lemma keeps_fixPrompt generated mode :
  preserves I (recordStage "fix_prompt" (fixPromptStageOutcome generated mode)).
Proof.
  apply (kp_record _ _ HI). unfold fixPromptStageOutcome.
  by destruct generated; [destruct (String.eqb mode "llm")|].
Qed.

Lemma keeps_afterPost a p : preserves I (afterPost orc wire inp act a p).
Proof.
  unfold afterPost, captureFromPostedReview, dispatchInlineSkippedLifecycle.
  keeping HI; apply keeps_fixPrompt.
Qed.

Lemma keeps_runPostStage w a : preserves I (runPostStage orc wire inp act w a).
Proof.
  unfold runPostStage.
  do 5 (apply preserves_bind; [keeping HI; apply keeps_afterPost|intros ?]).
  destruct a4; [|keeping HI]. apply preserves_bind; [keeping HI|intros _].
  destruct a3; [keeping HI|apply (kp_check _ _ HI)].
Qed.

Lemma IokeChunk c t : preserves I (invokeChunk orc wire inp pick c t).
Proof.
  unfold invokeChunk, buildChunkContext, retrieve, embedQuery, emitAudit. keeping HI.
Qed.

Lemma IokeAll cs t order acc :
  preserves I (invokeAll orc wire inp pick cs t order acc).
Proof.
  revert acc. induction order as [|i order IH]; intros acc; simpl; [keeping HI|].
  destruct (cs !! i); [|apply IH].
  apply preserves_bind; [apply preserves_settle, IokeChunk|intros [r|e]; [apply IH|]].
  destruct (fatal true e); [keeping HI|apply IH].
Qed.

Lemma keeps_fanOutStage sel sa :
  preserves I (fanOutStage orc wire inp pick labels sched sel sa).
Proof.
  unfold fanOutStage, fanOut, capChunks, resolveRetrievalShortCircuit.
  keeping HI; apply IokeAll.
Qed.

Lemma keeps_fullReview root routing files :
  preserves I (fullReview orc wire inp pick labels act sched sf root routing files).
Proof.
  unfold fullReview, deliver, analysisStage, selectCarryForwardWithFallback, dedupStage, aggregateStage,
    noticeStage, applyPolicyPostFilter, citationStage, persistStage, applyArbitrationStep,
    walkthroughStage, emitAudit, claimCheck.
  keeping HI; first [apply keeps_fanOutStage | apply keeps_runPostStage].
Qed.

Lemma keeps_pipeline cl :
  preserves I (pipeline orc wire inp pick labels act sched sf cl).
Proof.
  unfold pipeline, advisory, loadConfig, policyStage, classifyStage, claimCheck.
  keeping HI; first [apply keeps_fullReview | apply keeps_runPostStage].
Qed.

Lemma keeps_orchestrate : preserves I (orchestrate orc wire inp pick labels act sched sf).
Proof. unfold orchestrate, claimCheck, cleanup. keeping HI. apply keeps_pipeline. Qed.
End Keeps.

(** * Lemmas: the order of the dispatches *)

(** Close an [emits] goal by the shape of the program, down to the dispatches. *)
Ltac emits_shape :=
  repeat (intros; lazymatch goal with
    | |- emits _ (bind _ _) => apply emits_bind
    | |- emits _ (settle _) => apply emits_settle
    | |- emits _ (port _ _) => apply emits_dispatch; intros ?
    | |- emits _ (when _ _) => apply emits_when
    | |- emits _ (recordStage _ _) => apply emits_recordStage
    | |- emits _ (stageOutcome _ _ _ (plain _)) => apply emits_stageOutcome; intros ?; apply emits_plain
    | |- emits _ (stageOutcome _ _ _ (skipping _)) =>
        apply emits_stageOutcome; intros ?; apply emits_skipping
    | |- emits _ (add _) => apply emits_quiet; reflexivity
    | |- emits _ (modify _) => apply emits_quiet; reflexivity
    | |- emits _ (ret _) => apply emits_quiet; reflexivity
    | |- emits _ (throw _) => apply emits_quiet; reflexivity
    | |- emits _ (gets _) => apply emits_quiet; reflexivity
    | |- emits _ (of_result _) => apply emits_quiet; reflexivity
    | |- emits _ (match ?x with _ => _ end) => destruct x
    end).

(** [k] is a position of the call. *)
Ltac in_phases := simpl; first [apply list_elem_of_here | apply list_elem_of_further, list_elem_of_here].

(** Close a [staged] goal whose dispatches all have one position [k]. *)
Ltac stage_at k :=
  intros;
  repeat lazymatch goal with
    | |- staged _ _ (when _ _) => apply staged_when
    | |- staged _ _ (settle _) => apply staged_settle
    | |- staged _ _ (stageOutcome _ _ _ (plain _)) => apply staged_plain; [reflexivity|]
    | |- staged _ _ (stageOutcome _ _ _ (skipping _)) => apply staged_skipping; [reflexivity|]
    | |- staged _ _ (port _ _) => apply (staged_dispatch _ _ _ k); [in_phases|lia]
    | |- staged _ _ (ret _) => apply staged_quiet; reflexivity
    | |- staged _ _ (throw _) => apply staged_quiet; reflexivity
    | |- staged _ _ (add _) => apply staged_quiet; reflexivity
    end.

Lemma quiet_when b m w : (forall w, trace (m w).2 = trace w) -> trace (when b m w).2 = trace w.
Proof. intros H. by destruct b. Qed.

Lemma quiet_bind {A B} (m : M A) (k : A -> M B) w :
  (forall w, trace (m w).2 = trace w) -> (forall a w, trace (k a w).2 = trace w) ->
  trace (bind m k w).2 = trace w.
Proof.
  intros Hm Hk. unfold bind. specialize (Hm w). destruct (m w) as [[a|e] w']; simpl in *; [|done].
  by rewrite Hk.
Qed.

Lemma recordStage_quiet s o w : trace (recordStage s o w).2 = trace w.
Proof. unfold recordStage. by destruct (existsb _ _). Qed.

Section Order.
Variables (orc : oracle) (wire : wiring) (inp : review_input).
Variables (pick : string -> result js_error unit) (labels : repo_config -> result js_error nat).
Variables (act : js_error -> option (string * list dropped_details)) (sched : nat -> list nat) (sf : bool).

Lemma invokeChunk_phase c t :
  emits (fun e => 10 ∈ phases (ev_call e)) (invokeChunk orc wire inp pick c t).
Proof.
  unfold invokeChunk, buildChunkContext, retrieve, embedQuery, emitAudit.
  emits_shape; in_phases.
Qed.

Lemma invokeAll_phase cs t order acc :
  emits (fun e => 10 ∈ phases (ev_call e)) (invokeAll orc wire inp pick cs t order acc).
Proof.
  revert acc. induction order as [|i order IH]; intros acc; simpl; [emits_shape|].
  destruct (cs !! i); [|apply IH].
  apply emits_bind; [apply emits_settle, invokeChunk_phase|intros [r|e]; [apply IH|]].
  destruct (fatal true e); [emits_shape|apply IH].
Qed.

Lemma fanOut_staged cs t : staged 10 10 (fanOut orc wire inp pick sched cs t).
Proof.
  apply staged_chunks. unfold fanOut. destruct (_ <=? _)%Z; [emits_shape|].
  destruct (_ =? _); [emits_shape|]. apply emits_bind; [apply invokeAll_phase|].
  intros m. destruct (sequential _ _). emits_shape.
Qed.

Lemma shortCircuit_staged : staged 9 9 (resolveRetrievalShortCircuit orc wire inp labels).
Proof.
  unfold resolveRetrievalShortCircuit. destruct (negb _); [by apply staged_quiet|].
  apply staged_then; [done|intros cfg]. apply staged_after.
  - apply staged_plain; [done|]. apply staged_after; [stage_at 9|].
    intros p w. apply quiet_bind; [|done]. intros w'. destruct (has_enrichment inp); [|done].
    unfold bind, of_result. by destruct (labels cfg).
  - intros [[p a]|] w; done.
Qed.

Lemma fanOutStage_staged sel sa :
  staged 9 10 (fanOutStage orc wire inp pick labels sched sel sa).
Proof.
  unfold fanOutStage. apply staged_then; [|intros toReview].
  { intros w. unfold capChunks. by destruct (_ <? _). }
  apply (staged_bind 9); [lia..|apply shortCircuit_staged|intros skip].
  apply staged_then; [done|intros _].
  apply staged_after; [apply fanOut_staged|].
  intros [[f i] fl] w. apply quiet_bind; [|done]. intros w'.
  destruct fl as [|x fl]; [done|]. apply quiet_bind; [done|]. intros _ w''.
  destruct (_ <=? _); [|done]. by destruct (carried sel).
Qed.

Lemma analysisStage_staged root routing files :
  staged 6 7 (analysisStage orc sf root routing files).
Proof.
  unfold analysisStage. apply (staged_bind 6); [lia..|stage_at 6|intros cs].
  apply staged_after; [stage_at 7|]. intros o w. apply quiet_bind.
  - intros w'. by destruct cs, o.
  - intros [cs' o'] w'. apply quiet_bind; [intros; by apply quiet_when|].
    intros _ w''. apply quiet_bind; [intros; by apply quiet_when|done].
Qed.

Lemma selectCarry_staged cs : staged 8 8 (selectCarryForwardWithFallback orc inp cs).
Proof.
  unfold selectCarryForwardWithFallback. apply staged_after; [stage_at 8|].
  intros [[s|]|e] w; done.
Qed.

Lemma arbitration_staged sa a intents : staged 16 17 (applyArbitrationStep orc wire sa a intents).
Proof.
  unfold applyArbitrationStep. apply staged_then; [done|intros ids].
  apply (staged_bind 16); [lia..| |intros _].
  - apply staged_when, staged_after; [stage_at 16|]. intros [x|] w; done.
  - apply staged_when, staged_then; [done|intros _]. apply staged_after; [stage_at 17|done].
Qed.

Lemma walkthroughStage_staged a : staged 18 20 (walkthroughStage orc wire a).
Proof.
  unfold walkthroughStage. apply (staged_bind 18); [lia..|stage_at 18|intros w].
  apply (staged_bind 19); [lia..| |intros _].
  - unfold emitAudit. destruct (w_event w); stage_at 19.
  - apply staged_after; [stage_at 20|done].
Qed.

Lemma afterPost_staged a p : staged 24 25 (afterPost orc wire inp act a p).
Proof.
  unfold afterPost. destruct p as [p|e].
  - apply staged_then; [done|intros _]. apply (staged_bind 24); [lia..| |intros _].
    + apply staged_when, staged_after; [stage_at 24|done].
    + apply staged_when, staged_after; [|done]. apply staged_skipping; [done|].
      apply staged_after; [stage_at 25|]. intros [g m] w. apply recordStage_quiet.
  - apply staged_after; [|done]. destruct (extractDroppedStateFromPostFailure act e) as [d|];
      [|stage_at 24].
    unfold dispatchInlineSkippedLifecycle. apply staged_then; [done|intros ids].
    destruct (dd_dropped d); [|stage_at 24]. destruct (dd_posted_pr d); [|stage_at 24].
    destruct (_ || _); [stage_at 24|]. destruct (_ || _); [stage_at 24|].
    apply staged_after; [stage_at 24|done].
Qed.

(** The post stage after the dispatch of its post. *)
Lemma postTail_staged w a posted : staged 23 26
  (let! check := settle (port orc (c_postCheckRun (w_tldr w))) in
   let! review := settle (afterPost orc wire inp act a posted) in
   match review with
   | Throw e => throw e
   | Ok _ => let! _ := when (has_teardown wire) (port orc c_placeholderTeardown) in
       match check with
       | Throw _ => let! _ := recordStage "post_check_run" "error" in add "post_check_run_failed"
       | Ok _ => ret tt
       end
   end).
Proof.
  apply (staged_bind 23); [lia..|stage_at 23|intros c].
  apply (staged_bind 25); [lia..|apply staged_settle, afterPost_staged|intros [r|e]; [|stage_at 26]].
  apply staged_after; [stage_at 26|]. intros _ w'.
  destruct c; [done|]. apply quiet_bind; [|done]. intros. apply recordStage_quiet.
Qed.

Lemma runPostStage_staged w a : staged 22 26 (runPostStage orc wire inp act w a).
Proof.
  unfold runPostStage. do 2 (apply staged_then; [done|intros ?]).
  apply (staged_bind 22); [lia..|stage_at 22|intros p]. apply postTail_staged.
Qed.

Lemma dedupStage_staged linter llm : staged 11 11 (dedupStage orc linter llm).
Proof.
  unfold dedupStage. apply staged_after; [stage_at 11|].
  intros [[f s]|] w; [|done]. apply quiet_bind; [intros; by apply quiet_when|done].
Qed.

Lemma aggregateStage_staged l : staged 13 13 (aggregateStage orc inp l).
Proof. unfold aggregateStage. apply staged_after; [stage_at 13|done]. Qed.

Lemma policyFilter_quiet a w : trace (applyPolicyPostFilter a w).2 = trace w.
Proof.
  unfold applyPolicyPostFilter. apply quiet_bind; [done|]. intros b w'.
  destruct (_ =? _); [done|]. destruct (postFilterFindingsWithMetadata _ _) as [x y].
  apply quiet_bind; [intros; apply recordStage_quiet|]. intros _ w''.
  apply quiet_bind; [done|]. intros _ w3. by destruct (forallb _ _).
Qed.

Lemma citationStage_staged root a : staged 14 14 (citationStage orc wire root a).
Proof.
  unfold citationStage. destruct (negb _); [by apply staged_quiet|].
  do 2 (apply staged_then; [done|intros ?]). apply staged_after; [stage_at 14|].
  intros [s d'] w. by destruct (negb _).
Qed.

Lemma persistStage_staged a : staged 15 15 (persistStage orc a).
Proof. unfold persistStage. apply staged_then; [done|intros ?]. apply staged_after; [stage_at 15|done]. Qed.

Lemma loadConfig_staged root : staged 2 2 (loadConfig orc root).
Proof. apply staged_after; [stage_at 2|by intros []]. Qed.

Lemma policyStage_staged root : staged 3 3 (policyStage orc inp root).
Proof.
  unfold policyStage. apply staged_then; [done|intros ?]. apply staged_after; [stage_at 3|].
  by intros [] w.
Qed.

Lemma classifyStage_staged root : staged 5 5 (classifyStage orc inp root).
Proof.
  unfold classifyStage. apply staged_after; [stage_at 5|]. intros o w.
  apply quiet_bind; [intros; by apply quiet_when|done].
Qed.

Lemma claimCheck_staged k b : k ∈ phases (c_claimCheck b) -> staged k k (claimCheck orc wire b).
Proof. intros Hk. apply staged_when. by apply (staged_dispatch _ _ _ k). Qed.

Lemma deliver_staged root routing sa sel llm ins :
  staged 11 26 (deliver orc wire inp act root routing sa sel llm ins).
Proof.
  unfold deliver. apply (staged_bind 11); [lia..|apply dedupStage_staged|intros d].
  apply (staged_bind 12); [lia..|apply claimCheck_staged; in_phases|intros _].
  apply (staged_bind 13); [lia..|apply aggregateStage_staged|intros a0].
  apply staged_then; [done|intros a1]. apply staged_then; [apply policyFilter_quiet|intros a2].
  apply (staged_bind 14); [lia..|apply citationStage_staged|intros a].
  apply (staged_bind 15); [lia..|apply persistStage_staged|intros _].
  apply (staged_bind 17); [lia..|apply arbitration_staged|intros _].
  apply (staged_bind 20); [lia..|apply walkthroughStage_staged|intros w].
  apply (staged_bind 21); [lia..|apply claimCheck_staged; in_phases|intros _].
  apply staged_after; [apply runPostStage_staged|done].
Qed.

Lemma fullReview_staged root routing files :
  staged 6 26 (fullReview orc wire inp pick labels act sched sf root routing files).
Proof.
  unfold fullReview. apply (staged_bind 7); [lia..|apply analysisStage_staged|intros [cs sa]].
  apply (staged_bind 8); [lia..|apply selectCarry_staged|intros sel].
  apply (staged_bind 10); [lia..|apply fanOutStage_staged|intros [fs ins]].
  apply deliver_staged.
Qed.

Lemma advisory_staged routing : staged 12 26 (advisory orc wire inp act routing).
Proof.
  unfold advisory. apply (staged_bind 12); [lia..|apply claimCheck_staged; in_phases|intros _].
  apply (staged_bind 13); [lia..|stage_at 13|intros a].
  apply (staged_bind 18); [lia..|stage_at 18|intros w].
  apply staged_after; [|done].
  apply (staged_weaken 22 26); [lia..|apply runPostStage_staged].
Qed.

Lemma pipeline_staged cl : staged 2 26 (pipeline orc wire inp pick labels act sched sf cl).
Proof.
  unfold pipeline. apply (staged_bind 2); [lia..|apply loadConfig_staged|intros _].
  apply (staged_bind 3); [lia..|apply policyStage_staged|intros _].
  apply (staged_bind 4); [lia..|apply claimCheck_staged; in_phases|intros _].
  apply (staged_bind 5); [lia..|apply classifyStage_staged|intros r].
  apply staged_then; [done|intros cfg].
  destruct (_ && _); [|apply fullReview_staged].
  apply (staged_weaken 12 26); [lia..|apply advisory_staged].
Qed.
End Order.

(** * Lemmas: lost claims and posts *)

Definition lost (e : event) : Prop := exists b x, e = Event (c_claimCheck b) (Some x).
Definition is_post (e : event) : Prop := exists a w f s, ev_call e = c_postReview a w f s.
Definition is_cleanup (e : event) : Prop := exists id, ev_call e = c_cleanup id.

(** A lost claim ends the run, with its error. *)
Definition guarded {A} (m : M A) : Prop :=
  forall w, exists l, trace (m w).2 = trace w ++ l /\
    (Forall (fun e => ~ lost e) l \/
     exists l0 b x, l = l0 ++ [Event (c_claimCheck b) (Some x)] /\
       Forall (fun e => ~ lost e) l0 /\ (m w).1 = Throw x).

(** What stands just before a post: the claim check that held, or on the
    advisory path the check, the aggregation and the walkthrough. *)
Definition preceded (l : list event) : Prop :=
  exists l0, l = l0 ++ [Event (c_claimCheck before_post) None] \/
    exists a rev fs, l = l0 ++ [Event (c_claimCheck before_advisory) None;
      Event (c_aggregate fs rev) None; Event (c_generateWalkthrough a) None].

Definition fences {A} (m : M A) : Prop :=
  forall w, exists l, trace (m w).2 = trace w ++ l /\
    forall l1 e l2, l = l1 ++ e :: l2 -> is_post e -> preceded l1.

Lemma guarded_bind {A B} (m : M A) (k : A -> M B) :
  guarded m -> (forall a, guarded (k a)) -> guarded (bind m k).
Proof.
  intros Hm Hk w. destruct (Hm w) as (l & E & Hl). unfold bind.
  destruct (m w) as [[a|e] w']; cbn [fst snd] in *;
    destruct Hl as [Hl|(l0 & b & x & El & Hl & Hr)]; try done; cycle 1.
  { exists l. auto. }
  { injection Hr as ->. exists l. split; [done|]. right. by exists l0, b, x. }
  destruct (Hk a w') as (l' & E' & Hl'). exists (l ++ l'). rewrite E', E, (assoc_L (++)).
  split; [done|]. destruct Hl' as [Hl'|(l0 & b & x & -> & Hl0 & Hr)].
  - left. by apply Forall_app.
  - right. exists (l ++ l0), b, x. rewrite <- (assoc_L (++)). split_and!; [done| |done].
    by apply Forall_app.
Qed.

Lemma guarded_emits {A} (m : M A) : emits (fun e => ~ lost e) m -> guarded m.
Proof. intros H w. destruct (H w) as (l & E & Hl). exists l. auto. Qed.

Lemma staged_emits {A} (P : event -> Prop) lo hi (m : M A) :
  staged lo hi m -> (forall e k, k ∈ phases (ev_call e) -> lo <= k <= hi -> P e) -> emits P m.
Proof.
  intros Hm HP w. destruct (Hm w) as (l & ks & E & F2 & _ & F). exists l. split; [done|].
  clear E. induction F2 as [|e k l ks Hk F2 IH]; [done|].
  apply Forall_cons in F as [Hb F]. constructor; [by apply (HP e k)|by apply IH].
Qed.

Definition claim_phase (k : nat) : bool := (k =? 0) || (k =? 4) || (k =? 12) || (k =? 21).

Lemma lost_phase e k : lost e -> k ∈ phases (ev_call e) -> claim_phase k = true.
Proof. intros (b & x & ->). destruct b; simpl; intros ->%list_elem_of_singleton; done. Qed.

Lemma staged_guarded {A} lo hi (m : M A) :
  staged lo hi m -> forallb (fun k => negb (claim_phase k)) (seq lo (S hi - lo)) = true -> guarded m.
Proof.
  intros Hm Hk. apply guarded_emits. eapply staged_emits; [exact Hm|].
  intros e k Hp Hb Hl. rewrite forallb_forall in Hk.
  specialize (Hk k ltac:(apply in_seq; lia)). by rewrite (lost_phase e k) in Hk.
Qed.

Lemma guarded_claim orc wire b : guarded (claimCheck orc wire b).
Proof.
  unfold claimCheck, when, port, dispatch. destruct (has_claimCheck wire); intros w; simpl.
  - destruct (orc (trace w) (c_claimCheck b)) as [[]|e]; simpl.
    + eexists. split; [done|]. left. constructor; [|constructor]. by intros (? & ? & [= ]).
    + eexists. split; [done|]. right. by exists [], b, e.
  - exists []. rewrite app_nil_r. auto.
Qed.

Lemma preceded_app l l' : preceded l' -> preceded (l ++ l').
Proof.
  intros (l0 & [->|(a & rev & fs & ->)]); exists (l ++ l0).
  - left. by rewrite (assoc_L (++)).
  - right. exists a, rev, fs. by rewrite (assoc_L (++)).
Qed.

Lemma fences_bind {A B} (m : M A) (k : A -> M B) :
  fences m -> (forall a, fences (k a)) -> fences (bind m k).
Proof.
  intros Hm Hk w. destruct (Hm w) as (l & E & Hl). unfold bind.
  destruct (m w) as [[a|e] w']; cbn [snd] in *; [|by exists l].
  destruct (Hk a w') as (l' & E' & Hl'). exists (l ++ l'). rewrite E', E, (assoc_L (++)).
  split; [done|]. intros l1 x l2 Hx Hp.
  apply app_eq_inv in Hx as [(l3 & -> & Hx)|(l3 & -> & Hx)].
  - destruct l3 as [|y l3]; simpl in *.
    + rewrite app_nil_r in *. rewrite <- (app_nil_r l1). apply preceded_app. by apply (Hl' [] x l2).
    + injection Hx as <- ->. by eapply Hl.
  - apply preceded_app. by eapply Hl'.
Qed.

Lemma fences_emits {A} (m : M A) : emits (fun e => ~ is_post e) m -> fences m.
Proof.
  intros H w. destruct (H w) as (l & E & Hl). exists l. split; [done|].
  intros l1 e l2 -> Hp. rewrite Forall_app, Forall_cons in Hl. tauto.
Qed.

Lemma staged_fences {A} lo hi (m : M A) :
  staged lo hi m -> hi < 22 \/ 22 < lo -> fences m.
Proof.
  intros Hm Hh. apply fences_emits. eapply staged_emits; [exact Hm|].
  intros e k Hk Hb (a & w & f & s & Hc). rewrite Hc in Hk. simpl in Hk.
  apply list_elem_of_singleton in Hk. lia.
Qed.

(** A program whose first dispatch is the only post. *)
Definition posts_first {A} (m : M A) : Prop :=
  forall w, exists e l, trace (m w).2 = trace w ++ e :: l /\ Forall (fun e => ~ is_post e) l.

Lemma posts_first_after {A B} (m : M A) (k : A -> M B) :
  posts_first m -> (forall a, emits (fun e => ~ is_post e) (k a)) -> posts_first (bind m k).
Proof.
  intros Hm Hk w. destruct (Hm w) as (e & l & E & Hl). unfold bind.
  destruct (m w) as [[a|x] w']; cbn [snd] in *; [|by exists e, l].
  destruct (Hk a w') as (l' & E' & Hl'). exists e, (l ++ l').
  rewrite E', E, <- (assoc_L (++)), app_comm_cons. split; [done|]. by apply Forall_app.
Qed.

(** After a claim check that held, a program that begins with its post is
    fenced. *)
Lemma fences_claimed {A B} (pre : M B) (m : B -> M A) :
  (forall w, exists l, trace (pre w).2 = trace w ++ l /\ Forall (fun e => ~ is_post e) l /\
     (is_ok (pre w).1 = true -> preceded l)) ->
  (forall b, posts_first (m b)) -> fences (bind pre m).
Proof.
  intros Hp Hm w. destruct (Hp w) as (l & E & Hl & Hok). unfold bind.
  assert (Hnone : forall l1 e l2, l = l1 ++ e :: l2 -> is_post e -> preceded l1).
  { intros l1 e l2 -> He. rewrite Forall_app, Forall_cons in Hl. tauto. }
  destruct (pre w) as [[b|x] w']; cbn [fst snd] in *; [|by exists l].
  destruct (Hm b w') as (e & l' & E' & Hl'). exists (l ++ e :: l').
  rewrite E', E, <- (assoc_L (++)). split; [done|]. intros l1 y l2 Hx Hy.
  apply app_eq_inv in Hx as [(l3 & -> & Hx)|(l3 & -> & Hx)].
  - destruct l3 as [|z l3]; simpl in *.
    + rewrite app_nil_r in Hok. by apply Hok.
    + injection Hx as <- ->. by eapply Hnone.
  - destruct l3 as [|z l3]; simpl in *.
    + rewrite app_nil_r. by apply Hok.
    + injection Hx as -> ->. rewrite Forall_app, Forall_cons in Hl'. tauto.
Qed.

Section Claims.
Variables (orc : oracle) (wire : wiring) (inp : review_input).
Variables (pick : string -> result js_error unit) (labels : repo_config -> result js_error nat).
Variables (act : js_error -> option (string * list dropped_details)) (sched : nat -> list nat) (sf : bool).

Lemma runPostStage_first w a : posts_first (runPostStage orc wire inp act w a).
Proof.
  intros w'. unfold runPostStage. rewrite (bind_run (gets arbitration_result)). cbn [gets].
  rewrite (bind_run (gets arbitration_statuses)). cbn [gets]. revert w'.
  intros w'. apply posts_first_after.
  - intros w0. unfold settle, port, dispatch. simpl. by eexists _, [].
  - intros p. eapply staged_emits; [apply postTail_staged|].
    intros e k Hk Hb (? & ? & ? & ? & Hc). rewrite Hc in Hk.
    apply list_elem_of_singleton in Hk. lia.
Qed.

Lemma claimed_fence {A} w a (k : M A) :
  has_claimCheck wire = true -> emits (fun e => ~ is_post e) k ->
  fences (let! _ := claimCheck orc wire before_post in
          let! _ := runPostStage orc wire inp act w a in k).
Proof.
  intros Hc Hk. apply fences_claimed.
  - intros w'. unfold claimCheck, port, dispatch, when. rewrite Hc. simpl. eexists. split; [done|].
    split; [constructor; [|done]; by intros (?&?&?&?&?)|].
    destruct (orc _ _); [|done]. intros _. exists []. by left.
  - intros _. apply posts_first_after; [apply runPostStage_first|done].
Qed.

Lemma deliver_fences root routing sa sel llm ins :
  has_claimCheck wire = true ->
  fences (deliver orc wire inp act root routing sa sel llm ins).
Proof.
  intros Hc. unfold deliver.
  apply fences_bind; [eapply staged_fences; [apply dedupStage_staged|lia]|intros d].
  apply fences_bind; [apply (staged_fences 12 12); [apply claimCheck_staged; in_phases|lia]|intros _].
  apply fences_bind; [eapply staged_fences; [apply aggregateStage_staged|lia]|intros a0].
  apply fences_bind; [by apply fences_emits, emits_quiet|intros a1].
  apply fences_bind; [apply fences_emits, emits_quiet, policyFilter_quiet|intros a2].
  apply fences_bind; [eapply staged_fences; [apply citationStage_staged|lia]|intros a].
  apply fences_bind; [eapply staged_fences; [apply persistStage_staged|lia]|intros _].
  apply fences_bind; [eapply staged_fences; [apply arbitration_staged|lia]|intros _].
  apply fences_bind; [eapply staged_fences; [apply walkthroughStage_staged|lia]|intros w].
  apply claimed_fence; [done|]. emits_shape.
Qed.

Lemma fullReview_fences root routing files :
  has_claimCheck wire = true ->
  fences (fullReview orc wire inp pick labels act sched sf root routing files).
Proof.
  intros Hc. unfold fullReview.
  apply fences_bind; [eapply staged_fences; [apply analysisStage_staged|lia]|intros [cs sa]].
  apply fences_bind; [eapply staged_fences; [apply selectCarry_staged|lia]|intros sel].
  apply fences_bind; [eapply staged_fences; [apply fanOutStage_staged|lia]|intros [fs ins]].
  by apply deliver_fences.
Qed.

Lemma advisory_fences routing :
  has_claimCheck wire = true -> fences (advisory orc wire inp act routing).
Proof.
  intros Hc. set (pre := let! _ := claimCheck orc wire before_advisory in
    let! a := port orc (c_aggregate [pathFiltersExcludedAllFinding] (policyRevision inp)) in
    let! w := port orc (c_generateWalkthrough a) in (ret (a, w) : M (aggregated * walkthrough))).
  set (rest := fun p : aggregated * walkthrough =>
    let! _ := runPostStage orc wire inp act p.2 p.1 in
    let! _ := add "path_filters_excluded_all" in
    let! notes := gets degradation in
    ret (PipelineResult "accepted" (length (a_findings p.1)) p.2 p.1 routing None None
         (failure_ratio (length (classifier_failures routing)) (length (changedPaths inp)))
         notes [] [] None)).
  assert (Hf : fences (bind pre rest)).
  { apply fences_claimed.
    - intros w. unfold pre, claimCheck, when, port, dispatch, bind. rewrite Hc. simpl.
      assert (Hn : forall c o, (forall a w f s, c <> c_postReview a w f s) -> ~ is_post (Event c o))
        by (intros c o H (?&?&?&?&?); by eapply H).
      destruct (orc _ (c_claimCheck _)) as [[]|e]; simpl;
        [|eexists; split; [done|]; split; [repeat constructor; by apply Hn|done]].
      destruct (orc _ (c_aggregate _ _)) as [a|e]; simpl;
        [|eexists; split; [by rewrite <- (assoc_L (++))|]; split; [repeat constructor; by apply Hn|done]].
      destruct (orc _ (c_generateWalkthrough _)) as [wt|e]; simpl;
        (eexists; split; [by rewrite <- !(assoc_L (++))|]; split; [repeat constructor; by apply Hn|]); [|done].
      intros _. exists []. right. by eexists _, _, _.
    - intros [a w]. apply posts_first_after; [apply runPostStage_first|]. emits_shape. }
  intros w. destruct (Hf w) as (l & E & Hl). exists l. split; [|done].
  rewrite <- E. unfold advisory, pre, rest, bind.
  destruct (claimCheck _ _ _ _) as [[]]; [|done]. destruct (port _ _ _) as [[]]; [|done].
  by destruct (port _ _ _) as [[]].
Qed.

Lemma pipeline_fences cl :
  has_claimCheck wire = true -> fences (pipeline orc wire inp pick labels act sched sf cl).
Proof.
  intros Hc. unfold pipeline.
  apply fences_bind; [eapply staged_fences; [apply loadConfig_staged|lia]|intros _].
  apply fences_bind; [eapply staged_fences; [apply policyStage_staged|lia]|intros _].
  apply fences_bind; [apply (staged_fences 4 4); [apply claimCheck_staged; in_phases|lia]|intros _].
  apply fences_bind; [eapply staged_fences; [apply classifyStage_staged|lia]|intros r].
  apply fences_bind; [by apply fences_emits, emits_quiet|intros cfg].
  destruct (_ && _); [by apply advisory_fences|by apply fullReview_fences].
Qed.

Lemma deliver_guarded root routing sa sel llm ins :
  guarded (deliver orc wire inp act root routing sa sel llm ins).
Proof.
  unfold deliver.
  apply guarded_bind; [eapply staged_guarded; [apply dedupStage_staged|done]|intros d].
  apply guarded_bind; [apply guarded_claim|intros _].
  apply guarded_bind; [eapply staged_guarded; [apply aggregateStage_staged|done]|intros a0].
  apply guarded_bind; [by apply guarded_emits, emits_quiet|intros a1].
  apply guarded_bind; [apply guarded_emits, emits_quiet, policyFilter_quiet|intros a2].
  apply guarded_bind; [eapply staged_guarded; [apply citationStage_staged|done]|intros a].
  apply guarded_bind; [eapply staged_guarded; [apply persistStage_staged|done]|intros _].
  apply guarded_bind; [eapply staged_guarded; [apply arbitration_staged|done]|intros _].
  apply guarded_bind; [eapply staged_guarded; [apply walkthroughStage_staged|done]|intros w].
  apply guarded_bind; [apply guarded_claim|intros _].
  apply guarded_bind; [eapply staged_guarded; [apply runPostStage_staged|done]|intros _].
  apply guarded_emits. emits_shape.
Qed.

Lemma fullReview_guarded root routing files :
  guarded (fullReview orc wire inp pick labels act sched sf root routing files).
Proof.
  unfold fullReview.
  apply guarded_bind; [eapply staged_guarded; [apply analysisStage_staged|done]|intros [cs sa]].
  apply guarded_bind; [eapply staged_guarded; [apply selectCarry_staged|done]|intros sel].
  apply guarded_bind; [eapply staged_guarded; [apply fanOutStage_staged|done]|intros [fs ins]].
  apply deliver_guarded.
Qed.

Lemma pipeline_guarded cl : guarded (pipeline orc wire inp pick labels act sched sf cl).
Proof.
  unfold pipeline.
  apply guarded_bind; [eapply staged_guarded; [apply loadConfig_staged|done]|intros _].
  apply guarded_bind; [eapply staged_guarded; [apply policyStage_staged|done]|intros _].
  apply guarded_bind; [apply guarded_claim|intros _].
  apply guarded_bind; [eapply staged_guarded; [apply classifyStage_staged|done]|intros r].
  apply guarded_bind; [by apply guarded_emits, emits_quiet|intros cfg].
  destruct (_ && _); [|apply fullReview_guarded]. unfold advisory.
  apply guarded_bind; [apply guarded_claim|intros _].
  apply guarded_bind; [apply guarded_emits; emits_shape; by intros (?&?&?)|intros a].
  apply guarded_bind; [apply guarded_emits; emits_shape; by intros (?&?&?)|intros w].
  apply guarded_bind; [eapply staged_guarded; [apply runPostStage_staged|done]|intros _].
  apply guarded_emits. emits_shape.
Qed.
End Claims.

(** * Lemmas: degrading *)

Section Degrades.
Variables (orc : oracle) (wire : wiring) (inp : review_input).

(** The dispatches whose failure the review survives. *)
Definition tolerated (c : call) : Prop :=
  match c with
  | c_computePolicyRules _ _ _ _ | c_classify _ _ | c_staticAnalysis _ _
  | c_selectCarryForward _ _ _ | c_probeKnowledgeCorpus | c_embedQuery _
  | c_retrieveKnowledge _ _ | c_buildRetrievedEvidence _ _ _ | c_reviewChunk _
  | c_dedupFindings _ _ | c_persistReviewFindings _ _ | c_applyArbitration _ _ _ _
  | c_recordToolRuns _ | c_persistReviewWalkthrough _ | c_postCheckRun _
  | c_recordDeliverySkipped _ _ _ | c_updatePrDescriptionSummary _ | c_generateFixPrompt _
  | c_cleanup _ => True
  | c_aggregate l _ => l <> [pathFiltersExcludedAllFinding]
  | _ => False
  end.

(** Only tolerated dispatches fail, and no failure aborts a fan-out (a
    cancellation, a throttle). *)
Definition only_tolerated_fail : Prop :=
  forall h c e, orc h c = Throw e -> tolerated c /\ FanOut.fatal true e = false.

Hypothesis Horc : only_tolerated_fail.

Lemma fatal_not_cancelled e : FanOut.fatal true e = false -> isCancellation e = false.
Proof. unfold fatal. simpl. by destruct (isCancellation e). Qed.

Lemma returns_dispatch c : ~ tolerated c -> returns (port orc c).
Proof.
  intros Hc w. unfold port, dispatch. simpl.
  destruct (orc (trace w) c) as [r|e] eqn:E; [done|]. by apply Horc in E as [? _].
Qed.

Lemma port_not_cancelled c w :
  match (port orc c w).1 with Throw e => isCancellation e = false | Ok _ => True end.
Proof.
  unfold port, dispatch. simpl. destruct (orc (trace w) c) as [r|e] eqn:E; [done|].
  apply fatal_not_cancelled. by apply Horc in E as [_ ?].
Qed.

(** The bodies of the stages: an outcome that is not a cancellation. *)
Definition mild {A} (m : M A) : Prop :=
  forall w, match (m w).1 with Throw e => isCancellation e = false | Ok _ => True end.

Lemma mild_returns {A} (m : M A) : returns m -> mild m.
Proof. intros H w. specialize (H w). by destruct (m w).1. Qed.

Lemma mild_bind {A B} (m : M A) (k : A -> M B) : mild m -> (forall a, mild (k a)) -> mild (bind m k).
Proof.
  intros Hm Hk w. specialize (Hm w). unfold bind.
  destruct (m w) as [[a|e] w']; [apply Hk|done].
Qed.

Lemma returns_stage {A} stage n (m : M A) (b : body A) :
  b = plain m \/ b = skipping m -> existsb (String.eqb stage) STAGE_NAMES = true ->
  mild m -> returns (stageOutcome stage n false b).
Proof.
  intros Hb Hs Hm w. rewrite (stageOutcome_returns _ _ m) by first [done | apply Hm].
  by destruct (m w).1.
Qed.

Lemma returns_settled {A B} (m : M A) (k : result js_error A -> M B) :
  returns m -> (forall a, returns (k (Ok a))) -> returns (bind (settle m) k).
Proof.
  intros Hm Hk w. specialize (Hm w). unfold bind, settle.
  destruct (m w) as [[a|e] w']; [apply Hk|done].
Qed.

Lemma returns_when b m : returns m -> returns (when b m).
Proof. by destruct b. Qed.

End Degrades.

(** Close a [returns] goal by the shape of the program. *)
Ltac returning H :=
  repeat (intros; lazymatch goal with
    | |- returns (bind _ _) => apply returns_bind
    | |- returns (settle _) => apply returns_settle
    | |- returns (when _ _) => apply returns_when
    | |- returns (stageOutcome _ _ false (plain ?m)) =>
        apply (returns_stage _ _ m); [by left|reflexivity|]
    | |- returns (stageOutcome _ _ false (skipping ?m)) =>
        apply (returns_stage _ _ m); [by right|reflexivity|]
    | |- returns (port _ ?c) => apply (returns_dispatch _ H c); simpl; tauto
    | |- returns (add _) => intros ?; reflexivity
    | |- returns (modify _) => intros ?; reflexivity
    | |- returns (ret _) => intros ?; reflexivity
    | |- returns (gets _) => intros ?; reflexivity
    | |- returns (push_notes ?b _) => intros ?; destruct b; reflexivity
    | |- returns (recordStage _ _) => intros ?; reflexivity
    | |- returns (match ?x with _ => _ end) => destruct x
    | |- mild (port _ ?c) => intros ?; apply (port_not_cancelled _ H c)
    | |- mild (bind _ _) => apply mild_bind
    | |- mild (of_result _) => fail
    | |- mild (match ?x with _ => _ end) => destruct x
    | |- mild _ => apply mild_returns
    end).

Section Survives.
Variables (orc : oracle) (wire : wiring) (inp : review_input).
Variables (pick : string -> result js_error unit) (labels : repo_config -> result js_error nat).
Variables (act : js_error -> option (string * list dropped_details)) (sched : nat -> list nat) (sf : bool).
Hypothesis Horc : only_tolerated_fail orc.
Hypothesis Hpick : forall p e, pick p = Throw e -> isCancellation e = false.
Hypothesis Hlabels : forall c e, labels c = Throw e -> isCancellation e = false.
Hypothesis Hsched : forall n, sched n ≡ₚ seq 0 n.
Hypothesis Hconc : (0 < chunkConcurrency inp)%Z.

(** The chunk reviews among some dispatches were all answered with errors. *)
Definition reviews_failed (l : list event) : Prop :=
  Forall (fun e => forall rc, ev_call e = c_reviewChunk rc -> ev_error e <> None) l.

Definition runs_chunk {A} (m : M A) : Prop :=
  forall w, exists l, trace (m w).2 = trace w ++ l /\
    match (m w).1 with
    | Ok _ => True
    | Throw e => FanOut.fatal true e = false /\ reviews_failed l
    end.

Lemma returns_afterPost a p :
  is_ok p = true -> returns (afterPost orc wire inp act a p).
Proof.
  intros Hp. destruct p as [p|e]; [|done]. unfold afterPost, captureFromPostedReview.
  returning Horc. intros w. unfold recordStage.
  assert (existsb (String.eqb (fixPromptStageOutcome b s)) OUTCOMES = true) as ->; [|done].
  unfold fixPromptStageOutcome. destruct b; [destruct (String.eqb s "llm")|]; done.
Qed.

Lemma returns_runPostStage w a : returns (runPostStage orc wire inp act w a).
Proof.
  unfold runPostStage. do 2 (apply returns_bind; [by returning Horc|intros ?]).
  apply returns_settled; [by returning Horc|intros p].
  apply returns_bind; [by returning Horc|intros check].
  apply returns_settled; [by apply returns_afterPost|intros _]. returning Horc.
Qed.

(** Neither a chunk review nor a post. *)
Definition plain_call (e : event) : Prop :=
  (forall rc, ev_call e <> c_reviewChunk rc) /\ ~ is_post e.

Lemma plain_reviews l : Forall plain_call l -> reviews_failed l.
Proof. intros H. eapply Forall_impl; [exact H|]. intros e [He _] rc Hrc. by apply He in Hrc. Qed.

Lemma reviews_failed_app l l' : reviews_failed l -> reviews_failed l' -> reviews_failed (l ++ l').
Proof. intros. by apply Forall_app. Qed.

Lemma runs_chunk_returns {A} (m : M A) : returns m -> emits plain_call m -> runs_chunk m.
Proof.
  intros Hr He w. destruct (He w) as (l & E & _). exists l. split; [done|].
  specialize (Hr w). by destruct (m w).1.
Qed.

Lemma runs_chunk_bind {A B} (m : M A) (k : A -> M B) :
  runs_chunk m -> emits plain_call m -> (forall a, runs_chunk (k a)) -> runs_chunk (bind m k).
Proof.
  intros Hm He Hk w. destruct (Hm w) as (l & E & Hl). destruct (He w) as (l0 & E0 & Hl0).
  rewrite E in E0. apply app_inv_head in E0 as <-. unfold bind.
  destruct (m w) as [[a|e] w']; cbn [fst snd] in *; [|by exists l].
  destruct (Hk a w') as (l' & E' & Hl'). exists (l ++ l'). rewrite E', E, (assoc_L (++)).
  split; [done|]. destruct (k a w').1; [done|]. destruct Hl' as [? ?].
  split; [done|]. by apply reviews_failed_app; [apply plain_reviews|].
Qed.

Lemma runs_chunk_port c : plain_call (Event c None) -> runs_chunk (port orc c).
Proof.
  intros Hc w. unfold port, dispatch. cbn [fst snd trace]. eexists. split; [done|].
  destruct (orc (trace w) c) as [r|e] eqn:E; [done|]. apply Horc in E as [_ Hf].
  split; [done|]. apply plain_reviews. constructor; [|done].
  destruct Hc as [H1 H2]. split; [done|]. by intros (?&?&?&?&?); apply H2; eexists _, _, _, _.
Qed.

Ltac plain_event := split; [intros ? [=]|intros (?&?&?&?&[=])].

Lemma retrieve_chunk c : runs_chunk (retrieve orc inp pick c).
Proof.
  apply runs_chunk_returns.
  - unfold retrieve, embedQuery. returning Horc.
    intros w. unfold of_result. simpl. destruct (pick (dc_path c)) eqn:E; [done|]. by apply Hpick in E.
  - unfold retrieve, embedQuery. emits_shape; plain_event.
Qed.

Lemma review_chunk_stage rc :
  runs_chunk (let! r := stageOutcome "review_chunk" true true (plain (port orc (c_reviewChunk rc))) in
    match r with
    | None => throw (plain_error "review_chunk: unexpected empty result")
    | Some res => let! _ := emitAudit orc wire (cr_event res) in ret (cr_findings res, cr_intents res)
    end).
Proof.
  intros w.
  pose proof (stageOutcome_raises "review_chunk" true (port orc (c_reviewChunk rc)) w eq_refl) as Hr.
  pose proof (stageOutcome_trace "review_chunk" true true (port orc (c_reviewChunk rc)) _ w
    (or_introl eq_refl) eq_refl) as Ht.
  rewrite bind_run. destruct (stageOutcome _ _ _ _ w) as [r w1]. cbn [fst snd] in *. subst r.
  unfold port, dispatch in *. cbn [fst snd trace] in *.
  destruct (orc (trace w) (c_reviewChunk rc)) as [res|e] eqn:E.
  - assert (Hk : returns (let! _ := emitAudit orc wire (cr_event res) in
                          ret (cr_findings res, cr_intents res))).
    { unfold emitAudit. returning Horc. }
    assert (He : emits plain_call (let! _ := emitAudit orc wire (cr_event res) in
                          ret (cr_findings res, cr_intents res))).
    { unfold emitAudit. emits_shape. plain_event. }
    destruct (He w1) as (l & El & _). eexists. split; [rewrite El, Ht, <- (assoc_L (++)); done|].
    specialize (Hk w1). by destruct (bind _ _ w1).1.
  - eexists. split; [exact Ht|]. apply Horc in E as [_ ?]. split; [done|].
    constructor; [|done]. by intros ? [= <-].
Qed.

Lemma invokeChunk_runs c t : runs_chunk (invokeChunk orc wire inp pick c t).
Proof.
  unfold invokeChunk. apply runs_chunk_bind; [| |apply review_chunk_stage].
  - unfold buildChunkContext. apply runs_chunk_bind; [|emits_shape|intros bs].
    { apply runs_chunk_returns; [returning Horc|emits_shape]. }
    apply runs_chunk_bind; [apply retrieve_chunk| |intros [[k d] r]].
    { unfold retrieve, embedQuery. emits_shape; plain_event. }
    apply runs_chunk_bind; [| |intros ev].
    + destruct (has_evidence wire); [apply runs_chunk_port; plain_event|].
      apply runs_chunk_returns; [returning Horc|emits_shape].
    + emits_shape; plain_event.
    + apply runs_chunk_returns; [returning Horc|emits_shape].
  - unfold buildChunkContext, retrieve, embedQuery. emits_shape; plain_event.
Qed.

Lemma invokeAll_runs cs t order acc w :
  NoDup order ->
  exists m l, (invokeAll orc wire inp pick cs t order acc w).1 = Ok m /\
    trace (invokeAll orc wire inp pick cs t order acc w).2 = trace w ++ l /\
    (forall i, i ∉ order -> m !! i = acc !! i) /\
    ((forall i r, i ∈ order -> m !! i <> Some (Ok r)) -> reviews_failed l).
Proof.
  revert acc w. induction order as [|i order IH]; intros acc w Hnd; simpl.
  { exists acc, []. rewrite app_nil_r. split_and!; [done..|]. intros _. constructor. }
  apply NoDup_cons in Hnd as [Hi Hnd]. destruct (cs !! i) as [c|].
  - unfold bind, settle. destruct (invokeChunk_runs c t w) as (l & E & Hl).
    destruct (invokeChunk _ _ _ _ _ _ w) as [r w1]. cbn [fst snd] in *.
    assert (Hgo : (match r with
      | Ok _ => invokeAll orc wire inp pick cs t order (<[i:=r]> acc)
      | Throw e => if fatal true e then throw e
                   else invokeAll orc wire inp pick cs t order (<[i:=r]> acc)
      end) w1 = invokeAll orc wire inp pick cs t order (<[i:=r]> acc) w1).
    { destruct r as [?|e]; [done|]. by destruct Hl as [-> _]. }
    rewrite Hgo. clear Hgo.
    destruct (IH (<[i:=r]> acc) w1 Hnd) as (m & l' & Hm & E' & Hd & Hf).
    exists m, (l ++ l'). rewrite Hm, E', E, (assoc_L (++)). split_and!; [done..| |].
    + intros j [? ?]%not_elem_of_cons. rewrite Hd by done. by apply lookup_insert_ne.
    + intros Hall. apply reviews_failed_app.
      * destruct r as [x|e]; [|by destruct Hl]. exfalso. apply (Hall i x); [by left|].
        rewrite Hd by done. apply lookup_insert_eq.
      * apply Hf. intros j x Hj. apply Hall. by right.
  - destruct (IH acc w Hnd) as (m & l & Hm & E & Hd & Hf). exists m, l.
    split_and!; [done..| |].
    + intros j [? ?]%not_elem_of_cons. by apply Hd.
    + intros Hall. apply Hf. intros j x Hj. apply Hall. by right.
Qed.

Lemma length_omap {A B} (g : A -> option B) (l : list A) : length (omap g l) <= length l.
Proof. induction l as [|z l IH]; csimpl; [done|]. destruct (g z); csimpl; lia. Qed.

Lemma length_omap_full {A B} (g : A -> option B) (l : list A) :
  length l <= length (omap g l) -> forall x, x ∈ l -> is_Some (g x).
Proof.
  induction l as [|y l IH]; csimpl; [by intros _ x ?%elem_of_nil|].
  pose proof (length_omap g l) as Hle.
  intros Hl x. destruct (g y) as [b|] eqn:E; csimpl in *; [|lia].
  intros [->|Hx]%elem_of_cons; [by eexists|]. apply IH; [lia|done].
Qed.

(** A fan-out: it returns, and when as many chunks failed as there are, no
    review succeeded. *)
Lemma fanOut_runs cs t w :
  exists f ins fl l, (fanOut orc wire inp pick sched cs t w).1 = Ok (f, ins, fl) /\
    trace (fanOut orc wire inp pick sched cs t w).2 = trace w ++ l /\
    (Nat.max 1 (length cs) <= length fl -> reviews_failed l).
Proof.
  unfold fanOut. assert ((chunkConcurrency inp <=? 0)%Z = false) as -> by (apply Z.leb_gt; lia).
  destruct (length cs =? 0) eqn:E0.
  { exists [], [], [], []. rewrite app_nil_r. split_and!; [done..|]. intros _. constructor. }
  apply Nat.eqb_neq in E0. set (n := length cs).
  assert (Hnd : NoDup (sched n)) by (rewrite Hsched; apply NoDup_seq).
  destruct (invokeAll_runs cs t (sched n) ∅ w Hnd) as (m & l & Hm & E & Hd & Hf).
  unfold bind. destruct (invokeAll _ _ _ _ _ _ _ _ w) as [r w1]. cbn [fst snd] in *. subst r.
  destruct (sequential _ _) as [f ins] eqn:Es. eexists _, _, _, l. split_and!; [done|exact E|].
  intros Hlen. apply Hf. intros i r Hi Hr.
  assert (Hin : i ∈ indices (fan_chunks cs)).
  { rewrite Hsched in Hi. unfold indices, fan_chunks. by rewrite length_map. }
  destruct (length_omap_full (chunk_failed (fan_chunks cs) (outcome_of m))
    (indices (fan_chunks cs))) with (x := i) as [y Hy]; [|done|].
  - unfold indices at 1. rewrite length_seq. unfold fan_chunks at 1. rewrite length_map.
    fold n. lia.
  - unfold chunk_failed, outcome_of in Hy. by rewrite Hr in Hy.
Qed.

Definition survives {A} (m : M A) : Prop :=
  forall w, exists l, trace (m w).2 = trace w ++ l /\
    match (m w).1 with Ok _ => True | Throw _ => reviews_failed l end.

Lemma survives_pre {A B} (m : M A) (k : A -> M B) :
  returns m -> emits plain_call m -> (forall a, survives (k a)) -> survives (bind m k).
Proof.
  intros Hr He Hk w. destruct (He w) as (l & E & Hl). specialize (Hr w). unfold bind.
  destruct (m w) as [[a|e] w']; cbn [fst snd] in *; [|done].
  destruct (Hk a w') as (l' & E' & Hl'). exists (l ++ l'). rewrite E', E, (assoc_L (++)).
  split; [done|]. destruct (k a w').1; [done|]. by apply reviews_failed_app; [apply plain_reviews|].
Qed.

Lemma survives_then {A B} lo hi (m : M A) (k : A -> M B) :
  survives m -> (forall a, returns (k a)) -> (forall a, staged lo hi (k a)) -> survives (bind m k).
Proof.
  intros Hm Hr Hk w. destruct (Hm w) as (l & E & Hl). unfold bind.
  destruct (m w) as [[a|e] w']; cbn [fst snd] in *; [|by exists l].
  destruct (Hk a w') as (l' & ks & E' & _). exists (l ++ l'). rewrite E', E, (assoc_L (++)).
  split; [done|]. specialize (Hr a w'). by destruct (k a w').1.
Qed.

Lemma survives_returns {A} (m : M A) lo hi : returns m -> staged lo hi m -> survives m.
Proof.
  intros Hr Hm w. destruct (Hm w) as (l & ks & E & _). exists l. split; [done|].
  specialize (Hr w). by destruct (m w).1.
Qed.

Lemma returns_shortCircuit : returns (resolveRetrievalShortCircuit orc wire inp labels).
Proof.
  unfold resolveRetrievalShortCircuit. returning Horc.
  intros w. unfold of_result. cbn [fst]. destruct (labels a) eqn:E; [done|]. by apply Hlabels in E.
Qed.

Lemma fanOutStage_survives sel sa : survives (fanOutStage orc wire inp pick labels sched sel sa).
Proof.
  unfold fanOutStage. apply survives_pre; [unfold capChunks; returning Horc|unfold capChunks; emits_shape|].
  intros cs. apply survives_pre; [apply returns_shortCircuit| |intros skip].
  { unfold resolveRetrievalShortCircuit. emits_shape; plain_event. }
  apply survives_pre; [returning Horc|emits_shape|intros _]. intros w.
  set (t := Threading _ _ _). destruct (fanOut_runs cs t w) as (f & ins & fl & l & Hr & E & Hf).
  rewrite bind_run. destruct (fanOut _ _ _ _ _ _ _ w) as [r w1]. cbn [fst snd] in *. subst r.
  exists l. rewrite <- E. destruct fl as [|x fl]; [done|].
  unfold bind at 1 2 3, add, modify. cbn [fst snd].
  destruct (_ <=? _) eqn:El; [|done]. apply Nat.leb_le in El.
  destruct (carried sel); [|done]. split; [done|]. by apply Hf.
Qed.

Lemma returns_deliver root routing sa sel llm ins :
  returns (deliver orc wire inp act root routing sa sel llm ins).
Proof.
  unfold deliver, dedupStage, claimCheck, aggregateStage, noticeStage, applyPolicyPostFilter,
    citationStage, persistStage, applyArbitrationStep, walkthroughStage, emitAudit.
  returning Horc; apply returns_runPostStage.
Qed.

Lemma returns_analysis_plain root routing files :
  returns (analysisStage orc sf root routing files) /\
  emits plain_call (analysisStage orc sf root routing files).
Proof.
  unfold analysisStage. split.
  - apply returns_settled; [returning Horc|intros cs]. apply returns_settled; [returning Horc|].
    intros o. returning Horc.
  - emits_shape; plain_event.
Qed.

Lemma fullReview_survives root routing files :
  survives (fullReview orc wire inp pick labels act sched sf root routing files).
Proof.
  unfold fullReview. apply survives_pre; [apply returns_analysis_plain..|intros [cs sa]].
  apply survives_pre; [| |intros sel].
  - unfold selectCarryForwardWithFallback. apply returns_bind; [apply returns_settle|].
    intros r. returning Horc.
  - unfold selectCarryForwardWithFallback. emits_shape; plain_event.
  - apply (survives_then 11 26); [apply fanOutStage_survives|intros [f i]; apply returns_deliver|].
    intros [f i]. apply deliver_staged.
Qed.

Lemma returns_advisory routing : returns (advisory orc wire inp act routing).
Proof.
  unfold advisory, claimCheck. apply returns_bind; [returning Horc|intros _].
  apply returns_bind; [|intros a].
  { apply (returns_dispatch _ Horc (c_aggregate _ _)). simpl. tauto. }
  apply returns_bind; [returning Horc|intros w].
  apply returns_bind; [apply returns_runPostStage|intros _]. returning Horc.
Qed.

Lemma pipeline_survives cl : survives (pipeline orc wire inp pick labels act sched sf cl).
Proof.
  unfold pipeline, loadConfig, policyStage, claimCheck, classifyStage.
  do 4 (apply survives_pre; [returning Horc|emits_shape; plain_event|intros ?]).
  apply survives_pre; [returning Horc|emits_shape|intros cfg].
  destruct (_ && _); [|apply fullReview_survives].
  apply (survives_returns _ 12 26); [apply returns_advisory|apply advisory_staged].
Qed.
End Survives.

(** A run that returns has posted. *)
Definition delivered (l : list event) : Prop := exists e, e ∈ l /\ is_post e /\ ev_error e = None.

Definition delivers {A} (m : M A) : Prop :=
  forall w, exists l, trace (m w).2 = trace w ++ l /\ (is_ok (m w).1 = true -> delivered l).

Lemma delivers_bind {A B} lo hi (m : M A) (k : A -> M B) :
  staged lo hi m -> (forall a, delivers (k a)) -> delivers (bind m k).
Proof.
  intros Hm Hk w. destruct (Hm w) as (l & ks & E & _). rewrite bind_run.
  destruct (m w) as [[a|e] w']; cbn [fst snd] in *; [|by exists l].
  destruct (Hk a w') as (l' & E' & Hl'). exists (l ++ l'). rewrite E', E, (assoc_L (++)).
  split; [done|]. intros (x & Hx & ?)%Hl'. exists x. rewrite elem_of_app. auto.
Qed.

Lemma delivers_after {A B} lo hi (m : M A) (k : A -> M B) :
  delivers m -> (forall a, staged lo hi (k a)) -> delivers (bind m k).
Proof.
  intros Hm Hk w. destruct (Hm w) as (l & E & Hl). rewrite bind_run.
  destruct (m w) as [[a|e] w']; cbn [fst snd] in *; [|by exists l].
  destruct (Hk a w') as (l' & ks & E' & _). exists (l ++ l'). rewrite E', E, (assoc_L (++)).
  split; [done|]. intros _. destruct Hl as (x & Hx & ?); [done|]. exists x. rewrite elem_of_app. auto.
Qed.

(** [m] never returns. *)
Definition throws {A} (m : M A) : Prop := forall w, is_ok (m w).1 = false.

Lemma throws_bind {A B} (m : M A) (k : A -> M B) : (forall a, throws (k a)) -> throws (bind m k).
Proof. intros Hk w. rewrite bind_run. destruct (m w) as [[a|e] w']; [apply Hk|done]. Qed.

Lemma throws_settled {A B} (m : M A) (k : result js_error A -> M B) :
  throws m -> (forall e, throws (k (Throw e))) -> throws (bind (settle m) k).
Proof.
  intros Hm Hk w. specialize (Hm w). rewrite bind_run. unfold settle.
  destruct (m w) as [[a|e] w']; [done|apply Hk].
Qed.

Section Delivers.
Variables (orc : oracle) (wire : wiring) (inp : review_input).
Variables (pick : string -> result js_error unit) (labels : repo_config -> result js_error nat).
Variables (act : js_error -> option (string * list dropped_details)) (sched : nat -> list nat) (sf : bool).

(** A failed post is rethrown. *)
Lemma afterPost_throws a e : throws (afterPost orc wire inp act a (Throw e)).
Proof. unfold afterPost. apply throws_bind. by intros _ w. Qed.

(** A post stage that returns was answered with a posted review. *)
Lemma runPostStage_delivers w a : delivers (runPostStage orc wire inp act w a).
Proof.
  unfold runPostStage. apply (delivers_bind 0 0); [by apply staged_quiet|intros f].
  apply (delivers_bind 0 0); [by apply staged_quiet|intros s]. set (c := c_postReview a w f s).
  intros w0. rewrite bind_run. unfold settle at 1 4, port at 1 4, dispatch at 1 2.
  cbn [fst snd]. set (r := orc (trace w0) c). set (w1 := World _ _ _).
  destruct (postTail_staged orc wire inp act w a r w1) as (l & _ & E & _).
  eexists. split; [rewrite E; cbn [w1 trace]; by rewrite <- (assoc_L (++))|]. intros Hok.
  destruct r as [p|e].
  - eexists. split; [by left|]. split; [by eexists _, _, _, _|done].
  - exfalso. assert (Ht : throws (let! check := settle (port orc (c_postCheckRun (w_tldr w))) in
      let! review := settle (afterPost orc wire inp act a (Throw e)) in
      match review with
      | Throw e => throw e
      | Ok _ => let! _ := when (has_teardown wire) (port orc c_placeholderTeardown) in
          match check with
          | Throw _ => let! _ := recordStage "post_check_run" "error" in add "post_check_run_failed"
          | Ok _ => ret tt
          end
      end)); [|exact (eq_true_false_abs _ Hok (Ht w1))].
    apply throws_bind. intros check. apply throws_settled; [apply afterPost_throws|]. by intros x w2.
Qed.

Lemma deliver_delivers root routing sa sel llm ins :
  delivers (deliver orc wire inp act root routing sa sel llm ins).
Proof.
  unfold deliver. eapply delivers_bind; [apply dedupStage_staged|intros d].
  eapply delivers_bind; [apply (claimCheck_staged _ _ 12); in_phases|intros _].
  eapply delivers_bind; [apply aggregateStage_staged|intros a0].
  apply (delivers_bind 0 0); [by apply staged_quiet|intros a1].
  apply (delivers_bind 0 0); [apply staged_quiet, policyFilter_quiet|intros a2].
  eapply delivers_bind; [apply citationStage_staged|intros a].
  eapply delivers_bind; [apply persistStage_staged|intros _].
  eapply delivers_bind; [apply arbitration_staged|intros _].
  eapply delivers_bind; [apply walkthroughStage_staged|intros w].
  eapply delivers_bind; [apply (claimCheck_staged _ _ 21); in_phases|intros _].
  apply (delivers_after 0 0); [apply runPostStage_delivers|]. intros _. by apply staged_quiet.
Qed.

Lemma pipeline_delivers cl : delivers (pipeline orc wire inp pick labels act sched sf cl).
Proof.
  unfold pipeline. eapply delivers_bind; [apply loadConfig_staged|intros _].
  eapply delivers_bind; [apply policyStage_staged|intros _].
  eapply delivers_bind; [apply (claimCheck_staged _ _ 4); in_phases|intros _].
  eapply delivers_bind; [apply classifyStage_staged|intros r].
  apply (delivers_bind 0 0); [by apply staged_quiet|intros cfg]. destruct (_ && _).
  - unfold advisory. eapply delivers_bind; [apply (claimCheck_staged _ _ 12); in_phases|intros _].
    apply (delivers_bind 13 13); [stage_at 13|intros a].
    apply (delivers_bind 18 18); [stage_at 18|intros w].
    apply (delivers_after 0 0); [apply runPostStage_delivers|]. intros _. by apply staged_quiet.
  - unfold fullReview. eapply delivers_bind; [apply analysisStage_staged|intros [cs sa]].
    eapply delivers_bind; [apply selectCarry_staged|intros sel].
    eapply delivers_bind; [apply fanOutStage_staged|intros [f i]]. apply deliver_delivers.
Qed.
End Delivers.

(** * Lemmas: one set of findings *)

(** The findings that a dispatch shows to the outside. *)
Definition shown (e : event) : option aggregated :=
  match ev_call e with
  | c_persistReviewFindings a _ | c_generateWalkthrough a | c_postReview a _ _ _
  | c_updatePrDescriptionSummary a | c_generateFixPrompt a => Some a
  | _ => None
  end.

Definition agrees (a : aggregated) (e : event) : Prop := forall a', shown e = Some a' -> a' = a.
Definition unshown (e : event) : Prop := shown e = None.

Definition reports_set (a : aggregated) (res : pipeline_result) : Prop :=
  r_aggregated res = a /\ findingsCount res = length (a_findings a).

(** Everything that [m] shows is one set, within the bound, and the set that it
    reports. *)
Definition one_set (bound : nat) (m : M pipeline_result) : Prop :=
  forall w, exists l a, trace (m w).2 = trace w ++ l /\ Forall (agrees a) l /\
    length (a_findings a) <= bound /\ forall res, (m w).1 = Ok res -> reports_set a res.

(** What [m] returns satisfies [Q], and it shows nothing. *)
Definition hidden {A} (Q : A -> Prop) (m : M A) : Prop :=
  emits unshown m /\ forall w x, (m w).1 = Ok x -> Q x.

Lemma unshown_agrees a l : Forall unshown l -> Forall (agrees a) l.
Proof. intros H. eapply Forall_impl; [exact H|]. intros e He a'. unfold unshown in He. by rewrite He. Qed.

Lemma one_set_bind {A} bound (Q : A -> Prop) (m : M A) k :
  hidden Q m -> (forall x, Q x -> one_set bound (k x)) -> one_set bound (bind m k).
Proof.
  intros [Hm HQ] Hk w. destruct (Hm w) as (l & E & Hl). specialize (HQ w). rewrite bind_run.
  destruct (m w) as [[x|e] w']; cbn [fst snd] in *.
  - destruct (Hk x (HQ x eq_refl) w') as (l' & a & E' & Hl' & Hb & Hr). exists (l ++ l'), a.
    rewrite E', E, (assoc_L (++)). split_and!; [done| |done..].
    apply Forall_app. split; [by apply unshown_agrees|done].
  - exists l, (Aggregated [] (DedupeCounts 0 0 0 0 false) 0).
    split_and!; [done|by apply unshown_agrees|simpl; lia|done].
Qed.

Lemma one_set_shows bound a (m : M pipeline_result) :
  emits (agrees a) m -> (forall w res, (m w).1 = Ok res -> reports_set a res) ->
  length (a_findings a) <= bound -> one_set bound m.
Proof. intros Hm Hr Hb w. destruct (Hm w) as (l & E & Hl). exists l, a. split_and!; eauto. Qed.

Lemma hidden_any {A} (m : M A) : emits unshown m -> hidden (fun _ => True) m.
Proof. done. Qed.

Lemma bind_result {A B} (m : M A) (k : A -> M B) w y :
  (bind m k w).1 = Ok y -> exists x w', m w = (Ok x, w') /\ (k x w').1 = Ok y.
Proof. rewrite bind_run. destruct (m w) as [[x|e] w']; [|done]. eauto. Qed.

(** No dispatch of the earlier positions is shown. *)
Lemma staged_unshown {A} lo hi (m : M A) : staged lo hi m -> hi < 15 -> emits unshown m.
Proof.
  intros Hm Hh. eapply staged_emits; [exact Hm|]. intros e k Hk Hb. unfold unshown, shown.
  destruct (ev_call e); try done; apply list_elem_of_singleton in Hk; lia.
Qed.

Section Shows.
Variables (orc : oracle) (wire : wiring) (inp : review_input).
Variables (pick : string -> result js_error unit) (labels : repo_config -> result js_error nat).
Variables (act : js_error -> option (string * list dropped_details)) (sched : nat -> list nat) (sf : bool).

(** The activities that select findings never add any. *)
Definition selecting : Prop :=
  (forall h l rev a, orc h (c_aggregate l rev) = Ok a -> length (a_findings a) <= length l) /\
  (forall h root l ids rules s d, orc h (c_citationValidate root l ids rules) = Ok (s, d) ->
     length s <= length l).

Hypothesis Hsel : selecting.

Lemma runPostStage_shows w a : emits (agrees a) (runPostStage orc wire inp act w a).
Proof.
  unfold runPostStage, afterPost, captureFromPostedReview, dispatchInlineSkippedLifecycle.
  emits_shape; try (intros ? [= <-]; reflexivity); done.
Qed.

Lemma noticeStage_length a w a' :
  (noticeStage inp a w).1 = Ok a' -> length (a_findings a') <= MAX_INLINE_FINDINGS + 2.
Proof.
  unfold noticeStage, gets, bind, ret. cbn [fst]. intros [= <-].
  assert (H1 : length (a_findings (capFindings a)) <= MAX_INLINE_FINDINGS).
  { unfold capFindings. destruct (_ <? _) eqn:E; simpl; [rewrite length_take; lia|].
    by apply Nat.ltb_ge in E. }
  revert H1. generalize (capFindings a). intros c H1.
  unfold maybeAppendMalformedConfigNotice, maybeAppendConfigNotice.
  repeat match goal with |- context [match ?x with _ => _ end] => destruct x end;
    cbn [a_findings with_findings]; rewrite ?length_app; cbn [length]; lia.
Qed.

Lemma policyFilter_length a w a' :
  (applyPolicyPostFilter a w).1 = Ok a' -> length (a_findings a') = length (a_findings a).
Proof.
  unfold applyPolicyPostFilter. rewrite bind_run. cbn [gets fst snd].
  destruct (_ =? _); [by intros [= <-]|].
  destruct (postFilterFindingsWithMetadata _ _) as [f m] eqn:E.
  intros (? & w1 & _ & H)%bind_result. apply bind_result in H as (? & w2 & _ & H).
  destruct (forallb _ _); injection H as <-; [done|]. simpl.
  pose proof (postFilter_length (a_findings a) (mergePerChunkBundles (map snd (policyBundles (st w))))) as [Hl _].
  by rewrite E in Hl.
Qed.

Lemma citationStage_length root a w a' :
  (citationStage orc wire root a w).1 = Ok a' -> length (a_findings a') <= length (a_findings a).
Proof.
  unfold citationStage. destruct (negb _); [by intros [= <-]|].
  do 2 (rewrite bind_run; cbn [gets fst snd]). rewrite bind_run. unfold port, dispatch. cbn [fst snd].
  match goal with |- context [orc ?h ?c] => destruct (orc h c) as [[s d]|e] eqn:E end; [|done].
  destruct (negb _); [|by intros [= <-]].
  intros (? & w1 & _ & H)%bind_result. injection H as <-. simpl. by eapply Hsel.
Qed.

Lemma deliver_one_set root routing sa sel llm ins :
  one_set (MAX_INLINE_FINDINGS + 2) (deliver orc wire inp act root routing sa sel llm ins).
Proof.
  unfold deliver.
  eapply one_set_bind; [eapply hidden_any, staged_unshown; [apply dedupStage_staged|lia]|intros d _].
  eapply one_set_bind; [eapply hidden_any, (staged_unshown 12 12); [apply claimCheck_staged; in_phases|lia]|intros _ _].
  eapply one_set_bind; [eapply hidden_any, staged_unshown; [apply aggregateStage_staged|lia]|intros a0 _].
  eapply one_set_bind; [split; [by apply emits_quiet|apply noticeStage_length]|intros a1 H1].
  eapply one_set_bind; [split; [apply emits_quiet, policyFilter_quiet|apply policyFilter_length]|intros a2 H2].
  eapply one_set_bind; [split; [eapply staged_unshown; [apply citationStage_staged|lia]|apply citationStage_length]|].
  intros a H3. cbv beta in *. apply (one_set_shows _ a); [| |lia].
  - unfold persistStage, applyArbitrationStep, walkthroughStage, emitAudit, claimCheck.
    emits_shape; first [apply runPostStage_shows | intros ? [= <-]; reflexivity | done].
  - intros w res H.
    do 8 (apply bind_result in H as (? & ? & _ & H)). by injection H as <-.
Qed.

Lemma advisory_one_set routing :
  one_set (MAX_INLINE_FINDINGS + 2) (advisory orc wire inp act routing).
Proof.
  unfold advisory. eapply one_set_bind; [eapply hidden_any; unfold claimCheck; emits_shape; done|intros _ _].
  eapply (one_set_bind _ (fun a => length (a_findings a) <= 1)); [split|intros a Ha].
  - emits_shape. done.
  - intros w a H. unfold port, dispatch in H. cbn [fst] in H. by eapply Hsel in H.
  - apply (one_set_shows _ a); [| |unfold MAX_INLINE_FINDINGS; lia].
    + emits_shape; first [apply runPostStage_shows | intros ? [= <-]; reflexivity].
    + intros w res H. do 4 (apply bind_result in H as (? & ? & _ & H)). by injection H as <-.
Qed.

Lemma pipeline_one_set cl :
  one_set (MAX_INLINE_FINDINGS + 2) (pipeline orc wire inp pick labels act sched sf cl).
Proof.
  unfold pipeline.
  eapply one_set_bind; [eapply hidden_any, staged_unshown; [apply loadConfig_staged|lia]|intros _ _].
  eapply one_set_bind; [eapply hidden_any, staged_unshown; [apply policyStage_staged|lia]|intros _ _].
  eapply one_set_bind; [eapply hidden_any, (staged_unshown 4 4); [apply claimCheck_staged; in_phases|lia]|intros _ _].
  eapply one_set_bind; [eapply hidden_any, staged_unshown; [apply classifyStage_staged|lia]|intros r _].
  eapply one_set_bind; [eapply hidden_any; by apply emits_quiet|intros cfg _].
  destruct (_ && _); [apply advisory_one_set|]. unfold fullReview.
  eapply one_set_bind; [eapply hidden_any, staged_unshown; [apply analysisStage_staged|lia]|intros [cs sa] _].
  eapply one_set_bind; [eapply hidden_any, staged_unshown; [apply selectCarry_staged|lia]|intros sel _].
  eapply one_set_bind; [eapply hidden_any, staged_unshown; [apply fanOutStage_staged|lia]|intros [f i] _].
  apply deliver_one_set.
Qed.
End Shows.

(** * Lemmas: the whole run *)

(** The notes of the result are those of the state it leaves. *)
Definition reports (m : M pipeline_result) : Prop :=
  forall w res, (m w).1 = Ok res ->
    r_status res = "accepted"%string /\ degradationNotes res = degradation (st (m w).2).

Lemma reports_bind {A} (m : M A) (k : A -> M pipeline_result) :
  (forall a, reports (k a)) -> reports (bind m k).
Proof. intros Hk w res. rewrite bind_run. destruct (m w) as [[a|e] w']; [apply Hk|done]. Qed.

(** A lost claim ends the run but for the cleanup. *)
Definition stops {A} (m : M A) : Prop :=
  forall w, exists l, trace (m w).2 = trace w ++ l /\
    forall l1 b x l2, l = l1 ++ Event (c_claimCheck b) (Some x) :: l2 ->
      Forall is_cleanup l2 /\ is_ok (m w).1 = false.

Lemma split_lost l l0 b x l1 b' x' l2 :
  Forall (fun e => ~ lost e) l0 -> l0 ++ l = l1 ++ Event (c_claimCheck b') (Some x') :: l2 ->
  l = [Event (c_claimCheck b) (Some x)] \/ l = [] -> l2 = [].
Proof.
  intros Hl0 E Hl. assert (Hin : forall l3, l0 = l1 ++ Event (c_claimCheck b') (Some x') :: l3 -> False).
  { intros l3 ->. rewrite Forall_app, Forall_cons in Hl0. destruct Hl0 as [_ [H _]].
    by apply H; eexists _, _. }
  apply app_eq_inv in E as [(l3 & -> & E)|(l3 & -> & E)].
  - destruct l3 as [|y l3]; [|injection E as <- ->; by destruct (Hin l3)].
    destruct Hl as [-> | ->]; simpl in E; [by injection E|done].
  - destruct Hl as [-> | ->]; [|by destruct l3].
    destruct l3 as [|y [|? ?]]; [by injection E|discriminate E|discriminate E].
Qed.

Lemma stops_guarded {A} (m : M A) : guarded m -> stops m.
Proof.
  intros Hm w. destruct (Hm w) as (l & E & Hl). exists l. split; [done|].
  intros l1 b x l2 El. destruct Hl as [Hl|(l0 & b' & x' & -> & Hl0 & Hr)].
  - exfalso. subst l. rewrite Forall_app, Forall_cons in Hl. destruct Hl as [_ [H _]].
    by apply H; eexists _, _.
  - rewrite Hr. split; [|done]. rewrite (split_lost _ _ b' x' _ _ _ _ Hl0 El); auto.
Qed.

Lemma stops_bind {A B} (m : M A) (k : A -> M B) :
  guarded m -> (forall a, stops (k a)) -> stops (bind m k).
Proof.
  intros Hm Hk w. pose proof (stops_guarded m Hm w) as (l0 & E0 & Hs).
  destruct (Hm w) as (l & E & Hl). rewrite E in E0. apply app_inv_head in E0 as <-.
  rewrite bind_run. destruct (m w) as [[a|e] w']; cbn [fst snd] in *; [|by exists l].
  destruct Hl as [Hl|(? & ? & ? & _ & _ & ?)]; [|done].
  destruct (Hk a w') as (l' & E' & Hl'). exists (l ++ l'). rewrite E', E, (assoc_L (++)).
  split; [done|]. intros l1 b x l2 El.
  apply app_eq_inv in El as [(l3 & -> & El)|(l3 & -> & El)].
  - destruct l3 as [|y l3]; [by apply (Hl' [] b x l2)|]. injection El as <- ->.
    destruct (Hs l1 b x l3 eq_refl) as [_ ?]. done.
  - by eapply Hl'.
Qed.

Section Whole.
Variables (orc : oracle) (wire : wiring) (inp : review_input).
Variables (pick : string -> result js_error unit) (labels : repo_config -> result js_error nat).
Variables (act : js_error -> option (string * list dropped_details)) (sched : nat -> list nat) (sf : bool).

Abbreviation run := (orchestrate orc wire inp pick labels act sched sf).
Abbreviation pipe := (pipeline orc wire inp pick labels act sched sf).

Lemma pipeline_reports cl : reports (pipe cl).
Proof.
  unfold pipeline. do 5 (apply reports_bind; intros ?). destruct (_ && _).
  - unfold advisory. do 5 (apply reports_bind; intros ?). intros w res. simpl. by intros [= <-].
  - unfold fullReview, deliver. apply reports_bind. intros [cs sa].
    apply reports_bind. intros sel. apply reports_bind. intros [f i].
    do 11 (apply reports_bind; intros ?). intros w res. simpl. by intros [= <-].
Qed.

(** The [try] block with its [finally]. *)
Definition bracket (cl : cloned_repo) : M pipeline_result :=
  let! r := settle (pipe cl) in
  let! _ := cleanup orc inp in
  of_result r.

Lemma bracket_run cl w :
  exists x, trace (bracket cl w).2 = trace (pipe cl w).2 ++ [Event (c_cleanup (workspace_id inp)) x] /\
    ((bracket cl w).1 = (pipe cl w).1 \/
     exists e, x = Some e /\ isCancellation e = true /\ (bracket cl w).1 = Throw e) /\
    forall n, n ∈ degradation (st (bracket cl w).2) ->
      n ∈ degradation (st (pipe cl w).2) \/ n = "cleanup_failed"%string.
Proof.
  unfold bracket. rewrite bind_run. unfold settle. destruct (pipe cl w) as [r w1]. cbn [fst snd].
  unfold cleanup. rewrite !bind_run. unfold stageOutcome, skipping, port, dispatch.
  change (negb (existsb (String.eqb "cleanup") STAGE_NAMES)) with false. cbv iota.
  destruct (orc (trace w1) _) as [[]|e]; cbn [fst snd].
  - exists None. split_and!; [done|by left|]. intros n Hn. by left.
  - exists (Some e). destruct (isCancellation e) eqn:Ec; cbn [fst snd].
    + split_and!; [done|right; by exists e|]. intros n Hn. by left.
    + split_and!; [done|by left|]. intros n Hn. by apply add_note_elem in Hn as [Hn|Hn]; [left|right].
Qed.

Lemma run_eq w :
  run w = (let! _ := claimCheck orc wire before_clone in
           let! cl := port orc (c_clone (changedPaths inp)) in bracket cl) w.
Proof. done. Qed.

Lemma orchestrate_accepts w res : (run w).1 = Ok res -> r_status res = "accepted"%string.
Proof.
  rewrite run_eq, bind_run. destruct (claimCheck _ _ _ w) as [[[]|e] w0]; [|done].
  rewrite bind_run. destruct (port _ _ w0) as [[cl|e] w1]; [|done].
  destruct (bracket_run cl w1) as (x & _ & [Hr|(e & _ & _ & Hr)] & _); rewrite Hr; [|done].
  intros E. by apply pipeline_reports in E as [? _].
Qed.

Lemma bracket_fences cl : has_claimCheck wire = true -> fences (bracket cl).
Proof.
  intros Hc. unfold bracket. apply fences_bind; [|intros r].
  - intros w. destruct (pipeline_fences orc wire inp pick labels act sched sf cl Hc w) as (l & E & Hl).
    exists l. split; [|done]. unfold settle. by destruct (pipe cl w).
  - apply fences_emits. unfold cleanup. emits_shape. by intros (?&?&?&?&?).
Qed.

Lemma run_fences : has_claimCheck wire = true -> fences run.
Proof.
  intros Hc. unfold orchestrate.
  apply fences_bind; [apply (staged_fences 0 0); [apply claimCheck_staged; in_phases|lia]|intros _].
  apply fences_bind; [apply (staged_fences 1 1); [stage_at 1|lia]|intros cl]. by apply bracket_fences.
Qed.

Lemma bracket_stops cl : stops (bracket cl).
Proof.
  intros w. destruct (bracket_run cl w) as (x & E & Hr & _).
  pose proof (stops_guarded _ (pipeline_guarded orc wire inp pick labels act sched sf cl) w)
    as (l & El & Hs).
  exists (l ++ [Event (c_cleanup (workspace_id inp)) x]).
  rewrite E, El, (assoc_L (++)). split; [done|]. intros l1 b y l2 Hx.
  assert (Hthrow : is_ok (pipe cl w).1 = false -> is_ok (bracket cl w).1 = false).
  { intros H. by destruct Hr as [-> | (? & _ & _ & ->)]. }
  apply app_eq_inv in Hx as [(l3 & -> & Hx)|(l3 & -> & Hx)].
  - destruct l3 as [|z l3]; [done|]. injection Hx as <- ->.
    destruct (Hs _ _ _ _ eq_refl) as [Hc Ho]. split; [|by apply Hthrow].
    apply Forall_app. split; [done|]. constructor; [by eexists|done].
  - destruct l3 as [|z [|? ?]]; simpl in Hx; [done|discriminate Hx..].
Qed.

Lemma run_stops : stops run.
Proof.
  unfold orchestrate. apply stops_bind; [apply guarded_claim|intros _].
  apply stops_bind; [|intros cl; apply bracket_stops].
  apply guarded_emits. emits_shape. by intros (?&?&?).
Qed.

Lemma run_staged : staged 0 27 run.
Proof.
  unfold orchestrate. apply (staged_bind 0); [lia..|apply claimCheck_staged; in_phases|intros _].
  apply (staged_bind 1); [lia..|stage_at 1|intros cl].
  apply (staged_bind 26); [lia..|apply staged_settle, pipeline_staged|intros r].
  apply staged_after; [|done]. unfold cleanup. apply staged_after; [stage_at 27|done].
Qed.

Lemma run_delivers : delivers run.
Proof.
  unfold orchestrate. eapply delivers_bind; [apply (claimCheck_staged _ _ 0); in_phases|intros _].
  apply (delivers_bind 1 1); [stage_at 1|intros cl]. intros w1. change (bind _ _) with (bracket cl).
  destruct (pipeline_delivers orc wire inp pick labels act sched sf cl w1) as (l & E & Hl).
  destruct (bracket_run cl w1) as (x & E' & Hr & _).
  eexists (l ++ _). rewrite E', E, (assoc_L (++)). split; [done|]. intros Hok.
  destruct Hr as [Hr|(e & _ & _ & Hr)]; rewrite Hr in Hok; [|done].
  destruct (Hl Hok) as (y & Hy & ?). exists y. rewrite elem_of_app. auto.
Qed.

(** A review that lost its claim ends with the error of the claim check, unless
    its cleanup is cancelled. *)
Definition ends_lost {A} (l : list event) (m : M A) (w : world) : Prop :=
  forall b x, Event (c_claimCheck b) (Some x) ∈ l ->
    (m w).1 = Throw x \/
    exists i e, Event (c_cleanup i) (Some e) ∈ l /\ isCancellation e = true /\ (m w).1 = Throw e.

Lemma guarded_lost {A} (m : M A) w l b x :
  guarded m -> trace (m w).2 = trace w ++ l -> Event (c_claimCheck b) (Some x) ∈ l -> (m w).1 = Throw x.
Proof.
  intros Hm E Hin. destruct (Hm w) as (l' & E' & Hl). rewrite E in E'. apply app_inv_head in E' as <-.
  assert (Hlost : lost (Event (c_claimCheck b) (Some x))) by (by do 2 eexists).
  destruct Hl as [Hl|(l0 & b' & x' & -> & Hl & Hr)].
  - rewrite Forall_forall in Hl. by apply Hl in Hin.
  - apply elem_of_app in Hin as [Hin|Hin]; [rewrite Forall_forall in Hl; by apply Hl in Hin|].
    apply list_elem_of_singleton in Hin. by injection Hin as -> ->.
Qed.

Lemma run_lost w : exists l, trace (run w).2 = trace w ++ l /\ ends_lost l run w.
Proof.
  unfold ends_lost. rewrite run_eq, bind_run.
  destruct (guarded_claim orc wire before_clone w) as (l0 & E0 & _).
  pose proof (fun b x => guarded_lost _ w l0 b x (guarded_claim orc wire before_clone) E0) as H0.
  destruct (claimCheck _ _ _ w) as [[[]|e] w0]; cbn [fst snd] in *;
    [|exists l0; split; [done|intros b x Hin; left; by injection (H0 b x Hin) as ->]].
  rewrite bind_run. unfold port, dispatch.
  destruct (orc (trace w0) (c_clone _)) as [cl|e]; cbn [fst snd trace].
  2:{ eexists. split; [by rewrite E0, <- (assoc_L (++))|]. intros b x [Hin|Hin]%elem_of_app.
      - by apply H0 in Hin.
      - apply list_elem_of_singleton in Hin. discriminate. }
  set (w1 := World _ _ _). destruct (bracket_run cl w1) as (y & E & Hr & _).
  pose proof (pipeline_guarded orc wire inp pick labels act sched sf cl) as Hp.
  destruct (Hp w1) as (l & E1 & _).
  eexists. split; [rewrite E, E1; cbn [w1 trace]; rewrite E0, <- !(assoc_L (++)); done|].
  intros b x Hin. rewrite !elem_of_app, !list_elem_of_singleton in Hin.
  destruct Hin as [Hin|[Hin|[Hin|Hin]]]; [by apply H0 in Hin|discriminate| |discriminate].
  pose proof (guarded_lost _ w1 l b x Hp E1 Hin) as Hx.
  destruct Hr as [Hr|(e & -> & Hc & Hr)]; [left; by rewrite Hr|right].
  exists (workspace_id inp), e. split_and!; [|done|done]. rewrite !elem_of_app, !list_elem_of_singleton. tauto.
Qed.

(** The workspace is released exactly when there is one. *)
Definition released (l : list event) : Prop :=
  (exists l0 ch x, l = l0 ++ [Event (c_cleanup (workspace_id inp)) x] /\
     Event (c_clone ch) None ∈ l0 /\ Forall (fun e => ~ is_cleanup e) l0) \/
  (Forall (fun e => ~ is_cleanup e) l /\ forall ch, Event (c_clone ch) None ∉ l).

Lemma run_released w : exists l, trace (run w).2 = trace w ++ l /\ released l.
Proof.
  rewrite run_eq, bind_run.
  destruct (claimCheck_staged orc wire 0 before_clone ltac:(in_phases) w) as (l0 & ks & E0 & F0 & _ & B0).
  assert (Hl0 : Forall (fun e => ~ is_cleanup e) l0 /\ forall ch, Event (c_clone ch) None ∉ l0).
  { clear E0. induction F0 as [|e k l ks Hk F0 IH]; [split; [done|by intros ch ?%elem_of_nil]|].
    apply Forall_cons in B0 as [Hb B0]. destruct (IH B0) as [H1 H2]. assert (k = 0) as -> by lia. split.
    - constructor; [|done]. intros [i Hi]. rewrite Hi in Hk. by apply list_elem_of_singleton in Hk.
    - intros ch [<-|Hin]%elem_of_cons; [by apply list_elem_of_singleton in Hk|by eapply H2]. }
  destruct (claimCheck _ _ _ w) as [[[]|e] w0]; cbn [snd] in *; [|by exists l0; split; [|right]].
  rewrite bind_run. unfold port, dispatch.
  destruct (orc (trace w0) (c_clone _)) as [cl|e]; cbn [snd trace].
  - set (w1 := World _ _ _). destruct (bracket_run cl w1) as (x & E & _).
    destruct (pipeline_staged orc wire inp pick labels act sched sf cl w1) as (l & ks1 & E1 & F1 & _ & B1).
    eexists. split.
    { rewrite E, E1. cbn [w1 trace]. rewrite E0, <- !(assoc_L (++)). done. }
    left. eexists (l0 ++ [Event _ None] ++ l), _, x. split_and!; [by rewrite <- !(assoc_L (++))| |].
    + apply elem_of_app. right. by left.
    + apply Forall_app. split; [apply Hl0|]. constructor; [by intros [? ?]|].
      clear E1. induction F1 as [|e k l ks1' Hk F1 IH]; [done|]. apply Forall_cons in B1 as [Hb B1].
      constructor; [|by apply IH]. intros [i Hi]. rewrite Hi in Hk.
      apply list_elem_of_singleton in Hk. lia.
  - eexists. split; [rewrite E0, <- (assoc_L (++)); done|]. right. split.
    + apply Forall_app. split; [apply Hl0|]. constructor; [by intros [? ?]|done].
    + intros ch [Hin|Hin]%elem_of_app; [by eapply Hl0|].
      apply list_elem_of_singleton in Hin. by inversion Hin.
Qed.
End Whole.

(** * Properties *)

Section Properties.
Variables (orc : oracle) (wire : wiring) (inp : review_input).
Variables (pick : string -> result js_error unit) (labels : repo_config -> result js_error nat).
Variables (act : js_error -> option (string * list dropped_details)) (sched : nat -> list nat) (sf : bool).


(** C1: a review whose claim on the pull request was lost does nothing more: a
    claim check that fails is followed by no dispatch but the cleanup, and the
    review ends with an error.  Where the claim is checked at all, what stands
    immediately before a post is the check that held, or, for the advisory of a
    review whose files are all excluded, the check, the aggregation and the
    walkthrough. *)
Theorem orchestrate_claims w :
  exists l, trace (orchestrate orc wire inp pick labels act sched sf w).2 = trace w ++ l /\
    (forall l1 b x l2, l = l1 ++ Event (c_claimCheck b) (Some x) :: l2 ->
       Forall is_cleanup l2 /\
       is_ok (orchestrate orc wire inp pick labels act sched sf w).1 = false) /\
    (has_claimCheck wire = true ->
       forall l1 e l2, l = l1 ++ e :: l2 -> is_post e -> preceded l1).
Proof.
  destruct (run_stops orc wire inp pick labels act sched sf w) as (l & E & Hs).
  exists l. split_and!; [done|done|]. intros Hc.
  destruct (run_fences orc wire inp pick labels act sched sf Hc w) as (l' & E' & Hf).
  rewrite E in E'. by apply app_inv_head in E' as <-.
Qed.


(** What a review tells about itself is complete: if the notes were free of
    repetitions and complete before, they are after, that is, every stage
    recorded as failed has its note, except for the five that only log; and the
    notes of a returned result are those of the state, up to a failed cleanup. *)
Theorem orchestrate_notes w :
  notes_inv w ->
  notes_inv (orchestrate orc wire inp pick labels act sched sf w).2 /\
  forall res, (orchestrate orc wire inp pick labels act sched sf w).1 = Ok res ->
    forall n, n ∈ degradation (st (orchestrate orc wire inp pick labels act sched sf w).2) ->
      n ∈ degradationNotes res \/ n = "cleanup_failed"%string.
Proof.
  intros Hw. split; [by apply keeps_orchestrate; [apply notes_kept|]|]. intros res.
  rewrite run_eq, bind_run. destruct (claimCheck _ _ _ w) as [[[]|e] w0]; [|done].
  rewrite bind_run. destruct (port _ _ w0) as [[cl|e] w1]; [|done].
  destruct (bracket_run orc wire inp pick labels act sched sf cl w1) as (x & _ & Hr & Hn).
  intros E n Hin. destruct Hr as [Hr|(e & _ & _ & Hr)]; [|congruence].
  rewrite Hr in E. apply pipeline_reports in E as [_ E]. rewrite E. by apply Hn.
Qed.

(** One set of findings leaves a review: what is persisted, explained in the
    walkthrough, posted and appended to the pull request's description and fix
    prompt is the same set, the one the result carries; and if the activities
    that select findings never add any, it has at most 252, the cap for inline
    comments and two notices. *)
Theorem orchestrate_one_set w :
  selecting orc ->
  exists l a, trace (orchestrate orc wire inp pick labels act sched sf w).2 = trace w ++ l /\
    (forall e a', e ∈ l -> shown e = Some a' -> a' = a) /\
    length (a_findings a) <= 252 /\
    forall res, (orchestrate orc wire inp pick labels act sched sf w).1 = Ok res ->
      r_aggregated res = a /\ findingsCount res = length (a_findings a).
Proof.
  intros Hsel.
  assert (H : one_set (MAX_INLINE_FINDINGS + 2) (orchestrate orc wire inp pick labels act sched sf)).
  { unfold orchestrate. eapply one_set_bind; [eapply hidden_any; unfold claimCheck; emits_shape; done|].
    intros _ _. eapply one_set_bind; [eapply hidden_any; emits_shape; done|]. intros cl _ w1.
    destruct (pipeline_one_set orc wire inp pick labels act sched sf Hsel cl w1)
      as (l & a & E & Hl & Hb & Hr).
    destruct (bracket_run orc wire inp pick labels act sched sf cl w1) as (x & E' & Hx & _).
    eexists (l ++ _), a. split; [fold (bracket orc wire inp pick labels act sched sf cl);
      rewrite E', E, (assoc_L (++)); done|].
    split_and!; [|done|].
    - apply Forall_app. split; [done|]. constructor; [by intros ? [=]|done].
    - intros res Hres. change (bind _ _) with (bracket orc wire inp pick labels act sched sf cl) in Hres.
      destruct Hx as [Hx|(e & _ & _ & Hx)]; [|congruence]. rewrite Hx in Hres. by apply Hr. }
  destruct (H w) as (l & a & E & Hl & Hb & Hr). exists l, a. split_and!; [done| |done|done].
  intros e a' He Hs. rewrite Forall_forall in Hl. by apply (Hl e).
Qed.

(** C2: the optional stages only degrade a review.  If nothing fails but the
    dispatches that the review tolerates, and none of them with a cancellation
    or a throttle, then either the review returns and was posted, or every
    review of a chunk failed.  That holds for any number and combination of such
    failures, of the policy, the classification, the static analysis, the
    carry-forward, the probe, the retrievals, the dedup, the aggregation, the
    persistence, the arbitration, the check run, the follow-ups and the
    cleanup. *)
Theorem orchestrate_degrades w :
  only_tolerated_fail orc ->
  (forall p e, pick p = Throw e -> isCancellation e = false) ->
  (forall c e, labels c = Throw e -> isCancellation e = false) ->
  (forall n, sched n ≡ₚ seq 0 n) -> (0 < chunkConcurrency inp)%Z ->
  exists l, trace (orchestrate orc wire inp pick labels act sched sf w).2 = trace w ++ l /\
    match (orchestrate orc wire inp pick labels act sched sf w).1 with
    | Ok res => r_status res = "accepted"%string /\ delivered l
    | Throw _ => reviews_failed l
    end.
Proof.
  intros Horc Hpick Hlabels Hsched Hconc.
  assert (Hs : survives (orchestrate orc wire inp pick labels act sched sf)).
  { unfold orchestrate, claimCheck.
    apply survives_pre; [returning Horc|emits_shape; split; [intros ? [=]|intros (?&?&?&?&[=])]|intros _].
    apply survives_pre; [returning Horc|emits_shape; split; [intros ? [=]|intros (?&?&?&?&[=])]|intros cl].
    intros w1. change (bind _ _) with (bracket orc wire inp pick labels act sched sf cl).
    destruct (pipeline_survives orc wire inp pick labels act sched sf Horc Hpick Hlabels Hsched Hconc cl w1)
      as (l & E & Hl).
    destruct (bracket_run orc wire inp pick labels act sched sf cl w1) as (x & E' & Hr & _).
    eexists (l ++ _). rewrite E', E, (assoc_L (++)). split; [done|].
    assert (Hc : (bracket orc wire inp pick labels act sched sf cl w1).1
      = (pipeline orc wire inp pick labels act sched sf cl w1).1).
    { unfold bracket. rewrite bind_run. unfold settle. destruct (pipeline _ _ _ _ _ _ _ _ cl w1) as [r w2].
      assert (Hcl : returns (cleanup orc inp)) by (unfold cleanup; returning Horc).
      rewrite bind_run. specialize (Hcl w2). by destruct (cleanup orc inp w2) as [[?|?] ?]. }
    rewrite Hc. destruct (pipeline _ _ _ _ _ _ _ _ cl w1).1; [done|].
    apply reviews_failed_app; [done|]. constructor; [by intros ? [=]|done]. }
  destruct (Hs w) as (l & E & Hl), (run_delivers orc wire inp pick labels act sched sf w) as (l' & E' & Hl'). exists l. split; [done|].
  rewrite E in E'. apply app_inv_head in E' as <-.
  destruct (orchestrate _ _ _ _ _ _ _ _ w) as [[res|e] w'] eqn:Er; [|done].
  split; [|by apply Hl']. eapply orchestrate_accepts. by rewrite Er.
Qed.
End Properties.

(** * A concrete review *)

Definition ex_finding (t : string) (c : Category) (s : Severity) : finding :=
  Finding "src/a.ts" 1 1 s c t "body" None (1 # 2) [] chunk_observed [].

Definition ex_routing : file_routing := FileRouting ["src/a.ts"; "src/b.ts"] ["src/a.ts"] [].
Definition ex_config : repo_config := RepoConfig [] [] true [].
Definition ex_dchunk : dchunk := DChunk "c1" "src/a.ts" 1 9 "body".
Definition ex_bundle : bundle := Bundle "src/a.ts" [Rule_ "r1" ""] ["why"].

(** Every port answers; the review of a chunk finds two nits, one of them of
    security. *)
Definition ex_reply (c : call) : reply c :=
  match c return reply c with
  | c_clone _ => Cloned "/ws" None
  | c_loadRepoConfig _ => (ex_config, cs_valid)
  | c_computePolicyRules _ _ _ _ => [("src/a.ts"%string, ex_bundle)]
  | c_classify _ _ => ex_routing
  | c_chunkAndRedact _ _ => [ex_dchunk]
  | c_staticAnalysis _ _ => StaticAnalysis [] [] [] [] [ToolStatus "ruff" "completed"]
  | c_selectCarryForward _ l _ => Selection [] l
  | c_probeKnowledgeCorpus => Probe true true
  | c_embedQuery _ => [Aggregation.f64_zero]
  | c_retrieveKnowledge _ _ => RetrieveResult [Knowledge "k1" ""] false ""
  | c_buildRetrievedEvidence _ _ _ => []
  | c_reviewChunk _ => ChunkResponse [ex_finding "style" style nit; ex_finding "leak" security nit] [] None
  | c_dedupFindings _ llm => (llm, false)
  | c_aggregate l rev => Aggregated l (DedupeCounts (length l) 0 0 0 false) rev
  | c_citationValidate _ l _ _ => (tail l, take 1 l)
  | c_persistReviewFindings a _ => map title (a_findings a)
  | c_applyArbitration _ _ _ _ => ArbResult [] []
  | c_generateWalkthrough _ => Walkthrough "tldr" None "text"
  | c_postReview _ _ _ _ => PostedReview (Some 1%Z) [] [0%Z] inline_posted [] []
  | c_generateFixPrompt _ => (true, "llm"%string)
  | c_shell s =>
      match s return reply (c_shell s) with
      | s_enrichPrFilesV2 => ["src/a.ts"; "src/b.ts"]
      | s_allocateWorkspace => "ws1"
      | s_fetchManifestSnapshots _ | s_parseManifestDependencies _ => []
      | s_loadParentReviewFindings => ([], None)
      | _ => tt
      end
  | c_claimCheck _ | c_emitOutputSafetyAudit _ | c_recordToolRuns _
  | c_persistReviewWalkthrough _ | c_postCheckRun _ | c_recordDeliverySkipped _ _ _
  | c_updatePrDescriptionSummary _ | c_placeholderTeardown | c_cleanup _ => tt
  end.

Definition ex_error : js_error := plain_error "connection reset".

(** Every stage that may fail does, except the review of the chunk. *)
Definition ex_bad (c : call) : bool :=
  match c with
  | c_computePolicyRules _ _ _ _ | c_classify _ _ | c_staticAnalysis _ _
  | c_selectCarryForward _ _ _ | c_probeKnowledgeCorpus | c_embedQuery _
  | c_retrieveKnowledge _ _ | c_dedupFindings _ _ | c_persistReviewFindings _ _
  | c_applyArbitration _ _ _ _ | c_recordToolRuns _ | c_persistReviewWalkthrough _
  | c_postCheckRun _ | c_updatePrDescriptionSummary _ | c_generateFixPrompt _ | c_cleanup _ => true
  | c_aggregate l _ => length l =? 2
  | _ => false
  end.

Definition ex_oracle (bad : call -> bool) : oracle :=
  fun _ c => if bad c then Throw ex_error else Ok (ex_reply c).

Definition ex_wire : wiring := Wiring true true true true true true true true true true true.
Definition ex_input : review_input :=
  ReviewInput "ws1" ["src/a.ts"; "src/b.ts"] "pr1" "title" "" 1 [] None 4 false.
Definition ex_state : review_state :=
  ReviewState [] ∅ None ∅ ∅ [] ex_config cs_valid None makePostReviewCapture None [] [].
Definition ex_world : world := World ex_state [] [].

Definition ex_run (bad : call -> bool) : result js_error pipeline_result * world :=
  orchestrate (ex_oracle bad) ex_wire ex_input (fun _ => Ok tt) (fun _ => Ok 1) (fun _ => None)
    (seq 0) false ex_world.

Lemma ex_tolerated : only_tolerated_fail (ex_oracle ex_bad).
Proof.
  intros h c e. unfold ex_oracle. destruct (ex_bad c) eqn:E; [|done]. intros [= <-]. split; [|done].
  destruct c; simpl in E; try discriminate; try exact I.
  intros ->. discriminate.
Qed.

Lemma orchestrate_degrades_witness :
  exists l, trace (ex_run ex_bad).2 = [] ++ l /\
    match (ex_run ex_bad).1 with
    | Ok res => r_status res = "accepted"%string /\ delivered l
    | Throw _ => reviews_failed l
    end.
Proof.
  apply (orchestrate_degrades (ex_oracle ex_bad) ex_wire ex_input (fun _ => Ok tt) (fun _ => Ok 1)
    (fun _ => None) (seq 0) false ex_world);
    [exact ex_tolerated | intros p e [=] | intros c e [=] | reflexivity | reflexivity].
Defined.

Lemma ex_selecting : selecting (ex_oracle (fun _ => false)).
Proof.
  split.
  - intros h l rev a [= <-]. reflexivity.
  - intros h root l ids rules s d [= <- _]. destruct l; simpl; lia.
Qed.

Lemma orchestrate_one_set_witness :
  exists l a, trace (ex_run (fun _ => false)).2 = [] ++ l /\
    (forall e a', e ∈ l -> shown e = Some a' -> a' = a) /\
    length (a_findings a) <= 252 /\
    forall res, (ex_run (fun _ => false)).1 = Ok res ->
      r_aggregated res = a /\ findingsCount res = length (a_findings a).
Proof.
  apply (orchestrate_one_set (ex_oracle (fun _ => false)) ex_wire ex_input (fun _ => Ok tt)
    (fun _ => Ok 1) (fun _ => None) (seq 0) false ex_world). exact ex_selecting.
Defined.

Lemma ex_notes_inv : notes_inv ex_world.
Proof. split; [apply NoDup_nil_2|]. intros s Hs. by apply elem_of_nil in Hs. Qed.

Lemma orchestrate_notes_witness :
  notes_inv (ex_run ex_bad).2 /\
  forall res, (ex_run ex_bad).1 = Ok res ->
    forall n, n ∈ degradation (st (ex_run ex_bad).2) ->
      n ∈ degradationNotes res \/ n = "cleanup_failed"%string.
Proof.
  apply (orchestrate_notes (ex_oracle ex_bad) ex_wire ex_input (fun _ => Ok tt) (fun _ => Ok 1)
    (fun _ => None) (seq 0) false ex_world). exact ex_notes_inv.
Defined.

(** With every optional stage failing the review is posted all the same. *)
Example ex_degraded :
  match ex_run ex_bad with
  | (Ok res, w) => (degradationNotes res, length (filter (fun e => existsb (Nat.eqb 22) (phases (ev_call e)) = true) (trace w)))
  | _ => ([], 0)
  end =
  (["policy_compute_failed"; "classify_failed"; "static_analysis_failed";
    "select_carry_forward_failed"; carry_forward_note; "dedup_failed"; "aggregate_failed";
    citations_note 1; "persist_findings_failed"; "apply_arbitration_failed";
    "persist_walkthrough_failed"; "post_check_run_failed"]%string, 1).
Proof. vm_compute. reflexivity. Qed.

(** The metadata that is persisted is that of the findings before the citation
    check.  Here the check drops the first finding, which no invariant touched;
    the surviving security finding was raised to [issue] by SI-001, and its row
    records that no invariant fired. *)
Example ex_shifted_metadata :
  omap (fun e => match ev_call e with
    | c_persistReviewFindings a (Some m) =>
        Some (map (fun p => (title p.1, severity p.1, invariants_fired p.2)) (zip (a_findings a) m))
    | _ => None end) (trace (ex_run (fun _ => false)).2)
  = [[("leak"%string, issue, [])]].
Proof. vm_compute. reflexivity. Qed.

(** A cancellation that arrives during the selection of the carry-forward does
    not end the review: it is posted, with the note of a failed selector. *)
Example ex_swallowed_cancellation :
  let orc : oracle := fun _ c =>
    match c return result js_error (reply c) with
    | c_selectCarryForward _ _ _ => Throw (JsError true "TerminalCancelError" "superseded" None None None)
    | c => Ok (ex_reply c)
    end in
  match orchestrate orc ex_wire ex_input (fun _ => Ok tt) (fun _ => Ok 1) (fun _ => None) (seq 0) false ex_world with
  | (Ok res, _) => degradationNotes res
  | _ => []
  end = [carry_forward_note; citations_note 1].
Proof. vm_compute. reflexivity. Qed.
