(* ===== verification/Mt19937.v ===== *)
(** [libs/platform/src/_mt19937.ts]: the Mersenne Twister behind the seeded
    randomness of the platform, bit for bit CPython's [random.Random].  A
    32-bit word is an integer in [0, 2^32): every write of the code ends in
    [>>> 0] or goes through [Uint32Array], so the signed intermediate values of
    JavaScript's bit operators are taken by their bit pattern. *)
From stdpp Require Import base list.
From Stdlib Require Import ZArith Lia Sorting.Permutation.
From S2P Require Import Prelude.
Open Scope Z_scope.

Definition W : Z := 4294967296.
Definition u32 (x : Z) : Z := x mod W.
Definition imul (a b : Z) : Z := u32 (a * b).

Definition N : nat := 624.
Definition M : nat := 397.
Definition MATRIX_A : Z := 0x9908b0df.
Definition UPPER_MASK : Z := 0x80000000.
Definition LOWER_MASK : Z := 0x7fffffff.

Record mt_state := MtState { mt : list Z; mti : nat }.

Definition at_ (l : list Z) (i : nat) : Z := default 0 (l !! i).

(** * Seeding *)

(** [mt[i] = 1812433253 * (prev ^ (prev >>> 30)) + i], for [n] words from
    index [i]. *)
Fixpoint genrand_words (prev : Z) (i : Z) (n : nat) : list Z :=
  match n with
  | O => []
  | S n' =>
      let w := u32 (imul 1812433253 (Z.lxor prev (Z.shiftr prev 30)) + i) in
      w :: genrand_words w (i + 1) n'
  end.

Definition initGenrand (s : Z) : list Z := u32 s :: genrand_words (u32 s) 1 (N - 1).

(** [if (i >= N) { mt[0] = mt[N - 1]; i = 1; }] *)
Definition wrap_index (l : list Z) (i : nat) : list Z * nat :=
  if (N <=? i)%nat then (<[0%nat := at_ l (N - 1)]> l, 1%nat) else (l, i).

Fixpoint init_key (key : list Z) (k : nat) (l : list Z) (i j : nat) : list Z * nat :=
  match k with
  | O => (l, i)
  | S k' =>
      let prev := at_ l (i - 1) in
      let w := u32 (Z.lxor (at_ l i) (imul (Z.lxor prev (Z.shiftr prev 30)) 1664525)
                    + at_ key j + Z.of_nat j) in
      let '(l', i') := wrap_index (<[i := w]> l) (S i) in
      init_key key k' l' i' (if (length key <=? S j)%nat then 0%nat else S j)
  end.

Fixpoint init_mix (k : nat) (l : list Z) (i : nat) : list Z :=
  match k with
  | O => l
  | S k' =>
      let prev := at_ l (i - 1) in
      let w := u32 (Z.lxor (at_ l i) (imul (Z.lxor prev (Z.shiftr prev 30)) 1566083941) - Z.of_nat i) in
      let '(l', i') := wrap_index (<[i := w]> l) (S i) in
      init_mix k' l' i'
  end.

Definition initByArray (key : list Z) : mt_state :=
  let '(l, i) := init_key key (Nat.max N (length key)) (initGenrand 19650218) 1 0 in
  MtState (<[0%nat := 0x80000000]> (init_mix (N - 1) l i)) N.

(** The little-endian words of a non-negative integer; [fuel] bounds their
    number. *)
Fixpoint key_words (fuel : nat) (v : Z) : list Z :=
  match fuel with
  | O => []
  | S f => if 0 <? v then Z.land v 0xffffffff :: key_words f (Z.shiftr v 32) else []
  end.

Definition seed_key (n : Z) : list Z :=
  let v := Z.abs n in
  if v =? 0 then [0] else key_words (S (Z.to_nat (Z.log2 v))) v.

Definition seed (n : Z) : mt_state := initByArray (seed_key n).

(** * Drawing *)

(** [mt[kk] = mt[kj] ^ (y >>> 1) ^ (y & 1 ? MATRIX_A : 0)] with [y] from
    [mt[kk]] and [mt[kn]]. *)
Definition twist_word (l : list Z) (kk kn kj : nat) : list Z :=
  let y := Z.lor (Z.land (at_ l kk) UPPER_MASK) (Z.land (at_ l kn) LOWER_MASK) in
  <[kk := Z.lxor (Z.lxor (at_ l kj) (Z.shiftr y 1)) (if Z.land y 1 =? 1 then MATRIX_A else 0)]> l.

Definition twist (l : list Z) : list Z :=
  let l1 := fold_left (fun l kk => twist_word l kk (kk + 1) (kk + M)) (seq 0 (N - M)) l in
  let l2 := fold_left (fun l kk => twist_word l kk (kk + 1) (kk - (N - M))) (seq (N - M) (M - 1)) l1 in
  twist_word l2 (N - 1) 0 (M - 1).

Definition temper (y : Z) : Z :=
  let y := Z.lxor y (Z.shiftr y 11) in
  let y := Z.lxor y (Z.land (u32 (Z.shiftl y 7)) 0x9d2c5680) in
  let y := Z.lxor y (Z.land (u32 (Z.shiftl y 15)) 0xefc60000) in
  Z.lxor y (Z.shiftr y 18).

Definition genrandUint32 (s : mt_state) : Z * mt_state :=
  let s := if (N <=? mti s)%nat then MtState (twist (mt s)) 0 else s in
  (temper (at_ (mt s) (mti s)), MtState (mt s) (S (mti s))).

(** [randomDouble], as the numerator over [2^53]: the quotient is exact. *)
Definition randomDouble_num (s : mt_state) : Z * mt_state :=
  let '(a, s1) := genrandUint32 s in
  let '(b, s2) := genrandUint32 s1 in
  (Z.shiftr a 5 * 67108864 + Z.shiftr b 6, s2).

(** The words of a wide [getrandbits]; [fuel] bounds their number. *)
Fixpoint getrandbits_wide (fuel : nat) (remaining shift result : Z) (s : mt_state) : Z * mt_state :=
  match fuel with
  | O => (result, s)
  | S f =>
      if 0 <? remaining then
        let take := Z.min remaining 32 in
        let '(x, s') := genrandUint32 s in
        getrandbits_wide f (remaining - 32) (shift + 32)
          (Z.lor result (Z.shiftl (Z.shiftr x (32 - take)) shift)) s'
      else (result, s)
  end.

Definition getrandbits (k : Z) (s : mt_state) : Z * mt_state :=
  if k <=? 32 then let '(x, s') := genrandUint32 s in (Z.shiftr x (32 - k), s')
  else getrandbits_wide (Z.to_nat k) k 0 0 s.

(** [t >>= 1] coerces to a signed 32-bit integer first. *)
Definition to_int32 (x : Z) : Z := let u := u32 x in if u <? 2147483648 then u else u - W.

(** [while (t > 0) { t >>= 1; k++; }]. *)
Fixpoint bit_count (fuel : nat) (t k : Z) : Z :=
  match fuel with
  | O => k
  | S f => if 0 <? t then bit_count f (Z.shiftr (to_int32 t) 1) (k + 1) else k
  end.

Definition below_bits (n : Z) : Z := bit_count 33 n 0.

(** The rejection loop; [fuel] bounds the draws. *)
Fixpoint reject (fuel : nat) (n k : Z) (s : mt_state) : option (Z * mt_state) :=
  match fuel with
  | O => None
  | S f => let '(r, s') := getrandbits k s in if n <=? r then reject f n k s' else Some (r, s')
  end.

Definition randbelow (fuel : nat) (n : Z) (s : mt_state) : option (Z * mt_state) :=
  if n <=? 0 then Some (0, s) else reject fuel n (below_bits n) s.

Definition randint (fuel : nat) (a b : Z) (s : mt_state) : option (Z * mt_state) :=
  '(r, s') ← randbelow fuel (b - a + 1) s; Some (a + r, s').

Definition choice {A} (fuel : nat) (l : list A) (s : mt_state) : option (A * mt_state) :=
  '(r, s') ← randbelow fuel (Z.of_nat (length l)) s;
  x ← l !! Z.to_nat r; Some (x, s').

(** [tmp = x[i]; x[i] = x[j]; x[j] = tmp]. *)
Definition swap {A} (i j : nat) (l : list A) : list A :=
  match l !! i, l !! j with
  | Some a, Some b => <[j := a]> (<[i := b]> l)
  | _, _ => l
  end.

(** [for (i = length - 1; i >= 1; i--)], from [i] down. *)
Fixpoint shuffle_from {A} (fuel : nat) (i : nat) (l : list A) (s : mt_state)
    : option (list A * mt_state) :=
  match i with
  | O => Some (l, s)
  | S i' =>
      '(j, s') ← randbelow fuel (Z.of_nat (S i)) s;
      shuffle_from fuel i' (swap i (Z.to_nat j) l) s'
  end.

Definition shuffle {A} (fuel : nat) (l : list A) (s : mt_state) : option (list A * mt_state) :=
  shuffle_from fuel (length l - 1) l s.

Fixpoint tokenBytes (fuel n : nat) (s : mt_state) : option (list Z * mt_state) :=
  match n with
  | O => Some ([], s)
  | S n' =>
      '(b, s') ← randbelow fuel 256 s;
      '(bs, s'') ← tokenBytes fuel n' s'; Some (b :: bs, s'')
  end.

(** * Words *)

Definition word (x : Z) : Prop := 0 <= x < W.

Lemma word_bits x : word x <-> 0 <= x /\ forall i, 32 <= i -> Z.testbit x i = false.
Proof.
  unfold word. split.
  - intros [H0 H1]. split; [done|]. intros i Hi.
    rewrite <- (Z.mod_small x (2 ^ 32)) by (split; [done|exact H1]).
    by apply Z.mod_pow2_bits_high.
  - intros [H0 Hb]. split; [done|].
    assert (x = x mod 2 ^ 32) as ->; [|by apply Z.mod_pos_bound].
    apply Z.bits_inj'. intros i Hi. destruct (Z.lt_ge_cases i 32).
    + by rewrite Z.mod_pow2_bits_low.
    + by rewrite Z.mod_pow2_bits_high, Hb.
Qed.

Lemma word_u32 x : word (u32 x).
Proof. apply Z.mod_pos_bound. done. Qed.

Lemma word_lxor x y : word x -> word y -> word (Z.lxor x y).
Proof.
  rewrite !word_bits. intros [Hx Hbx] [Hy Hby]. split; [by apply Z.lxor_nonneg|].
  intros i Hi. by rewrite Z.lxor_spec, Hbx, Hby.
Qed.

Lemma word_land x y : word x -> 0 <= y -> word (Z.land x y).
Proof.
  rewrite !word_bits. intros [Hx Hbx] Hy. split; [apply Z.land_nonneg; auto|].
  intros i Hi. by rewrite Z.land_spec, Hbx.
Qed.

Lemma word_lor x y : word x -> word y -> word (Z.lor x y).
Proof.
  rewrite !word_bits. intros [Hx Hbx] [Hy Hby]. split; [by apply Z.lor_nonneg|].
  intros i Hi. by rewrite Z.lor_spec, Hbx, Hby.
Qed.

Lemma word_shiftr x k : word x -> 0 <= k -> word (Z.shiftr x k).
Proof.
  rewrite !word_bits. intros [Hx Hbx] Hk. split; [by apply Z.shiftr_nonneg|].
  intros i Hi. rewrite Z.shiftr_spec by lia. apply Hbx. lia.
Qed.

Lemma shiftr_bound x k b : 0 <= k <= b -> 0 <= x < 2 ^ b -> 0 <= Z.shiftr x k < 2 ^ (b - k).
Proof.
  intros Hk [H0 H1]. split; [by apply Z.shiftr_nonneg|].
  rewrite Z.shiftr_div_pow2 by lia. apply Z.div_lt_upper_bound; [lia|].
  rewrite <- Z.pow_add_r by lia. by replace (k + (b - k)) with b by lia.
Qed.

Lemma word_const c : (0 <=? c) && (c <? W) = true -> word c.
Proof. unfold word. intros [H1 H2]%andb_true_iff. bool_to_prop. done. Qed.

Definition words (l : list Z) : Prop := Forall word l.

Lemma words_at l i : words l -> word (at_ l i).
Proof.
  intros H. unfold at_. destruct (l !! i) as [x|] eqn:E; [|by apply word_const].
  by apply (Forall_lookup_1 _ _ _ _ H E).
Qed.

Lemma words_insert l i w : words l -> word w -> words (<[i := w]> l).
Proof. intros. by apply Forall_insert. Qed.

(** Words are closed under what the engine does to them. *)
Ltac word_tac :=
  repeat first
    [ assumption | apply word_u32 | apply word_lxor | apply word_lor
    | apply word_shiftr; [|lia] | apply word_land; [|apply Z.leb_le; reflexivity]
    | apply words_at | apply word_const; reflexivity ].

(** The invariant of the engine: 624 words. *)
Definition state_ok (s : mt_state) : Prop := length (mt s) = N /\ words (mt s).
Definition list_ok (l : list Z) : Prop := length l = N /\ words l.

Lemma list_ok_insert l i w : list_ok l -> word w -> list_ok (<[i := w]> l).
Proof. intros [Hl Hw] H. split; [by rewrite length_insert|by apply words_insert]. Qed.

Lemma genrand_words_ok prev i n :
  word prev -> words (genrand_words prev i n) /\ length (genrand_words prev i n) = n.
Proof.
  revert prev i. induction n as [|n IH]; intros prev i Hp; simpl; [by split; [constructor|]|].
  destruct (IH (u32 (imul 1812433253 (Z.lxor prev (Z.shiftr prev 30)) + i)) (i + 1)) as [H1 H2];
    [apply word_u32|]. split; [constructor; [apply word_u32|done]|by rewrite H2].
Qed.

Lemma initGenrand_ok s : list_ok (initGenrand s).
Proof.
  unfold initGenrand. destruct (genrand_words_ok (u32 s) 1 (N - 1) (word_u32 s)) as [H1 H2].
  split; [cbn [length]; by rewrite H2|]. constructor; [apply word_u32|done].
Qed.

Lemma wrap_index_ok l i : list_ok l -> list_ok (wrap_index l i).1.
Proof.
  intros Hl. unfold wrap_index. case_match; [|done]. apply list_ok_insert; [done|].
  apply words_at, Hl.
Qed.

Lemma init_key_ok key k l i j : list_ok l -> list_ok (init_key key k l i j).1.
Proof.
  revert l i j. induction k as [|k IH]; intros l i j Hl; simpl; [done|].
  match goal with |- context [wrap_index ?l' ?i'] =>
    pose proof (wrap_index_ok l' i' (list_ok_insert _ _ _ Hl (word_u32 _))) as Hw;
    destruct (wrap_index l' i') as [l2 i2] end.
  by apply IH.
Qed.

Lemma init_mix_ok k l i : list_ok l -> list_ok (init_mix k l i).
Proof.
  revert l i. induction k as [|k IH]; intros l i Hl; simpl; [done|].
  match goal with |- context [wrap_index ?l' ?i'] =>
    pose proof (wrap_index_ok l' i' (list_ok_insert _ _ _ Hl (word_u32 _))) as Hw;
    destruct (wrap_index l' i') as [l2 i2] end.
  by apply IH.
Qed.

Lemma initByArray_ok key : state_ok (initByArray key).
Proof.
  unfold initByArray. pose proof (init_key_ok key (Nat.max N (length key)) _ 1 0 (initGenrand_ok 19650218)) as H.
  destruct (init_key _ _ _ _ _) as [l i]. apply list_ok_insert; [by apply init_mix_ok|by apply word_const].
Qed.

Lemma twist_word_ok l kk kn kj : list_ok l -> list_ok (twist_word l kk kn kj).
Proof.
  intros Hl. apply list_ok_insert; [done|]. destruct Hl as [_ Hw].
  apply word_lxor; [word_tac|]. case_match; word_tac.
Qed.

Lemma twist_ok l : list_ok l -> list_ok (twist l).
Proof.
  intros Hl. unfold twist. apply twist_word_ok.
  assert (Hf : forall g kks l, list_ok l ->
    list_ok (fold_left (fun l kk => twist_word l kk (kk + 1) (g kk)) kks l)).
  { intros g kks. induction kks as [|kk kks IH]; intros q Hq; simpl; [done|]. by apply IH, twist_word_ok. }
  by apply Hf, Hf.
Qed.

Lemma temper_word y : word y -> word (temper y).
Proof. intros Hy. unfold temper. word_tac. Qed.

Lemma genrandUint32_ok s r s' :
  state_ok s -> genrandUint32 s = (r, s') -> word r /\ state_ok s'.
Proof.
  intros Hs H. unfold genrandUint32 in H.
  assert (Hs1 : state_ok (if (N <=? mti s)%nat then MtState (twist (mt s)) 0 else s)).
  { case_match; [by apply twist_ok|done]. }
  set (s1 := if (N <=? mti s)%nat then _ else _) in *. injection H as <- <-.
  split; [apply temper_word, words_at, Hs1|exact Hs1].
Qed.

(** * Tempering loses nothing *)

(** [y ^ (y >>> k)]: the top bits of [y] are there, and give the next ones. *)
Lemma xorshift_right_inj k x y :
  0 < k -> 0 <= x -> 0 <= y ->
  Z.lxor x (Z.shiftr x k) = Z.lxor y (Z.shiftr y k) -> x = y.
Proof.
  intros Hk Hx Hy H. apply Z.lxor_eq. set (d := Z.lxor x y).
  assert (Hd : d = Z.shiftr d k).
  { apply Z.lxor_eq. unfold d. rewrite Z.shiftr_lxor.
    apply (f_equal (fun z => Z.lxor z (Z.lxor y (Z.shiftr y k)))) in H.
    rewrite Z.lxor_nilpotent in H. rewrite <- H. apply Z.bits_inj'. intros i Hi.
    rewrite !Z.lxor_spec. by destruct (Z.testbit x i), (Z.testbit y i),
      (Z.testbit (Z.shiftr x k) i), (Z.testbit (Z.shiftr y k) i). }
  assert (Hd0 : 0 <= d) by (by apply Z.lxor_nonneg).
  destruct (Z.eq_dec d 0) as [|Hne]; [done|exfalso].
  rewrite Z.shiftr_div_pow2 in Hd by lia.
  assert (d / 2 ^ k < d); [|lia]. apply Z.div_lt; [lia|]. by apply Z.pow_gt_1.
Qed.

(** [y ^ ((y << k) & c)]: the low bits of [y] are there, and give the next ones. *)
Lemma xorshift_left_inj k c x y :
  0 < k -> word x -> word y ->
  Z.lxor x (Z.land (u32 (Z.shiftl x k)) c) = Z.lxor y (Z.land (u32 (Z.shiftl y k)) c) -> x = y.
Proof.
  intros Hk [Hx Hbx]%word_bits [Hy Hby]%word_bits H.
  assert (Hlow : forall i, 0 <= i -> Z.testbit x i = Z.testbit y i).
  { intros i Hi. revert Hi. induction (Z.lt_wf 0 i) as [i _ IH]. intros Hi.
    destruct (Z.le_gt_cases 32 i) as [Hhi|Hlo]; [by rewrite Hbx, Hby|].
    apply (f_equal (fun z => Z.testbit z i)) in H. rewrite !Z.lxor_spec, !Z.land_spec in H.
    unfold u32, W in H. change 4294967296 with (2 ^ 32) in H.
    rewrite !Z.mod_pow2_bits_low, !Z.shiftl_spec in H by lia.
    assert (Hs : Z.testbit x (i - k) = Z.testbit y (i - k)).
    { destruct (Z.lt_ge_cases i k); [by rewrite !Z.testbit_neg_r by lia|]. apply IH; lia. }
    rewrite Hs in H. by destruct (Z.testbit x i), (Z.testbit y i), (Z.testbit y (i - k)), (Z.testbit c i). }
  by apply Z.bits_inj'.
Qed.

Lemma temper_inj x y : word x -> word y -> temper x = temper y -> x = y.
Proof.
  intros Hx Hy H. unfold temper in H. cbv zeta in H.
  apply xorshift_right_inj in H; [|lia|..]; cycle 1.
  { apply (word_lxor _ _); word_tac. } { apply (word_lxor _ _); word_tac. }
  apply xorshift_left_inj in H; [|lia|word_tac..].
  apply xorshift_left_inj in H; [|lia|word_tac..].
  apply xorshift_right_inj in H; [done|lia|apply Hx|apply Hy].
Qed.

(** * Seeds *)

(** The number a list of little-endian words stands for. *)
Fixpoint key_value (key : list Z) : Z :=
  match key with [] => 0 | w :: key' => w + W * key_value key' end.

Lemma land_ones32 v : Z.land v 0xffffffff = v mod W.
Proof. change 0xffffffff with (Z.ones 32). rewrite Z.land_ones by lia. reflexivity. Qed.

Lemma key_words_value fuel v :
  0 <= v < W ^ Z.of_nat fuel -> key_value (key_words fuel v) = v /\ words (key_words fuel v).
Proof.
  revert v. induction fuel as [|fuel IH]; intros v Hv.
  - simpl in *. split; [lia|constructor].
  - rewrite Nat2Z.inj_succ, Z.pow_succ_r in Hv by lia. cbn [key_words].
    destruct (0 <? v) eqn:E; bool_to_prop; [|split; [simpl; lia|constructor]].
    rewrite Z.shiftr_div_pow2, land_ones32 by lia. change (2 ^ 32) with W.
    destruct (IH (v / W)) as [H1 H2].
    { split; [apply Z.div_pos; [lia|done]|]. apply Z.div_lt_upper_bound; [done|lia]. }
    split; [|constructor; [by apply Z.mod_pos_bound|done]].
    cbn [key_value]. rewrite H1, Z.add_comm. symmetry. by apply Z.div_mod.
Qed.

(** * Drawing below a bound *)

(** The halving loop counts the binary digits of a positive int32. *)
Lemma bit_count_spec fuel t k :
  0 <= t < 2 ^ 31 -> (Z.log2 t + 1 < Z.of_nat fuel \/ t = 0 /\ (0 < fuel)%nat) ->
  bit_count fuel t k = if t =? 0 then k else k + Z.log2 t + 1.
Proof.
  revert t k. induction fuel as [|fuel IH]; intros t k Ht Hf.
  { destruct Hf as [Hf|[_ Hf]]; [|lia]. pose proof (Z.log2_nonneg t). lia. }
  cbn [bit_count]. destruct (0 <? t) eqn:E; bool_to_prop.
  2:{ assert (t = 0) as -> by lia. done. }
  assert (to_int32 t = t) as ->.
  { unfold to_int32, u32, W. rewrite Z.mod_small by lia.
    destruct (t <? 2147483648) eqn:E2; bool_to_prop; lia. }
  rewrite (proj2 (Z.eqb_neq t 0)) by lia.
  pose proof (shiftr_bound t 1 31 ltac:(lia) Ht) as Hb. change (31 - 1) with 30 in Hb.
  destruct Hf as [Hf|]; [|lia].
  destruct (Z.eq_dec t 1) as [->|Hne].
  { change (Z.shiftr 1 1) with 0. change (Z.log2 1) with 0 in *. rewrite IH; [simpl; lia|lia|].
    right. split; [done|lia]. }
  assert (Hl : Z.log2 (Z.shiftr t 1) = Z.log2 t - 1).
  { rewrite Z.log2_shiftr by lia. pose proof (Z.log2_le_mono 2 t ltac:(lia)) as H2.
    change (Z.log2 2) with 1 in H2. lia. }
  assert (Hpos : 0 < Z.shiftr t 1).
  { rewrite Z.shiftr_div_pow2 by lia. apply Z.div_str_pos. change (2 ^ 1) with 2. lia. }
  rewrite IH; [|lia|left; rewrite Hl; lia].
  rewrite (proj2 (Z.eqb_neq _ 0)) by lia. rewrite Hl. lia.
Qed.

Lemma below_bits_spec n : 0 < n < 2 ^ 31 -> below_bits n = Z.log2 n + 1.
Proof.
  intros Hn. unfold below_bits. rewrite bit_count_spec.
  - by rewrite (proj2 (Z.eqb_neq n 0)) by lia.
  - lia.
  - left. pose proof (Z.log2_lt_pow2 n 31 ltac:(lia)) as [H _]. specialize (H (proj2 Hn)). lia.
Qed.

Lemma getrandbits_ok k s r s' :
  0 <= k <= 32 -> state_ok s -> getrandbits k s = (r, s') -> 0 <= r < 2 ^ k /\ state_ok s'.
Proof.
  intros Hk Hs H. unfold getrandbits in H. rewrite (proj2 (Z.leb_le k 32)) in H by lia.
  destruct (genrandUint32 s) as [x s1] eqn:E. injection H as <- <-.
  apply genrandUint32_ok in E as [Hx Hs1]; [|done]. split; [|done].
  pose proof (shiftr_bound x (32 - k) 32 ltac:(lia) Hx) as H. by replace (32 - (32 - k)) with k in H by lia.
Qed.

Lemma reject_ok fuel n k s r s' :
  0 < n -> 0 <= k <= 32 -> state_ok s -> reject fuel n k s = Some (r, s') -> 0 <= r < n /\ state_ok s'.
Proof.
  intros Hn Hk. revert s. induction fuel as [|fuel IH]; intros s Hs H; [done|]. cbn [reject] in H.
  destruct (getrandbits k s) as [x s1] eqn:E. apply getrandbits_ok in E as [Hx Hs1]; [|done|done].
  destruct (n <=? x) eqn:En; bool_to_prop; [eauto|]. injection H as <- <-. split; [lia|done].
Qed.

Lemma log2_bound n : 0 < n < 2 ^ 31 -> 0 <= Z.log2 n + 1 <= 32.
Proof.
  intros Hn. pose proof (Z.log2_nonneg n). pose proof (Z.log2_lt_pow2 n 31 ltac:(lia)) as [H' _].
  specialize (H' (proj2 Hn)). lia.
Qed.

Lemma randbelow_ok fuel n s r s' :
  n < 2 ^ 31 -> state_ok s -> randbelow fuel n s = Some (r, s') ->
  0 <= r /\ (0 < n -> r < n) /\ state_ok s'.
Proof.
  intros Hn Hs H. unfold randbelow in H. destruct (n <=? 0) eqn:E; bool_to_prop.
  { injection H as <- <-. split; [lia|]. split; [lia|done]. }
  rewrite below_bits_spec in H by lia.
  apply reject_ok in H as [H1 H2]; [|lia|apply log2_bound; lia|done]. split; [lia|]. split; [lia|done].
Qed.

(** The stream of [k]-bit draws. *)
Fixpoint draws (n : nat) (k : Z) (s : mt_state) : Z * mt_state :=
  match n with
  | O => getrandbits k s
  | S n' => draws n' k (getrandbits k s).2
  end.

(** The loop returns the first draw below the bound, given fuel to reach it. *)
Lemma reject_first i fuel n k s :
  (forall j, (j < i)%nat -> n <= (draws j k s).1) -> (draws i k s).1 < n -> (i < fuel)%nat ->
  reject fuel n k s = Some (draws i k s).
Proof.
  revert fuel s. induction i as [|i IH]; intros [|fuel] s Hj Hi Hf; try lia; cbn [reject].
  - cbn [draws] in *. destruct (getrandbits k s) as [r s']. simpl in Hi.
    destruct (n <=? r) eqn:E; bool_to_prop; [lia|done].
  - pose proof (Hj 0%nat ltac:(lia)) as H0. cbn [draws] in *.
    destruct (getrandbits k s) as [r s'] eqn:E. simpl in H0, Hi.
    rewrite (proj2 (Z.leb_le n r)) by done. simpl. apply IH; [|done|lia].
    intros j Hlt. specialize (Hj (S j) ltac:(lia)). cbn [draws] in Hj. by rewrite E in Hj.
Qed.

(** * Shuffles *)

Lemma swap_perm {A} i j (l : list A) : swap i j l ≡ₚ l.
Proof.
  unfold swap. destruct (l !! i) as [a|] eqn:Ei; [|done]. destruct (l !! j) as [b|] eqn:Ej; [|done].
  destruct (decide (i = j)) as [->|Hij].
  { rewrite Ei in Ej. injection Ej as <-. by rewrite list_insert_insert_eq, list_insert_id. }
  pose proof (lookup_lt_Some _ _ _ Ei) as Hi. pose proof (lookup_lt_Some _ _ _ Ej) as Hj.
  apply (Permutation_inj). split; [by rewrite !length_insert|].
  exists (fun n => if decide (n = i) then j else if decide (n = j) then i else n). split.
  - intros n m. repeat case_decide; congruence.
  - intros n. repeat case_decide; subst.
    + rewrite list_lookup_insert_ne, list_lookup_insert_eq by done. done.
    + rewrite list_lookup_insert_eq by (by rewrite length_insert). done.
    + by rewrite !list_lookup_insert_ne.
Qed.

Lemma shuffle_from_perm {A} fuel i (l l' : list A) s s' :
  shuffle_from fuel i l s = Some (l', s') -> l' ≡ₚ l.
Proof.
  revert l s. induction i as [|i IH]; intros l s H; cbn [shuffle_from] in H.
  - by injection H as <- _.
  - apply bind_Some in H as ([j s1] & _ & H). apply IH in H. by rewrite H, swap_perm.
Qed.

(** * Properties *)

(** The engine after [k] draws. *)
Definition drawn (k : nat) (s : mt_state) : mt_state := Nat.iter k (fun s => (genrandUint32 s).2) s.

Lemma drawn_ok k s : state_ok s -> state_ok (drawn k s).
Proof.
  intros Hs. induction k as [|k IH]; [done|].
  change (state_ok (genrandUint32 (drawn k s)).2).
  destruct (genrandUint32 (drawn k s)) as [r s'] eqn:E. by apply genrandUint32_ok in E as [_ ?].
Qed.

(** Everything stays a 32-bit word.  From any integer seed, after any
    number of draws, the state is 624 words and the next output is a word; the
    double built from the next two draws is a fraction of [2^53] in [0, 1). *)
Theorem mt_words n k :
  let s := drawn k (seed n) in
  length (mt s) = N /\ Forall (fun w => 0 <= w < 2 ^ 32) (mt s) /\
  0 <= (genrandUint32 s).1 < 2 ^ 32 /\ 0 <= (randomDouble_num s).1 < 2 ^ 53.
Proof.
  intros s. assert (Hs : state_ok s) by apply drawn_ok, initByArray_ok.
  split; [apply Hs|]. split; [apply Hs|]. unfold randomDouble_num.
  destruct (genrandUint32 s) as [a s1] eqn:Ea. apply genrandUint32_ok in Ea as [Ha Hs1]; [|done].
  split; [exact Ha|]. destruct (genrandUint32 s1) as [b s2] eqn:Eb.
  apply genrandUint32_ok in Eb as [Hb _]; [|done]. cbn [fst].
  pose proof (shiftr_bound a 5 32 ltac:(lia) Ha) as H1.
  pose proof (shiftr_bound b 6 32 ltac:(lia) Hb) as H2.
  change (2 ^ (32 - 5)) with 134217728 in H1. change (2 ^ (32 - 6)) with 67108864 in H2.
  change (2 ^ 53) with 9007199254740992. lia.
Qed.

(** The seed is all there.  The key words of an integer, read as
    little-endian base-[2^32] digits, give its absolute value back, and
    tempering maps distinct words to distinct words, so no bit of the state is
    lost on the way out. *)
Theorem seed_key_roundtrip n x y :
  key_value (seed_key n) = Z.abs n /\ words (seed_key n) /\ seed_key n <> [] /\
  (word x -> word y -> temper x = temper y -> x = y).
Proof.
  assert (Hk : key_value (seed_key n) = Z.abs n /\ words (seed_key n) /\ seed_key n <> []).
  { unfold seed_key. destruct (Z.abs n =? 0) eqn:E; bool_to_prop.
    { split; [simpl; lia|]. split; [by repeat constructor|done]. }
    destruct (key_words_value (S (Z.to_nat (Z.log2 (Z.abs n)))) (Z.abs n)) as [H1 H2].
    { split; [lia|]. pose proof (Z.log2_nonneg (Z.abs n)). pose proof (Z.log2_spec (Z.abs n) ltac:(lia)).
      rewrite Nat2Z.inj_succ, Z2Nat.id by lia.
      eapply Z.lt_le_trans; [apply Z.log2_spec; lia|]. apply Z.pow_le_mono_l. done. }
    split; [done|]. split; [done|]. cbn [key_words]. destruct (0 <? Z.abs n) eqn:E2; [done|].
    bool_to_prop. lia. }
  destruct Hk as (H1 & H2 & H3). split; [done|]. split; [done|]. split; [done|]. apply temper_inj.
Qed.

(** Bounded integers.  For a positive bound below [2^31] the rejection
    loop asks for exactly the bits of the bound and returns the first draw below
    it, given fuel to reach that draw; whatever it returns lies below the bound,
    and the state stays well formed.  For a bound from [2^31] to [2^32 - 1] the
    signed shift ends the bit count after one step, and only 0 and 1 can be
    returned. *)
Theorem randbelow_first_below fuel n s :
  state_ok s -> 0 < n < 2 ^ 32 ->
  (forall r s', randbelow fuel n s = Some (r, s') -> 0 <= r < n /\ state_ok s' /\ (2 ^ 31 <= n -> r <= 1)) /\
  (n < 2 ^ 31 -> below_bits n = Z.log2 n + 1 /\
    forall i, (i < fuel)%nat -> (forall j, (j < i)%nat -> n <= (draws j (below_bits n) s).1) ->
      (draws i (below_bits n) s).1 < n ->
      randbelow fuel n s = Some (draws i (below_bits n) s)).
Proof.
  intros Hs Hn. unfold randbelow. rewrite (proj2 (Z.leb_gt n 0)) by lia. split.
  - intros r s' H. destruct (Z.lt_ge_cases n (2 ^ 31)) as [Hlt|Hge].
    + rewrite below_bits_spec in H by lia.
      apply reject_ok in H as [H1 H2]; [|lia|apply log2_bound; lia|done]. split; [lia|]. split; [done|lia].
    + assert (below_bits n = 1) as Hb.
      { unfold below_bits. cbn [bit_count]. rewrite (proj2 (Z.ltb_lt 0 n)) by lia.
        assert (Z.shiftr (to_int32 n) 1 < 0 \/ Z.shiftr (to_int32 n) 1 = 0) as Hneg.
        { left. rewrite Z.shiftr_neg. unfold to_int32, u32, W in *. change (2 ^ 32) with 4294967296 in Hn.
          change (2 ^ 31) with 2147483648 in Hge. rewrite Z.mod_small by lia.
          destruct (n <? 2147483648) eqn:E; bool_to_prop; lia. }
        by rewrite (proj2 (Z.ltb_ge 0 _)) by lia. }
      rewrite Hb in H.
      assert (Hr : forall fuel s, state_ok s -> reject fuel n 1 s = Some (r, s') -> r <= 1 /\ 0 <= r < n /\ state_ok s').
      { clear -Hn. intros fuel. induction fuel as [|fuel IH]; intros s Hs H; [done|]. cbn [reject] in H.
        destruct (getrandbits 1 s) as [x s1] eqn:E. apply getrandbits_ok in E as [Hx Hs1]; [|lia|done].
        destruct (n <=? x) eqn:En; bool_to_prop; [eauto|]. injection H as <- <-.
        change (2 ^ 1) with 2 in Hx. split; [lia|]. split; [lia|done]. }
      destruct (Hr fuel s Hs H) as (? & ? & ?). split; [done|]. split; [done|]. done.
  - intros Hlt. split; [apply below_bits_spec; lia|]. intros i Hi Hj Hd. by apply reject_first.
Qed.

(** [shuffle] permutes.  Whatever the state, a shuffled array is a
    permutation of the array, and [choice] picks one of its elements. *)
Theorem shuffle_permutation {A} fuel (l l' : list A) s s' x :
  (shuffle fuel l s = Some (l', s') -> l' ≡ₚ l) /\
  (choice fuel l s = Some (x, s') -> x ∈ l).
Proof.
  split; [apply shuffle_from_perm|]. unfold choice.
  intros ([j s1] & _ & H)%bind_Some. apply bind_Some in H as (y & Hy & [= <- <-]).
  by eapply list_elem_of_lookup_2.
Qed.

(** * Witnesses *)

(** The first outputs of CPython's [random.Random(0)]. *)
Example seed0_outputs :
  (genrandUint32 (seed 0)).1 = 3626764237 /\ (genrandUint32 (drawn 1 (seed 0))).1 = 1654615998.
Proof. split; vm_compute; reflexivity. Qed.

Lemma randbelow_first_below_witness :
  exists r s', randbelow 10 6 (seed 0) = Some (r, s') /\ 0 <= r < 6.
Proof.
  destruct (randbelow 10 6 (seed 0)) as [[r s']|] eqn:E; [|vm_compute in E; discriminate].
  exists r, s'. split; [reflexivity|].
  apply (proj1 (randbelow_first_below 10 6 (seed 0) (initByArray_ok _) ltac:(lia)) r s' E).
Defined.
