(* ===== verification/Text.v ===== *)
(** JavaScript strings as sequences of UTF-16 code units, for the code whose
    offsets, lengths and regular expressions count code units: literals,
    slices, searches, case and the character classes of regular expressions. *)
From stdpp Require Import base list strings.
From Stdlib Require Import ZArith NArith Lia Ascii.
From S2P Require Import Prelude.

Abbreviation text := (list N).

(** A literal of ASCII characters. *)
Definition u (s : string) : text := map N_of_ascii (String.list_ascii_of_string s).
Arguments u : simpl never.

#[export] Instance text_eq_dec : EqDecision text := list_eq_dec.

(** * Methods of [String.prototype] *)

(** [s.slice(a, b)] with [0 <= a]; [s.slice(a)]. *)
Definition slice (a b : nat) (s : text) : text := take (b - a) (drop a s).
Definition slice_from (a : nat) (s : text) : text := drop a s.

Fixpoint starts_with (t s : text) : bool :=
  match t, s with
  | [], _ => true
  | c :: t', d :: s' => N.eqb c d && starts_with t' s'
  | _ :: _, [] => false
  end.

Fixpoint includes (t s : text) : bool :=
  starts_with t s || match s with [] => false | _ :: s' => includes t s' end.

Fixpoint text_join (sep : text) (parts : list text) : text :=
  match parts with
  | [] => []
  | [w] => w
  | w :: ws => w ++ sep ++ text_join sep ws
  end.

(** [toLowerCase] of one unit.  Outside ASCII only the two letters whose lower
    case contains an ASCII letter are mapped, the Kelvin sign and the dotted
    capital I: the results are only ever searched for ASCII text. *)
Definition lower_unit (c : N) : text :=
  if ((65 <=? c) && (c <=? 90))%N then [c + 32]%N
  else if (c =? 8490)%N then [107]%N
  else if (c =? 304)%N then [105; 775]%N
  else [c].
Definition to_lower (s : text) : text := mjoin (map lower_unit s).

(** * Character classes *)

Definition in_range (lo hi c : N) : bool := ((lo <=? c) && (c <=? hi))%N.
Definition one_of (s : string) (c : N) : bool := existsb (N.eqb c) (u s).
Definition none_of (s : string) (c : N) : bool := negb (one_of s c).

Definition digit : N -> bool := in_range 48 57.
Definition upper : N -> bool := in_range 65 90.
Definition lower : N -> bool := in_range 97 122.
Definition alpha (c : N) : bool := upper c || lower c.
Definition alnum (c : N) : bool := alpha c || digit c.
Definition also (p : N -> bool) (s : string) (c : N) : bool := p c || one_of s c.

(** [\w] and [\s]. *)
Definition word (c : N) : bool := alnum c || (c =? 95)%N.
Definition space (c : N) : bool :=
  in_range 9 13 c || in_range 8192 8202 c
  || existsb (N.eqb c) [32; 160; 5760; 8232; 8233; 8239; 8287; 12288; 65279]%N.

(** The flag [i]: units are compared by their upper case, and no unit outside
    ASCII has one inside. *)
Definition fold_case (c : N) : N := if lower c then (c - 32)%N else c.

(** * Lemmas *)

Lemma starts_with_true t s : starts_with t s = true <-> exists s', s = t ++ s'.
Proof.
  revert s. induction t as [|c t IH]; intros s; simpl; [naive_solver|].
  destruct s as [|d s]; [split; [done|intros (? & [=])]|].
  rewrite andb_true_iff, N.eqb_eq, IH. split.
  - intros [-> (s' & ->)]. by exists s'.
  - intros (s' & [= -> ->]). eauto.
Qed.

Lemma includes_true t s : includes t s = true <-> exists a b, s = a ++ t ++ b.
Proof.
  induction s as [|d s IH]; cbn [includes]; rewrite orb_true_iff, starts_with_true.
  - split; [intros [(b & ->)|[=]]; by exists [], b|]. intros (a & b & H). left. exists b.
    destruct a; [done|discriminate].
  - rewrite IH. split.
    + intros [(b & ->)|(a & b & ->)]; [by exists [], b|by exists (d :: a), b].
    + intros ([|c a] & b & H); simpl in H; [left; eauto|]. injection H as -> ->. right; eauto.
Qed.

Lemma slice_length a b s : (a <= b <= length s)%nat -> length (slice a b s) = (b - a)%nat.
Proof. intros H. unfold slice. rewrite length_take, length_drop. lia. Qed.
