(* ===== verification/Regex.v ===== *)
(** The regular expressions of JavaScript that the code uses: the backtracking
    matcher of the language standard (with greedy quantifiers, captures, word
    boundaries and one-unit lookarounds), the search of [exec] and the loop of
    [matchAll], proved against a declarative reading of the expressions. *)
From stdpp Require Import base list strings relations.
From Stdlib Require Import ZArith NArith Lia Ascii Sorting.Sorted.
From S2P Require Import Prelude Text.

(** * Expressions *)

Inductive regex :=
| REps
| RSet (p : N -> bool)
| RSeq (r s : regex)
| RAlt (r s : regex)
| RRep (lo : nat) (extra : option nat) (r : regex)   (* [{lo,lo+extra}], [{lo,}] *)
| RCap (i : nat) (r : regex)
| RBound
| RNotBehind (p : N -> bool)
| RNotAhead (r : regex).

Declare Scope regex_scope.
Delimit Scope regex_scope with re.
Bind Scope regex_scope with regex.
Infix "·" := RSeq (at level 45, right associativity) : regex_scope.
Infix "<|>" := RAlt (at level 50, left associativity) : regex_scope.

(** A literal, plain and under the flag [i]. *)
Definition lits (s : text) : regex := foldr (fun c => RSeq (RSet (N.eqb c))) REps s.
Definition lits_i (s : text) : regex :=
  foldr (fun c => RSeq (RSet (fun d => N.eqb (fold_case c) (fold_case d)))) REps s.
Definition lit (s : string) : regex := lits (u s).
Definition lit_i (s : string) : regex := lits_i (u s).
Definition ropt (r : regex) : regex := RRep 0 (Some 1) r.
Definition rstar (r : regex) : regex := RRep 0 None r.
Definition rplus (r : regex) : regex := RRep 1 None r.
Definition ralts (l : list regex) : regex :=
  match l with
  | [] => RSet (fun _ => false)
  | r :: l' => fold_left RAlt l' r
  end.

(** * The matcher *)

(** A position in the input: the units before it, last one first, the units
    after it, and the captures so far, latest first. *)
Record state := State { bef : text; aft : text; caps : list (nat * text) }.

Definition last_is (p : N -> bool) (b : text) : bool :=
  match b with c :: _ => p c | [] => false end.
Definition at_bound (x : state) : bool := negb (Bool.eqb (last_is word (bef x)) (last_is word (aft x))).

(** The units consumed from [x] to [y]. *)
Definition consumed (x y : state) : text := take (length (aft x) - length (aft y)) (aft x).

(** [RepeatMatcher] of the standard, greedy: an iteration beyond the minimum
    that consumes nothing fails.  One unit of fuel per iteration. *)
Fixpoint repeat_m {A : Type} (m : state -> (state -> option A) -> option A) (fuel lo : nat)
    (extra : option nat) (x : state) (k : state -> option A) {struct fuel} : option A :=
  match fuel with
  | O => None
  | S fuel' =>
      match lo, extra with
      | O, Some O => k x
      | O, _ =>
          match m x (fun y => if (length (aft y) =? length (aft x))%nat then None
                              else repeat_m m fuel' 0 (Init.Nat.pred <$> extra) y k) with
          | Some z => Some z
          | None => k x
          end
      | S lo', _ => m x (fun y => repeat_m m fuel' lo' extra y k)
      end
  end.

(** [x]'s continuation-passing matcher.  The fuel of a repetition is more than
    its mandatory iterations and the units left to consume. *)
Fixpoint rmatch {A : Type} (r : regex) (x : state) (k : state -> option A) {struct r} : option A :=
  match r with
  | REps => k x
  | RSet p =>
      match aft x with
      | c :: a => if p c then k (State (c :: bef x) a (caps x)) else None
      | [] => None
      end
  | RSeq r s => rmatch r x (fun y => rmatch s y k)
  | RAlt r s => match rmatch r x k with Some z => Some z | None => rmatch s x k end
  | RRep lo extra r => repeat_m (rmatch r) (S (lo + length (aft x))) lo extra x k
  | RCap i r => rmatch r x (fun y => k (State (bef y) (aft y) ((i, consumed x y) :: caps y)))
  | RBound => if at_bound x then k x else None
  | RNotBehind p => if last_is p (bef x) then None else k x
  | RNotAhead r =>
      match rmatch r x (fun _ => Some tt) with Some _ => None | None => k x end
  end.

(** * Searching *)

Record match_ := Match { m_index : nat; m_text : text; m_caps : list (nat * text) }.
Definition m_end (m : match_) : nat := m_index m + length (m_text m).

(** Group [i], [undefined] when it did not take part. *)
Definition group (i : nat) (m : match_) : option text :=
  snd <$> List.find (fun p => Nat.eqb p.1 i) (m_caps m).

(** [exec] from a position: the leftmost match. *)
Fixpoint search (r : regex) (b a : text) {struct a} : option (text * state) :=
  match rmatch r (State b a []) Some with
  | Some y => Some (a, y)
  | None => match a with [] => None | c :: a' => search r (c :: b) a' end
  end.

Definition match_of (a : text) (y : state) : match_ :=
  let t := take (length a - length (aft y)) a in
  Match (length (bef y) - length t) t (caps y).

(** [matchAll]: an empty match advances by one unit.  One match per position at
    most, so the length of the input is fuel enough. *)
Fixpoint match_all_go (fuel : nat) (r : regex) (b a : text) : list match_ :=
  match fuel with
  | O => []
  | S fuel' =>
      match search r b a with
      | None => []
      | Some (a0, y) =>
          match_of a0 y ::
          (if (length (aft y) <? length a0)%nat then match_all_go fuel' r (bef y) (aft y)
           else match aft y with
                | [] => []
                | c :: a' => match_all_go fuel' r (c :: bef y) a'
                end)
      end
  end.
Definition match_all (r : regex) (s : text) : list match_ := match_all_go (S (length s)) r [] s.

(** [regex.test(s)], without the flag [g]. *)
Definition test (r : regex) (s : text) : bool :=
  match search r [] s with Some _ => true | None => false end.

(** [s.replace(regex, f)] with the flag [g]. *)
Fixpoint replace_go (f : match_ -> text) (cursor : nat) (ms : list match_) (s : text) : text :=
  match ms with
  | [] => slice_from cursor s
  | m :: ms' => slice cursor (m_index m) s ++ f m ++ replace_go f (m_end m) ms' s
  end.
Definition replace_all (r : regex) (f : match_ -> text) (s : text) : text :=
  replace_go f 0 (match_all r s) s.

(** * The declarative reading *)

Definition pos := (text * text)%type.
Definition pos_of (x : state) : pos := (bef x, aft x).

Definition times_ok (lo : nat) (extra : option nat) (n : nat) : Prop :=
  lo <= n /\ match extra with Some e => n <= lo + e | None => True end.

(** [den r x y]: [r] matches the units between the positions [x] and [y]. *)
Fixpoint den (r : regex) (x y : pos) : Prop :=
  match r with
  | REps => x = y
  | RSet p => exists c b a, x = (b, c :: a) /\ y = (c :: b, a) /\ p c = true
  | RSeq r s => exists z, den r x z /\ den s z y
  | RAlt r s => den r x y \/ den s x y
  | RRep lo extra r => exists n, times_ok lo extra n /\ nsteps (den r) n x y
  | RCap _ r => den r x y
  | RBound => x = y /\ last_is word x.1 <> last_is word x.2
  | RNotBehind p => x = y /\ last_is p x.1 = false
  | RNotAhead r => x = y /\ ~ exists z, den r x z
  end.

(** The position of offset [i]. *)
Definition at_ (s : text) (i : nat) : pos := (rev (take i s), drop i s).

Definition occurs (r : regex) (s : text) (i j : nat) : Prop :=
  i <= j <= length s /\ den r (at_ s i) (at_ s j).

(** * Lemmas *)

(** A match only moves forward. *)
Definition forward (x y : pos) : Prop := exists w, x.2 = w ++ y.2 /\ y.1 = rev w ++ x.1.

Lemma forward_refl x : forward x x.
Proof. by exists []. Qed.

Lemma forward_trans x y z : forward x y -> forward y z -> forward x z.
Proof.
  intros (v & H1 & H2) (w & H3 & H4). exists (v ++ w).
  rewrite H1, H3, H4, H2, rev_app_distr, !(assoc_L (++)). done.
Qed.

Lemma forward_eq x y : forward x y -> length x.2 <= length y.2 -> x = y.
Proof.
  intros (w & H1 & H2) H. destruct x as [b a], y as [b' a']. simpl in *. subst.
  rewrite length_app in H. by destruct w; [|simpl in H; lia].
Qed.

Lemma nsteps_forward R n x y :
  (forall x y, R x y -> forward x y) -> nsteps R n x y -> forward x y.
Proof. intros HR H. induction H; eauto using forward_refl, forward_trans. Qed.

Lemma den_forward r x y : den r x y -> forward x y.
Proof.
  revert x y. induction r as [|p|r IHr s IHs|r IHr s IHs|lo extra r IH|i r IH| |p|r IH];
    cbn [den]; intros x y H.
  - subst. apply forward_refl.
  - destruct H as (c & b & a & -> & -> & _). by exists [c].
  - destruct H as (z & H1 & H2). eauto using forward_trans.
  - destruct H; auto.
  - destruct H as (n & _ & H). by eapply nsteps_forward.
  - auto.
  - destruct H as [-> _]. apply forward_refl.
  - destruct H as [-> _]. apply forward_refl.
  - destruct H as [-> _]. apply forward_refl.
Qed.

(** Expressions without a capture leave the captures alone. *)
Fixpoint no_caps (r : regex) : bool :=
  match r with
  | RSeq r s | RAlt r s => no_caps r && no_caps s
  | RRep _ _ r => no_caps r
  | RCap _ _ => false
  | _ => true
  end.

(** The matcher finds only what the expression denotes ... *)
Definition sound (r : regex) : Prop :=
  forall (A : Type) (x : state) (k : state -> option A) z,
    rmatch r x k = Some z ->
    exists y, den r (pos_of x) (pos_of y) /\ (no_caps r = true -> caps y = caps x) /\ k y = Some z.

(** ... and fails only if every way to match makes the continuation fail. *)
Definition complete (r : regex) : Prop :=
  forall (A : Type) (x : state) (k : state -> option A) q,
    den r (pos_of x) q -> (forall y, pos_of y = q -> k y <> None) -> rmatch r x k <> None.

Lemma repeat_sound r (A : Type) fuel lo extra (x : state) (k : state -> option A) z :
  sound r -> repeat_m (rmatch r) fuel lo extra x k = Some z ->
  exists n y, times_ok lo extra n /\ nsteps (den r) n (pos_of x) (pos_of y) /\
    (no_caps r = true -> caps y = caps x) /\ k y = Some z.
Proof.
  intros Hs. revert lo extra x. induction fuel as [|fuel IH]; intros lo extra x; [done|].
  cbn [repeat_m]. destruct lo as [|lo].
  - assert (Hk : k x = Some z -> exists n y, times_ok 0 extra n /\
      nsteps (den r) n (pos_of x) (pos_of y) /\ (no_caps r = true -> caps y = caps x) /\
      k y = Some z).
    { intros H. exists 0, x. split_and!; [split; [lia|by destruct extra; lia]|constructor|done|done]. }
    destruct extra as [[|e]|]; [done|..];
      (destruct (rmatch r x _) as [z'|] eqn:E; [|done]; intros [= ->];
       apply Hs in E as (y & Hy & Hc & E); destruct (_ =? _)%nat; [done|];
       apply IH in E as (n & q & [H1 H2] & ? & Hc' & ?); exists (S n), q;
       split_and!; [split; [lia|simpl in *; try lia; done]|by econstructor
         |intros; rewrite Hc' by done; auto|done]).
  - intros H. apply Hs in H as (y & Hy & Hc & H). apply IH in H as (n & q & [H1 H2] & ? & Hc' & ?).
    exists (S n), q. split_and!; [split; [lia|destruct extra; [lia|done]]|by econstructor
      |intros; rewrite Hc' by done; auto|done].
Qed.

Lemma pos_len (x y : state) : forward (pos_of x) (pos_of y) -> length (aft y) <= length (aft x).
Proof. intros (w & H & _). simpl in H. rewrite H, length_app. lia. Qed.

Lemma repeat_complete r (A : Type) fuel n lo extra (x : state) (k : state -> option A) q :
  complete r -> lo + length (aft x) < fuel -> times_ok lo extra n ->
  nsteps (den r) n (pos_of x) q -> (forall y, pos_of y = q -> k y <> None) ->
  repeat_m (rmatch r) fuel lo extra x k <> None.
Proof.
  intros Hc. revert n lo extra x.
  induction fuel as [|fuel IH]; intros n lo extra x Hf Ht Hn Hk; [lia|].
  revert lo extra x Hf Ht Hn.
  induction n as [|n IHn]; intros lo extra x Hf [Hlo Hhi] Hn; cbn [repeat_m].
  { inversion Hn; subst. assert (lo = 0) as -> by lia. assert (Hx : k x <> None) by (by apply Hk).
    destruct extra as [[|e]|]; [done|..]; by destruct (rmatch _ _ _). }
  inversion Hn as [|? ? z ? Hz Hrest]; subst.
  pose proof (den_forward _ _ _ Hz) as Hfw.
  destruct lo as [|lo].
  - assert (Hn0 : extra <> Some 0) by (destruct extra; [intros [= ->]; lia|done]).
    destruct (decide (z = pos_of x)) as [->|Hprog].
    { apply (IHn 0 extra); [done| |done]. split; [lia|]. destruct extra; [lia|done]. }
    assert (Hm : rmatch r x (fun y => if (length (aft y) =? length (aft x))%nat then None
        else repeat_m (rmatch r) fuel 0 (Init.Nat.pred <$> extra) y k) <> None).
    { eapply Hc; [exact Hz|]. intros y Hy.
      assert (Hlen : length (aft y) <= length (aft x)) by (apply pos_len; by rewrite Hy).
      destruct (Nat.eqb_spec (length (aft y)) (length (aft x))) as [El|El].
      - exfalso. apply Hprog. symmetry. apply forward_eq; [done|]. rewrite <- Hy. simpl. lia.
      - rewrite <- Hy in Hrest. apply (IH n); [lia| |done|done].
        split; [lia|]. destruct extra; simpl; [lia|done]. }
    destruct extra as [[|e]|]; [done|..]; by destruct (rmatch r x _).
  - eapply Hc; [exact Hz|]. intros y Hy. rewrite <- Hy in Hrest.
    assert (length (aft y) <= length (aft x)) by (apply pos_len; by rewrite Hy).
    apply (IH n); [lia| |done|done]. split; [lia|]. destruct extra; [lia|done].
Qed.

Lemma sound_complete r : sound r /\ complete r.
Proof.
  induction r as [|p|r [IHr IHr'] s [IHs IHs']|r [IHr IHr'] s [IHs IHs']|lo extra r [IH IH']
    |i r [IH IH']| |p|r [IH IH']]; (split; [intros A x k z H|intros A x k q Hq Hk]);
    cbn [rmatch den] in *.
  - by exists x.
  - by apply Hk.
  - destruct x as [b [|c a] cs]; simpl in H; [done|]. destruct (p c) eqn:E; [|done].
    eexists; split; [|split; [|exact H]]; [by exists c, b, a|done].
  - destruct Hq as (c & b & a & Hx & -> & Hp). destruct x as [b0 a0 cs]. injection Hx as -> ->.
    simpl. rewrite Hp. by apply Hk.
  - apply IHr in H as (y & Hy & Hc & H). apply IHs in H as (y' & Hy' & Hc' & H). exists y'.
    split_and!; [eauto|intros [? ?]%andb_true_iff; rewrite Hc' by done; auto|done].
  - destruct Hq as (z & H1 & H2). eapply IHr'; [exact H1|]. intros y <-. by eapply IHs'.
  - destruct (rmatch r x k) eqn:E.
    + injection H as ->. apply IHr in E as (y & ? & Hc & ?). exists y.
      split_and!; [eauto|intros [? ?]%andb_true_iff; auto|done].
    + apply IHs in H as (y & ? & Hc & ?). exists y.
      split_and!; [eauto|intros [? ?]%andb_true_iff; auto|done].
  - destruct (rmatch r x k) eqn:E; [done|]. destruct Hq as [Hq|Hq]; [|by eapply IHs'].
    by destruct (IHr' A x k q Hq Hk).
  - apply repeat_sound in H as (n & y & ? & ? & ? & ?); [|done]. exists y.
    split; [by exists n|by split].
  - destruct Hq as (n & H1 & H2). eapply repeat_complete; [done|lia|exact H1|exact H2|done].
  - apply IH in H as (y & Hy & _ & H). eexists (State _ _ _). by split_and!; [exact Hy| |exact H].
  - eapply IH'; [exact Hq|]. intros y Hy. by apply Hk.
  - destruct (at_bound x) eqn:E; [|done]. exists x. split; [|by split]. split; [done|].
    unfold at_bound in E. simpl. by destruct (last_is word (bef x)), (last_is word (aft x)).
  - destruct Hq as [<- Hb]. simpl in Hb.
    assert (at_bound x = true) as ->
      by (unfold at_bound; by destruct (last_is word (bef x)), (last_is word (aft x))).
    by apply Hk.
  - destruct (last_is p (bef x)) eqn:E; [done|]. by exists x.
  - destruct Hq as [<- Hb]. simpl in Hb. rewrite Hb. by apply Hk.
  - destruct (rmatch r x _) eqn:E; [done|]. exists x. split; [|by split]. split; [done|].
    intros [q Hq]. by apply (IH' unit x (fun _ => Some tt) q Hq).
  - destruct Hq as [<- Hno]. destruct (rmatch r x _) eqn:E; [|by apply Hk].
    apply IH in E as (y & Hy & _ & _). destruct Hno. eauto.
Qed.

(** A way to match from a position of [s] ends at a position of [s]. *)
Lemma forward_at s i q :
  i <= length s -> forward (at_ s i) q -> exists j, i <= j <= length s /\ q = at_ s j.
Proof.
  intros Hi (w & H1 & H2). destruct q as [b a]. simpl in *.
  exists (i + length w). assert (Hl : length (drop i s) = length w + length a) by
    (by rewrite H1, length_app).
  rewrite length_drop in Hl. split; [lia|]. unfold at_. f_equal.
  - subst b. rewrite <- rev_app_distr. f_equal.
    rewrite <- (take_drop i s) at 2. rewrite take_app_add' by (rewrite length_take; lia).
    by rewrite H1, take_app_length.
  - rewrite <- drop_drop, H1, drop_app_length. done.
Qed.

Lemma den_at r s i q :
  i <= length s -> den r (at_ s i) q -> exists j, i <= j <= length s /\ q = at_ s j.
Proof. intros Hi H. eapply forward_at; [done|]. by eapply den_forward. Qed.

Lemma at_length s i : i <= length s -> length (at_ s i).1 = i /\ length (at_ s i).2 = length s - i.
Proof. intros H. unfold at_. simpl. rewrite length_rev, length_take, length_drop. lia. Qed.

Lemma at_inj s i j : i <= length s -> j <= length s -> at_ s i = at_ s j -> i = j.
Proof. intros Hi Hj H. apply at_length in Hi as [Hi _], Hj as [Hj _]. congruence. Qed.

(** The search finds the leftmost position from which the expression matches. *)
Lemma search_spec r s i :
  i <= length s ->
  match search r (rev (take i s)) (drop i s) with
  | Some (a0, y) => exists p e, i <= p <= e /\ e <= length s /\ a0 = drop p s /\
      pos_of y = at_ s e /\ den r (at_ s p) (at_ s e) /\
      forall p', i <= p' < p -> ~ exists q, den r (at_ s p') q
  | None => forall p', i <= p' <= length s -> ~ exists q, den r (at_ s p') q
  end.
Proof.
  remember (length s - i) as d eqn:Hd. revert i Hd. induction d as [|d IH]; intros i Hd Hi.
  all: assert (Hm : forall z, rmatch r (State (rev (take i s)) (drop i s) []) Some = Some z ->
    exists e, i <= e <= length s /\ pos_of z = at_ s e /\ den r (at_ s i) (at_ s e)) by
    (intros z Hz; apply sound_complete in Hz as (y & Hy & _ & [= ->]);
     pose proof (den_at r s i _ Hi Hy) as (e & He & E); exists e; rewrite <- E; done).
  all: assert (Hn : rmatch r (State (rev (take i s)) (drop i s) []) Some = None ->
    ~ exists q, den r (at_ s i) q) by
    (intros E [q Hq]; by apply (proj2 (sound_complete r) state
       (State (rev (take i s)) (drop i s) []) Some q Hq)).
  - rewrite drop_ge in * by lia. cbn [search].
    destruct (rmatch r _ Some) as [z|] eqn:E.
    + destruct (Hm z eq_refl) as (e & He & Hz & Hden). exists i, e.
      split_and!; [lia..|by rewrite drop_ge by lia|done|done|lia].
    + intros p' Hp'. replace p' with i by lia. by apply Hn.
  - destruct (drop i s) as [|c a] eqn:Ha.
    { apply (f_equal length) in Ha. rewrite length_drop in Ha. simpl in Ha. lia. }
    cbn [search]. destruct (rmatch r _ Some) as [z|] eqn:E.
    + destruct (Hm z eq_refl) as (e & He & Hz & Hden). exists i, e.
      split_and!; [lia..|done|done|done|lia].
    + assert (Hc : s !! i = Some c).
      { rewrite <- (take_drop i s), Ha. rewrite lookup_app_r by (rewrite length_take; lia).
        rewrite length_take. by replace (i - i `min` length s) with 0 by lia. }
      assert (Ht : c :: rev (take i s) = rev (take (S i) s)).
      { by rewrite (take_S_r _ _ _ Hc), rev_app_distr. }
      assert (Hdr : a = drop (S i) s).
      { rewrite (drop_S s c i Hc) in Ha. by injection Ha. }
      rewrite Ht, Hdr. specialize (IH (S i) ltac:(lia) ltac:(lia)).
      destruct (search r _ _) as [[a0 y]|].
      * destruct IH as (p & e & H1 & H2 & H3 & H4 & H5 & H6). exists p, e.
        split_and!; [lia..|done|done|done|]. intros p' Hp'.
        destruct (Nat.eq_dec p' i) as [->|]; [by apply Hn|apply H6; lia].
      * intros p' Hp'. destruct (Nat.eq_dec p' i) as [->|]; [by apply Hn|apply IH; lia].
Qed.

(** What the loop of [matchAll] yields from offset [i]: matches, one after the
    other, one at or across the start of every occurrence. *)
Definition before (m m' : match_) : Prop := m_end m <= m_index m' /\ m_index m < m_index m'.

Definition is_match (r : regex) (s : text) (m : match_) : Prop :=
  occurs r s (m_index m) (m_end m) /\ m_text m = slice (m_index m) (m_end m) s.

Definition covers (m : match_) (p : nat) : Prop :=
  m_index m <= p /\ (p < m_end m \/ p = m_index m).

Record matches_from (r : regex) (s : text) (i : nat) (ms : list match_) : Prop := {
  mf_match : forall m, m ∈ ms -> i <= m_index m /\ is_match r s m;
  mf_sorted : StronglySorted before ms;
  mf_all : forall p e, i <= p -> occurs r s p e -> exists m, m ∈ ms /\ covers m p;
}.

Lemma match_of_spec r s p e y :
  p <= e <= length s -> pos_of y = at_ s e -> den r (at_ s p) (at_ s e) ->
  let m := match_of (drop p s) y in
  m_index m = p /\ m_end m = e /\ is_match r s m.
Proof.
  intros Hpe Hy Hden. destruct (at_length s e) as [H1 H2]; [lia|]. rewrite <- Hy in H1, H2.
  simpl in H1, H2. unfold match_of. simpl.
  assert (Hl : length (take (length (drop p s) - length (aft y)) (drop p s)) = e - p).
  { rewrite length_take, length_drop, H2. lia. }
  assert (Hi : length (bef y) - length (take (length (drop p s) - length (aft y)) (drop p s)) = p)
    by (rewrite Hl, H1; lia).
  unfold is_match, m_end. simpl. rewrite Hi, Hl. replace (p + (e - p)) with e by lia.
  split; [done|]. split; [done|]. split; [split; [lia|done]|].
  unfold slice. f_equal. rewrite length_drop, H2. lia.
Qed.

Lemma no_occurrence r s i :
  (forall p, i <= p <= length s -> ~ exists q, den r (at_ s p) q) ->
  forall p e, i <= p -> ~ occurs r s p e.
Proof. intros H p e Hp [Hb Hd]. apply (H p); [lia|eauto]. Qed.

(** One match [m] and what follows it from [j]. *)
Lemma matches_cons r s i j m ms :
  i <= m_index m -> is_match r s m -> m_end m <= j -> m_index m < j ->
  (forall p, m_index m <= p < j -> covers m p) ->
  (forall p, i <= p < m_index m -> ~ exists q, den r (at_ s p) q) ->
  matches_from r s j ms -> matches_from r s i (m :: ms).
Proof.
  intros Hi Hm He Hj Hcov Hno [H1 H2 H3]. split.
  - intros m' [->|Hm']%elem_of_cons; [done|]. destruct (H1 _ Hm'). split; [lia|done].
  - constructor; [done|]. apply Forall_forall. intros m' Hm'. destruct (H1 _ Hm').
    split; lia.
  - intros p e Hp Ho. destruct (decide (p < m_index m)) as [Hlt|Hge].
    { exfalso. apply (Hno p); [lia|]. destruct Ho. eauto. }
    destruct (decide (p < j)) as [Hlt|Hge'].
    + exists m. split; [by apply elem_of_cons; left|]. apply Hcov. lia.
    + destruct (H3 p e) as (m' & Hm' & Hc); [lia|done|]. exists m'.
      split; [by apply elem_of_cons; right|done].
Qed.

Lemma match_all_go_spec r s fuel i :
  i <= length s -> length s - i < fuel ->
  matches_from r s i (match_all_go fuel r (rev (take i s)) (drop i s)).
Proof.
  revert i. induction fuel as [|fuel IH]; intros i Hi Hf; [lia|]. cbn [match_all_go].
  pose proof (search_spec r s i Hi) as Hs.
  destruct (search r _ _) as [[a0 y]|].
  2:{ split; [by intros m ?%elem_of_nil|constructor|].
      intros p e Hp Ho. by destruct (no_occurrence r s i Hs p e Hp). }
  destruct Hs as (p & e & Hp & He & -> & Hy & Hd & Hno).
  destruct (match_of_spec r s p e y) as (Hmi & Hme & Hmm); [lia|done|done|].
  destruct (at_length s e He) as [_ Hl]. rewrite <- Hy in Hl. simpl in Hl.
  assert (Hb : bef y = rev (take e s)) by (by apply (f_equal fst) in Hy).
  assert (Ha : aft y = drop e s) by (by apply (f_equal snd) in Hy).
  destruct (Nat.ltb_spec (length (aft y)) (length (drop p s))) as [Hlt|Hge];
    rewrite length_drop in *.
  - rewrite Hb, Ha. eapply (matches_cons _ _ _ e); rewrite ?Hmi, ?Hme; [lia|done|lia|lia| |done|].
    + intros p' Hp'. split; rewrite ?Hmi, ?Hme; [lia|left; lia].
    + apply IH; lia.
  - assert (e = p) as -> by lia. rewrite Ha. destruct (drop p s) as [|c a] eqn:Ed.
    + assert (length s <= p) by (apply (f_equal length) in Ed; rewrite length_drop in Ed; simpl in Ed; lia).
      eapply (matches_cons _ _ _ (S p)); rewrite ?Hmi, ?Hme; [lia|done|lia|lia| |done|].
      * intros p' Hp'. split; rewrite ?Hmi, ?Hme; [lia|right; lia].
      * split; [by intros m ?%elem_of_nil|constructor|]. intros p' e' Hp' [Hb' _]. lia.
    + assert (Hc : s !! p = Some c).
      { rewrite <- (take_drop p s), Ed, lookup_app_r by (rewrite length_take; lia).
        rewrite length_take. by replace (p - p `min` length s) with 0 by lia. }
      assert (Ea : a = drop (S p) s) by (rewrite (drop_S s c p Hc) in Ed; by injection Ed).
      assert (Hlen : p < length s) by (apply lookup_lt_Some in Hc; lia).
      subst a. rewrite Hb. replace (c :: rev (take p s)) with (rev (take (S p) s)) by
        (by rewrite (take_S_r _ _ _ Hc), rev_app_distr).
      eapply (matches_cons _ _ _ (S p)); rewrite ?Hmi, ?Hme; [lia|done|lia|lia| |done|].
      * intros p' Hp'. split; rewrite ?Hmi, ?Hme; [lia|right; lia].
      * apply IH; lia.
Qed.

Lemma match_all_from r s : matches_from r s 0 (match_all r s).
Proof.
  pose proof (match_all_go_spec r s (S (length s)) 0 ltac:(lia) ltac:(lia)) as H.
  by rewrite take_0, drop_0 in H.
Qed.

Lemma test_true r s : test r s = true <-> exists i j, occurs r s i j.
Proof.
  unfold test. pose proof (search_spec r s 0 ltac:(lia)) as H. rewrite take_0, drop_0 in H.
  change (rev []) with (@nil N) in H. destruct (search r [] s) as [[a0 y]|].
  - destruct H as (p & e & ? & ? & _ & _ & Hd & _). split; [|done]. intros _. exists p, e.
    split; [lia|done].
  - split; [done|]. intros (i & j & Ho). by destruct (no_occurrence r s 0 H i j ltac:(lia)).
Qed.

(** * Replacing spans *)

(** [weave [p0; ...; pn] [r1; ...; rn]] is [p0 r1 p1 ... rn pn]. *)
Fixpoint weave (ps rs : list text) : text :=
  match ps, rs with
  | [], _ => []
  | p :: _, [] => p
  | p :: ps', r :: rs' => p ++ r ++ weave ps' rs'
  end.

(** The parts of [s] from [cursor] on that lie between the spans. *)
Fixpoint gaps (cursor : nat) (spans : list (nat * nat)) (s : text) : list text :=
  match spans with
  | [] => [slice_from cursor s]
  | (a, b) :: spans' => slice cursor a s :: gaps b spans' s
  end.

(** Spans of [s] after [cursor], in order and disjoint. *)
Fixpoint in_order (cursor : nat) (spans : list (nat * nat)) (n : nat) : Prop :=
  match spans with
  | [] => cursor <= n
  | (a, b) :: spans' => cursor <= a /\ a <= b /\ in_order b spans' n
  end.

Lemma in_order_le c spans n : in_order c spans n -> c <= n.
Proof.
  revert c. induction spans as [|[a b] spans IH]; intros c; simpl; [done|].
  intros (? & ? & H%IH). lia.
Qed.

Lemma slice_app_drop a b s : a <= b -> slice a b s ++ drop b s = drop a s.
Proof.
  intros H. unfold slice. rewrite <- (take_drop (b - a) (drop a s)) at 2. f_equal.
  rewrite drop_drop. f_equal. lia.
Qed.

(** Putting the spans themselves back gives the text. *)
Lemma weave_gaps c spans s :
  in_order c spans (length s) ->
  weave (gaps c spans s) (map (fun p => slice p.1 p.2 s) spans) = drop c s.
Proof.
  revert c. induction spans as [|[a b] spans IH]; intros c; simpl; [done|].
  intros (H1 & H2 & H3). rewrite (IH b H3), !slice_app_drop by done. done.
Qed.

(** The spans of ordered matches are in order. *)
Definition span_of (m : match_) : nat * nat := (m_index m, m_end m).

Lemma sorted_in_order ms n c :
  StronglySorted before ms -> (forall m, m ∈ ms -> c <= m_index m /\ m_end m <= n) -> c <= n ->
  in_order c (map span_of ms) n.
Proof.
  intros Hs. revert c. induction Hs as [|m ms Hs IH Hall]; intros c Hm Hc; simpl; [done|].
  destruct (Hm m) as [H1 H2]; [by left|]. split_and!; [done|unfold m_end; lia|].
  apply IH; [|done]. rewrite Forall_forall in Hall. intros m' Hm'. split; [by apply Hall|].
  apply Hm. by right.
Qed.

Lemma match_all_in_order r s : in_order 0 (map span_of (match_all r s)) (length s).
Proof.
  destruct (match_all_from r s) as [H1 H2 _]. apply sorted_in_order; [done| |lia].
  intros m Hm. destruct (H1 m Hm) as [? [[? _] _]]. split; [done|]. tauto.
Qed.

(** [replace] with a function keeps what lies between the matches. *)
Lemma replace_all_weave r f s :
  replace_all r f s = weave (gaps 0 (map span_of (match_all r s)) s) (map f (match_all r s)) /\
  s = weave (gaps 0 (map span_of (match_all r s)) s) (map m_text (match_all r s)).
Proof.
  split.
  - unfold replace_all. generalize 0, (match_all r s). intros c ms. revert c.
    induction ms as [|m ms IH]; intros c; simpl; [done|]. by rewrite IH.
  - pose proof (weave_gaps 0 _ s (match_all_in_order r s)) as H. rewrite drop_0 in H.
    rewrite <- H at 1. f_equal. rewrite map_map. apply map_ext_in. intros m Hm.
    destruct (match_all_from r s) as [H1 _ _]. destruct (H1 m) as [_ [_ ->]]; [|done].
    by apply list_elem_of_In.
Qed.

(** * Matches that consume *)

(** A lower bound on what a match consumes. *)
Fixpoint min_len (r : regex) : nat :=
  match r with
  | RSet _ => 1
  | RSeq r s => min_len r + min_len s
  | RAlt r s => Nat.min (min_len r) (min_len s)
  | RRep lo _ r => lo * min_len r
  | RCap _ r => min_len r
  | _ => 0
  end.

Lemma den_min_len r x y : den r x y -> length y.2 + min_len r <= length x.2.
Proof.
  revert x y. induction r as [|p|r IHr s IHs|r IHr s IHs|lo extra r IH|i r IH| |p|r IH];
    cbn [den min_len]; intros x y H.
  - subst. lia.
  - destruct H as (c & b & a & -> & -> & _). simpl. lia.
  - destruct H as (z & H1%IHr & H2%IHs). lia.
  - destruct H as [H%IHr|H%IHs]; lia.
  - destruct H as (n & [Hlo _] & H).
    enough (length y.2 + n * min_len r <= length x.2) by nia. clear Hlo.
    induction H as [|n x z y Hz%IH _ IHn]; lia.
  - by apply IH.
  - destruct H as [-> _]. lia.
  - destruct H as [-> _]. lia.
  - destruct H as [-> _]. lia.
Qed.

Lemma occurs_min_len r s i j : occurs r s i j -> i + min_len r <= j.
Proof.
  intros [Hb H%den_min_len]. destruct (at_length s i) as [_ Hi]; [lia|].
  destruct (at_length s j) as [_ Hj]; lia.
Qed.

(** Spans that are sorted by their start, not empty and disjoint are in order. *)
Definition disjoint_spans (l : list (nat * nat)) : Prop :=
  NoDup l /\ forall a b, a ∈ l -> b ∈ l -> a <> b -> a.2 <= b.1 \/ b.2 <= a.1.

Lemma disjoint_in_order l c n :
  StronglySorted (fun a b => a.1 <= b.1) l -> disjoint_spans l ->
  (forall a, a ∈ l -> c <= a.1 < a.2 /\ a.2 <= n) -> c <= n -> in_order c l n.
Proof.
  intros Hs. revert c. induction Hs as [|[a b] l Hs IH Hall]; intros c [Hnd Hd] Hb Hc; simpl; [done|].
  inversion Hnd as [|? ? Hnin Hnd']; subst. rewrite Forall_forall in Hall.
  destruct (Hb (a, b)) as [H1 H2]; [by left|]. simpl in *. split; [lia|]. split; [lia|].
  apply IH; [| |lia].
  - split; [done|]. intros x y Hx Hy. apply Hd; by right.
  - intros x Hx. destruct (Hb x) as [H3 H4]; [by right|]. split; [|done]. split; [|lia].
    pose proof (Hall x Hx). assert (x <> (a, b)) as Hne by (by intros ->).
    destruct (Hd (a, b) x) as [?|?]; [by left|by right|done|done|]. simpl in *. lia.
Qed.

Lemma slice_nil a b s : b <= a -> slice a b s = [].
Proof. intros H. unfold slice. by replace (b - a) with 0 by lia. Qed.

(** * Groups *)

(** One group in the expression: what the search says about it. *)

Lemma search_group_at i p b c s k a0 y :
  no_caps p = true -> no_caps b = true -> no_caps c = true -> k <= length s ->
  search (p · RCap i b · c)%re (rev (take k s)) (drop k s) = Some (a0, y) ->
  exists f g h e, k <= f <= g /\ g <= h <= e /\ e <= length s /\ a0 = drop f s /\ pos_of y = at_ s e /\
    caps y = [(i, slice g h s)] /\
    den p (at_ s f) (at_ s g) /\ den b (at_ s g) (at_ s h) /\ den c (at_ s h) (at_ s e).
Proof.
  intros Hp Hb Hc Hk. remember (length s - k) as d eqn:Hd. revert k Hk Hd.
  induction d as [|d IH]; intros k Hk Hd.
  all: assert (Hm : forall z, rmatch (p · RCap i b · c)%re (State (rev (take k s)) (drop k s) []) Some
      = Some z -> exists f g h e, k <= f <= g /\ g <= h <= e /\ e <= length s /\ drop k s = drop f s /\
        pos_of z = at_ s e /\ caps z = [(i, slice g h s)] /\
        den p (at_ s f) (at_ s g) /\ den b (at_ s g) (at_ s h) /\ den c (at_ s h) (at_ s e)).
  all: try (intros z Hz; cbn [rmatch] in Hz;
    apply sound_complete in Hz as (x1 & H1 & C1 & Hz); cbn [rmatch] in Hz;
    apply sound_complete in Hz as (x2 & H2 & C2 & Hz); cbn [rmatch] in Hz;
    apply sound_complete in Hz as (x3 & H3 & C3 & [= ->]);
    specialize (C1 Hp); specialize (C2 Hb); specialize (C3 Hc); cbn [caps] in *;
    destruct (den_at p s k (pos_of x1) Hk H1) as (g & Hg & E1);
    rewrite E1 in H2; destruct (den_at b s g (pos_of x2) ltac:(lia) H2) as (h & Hh & E2);
    assert (E2' : pos_of (State (bef x2) (aft x2) ((i, consumed x1 x2) :: caps x2)) = at_ s h)
      by (by rewrite <- E2);
    rewrite E2' in H3; destruct (den_at c s h (pos_of z) ltac:(lia) H3) as (e & He & E3);
    exists k, g, h, e; rewrite E1 in H1; rewrite E2 in H2; rewrite E3 in H3;
    split_and!; [lia..|done|done| |done|done|done];
    rewrite C3, C2, C1; do 2 f_equal; unfold consumed, slice;
    apply (f_equal snd) in E1; apply (f_equal snd) in E2; simpl in E1, E2;
    rewrite E1, E2, !length_drop; f_equal; lia).
  - rewrite drop_ge in * by lia. cbn [search]. destruct (rmatch _ _ Some) as [z|] eqn:E; [|done].
    intros [= <- <-]. destruct (Hm z eq_refl) as (f & g & h & e & H). exists f, g, h, e. naive_solver.
  - destruct (drop k s) as [|u0 a] eqn:Ha.
    { apply (f_equal length) in Ha. rewrite length_drop in Ha. simpl in Ha. lia. }
    cbn [search]. destruct (rmatch _ _ Some) as [z|] eqn:E.
    + intros [= <- <-]. destruct (Hm z eq_refl) as (f & g & h & e & H). exists f, g, h, e. naive_solver.
    + assert (Hlen : k < length s) by lia.
      destruct (lookup_lt_is_Some_2 s k Hlen) as [c0 Hc0].
      rewrite (drop_S s c0 k Hc0) in Ha. injection Ha as <- <-.
      replace (c0 :: rev (take k s)) with (rev (take (S k) s)) by
        (by rewrite (take_S_r _ _ _ Hc0), rev_app_distr).
      intros Hs. destruct (IH (S k) ltac:(lia) ltac:(lia) Hs) as (f & g & h & e & ? & H).
      exists f, g, h, e. split; [lia|done].
Qed.

(** Where group [i] of a match lies. *)
Definition group_lies (i : nat) (p b c : regex) (s : text) (m : match_) : Prop :=
  exists g h, m_index m <= g <= h /\ h <= m_end m <= length s /\ group i m = Some (slice g h s) /\
    den p (at_ s (m_index m)) (at_ s g) /\ den b (at_ s g) (at_ s h) /\
    den c (at_ s h) (at_ s (m_end m)).

Lemma match_all_group_at i p b c s m :
  no_caps p = true -> no_caps b = true -> no_caps c = true ->
  m ∈ match_all (p · RCap i b · c)%re s -> group_lies i p b c s m.
Proof.
  intros Hp Hb Hc. unfold match_all.
  assert (H : forall fuel k, k <= length s ->
    m ∈ match_all_go fuel (p · RCap i b · c)%re (rev (take k s)) (drop k s) -> group_lies i p b c s m).
  { induction fuel as [|fuel IH]; intros k Hk; cbn [match_all_go]; [by intros ?%elem_of_nil|].
    destruct (search _ _ _) as [[a0 y]|] eqn:E; [|by intros ?%elem_of_nil].
    apply search_group_at in E as (f & g & h & e & H1 & H2 & H3 & -> & Hy & Hcaps & Hd1 & Hd2 & Hd3);
      [|done..].
    assert (Hden : den (p · RCap i b · c)%re (at_ s f) (at_ s e)) by (cbn [den]; eauto 10).
    destruct (match_of_spec (p · RCap i b · c)%re s f e y) as (Hmi & Hme & _); [lia|done|done|].
    assert (Hb' : bef y = rev (take e s)) by (by apply (f_equal fst) in Hy).
    assert (Ha' : aft y = drop e s) by (by apply (f_equal snd) in Hy).
    intros [->|Hin]%elem_of_cons.
    - exists g, h. rewrite Hmi, Hme. split_and!; [lia..| |done|done|done].
      unfold group, match_of. simpl. by rewrite Hcaps; simpl; rewrite Nat.eqb_refl.
    - rewrite Ha', Hb' in Hin. destruct (_ <? _)%nat; [by eapply (IH e)|].
      destruct (drop e s) as [|u0 a] eqn:Ed; [by apply elem_of_nil in Hin|].
      assert (e < length s).
      { apply (f_equal length) in Ed. rewrite length_drop in Ed. simpl in Ed. lia. }
      destruct (lookup_lt_is_Some_2 s e) as [c0 Hc0]; [done|].
      rewrite (drop_S s c0 e Hc0) in Ed. injection Ed as <- <-.
      replace (c0 :: rev (take e s)) with (rev (take (S e) s)) in Hin by
        (by rewrite (take_S_r _ _ _ Hc0), rev_app_distr).
      eapply (IH (S e)); [lia|done]. }
  intros Hin. apply (H (S (length s)) 0); [lia|]. by rewrite take_0, drop_0.
Qed.

(** When the whole expression is [\b(r)\b], group 1 is the whole match. *)
Lemma match_all_group r s m :
  no_caps r = true -> m ∈ match_all (RBound · RCap 1 r · RBound)%re s ->
  group 1 m = Some (m_text m).
Proof.
  intros Hr Hin. destruct (match_all_from (RBound · RCap 1 r · RBound)%re s) as [Hm _ _].
  destruct (Hm m Hin) as [_ [_ Ht]].
  destruct (match_all_group_at 1 RBound r RBound s m) as (g & h & H1 & H2 & -> & [E1 _] & _ & [E2 _]);
    [done..|]. rewrite Ht. do 2 f_equal.
  - symmetry. eapply at_inj; [| |exact E1]; lia.
  - eapply at_inj; [| |exact E2]; lia.
Qed.

(** * Runs of one class *)

Definition unit_is (p : N -> bool) (s : text) (k : nat) : Prop := exists c, s !! k = Some c /\ p c = true.

Lemma den_set_at p s i q :
  i <= length s -> den (RSet p) (at_ s i) q -> q = at_ s (S i) /\ unit_is p s i /\ S i <= length s.
Proof.
  intros Hi H. destruct (den_at _ _ _ _ Hi H) as (j & Hj & ->).
  pose proof (den_min_len _ _ _ H) as Hl. destruct H as (c & b & a & E1 & E2 & Hp).
  destruct (at_length s i Hi) as [Hb Ha], (at_length s j) as [Hb' Ha']; [lia|].
  rewrite E1 in Hb, Ha. rewrite E2 in Hb', Ha'. simpl in *. assert (j = S i) as -> by lia.
  split; [done|]. split; [|lia]. exists c. split; [|done].
  apply (f_equal snd) in E1. simpl in E1.
  rewrite <- (take_drop i s), lookup_app_r by (rewrite length_take; lia).
  rewrite length_take, E1. by replace (i - i `min` length s) with 0 by lia.
Qed.

Lemma den_run p lo extra s i j :
  i <= length s -> j <= length s -> den (RRep lo extra (RSet p)) (at_ s i) (at_ s j) ->
  times_ok lo extra (j - i) /\ i <= j /\ forall k, i <= k < j -> unit_is p s k.
Proof.
  intros Hi Hj (n & Ht & Hn). cbn [den] in Hn.
  enough (j = i + n /\ forall k, i <= k < j -> unit_is p s k) as [-> Hk].
  { split_and!; [by replace (i + n - i) with n by lia|lia|done]. }
  clear Ht. remember (at_ s i) as x eqn:Ex. remember (at_ s j) as y eqn:Ey.
  revert i Hi Ex. induction Hn as [x|n x z y Hz Hn IH]; intros i Hi ->.
  - apply at_inj in Ey as ->; [|done..]. split; lia.
  - apply (den_set_at p) in Hz as (-> & Hu & Hlen); [|done].
    destruct (IH Ey (S i) Hlen eq_refl) as [-> Hk]. split; [lia|].
    intros k Hk'. destruct (decide (k = i)) as [->|]; [done|apply Hk; lia].
Qed.

Lemma last_is_at p s k : last_is p (drop k s) = true <-> unit_is p s k.
Proof.
  unfold unit_is. split.
  - intros H. destruct (drop k s) as [|c a] eqn:E; [done|]. exists c. split; [|done].
    pose proof (lookup_drop s k 0) as Hl. rewrite E, Nat.add_0_r in Hl. by rewrite <- Hl.
  - intros (c & Hc & Hp). by rewrite (drop_S s c k Hc).
Qed.

Lemma last_is_before p s k : last_is p (rev (take (S k) s)) = true <-> unit_is p s k \/
  (length s <= k /\ last_is p (rev s) = true).
Proof.
  unfold unit_is. destruct (s !! k) as [c|] eqn:E.
  - rewrite (take_S_r _ _ _ E), rev_app_distr. simpl. apply lookup_lt_Some in E. split.
    + intros H. left. by exists c.
    + intros [(c' & [= ->] & H)|[? _]]; [done|lia].
  - apply lookup_ge_None in E. rewrite take_ge by lia. split; [auto|].
    intros [(c & [=] & _)|[_ H]]; done.
Qed.

(** No boundary between two word units. *)
Lemma no_bound_inside s k y :
  unit_is word s k -> unit_is word s (S k) -> ~ den RBound (at_ s (S k)) y.
Proof.
  intros H1 H2 [_ Hne]. unfold at_ in Hne. cbn [fst snd] in Hne.
  apply last_is_at in H2. assert (last_is word (rev (take (S k) s)) = true) as H1'
    by (apply last_is_before; by left). congruence.
Qed.
