(* ===== verification/HtmlEntities.v ===== *)
(** [security/html_entities_data.ts]: the named character references of HTML, in
    the order of the source, in blocks of at most 150 entries. *)
From stdpp Require Import base list strings.
From Stdlib Require Import NArith.
From S2P Require Import Prelude Text.
Open Scope N_scope.

Abbreviation entity := (string * text)%type.

Definition entities_00 : list entity :=
  [("Aacute"%string, [193]);
   ("aacute"%string, [225]);
   ("Aacute;"%string, [193]);
   ("aacute;"%string, [225]);
   ("Abreve;"%string, [258]);
   ("abreve;"%string, [259]);
   ("ac;"%string, [8766]);
   ("acd;"%string, [8767]);
   ("acE;"%string, [8766; 819]);
   ("Acirc"%string, [194]);
   ("acirc"%string, [226]);
   ("Acirc;"%string, [194]);
   ("acirc;"%string, [226]);
   ("acute"%string, [180]);
   ("acute;"%string, [180]);
   ("Acy;"%string, [1040]);
   ("acy;"%string, [1072]);
   ("AElig"%string, [198]);
   ("aelig"%string, [230]);
   ("AElig;"%string, [198]);
   ("aelig;"%string, [230]);
   ("af;"%string, [8289]);
   ("Afr;"%string, [55349; 56580]);
   ("afr;"%string, [55349; 56606]);
   ("Agrave"%string, [192]);
   ("agrave"%string, [224]);
   ("Agrave;"%string, [192]);
   ("agrave;"%string, [224]);
   ("alefsym;"%string, [8501]);
   ("aleph;"%string, [8501]);
   ("Alpha;"%string, [913]);
   ("alpha;"%string, [945]);
   ("Amacr;"%string, [256]);
   ("amacr;"%string, [257]);
   ("amalg;"%string, [10815]);
   ("AMP"%string, [38]);
   ("amp"%string, [38]);
   ("AMP;"%string, [38]);
   ("amp;"%string, [38]);
   ("And;"%string, [10835]);
   ("and;"%string, [8743]);
   ("andand;"%string, [10837]);
   ("andd;"%string, [10844]);
   ("andslope;"%string, [10840]);
   ("andv;"%string, [10842]);
   ("ang;"%string, [8736]);
   ("ange;"%string, [10660]);
   ("angle;"%string, [8736]);
   ("angmsd;"%string, [8737]);
   ("angmsdaa;"%string, [10664]);
   ("angmsdab;"%string, [10665]);
   ("angmsdac;"%string, [10666]);
   ("angmsdad;"%string, [10667]);
   ("angmsdae;"%string, [10668]);
   ("angmsdaf;"%string, [10669]);
   ("angmsdag;"%string, [10670]);
   ("angmsdah;"%string, [10671]);
   ("angrt;"%string, [8735]);
   ("angrtvb;"%string, [8894]);
   ("angrtvbd;"%string, [10653]);
   ("angsph;"%string, [8738]);
   ("angst;"%string, [197]);
   ("angzarr;"%string, [9084]);
   ("Aogon;"%string, [260]);
   ("aogon;"%string, [261]);
   ("Aopf;"%string, [55349; 56632]);
   ("aopf;"%string, [55349; 56658]);
   ("ap;"%string, [8776]);
   ("apacir;"%string, [10863]);
   ("apE;"%string, [10864]);
   ("ape;"%string, [8778]);
   ("apid;"%string, [8779]);
   ("apos;"%string, [39]);
   ("ApplyFunction;"%string, [8289]);
   ("approx;"%string, [8776]);
   ("approxeq;"%string, [8778]);
   ("Aring"%string, [197]);
   ("aring"%string, [229]);
   ("Aring;"%string, [197]);
   ("aring;"%string, [229]);
   ("Ascr;"%string, [55349; 56476]);
   ("ascr;"%string, [55349; 56502]);
   ("Assign;"%string, [8788]);
   ("ast;"%string, [42]);
   ("asymp;"%string, [8776]);
   ("asympeq;"%string, [8781]);
   ("Atilde"%string, [195]);
   ("atilde"%string, [227]);
   ("Atilde;"%string, [195]);
   ("atilde;"%string, [227]);
   ("Auml"%string, [196]);
   ("auml"%string, [228]);
   ("Auml;"%string, [196]);
   ("auml;"%string, [228]);
   ("awconint;"%string, [8755]);
   ("awint;"%string, [10769]);
   ("backcong;"%string, [8780]);
   ("backepsilon;"%string, [1014]);
   ("backprime;"%string, [8245]);
   ("backsim;"%string, [8765]);
   ("backsimeq;"%string, [8909]);
   ("Backslash;"%string, [8726]);
   ("Barv;"%string, [10983]);
   ("barvee;"%string, [8893]);
   ("Barwed;"%string, [8966]);
   ("barwed;"%string, [8965]);
   ("barwedge;"%string, [8965]);
   ("bbrk;"%string, [9141]);
   ("bbrktbrk;"%string, [9142]);
   ("bcong;"%string, [8780]);
   ("Bcy;"%string, [1041]);
   ("bcy;"%string, [1073]);
   ("bdquo;"%string, [8222]);
   ("becaus;"%string, [8757]);
   ("Because;"%string, [8757]);
   ("because;"%string, [8757]);
   ("bemptyv;"%string, [10672]);
   ("bepsi;"%string, [1014]);
   ("bernou;"%string, [8492]);
   ("Bernoullis;"%string, [8492]);
   ("Beta;"%string, [914]);
   ("beta;"%string, [946]);
   ("beth;"%string, [8502]);
   ("between;"%string, [8812]);
   ("Bfr;"%string, [55349; 56581]);
   ("bfr;"%string, [55349; 56607]);
   ("bigcap;"%string, [8898]);
   ("bigcirc;"%string, [9711]);
   ("bigcup;"%string, [8899]);
   ("bigodot;"%string, [10752]);
   ("bigoplus;"%string, [10753]);
   ("bigotimes;"%string, [10754]);
   ("bigsqcup;"%string, [10758]);
   ("bigstar;"%string, [9733]);
   ("bigtriangledown;"%string, [9661]);
   ("bigtriangleup;"%string, [9651]);
   ("biguplus;"%string, [10756]);
   ("bigvee;"%string, [8897]);
   ("bigwedge;"%string, [8896]);
   ("bkarow;"%string, [10509]);
   ("blacklozenge;"%string, [10731]);
   ("blacksquare;"%string, [9642]);
   ("blacktriangle;"%string, [9652]);
   ("blacktriangledown;"%string, [9662]);
   ("blacktriangleleft;"%string, [9666]);
   ("blacktriangleright;"%string, [9656]);
   ("blank;"%string, [9251]);
   ("blk12;"%string, [9618]);
   ("blk14;"%string, [9617]);
   ("blk34;"%string, [9619])].

Definition entities_01 : list entity :=
  [("block;"%string, [9608]);
   ("bne;"%string, [61; 8421]);
   ("bnequiv;"%string, [8801; 8421]);
   ("bNot;"%string, [10989]);
   ("bnot;"%string, [8976]);
   ("Bopf;"%string, [55349; 56633]);
   ("bopf;"%string, [55349; 56659]);
   ("bot;"%string, [8869]);
   ("bottom;"%string, [8869]);
   ("bowtie;"%string, [8904]);
   ("boxbox;"%string, [10697]);
   ("boxDL;"%string, [9559]);
   ("boxDl;"%string, [9558]);
   ("boxdL;"%string, [9557]);
   ("boxdl;"%string, [9488]);
   ("boxDR;"%string, [9556]);
   ("boxDr;"%string, [9555]);
   ("boxdR;"%string, [9554]);
   ("boxdr;"%string, [9484]);
   ("boxH;"%string, [9552]);
   ("boxh;"%string, [9472]);
   ("boxHD;"%string, [9574]);
   ("boxHd;"%string, [9572]);
   ("boxhD;"%string, [9573]);
   ("boxhd;"%string, [9516]);
   ("boxHU;"%string, [9577]);
   ("boxHu;"%string, [9575]);
   ("boxhU;"%string, [9576]);
   ("boxhu;"%string, [9524]);
   ("boxminus;"%string, [8863]);
   ("boxplus;"%string, [8862]);
   ("boxtimes;"%string, [8864]);
   ("boxUL;"%string, [9565]);
   ("boxUl;"%string, [9564]);
   ("boxuL;"%string, [9563]);
   ("boxul;"%string, [9496]);
   ("boxUR;"%string, [9562]);
   ("boxUr;"%string, [9561]);
   ("boxuR;"%string, [9560]);
   ("boxur;"%string, [9492]);
   ("boxV;"%string, [9553]);
   ("boxv;"%string, [9474]);
   ("boxVH;"%string, [9580]);
   ("boxVh;"%string, [9579]);
   ("boxvH;"%string, [9578]);
   ("boxvh;"%string, [9532]);
   ("boxVL;"%string, [9571]);
   ("boxVl;"%string, [9570]);
   ("boxvL;"%string, [9569]);
   ("boxvl;"%string, [9508]);
   ("boxVR;"%string, [9568]);
   ("boxVr;"%string, [9567]);
   ("boxvR;"%string, [9566]);
   ("boxvr;"%string, [9500]);
   ("bprime;"%string, [8245]);
   ("Breve;"%string, [728]);
   ("breve;"%string, [728]);
   ("brvbar"%string, [166]);
   ("brvbar;"%string, [166]);
   ("Bscr;"%string, [8492]);
   ("bscr;"%string, [55349; 56503]);
   ("bsemi;"%string, [8271]);
   ("bsim;"%string, [8765]);
   ("bsime;"%string, [8909]);
   ("bsol;"%string, [92]);
   ("bsolb;"%string, [10693]);
   ("bsolhsub;"%string, [10184]);
   ("bull;"%string, [8226]);
   ("bullet;"%string, [8226]);
   ("bump;"%string, [8782]);
   ("bumpE;"%string, [10926]);
   ("bumpe;"%string, [8783]);
   ("Bumpeq;"%string, [8782]);
   ("bumpeq;"%string, [8783]);
   ("Cacute;"%string, [262]);
   ("cacute;"%string, [263]);
   ("Cap;"%string, [8914]);
   ("cap;"%string, [8745]);
   ("capand;"%string, [10820]);
   ("capbrcup;"%string, [10825]);
   ("capcap;"%string, [10827]);
   ("capcup;"%string, [10823]);
   ("capdot;"%string, [10816]);
   ("CapitalDifferentialD;"%string, [8517]);
   ("caps;"%string, [8745; 65024]);
   ("caret;"%string, [8257]);
   ("caron;"%string, [711]);
   ("Cayleys;"%string, [8493]);
   ("ccaps;"%string, [10829]);
   ("Ccaron;"%string, [268]);
   ("ccaron;"%string, [269]);
   ("Ccedil"%string, [199]);
   ("ccedil"%string, [231]);
   ("Ccedil;"%string, [199]);
   ("ccedil;"%string, [231]);
   ("Ccirc;"%string, [264]);
   ("ccirc;"%string, [265]);
   ("Cconint;"%string, [8752]);
   ("ccups;"%string, [10828]);
   ("ccupssm;"%string, [10832]);
   ("Cdot;"%string, [266]);
   ("cdot;"%string, [267]);
   ("cedil"%string, [184]);
   ("cedil;"%string, [184]);
   ("Cedilla;"%string, [184]);
   ("cemptyv;"%string, [10674]);
   ("cent"%string, [162]);
   ("cent;"%string, [162]);
   ("CenterDot;"%string, [183]);
   ("centerdot;"%string, [183]);
   ("Cfr;"%string, [8493]);
   ("cfr;"%string, [55349; 56608]);
   ("CHcy;"%string, [1063]);
   ("chcy;"%string, [1095]);
   ("check;"%string, [10003]);
   ("checkmark;"%string, [10003]);
   ("Chi;"%string, [935]);
   ("chi;"%string, [967]);
   ("cir;"%string, [9675]);
   ("circ;"%string, [710]);
   ("circeq;"%string, [8791]);
   ("circlearrowleft;"%string, [8634]);
   ("circlearrowright;"%string, [8635]);
   ("circledast;"%string, [8859]);
   ("circledcirc;"%string, [8858]);
   ("circleddash;"%string, [8861]);
   ("CircleDot;"%string, [8857]);
   ("circledR;"%string, [174]);
   ("circledS;"%string, [9416]);
   ("CircleMinus;"%string, [8854]);
   ("CirclePlus;"%string, [8853]);
   ("CircleTimes;"%string, [8855]);
   ("cirE;"%string, [10691]);
   ("cire;"%string, [8791]);
   ("cirfnint;"%string, [10768]);
   ("cirmid;"%string, [10991]);
   ("cirscir;"%string, [10690]);
   ("ClockwiseContourIntegral;"%string, [8754]);
   ("CloseCurlyDoubleQuote;"%string, [8221]);
   ("CloseCurlyQuote;"%string, [8217]);
   ("clubs;"%string, [9827]);
   ("clubsuit;"%string, [9827]);
   ("Colon;"%string, [8759]);
   ("colon;"%string, [58]);
   ("Colone;"%string, [10868]);
   ("colone;"%string, [8788]);
   ("coloneq;"%string, [8788]);
   ("comma;"%string, [44]);
   ("commat;"%string, [64]);
   ("comp;"%string, [8705])].

Definition entities_02 : list entity :=
  [("compfn;"%string, [8728]);
   ("complement;"%string, [8705]);
   ("complexes;"%string, [8450]);
   ("cong;"%string, [8773]);
   ("congdot;"%string, [10861]);
   ("Congruent;"%string, [8801]);
   ("Conint;"%string, [8751]);
   ("conint;"%string, [8750]);
   ("ContourIntegral;"%string, [8750]);
   ("Copf;"%string, [8450]);
   ("copf;"%string, [55349; 56660]);
   ("coprod;"%string, [8720]);
   ("Coproduct;"%string, [8720]);
   ("COPY"%string, [169]);
   ("copy"%string, [169]);
   ("COPY;"%string, [169]);
   ("copy;"%string, [169]);
   ("copysr;"%string, [8471]);
   ("CounterClockwiseContourIntegral;"%string, [8755]);
   ("crarr;"%string, [8629]);
   ("Cross;"%string, [10799]);
   ("cross;"%string, [10007]);
   ("Cscr;"%string, [55349; 56478]);
   ("cscr;"%string, [55349; 56504]);
   ("csub;"%string, [10959]);
   ("csube;"%string, [10961]);
   ("csup;"%string, [10960]);
   ("csupe;"%string, [10962]);
   ("ctdot;"%string, [8943]);
   ("cudarrl;"%string, [10552]);
   ("cudarrr;"%string, [10549]);
   ("cuepr;"%string, [8926]);
   ("cuesc;"%string, [8927]);
   ("cularr;"%string, [8630]);
   ("cularrp;"%string, [10557]);
   ("Cup;"%string, [8915]);
   ("cup;"%string, [8746]);
   ("cupbrcap;"%string, [10824]);
   ("CupCap;"%string, [8781]);
   ("cupcap;"%string, [10822]);
   ("cupcup;"%string, [10826]);
   ("cupdot;"%string, [8845]);
   ("cupor;"%string, [10821]);
   ("cups;"%string, [8746; 65024]);
   ("curarr;"%string, [8631]);
   ("curarrm;"%string, [10556]);
   ("curlyeqprec;"%string, [8926]);
   ("curlyeqsucc;"%string, [8927]);
   ("curlyvee;"%string, [8910]);
   ("curlywedge;"%string, [8911]);
   ("curren"%string, [164]);
   ("curren;"%string, [164]);
   ("curvearrowleft;"%string, [8630]);
   ("curvearrowright;"%string, [8631]);
   ("cuvee;"%string, [8910]);
   ("cuwed;"%string, [8911]);
   ("cwconint;"%string, [8754]);
   ("cwint;"%string, [8753]);
   ("cylcty;"%string, [9005]);
   ("Dagger;"%string, [8225]);
   ("dagger;"%string, [8224]);
   ("daleth;"%string, [8504]);
   ("Darr;"%string, [8609]);
   ("dArr;"%string, [8659]);
   ("darr;"%string, [8595]);
   ("dash;"%string, [8208]);
   ("Dashv;"%string, [10980]);
   ("dashv;"%string, [8867]);
   ("dbkarow;"%string, [10511]);
   ("dblac;"%string, [733]);
   ("Dcaron;"%string, [270]);
   ("dcaron;"%string, [271]);
   ("Dcy;"%string, [1044]);
   ("dcy;"%string, [1076]);
   ("DD;"%string, [8517]);
   ("dd;"%string, [8518]);
   ("ddagger;"%string, [8225]);
   ("ddarr;"%string, [8650]);
   ("DDotrahd;"%string, [10513]);
   ("ddotseq;"%string, [10871]);
   ("deg"%string, [176]);
   ("deg;"%string, [176]);
   ("Del;"%string, [8711]);
   ("Delta;"%string, [916]);
   ("delta;"%string, [948]);
   ("demptyv;"%string, [10673]);
   ("dfisht;"%string, [10623]);
   ("Dfr;"%string, [55349; 56583]);
   ("dfr;"%string, [55349; 56609]);
   ("dHar;"%string, [10597]);
   ("dharl;"%string, [8643]);
   ("dharr;"%string, [8642]);
   ("DiacriticalAcute;"%string, [180]);
   ("DiacriticalDot;"%string, [729]);
   ("DiacriticalDoubleAcute;"%string, [733]);
   ("DiacriticalGrave;"%string, [96]);
   ("DiacriticalTilde;"%string, [732]);
   ("diam;"%string, [8900]);
   ("Diamond;"%string, [8900]);
   ("diamond;"%string, [8900]);
   ("diamondsuit;"%string, [9830]);
   ("diams;"%string, [9830]);
   ("die;"%string, [168]);
   ("DifferentialD;"%string, [8518]);
   ("digamma;"%string, [989]);
   ("disin;"%string, [8946]);
   ("div;"%string, [247]);
   ("divide"%string, [247]);
   ("divide;"%string, [247]);
   ("divideontimes;"%string, [8903]);
   ("divonx;"%string, [8903]);
   ("DJcy;"%string, [1026]);
   ("djcy;"%string, [1106]);
   ("dlcorn;"%string, [8990]);
   ("dlcrop;"%string, [8973]);
   ("dollar;"%string, [36]);
   ("Dopf;"%string, [55349; 56635]);
   ("dopf;"%string, [55349; 56661]);
   ("Dot;"%string, [168]);
   ("dot;"%string, [729]);
   ("DotDot;"%string, [8412]);
   ("doteq;"%string, [8784]);
   ("doteqdot;"%string, [8785]);
   ("DotEqual;"%string, [8784]);
   ("dotminus;"%string, [8760]);
   ("dotplus;"%string, [8724]);
   ("dotsquare;"%string, [8865]);
   ("doublebarwedge;"%string, [8966]);
   ("DoubleContourIntegral;"%string, [8751]);
   ("DoubleDot;"%string, [168]);
   ("DoubleDownArrow;"%string, [8659]);
   ("DoubleLeftArrow;"%string, [8656]);
   ("DoubleLeftRightArrow;"%string, [8660]);
   ("DoubleLeftTee;"%string, [10980]);
   ("DoubleLongLeftArrow;"%string, [10232]);
   ("DoubleLongLeftRightArrow;"%string, [10234]);
   ("DoubleLongRightArrow;"%string, [10233]);
   ("DoubleRightArrow;"%string, [8658]);
   ("DoubleRightTee;"%string, [8872]);
   ("DoubleUpArrow;"%string, [8657]);
   ("DoubleUpDownArrow;"%string, [8661]);
   ("DoubleVerticalBar;"%string, [8741]);
   ("DownArrow;"%string, [8595]);
   ("Downarrow;"%string, [8659]);
   ("downarrow;"%string, [8595]);
   ("DownArrowBar;"%string, [10515]);
   ("DownArrowUpArrow;"%string, [8693]);
   ("DownBreve;"%string, [785]);
   ("downdownarrows;"%string, [8650]);
   ("downharpoonleft;"%string, [8643])].

Definition entities_03 : list entity :=
  [("downharpoonright;"%string, [8642]);
   ("DownLeftRightVector;"%string, [10576]);
   ("DownLeftTeeVector;"%string, [10590]);
   ("DownLeftVector;"%string, [8637]);
   ("DownLeftVectorBar;"%string, [10582]);
   ("DownRightTeeVector;"%string, [10591]);
   ("DownRightVector;"%string, [8641]);
   ("DownRightVectorBar;"%string, [10583]);
   ("DownTee;"%string, [8868]);
   ("DownTeeArrow;"%string, [8615]);
   ("drbkarow;"%string, [10512]);
   ("drcorn;"%string, [8991]);
   ("drcrop;"%string, [8972]);
   ("Dscr;"%string, [55349; 56479]);
   ("dscr;"%string, [55349; 56505]);
   ("DScy;"%string, [1029]);
   ("dscy;"%string, [1109]);
   ("dsol;"%string, [10742]);
   ("Dstrok;"%string, [272]);
   ("dstrok;"%string, [273]);
   ("dtdot;"%string, [8945]);
   ("dtri;"%string, [9663]);
   ("dtrif;"%string, [9662]);
   ("duarr;"%string, [8693]);
   ("duhar;"%string, [10607]);
   ("dwangle;"%string, [10662]);
   ("DZcy;"%string, [1039]);
   ("dzcy;"%string, [1119]);
   ("dzigrarr;"%string, [10239]);
   ("Eacute"%string, [201]);
   ("eacute"%string, [233]);
   ("Eacute;"%string, [201]);
   ("eacute;"%string, [233]);
   ("easter;"%string, [10862]);
   ("Ecaron;"%string, [282]);
   ("ecaron;"%string, [283]);
   ("ecir;"%string, [8790]);
   ("Ecirc"%string, [202]);
   ("ecirc"%string, [234]);
   ("Ecirc;"%string, [202]);
   ("ecirc;"%string, [234]);
   ("ecolon;"%string, [8789]);
   ("Ecy;"%string, [1069]);
   ("ecy;"%string, [1101]);
   ("eDDot;"%string, [10871]);
   ("Edot;"%string, [278]);
   ("eDot;"%string, [8785]);
   ("edot;"%string, [279]);
   ("ee;"%string, [8519]);
   ("efDot;"%string, [8786]);
   ("Efr;"%string, [55349; 56584]);
   ("efr;"%string, [55349; 56610]);
   ("eg;"%string, [10906]);
   ("Egrave"%string, [200]);
   ("egrave"%string, [232]);
   ("Egrave;"%string, [200]);
   ("egrave;"%string, [232]);
   ("egs;"%string, [10902]);
   ("egsdot;"%string, [10904]);
   ("el;"%string, [10905]);
   ("Element;"%string, [8712]);
   ("elinters;"%string, [9191]);
   ("ell;"%string, [8467]);
   ("els;"%string, [10901]);
   ("elsdot;"%string, [10903]);
   ("Emacr;"%string, [274]);
   ("emacr;"%string, [275]);
   ("empty;"%string, [8709]);
   ("emptyset;"%string, [8709]);
   ("EmptySmallSquare;"%string, [9723]);
   ("emptyv;"%string, [8709]);
   ("EmptyVerySmallSquare;"%string, [9643]);
   ("emsp13;"%string, [8196]);
   ("emsp14;"%string, [8197]);
   ("emsp;"%string, [8195]);
   ("ENG;"%string, [330]);
   ("eng;"%string, [331]);
   ("ensp;"%string, [8194]);
   ("Eogon;"%string, [280]);
   ("eogon;"%string, [281]);
   ("Eopf;"%string, [55349; 56636]);
   ("eopf;"%string, [55349; 56662]);
   ("epar;"%string, [8917]);
   ("eparsl;"%string, [10723]);
   ("eplus;"%string, [10865]);
   ("epsi;"%string, [949]);
   ("Epsilon;"%string, [917]);
   ("epsilon;"%string, [949]);
   ("epsiv;"%string, [1013]);
   ("eqcirc;"%string, [8790]);
   ("eqcolon;"%string, [8789]);
   ("eqsim;"%string, [8770]);
   ("eqslantgtr;"%string, [10902]);
   ("eqslantless;"%string, [10901]);
   ("Equal;"%string, [10869]);
   ("equals;"%string, [61]);
   ("EqualTilde;"%string, [8770]);
   ("equest;"%string, [8799]);
   ("Equilibrium;"%string, [8652]);
   ("equiv;"%string, [8801]);
   ("equivDD;"%string, [10872]);
   ("eqvparsl;"%string, [10725]);
   ("erarr;"%string, [10609]);
   ("erDot;"%string, [8787]);
   ("Escr;"%string, [8496]);
   ("escr;"%string, [8495]);
   ("esdot;"%string, [8784]);
   ("Esim;"%string, [10867]);
   ("esim;"%string, [8770]);
   ("Eta;"%string, [919]);
   ("eta;"%string, [951]);
   ("ETH"%string, [208]);
   ("eth"%string, [240]);
   ("ETH;"%string, [208]);
   ("eth;"%string, [240]);
   ("Euml"%string, [203]);
   ("euml"%string, [235]);
   ("Euml;"%string, [203]);
   ("euml;"%string, [235]);
   ("euro;"%string, [8364]);
   ("excl;"%string, [33]);
   ("exist;"%string, [8707]);
   ("Exists;"%string, [8707]);
   ("expectation;"%string, [8496]);
   ("ExponentialE;"%string, [8519]);
   ("exponentiale;"%string, [8519]);
   ("fallingdotseq;"%string, [8786]);
   ("Fcy;"%string, [1060]);
   ("fcy;"%string, [1092]);
   ("female;"%string, [9792]);
   ("ffilig;"%string, [64259]);
   ("fflig;"%string, [64256]);
   ("ffllig;"%string, [64260]);
   ("Ffr;"%string, [55349; 56585]);
   ("ffr;"%string, [55349; 56611]);
   ("filig;"%string, [64257]);
   ("FilledSmallSquare;"%string, [9724]);
   ("FilledVerySmallSquare;"%string, [9642]);
   ("fjlig;"%string, [102; 106]);
   ("flat;"%string, [9837]);
   ("fllig;"%string, [64258]);
   ("fltns;"%string, [9649]);
   ("fnof;"%string, [402]);
   ("Fopf;"%string, [55349; 56637]);
   ("fopf;"%string, [55349; 56663]);
   ("ForAll;"%string, [8704]);
   ("forall;"%string, [8704]);
   ("fork;"%string, [8916]);
   ("forkv;"%string, [10969]);
   ("Fouriertrf;"%string, [8497])].

Definition entities_04 : list entity :=
  [("fpartint;"%string, [10765]);
   ("frac12"%string, [189]);
   ("frac12;"%string, [189]);
   ("frac13;"%string, [8531]);
   ("frac14"%string, [188]);
   ("frac14;"%string, [188]);
   ("frac15;"%string, [8533]);
   ("frac16;"%string, [8537]);
   ("frac18;"%string, [8539]);
   ("frac23;"%string, [8532]);
   ("frac25;"%string, [8534]);
   ("frac34"%string, [190]);
   ("frac34;"%string, [190]);
   ("frac35;"%string, [8535]);
   ("frac38;"%string, [8540]);
   ("frac45;"%string, [8536]);
   ("frac56;"%string, [8538]);
   ("frac58;"%string, [8541]);
   ("frac78;"%string, [8542]);
   ("frasl;"%string, [8260]);
   ("frown;"%string, [8994]);
   ("Fscr;"%string, [8497]);
   ("fscr;"%string, [55349; 56507]);
   ("gacute;"%string, [501]);
   ("Gamma;"%string, [915]);
   ("gamma;"%string, [947]);
   ("Gammad;"%string, [988]);
   ("gammad;"%string, [989]);
   ("gap;"%string, [10886]);
   ("Gbreve;"%string, [286]);
   ("gbreve;"%string, [287]);
   ("Gcedil;"%string, [290]);
   ("Gcirc;"%string, [284]);
   ("gcirc;"%string, [285]);
   ("Gcy;"%string, [1043]);
   ("gcy;"%string, [1075]);
   ("Gdot;"%string, [288]);
   ("gdot;"%string, [289]);
   ("gE;"%string, [8807]);
   ("ge;"%string, [8805]);
   ("gEl;"%string, [10892]);
   ("gel;"%string, [8923]);
   ("geq;"%string, [8805]);
   ("geqq;"%string, [8807]);
   ("geqslant;"%string, [10878]);
   ("ges;"%string, [10878]);
   ("gescc;"%string, [10921]);
   ("gesdot;"%string, [10880]);
   ("gesdoto;"%string, [10882]);
   ("gesdotol;"%string, [10884]);
   ("gesl;"%string, [8923; 65024]);
   ("gesles;"%string, [10900]);
   ("Gfr;"%string, [55349; 56586]);
   ("gfr;"%string, [55349; 56612]);
   ("Gg;"%string, [8921]);
   ("gg;"%string, [8811]);
   ("ggg;"%string, [8921]);
   ("gimel;"%string, [8503]);
   ("GJcy;"%string, [1027]);
   ("gjcy;"%string, [1107]);
   ("gl;"%string, [8823]);
   ("gla;"%string, [10917]);
   ("glE;"%string, [10898]);
   ("glj;"%string, [10916]);
   ("gnap;"%string, [10890]);
   ("gnapprox;"%string, [10890]);
   ("gnE;"%string, [8809]);
   ("gne;"%string, [10888]);
   ("gneq;"%string, [10888]);
   ("gneqq;"%string, [8809]);
   ("gnsim;"%string, [8935]);
   ("Gopf;"%string, [55349; 56638]);
   ("gopf;"%string, [55349; 56664]);
   ("grave;"%string, [96]);
   ("GreaterEqual;"%string, [8805]);
   ("GreaterEqualLess;"%string, [8923]);
   ("GreaterFullEqual;"%string, [8807]);
   ("GreaterGreater;"%string, [10914]);
   ("GreaterLess;"%string, [8823]);
   ("GreaterSlantEqual;"%string, [10878]);
   ("GreaterTilde;"%string, [8819]);
   ("Gscr;"%string, [55349; 56482]);
   ("gscr;"%string, [8458]);
   ("gsim;"%string, [8819]);
   ("gsime;"%string, [10894]);
   ("gsiml;"%string, [10896]);
   ("GT"%string, [62]);
   ("gt"%string, [62]);
   ("GT;"%string, [62]);
   ("Gt;"%string, [8811]);
   ("gt;"%string, [62]);
   ("gtcc;"%string, [10919]);
   ("gtcir;"%string, [10874]);
   ("gtdot;"%string, [8919]);
   ("gtlPar;"%string, [10645]);
   ("gtquest;"%string, [10876]);
   ("gtrapprox;"%string, [10886]);
   ("gtrarr;"%string, [10616]);
   ("gtrdot;"%string, [8919]);
   ("gtreqless;"%string, [8923]);
   ("gtreqqless;"%string, [10892]);
   ("gtrless;"%string, [8823]);
   ("gtrsim;"%string, [8819]);
   ("gvertneqq;"%string, [8809; 65024]);
   ("gvnE;"%string, [8809; 65024]);
   ("Hacek;"%string, [711]);
   ("hairsp;"%string, [8202]);
   ("half;"%string, [189]);
   ("hamilt;"%string, [8459]);
   ("HARDcy;"%string, [1066]);
   ("hardcy;"%string, [1098]);
   ("hArr;"%string, [8660]);
   ("harr;"%string, [8596]);
   ("harrcir;"%string, [10568]);
   ("harrw;"%string, [8621]);
   ("Hat;"%string, [94]);
   ("hbar;"%string, [8463]);
   ("Hcirc;"%string, [292]);
   ("hcirc;"%string, [293]);
   ("hearts;"%string, [9829]);
   ("heartsuit;"%string, [9829]);
   ("hellip;"%string, [8230]);
   ("hercon;"%string, [8889]);
   ("Hfr;"%string, [8460]);
   ("hfr;"%string, [55349; 56613]);
   ("HilbertSpace;"%string, [8459]);
   ("hksearow;"%string, [10533]);
   ("hkswarow;"%string, [10534]);
   ("hoarr;"%string, [8703]);
   ("homtht;"%string, [8763]);
   ("hookleftarrow;"%string, [8617]);
   ("hookrightarrow;"%string, [8618]);
   ("Hopf;"%string, [8461]);
   ("hopf;"%string, [55349; 56665]);
   ("horbar;"%string, [8213]);
   ("HorizontalLine;"%string, [9472]);
   ("Hscr;"%string, [8459]);
   ("hscr;"%string, [55349; 56509]);
   ("hslash;"%string, [8463]);
   ("Hstrok;"%string, [294]);
   ("hstrok;"%string, [295]);
   ("HumpDownHump;"%string, [8782]);
   ("HumpEqual;"%string, [8783]);
   ("hybull;"%string, [8259]);
   ("hyphen;"%string, [8208]);
   ("Iacute"%string, [205]);
   ("iacute"%string, [237]);
   ("Iacute;"%string, [205]);
   ("iacute;"%string, [237]);
   ("ic;"%string, [8291])].

Definition entities_05 : list entity :=
  [("Icirc"%string, [206]);
   ("icirc"%string, [238]);
   ("Icirc;"%string, [206]);
   ("icirc;"%string, [238]);
   ("Icy;"%string, [1048]);
   ("icy;"%string, [1080]);
   ("Idot;"%string, [304]);
   ("IEcy;"%string, [1045]);
   ("iecy;"%string, [1077]);
   ("iexcl"%string, [161]);
   ("iexcl;"%string, [161]);
   ("iff;"%string, [8660]);
   ("Ifr;"%string, [8465]);
   ("ifr;"%string, [55349; 56614]);
   ("Igrave"%string, [204]);
   ("igrave"%string, [236]);
   ("Igrave;"%string, [204]);
   ("igrave;"%string, [236]);
   ("ii;"%string, [8520]);
   ("iiiint;"%string, [10764]);
   ("iiint;"%string, [8749]);
   ("iinfin;"%string, [10716]);
   ("iiota;"%string, [8489]);
   ("IJlig;"%string, [306]);
   ("ijlig;"%string, [307]);
   ("Im;"%string, [8465]);
   ("Imacr;"%string, [298]);
   ("imacr;"%string, [299]);
   ("image;"%string, [8465]);
   ("ImaginaryI;"%string, [8520]);
   ("imagline;"%string, [8464]);
   ("imagpart;"%string, [8465]);
   ("imath;"%string, [305]);
   ("imof;"%string, [8887]);
   ("imped;"%string, [437]);
   ("Implies;"%string, [8658]);
   ("in;"%string, [8712]);
   ("incare;"%string, [8453]);
   ("infin;"%string, [8734]);
   ("infintie;"%string, [10717]);
   ("inodot;"%string, [305]);
   ("Int;"%string, [8748]);
   ("int;"%string, [8747]);
   ("intcal;"%string, [8890]);
   ("integers;"%string, [8484]);
   ("Integral;"%string, [8747]);
   ("intercal;"%string, [8890]);
   ("Intersection;"%string, [8898]);
   ("intlarhk;"%string, [10775]);
   ("intprod;"%string, [10812]);
   ("InvisibleComma;"%string, [8291]);
   ("InvisibleTimes;"%string, [8290]);
   ("IOcy;"%string, [1025]);
   ("iocy;"%string, [1105]);
   ("Iogon;"%string, [302]);
   ("iogon;"%string, [303]);
   ("Iopf;"%string, [55349; 56640]);
   ("iopf;"%string, [55349; 56666]);
   ("Iota;"%string, [921]);
   ("iota;"%string, [953]);
   ("iprod;"%string, [10812]);
   ("iquest"%string, [191]);
   ("iquest;"%string, [191]);
   ("Iscr;"%string, [8464]);
   ("iscr;"%string, [55349; 56510]);
   ("isin;"%string, [8712]);
   ("isindot;"%string, [8949]);
   ("isinE;"%string, [8953]);
   ("isins;"%string, [8948]);
   ("isinsv;"%string, [8947]);
   ("isinv;"%string, [8712]);
   ("it;"%string, [8290]);
   ("Itilde;"%string, [296]);
   ("itilde;"%string, [297]);
   ("Iukcy;"%string, [1030]);
   ("iukcy;"%string, [1110]);
   ("Iuml"%string, [207]);
   ("iuml"%string, [239]);
   ("Iuml;"%string, [207]);
   ("iuml;"%string, [239]);
   ("Jcirc;"%string, [308]);
   ("jcirc;"%string, [309]);
   ("Jcy;"%string, [1049]);
   ("jcy;"%string, [1081]);
   ("Jfr;"%string, [55349; 56589]);
   ("jfr;"%string, [55349; 56615]);
   ("jmath;"%string, [567]);
   ("Jopf;"%string, [55349; 56641]);
   ("jopf;"%string, [55349; 56667]);
   ("Jscr;"%string, [55349; 56485]);
   ("jscr;"%string, [55349; 56511]);
   ("Jsercy;"%string, [1032]);
   ("jsercy;"%string, [1112]);
   ("Jukcy;"%string, [1028]);
   ("jukcy;"%string, [1108]);
   ("Kappa;"%string, [922]);
   ("kappa;"%string, [954]);
   ("kappav;"%string, [1008]);
   ("Kcedil;"%string, [310]);
   ("kcedil;"%string, [311]);
   ("Kcy;"%string, [1050]);
   ("kcy;"%string, [1082]);
   ("Kfr;"%string, [55349; 56590]);
   ("kfr;"%string, [55349; 56616]);
   ("kgreen;"%string, [312]);
   ("KHcy;"%string, [1061]);
   ("khcy;"%string, [1093]);
   ("KJcy;"%string, [1036]);
   ("kjcy;"%string, [1116]);
   ("Kopf;"%string, [55349; 56642]);
   ("kopf;"%string, [55349; 56668]);
   ("Kscr;"%string, [55349; 56486]);
   ("kscr;"%string, [55349; 56512]);
   ("lAarr;"%string, [8666]);
   ("Lacute;"%string, [313]);
   ("lacute;"%string, [314]);
   ("laemptyv;"%string, [10676]);
   ("lagran;"%string, [8466]);
   ("Lambda;"%string, [923]);
   ("lambda;"%string, [955]);
   ("Lang;"%string, [10218]);
   ("lang;"%string, [10216]);
   ("langd;"%string, [10641]);
   ("langle;"%string, [10216]);
   ("lap;"%string, [10885]);
   ("Laplacetrf;"%string, [8466]);
   ("laquo"%string, [171]);
   ("laquo;"%string, [171]);
   ("Larr;"%string, [8606]);
   ("lArr;"%string, [8656]);
   ("larr;"%string, [8592]);
   ("larrb;"%string, [8676]);
   ("larrbfs;"%string, [10527]);
   ("larrfs;"%string, [10525]);
   ("larrhk;"%string, [8617]);
   ("larrlp;"%string, [8619]);
   ("larrpl;"%string, [10553]);
   ("larrsim;"%string, [10611]);
   ("larrtl;"%string, [8610]);
   ("lat;"%string, [10923]);
   ("lAtail;"%string, [10523]);
   ("latail;"%string, [10521]);
   ("late;"%string, [10925]);
   ("lates;"%string, [10925; 65024]);
   ("lBarr;"%string, [10510]);
   ("lbarr;"%string, [10508]);
   ("lbbrk;"%string, [10098]);
   ("lbrace;"%string, [123]);
   ("lbrack;"%string, [91]);
   ("lbrke;"%string, [10635])].

Definition entities_06 : list entity :=
  [("lbrksld;"%string, [10639]);
   ("lbrkslu;"%string, [10637]);
   ("Lcaron;"%string, [317]);
   ("lcaron;"%string, [318]);
   ("Lcedil;"%string, [315]);
   ("lcedil;"%string, [316]);
   ("lceil;"%string, [8968]);
   ("lcub;"%string, [123]);
   ("Lcy;"%string, [1051]);
   ("lcy;"%string, [1083]);
   ("ldca;"%string, [10550]);
   ("ldquo;"%string, [8220]);
   ("ldquor;"%string, [8222]);
   ("ldrdhar;"%string, [10599]);
   ("ldrushar;"%string, [10571]);
   ("ldsh;"%string, [8626]);
   ("lE;"%string, [8806]);
   ("le;"%string, [8804]);
   ("LeftAngleBracket;"%string, [10216]);
   ("LeftArrow;"%string, [8592]);
   ("Leftarrow;"%string, [8656]);
   ("leftarrow;"%string, [8592]);
   ("LeftArrowBar;"%string, [8676]);
   ("LeftArrowRightArrow;"%string, [8646]);
   ("leftarrowtail;"%string, [8610]);
   ("LeftCeiling;"%string, [8968]);
   ("LeftDoubleBracket;"%string, [10214]);
   ("LeftDownTeeVector;"%string, [10593]);
   ("LeftDownVector;"%string, [8643]);
   ("LeftDownVectorBar;"%string, [10585]);
   ("LeftFloor;"%string, [8970]);
   ("leftharpoondown;"%string, [8637]);
   ("leftharpoonup;"%string, [8636]);
   ("leftleftarrows;"%string, [8647]);
   ("LeftRightArrow;"%string, [8596]);
   ("Leftrightarrow;"%string, [8660]);
   ("leftrightarrow;"%string, [8596]);
   ("leftrightarrows;"%string, [8646]);
   ("leftrightharpoons;"%string, [8651]);
   ("leftrightsquigarrow;"%string, [8621]);
   ("LeftRightVector;"%string, [10574]);
   ("LeftTee;"%string, [8867]);
   ("LeftTeeArrow;"%string, [8612]);
   ("LeftTeeVector;"%string, [10586]);
   ("leftthreetimes;"%string, [8907]);
   ("LeftTriangle;"%string, [8882]);
   ("LeftTriangleBar;"%string, [10703]);
   ("LeftTriangleEqual;"%string, [8884]);
   ("LeftUpDownVector;"%string, [10577]);
   ("LeftUpTeeVector;"%string, [10592]);
   ("LeftUpVector;"%string, [8639]);
   ("LeftUpVectorBar;"%string, [10584]);
   ("LeftVector;"%string, [8636]);
   ("LeftVectorBar;"%string, [10578]);
   ("lEg;"%string, [10891]);
   ("leg;"%string, [8922]);
   ("leq;"%string, [8804]);
   ("leqq;"%string, [8806]);
   ("leqslant;"%string, [10877]);
   ("les;"%string, [10877]);
   ("lescc;"%string, [10920]);
   ("lesdot;"%string, [10879]);
   ("lesdoto;"%string, [10881]);
   ("lesdotor;"%string, [10883]);
   ("lesg;"%string, [8922; 65024]);
   ("lesges;"%string, [10899]);
   ("lessapprox;"%string, [10885]);
   ("lessdot;"%string, [8918]);
   ("lesseqgtr;"%string, [8922]);
   ("lesseqqgtr;"%string, [10891]);
   ("LessEqualGreater;"%string, [8922]);
   ("LessFullEqual;"%string, [8806]);
   ("LessGreater;"%string, [8822]);
   ("lessgtr;"%string, [8822]);
   ("LessLess;"%string, [10913]);
   ("lesssim;"%string, [8818]);
   ("LessSlantEqual;"%string, [10877]);
   ("LessTilde;"%string, [8818]);
   ("lfisht;"%string, [10620]);
   ("lfloor;"%string, [8970]);
   ("Lfr;"%string, [55349; 56591]);
   ("lfr;"%string, [55349; 56617]);
   ("lg;"%string, [8822]);
   ("lgE;"%string, [10897]);
   ("lHar;"%string, [10594]);
   ("lhard;"%string, [8637]);
   ("lharu;"%string, [8636]);
   ("lharul;"%string, [10602]);
   ("lhblk;"%string, [9604]);
   ("LJcy;"%string, [1033]);
   ("ljcy;"%string, [1113]);
   ("Ll;"%string, [8920]);
   ("ll;"%string, [8810]);
   ("llarr;"%string, [8647]);
   ("llcorner;"%string, [8990]);
   ("Lleftarrow;"%string, [8666]);
   ("llhard;"%string, [10603]);
   ("lltri;"%string, [9722]);
   ("Lmidot;"%string, [319]);
   ("lmidot;"%string, [320]);
   ("lmoust;"%string, [9136]);
   ("lmoustache;"%string, [9136]);
   ("lnap;"%string, [10889]);
   ("lnapprox;"%string, [10889]);
   ("lnE;"%string, [8808]);
   ("lne;"%string, [10887]);
   ("lneq;"%string, [10887]);
   ("lneqq;"%string, [8808]);
   ("lnsim;"%string, [8934]);
   ("loang;"%string, [10220]);
   ("loarr;"%string, [8701]);
   ("lobrk;"%string, [10214]);
   ("LongLeftArrow;"%string, [10229]);
   ("Longleftarrow;"%string, [10232]);
   ("longleftarrow;"%string, [10229]);
   ("LongLeftRightArrow;"%string, [10231]);
   ("Longleftrightarrow;"%string, [10234]);
   ("longleftrightarrow;"%string, [10231]);
   ("longmapsto;"%string, [10236]);
   ("LongRightArrow;"%string, [10230]);
   ("Longrightarrow;"%string, [10233]);
   ("longrightarrow;"%string, [10230]);
   ("looparrowleft;"%string, [8619]);
   ("looparrowright;"%string, [8620]);
   ("lopar;"%string, [10629]);
   ("Lopf;"%string, [55349; 56643]);
   ("lopf;"%string, [55349; 56669]);
   ("loplus;"%string, [10797]);
   ("lotimes;"%string, [10804]);
   ("lowast;"%string, [8727]);
   ("lowbar;"%string, [95]);
   ("LowerLeftArrow;"%string, [8601]);
   ("LowerRightArrow;"%string, [8600]);
   ("loz;"%string, [9674]);
   ("lozenge;"%string, [9674]);
   ("lozf;"%string, [10731]);
   ("lpar;"%string, [40]);
   ("lparlt;"%string, [10643]);
   ("lrarr;"%string, [8646]);
   ("lrcorner;"%string, [8991]);
   ("lrhar;"%string, [8651]);
   ("lrhard;"%string, [10605]);
   ("lrm;"%string, [8206]);
   ("lrtri;"%string, [8895]);
   ("lsaquo;"%string, [8249]);
   ("Lscr;"%string, [8466]);
   ("lscr;"%string, [55349; 56513]);
   ("Lsh;"%string, [8624]);
   ("lsh;"%string, [8624]);
   ("lsim;"%string, [8818])].

Definition entities_07 : list entity :=
  [("lsime;"%string, [10893]);
   ("lsimg;"%string, [10895]);
   ("lsqb;"%string, [91]);
   ("lsquo;"%string, [8216]);
   ("lsquor;"%string, [8218]);
   ("Lstrok;"%string, [321]);
   ("lstrok;"%string, [322]);
   ("LT"%string, [60]);
   ("lt"%string, [60]);
   ("LT;"%string, [60]);
   ("Lt;"%string, [8810]);
   ("lt;"%string, [60]);
   ("ltcc;"%string, [10918]);
   ("ltcir;"%string, [10873]);
   ("ltdot;"%string, [8918]);
   ("lthree;"%string, [8907]);
   ("ltimes;"%string, [8905]);
   ("ltlarr;"%string, [10614]);
   ("ltquest;"%string, [10875]);
   ("ltri;"%string, [9667]);
   ("ltrie;"%string, [8884]);
   ("ltrif;"%string, [9666]);
   ("ltrPar;"%string, [10646]);
   ("lurdshar;"%string, [10570]);
   ("luruhar;"%string, [10598]);
   ("lvertneqq;"%string, [8808; 65024]);
   ("lvnE;"%string, [8808; 65024]);
   ("macr"%string, [175]);
   ("macr;"%string, [175]);
   ("male;"%string, [9794]);
   ("malt;"%string, [10016]);
   ("maltese;"%string, [10016]);
   ("Map;"%string, [10501]);
   ("map;"%string, [8614]);
   ("mapsto;"%string, [8614]);
   ("mapstodown;"%string, [8615]);
   ("mapstoleft;"%string, [8612]);
   ("mapstoup;"%string, [8613]);
   ("marker;"%string, [9646]);
   ("mcomma;"%string, [10793]);
   ("Mcy;"%string, [1052]);
   ("mcy;"%string, [1084]);
   ("mdash;"%string, [8212]);
   ("mDDot;"%string, [8762]);
   ("measuredangle;"%string, [8737]);
   ("MediumSpace;"%string, [8287]);
   ("Mellintrf;"%string, [8499]);
   ("Mfr;"%string, [55349; 56592]);
   ("mfr;"%string, [55349; 56618]);
   ("mho;"%string, [8487]);
   ("micro"%string, [181]);
   ("micro;"%string, [181]);
   ("mid;"%string, [8739]);
   ("midast;"%string, [42]);
   ("midcir;"%string, [10992]);
   ("middot"%string, [183]);
   ("middot;"%string, [183]);
   ("minus;"%string, [8722]);
   ("minusb;"%string, [8863]);
   ("minusd;"%string, [8760]);
   ("minusdu;"%string, [10794]);
   ("MinusPlus;"%string, [8723]);
   ("mlcp;"%string, [10971]);
   ("mldr;"%string, [8230]);
   ("mnplus;"%string, [8723]);
   ("models;"%string, [8871]);
   ("Mopf;"%string, [55349; 56644]);
   ("mopf;"%string, [55349; 56670]);
   ("mp;"%string, [8723]);
   ("Mscr;"%string, [8499]);
   ("mscr;"%string, [55349; 56514]);
   ("mstpos;"%string, [8766]);
   ("Mu;"%string, [924]);
   ("mu;"%string, [956]);
   ("multimap;"%string, [8888]);
   ("mumap;"%string, [8888]);
   ("nabla;"%string, [8711]);
   ("Nacute;"%string, [323]);
   ("nacute;"%string, [324]);
   ("nang;"%string, [8736; 8402]);
   ("nap;"%string, [8777]);
   ("napE;"%string, [10864; 824]);
   ("napid;"%string, [8779; 824]);
   ("napos;"%string, [329]);
   ("napprox;"%string, [8777]);
   ("natur;"%string, [9838]);
   ("natural;"%string, [9838]);
   ("naturals;"%string, [8469]);
   ("nbsp"%string, [160]);
   ("nbsp;"%string, [160]);
   ("nbump;"%string, [8782; 824]);
   ("nbumpe;"%string, [8783; 824]);
   ("ncap;"%string, [10819]);
   ("Ncaron;"%string, [327]);
   ("ncaron;"%string, [328]);
   ("Ncedil;"%string, [325]);
   ("ncedil;"%string, [326]);
   ("ncong;"%string, [8775]);
   ("ncongdot;"%string, [10861; 824]);
   ("ncup;"%string, [10818]);
   ("Ncy;"%string, [1053]);
   ("ncy;"%string, [1085]);
   ("ndash;"%string, [8211]);
   ("ne;"%string, [8800]);
   ("nearhk;"%string, [10532]);
   ("neArr;"%string, [8663]);
   ("nearr;"%string, [8599]);
   ("nearrow;"%string, [8599]);
   ("nedot;"%string, [8784; 824]);
   ("NegativeMediumSpace;"%string, [8203]);
   ("NegativeThickSpace;"%string, [8203]);
   ("NegativeThinSpace;"%string, [8203]);
   ("NegativeVeryThinSpace;"%string, [8203]);
   ("nequiv;"%string, [8802]);
   ("nesear;"%string, [10536]);
   ("nesim;"%string, [8770; 824]);
   ("NestedGreaterGreater;"%string, [8811]);
   ("NestedLessLess;"%string, [8810]);
   ("NewLine;"%string, [10]);
   ("nexist;"%string, [8708]);
   ("nexists;"%string, [8708]);
   ("Nfr;"%string, [55349; 56593]);
   ("nfr;"%string, [55349; 56619]);
   ("ngE;"%string, [8807; 824]);
   ("nge;"%string, [8817]);
   ("ngeq;"%string, [8817]);
   ("ngeqq;"%string, [8807; 824]);
   ("ngeqslant;"%string, [10878; 824]);
   ("nges;"%string, [10878; 824]);
   ("nGg;"%string, [8921; 824]);
   ("ngsim;"%string, [8821]);
   ("nGt;"%string, [8811; 8402]);
   ("ngt;"%string, [8815]);
   ("ngtr;"%string, [8815]);
   ("nGtv;"%string, [8811; 824]);
   ("nhArr;"%string, [8654]);
   ("nharr;"%string, [8622]);
   ("nhpar;"%string, [10994]);
   ("ni;"%string, [8715]);
   ("nis;"%string, [8956]);
   ("nisd;"%string, [8954]);
   ("niv;"%string, [8715]);
   ("NJcy;"%string, [1034]);
   ("njcy;"%string, [1114]);
   ("nlArr;"%string, [8653]);
   ("nlarr;"%string, [8602]);
   ("nldr;"%string, [8229]);
   ("nlE;"%string, [8806; 824]);
   ("nle;"%string, [8816]);
   ("nLeftarrow;"%string, [8653])].

Definition entities_08 : list entity :=
  [("nleftarrow;"%string, [8602]);
   ("nLeftrightarrow;"%string, [8654]);
   ("nleftrightarrow;"%string, [8622]);
   ("nleq;"%string, [8816]);
   ("nleqq;"%string, [8806; 824]);
   ("nleqslant;"%string, [10877; 824]);
   ("nles;"%string, [10877; 824]);
   ("nless;"%string, [8814]);
   ("nLl;"%string, [8920; 824]);
   ("nlsim;"%string, [8820]);
   ("nLt;"%string, [8810; 8402]);
   ("nlt;"%string, [8814]);
   ("nltri;"%string, [8938]);
   ("nltrie;"%string, [8940]);
   ("nLtv;"%string, [8810; 824]);
   ("nmid;"%string, [8740]);
   ("NoBreak;"%string, [8288]);
   ("NonBreakingSpace;"%string, [160]);
   ("Nopf;"%string, [8469]);
   ("nopf;"%string, [55349; 56671]);
   ("not"%string, [172]);
   ("Not;"%string, [10988]);
   ("not;"%string, [172]);
   ("NotCongruent;"%string, [8802]);
   ("NotCupCap;"%string, [8813]);
   ("NotDoubleVerticalBar;"%string, [8742]);
   ("NotElement;"%string, [8713]);
   ("NotEqual;"%string, [8800]);
   ("NotEqualTilde;"%string, [8770; 824]);
   ("NotExists;"%string, [8708]);
   ("NotGreater;"%string, [8815]);
   ("NotGreaterEqual;"%string, [8817]);
   ("NotGreaterFullEqual;"%string, [8807; 824]);
   ("NotGreaterGreater;"%string, [8811; 824]);
   ("NotGreaterLess;"%string, [8825]);
   ("NotGreaterSlantEqual;"%string, [10878; 824]);
   ("NotGreaterTilde;"%string, [8821]);
   ("NotHumpDownHump;"%string, [8782; 824]);
   ("NotHumpEqual;"%string, [8783; 824]);
   ("notin;"%string, [8713]);
   ("notindot;"%string, [8949; 824]);
   ("notinE;"%string, [8953; 824]);
   ("notinva;"%string, [8713]);
   ("notinvb;"%string, [8951]);
   ("notinvc;"%string, [8950]);
   ("NotLeftTriangle;"%string, [8938]);
   ("NotLeftTriangleBar;"%string, [10703; 824]);
   ("NotLeftTriangleEqual;"%string, [8940]);
   ("NotLess;"%string, [8814]);
   ("NotLessEqual;"%string, [8816]);
   ("NotLessGreater;"%string, [8824]);
   ("NotLessLess;"%string, [8810; 824]);
   ("NotLessSlantEqual;"%string, [10877; 824]);
   ("NotLessTilde;"%string, [8820]);
   ("NotNestedGreaterGreater;"%string, [10914; 824]);
   ("NotNestedLessLess;"%string, [10913; 824]);
   ("notni;"%string, [8716]);
   ("notniva;"%string, [8716]);
   ("notnivb;"%string, [8958]);
   ("notnivc;"%string, [8957]);
   ("NotPrecedes;"%string, [8832]);
   ("NotPrecedesEqual;"%string, [10927; 824]);
   ("NotPrecedesSlantEqual;"%string, [8928]);
   ("NotReverseElement;"%string, [8716]);
   ("NotRightTriangle;"%string, [8939]);
   ("NotRightTriangleBar;"%string, [10704; 824]);
   ("NotRightTriangleEqual;"%string, [8941]);
   ("NotSquareSubset;"%string, [8847; 824]);
   ("NotSquareSubsetEqual;"%string, [8930]);
   ("NotSquareSuperset;"%string, [8848; 824]);
   ("NotSquareSupersetEqual;"%string, [8931]);
   ("NotSubset;"%string, [8834; 8402]);
   ("NotSubsetEqual;"%string, [8840]);
   ("NotSucceeds;"%string, [8833]);
   ("NotSucceedsEqual;"%string, [10928; 824]);
   ("NotSucceedsSlantEqual;"%string, [8929]);
   ("NotSucceedsTilde;"%string, [8831; 824]);
   ("NotSuperset;"%string, [8835; 8402]);
   ("NotSupersetEqual;"%string, [8841]);
   ("NotTilde;"%string, [8769]);
   ("NotTildeEqual;"%string, [8772]);
   ("NotTildeFullEqual;"%string, [8775]);
   ("NotTildeTilde;"%string, [8777]);
   ("NotVerticalBar;"%string, [8740]);
   ("npar;"%string, [8742]);
   ("nparallel;"%string, [8742]);
   ("nparsl;"%string, [11005; 8421]);
   ("npart;"%string, [8706; 824]);
   ("npolint;"%string, [10772]);
   ("npr;"%string, [8832]);
   ("nprcue;"%string, [8928]);
   ("npre;"%string, [10927; 824]);
   ("nprec;"%string, [8832]);
   ("npreceq;"%string, [10927; 824]);
   ("nrArr;"%string, [8655]);
   ("nrarr;"%string, [8603]);
   ("nrarrc;"%string, [10547; 824]);
   ("nrarrw;"%string, [8605; 824]);
   ("nRightarrow;"%string, [8655]);
   ("nrightarrow;"%string, [8603]);
   ("nrtri;"%string, [8939]);
   ("nrtrie;"%string, [8941]);
   ("nsc;"%string, [8833]);
   ("nsccue;"%string, [8929]);
   ("nsce;"%string, [10928; 824]);
   ("Nscr;"%string, [55349; 56489]);
   ("nscr;"%string, [55349; 56515]);
   ("nshortmid;"%string, [8740]);
   ("nshortparallel;"%string, [8742]);
   ("nsim;"%string, [8769]);
   ("nsime;"%string, [8772]);
   ("nsimeq;"%string, [8772]);
   ("nsmid;"%string, [8740]);
   ("nspar;"%string, [8742]);
   ("nsqsube;"%string, [8930]);
   ("nsqsupe;"%string, [8931]);
   ("nsub;"%string, [8836]);
   ("nsubE;"%string, [10949; 824]);
   ("nsube;"%string, [8840]);
   ("nsubset;"%string, [8834; 8402]);
   ("nsubseteq;"%string, [8840]);
   ("nsubseteqq;"%string, [10949; 824]);
   ("nsucc;"%string, [8833]);
   ("nsucceq;"%string, [10928; 824]);
   ("nsup;"%string, [8837]);
   ("nsupE;"%string, [10950; 824]);
   ("nsupe;"%string, [8841]);
   ("nsupset;"%string, [8835; 8402]);
   ("nsupseteq;"%string, [8841]);
   ("nsupseteqq;"%string, [10950; 824]);
   ("ntgl;"%string, [8825]);
   ("Ntilde"%string, [209]);
   ("ntilde"%string, [241]);
   ("Ntilde;"%string, [209]);
   ("ntilde;"%string, [241]);
   ("ntlg;"%string, [8824]);
   ("ntriangleleft;"%string, [8938]);
   ("ntrianglelefteq;"%string, [8940]);
   ("ntriangleright;"%string, [8939]);
   ("ntrianglerighteq;"%string, [8941]);
   ("Nu;"%string, [925]);
   ("nu;"%string, [957]);
   ("num;"%string, [35]);
   ("numero;"%string, [8470]);
   ("numsp;"%string, [8199]);
   ("nvap;"%string, [8781; 8402]);
   ("nVDash;"%string, [8879]);
   ("nVdash;"%string, [8878]);
   ("nvDash;"%string, [8877]);
   ("nvdash;"%string, [8876])].

Definition entities_09 : list entity :=
  [("nvge;"%string, [8805; 8402]);
   ("nvgt;"%string, [62; 8402]);
   ("nvHarr;"%string, [10500]);
   ("nvinfin;"%string, [10718]);
   ("nvlArr;"%string, [10498]);
   ("nvle;"%string, [8804; 8402]);
   ("nvlt;"%string, [60; 8402]);
   ("nvltrie;"%string, [8884; 8402]);
   ("nvrArr;"%string, [10499]);
   ("nvrtrie;"%string, [8885; 8402]);
   ("nvsim;"%string, [8764; 8402]);
   ("nwarhk;"%string, [10531]);
   ("nwArr;"%string, [8662]);
   ("nwarr;"%string, [8598]);
   ("nwarrow;"%string, [8598]);
   ("nwnear;"%string, [10535]);
   ("Oacute"%string, [211]);
   ("oacute"%string, [243]);
   ("Oacute;"%string, [211]);
   ("oacute;"%string, [243]);
   ("oast;"%string, [8859]);
   ("ocir;"%string, [8858]);
   ("Ocirc"%string, [212]);
   ("ocirc"%string, [244]);
   ("Ocirc;"%string, [212]);
   ("ocirc;"%string, [244]);
   ("Ocy;"%string, [1054]);
   ("ocy;"%string, [1086]);
   ("odash;"%string, [8861]);
   ("Odblac;"%string, [336]);
   ("odblac;"%string, [337]);
   ("odiv;"%string, [10808]);
   ("odot;"%string, [8857]);
   ("odsold;"%string, [10684]);
   ("OElig;"%string, [338]);
   ("oelig;"%string, [339]);
   ("ofcir;"%string, [10687]);
   ("Ofr;"%string, [55349; 56594]);
   ("ofr;"%string, [55349; 56620]);
   ("ogon;"%string, [731]);
   ("Ograve"%string, [210]);
   ("ograve"%string, [242]);
   ("Ograve;"%string, [210]);
   ("ograve;"%string, [242]);
   ("ogt;"%string, [10689]);
   ("ohbar;"%string, [10677]);
   ("ohm;"%string, [937]);
   ("oint;"%string, [8750]);
   ("olarr;"%string, [8634]);
   ("olcir;"%string, [10686]);
   ("olcross;"%string, [10683]);
   ("oline;"%string, [8254]);
   ("olt;"%string, [10688]);
   ("Omacr;"%string, [332]);
   ("omacr;"%string, [333]);
   ("Omega;"%string, [937]);
   ("omega;"%string, [969]);
   ("Omicron;"%string, [927]);
   ("omicron;"%string, [959]);
   ("omid;"%string, [10678]);
   ("ominus;"%string, [8854]);
   ("Oopf;"%string, [55349; 56646]);
   ("oopf;"%string, [55349; 56672]);
   ("opar;"%string, [10679]);
   ("OpenCurlyDoubleQuote;"%string, [8220]);
   ("OpenCurlyQuote;"%string, [8216]);
   ("operp;"%string, [10681]);
   ("oplus;"%string, [8853]);
   ("Or;"%string, [10836]);
   ("or;"%string, [8744]);
   ("orarr;"%string, [8635]);
   ("ord;"%string, [10845]);
   ("order;"%string, [8500]);
   ("orderof;"%string, [8500]);
   ("ordf"%string, [170]);
   ("ordf;"%string, [170]);
   ("ordm"%string, [186]);
   ("ordm;"%string, [186]);
   ("origof;"%string, [8886]);
   ("oror;"%string, [10838]);
   ("orslope;"%string, [10839]);
   ("orv;"%string, [10843]);
   ("oS;"%string, [9416]);
   ("Oscr;"%string, [55349; 56490]);
   ("oscr;"%string, [8500]);
   ("Oslash"%string, [216]);
   ("oslash"%string, [248]);
   ("Oslash;"%string, [216]);
   ("oslash;"%string, [248]);
   ("osol;"%string, [8856]);
   ("Otilde"%string, [213]);
   ("otilde"%string, [245]);
   ("Otilde;"%string, [213]);
   ("otilde;"%string, [245]);
   ("Otimes;"%string, [10807]);
   ("otimes;"%string, [8855]);
   ("otimesas;"%string, [10806]);
   ("Ouml"%string, [214]);
   ("ouml"%string, [246]);
   ("Ouml;"%string, [214]);
   ("ouml;"%string, [246]);
   ("ovbar;"%string, [9021]);
   ("OverBar;"%string, [8254]);
   ("OverBrace;"%string, [9182]);
   ("OverBracket;"%string, [9140]);
   ("OverParenthesis;"%string, [9180]);
   ("par;"%string, [8741]);
   ("para"%string, [182]);
   ("para;"%string, [182]);
   ("parallel;"%string, [8741]);
   ("parsim;"%string, [10995]);
   ("parsl;"%string, [11005]);
   ("part;"%string, [8706]);
   ("PartialD;"%string, [8706]);
   ("Pcy;"%string, [1055]);
   ("pcy;"%string, [1087]);
   ("percnt;"%string, [37]);
   ("period;"%string, [46]);
   ("permil;"%string, [8240]);
   ("perp;"%string, [8869]);
   ("pertenk;"%string, [8241]);
   ("Pfr;"%string, [55349; 56595]);
   ("pfr;"%string, [55349; 56621]);
   ("Phi;"%string, [934]);
   ("phi;"%string, [966]);
   ("phiv;"%string, [981]);
   ("phmmat;"%string, [8499]);
   ("phone;"%string, [9742]);
   ("Pi;"%string, [928]);
   ("pi;"%string, [960]);
   ("pitchfork;"%string, [8916]);
   ("piv;"%string, [982]);
   ("planck;"%string, [8463]);
   ("planckh;"%string, [8462]);
   ("plankv;"%string, [8463]);
   ("plus;"%string, [43]);
   ("plusacir;"%string, [10787]);
   ("plusb;"%string, [8862]);
   ("pluscir;"%string, [10786]);
   ("plusdo;"%string, [8724]);
   ("plusdu;"%string, [10789]);
   ("pluse;"%string, [10866]);
   ("PlusMinus;"%string, [177]);
   ("plusmn"%string, [177]);
   ("plusmn;"%string, [177]);
   ("plussim;"%string, [10790]);
   ("plustwo;"%string, [10791]);
   ("pm;"%string, [177]);
   ("Poincareplane;"%string, [8460]);
   ("pointint;"%string, [10773])].

Definition entities_10 : list entity :=
  [("Popf;"%string, [8473]);
   ("popf;"%string, [55349; 56673]);
   ("pound"%string, [163]);
   ("pound;"%string, [163]);
   ("Pr;"%string, [10939]);
   ("pr;"%string, [8826]);
   ("prap;"%string, [10935]);
   ("prcue;"%string, [8828]);
   ("prE;"%string, [10931]);
   ("pre;"%string, [10927]);
   ("prec;"%string, [8826]);
   ("precapprox;"%string, [10935]);
   ("preccurlyeq;"%string, [8828]);
   ("Precedes;"%string, [8826]);
   ("PrecedesEqual;"%string, [10927]);
   ("PrecedesSlantEqual;"%string, [8828]);
   ("PrecedesTilde;"%string, [8830]);
   ("preceq;"%string, [10927]);
   ("precnapprox;"%string, [10937]);
   ("precneqq;"%string, [10933]);
   ("precnsim;"%string, [8936]);
   ("precsim;"%string, [8830]);
   ("Prime;"%string, [8243]);
   ("prime;"%string, [8242]);
   ("primes;"%string, [8473]);
   ("prnap;"%string, [10937]);
   ("prnE;"%string, [10933]);
   ("prnsim;"%string, [8936]);
   ("prod;"%string, [8719]);
   ("Product;"%string, [8719]);
   ("profalar;"%string, [9006]);
   ("profline;"%string, [8978]);
   ("profsurf;"%string, [8979]);
   ("prop;"%string, [8733]);
   ("Proportion;"%string, [8759]);
   ("Proportional;"%string, [8733]);
   ("propto;"%string, [8733]);
   ("prsim;"%string, [8830]);
   ("prurel;"%string, [8880]);
   ("Pscr;"%string, [55349; 56491]);
   ("pscr;"%string, [55349; 56517]);
   ("Psi;"%string, [936]);
   ("psi;"%string, [968]);
   ("puncsp;"%string, [8200]);
   ("Qfr;"%string, [55349; 56596]);
   ("qfr;"%string, [55349; 56622]);
   ("qint;"%string, [10764]);
   ("Qopf;"%string, [8474]);
   ("qopf;"%string, [55349; 56674]);
   ("qprime;"%string, [8279]);
   ("Qscr;"%string, [55349; 56492]);
   ("qscr;"%string, [55349; 56518]);
   ("quaternions;"%string, [8461]);
   ("quatint;"%string, [10774]);
   ("quest;"%string, [63]);
   ("questeq;"%string, [8799]);
   ("QUOT"%string, [34]);
   ("quot"%string, [34]);
   ("QUOT;"%string, [34]);
   ("quot;"%string, [34]);
   ("rAarr;"%string, [8667]);
   ("race;"%string, [8765; 817]);
   ("Racute;"%string, [340]);
   ("racute;"%string, [341]);
   ("radic;"%string, [8730]);
   ("raemptyv;"%string, [10675]);
   ("Rang;"%string, [10219]);
   ("rang;"%string, [10217]);
   ("rangd;"%string, [10642]);
   ("range;"%string, [10661]);
   ("rangle;"%string, [10217]);
   ("raquo"%string, [187]);
   ("raquo;"%string, [187]);
   ("Rarr;"%string, [8608]);
   ("rArr;"%string, [8658]);
   ("rarr;"%string, [8594]);
   ("rarrap;"%string, [10613]);
   ("rarrb;"%string, [8677]);
   ("rarrbfs;"%string, [10528]);
   ("rarrc;"%string, [10547]);
   ("rarrfs;"%string, [10526]);
   ("rarrhk;"%string, [8618]);
   ("rarrlp;"%string, [8620]);
   ("rarrpl;"%string, [10565]);
   ("rarrsim;"%string, [10612]);
   ("Rarrtl;"%string, [10518]);
   ("rarrtl;"%string, [8611]);
   ("rarrw;"%string, [8605]);
   ("rAtail;"%string, [10524]);
   ("ratail;"%string, [10522]);
   ("ratio;"%string, [8758]);
   ("rationals;"%string, [8474]);
   ("RBarr;"%string, [10512]);
   ("rBarr;"%string, [10511]);
   ("rbarr;"%string, [10509]);
   ("rbbrk;"%string, [10099]);
   ("rbrace;"%string, [125]);
   ("rbrack;"%string, [93]);
   ("rbrke;"%string, [10636]);
   ("rbrksld;"%string, [10638]);
   ("rbrkslu;"%string, [10640]);
   ("Rcaron;"%string, [344]);
   ("rcaron;"%string, [345]);
   ("Rcedil;"%string, [342]);
   ("rcedil;"%string, [343]);
   ("rceil;"%string, [8969]);
   ("rcub;"%string, [125]);
   ("Rcy;"%string, [1056]);
   ("rcy;"%string, [1088]);
   ("rdca;"%string, [10551]);
   ("rdldhar;"%string, [10601]);
   ("rdquo;"%string, [8221]);
   ("rdquor;"%string, [8221]);
   ("rdsh;"%string, [8627]);
   ("Re;"%string, [8476]);
   ("real;"%string, [8476]);
   ("realine;"%string, [8475]);
   ("realpart;"%string, [8476]);
   ("reals;"%string, [8477]);
   ("rect;"%string, [9645]);
   ("REG"%string, [174]);
   ("reg"%string, [174]);
   ("REG;"%string, [174]);
   ("reg;"%string, [174]);
   ("ReverseElement;"%string, [8715]);
   ("ReverseEquilibrium;"%string, [8651]);
   ("ReverseUpEquilibrium;"%string, [10607]);
   ("rfisht;"%string, [10621]);
   ("rfloor;"%string, [8971]);
   ("Rfr;"%string, [8476]);
   ("rfr;"%string, [55349; 56623]);
   ("rHar;"%string, [10596]);
   ("rhard;"%string, [8641]);
   ("rharu;"%string, [8640]);
   ("rharul;"%string, [10604]);
   ("Rho;"%string, [929]);
   ("rho;"%string, [961]);
   ("rhov;"%string, [1009]);
   ("RightAngleBracket;"%string, [10217]);
   ("RightArrow;"%string, [8594]);
   ("Rightarrow;"%string, [8658]);
   ("rightarrow;"%string, [8594]);
   ("RightArrowBar;"%string, [8677]);
   ("RightArrowLeftArrow;"%string, [8644]);
   ("rightarrowtail;"%string, [8611]);
   ("RightCeiling;"%string, [8969]);
   ("RightDoubleBracket;"%string, [10215]);
   ("RightDownTeeVector;"%string, [10589]);
   ("RightDownVector;"%string, [8642]);
   ("RightDownVectorBar;"%string, [10581])].

Definition entities_11 : list entity :=
  [("RightFloor;"%string, [8971]);
   ("rightharpoondown;"%string, [8641]);
   ("rightharpoonup;"%string, [8640]);
   ("rightleftarrows;"%string, [8644]);
   ("rightleftharpoons;"%string, [8652]);
   ("rightrightarrows;"%string, [8649]);
   ("rightsquigarrow;"%string, [8605]);
   ("RightTee;"%string, [8866]);
   ("RightTeeArrow;"%string, [8614]);
   ("RightTeeVector;"%string, [10587]);
   ("rightthreetimes;"%string, [8908]);
   ("RightTriangle;"%string, [8883]);
   ("RightTriangleBar;"%string, [10704]);
   ("RightTriangleEqual;"%string, [8885]);
   ("RightUpDownVector;"%string, [10575]);
   ("RightUpTeeVector;"%string, [10588]);
   ("RightUpVector;"%string, [8638]);
   ("RightUpVectorBar;"%string, [10580]);
   ("RightVector;"%string, [8640]);
   ("RightVectorBar;"%string, [10579]);
   ("ring;"%string, [730]);
   ("risingdotseq;"%string, [8787]);
   ("rlarr;"%string, [8644]);
   ("rlhar;"%string, [8652]);
   ("rlm;"%string, [8207]);
   ("rmoust;"%string, [9137]);
   ("rmoustache;"%string, [9137]);
   ("rnmid;"%string, [10990]);
   ("roang;"%string, [10221]);
   ("roarr;"%string, [8702]);
   ("robrk;"%string, [10215]);
   ("ropar;"%string, [10630]);
   ("Ropf;"%string, [8477]);
   ("ropf;"%string, [55349; 56675]);
   ("roplus;"%string, [10798]);
   ("rotimes;"%string, [10805]);
   ("RoundImplies;"%string, [10608]);
   ("rpar;"%string, [41]);
   ("rpargt;"%string, [10644]);
   ("rppolint;"%string, [10770]);
   ("rrarr;"%string, [8649]);
   ("Rrightarrow;"%string, [8667]);
   ("rsaquo;"%string, [8250]);
   ("Rscr;"%string, [8475]);
   ("rscr;"%string, [55349; 56519]);
   ("Rsh;"%string, [8625]);
   ("rsh;"%string, [8625]);
   ("rsqb;"%string, [93]);
   ("rsquo;"%string, [8217]);
   ("rsquor;"%string, [8217]);
   ("rthree;"%string, [8908]);
   ("rtimes;"%string, [8906]);
   ("rtri;"%string, [9657]);
   ("rtrie;"%string, [8885]);
   ("rtrif;"%string, [9656]);
   ("rtriltri;"%string, [10702]);
   ("RuleDelayed;"%string, [10740]);
   ("ruluhar;"%string, [10600]);
   ("rx;"%string, [8478]);
   ("Sacute;"%string, [346]);
   ("sacute;"%string, [347]);
   ("sbquo;"%string, [8218]);
   ("Sc;"%string, [10940]);
   ("sc;"%string, [8827]);
   ("scap;"%string, [10936]);
   ("Scaron;"%string, [352]);
   ("scaron;"%string, [353]);
   ("sccue;"%string, [8829]);
   ("scE;"%string, [10932]);
   ("sce;"%string, [10928]);
   ("Scedil;"%string, [350]);
   ("scedil;"%string, [351]);
   ("Scirc;"%string, [348]);
   ("scirc;"%string, [349]);
   ("scnap;"%string, [10938]);
   ("scnE;"%string, [10934]);
   ("scnsim;"%string, [8937]);
   ("scpolint;"%string, [10771]);
   ("scsim;"%string, [8831]);
   ("Scy;"%string, [1057]);
   ("scy;"%string, [1089]);
   ("sdot;"%string, [8901]);
   ("sdotb;"%string, [8865]);
   ("sdote;"%string, [10854]);
   ("searhk;"%string, [10533]);
   ("seArr;"%string, [8664]);
   ("searr;"%string, [8600]);
   ("searrow;"%string, [8600]);
   ("sect"%string, [167]);
   ("sect;"%string, [167]);
   ("semi;"%string, [59]);
   ("seswar;"%string, [10537]);
   ("setminus;"%string, [8726]);
   ("setmn;"%string, [8726]);
   ("sext;"%string, [10038]);
   ("Sfr;"%string, [55349; 56598]);
   ("sfr;"%string, [55349; 56624]);
   ("sfrown;"%string, [8994]);
   ("sharp;"%string, [9839]);
   ("SHCHcy;"%string, [1065]);
   ("shchcy;"%string, [1097]);
   ("SHcy;"%string, [1064]);
   ("shcy;"%string, [1096]);
   ("ShortDownArrow;"%string, [8595]);
   ("ShortLeftArrow;"%string, [8592]);
   ("shortmid;"%string, [8739]);
   ("shortparallel;"%string, [8741]);
   ("ShortRightArrow;"%string, [8594]);
   ("ShortUpArrow;"%string, [8593]);
   ("shy"%string, [173]);
   ("shy;"%string, [173]);
   ("Sigma;"%string, [931]);
   ("sigma;"%string, [963]);
   ("sigmaf;"%string, [962]);
   ("sigmav;"%string, [962]);
   ("sim;"%string, [8764]);
   ("simdot;"%string, [10858]);
   ("sime;"%string, [8771]);
   ("simeq;"%string, [8771]);
   ("simg;"%string, [10910]);
   ("simgE;"%string, [10912]);
   ("siml;"%string, [10909]);
   ("simlE;"%string, [10911]);
   ("simne;"%string, [8774]);
   ("simplus;"%string, [10788]);
   ("simrarr;"%string, [10610]);
   ("slarr;"%string, [8592]);
   ("SmallCircle;"%string, [8728]);
   ("smallsetminus;"%string, [8726]);
   ("smashp;"%string, [10803]);
   ("smeparsl;"%string, [10724]);
   ("smid;"%string, [8739]);
   ("smile;"%string, [8995]);
   ("smt;"%string, [10922]);
   ("smte;"%string, [10924]);
   ("smtes;"%string, [10924; 65024]);
   ("SOFTcy;"%string, [1068]);
   ("softcy;"%string, [1100]);
   ("sol;"%string, [47]);
   ("solb;"%string, [10692]);
   ("solbar;"%string, [9023]);
   ("Sopf;"%string, [55349; 56650]);
   ("sopf;"%string, [55349; 56676]);
   ("spades;"%string, [9824]);
   ("spadesuit;"%string, [9824]);
   ("spar;"%string, [8741]);
   ("sqcap;"%string, [8851]);
   ("sqcaps;"%string, [8851; 65024]);
   ("sqcup;"%string, [8852]);
   ("sqcups;"%string, [8852; 65024])].

Definition entities_12 : list entity :=
  [("Sqrt;"%string, [8730]);
   ("sqsub;"%string, [8847]);
   ("sqsube;"%string, [8849]);
   ("sqsubset;"%string, [8847]);
   ("sqsubseteq;"%string, [8849]);
   ("sqsup;"%string, [8848]);
   ("sqsupe;"%string, [8850]);
   ("sqsupset;"%string, [8848]);
   ("sqsupseteq;"%string, [8850]);
   ("squ;"%string, [9633]);
   ("Square;"%string, [9633]);
   ("square;"%string, [9633]);
   ("SquareIntersection;"%string, [8851]);
   ("SquareSubset;"%string, [8847]);
   ("SquareSubsetEqual;"%string, [8849]);
   ("SquareSuperset;"%string, [8848]);
   ("SquareSupersetEqual;"%string, [8850]);
   ("SquareUnion;"%string, [8852]);
   ("squarf;"%string, [9642]);
   ("squf;"%string, [9642]);
   ("srarr;"%string, [8594]);
   ("Sscr;"%string, [55349; 56494]);
   ("sscr;"%string, [55349; 56520]);
   ("ssetmn;"%string, [8726]);
   ("ssmile;"%string, [8995]);
   ("sstarf;"%string, [8902]);
   ("Star;"%string, [8902]);
   ("star;"%string, [9734]);
   ("starf;"%string, [9733]);
   ("straightepsilon;"%string, [1013]);
   ("straightphi;"%string, [981]);
   ("strns;"%string, [175]);
   ("Sub;"%string, [8912]);
   ("sub;"%string, [8834]);
   ("subdot;"%string, [10941]);
   ("subE;"%string, [10949]);
   ("sube;"%string, [8838]);
   ("subedot;"%string, [10947]);
   ("submult;"%string, [10945]);
   ("subnE;"%string, [10955]);
   ("subne;"%string, [8842]);
   ("subplus;"%string, [10943]);
   ("subrarr;"%string, [10617]);
   ("Subset;"%string, [8912]);
   ("subset;"%string, [8834]);
   ("subseteq;"%string, [8838]);
   ("subseteqq;"%string, [10949]);
   ("SubsetEqual;"%string, [8838]);
   ("subsetneq;"%string, [8842]);
   ("subsetneqq;"%string, [10955]);
   ("subsim;"%string, [10951]);
   ("subsub;"%string, [10965]);
   ("subsup;"%string, [10963]);
   ("succ;"%string, [8827]);
   ("succapprox;"%string, [10936]);
   ("succcurlyeq;"%string, [8829]);
   ("Succeeds;"%string, [8827]);
   ("SucceedsEqual;"%string, [10928]);
   ("SucceedsSlantEqual;"%string, [8829]);
   ("SucceedsTilde;"%string, [8831]);
   ("succeq;"%string, [10928]);
   ("succnapprox;"%string, [10938]);
   ("succneqq;"%string, [10934]);
   ("succnsim;"%string, [8937]);
   ("succsim;"%string, [8831]);
   ("SuchThat;"%string, [8715]);
   ("Sum;"%string, [8721]);
   ("sum;"%string, [8721]);
   ("sung;"%string, [9834]);
   ("sup1"%string, [185]);
   ("sup1;"%string, [185]);
   ("sup2"%string, [178]);
   ("sup2;"%string, [178]);
   ("sup3"%string, [179]);
   ("sup3;"%string, [179]);
   ("Sup;"%string, [8913]);
   ("sup;"%string, [8835]);
   ("supdot;"%string, [10942]);
   ("supdsub;"%string, [10968]);
   ("supE;"%string, [10950]);
   ("supe;"%string, [8839]);
   ("supedot;"%string, [10948]);
   ("Superset;"%string, [8835]);
   ("SupersetEqual;"%string, [8839]);
   ("suphsol;"%string, [10185]);
   ("suphsub;"%string, [10967]);
   ("suplarr;"%string, [10619]);
   ("supmult;"%string, [10946]);
   ("supnE;"%string, [10956]);
   ("supne;"%string, [8843]);
   ("supplus;"%string, [10944]);
   ("Supset;"%string, [8913]);
   ("supset;"%string, [8835]);
   ("supseteq;"%string, [8839]);
   ("supseteqq;"%string, [10950]);
   ("supsetneq;"%string, [8843]);
   ("supsetneqq;"%string, [10956]);
   ("supsim;"%string, [10952]);
   ("supsub;"%string, [10964]);
   ("supsup;"%string, [10966]);
   ("swarhk;"%string, [10534]);
   ("swArr;"%string, [8665]);
   ("swarr;"%string, [8601]);
   ("swarrow;"%string, [8601]);
   ("swnwar;"%string, [10538]);
   ("szlig"%string, [223]);
   ("szlig;"%string, [223]);
   ("Tab;"%string, [9]);
   ("target;"%string, [8982]);
   ("Tau;"%string, [932]);
   ("tau;"%string, [964]);
   ("tbrk;"%string, [9140]);
   ("Tcaron;"%string, [356]);
   ("tcaron;"%string, [357]);
   ("Tcedil;"%string, [354]);
   ("tcedil;"%string, [355]);
   ("Tcy;"%string, [1058]);
   ("tcy;"%string, [1090]);
   ("tdot;"%string, [8411]);
   ("telrec;"%string, [8981]);
   ("Tfr;"%string, [55349; 56599]);
   ("tfr;"%string, [55349; 56625]);
   ("there4;"%string, [8756]);
   ("Therefore;"%string, [8756]);
   ("therefore;"%string, [8756]);
   ("Theta;"%string, [920]);
   ("theta;"%string, [952]);
   ("thetasym;"%string, [977]);
   ("thetav;"%string, [977]);
   ("thickapprox;"%string, [8776]);
   ("thicksim;"%string, [8764]);
   ("ThickSpace;"%string, [8287; 8202]);
   ("thinsp;"%string, [8201]);
   ("ThinSpace;"%string, [8201]);
   ("thkap;"%string, [8776]);
   ("thksim;"%string, [8764]);
   ("THORN"%string, [222]);
   ("thorn"%string, [254]);
   ("THORN;"%string, [222]);
   ("thorn;"%string, [254]);
   ("Tilde;"%string, [8764]);
   ("tilde;"%string, [732]);
   ("TildeEqual;"%string, [8771]);
   ("TildeFullEqual;"%string, [8773]);
   ("TildeTilde;"%string, [8776]);
   ("times"%string, [215]);
   ("times;"%string, [215]);
   ("timesb;"%string, [8864]);
   ("timesbar;"%string, [10801]);
   ("timesd;"%string, [10800])].

Definition entities_13 : list entity :=
  [("tint;"%string, [8749]);
   ("toea;"%string, [10536]);
   ("top;"%string, [8868]);
   ("topbot;"%string, [9014]);
   ("topcir;"%string, [10993]);
   ("Topf;"%string, [55349; 56651]);
   ("topf;"%string, [55349; 56677]);
   ("topfork;"%string, [10970]);
   ("tosa;"%string, [10537]);
   ("tprime;"%string, [8244]);
   ("TRADE;"%string, [8482]);
   ("trade;"%string, [8482]);
   ("triangle;"%string, [9653]);
   ("triangledown;"%string, [9663]);
   ("triangleleft;"%string, [9667]);
   ("trianglelefteq;"%string, [8884]);
   ("triangleq;"%string, [8796]);
   ("triangleright;"%string, [9657]);
   ("trianglerighteq;"%string, [8885]);
   ("tridot;"%string, [9708]);
   ("trie;"%string, [8796]);
   ("triminus;"%string, [10810]);
   ("TripleDot;"%string, [8411]);
   ("triplus;"%string, [10809]);
   ("trisb;"%string, [10701]);
   ("tritime;"%string, [10811]);
   ("trpezium;"%string, [9186]);
   ("Tscr;"%string, [55349; 56495]);
   ("tscr;"%string, [55349; 56521]);
   ("TScy;"%string, [1062]);
   ("tscy;"%string, [1094]);
   ("TSHcy;"%string, [1035]);
   ("tshcy;"%string, [1115]);
   ("Tstrok;"%string, [358]);
   ("tstrok;"%string, [359]);
   ("twixt;"%string, [8812]);
   ("twoheadleftarrow;"%string, [8606]);
   ("twoheadrightarrow;"%string, [8608]);
   ("Uacute"%string, [218]);
   ("uacute"%string, [250]);
   ("Uacute;"%string, [218]);
   ("uacute;"%string, [250]);
   ("Uarr;"%string, [8607]);
   ("uArr;"%string, [8657]);
   ("uarr;"%string, [8593]);
   ("Uarrocir;"%string, [10569]);
   ("Ubrcy;"%string, [1038]);
   ("ubrcy;"%string, [1118]);
   ("Ubreve;"%string, [364]);
   ("ubreve;"%string, [365]);
   ("Ucirc"%string, [219]);
   ("ucirc"%string, [251]);
   ("Ucirc;"%string, [219]);
   ("ucirc;"%string, [251]);
   ("Ucy;"%string, [1059]);
   ("ucy;"%string, [1091]);
   ("udarr;"%string, [8645]);
   ("Udblac;"%string, [368]);
   ("udblac;"%string, [369]);
   ("udhar;"%string, [10606]);
   ("ufisht;"%string, [10622]);
   ("Ufr;"%string, [55349; 56600]);
   ("ufr;"%string, [55349; 56626]);
   ("Ugrave"%string, [217]);
   ("ugrave"%string, [249]);
   ("Ugrave;"%string, [217]);
   ("ugrave;"%string, [249]);
   ("uHar;"%string, [10595]);
   ("uharl;"%string, [8639]);
   ("uharr;"%string, [8638]);
   ("uhblk;"%string, [9600]);
   ("ulcorn;"%string, [8988]);
   ("ulcorner;"%string, [8988]);
   ("ulcrop;"%string, [8975]);
   ("ultri;"%string, [9720]);
   ("Umacr;"%string, [362]);
   ("umacr;"%string, [363]);
   ("uml"%string, [168]);
   ("uml;"%string, [168]);
   ("UnderBar;"%string, [95]);
   ("UnderBrace;"%string, [9183]);
   ("UnderBracket;"%string, [9141]);
   ("UnderParenthesis;"%string, [9181]);
   ("Union;"%string, [8899]);
   ("UnionPlus;"%string, [8846]);
   ("Uogon;"%string, [370]);
   ("uogon;"%string, [371]);
   ("Uopf;"%string, [55349; 56652]);
   ("uopf;"%string, [55349; 56678]);
   ("UpArrow;"%string, [8593]);
   ("Uparrow;"%string, [8657]);
   ("uparrow;"%string, [8593]);
   ("UpArrowBar;"%string, [10514]);
   ("UpArrowDownArrow;"%string, [8645]);
   ("UpDownArrow;"%string, [8597]);
   ("Updownarrow;"%string, [8661]);
   ("updownarrow;"%string, [8597]);
   ("UpEquilibrium;"%string, [10606]);
   ("upharpoonleft;"%string, [8639]);
   ("upharpoonright;"%string, [8638]);
   ("uplus;"%string, [8846]);
   ("UpperLeftArrow;"%string, [8598]);
   ("UpperRightArrow;"%string, [8599]);
   ("Upsi;"%string, [978]);
   ("upsi;"%string, [965]);
   ("upsih;"%string, [978]);
   ("Upsilon;"%string, [933]);
   ("upsilon;"%string, [965]);
   ("UpTee;"%string, [8869]);
   ("UpTeeArrow;"%string, [8613]);
   ("upuparrows;"%string, [8648]);
   ("urcorn;"%string, [8989]);
   ("urcorner;"%string, [8989]);
   ("urcrop;"%string, [8974]);
   ("Uring;"%string, [366]);
   ("uring;"%string, [367]);
   ("urtri;"%string, [9721]);
   ("Uscr;"%string, [55349; 56496]);
   ("uscr;"%string, [55349; 56522]);
   ("utdot;"%string, [8944]);
   ("Utilde;"%string, [360]);
   ("utilde;"%string, [361]);
   ("utri;"%string, [9653]);
   ("utrif;"%string, [9652]);
   ("uuarr;"%string, [8648]);
   ("Uuml"%string, [220]);
   ("uuml"%string, [252]);
   ("Uuml;"%string, [220]);
   ("uuml;"%string, [252]);
   ("uwangle;"%string, [10663]);
   ("vangrt;"%string, [10652]);
   ("varepsilon;"%string, [1013]);
   ("varkappa;"%string, [1008]);
   ("varnothing;"%string, [8709]);
   ("varphi;"%string, [981]);
   ("varpi;"%string, [982]);
   ("varpropto;"%string, [8733]);
   ("vArr;"%string, [8661]);
   ("varr;"%string, [8597]);
   ("varrho;"%string, [1009]);
   ("varsigma;"%string, [962]);
   ("varsubsetneq;"%string, [8842; 65024]);
   ("varsubsetneqq;"%string, [10955; 65024]);
   ("varsupsetneq;"%string, [8843; 65024]);
   ("varsupsetneqq;"%string, [10956; 65024]);
   ("vartheta;"%string, [977]);
   ("vartriangleleft;"%string, [8882]);
   ("vartriangleright;"%string, [8883]);
   ("Vbar;"%string, [10987]);
   ("vBar;"%string, [10984])].

Definition entities_14 : list entity :=
  [("vBarv;"%string, [10985]);
   ("Vcy;"%string, [1042]);
   ("vcy;"%string, [1074]);
   ("VDash;"%string, [8875]);
   ("Vdash;"%string, [8873]);
   ("vDash;"%string, [8872]);
   ("vdash;"%string, [8866]);
   ("Vdashl;"%string, [10982]);
   ("Vee;"%string, [8897]);
   ("vee;"%string, [8744]);
   ("veebar;"%string, [8891]);
   ("veeeq;"%string, [8794]);
   ("vellip;"%string, [8942]);
   ("Verbar;"%string, [8214]);
   ("verbar;"%string, [124]);
   ("Vert;"%string, [8214]);
   ("vert;"%string, [124]);
   ("VerticalBar;"%string, [8739]);
   ("VerticalLine;"%string, [124]);
   ("VerticalSeparator;"%string, [10072]);
   ("VerticalTilde;"%string, [8768]);
   ("VeryThinSpace;"%string, [8202]);
   ("Vfr;"%string, [55349; 56601]);
   ("vfr;"%string, [55349; 56627]);
   ("vltri;"%string, [8882]);
   ("vnsub;"%string, [8834; 8402]);
   ("vnsup;"%string, [8835; 8402]);
   ("Vopf;"%string, [55349; 56653]);
   ("vopf;"%string, [55349; 56679]);
   ("vprop;"%string, [8733]);
   ("vrtri;"%string, [8883]);
   ("Vscr;"%string, [55349; 56497]);
   ("vscr;"%string, [55349; 56523]);
   ("vsubnE;"%string, [10955; 65024]);
   ("vsubne;"%string, [8842; 65024]);
   ("vsupnE;"%string, [10956; 65024]);
   ("vsupne;"%string, [8843; 65024]);
   ("Vvdash;"%string, [8874]);
   ("vzigzag;"%string, [10650]);
   ("Wcirc;"%string, [372]);
   ("wcirc;"%string, [373]);
   ("wedbar;"%string, [10847]);
   ("Wedge;"%string, [8896]);
   ("wedge;"%string, [8743]);
   ("wedgeq;"%string, [8793]);
   ("weierp;"%string, [8472]);
   ("Wfr;"%string, [55349; 56602]);
   ("wfr;"%string, [55349; 56628]);
   ("Wopf;"%string, [55349; 56654]);
   ("wopf;"%string, [55349; 56680]);
   ("wp;"%string, [8472]);
   ("wr;"%string, [8768]);
   ("wreath;"%string, [8768]);
   ("Wscr;"%string, [55349; 56498]);
   ("wscr;"%string, [55349; 56524]);
   ("xcap;"%string, [8898]);
   ("xcirc;"%string, [9711]);
   ("xcup;"%string, [8899]);
   ("xdtri;"%string, [9661]);
   ("Xfr;"%string, [55349; 56603]);
   ("xfr;"%string, [55349; 56629]);
   ("xhArr;"%string, [10234]);
   ("xharr;"%string, [10231]);
   ("Xi;"%string, [926]);
   ("xi;"%string, [958]);
   ("xlArr;"%string, [10232]);
   ("xlarr;"%string, [10229]);
   ("xmap;"%string, [10236]);
   ("xnis;"%string, [8955]);
   ("xodot;"%string, [10752]);
   ("Xopf;"%string, [55349; 56655]);
   ("xopf;"%string, [55349; 56681]);
   ("xoplus;"%string, [10753]);
   ("xotime;"%string, [10754]);
   ("xrArr;"%string, [10233]);
   ("xrarr;"%string, [10230]);
   ("Xscr;"%string, [55349; 56499]);
   ("xscr;"%string, [55349; 56525]);
   ("xsqcup;"%string, [10758]);
   ("xuplus;"%string, [10756]);
   ("xutri;"%string, [9651]);
   ("xvee;"%string, [8897]);
   ("xwedge;"%string, [8896]);
   ("Yacute"%string, [221]);
   ("yacute"%string, [253]);
   ("Yacute;"%string, [221]);
   ("yacute;"%string, [253]);
   ("YAcy;"%string, [1071]);
   ("yacy;"%string, [1103]);
   ("Ycirc;"%string, [374]);
   ("ycirc;"%string, [375]);
   ("Ycy;"%string, [1067]);
   ("ycy;"%string, [1099]);
   ("yen"%string, [165]);
   ("yen;"%string, [165]);
   ("Yfr;"%string, [55349; 56604]);
   ("yfr;"%string, [55349; 56630]);
   ("YIcy;"%string, [1031]);
   ("yicy;"%string, [1111]);
   ("Yopf;"%string, [55349; 56656]);
   ("yopf;"%string, [55349; 56682]);
   ("Yscr;"%string, [55349; 56500]);
   ("yscr;"%string, [55349; 56526]);
   ("YUcy;"%string, [1070]);
   ("yucy;"%string, [1102]);
   ("yuml"%string, [255]);
   ("Yuml;"%string, [376]);
   ("yuml;"%string, [255]);
   ("Zacute;"%string, [377]);
   ("zacute;"%string, [378]);
   ("Zcaron;"%string, [381]);
   ("zcaron;"%string, [382]);
   ("Zcy;"%string, [1047]);
   ("zcy;"%string, [1079]);
   ("Zdot;"%string, [379]);
   ("zdot;"%string, [380]);
   ("zeetrf;"%string, [8488]);
   ("ZeroWidthSpace;"%string, [8203]);
   ("Zeta;"%string, [918]);
   ("zeta;"%string, [950]);
   ("Zfr;"%string, [8488]);
   ("zfr;"%string, [55349; 56631]);
   ("ZHcy;"%string, [1046]);
   ("zhcy;"%string, [1078]);
   ("zigrarr;"%string, [8669]);
   ("Zopf;"%string, [8484]);
   ("zopf;"%string, [55349; 56683]);
   ("Zscr;"%string, [55349; 56501]);
   ("zscr;"%string, [55349; 56527]);
   ("zwj;"%string, [8205]);
   ("zwnj;"%string, [8204])].

Definition HTML5_ENTITIES : list entity :=
  entities_00
  ++ entities_01
  ++ entities_02
  ++ entities_03
  ++ entities_04
  ++ entities_05
  ++ entities_06
  ++ entities_07
  ++ entities_08
  ++ entities_09
  ++ entities_10
  ++ entities_11
  ++ entities_12
  ++ entities_13
  ++ entities_14.
