(* ===== verification/IssueLinks.v ===== *)
(** [ingest/issue_link_parser.ts] and [domain/repos/pr_issue_links_repo.ts]: the
    issues a pull request's text refers to, and the table they are written to
    and read from.  The uuid5 of a row is an argument. *)
From stdpp Require Import base gmap sets list strings pretty.
From Stdlib Require Import ZArith NArith Lia Ascii Sorting.Permutation Sorting.Sorted.
From S2P Require Import Prelude Text Regex.
Open Scope nat_scope.

(** * The parser *)

Inductive linkage_kind := closes | fixes | resolves | mentioned.
Inductive linkage_source := description | title | branch_name | commit_message.
#[export] Instance linkage_kind_eq_dec : EqDecision linkage_kind.
Proof. solve_decision. Defined.
#[export] Instance linkage_source_eq_dec : EqDecision linkage_source.
Proof. solve_decision. Defined.

Record issue_link := IssueLink {
  github_issue_number : N;
  link_kind : linkage_kind;
  link_source : linkage_source;
}.
#[export] Instance issue_link_eq_dec : EqDecision issue_link.
Proof. solve_decision. Defined.

Definition KEYWORD_TO_KIND : list (text * linkage_kind) :=
  [(u "close", closes); (u "closes", closes); (u "closed", closes);
   (u "fix", fixes); (u "fixes", fixes); (u "fixed", fixes);
   (u "resolve", resolves); (u "resolves", resolves); (u "resolved", resolves)].

(** [/\b(close[ds]?|fix(?:es|ed)?|resolve[ds]?)\s*[:\s]?\s*#(\d{1,9})\b/gi] *)
Definition ds_i : regex := RSet (fun c => one_of "DS" (fold_case c)).
Definition keywords : regex :=
  (lit_i "close" · ropt ds_i <|> lit_i "fix" · ropt (lit_i "es" <|> lit_i "ed")
   <|> lit_i "resolve" · ropt ds_i)%re.
Definition number : regex := RRep 1 (Some 8) (RSet digit).
Definition KEYWORD_RE : regex :=
  (RBound · RCap 1 keywords · rstar (RSet space) · ropt (RSet (fun c => space c || one_of ":" c))
   · rstar (RSet space) · lit "#" · RCap 2 number · RBound)%re.

(** [/(?<![\w/])#(\d{1,9})\b/g] *)
Definition BARE_HASH_RE : regex :=
  ((RNotBehind (also word "/") · lit "#") · RCap 1 number · RBound)%re.

(** [Number.parseInt(s, 10)] on digits. *)
Definition parse_digits (s : text) : N := fold_left (fun n c => n * 10 + (c - 48))%N s 0%N.

(** [seen]: a [Map] keyed by number and kind, in insertion order. *)
Definition link_key (l : issue_link) : N * linkage_kind := (github_issue_number l, link_kind l).
Definition add_link (seen : list issue_link) (l : issue_link) : list issue_link :=
  if bool_decide (link_key l ∈ map link_key seen) then seen else seen ++ [l].

Definition keyword_step (src : linkage_source) (seen : list issue_link) (m : match_)
    : list issue_link :=
  match group 1 m, group 2 m with
  | Some w, Some ds =>
      match List.find (fun p => bool_decide (p.1 = to_lower w)) KEYWORD_TO_KIND with
      | None => seen
      | Some (_, kind) =>
          let n := parse_digits ds in
          if (n <=? 0)%N then seen else add_link seen (IssueLink n kind src)
      end
  | _, _ => seen
  end.

Definition bare_step (src : linkage_source) (keywordIssues : list N) (seen : list issue_link)
    (m : match_) : list issue_link :=
  match group 1 m with
  | Some ds =>
      let n := parse_digits ds in
      if (n <=? 0)%N then seen
      else if bool_decide (n ∈ keywordIssues) then seen
      else add_link seen (IssueLink n mentioned src)
  | None => seen
  end.

Definition parseIssueLinks (s : text) (src : linkage_source) : list issue_link :=
  match s with
  | [] => []
  | _ =>
      let seen := fold_left (keyword_step src) (match_all KEYWORD_RE s) [] in
      fold_left (bare_step src (map github_issue_number seen)) (match_all BARE_HASH_RE s) seen
  end.

(** * [core.pr_issue_links] *)

Record link_row := LinkRow {
  lr_id : string;
  lr_installation : string;
  lr_pr : string;
  lr_link : issue_link;
  lr_created_at : Z;
}.

(** The unique index [(pr_id, github_issue_number, linkage_kind, source)]. *)
Definition same_link (pr : string) (l : issue_link) (r : link_row) : bool :=
  bool_decide (lr_pr r = pr) && bool_decide (lr_link r = l).

Inductive link_error := LinkForeignKeyViolation | LinkPrimaryKeyViolation.

Section Table.
(** [derivePrIssueLinkId]. *)
Variable link_id : string -> issue_link -> string.

(** One row of the INSERT, [ON CONFLICT (...) DO NOTHING]; the primary key is
    not the conflict target. *)
Definition insert_link (inst pr : string) (now : Z) (t : list link_row) (l : issue_link)
    : result link_error (list link_row) :=
  if existsb (same_link pr l) t then Ok t
  else guard? (negb (existsb (fun r => String.eqb (lr_id r) (link_id pr l)) t))
         else LinkPrimaryKeyViolation in
       Ok (t ++ [LinkRow (link_id pr l) inst pr l now]).

Fixpoint insert_links (inst pr : string) (now : Z) (t : list link_row) (ls : list issue_link)
    : result link_error (list link_row) :=
  match ls with
  | [] => Ok t
  | l :: ls' => let? t' := insert_link inst pr now t l in insert_links inst pr now t' ls'
  end.

Definition of_pr (inst pr : string) (r : link_row) : bool :=
  String.eqb (lr_installation r) inst && String.eqb (lr_pr r) pr.

(** [replaceLinks]: the table, [deleted] and [inserted]; [pr_known] is whether
    the foreign keys hold. *)
Definition replaceLinks (pr_known : bool) (inst pr : string) (ls : list issue_link) (now : Z)
    (t : list link_row) : result link_error (list link_row * (nat * nat)) :=
  let kept := filter (fun r => of_pr inst pr r = false) t in
  let deleted := length t - length kept in
  match ls with
  | [] => Ok (kept, (deleted, 0))
  | _ =>
      guard? pr_known else LinkForeignKeyViolation in
      let? t' := insert_links inst pr now kept ls in
      let affected := length t' - length kept in
      Ok (t', (deleted, if affected =? 0 then length ls else affected))
  end.

Definition source_text (s : linkage_source) : string :=
  match s with
  | description => "description" | title => "title"
  | branch_name => "branch_name" | commit_message => "commit_message"
  end.

(** [ORDER BY github_issue_number ASC, source ASC]; ties in any order. *)
Definition link_leb (a b : issue_link) : bool :=
  ((github_issue_number a <? github_issue_number b)
   || ((github_issue_number a =? github_issue_number b)
       && str_leb (source_text (link_source a)) (source_text (link_source b))))%N.

Definition listLinksForPr (inst pr : string) (t : list link_row) : list issue_link :=
  sort_by link_leb (map lr_link (filter (fun r => of_pr inst pr r = true) t)).
End Table.

(** * Lemmas: the parser *)

(** What the accumulator of the parser satisfies. *)
Record links_ok (src : linkage_source) (ls : list issue_link) : Prop := {
  lo_keys : NoDup (map link_key ls);
  lo_source : forall l, l ∈ ls -> link_source l = src;
  lo_number : forall l, l ∈ ls -> (1 <= github_issue_number l)%N;
}.

Lemma add_link_ok src ls l :
  links_ok src ls -> link_source l = src -> (1 <= github_issue_number l)%N ->
  links_ok src (add_link ls l).
Proof.
  intros [H1 H2 H3] Hs Hn. unfold add_link. case_bool_decide as Hin; [done|]. split.
  - rewrite map_app. apply NoDup_app. split_and!; [done| |apply NoDup_singleton].
    intros x Hx ->%list_elem_of_singleton. done.
  - intros x. rewrite elem_of_app, list_elem_of_singleton. intros [?| ->]; auto.
  - intros x. rewrite elem_of_app, list_elem_of_singleton. intros [?| ->]; auto.
Qed.

Lemma add_link_keep ls l x : x ∈ ls -> x ∈ add_link ls l.
Proof. intros H. unfold add_link. case_bool_decide; [done|]. apply elem_of_app. by left. Qed.

Lemma add_link_has ls l : exists x, x ∈ add_link ls l /\ link_key x = link_key l.
Proof.
  unfold add_link. case_bool_decide as H.
  - apply list_elem_of_fmap in H as (x & ? & ?). eauto.
  - exists l. split; [|done]. apply elem_of_app. by right; left.
Qed.

Lemma add_link_new ls l x : x ∈ add_link ls l -> x ∈ ls \/ x = l.
Proof.
  unfold add_link. case_bool_decide; [by left|]. rewrite elem_of_app, list_elem_of_singleton. done.
Qed.

Lemma digit_word s k : unit_is digit s k -> unit_is word s k.
Proof.
  intros (c & Hc & Hd). exists c. split; [done|]. unfold word, alnum. rewrite Hd.
  by rewrite orb_true_r.
Qed.

(** The keyword pass keeps the invariant. *)
Lemma keyword_step_ok src ls m : links_ok src ls -> links_ok src (keyword_step src ls m).
Proof.
  intros H. unfold keyword_step. destruct (group 1 m) as [w|]; [|done].
  destruct (group 2 m) as [ds|]; [|done]. destruct (List.find _ _) as [[? kind]|]; [|done].
  destruct (N.leb_spec (parse_digits ds) 0); [done|]. apply add_link_ok; simpl; [done|done|lia].
Qed.

(** The keywords never map to [mentioned]. *)
Lemma keyword_step_kind src ls m l :
  l ∈ keyword_step src ls m -> l ∈ ls \/ link_kind l <> mentioned.
Proof.
  unfold keyword_step. destruct (group 1 m) as [w|]; [|auto]. destruct (group 2 m) as [ds|]; [|auto].
  destruct (List.find _ _) as [[k kind]|] eqn:E; [|auto].
  destruct (_ <=? 0)%N; [auto|]. intros [?| ->]%add_link_new; [auto|]. right. simpl.
  apply List.find_some in E as [E _]. simpl in E.
  repeat (destruct E as [E|E]; [by injection E as <- <-|]). done.
Qed.

Lemma bare_step_ok src kw ls m : links_ok src ls -> links_ok src (bare_step src kw ls m).
Proof.
  intros H. unfold bare_step. destruct (group 1 m) as [ds|]; [|done].
  destruct (N.leb_spec (parse_digits ds) 0); [done|]. case_bool_decide; [done|].
  apply add_link_ok; simpl; [done|done|lia].
Qed.

(** A link of the second pass: an old one, or a mention of another issue. *)
Lemma bare_step_new src kw ls m l :
  l ∈ bare_step src kw ls m ->
  l ∈ ls \/ (link_kind l = mentioned /\ (github_issue_number l ∉ kw)).
Proof.
  unfold bare_step. destruct (group 1 m) as [ds|]; [|auto]. destruct (_ <=? 0)%N; [auto|].
  case_bool_decide; [auto|]. intros [?| ->]%add_link_new; auto.
Qed.

Lemma bare_step_keep src kw ls m l : l ∈ ls -> l ∈ bare_step src kw ls m.
Proof.
  intros H. unfold bare_step. destruct (group 1 m); [|done]. destruct (_ <=? 0)%N; [done|].
  case_bool_decide; [done|]. by apply add_link_keep.
Qed.

(** Invariants of a fold. *)
Lemma fold_ind {A B} (P : A -> Prop) (f : A -> B -> A) l a :
  (forall a b, b ∈ l -> P a -> P (f a b)) -> P a -> P (fold_left f l a).
Proof.
  revert a. induction l as [|b l IH]; intros a Hf Ha; simpl; [done|].
  apply IH; [intros; apply Hf; [by right|done]|]. apply Hf; [by left|done].
Qed.

(** Every bare number that the second pass meets has a link. *)
Lemma bare_pass_has src kw ms ls m ds :
  (forall n, n ∈ kw -> exists l, l ∈ ls /\ github_issue_number l = n) ->
  m ∈ ms -> group 1 m = Some ds -> (0 < parse_digits ds)%N ->
  exists l, l ∈ fold_left (bare_step src kw) ms ls /\ github_issue_number l = parse_digits ds.
Proof.
  revert ls. induction ms as [|m' ms IH]; intros ls Hkw; simpl; [by intros ?%elem_of_nil|].
  intros [<-|Hin]%elem_of_cons Hg Hn.
  - assert (exists l, l ∈ bare_step src kw ls m /\ github_issue_number l = parse_digits ds)
      as (l & Hl & E).
    { unfold bare_step. rewrite Hg. destruct (N.leb_spec (parse_digits ds) 0); [lia|].
      case_bool_decide as Hk; [by apply Hkw|].
      destruct (add_link_has ls (IssueLink (parse_digits ds) mentioned src)) as (x & ? & [= ? ?]).
      eauto. }
    exists l. split; [|done]. apply (fold_ind (fun ls => l ∈ ls)); [|done].
    intros a b _. apply bare_step_keep.
  - apply IH; [|done|done|done]. intros n Hk. destruct (Hkw n Hk) as (l & ? & ?).
    exists l. split; [by apply bare_step_keep|done].
Qed.

(** An occurrence of a bare reference is a match of the scan: the sign fixes
    where it starts and the digits where it ends. *)
Lemma bare_occurrence s i j :
  occurs BARE_HASH_RE s i j ->
  exists m, m ∈ match_all BARE_HASH_RE s /\ group 1 m = Some (slice (S i) j s).
Proof.
  set (pre := (RNotBehind (also word "/") · lit "#")%re).
  assert (Hsplit : forall a b, a <= length s -> den BARE_HASH_RE (at_ s a) (at_ s b) -> b <= length s ->
    unit_is (N.eqb 35) s a /\ S a < b /\
      (forall k, S a <= k < b -> unit_is digit s k) /\ exists y, den RBound (at_ s b) y).
  { intros a b Ha (z & (z0 & [<- _] & H0) & (z1 & H1 & H2)) Hb.
    destruct H0 as (z2 & H0 & <-). apply den_set_at in H0 as (-> & Hu & Hl); [|done].
    destruct (den_at number s (S a) _ Hl H1) as (h & Hh & ->). pose proof H2 as [E _].
    apply at_inj in E as ->; [|lia..].
    apply den_run in H1 as ([H1 _] & _ & Hk); [|lia..].
    split_and!; [done|lia|done|eauto]. }
  intros [Hij Hd]. destruct (Hsplit i j) as (Hi & Hij' & Hkj & Hbj); [lia|done|lia|].
  destruct (match_all_from BARE_HASH_RE s) as [Hm _ Hall].
  destruct (Hall i j) as (m & Hin & [Hc1 Hc2]); [lia|done|]. exists m. split; [done|].
  destruct (Hm m Hin) as [_ [[Hb Ho] _]].
  destruct (Hsplit (m_index m) (m_end m)) as (Hi' & Hlt & Hkm & Hbm); [lia|done|lia|].
  assert (Hidx : m_index m = i).
  { destruct (decide (m_index m = i)) as [|Hne]; [done|]. exfalso.
    destruct (Hkm i) as (c & Hc & Hd'); [lia|]. destruct Hi as (c' & Hc' & E).
    apply N.eqb_eq in E as <-. rewrite Hc in Hc'. by injection Hc' as ->. }
  assert (Hend : m_end m = j).
  { assert (Hno : forall a b, S i < a -> a < b -> (forall k, S i <= k < b -> unit_is digit s k) ->
      ~ exists y, den RBound (at_ s a) y).
    { intros a b Ha Hab Hk [y Hy]. destruct a as [|a]; [lia|].
      eapply (no_bound_inside s a); [| |exact Hy]; apply digit_word, Hk; lia. }
    rewrite Hidx in *. destruct (Nat.lt_trichotomy (m_end m) j) as [Hlt'|[->|Hlt']]; [|done|];
      exfalso; [by apply (Hno (m_end m) j)|by apply (Hno j (m_end m))]. }
  destruct (match_all_group_at 1 pre number RBound s m) as (g & h & H1 & H2 & -> & Hp & _ & [Hh _]);
    [done..|].
  apply at_inj in Hh as ->; [|lia..]. rewrite Hend. do 2 f_equal.
  destruct Hp as (z & [<- _] & (z2 & Hp & ->)). apply den_set_at in Hp as (Hg & _ & Hl); [|lia].
  apply at_inj in Hg as ->; [|lia..]. by rewrite Hidx.
Qed.

(** The links after each pass. *)
Definition keyword_links (s : text) (src : linkage_source) : list issue_link :=
  fold_left (keyword_step src) (match_all KEYWORD_RE s) [].

Lemma links_ok_nil src : links_ok src [].
Proof. split; [constructor|by intros l ?%elem_of_nil|by intros l ?%elem_of_nil]. Qed.

Lemma keyword_links_ok s src :
  links_ok src (keyword_links s src) /\ forall l, l ∈ keyword_links s src -> link_kind l <> mentioned.
Proof.
  apply (fold_ind (fun ls => links_ok src ls /\ forall l, l ∈ ls -> link_kind l <> mentioned)).
  - intros ls m _ [H1 H2]. split; [by apply keyword_step_ok|].
    intros l [?|?]%keyword_step_kind; auto.
  - split; [apply links_ok_nil|by intros l ?%elem_of_nil].
Qed.

(** * Lemmas: the table *)

Lemma NoDup_map_filter {A B} (f : A -> B) (P : A -> Prop) `{!forall x, Decision (P x)} t :
  NoDup (map f t) -> NoDup (map f (filter P t)).
Proof.
  induction t as [|x t IH]; [constructor|]. cbn [map]. rewrite NoDup_cons. intros [Hn Hnd].
  rewrite filter_cons. case_decide; [|by apply IH]. cbn [map]. constructor; [|by apply IH].
  intros (y & E & [_ Hy]%list_elem_of_filter)%list_elem_of_fmap. apply Hn, list_elem_of_fmap. eauto.
Qed.

Section TableLemmas.
Context (link_id : string -> issue_link -> string).

(** Rows have the ids derived from their key, the unique index holds, and a pull
    request belongs to one installation. *)
Record table_wf (t : list link_row) : Prop := {
  tw_id : forall r, r ∈ t -> lr_id r = link_id (lr_pr r) (lr_link r);
  tw_unique : NoDup (map (fun r => (lr_pr r, lr_link r)) t);
}.

(** [uuid5] does not collide on the keys that occur. *)
Definition no_collision : Prop :=
  forall p l p' l', link_id p l = link_id p' l' -> p = p' /\ l = l'.

Lemma same_link_true pr l r : same_link pr l r = true <-> lr_pr r = pr /\ lr_link r = l.
Proof. unfold same_link. by rewrite andb_true_iff, !bool_decide_eq_true. Qed.

Lemma insert_link_ok inst pr now t l :
  no_collision -> table_wf t ->
  exists t', insert_link link_id inst pr now t l = Ok t' /\ table_wf t' /\
    (exists ext, t' = t ++ ext /\ Forall (fun r => lr_installation r = inst /\ lr_pr r = pr /\ lr_link r = l) ext) /\
    exists r, r ∈ t' /\ lr_pr r = pr /\ lr_link r = l.
Proof.
  intros Hinj [H1 H2]. unfold insert_link. destruct (existsb (same_link pr l) t) eqn:E.
  - exists t. split; [done|]. split; [by split|]. split.
    + exists []. by rewrite app_nil_r.
    + apply existsb_exists in E as (r & Hr & E). apply same_link_true in E.
      exists r. by rewrite list_elem_of_In.
  - assert (Hnone : forall r, r ∈ t -> ~ (lr_pr r = pr /\ lr_link r = l)).
    { intros r Hr Hs. apply not_true_iff_false in E. apply E, existsb_exists.
      exists r. by rewrite <- list_elem_of_In, same_link_true. }
    destruct (existsb (fun r => String.eqb (lr_id r) (link_id pr l)) t) eqn:E'.
    { exfalso. apply existsb_exists in E' as (r & Hr & E').
      apply list_elem_of_In in Hr. apply String.eqb_eq in E'. rewrite (H1 r Hr) in E'.
      apply Hinj in E'. by apply (Hnone r). }
    eexists. split; [done|]. split; [split|split].
    + intros r. rewrite elem_of_app, list_elem_of_singleton. intros [?| ->]; [by apply H1|done].
    + rewrite map_app. apply NoDup_app. split_and!; [done| |apply NoDup_singleton].
      intros x Hx ->%list_elem_of_singleton. apply list_elem_of_fmap in Hx as (r & [= ? ?] & Hr).
      by apply (Hnone r).
    + eexists. split; [done|]. by constructor.
    + eexists. split; [apply elem_of_app; right; by left|done].
Qed.

Lemma insert_links_ok inst pr now t ls :
  no_collision -> table_wf t ->
  exists t', insert_links link_id inst pr now t ls = Ok t' /\ table_wf t' /\
    (exists ext, t' = t ++ ext /\
       Forall (fun r => lr_installation r = inst /\ lr_pr r = pr /\ lr_link r ∈ ls) ext) /\
    forall l, l ∈ ls -> exists r, r ∈ t' /\ lr_pr r = pr /\ lr_link r = l.
Proof.
  intros Hinj. revert t. induction ls as [|l ls IH]; intros t Hwf; simpl.
  { exists t. split_and!; [done|done| |by intros l ?%elem_of_nil]. exists []. by rewrite app_nil_r. }
  destruct (insert_link_ok inst pr now t l Hinj Hwf) as (t1 & -> & Hwf1 & (e1 & -> & He1) & r & Hr & Hl).
  simpl. destruct (IH _ Hwf1) as (t2 & -> & Hwf2 & (e2 & -> & He2) & Hall).
  exists ((t ++ e1) ++ e2). split_and!; [done|done| |].
  - exists (e1 ++ e2). split; [by rewrite app_assoc|]. apply Forall_app. split.
    + eapply Forall_impl; [exact He1|]. intros x (? & ? & ->). split_and!; [done|done|by left].
    + eapply Forall_impl; [exact He2|]. intros x (? & ? & ?). split_and!; [done|done|by right].
  - intros l' [->|Hl']%elem_of_cons; [|by apply Hall]. exists r. split; [|done].
    apply elem_of_app. by left.
Qed.

(** A pull request's rows have distinct links. *)
Lemma listed_NoDup inst pr t :
  NoDup (map (fun r => (lr_pr r, lr_link r)) t) ->
  NoDup (map lr_link (filter (fun r => of_pr inst pr r = true) t)).
Proof.
  induction t as [|r t IH]; [constructor|]. cbn [map]. rewrite NoDup_cons. intros [Hn Hnd].
  rewrite filter_cons. case_decide as Hr; [|by apply IH]. cbn [map]. constructor; [|by apply IH].
  intros (r' & E & [Hr' Hin]%list_elem_of_filter)%list_elem_of_fmap. apply Hn, list_elem_of_fmap.
  exists r'. split; [|done]. unfold of_pr in *. bool_to_prop. congruence.
Qed.

Lemma link_leb_total a b : link_leb a b = true \/ link_leb b a = true.
Proof.
  unfold link_leb. rewrite !orb_true_iff, !andb_true_iff, !N.ltb_lt, !N.eqb_eq.
  destruct (N.lt_trichotomy (github_issue_number a) (github_issue_number b)) as [?|[?|?]],
    (str_leb_total (source_text (link_source a)) (source_text (link_source b))); naive_solver.
Qed.

Lemma link_leb_trans a b c : link_leb a b = true -> link_leb b c = true -> link_leb a c = true.
Proof.
  unfold link_leb. rewrite !orb_true_iff, !andb_true_iff, !N.ltb_lt, !N.eqb_eq.
  intros [?|[? H1]] [?|[? H2]]; [left; lia..|]. right. split; [lia|]. by eapply str_leb_trans.
Qed.
End TableLemmas.

(** * Properties *)

(** What the parser makes of a text: one link per issue number and kind,
    with the source given and a positive number; an issue that a keyword names
    is not also listed as mentioned; and no bare reference [#n] is missed,
    every occurrence of one with a positive number has a link of that number. *)
Theorem parseIssueLinks_links s src :
  let ls := parseIssueLinks s src in
  NoDup (map link_key ls) /\
  (forall l, l ∈ ls -> link_source l = src /\ (1 <= github_issue_number l)%N) /\
  (forall l l', l ∈ ls -> l' ∈ ls -> link_kind l = mentioned -> l <> l' ->
     github_issue_number l <> github_issue_number l') /\
  (forall i j, occurs BARE_HASH_RE s i j -> (0 < parse_digits (slice (S i) j s))%N ->
     exists l, l ∈ ls /\ github_issue_number l = parse_digits (slice (S i) j s)).
Proof.
  intros ls. subst ls. destruct s as [|c s'].
  { simpl. split_and!; [constructor|by intros l ?%elem_of_nil|by intros l l' ?%elem_of_nil|].
    intros i j [[? Hj] Ho] _. pose proof (den_min_len _ _ _ Ho) as Hl. simpl in Hl.
    rewrite !drop_nil in Hl. simpl in Hl. lia. }
  set (s := c :: s'). destruct (keyword_links_ok s src) as [Hkw Hkind].
  set (kw := map github_issue_number (keyword_links s src)).
  change (parseIssueLinks s src) with
    (fold_left (bare_step src kw) (match_all BARE_HASH_RE s) (keyword_links s src)).
  set (ls := fold_left _ _ _).
  assert (Hls : links_ok src ls /\
    forall l, l ∈ ls -> link_kind l = mentioned -> (github_issue_number l ∉ kw)).
  { apply (fold_ind (fun ls => links_ok src ls /\
      forall l, l ∈ ls -> link_kind l = mentioned -> (github_issue_number l ∉ kw))).
    - intros a m _ [H1 H2]. split; [by apply bare_step_ok|].
      intros l [?|[_ ?]]%bare_step_new; auto.
    - split; [done|]. intros l Hl Hm. by destruct (Hkind l Hl). }
  assert (Hold : forall l, l ∈ ls -> link_kind l = mentioned \/ l ∈ keyword_links s src).
  { apply (fold_ind (fun ls => forall l, l ∈ ls -> link_kind l = mentioned \/ l ∈ keyword_links s src)).
    - intros a m _ H l [?|[? _]]%bare_step_new; auto.
    - auto. }
  destruct Hls as [[H1 H2 H3] H4]. split_and!; [done|auto| |].
  - intros l l' Hl Hl' Hm Hne E. destruct (Hold l' Hl') as [Hm'|Hk].
    + apply Hne. assert (Hk : link_key l = link_key l') by (unfold link_key; congruence).
      apply list_elem_of_lookup in Hl as [x Hx], Hl' as [y Hy].
      assert (x = y) as ->.
      { eapply (NoDup_lookup _ x y (link_key l) H1); rewrite list_lookup_fmap, ?Hx, ?Hy; simpl; congruence. }
      congruence.
    + apply (H4 l Hl Hm). rewrite E. apply list_elem_of_fmap. eauto.
  - intros i j Ho Hn. destruct (bare_occurrence s i j Ho) as (m & Hm & Hg).
    apply (bare_pass_has _ _ _ _ m); [|done..].
    intros n (l & -> & Hl)%list_elem_of_fmap. eauto.
Qed.

(** The review reads the links that the webhook wrote.  Replacing the links
    of a pull request succeeds, leaves the links of every other one alone, and
    afterwards the read returns exactly the distinct links written, whatever
    was there before, ordered by number and source. *)
Theorem replaceLinks_roundtrip link_id inst pr ls now t :
  no_collision link_id -> table_wf link_id t ->
  (forall r, r ∈ t -> lr_pr r = pr -> lr_installation r = inst) ->
  exists t' counts, replaceLinks link_id true inst pr ls now t = Ok (t', counts) /\
    table_wf link_id t' /\
    listLinksForPr inst pr t' ≡ₚ remove_dups ls /\
    StronglySorted (fun a b => link_leb a b = true) (listLinksForPr inst pr t') /\
    filter (fun r => lr_pr r <> pr) t' = filter (fun r => lr_pr r <> pr) t.
Proof.
  intros Hinj Hwf Hone. set (kept := filter (fun r => of_pr inst pr r = false) t).
  assert (Hkept : forall r, r ∈ kept <-> r ∈ t /\ lr_pr r <> pr).
  { intros r. unfold kept. rewrite list_elem_of_filter. unfold of_pr.
    rewrite andb_false_iff, !String.eqb_neq. split.
    - intros [[H|H] Hr]; (split; [done|]); [|done]. intros E. by apply H, Hone.
    - intros [Hr H]. auto. }
  assert (Hk : table_wf link_id kept).
  { destruct Hwf as [H1 H2]. split; [intros r [? _]%Hkept; auto|].
    by apply NoDup_map_filter. }
  destruct (insert_links_ok link_id inst pr now kept ls Hinj Hk)
    as (t' & Ht & Hwf' & (ext & -> & Hext) & Hall).
  exists (kept ++ ext). assert (exists counts, replaceLinks link_id true inst pr ls now t
    = Ok (kept ++ ext, counts)) as [counts Hr].
  { unfold replaceLinks. fold kept. destruct ls as [|l ls].
    - simpl in Ht. injection Ht as Ht. rewrite <- Ht. eauto.
    - rewrite Ht. simpl. eauto. }
  exists counts. split; [done|]. split; [done|].
  rewrite Forall_forall in Hext.
  assert (Hin : forall l, l ∈ listLinksForPr inst pr (kept ++ ext) <-> l ∈ ls).
  { intros l. unfold listLinksForPr. rewrite sort_by_perm, list_elem_of_fmap. split.
    - intros (r & -> & [Ho Hr']%list_elem_of_filter). apply elem_of_app in Hr' as [Hr'|Hr'].
      + apply Hkept in Hr' as [_ Hne]. unfold of_pr in Ho. apply andb_true_iff in Ho as [_ Ho].
        by apply String.eqb_eq in Ho.
      + by apply Hext in Hr' as (_ & _ & ?).
    - intros (r & Hr' & Hp & <-)%Hall. exists r. split; [done|]. apply list_elem_of_filter.
      split; [|done]. apply elem_of_app in Hr' as [Hr'|Hr']; [by apply Hkept in Hr' as [_ ?]|].
      apply Hext in Hr' as (Hi & Hp' & _). unfold of_pr. by rewrite Hi, Hp', !String.eqb_refl. }
  split_and!.
  - apply list.NoDup_Permutation; [|apply NoDup_remove_dups|by intros l; rewrite Hin, elem_of_remove_dups].
    unfold listLinksForPr. rewrite sort_by_perm. apply (listed_NoDup inst), Hwf'.
  - apply sort_by_sorted; [apply link_leb_total|apply link_leb_trans].
  - rewrite filter_app, (filter_nothing _ ext).
    2:{ intros r Hr'. apply Hext in Hr' as (_ & Hp & _). auto. }
    rewrite app_nil_r. unfold kept. rewrite list_filter_filter_l; [done|].
    intros r Hne. unfold of_pr. apply andb_false_iff. right. by apply String.eqb_neq.
Qed.

Definition ex_links : list issue_link := parseIssueLinks (u "Fixes #7, fixes #7 and see #3") title.

(** An id derivation without collisions: the numeral of an encoding of the key. *)
Definition kind_code (k : linkage_kind) : nat :=
  match k with closes => 0 | fixes => 1 | resolves => 2 | mentioned => 3 end.
Definition source_code (s : linkage_source) : nat :=
  match s with description => 0 | title => 1 | branch_name => 2 | commit_message => 3 end.
Definition ex_link_id (pr : string) (l : issue_link) : string :=
  pretty (N.pos (encode (pr, github_issue_number l, kind_code (link_kind l), source_code (link_source l)))).

Lemma ex_no_collision : no_collision ex_link_id.
Proof.
  intros p [n k s] p' [n' k' s'] H. unfold ex_link_id in H. apply (inj pretty) in H.
  injection H as H. apply (inj encode) in H. injection H as -> -> Hk Hs. simpl in *.
  split; [done|]. f_equal; [by destruct k, k'|by destruct s, s'].
Qed.

Lemma replaceLinks_roundtrip_witness :
  exists t' counts,
    replaceLinks ex_link_id true "i1" "p1" ex_links 5 [LinkRow (ex_link_id "p2" (IssueLink 9 closes title))
      "i1" "p2" (IssueLink 9 closes title) 1] = Ok (t', counts) /\
    listLinksForPr "i1" "p1" t' ≡ₚ [IssueLink 7 fixes title; IssueLink 3 mentioned title].
Proof.
  destruct (replaceLinks_roundtrip ex_link_id "i1" "p1" ex_links 5
    [LinkRow (ex_link_id "p2" (IssueLink 9 closes title)) "i1" "p2" (IssueLink 9 closes title) 1]
    ex_no_collision) as (t' & counts & H1 & _ & H2 & _).
  - split; [intros r ->%list_elem_of_singleton; reflexivity|repeat constructor; intros ?%elem_of_nil; done].
  - intros r ->%list_elem_of_singleton. discriminate.
  - exists t', counts. split; [exact H1|]. rewrite H2. vm_compute. reflexivity.
Defined.
