(* ===== verification/WebhookPayload.v ===== *)
(** The bodies of GitHub's webhooks: the contracts of
    [libs/contracts/src/github_pull_request_payload.v1.ts] and
    [github_installation_payload.v1.ts] as parsers of JSON values, and the readers
    on top of them: [ingest/_webhook_extractors.ts],
    [ingest/_reconcile_payload_builder.ts] and the extractor of
    [ingest/_push_emitters.ts].  A body is what [JSON.parse] makes of its bytes,
    [None] when that throws.  Zod objects strip unknown keys and list the known
    ones in schema order; its datetime format is a parameter. *)
From stdpp Require Import base gmap sets list strings pretty.
From Stdlib Require Import ZArith Lia Ascii.
From S2P Require Import Prelude Json ReviewPayload.
Open Scope Z_scope.

Abbreviation body := (option json).

(** * Numbers *)

Definition digits_of (s : string) : option Z :=
  if JsString.all_digits s then Some (JsString.number_of_digits s) else None.

(** The value of a numeral [String(n)], if [Number.isInteger(n)]: digits, or from
    1e21 on the exponent form. *)
Definition unsigned_of (s : string) : option Z :=
  match JsString.cut "e" s with
  | None => digits_of s
  | Some (m, String "+" e) =>
      d ← digits_of e;
      match JsString.cut "." m with
      | None => (fun n => n * 10 ^ d) <$> digits_of m
      | Some (a, b) => (fun n => n * 10 ^ (d - Z.of_nat (String.length b))) <$> digits_of (a +:+ b)
      end
  | Some _ => None
  end.
Definition int_of (s : string) : option Z :=
  match s with
  | String "-" s' => Z.opp <$> unsigned_of s'
  | _ => unsigned_of s
  end.

Definition num (n : Z) : json := JNum (pretty n).

(** * Zod *)

(** A validator returns the parsed value. *)
Definition validator := json -> option json.

Definition keep_if (p : json -> bool) : validator := fun v => if p v then Some v else None.

Definition v_int : validator :=
  keep_if (fun v => match v with JNum s => bool_decide (is_Some (int_of s)) | _ => false end).
Definition v_int_gte (lo : Z) : validator :=
  keep_if (fun v => match v with
    | JNum s => match int_of s with Some n => lo <=? n | None => false end
    | _ => false end).
Definition v_str (lo hi : Z) : validator := keep_if (str_len lo hi).
Definition v_any_str : validator := keep_if (fun v => match v with JStr _ => true | _ => false end).
Definition v_bool : validator := keep_if is_bool.
Definition v_enum (l : list string) : validator :=
  keep_if (fun v => match v with JStr s => existsb (String.eqb s) l | _ => false end).
Definition v_nullable (c : validator) : validator :=
  fun v => match v with JNull => Some JNull | _ => c v end.

Fixpoint all_some {A} (l : list (option A)) : option (list A) :=
  match l with
  | [] => Some []
  | x :: l' => y ← x; ys ← all_some l'; Some (y :: ys)
  end.
Definition v_array (c : validator) : validator :=
  fun v => match v with JArr l => JArr <$> all_some (map c l) | _ => None end.

Record vfield := VField { vf_name : string; vf_check : validator; vf_default : option json }.

Definition parse_vfield (kvs : list (string * json)) (f : vfield) : option (string * json) :=
  match get (vf_name f) kvs with
  | Some v => pair (vf_name f) <$> vf_check f v
  | None => pair (vf_name f) <$> vf_default f
  end.

Definition v_object (fs : list vfield) : validator :=
  fun v => match v with
  | JObj kvs => JObj <$> all_some (map (parse_vfield kvs) fs)
  | _ => None
  end.

(** * Contracts *)

Definition GitHubAccountV1 : validator := v_object
  [VField "id" v_int None; VField "login" (v_str 1 100) None;
   VField "type" (v_enum ["User"; "Organization"; "Bot"]) None].

Definition GitHubInstallationV1 : validator := v_object
  [VField "id" v_int None; VField "account" (v_nullable GitHubAccountV1) (Some JNull)].

Definition GitHubRepositoryRefV1 : validator := v_object [VField "full_name" (v_str 1 200) None].

Definition hex_lower (c : ascii) : bool :=
  JsString.is_digit c || (let n := nat_of_ascii c in ((97 <=? n) && (n <=? 102))%nat).
Definition v_sha : validator := keep_if (fun v =>
  str_len 40 64 v && match v with JStr s => JsString.forall_chars hex_lower s | _ => false end).

Definition GitHubCommitRefV1 : validator := v_object
  [VField "sha" v_sha None; VField "repo" GitHubRepositoryRefV1 None;
   VField "ref" (v_str 0 255) (Some (JStr ""))].

Definition GitHubRepositoryV1 : validator := v_object
  [VField "id" v_int None; VField "full_name" (v_str 1 200) None;
   VField "default_branch" v_any_str (Some (JStr "main"));
   VField "archived" v_bool (Some (JBool false)); VField "owner" GitHubAccountV1 None].

(** [z.preprocess]: null becomes the empty string. *)
Definition v_body : validator :=
  fun v => match v with JNull => Some (JStr "") | _ => v_any_str v end.

Section PullRequest.
Variable zod_datetime : string -> bool.

Definition GitHubPullRequestRefV1 : validator := v_object
  [VField "number" (v_int_gte 1) None; VField "title" (v_str 0 10000) (Some (JStr ""));
   VField "body" v_body (Some (JStr ""));
   VField "state" (v_enum ["open"; "closed"]) (Some (JStr "open"));
   VField "draft" v_bool (Some (JBool false)); VField "head" GitHubCommitRefV1 None;
   VField "base" GitHubCommitRefV1 None;
   VField "user" (v_nullable GitHubAccountV1) (Some JNull);
   VField "merged" v_bool (Some (JBool false)); VField "id" (v_int_gte 0) (Some (num 0));
   VField "created_at" (v_nullable (keep_if (fmt zod_datetime))) (Some JNull)].

Definition PR_ACTIONS : list string :=
  ["opened"; "synchronize"; "reopened"; "closed"; "edited"; "ready_for_review";
   "converted_to_draft"].

Definition GitHubPullRequestPayloadV1 : validator := v_object
  [VField "schema_version" v_int (Some (num 1)); VField "action" (v_enum PR_ACTIONS) None;
   VField "number" (v_int_gte 1) None; VField "pull_request" GitHubPullRequestRefV1 None;
   VField "repository" GitHubRepositoryV1 None; VField "installation" GitHubInstallationV1 None;
   VField "sender" GitHubAccountV1 None].
End PullRequest.

Definition GitHubInstallationPayloadV1 : validator := v_object
  [VField "schema_version" v_int (Some (num 1));
   VField "action" (v_enum ["created"; "deleted"; "suspended"; "unsuspended"]) None;
   VField "installation" GitHubInstallationV1 None; VField "sender" GitHubAccountV1 None].

Definition GitHubInstallationRepositoriesPayloadV1 : validator := v_object
  [VField "schema_version" v_int (Some (num 1)); VField "action" (v_enum ["added"; "removed"]) None;
   VField "installation" GitHubInstallationV1 None; VField "sender" GitHubAccountV1 None;
   VField "repositories_added" (v_array GitHubRepositoryV1) (Some (JArr []));
   VField "repositories_removed" (v_array GitHubRepositoryV1) (Some (JArr []))].

(** * Extractors *)

(** [v?.[k]] on an object; an array has no such property. *)
Definition prop (k : string) (v : json) : option json :=
  match v with JObj kvs => get k kvs | _ => None end.

(** [parseJsonObject]. *)
Definition parseJsonObject (b : body) : option json :=
  match b with Some (JObj kvs) => Some (JObj kvs) | _ => None end.

Definition as_int (v : json) : option Z := match v with JNum s => int_of s | _ => None end.
Definition as_str (v : json) : option string := match v with JStr s => Some s | _ => None end.
Definition as_nonempty (v : json) : option string :=
  match v with JStr s => if String.eqb s "" then None else Some s | _ => None end.

Definition extractInstallationId (b : body) : option Z :=
  p ← parseJsonObject b; i ← prop "installation" p; v ← prop "id" i; as_int v.

Definition extractSenderLogin (b : body) : option string :=
  p ← parseJsonObject b; s ← prop "sender" p; v ← prop "login" s;
  l ← as_nonempty v; Some ("user:" +:+ l)%string.

Definition extractPrNodeId (b : body) : option string :=
  p ← parseJsonObject b; r ← prop "pull_request" p; v ← prop "node_id" r; as_nonempty v.

Definition extractAction (b : body) : option string :=
  p ← parseJsonObject b; v ← prop "action" p; as_str v.

Definition PR_TITLE_MAX_CHARS : nat := 500.
Definition PR_DESCRIPTION_MAX_CHARS : nat := Z.to_nat 10000.

Definition normalizeOpenedAt (s : string) : string :=
  if JsString.ends_with "Z" s then (JsString.left (String.length s - 1) s +:+ "+00:00")%string else s.

Record pr_metadata := PrMetadata {
  pm_action : string;
  prNumber : Z;
  headSha : string;
  ghOwner : string;
  ghRepoName : string;
  prTitle : string;
  prDescription : string;
  githubRepoId : Z;
  isCrossFork : bool;
  headRepoFullName : string;
  githubPullRequestId : option Z;
  authorGithubUserId : option Z;
  authorLogin : option string;
  authorUserType : option string;
  authorName : option string;
  authorAvatarUrl : option string;
  baseRef : string;
  baseSha : string;
  headRef : string;
  pm_draft : bool;
  merged : bool;
  openedAt : option string;
}.

(** Reading a parsed value along a path; the parse guarantees the field and its type. *)
Fixpoint path (ks : list string) (v : json) : json :=
  match ks with
  | [] => v
  | k :: ks' => match prop k v with Some w => path ks' w | None => JNull end
  end.
Definition str_at (ks : list string) (v : json) : string := default "" (as_str (path ks v)).
Definition int_at (ks : list string) (v : json) : Z := default 0 (as_int (path ks v)).
Definition bool_at (ks : list string) (v : json) : bool :=
  match path ks v with JBool b => b | _ => false end.

Definition after_slash (full_name : string) : string :=
  JsString.join "/" (tl (JsString.split "/" full_name)).

Definition pr_metadata_of (p : json) : pr_metadata :=
  let user := path ["pull_request"; "user"] p in
  let pr_id := int_at ["pull_request"; "id"] p in
  {| pm_action := str_at ["action"] p; prNumber := int_at ["number"] p;
     headSha := str_at ["pull_request"; "head"; "sha"] p;
     ghOwner := str_at ["repository"; "owner"; "login"] p;
     ghRepoName := after_slash (str_at ["repository"; "full_name"] p);
     prTitle := JsString.left PR_TITLE_MAX_CHARS (str_at ["pull_request"; "title"] p);
     prDescription := JsString.left PR_DESCRIPTION_MAX_CHARS (str_at ["pull_request"; "body"] p);
     githubRepoId := int_at ["repository"; "id"] p;
     isCrossFork := negb (String.eqb (str_at ["pull_request"; "head"; "repo"; "full_name"] p)
                            (str_at ["repository"; "full_name"] p));
     headRepoFullName := str_at ["pull_request"; "head"; "repo"; "full_name"] p;
     githubPullRequestId := if 0 <? pr_id then Some pr_id else None;
     authorGithubUserId := v ← prop "id" user; as_int v;
     authorLogin := v ← prop "login" user; as_str v;
     authorUserType := v ← prop "type" user; as_str v;
     authorName := None; authorAvatarUrl := None;
     baseRef := str_at ["pull_request"; "base"; "ref"] p;
     baseSha := str_at ["pull_request"; "base"; "sha"] p;
     headRef := str_at ["pull_request"; "head"; "ref"] p;
     pm_draft := bool_at ["pull_request"; "draft"] p;
     merged := bool_at ["pull_request"; "merged"] p;
     openedAt := normalizeOpenedAt <$> as_str (path ["pull_request"; "created_at"] p) |}.

Definition extractPrMetadata (zod_datetime : string -> bool) (b : body) : option pr_metadata :=
  raw ← b; p ← GitHubPullRequestPayloadV1 zod_datetime raw; Some (pr_metadata_of p).

(** * Reconcile payloads *)

Inductive skip_reason :=
| missing_installation | missing_sender | missing_account | invalid_subobject | malformed_json.

Definition normalize_action (a : string) : string :=
  if String.eqb a "suspend" then "suspended"
  else if String.eqb a "unsuspend" then "unsuspended" else a.

Definition absent (v : option json) : bool :=
  match v with None | Some JNull => true | _ => false end.
Definition object (v : option json) : option json :=
  match v with Some (JObj kvs) => Some (JObj kvs) | _ => None end.

Definition built (v : option json) : result skip_reason json :=
  match v with Some p => Ok p | None => Throw invalid_subobject end.

(** The prefix that both installation builders share. *)
Definition with_installation_and_sender (p : json) (k : json -> json -> result skip_reason json)
    : result skip_reason json :=
  let i := prop "installation" p in
  let s := prop "sender" p in
  guard? (negb (absent i)) else missing_installation in
  guard? (negb (absent s)) else missing_sender in
  match object i, object s with
  | Some i, Some s => k i s
  | _, _ => Throw invalid_subobject
  end.

Definition buildFromInstallationEvent (p : json) (action : string) : result skip_reason json :=
  with_installation_and_sender p (fun i s =>
    built (GitHubInstallationPayloadV1
      (JObj [("action", JStr (normalize_action action)); ("installation", i); ("sender", s)]))).

Definition buildFromPullRequestEvent (p : json) : result skip_reason json :=
  match object (prop "installation" p), object (prop "sender" p), object (prop "repository" p) with
  | None, _, _ => Throw missing_installation
  | _, None, _ => Throw missing_sender
  | _, _, None => Throw missing_account
  | Some i, Some s, Some r =>
      match object (prop "owner" r) with
      | None => Throw missing_account
      | Some o =>
          built (account ← GitHubAccountV1 o; sender ← GitHubAccountV1 s; iid ← prop "id" i;
                 inst ← GitHubInstallationV1 (JObj [("id", iid); ("account", account)]);
                 GitHubInstallationPayloadV1
                   (JObj [("action", JStr "created"); ("installation", inst); ("sender", sender)]))
      end
  end.

Definition buildInstallationPayloadFromWebhook (eventType : string) (b : body) (action : string)
    : result skip_reason json :=
  match parseJsonObject b with
  | None => Throw malformed_json
  | Some p =>
      if String.eqb eventType "installation" then buildFromInstallationEvent p action
      else if String.eqb eventType "pull_request" then buildFromPullRequestEvent p
      else Throw invalid_subobject
  end.

Definition or_empty (v : option json) : json := if absent v then JArr [] else default JNull v.

Definition buildRepositoriesPayloadFromWebhook (b : body) (action : string)
    : result skip_reason json :=
  match parseJsonObject b with
  | None => Throw malformed_json
  | Some p =>
      with_installation_and_sender p (fun i s =>
        built (GitHubInstallationRepositoriesPayloadV1
          (JObj [("action", JStr action); ("installation", i); ("sender", s);
                 ("repositories_added", or_empty (prop "repositories_added" p));
                 ("repositories_removed", or_empty (prop "repositories_removed" p))])))
  end.

(** * Pushes to the default branch *)

Record push_metadata := PushMetadata {
  pu_repo : Z;
  pu_owner : string;
  pu_name : string;
  pu_branch : string;
  pu_sha : string;
}.

Definition bare_ref (ref : string) : string :=
  if JsString.starts_with "refs/heads/" ref then String.substring 11 (String.length ref - 11) ref
  else ref.

Definition extractPushDefaultBranchMetadata (b : body) : option push_metadata :=
  p ← parseJsonObject b;
  ref ← (v ← prop "ref" p; as_str v); after ← (v ← prop "after" p; as_str v);
  r ← object (prop "repository" p);
  id ← (v ← prop "id" r; as_int v); owner ← prop "owner" r;
  name ← (v ← prop "name" r; as_str v); branch ← (v ← prop "default_branch" r; as_str v);
  login ← (v ← prop "login" owner; as_str v);
  if String.eqb (bare_ref ref) branch then Some (PushMetadata id login name branch after) else None.
