(* ===== verification/PrPersistence.v ===== *)
(** [ingest/_pr_persistence.ts] and [ingest/_pr_id.ts]: the pull-request metadata
    that the webhook writes: [core.gh_users], [core.pull_requests] and
    [core.pr_state_transitions].  The tables carry the constraints of
    [0001_baseline.sql]; a violation is the error that the savepoint of
    [safePersistPr] rolls back.  PostgreSQL's reading of a timestamp, [uuid5] and
    the ids the database draws are parameters.  No value ends in spaces, so a
    string longer than its column is an error. *)
From stdpp Require Import base gmap sets list strings pretty.
From Stdlib Require Import ZArith Lia.
From S2P Require Import Prelude Json ReviewPayload WebhookPayload.
Open Scope Z_scope.

(** * The state machine *)

Inductive pr_state := open_ | closed_ | merged_.
#[export] Instance pr_state_eq_dec : EqDecision pr_state.
Proof. solve_decision. Defined.

Inductive pr_error :=
| InvalidReopen (prior : option pr_state)
| UnderivableAction (action : string)
| PrTypeError            (* a value that its column type refuses *)
| PrCheckViolation
| PrUniqueViolation
| PrForeignKeyViolation
| PrFault                (* a lock or statement timeout, a deadlock *).

Definition DERIVABLE_ACTIONS : list string :=
  ["opened"; "synchronize"; "ready_for_review"; "converted_to_draft"; "edited"; "closed"; "reopened"].

Definition deriveStateFromAction (action : string) (is_merged : bool) (prior : option pr_state)
    : result pr_error (option pr_state * pr_state) :=
  if String.eqb action "opened" then Ok (None, open_)
  else if existsb (String.eqb action) ["synchronize"; "ready_for_review"; "converted_to_draft"; "edited"]
  then Ok (Some (default open_ prior), open_)
  else if String.eqb action "closed"
  then Ok (Some (default open_ prior), if is_merged then merged_ else closed_)
  else if String.eqb action "reopened" then
    match prior with
    | Some closed_ | Some merged_ => Ok (prior, open_)
    | _ => Throw (InvalidReopen prior)
    end
  else Throw (UnderivableAction action).

(** * The tables *)

Record gh_user := GhUser {
  gh_user_id : string;
  gu_login : string;
  gu_type : string;
  gu_name : option string;
  gu_avatar : option string;
  first_seen_at : Z;
  last_seen_at : Z;
}.

Record pr_row := PrRow {
  pr_id : string;
  pr_github_id : Z;
  pr_author : string;
  pr_state_of : pr_state;
  pr_title : string;
  pr_body : option string;
  pr_base_ref : string;
  pr_base_sha : string;
  pr_head_ref : string;
  pr_head_sha : string;
  pr_draft : bool;
  pr_cross_fork : bool;
  pr_opened_at : Z;
  pr_closed_at : option Z;
  pr_merged_at : option Z;
  pr_created_at : Z;
  pr_updated_at : Z;
}.

Record transition_row := TransitionRow {
  tr_id : string;
  tr_pr : string;
  tr_installation : string;
  tr_from : option pr_state;
  tr_to : pr_state;
  tr_action : string;
  tr_head_sha : string;
  tr_delivery : option string;
  tr_created_at : Z;
}.

(** [gh_users] by [github_user_id]; [pull_requests] by its natural key
    [(installation_id, repository_id, pr_number)]; transitions in insertion order.
    The webhook writes no [merge_commit_sha] and no [correlation_id]. *)
Record pr_tables := PrTables {
  users : gmap Z gh_user;
  prs : gmap (string * string * Z) pr_row;
  transitions : list transition_row;
}.

Definition in_int8 (n : Z) : bool := (- 2 ^ 63 <=? n) && (n <? 2 ^ 63).
Definition in_int4 (n : Z) : bool := (- 2 ^ 31 <=? n) && (n <? 2 ^ 31).
(** [varchar(n)], [char(n)]. *)
Definition fits (n : nat) (s : string) : bool := (String.length s <=? n)%nat.
Definition fits_opt (n : nat) (s : option string) : bool :=
  match s with Some s => fits n s | None => true end.

Definition any_row {K A} `{Countable K} (p : A -> bool) (t : gmap K A) : bool :=
  existsb (fun x => p x.2) (map_to_list t).

(** [upsertGhUser]: keyed on [github_user_id]; the type and [first_seen_at] stay. *)
Definition upsertGhUser (gid : Z) (login utype : string) (name avatar : option string) (now : Z)
    (fresh : string) (t : gmap Z gh_user) : result pr_error (gmap Z gh_user * string) :=
  guard? (in_int8 gid && fits 100 login && fits 20 utype && fits_opt 500 avatar) else PrTypeError in
  guard? ((1 <=? gid) && existsb (String.eqb utype) ["User"; "Bot"; "Organization"])
    else PrCheckViolation in
  match t !! gid with
  | Some r => Ok (<[gid := GhUser (gh_user_id r) login (gu_type r) name avatar (first_seen_at r) now]> t,
                  gh_user_id r)
  | None =>
      guard? (negb (any_row (fun r => String.eqb (gh_user_id r) fresh) t)) else PrUniqueViolation in
      Ok (<[gid := GhUser fresh login utype name avatar now now]> t, fresh)
  end.

Definition lookupPrState (k : string * string * Z) (t : gmap (string * string * Z) pr_row)
    : option pr_state := pr_state_of <$> t !! k.

(** The SET list of the conflict branch. *)
Definition merge_pr (new old : pr_row) : pr_row :=
  {| pr_id := pr_id old; pr_github_id := pr_github_id old; pr_author := pr_author old;
     pr_state_of := pr_state_of new; pr_title := pr_title new; pr_body := pr_body new;
     pr_base_ref := pr_base_ref old; pr_base_sha := pr_base_sha old;
     pr_head_ref := pr_head_ref new; pr_head_sha := pr_head_sha new; pr_draft := pr_draft new;
     pr_cross_fork := pr_cross_fork new; pr_opened_at := pr_opened_at old;
     pr_closed_at := pr_closed_at new; pr_merged_at := pr_merged_at new;
     pr_created_at := pr_created_at old; pr_updated_at := pr_updated_at new |}.

Definition pr_types (num : Z) (r : pr_row) : bool :=
  in_int4 num && in_int8 (pr_github_id r) && fits 500 (pr_title r) && fits 255 (pr_base_ref r)
  && fits 40 (pr_base_sha r) && fits 255 (pr_head_ref r) && fits 40 (pr_head_sha r).

(** [upsertPullRequest]: the conflict target is the natural key; the primary key
    and [uq_pull_requests_github_id] are not. [parents]: the installation and the
    repository exist. *)
Definition upsertPullRequest (parents : bool) (us : gmap Z gh_user) (k : string * string * Z)
    (r : pr_row) (t : gmap (string * string * Z) pr_row)
    : result pr_error (gmap (string * string * Z) pr_row) :=
  guard? (pr_types k.2 r) else PrTypeError in
  guard? (1 <=? k.2) else PrCheckViolation in
  match t !! k with
  | Some old => Ok (<[k := merge_pr r old]> t)
  | None =>
      guard? (negb (any_row (fun q => String.eqb (pr_id q) (pr_id r)
                                      || (pr_github_id q =? pr_github_id r)) t))
        else PrUniqueViolation in
      guard? (parents && any_row (fun u => String.eqb (gh_user_id u) (pr_author r)) us)
        else PrForeignKeyViolation in
      Ok (<[k := r]> t)
  end.

(** [emitPrStateTransition]: [ON CONFLICT (delivery_id) ... DO NOTHING]. *)
Definition same_delivery_id (a b : option string) : bool :=
  match a, b with Some x, Some y => String.eqb x y | _, _ => false end.

Definition emitPrStateTransition (ps : gmap (string * string * Z) pr_row) (r : transition_row)
    (l : list transition_row) : result pr_error (list transition_row) :=
  guard? (fits 40 (tr_head_sha r) && fits_opt 128 (tr_delivery r)) else PrTypeError in
  if existsb (fun q => same_delivery_id (tr_delivery q) (tr_delivery r)) l then Ok l
  else
    guard? (negb (existsb (fun q => String.eqb (tr_id q) (tr_id r)) l)) else PrUniqueViolation in
    guard? (any_row (fun q => String.eqb (pr_id q) (tr_pr r)) ps) else PrForeignKeyViolation in
    Ok (l ++ [r]).

(** * The writer *)

Section Writer.
Variable timestamptz : string -> option Z.
Variable uuid5 : string -> string -> string.

Definition PR_ID_NAMESPACE : string := "e6c2c4f4-f8e4-4a3b-8e6e-2a8b4f1f9c1d".
Definition derivePrId (k : string * string * Z) : string :=
  uuid5 PR_ID_NAMESPACE (k.1.1 +:+ "/" +:+ k.1.2 +:+ "/" +:+ pretty k.2).

(** What the clock and the database supply. *)
Record pr_env := PrEnv { pe_now : Z; pe_user : string; pe_transition : string; pe_parents : bool }.

Definition or_else (s other : string) : string := if String.eqb s "" then other else s.
Definition terminal_at (to : pr_state) (now : Z) : option Z :=
  match to with open_ => None | _ => Some now end.

(** The row of the INSERT; [None] when PostgreSQL refuses [opened_at]. *)
Definition pr_row_of (m : pr_metadata) (k : string * string * Z) (gid : Z) (author : string)
    (to : pr_state) (now : Z) : option pr_row :=
  opened ← match openedAt m with Some s => timestamptz s | None => Some now end;
  Some {| pr_id := derivePrId k; pr_github_id := gid; pr_author := author; pr_state_of := to;
          pr_title := prTitle m;
          pr_body := if String.eqb (prDescription m) "" then None else Some (prDescription m);
          pr_base_ref := or_else (baseRef m) "main"; pr_base_sha := or_else (baseSha m) (headSha m);
          pr_head_ref := or_else (headRef m) "main"; pr_head_sha := headSha m;
          pr_draft := pm_draft m; pr_cross_fork := isCrossFork m; pr_opened_at := opened;
          pr_closed_at := terminal_at to now;
          pr_merged_at := match to with merged_ => Some now | _ => None end;
          pr_created_at := now; pr_updated_at := now |}.

(** The three writes, once the guards have passed. *)
Definition persist_trio (e : pr_env) (m : pr_metadata) (k : string * string * Z)
    (delivery : option string) (uid : Z) (login utype : string) (gid : Z)
    (from : option pr_state) (to : pr_state) (t : pr_tables) : result pr_error pr_tables :=
  let? (us, author) := upsertGhUser uid login utype (authorName m) (authorAvatarUrl m) (pe_now e)
                         (pe_user e) (users t) in
  match pr_row_of m k gid author to (pe_now e) with
  | None => Throw PrTypeError
  | Some r =>
      let? ps := upsertPullRequest (pe_parents e) us k r (prs t) in
      let? l := emitPrStateTransition ps
        (TransitionRow (pe_transition e) (derivePrId k) k.1.1 from to (pm_action m) (headSha m)
           delivery (pe_now e)) (transitions t) in
      Ok (PrTables us ps l)
  end.

(** [maybePersistPr]; a guard that fails returns without a write. *)
Definition maybePersistPr (e : pr_env) (m : pr_metadata) (iid repo : string)
    (delivery : option string) (t : pr_tables) : result pr_error pr_tables :=
  match authorGithubUserId m, authorLogin m, authorUserType m, githubPullRequestId m with
  | Some uid, Some login, Some utype, Some gid =>
      if gid <=? 0 then Ok t
      else if negb (existsb (String.eqb (pm_action m)) DERIVABLE_ACTIONS) then Ok t
      else
        let k := (iid, repo, prNumber m) in
        match deriveStateFromAction (pm_action m) (merged m) (lookupPrState k (prs t)) with
        | Throw _ => Ok t
        | Ok (from, to) => persist_trio e m k delivery uid login utype gid from to t
        end
  | _, _, _, _ => Ok t
  end.

(** [safePersistPr]: the savepoint.  [fault] is an error of the database itself. *)
Definition safePersistPr (fault : bool) (e : pr_env) (m : pr_metadata) (iid repo : string)
    (delivery : option string) (t : pr_tables) : pr_tables :=
  match (if fault then Throw PrFault else maybePersistPr e m iid repo delivery t) with
  | Ok t' => t'
  | Throw _ => t
  end.
End Writer.

(** * The invariant *)

Definition transitions_of (pr : string) (l : list transition_row) : list transition_row :=
  filter (fun r => tr_pr r = pr) l.

(** The log of one pull request: a row that is not the first names the state
    before it, unless it records an opening. *)
Fixpoint chained (l : list transition_row) : Prop :=
  match l with
  | x :: ((y :: _) as l') => (tr_from y = None \/ tr_from y = Some (tr_to x)) /\ chained l'
  | _ => True
  end.

Section Invariant.
Context (timestamptz : string -> option Z) (uuid5 : string -> string -> string).

(** Every pull request has its derived id and a known author; no two share an id
    or a GitHub id; the closing stamps match the state; its log ends in its
    state and head. *)
Record pr_inv (t : pr_tables) : Prop := {
  pi_id : forall k r, prs t !! k = Some r -> pr_id r = derivePrId uuid5 k;
  pi_author : forall k r, prs t !! k = Some r ->
    exists g u, users t !! g = Some u /\ gh_user_id u = pr_author r;
  pi_users : forall g u g' u', users t !! g = Some u -> users t !! g' = Some u' ->
    gh_user_id u = gh_user_id u' -> g = g';
  pi_unique : forall k r k' r', prs t !! k = Some r -> prs t !! k' = Some r' ->
    pr_id r = pr_id r' \/ pr_github_id r = pr_github_id r' -> k = k';
  pi_closed : forall k r, prs t !! k = Some r ->
    (is_Some (pr_closed_at r) <-> pr_state_of r <> open_) /\
    (is_Some (pr_merged_at r) <-> pr_state_of r = merged_);
  pi_known : forall r, r ∈ transitions t -> exists k q, prs t !! k = Some q /\ pr_id q = tr_pr r;
  pi_log : forall k r, prs t !! k = Some r ->
    chained (transitions_of (pr_id r) (transitions t)) /\
    exists x, last (transitions_of (pr_id r) (transitions t)) = Some x /\
      tr_to x = pr_state_of r /\ tr_head_sha x = pr_head_sha r;
}.

(** One delivery, whose id no transition carries yet. *)
Inductive pr_step (t : pr_tables) : pr_tables -> Prop :=
| pr_deliver fault e m iid repo delivery :
    (forall r, r ∈ transitions t -> same_delivery_id (tr_delivery r) delivery = false) ->
    pr_step t (safePersistPr timestamptz uuid5 fault e m iid repo delivery t).

Inductive pr_reachable : pr_tables -> Prop :=
| pr_start : pr_reachable (PrTables ∅ ∅ [])
| pr_next t t' : pr_reachable t -> pr_step t t' -> pr_reachable t'.
End Invariant.

(** * Lemmas *)

Lemma any_row_true {K A} `{Countable K} (p : A -> bool) (t : gmap K A) :
  any_row p t = true <-> exists k r, t !! k = Some r /\ p r = true.
Proof.
  unfold any_row. rewrite existsb_exists. split.
  - intros ([k r] & Hin & Hp). apply list_elem_of_In, elem_of_map_to_list in Hin. eauto.
  - intros (k & r & Hk & Hp). exists (k, r). split; [|done].
    by apply list_elem_of_In, elem_of_map_to_list.
Qed.

Lemma any_row_false {K A} `{Countable K} (p : A -> bool) (t : gmap K A) :
  any_row p t = false <-> forall k r, t !! k = Some r -> p r = false.
Proof.
  rewrite <- not_true_iff_false, any_row_true. split.
  - intros Hn k r Hk. apply not_true_iff_false. intros Hp. apply Hn. eauto.
  - intros Hf (k & r & Hk & Hp). by rewrite (Hf k r Hk) in Hp.
Qed.

(** A user's row survives, under its id; the author's row exists. *)
Lemma upsertGhUser_ok gid login utype name avatar now fresh t t' author :
  upsertGhUser gid login utype name avatar now fresh t = Ok (t', author) ->
  (exists u, t' !! gid = Some u /\ gh_user_id u = author) /\
  (forall g u, t !! g = Some u -> exists u', t' !! g = Some u' /\ gh_user_id u' = gh_user_id u) /\
  (forall g u', t' !! g = Some u' -> g <> gid -> t !! g = Some u') /\
  match t !! gid with
  | Some u => author = gh_user_id u
  | None => forall g u, t !! g = Some u -> gh_user_id u <> author
  end.
Proof.
  unfold upsertGhUser. intros H. ok_inv H. destruct (t !! gid) as [r|] eqn:Er.
  - injection H as <- <-. split_and!; [|intros g u Hg|intros g u Hg Hne|done].
    + eexists. by rewrite lookup_insert_eq.
    + destruct (decide (g = gid)) as [->|Hne]; [|rewrite lookup_insert_ne by done; eauto].
      rewrite lookup_insert_eq. eexists. split; [done|]. simpl. congruence.
    + by rewrite lookup_insert_ne in Hg.
  - destruct (negb _) eqn:Ef; [|done]. injection H as <- <-. bool_to_prop.
    rewrite any_row_false in Ef. split_and!; [|intros g u Hg|intros g u Hg Hne|].
    + eexists. by rewrite lookup_insert_eq.
    + exists u. rewrite lookup_insert_ne by congruence. done.
    + by rewrite lookup_insert_ne in Hg.
    + intros g u Hg. specialize (Ef g u Hg). by apply String.eqb_neq in Ef.
Qed.

Lemma upsertPullRequest_ok parents us k r t t' :
  upsertPullRequest parents us k r t = Ok t' ->
  pr_types k.2 r = true /\ 1 <= k.2 /\
  match t !! k with
  | Some old => t' = <[k := merge_pr r old]> t
  | None => t' = <[k := r]> t /\ parents = true /\
      (exists g u, us !! g = Some u /\ gh_user_id u = pr_author r) /\
      forall j q, t !! j = Some q -> pr_id q <> pr_id r /\ pr_github_id q <> pr_github_id r
  end.
Proof.
  unfold upsertPullRequest. intros H. ok_inv H. bool_to_prop. split; [done|]. split; [done|].
  destruct (t !! k) as [old|]; [by injection H as <-|].
  destruct (negb _) eqn:Eu; [|done]. destruct (parents && _)%bool eqn:Ef; [|done].
  injection H as <-. bool_to_prop. split_and!; [done|done| |].
  - match goal with H : any_row _ us = true |- _ => apply any_row_true in H as (g & u & Hg & Hu) end.
    apply String.eqb_eq in Hu. eauto.
  - intros j q Hq. rewrite any_row_false in Eu. specialize (Eu j q Hq). by bool_to_prop.
Qed.

Lemma emitPrStateTransition_ok ps r l l' :
  emitPrStateTransition ps r l = Ok l' ->
  (forall q, q ∈ l -> same_delivery_id (tr_delivery q) (tr_delivery r) = false) ->
  l' = l ++ [r] /\ exists k q, ps !! k = Some q /\ pr_id q = tr_pr r.
Proof.
  unfold emitPrStateTransition. intros H Hf. destruct (_ && _)%bool; [|done].
  destruct (existsb _ l) eqn:Ed.
  { exfalso. apply existsb_exists in Ed as (q & Hq & E). apply list_elem_of_In in Hq.
    by rewrite Hf in E. }
  destruct (negb _); [|done]. destruct (any_row _ ps) eqn:Ep; [|done]. injection H as <-.
  split; [done|]. apply any_row_true in Ep as (k & q & Hk & E). apply String.eqb_eq in E. eauto.
Qed.

Lemma chained_snoc l y :
  chained l -> (forall x, last l = Some x -> tr_from y = None \/ tr_from y = Some (tr_to x)) ->
  chained (l ++ [y]).
Proof.
  induction l as [|x l IH]; [done|]. intros Hc Hl. destruct l as [|z l].
  - split; [by apply Hl|done].
  - destruct Hc as [Hz Hc]. split; [done|]. by apply IH.
Qed.

(** What a derived transition has to do with the state before it. *)
Lemma derive_from action mg prior from to :
  deriveStateFromAction action mg prior = Ok (from, to) ->
  from = None \/ from = Some (default open_ prior).
Proof.
  unfold deriveStateFromAction. intros H.
  destruct (String.eqb action "opened"); [injection H as <- <-; auto|].
  destruct (existsb _ _); [injection H as <- <-; auto|].
  destruct (String.eqb action "closed"); [injection H as <- <-; auto|].
  destruct (String.eqb action "reopened"); [|done].
  destruct prior as [[]|]; try done; injection H as <- <-; auto.
Qed.

Section Preservation.
Context (timestamptz : string -> option Z) (uuid5 : string -> string -> string).
Local Abbreviation inv := (pr_inv uuid5).
Local Abbreviation derive := (derivePrId uuid5).

Lemma pr_row_of_ok m k gid author to now r :
  pr_row_of timestamptz uuid5 m k gid author to now = Some r ->
  pr_author r = author /\ pr_id r = derive k /\ pr_state_of r = to /\ pr_head_sha r = headSha m /\
  (is_Some (pr_closed_at r) <-> to <> open_) /\ (is_Some (pr_merged_at r) <-> to = merged_).
Proof.
  unfold pr_row_of. intros (o & _ & [= <-])%bind_Some. simpl.
  destruct to; simpl; split_and!; try done; split; try done; try (by intros []); by eexists.
Qed.

(** The row under [k] after the write. *)
Definition written (t : pr_tables) (k : string * string * Z) (r : pr_row) : pr_row :=
  match prs t !! k with Some old => merge_pr r old | None => r end.

(** The effect of the three writes. *)
Record trio_effect (e : pr_env) (m : pr_metadata) (k : string * string * Z) (delivery : option string)
    (gid : Z) (from : option pr_state) (to : pr_state) (t t' : pr_tables) (r : pr_row) : Prop := {
  te_row : exists author, pr_row_of timestamptz uuid5 m k gid author to (pe_now e) = Some r;
  te_author : exists g u, users t' !! g = Some u /\ gh_user_id u = pr_author r;
  te_users : forall g u, users t !! g = Some u ->
    exists g' u', users t' !! g' = Some u' /\ gh_user_id u' = gh_user_id u;
  te_users_unique : forall g u g' u', users t' !! g = Some u -> users t' !! g' = Some u' ->
    gh_user_id u = gh_user_id u' -> g = g';
  te_prs : prs t' = <[k := written t k r]> (prs t);
  te_new : prs t !! k = None -> forall j q, prs t !! j = Some q ->
    pr_id q <> pr_id r /\ pr_github_id q <> pr_github_id r;
  te_log : transitions t' = transitions t ++
    [TransitionRow (pe_transition e) (derive k) k.1.1 from to (pm_action m) (headSha m) delivery (pe_now e)];
}.

Lemma persist_trio_ok e m k delivery uid login utype gid from to t t' :
  inv t -> (forall q, q ∈ transitions t -> same_delivery_id (tr_delivery q) delivery = false) ->
  persist_trio timestamptz uuid5 e m k delivery uid login utype gid from to t = Ok t' ->
  exists r, trio_effect e m k delivery gid from to t t' r.
Proof.
  intros Hi Hf H. unfold persist_trio in H. apply rbind_ok in H as ([us author] & Hu & H).
  destruct (pr_row_of _ _ _ _ _ _ _ _) as [r|] eqn:Er; [|done].
  apply rbind_ok in H as (ps & Hp & H). apply rbind_ok in H as (l & Hl & H). injection H as <-.
  apply upsertGhUser_ok in Hu as (Ha & Hkeep & Hback & Hnew).
  apply upsertPullRequest_ok in Hp as (_ & _ & Hp).
  apply emitPrStateTransition_ok in Hl as [-> _]; [|done].
  assert (Hau : pr_author r = author).
  { apply (pr_row_of_ok _ _ _ _ _ _ _ Er). }
  exists r. split; simpl; [by eexists| | | | | |done].
  - destruct Ha as (u & ? & ?). exists uid, u. by rewrite Hau.
  - intros g u Hg. destruct (Hkeep g u Hg) as (u' & ? & ?). eauto.
  - intros g u g' u' Hg Hg' E. destruct Ha as (ua & Hua & Ha).
    assert (Hother : forall j v, us !! j = Some v -> j <> uid -> gh_user_id v <> author).
    { intros j v Hj Hne Hv. specialize (Hback j v Hj Hne). destruct (users t !! uid) as [w|] eqn:Ew.
      - apply Hne. eapply (pi_users _ _ Hi); [done..|]. congruence.
      - by apply (Hnew j v). }
    destruct (decide (g = uid)) as [->|Hg1], (decide (g' = uid)) as [->|Hg2]; [done|..].
    + exfalso. apply (Hother g' u' Hg' Hg2). congruence.
    + exfalso. apply (Hother g u Hg Hg1). congruence.
    + eapply (pi_users _ _ Hi); eauto.
  - unfold written. destruct (prs t !! k); [done|]. by destruct Hp as [-> _].
  - intros Hk. rewrite Hk in Hp. destruct Hp as (_ & _ & _ & Hp). done.
Qed.

Lemma trio_inv e m k delivery gid from to t t' r prior :
  prior = lookupPrState k (prs t) -> deriveStateFromAction (pm_action m) (merged m) prior = Ok (from, to) ->
  inv t -> trio_effect e m k delivery gid from to t t' r -> inv t'.
Proof.
  intros Hprior Hd Hi He. destruct He as [[author Hrow] Ha Hus Huniq Hps Hnew Hlog].
  assert (Hr : pr_id r = derive k /\ pr_state_of r = to /\ pr_head_sha r = headSha m /\
    (is_Some (pr_closed_at r) <-> to <> open_) /\ (is_Some (pr_merged_at r) <-> to = merged_)).
  { apply pr_row_of_ok in Hrow. naive_solver. }
  destruct Hr as (Hid & Hto & Hsha & Hst).
  assert (Hw : pr_id (written t k r) = derive k /\ pr_state_of (written t k r) = to /\
    pr_head_sha (written t k r) = headSha m /\
    (is_Some (pr_closed_at (written t k r)) <-> to <> open_) /\
    (is_Some (pr_merged_at (written t k r)) <-> to = merged_)).
  { unfold written. destruct (prs t !! k) as [old|] eqn:Ek; [|done]. simpl.
    by rewrite (pi_id _ _ Hi k old Ek). }
  destruct Hw as (Hwid & Hwto & Hwsha & Hwst).
  assert (Hother : forall j q, prs t !! j = Some q -> j <> k ->
    pr_id q <> derive k /\ pr_github_id q <> pr_github_id (written t k r)).
  { intros j q Hj Hne. unfold written. destruct (prs t !! k) as [old|] eqn:Ek.
    - simpl. rewrite <- (pi_id _ _ Hi k old Ek).
      split; intros E; apply Hne; eapply (pi_unique _ _ Hi); eauto.
    - rewrite <- Hid. by apply (Hnew eq_refl j q). }
  split.
  - intros j q. rewrite Hps, lookup_insert_Some. intros [[<- <-]|[_ Hq]]; [done|].
    by apply (pi_id _ _ Hi).
  - intros j q. rewrite Hps, lookup_insert_Some. intros [[<- <-]|[_ Hq]].
    + unfold written. destruct (prs t !! k) as [old|] eqn:Ek; [|done]. simpl.
      destruct (pi_author _ _ Hi k old Ek) as (g & u & Hg & <-). by eapply Hus.
    + destruct (pi_author _ _ Hi j q Hq) as (g & u & Hg & <-). by eapply Hus.
  - done.
  - intros j q j' q'. rewrite Hps, !lookup_insert_Some.
    intros [[<- <-]|[Hne Hq]] [[<- <-]|[Hne' Hq']] E; [done|..].
    + exfalso. destruct (Hother j' q' Hq') as [H1 H2]; [done|]. rewrite Hwid in E.
      destruct E as [E|E]; congruence.
    + exfalso. destruct (Hother j q Hq) as [H1 H2]; [done|]. rewrite Hwid in E.
      destruct E as [E|E]; congruence.
    + by eapply (pi_unique _ _ Hi).
  - intros j q. rewrite Hps, lookup_insert_Some. intros [[<- <-]|[_ Hq]]; [by rewrite Hwto|].
    by apply (pi_closed _ _ Hi j).
  - intros x. rewrite Hlog, elem_of_app, list_elem_of_singleton, Hps. intros [Hx| ->].
    + destruct (pi_known _ _ Hi x Hx) as (j & q & Hq & Eq).
      destruct (decide (j = k)) as [->|Hne].
      * exists k, (written t k r). rewrite lookup_insert_eq. split; [done|].
        by rewrite Hwid, <- (pi_id _ _ Hi k q Hq).
      * exists j, q. by rewrite lookup_insert_ne.
    + exists k, (written t k r). by rewrite lookup_insert_eq.
  - intros j q. rewrite Hps, lookup_insert_Some, Hlog. unfold transitions_of. rewrite filter_app.
    intros [[<- <-]|[Hne Hq]].
    + rewrite Hwid, filter_cons_True, filter_nil by done. rewrite last_snoc. split; [|by eauto].
      apply chained_snoc.
      * destruct (prs t !! k) as [old|] eqn:Ek.
        -- rewrite <- (pi_id _ _ Hi k old Ek). apply (pi_log _ _ Hi k old Ek).
        -- assert (filter (fun x => tr_pr x = derive k) (transitions t) = []) as ->; [|done].
           apply filter_nothing. intros x Hx E.
           destruct (pi_known _ _ Hi x Hx) as (j & q & Hq & Eq).
           destruct (Hnew eq_refl j q Hq) as [Hn _]. congruence.
      * intros x Hx. simpl. destruct (derive_from _ _ _ _ _ Hd) as [?|Hfrom]; [by left|right].
        rewrite Hfrom, Hprior. unfold lookupPrState.
        destruct (prs t !! k) as [old|] eqn:Ek; simpl.
        -- destruct (pi_log _ _ Hi k old Ek) as (_ & y & Hy & <- & _).
           rewrite (pi_id _ _ Hi k old Ek) in Hy. unfold transitions_of in Hy. congruence.
        -- exfalso. apply last_Some_elem_of in Hx as [E Hx]%list_elem_of_filter.
           destruct (pi_known _ _ Hi x Hx) as (j & q & Hq & Eq).
           destruct (Hnew eq_refl j q Hq) as [Hn _]. congruence.
    + destruct (Hother j q Hq) as [Hn _]; [done|].
      rewrite filter_cons_False, filter_nil, app_nil_r by (simpl; congruence).
      by apply (pi_log _ _ Hi j).
Qed.

Lemma maybePersistPr_inv e m iid repo delivery t t' :
  (forall q, q ∈ transitions t -> same_delivery_id (tr_delivery q) delivery = false) ->
  maybePersistPr timestamptz uuid5 e m iid repo delivery t = Ok t' -> inv t -> inv t'.
Proof.
  intros Hf H Hi. unfold maybePersistPr in H.
  destruct (authorGithubUserId m) as [uid|]; [|by injection H as <-].
  destruct (authorLogin m) as [login|]; [|by injection H as <-].
  destruct (authorUserType m) as [utype|]; [|by injection H as <-].
  destruct (githubPullRequestId m) as [gid|]; [|by injection H as <-].
  destruct (gid <=? 0); [by injection H as <-|].
  destruct (negb _); [by injection H as <-|].
  destruct (deriveStateFromAction _ _ _) as [[from to]|] eqn:Ed; [|by injection H as <-].
  destruct (persist_trio_ok _ _ _ _ _ _ _ _ _ _ _ _ Hi Hf H) as [r He]. by eapply trio_inv.
Qed.

Lemma pr_reachable_inv t : pr_reachable timestamptz uuid5 t -> inv t.
Proof.
  intros H. induction H as [|t t' _ IH Hs].
  { split; simpl; intros; simplify_map_eq. by apply elem_of_nil in H. }
  destruct Hs as [fault e m iid repo delivery Hf]. unfold safePersistPr.
  destruct fault; [done|]. destruct (maybePersistPr _ _ _ _ _ _ _ _) as [t'|] eqn:E; [|done].
  by eapply maybePersistPr_inv.
Qed.
End Preservation.

(** * Properties *)

(** The pull-request tables agree with each other.  After any sequence of
    deliveries with distinct ids, whatever they carry and whether or not the
    database faulted: every pull request has its derived id and a known author,
    and shares neither id nor GitHub id with another; it has a closing stamp
    exactly when it is closed or merged, and a merge stamp exactly when it is
    merged; and its transition log chains from state to state and ends in the
    state and head commit of its row. *)
Theorem pr_reachable_ok timestamptz uuid5 t : pr_reachable timestamptz uuid5 t -> pr_inv uuid5 t.
Proof. apply pr_reachable_inv. Qed.

(** * Witnesses and examples *)

Definition ex_timestamptz (s : string) : option Z := Some 0.
Definition ex_uuid5 (ns name : string) : string := name.
Definition ex_sha : string := "0123456789abcdef0123456789abcdef01234567".

Definition ex_meta (action : string) (is_merged : bool) : pr_metadata :=
  {| pm_action := action; prNumber := 7; headSha := ex_sha; ghOwner := "acme"; ghRepoName := "app";
     prTitle := "Fix the parser"; prDescription := ""; githubRepoId := 7; isCrossFork := false;
     headRepoFullName := "acme/app"; githubPullRequestId := Some 900; authorGithubUserId := Some 5;
     authorLogin := Some "ada"; authorUserType := Some "User"; authorName := None;
     authorAvatarUrl := None; baseRef := "main"; baseSha := ex_sha; headRef := "feature";
     pm_draft := false; merged := is_merged; openedAt := Some "2026-01-01T00:00:00+00:00" |}.

Definition ex_persist (now : Z) (action : string) (is_merged : bool) (delivery : string)
    (t : pr_tables) : pr_tables :=
  safePersistPr ex_timestamptz ex_uuid5 false
    (PrEnv now "u1" ("t" +:+ delivery) true) (ex_meta action is_merged) "i1" "repo1" (Some delivery) t.

Definition ex_opened : pr_tables := ex_persist 10 "opened" false "d1" (PrTables ∅ ∅ []).
Definition ex_merged : pr_tables := ex_persist 20 "closed" true "d2" ex_opened.

Lemma ex_merged_reachable : pr_reachable ex_timestamptz ex_uuid5 ex_merged.
Proof.
  eapply pr_next; [eapply pr_next; [apply pr_start|]|].
  - apply (pr_deliver _ _ _ false). by intros r ?%elem_of_nil.
  - apply (pr_deliver _ _ _ false). intros r Hr. vm_compute in Hr.
    apply elem_of_cons in Hr as [->|Hr]; [by vm_compute|by apply elem_of_nil in Hr].
Qed.

Lemma pr_reachable_ok_witness :
  lookupPrState ("i1", "repo1", 7) (prs ex_merged) = Some merged_ /\ pr_inv ex_uuid5 ex_merged.
Proof. split; [by vm_compute|]. apply (pr_reachable_ok ex_timestamptz), ex_merged_reachable. Defined.

(** An edit of a merged pull request's title makes its row open again, without
    stamps. *)
Example edited_reopens :
  let t := ex_persist 30 "edited" true "d3" ex_merged in
  lookupPrState ("i1", "repo1", 7) (prs t) = Some open_ /\
  (pr_merged_at <$> prs t !! ("i1", "repo1", 7)) = Some None.
Proof. by vm_compute. Qed.

(** A redelivery that the idempotency table has forgotten rewrites the state but
    not the log: the row is merged again while its log ends open. *)
Example redelivery_splits_log :
  let t := ex_persist 40 "closed" true "d2" (ex_persist 30 "reopened" false "d3" ex_merged) in
  lookupPrState ("i1", "repo1", 7) (prs t) = Some merged_ /\
  (tr_to <$> last (transitions t)) = Some open_.
Proof. by vm_compute. Qed.
