(* ===== verification/Repair.v ===== *)
(** [ingest/_repair_state.ts] and [ingest/_repair_dispatcher.ts]: the gate on the
    repair of an installation's repositories.  [cache.repository_repair_state] is
    a map from GitHub installation ids; [now] is the transaction's [now()], in
    milliseconds.  The dispatcher appends to the outbox of [Outbox]. *)
From stdpp Require Import base gmap sets list strings pretty.
From Stdlib Require Import ZArith Lia Ascii.
From S2P Require Import Prelude Json Outbox WebhookPayload PrPersistence.
Open Scope Z_scope.

(** * The state *)

(** [blocked_reason] and [blocked_at] are null together. *)
Record repair_row := RepairRow { last_attempt_at : Z; blocked : option (string * Z) }.

Definition REPAIR_BLOCKED_REASONS : list string :=
  ["installation_not_found"; "installation_suspended"; "app_unauthorized"; "app_uninstalled"].

Definition DEFAULT_COOLDOWN_SECONDS : Z := 300.
Definition MIN_COOLDOWN_SECONDS : Z := 60.
Definition MAX_COOLDOWN_SECONDS : Z := 3600.

(** The value of a string that matches [/^[+-]?\d+$/]. *)
Definition signed_digits (s : string) : option Z :=
  match s with
  | String c s' =>
      if Ascii.eqb c "+" then digits_of s'
      else if Ascii.eqb c "-" then Z.opp <$> digits_of s'
      else digits_of s
  | EmptyString => None
  end.

Definition getCooldownSeconds (raw : option string) : Z :=
  match raw with
  | None => DEFAULT_COOLDOWN_SECONDS
  | Some s => match signed_digits (JsString.trim s) with
              | None => DEFAULT_COOLDOWN_SECONDS
              | Some v => Z.max MIN_COOLDOWN_SECONDS (Z.min MAX_COOLDOWN_SECONDS v)
              end
  end.

Record repair_decision := RepairDecision {
  allowEnqueue : bool;
  cooldownActive : bool;
  isBlocked : bool;
  blockedReason : option string;
}.

Definition getStateForEnqueueDecision (raw : option string) (now gid : Z) (t : gmap Z repair_row)
    : repair_decision :=
  match t !! gid with
  | None => RepairDecision true false false None
  | Some r =>
      let cooling := now - 1000 * getCooldownSeconds raw <? last_attempt_at r in
      let b := bool_decide (is_Some (blocked r)) in
      RepairDecision (negb (cooling || b)) cooling b (fst <$> blocked r)
  end.

Definition markAttempted (now gid : Z) (t : gmap Z repair_row) : gmap Z repair_row :=
  <[gid := RepairRow now (r ← t !! gid; blocked r)]> t.

Definition clearOnSuccess (gid : Z) (t : gmap Z repair_row) : gmap Z repair_row := delete gid t.

(** [None] is the violated vocabulary CHECK. *)
Definition markBlocked (now gid : Z) (reason : string) (t : gmap Z repair_row)
    : option (gmap Z repair_row) :=
  if existsb (String.eqb reason) REPAIR_BLOCKED_REASONS
  then Some (<[gid := RepairRow now (Some (reason, now))]> t)
  else None.

(** * The dispatcher *)

Inductive repair_metric :=
| RepairEnqueued (trigger : string)
| RepairCooldownSkip (trigger : string)
| RepairBlockedSkip (reason : string).

Inductive repair_error := RepairZodError | RepairOutboxError (e : outbox_error) | RepairBigintRange.

Definition REPAIR_INSTALLATION_REPOSITORIES_WORKFLOW_TYPE : string := "repairInstallationRepositories".
Definition RECONCILE_PAYLOAD_SCHEMA_VERSION : Z := 1.

(** [TemporalWorkflowStartPayloadV1.parse] of an envelope without the optional
    fields: the fields in schema order, the defaults filled in. *)
Definition temporal_start (wtype wid queue : string) (args : list json) : json :=
  JObj [("schema_version", num 2); ("workflow_type", JStr wtype); ("workflow_id", JStr wid);
        ("task_queue", JStr queue); ("args", JArr args);
        ("execution_timeout_seconds", num 900); ("run_timeout_seconds", num 900);
        ("search_attributes", JObj []); ("id_reuse_policy", JStr "ALLOW_DUPLICATE");
        ("id_conflict_policy", JStr "USE_EXISTING")].

(** [RepairInstallationRepositoriesPayloadV1] wants a positive id. *)
Definition buildRepairEnvelope (queue : string) (gid : Z) (trigger : string) : result repair_error json :=
  guard? (1 <=? gid) else RepairZodError in
  Ok (temporal_start REPAIR_INSTALLATION_REPOSITORIES_WORKFLOW_TYPE
        ("repair-installation-repositories/" +:+ pretty gid) queue
        [JObj [("schema_version", num 1); ("github_installation_id", num gid);
               ("trigger_source", JStr trigger)]]).

Record repair_env := RepairEnv {
  re_cooldown : option string;
  re_queue : string;
  re_now : Z;
  re_outbox_id : string;
}.

(** The tables, whether it enqueued, and the counter it fired. *)
Definition maybeEnqueueRepair (e : repair_env) (gid : Z) (trigger : string) (delivery : option string)
    (t : gmap Z repair_row) (ob : outbox)
    : result repair_error (gmap Z repair_row * outbox * bool * repair_metric) :=
  guard? (in_int8 gid) else RepairBigintRange in
  let d := getStateForEnqueueDecision (re_cooldown e) (re_now e) gid t in
  if isBlocked d then Ok (t, ob, false, RepairBlockedSkip (default "unknown" (blockedReason d)))
  else if cooldownActive d then Ok (t, ob, false, RepairCooldownSkip trigger)
  else
    let? env := buildRepairEnvelope (re_queue e) gid trigger in
    match appendReconcile (re_outbox_id e) env RECONCILE_PAYLOAD_SCHEMA_VERSION delivery (re_now e) ∅ ob with
    | Throw x => Throw (RepairOutboxError x)
    | Ok ob' => Ok (markAttempted (re_now e) gid t, ob', true, RepairEnqueued trigger)
    end.

(** What can happen to the state of one installation. *)
Inductive repair_op :=
| OpEnqueue (e : repair_env) (trigger : string) (delivery : option string)
| OpBlock (now : Z) (reason : string).

Definition repair_step (gid : Z) (s : gmap Z repair_row * outbox) (o : repair_op)
    : gmap Z repair_row * outbox :=
  match o with
  | OpEnqueue e trigger delivery =>
      match maybeEnqueueRepair e gid trigger delivery s.1 s.2 with
      | Ok (t', ob', _, _) => (t', ob')
      | Throw _ => s
      end
  | OpBlock now reason => match markBlocked now gid reason s.1 with
                          | Some t' => (t', s.2)
                          | None => s
                          end
  end.

(** * Lemmas *)

Lemma cooldown_bounds raw : MIN_COOLDOWN_SECONDS <= getCooldownSeconds raw <= MAX_COOLDOWN_SECONDS.
Proof.
  unfold getCooldownSeconds, MIN_COOLDOWN_SECONDS, MAX_COOLDOWN_SECONDS, DEFAULT_COOLDOWN_SECONDS.
  destruct raw as [s|]; [|lia]. destruct (signed_digits _); lia.
Qed.

(** An attempt at or after [since], or a block: nothing is enqueued within a
    minute of [since]. *)
Definition held (since gid : Z) (t : gmap Z repair_row) : Prop :=
  exists r, t !! gid = Some r /\ (is_Some (blocked r) \/ since <= last_attempt_at r).

Lemma held_suppresses since e gid trigger delivery t ob t' ob' b mt :
  held since gid t -> re_now e < since + 1000 * MIN_COOLDOWN_SECONDS ->
  maybeEnqueueRepair e gid trigger delivery t ob = Ok (t', ob', b, mt) ->
  b = false /\ t' = t /\ ob' = ob.
Proof.
  intros (r & Hr & Hh) Hnow H. unfold maybeEnqueueRepair, getStateForEnqueueDecision in H.
  destruct (in_int8 gid); [|done]. rewrite Hr in H. cbn [isBlocked cooldownActive blockedReason] in H.
  destruct (bool_decide (is_Some (blocked r))) eqn:Eb; [by injection H as <- <- <- <-|].
  pose proof (cooldown_bounds (re_cooldown e)). bool_to_prop.
  destruct Hh as [?|Hh]; [done|].
  rewrite (proj2 (Z.ltb_lt _ _)) in H by lia. by injection H as <- <- <- <-.
Qed.

Lemma repair_step_held since gid s o :
  (forall e trigger delivery, o = OpEnqueue e trigger delivery ->
     since <= re_now e < since + 1000 * MIN_COOLDOWN_SECONDS) ->
  held since gid s.1 -> held since gid (repair_step gid s o).1 /\ (repair_step gid s o).2 = s.2.
Proof.
  intros Ho Hh. destruct o as [e trigger delivery|now reason]; simpl.
  - destruct (maybeEnqueueRepair _ _ _ _ _ _) as [[[[t' ob'] b] mt]|] eqn:E; [|done].
    destruct (Ho e trigger delivery eq_refl) as [_ Hn].
    by destruct (held_suppresses _ _ _ _ _ _ _ _ _ _ _ Hh Hn E) as (_ & -> & ->).
  - unfold markBlocked. destruct (existsb _ _); [|done]. split; [|done].
    eexists. simpl. rewrite lookup_insert_eq. split; [done|]. left. by eexists.
Qed.

Lemma repair_steps_held since gid s ops :
  (forall e trigger delivery, OpEnqueue e trigger delivery ∈ ops ->
     since <= re_now e < since + 1000 * MIN_COOLDOWN_SECONDS) ->
  held since gid s.1 -> (foldl (repair_step gid) s ops).2 = s.2.
Proof.
  revert s. induction ops as [|o ops IH]; intros s Hops Hs; [done|]. simpl.
  destruct (repair_step_held since gid s o) as [Hs' <-]; [|done|].
  { intros e2 tr2 d2 ->. apply (Hops e2 tr2 d2). by left. }
  apply IH; [|done]. intros e2 tr2 d2 Hin. apply (Hops e2 tr2 d2). by right.
Qed.

(** * Properties *)

(** The dispatcher enqueues a repair exactly when it may.  On a call that
    returns: the installation is unblocked and its last attempt, if any, is at
    least the cooldown ago (a number of seconds in [60, 3600] whatever the
    environment says) if and only if one pending reconcile row is added and the
    attempt recorded; otherwise nothing changes.  And after an enqueue, however
    many further deliveries and terminal failures come within a minute and
    whatever cooldown they read, no second row is added. *)
Theorem maybeEnqueueRepair_throttles e gid trigger delivery t ob t' ob' b mt :
  maybeEnqueueRepair e gid trigger delivery t ob = Ok (t', ob', b, mt) ->
  60 <= getCooldownSeconds (re_cooldown e) <= 3600 /\
  (b = true <-> forall r, t !! gid = Some r ->
     blocked r = None /\ last_attempt_at r <= re_now e - 1000 * getCooldownSeconds (re_cooldown e)) /\
  (b = false -> t' = t /\ ob' = ob) /\
  (b = true ->
     t' !! gid = Some (RepairRow (re_now e) None) /\
     (exists row, ob !! re_outbox_id e = None /\ ob' = <[re_outbox_id e := row]> ob /\
        o_sink row = OUTBOX_SINK_INSTALLATION_RECONCILE /\ o_state row = OPending /\
        o_delivery row = delivery) /\
     forall ops, (forall e2 tr2 d2, OpEnqueue e2 tr2 d2 ∈ ops -> re_now e <= re_now e2 < re_now e + 60000) ->
       (foldl (repair_step gid) (t', ob') ops).2 = ob').
Proof.
  intros H. split; [apply cooldown_bounds|].
  unfold maybeEnqueueRepair, getStateForEnqueueDecision in H. destruct (in_int8 gid); [|done].
  assert (Hdec : (b = true <-> forall r, t !! gid = Some r ->
     blocked r = None /\ last_attempt_at r <= re_now e - 1000 * getCooldownSeconds (re_cooldown e)) /\
    (b = false -> t' = t /\ ob' = ob) /\
    (b = true -> t' = markAttempted (re_now e) gid t /\
       (forall r, t !! gid = Some r -> blocked r = None) /\
       exists env, appendReconcile (re_outbox_id e) env RECONCILE_PAYLOAD_SCHEMA_VERSION delivery
         (re_now e) ∅ ob = Ok ob')).
  { destruct (t !! gid) as [r|] eqn:Er; cbn [isBlocked cooldownActive blockedReason] in H.
    - destruct (bool_decide (is_Some (blocked r))) eqn:Eb; bool_to_prop.
      { injection H as <- <- <- <-. split_and!; [|done|done]. split; [done|].
        intros Hn. destruct (Hn r eq_refl) as [Hb _]. rewrite Hb in Eb. by destruct Eb. }
      assert (Hb : blocked r = None) by (destruct (blocked r); [exfalso; apply Eb; by eexists|done]).
      destruct (_ <? last_attempt_at r) eqn:Ec; bool_to_prop.
      { injection H as <- <- <- <-. split_and!; [|done|done]. split; [done|].
        intros Hn. destruct (Hn r eq_refl). lia. }
      apply rbind_ok in H as (env & _ & H).
      destruct (appendReconcile _ _ _ _ _ _ _) as [ob2|] eqn:Ea; [|done]. injection H as <- <- <- <-.
      split_and!; [split; [intros _ q [= <-]; split; [done|lia]|done]|done|].
      intros _. split_and!; [done|by intros q [= <-]|eauto].
    - apply rbind_ok in H as (env & _ & H).
      destruct (appendReconcile _ _ _ _ _ _ _) as [ob2|] eqn:Ea; [|done]. injection H as <- <- <- <-.
      split_and!; [split; [by intros _ q|done]|done|]. intros _. split_and!; [done|by intros q|eauto]. }
  destruct Hdec as (H1 & H2 & H3). split_and!; [done|done|]. intros Hb.
  destruct (H3 Hb) as (-> & Hblk & env & Ha).
  assert (Hrow : markAttempted (re_now e) gid t !! gid = Some (RepairRow (re_now e) None)).
  { unfold markAttempted. rewrite lookup_insert_eq. do 2 f_equal.
    destruct (t !! gid) as [r|] eqn:Er; [|done]. by apply Hblk. }
  split; [done|]. split.
  - unfold appendReconcile, outbox_insert in Ha.
    destruct (_ || _)%bool; [|done]. destruct (bool_decide (ob !! re_outbox_id e = None)) eqn:Ef; [|done].
    simpl in Ha. injection Ha as <-. bool_to_prop. eexists. split; [done|]. split; [done|]. done.
  - clear -Hrow. intros ops Hops.
    assert (Hh : held (re_now e) gid (markAttempted (re_now e) gid t)).
    { eexists. split; [done|]. right. simpl. lia. }
    by apply (repair_steps_held (re_now e) gid (markAttempted (re_now e) gid t, ob') ops).
Qed.

Definition ex_repair_env : repair_env := RepairEnv (Some " 30 ") "review-default" 1000000 "o1".

Lemma maybeEnqueueRepair_throttles_witness :
  exists t' ob' mt,
    maybeEnqueueRepair ex_repair_env 42 "pr_webhook" (Some "d1") ∅ ∅ = Ok (t', ob', true, mt) /\
    getCooldownSeconds (re_cooldown ex_repair_env) = 60 /\
    t' !! 42 = Some (RepairRow 1000000 None).
Proof.
  eexists _, _, _. split; [vm_compute; reflexivity|]. split; [by vm_compute|].
  eapply (maybeEnqueueRepair_throttles ex_repair_env 42 "pr_webhook" (Some "d1") ∅ ∅); [|reflexivity].
  vm_compute. reflexivity.
Defined.
