(* ===== verification/ReviewDispatch.v ===== *)
(** The payloads that [ingest/github_webhook_persistence.ts] puts in the outbox
    for a review, [buildReviewPayload] and [buildOuterPayload], against the
    contract that reads them back, [ReviewPullRequestPayloadV1]. *)
From stdpp Require Import base gmap sets list strings pretty.
From Stdlib Require Import ZArith Lia Ascii.
From S2P Require Import Prelude Numerals Json ReviewPayload WebhookPayload.
Open Scope Z_scope.

Definition REVIEW_WORKFLOW_TYPE : string := "reviewPullRequest".
Definition REVIEW_TIMEOUT_SECONDS : Z := 1800.

Definition or_null {A} (inject : A -> json) (v : option A) : json :=
  match v with Some a => inject a | None => JNull end.
(** [s ? s.slice(0, 255) : null]. *)
Definition ref_or_null (s : string) : json :=
  if String.eqb s "" then JNull else JStr (JsString.left 255 s).

(** The ids that the review is dispatched under. *)
Record review_ids := ReviewIds {
  ri_installation : string;
  ri_repository : string;
  ri_pr : string;
  ri_run : string;
  ri_review : string;
}.

Definition buildReviewPayload (m : pr_metadata) (i : review_ids) (githubIid : option Z)
    (deliveryId : string) : json :=
  JObj [("schema_version", num 2); ("installation_id", JStr (ri_installation i));
        ("repository_id", JStr (ri_repository i)); ("pr_id", JStr (ri_pr i));
        ("pr_number", num (prNumber m)); ("head_sha", JStr (headSha m)); ("gh_owner", JStr (ghOwner m));
        ("gh_repo_name", JStr (ghRepoName m)); ("pr_title", JStr (prTitle m));
        ("pr_description", JStr (prDescription m)); ("delivery_id", JStr deliveryId);
        ("policy_revision", num 0); ("run_id", JStr (ri_run i)); ("review_id", JStr (ri_review i));
        ("github_installation_id", or_null num githubIid);
        ("author_login", or_null JStr (authorLogin m)); ("draft", JBool (pm_draft m));
        ("base_ref", ref_or_null (baseRef m)); ("head_ref", ref_or_null (headRef m));
        ("opened_at", or_null JStr (openedAt m))].

Definition buildOuterPayload (queue : string) (m : pr_metadata) (i : review_ids) (review : json) : json :=
  JObj [("workflow_type", JStr REVIEW_WORKFLOW_TYPE);
        ("workflow_id", JStr ("review/" +:+ ri_installation i +:+ "/" +:+ ri_repository i +:+ "/"
                              +:+ pretty (prNumber m)));
        ("task_queue", JStr queue); ("args", JArr [review]);
        ("id_reuse_policy", JStr "ALLOW_DUPLICATE"); ("id_conflict_policy", JStr "USE_EXISTING");
        ("execution_timeout_seconds", num REVIEW_TIMEOUT_SECONDS);
        ("run_timeout_seconds", num REVIEW_TIMEOUT_SECONDS)].

(** * Lemmas: numbers of the payload *)

Lemma int_gte_num lo n : 0 <= lo -> int_gte lo (num n) = (lo <=? n).
Proof.
  intros Hlo. unfold num. destruct (Z_lt_le_dec n 0) as [Hn|Hn].
  - rewrite (proj2 (Z.leb_gt lo n)) by lia. destruct n as [| |p]; [lia|lia|]. done.
  - simpl. destruct (pretty_digits n Hn) as [-> ->]. done.
Qed.

(** * Lemmas: what a parse guarantees *)

Lemma all_some_Forall2 {A B} (f : A -> option B) l out :
  all_some (map f l) = Some out -> Forall2 (fun a b => f a = Some b) l out.
Proof.
  revert out. induction l as [|a l IH]; intros out; simpl; [intros [= <-]; constructor|].
  intros (b & Hb & (bs & Hbs & [= <-])%bind_Some)%bind_Some. constructor; [done|by apply IH].
Qed.

(** A field of a parsed object is checked or defaulted. *)
Lemma object_prop fs v w f :
  v_object fs v = Some w -> NoDup (map vf_name fs) -> f ∈ fs ->
  exists x, prop (vf_name f) w = Some x /\
    ((exists y, vf_check f y = Some x) \/ vf_default f = Some x).
Proof.
  unfold v_object. destruct v as [| | | | |kvs|]; try discriminate.
  intros (out & Hout & ->)%fmap_Some Hnd Hf. apply all_some_Forall2 in Hout. simpl.
  assert (Hn : map fst out = map vf_name fs).
  { clear -Hout. induction Hout as [|g p fs out Hp _ IH]; [done|]. simpl. f_equal; [|done].
    unfold parse_vfield in Hp. destruct (get _ _); apply fmap_Some in Hp as (? & _ & ->); done. }
  apply list_elem_of_lookup in Hf as [i Hi].
  destruct (Forall2_lookup_l _ _ _ _ _ Hout Hi) as ([k x] & Hx & Hp).
  exists x. unfold parse_vfield in Hp.
  assert (k = vf_name f /\ ((exists y, vf_check f y = Some x) \/ vf_default f = Some x)) as [-> Hc].
  { destruct (get _ _) as [y|]; apply fmap_Some in Hp as (z & Hz & [= -> ->]); eauto. }
  split; [|done]. apply get_elem; [by rewrite Hn|by eapply list_elem_of_lookup_2].
Qed.

Lemma keep_if_Some p v w : keep_if p v = Some w -> w = v /\ p v = true.
Proof. unfold keep_if. destruct (p v) eqn:E; [|done]. by intros [= <-]. Qed.

Lemma v_str_Some lo hi v w :
  v_str lo hi v = Some w -> exists s, w = JStr s /\ lo <= Z.of_nat (String.length s) <= hi.
Proof.
  intros [-> H]%keep_if_Some. destruct v; try discriminate. eexists. split; [done|].
  simpl in H. bool_to_prop. lia.
Qed.

Lemma v_int_gte_Some lo v w :
  v_int_gte lo v = Some w -> exists s n, w = JNum s /\ int_of s = Some n /\ lo <= n.
Proof.
  unfold v_int_gte. intros H. apply keep_if_Some in H as [-> H]. destruct v; try discriminate.
  destruct (int_of _) as [n|] eqn:E; [|done]. bool_to_prop. eauto.
Qed.

(** A path through parsed objects. *)
Lemma path_cons k ks v w : prop k v = Some w -> path (k :: ks) v = path ks w.
Proof. intros H. simpl. by rewrite H. Qed.

Ltac field_in := repeat first [by left | right].
Ltac names_nodup := simpl; repeat (constructor; [set_solver|]); constructor.

Lemma length_left n s : (String.length (JsString.left n s) <= n)%nat.
Proof. unfold JsString.left. revert s. induction n as [|n IH]; intros [|c s]; simpl; try lia. specialize (IH s). lia. Qed.

Lemma length_left_Z n s k : Z.of_nat n = k -> Z.of_nat (String.length (JsString.left n s)) <= k.
Proof. intros <-. pose proof (length_left n s). lia. Qed.

Lemma length_tail_join c s :
  (String.length (JsString.join (String c "") (tl (JsString.split c s))) <= String.length s)%nat.
Proof.
  assert (Hj : forall s, (String.length (JsString.join (String c "") (JsString.split c s)) <= String.length s)%nat).
  { clear. induction s as [|d s IH]; [done|]. simpl. destruct (Ascii.eqb d c).
    - destruct (JsString.split c s) as [|w ws]; [simpl; lia|].
      change (JsString.join _ ("" :: w :: ws)) with (String c (JsString.join (String c "") (w :: ws))).
      cbn [String.length]. lia.
    - destruct (JsString.split c s) as [|w ws]; [simpl; lia|].
      assert (Hd : JsString.join (String c "") (String d w :: ws) = String d (JsString.join (String c "") (w :: ws)))
        by (by destruct ws).
      rewrite Hd. cbn [String.length]. lia. }
  induction s as [|d s IH]; [done|]. simpl. destruct (Ascii.eqb d c); simpl.
  - specialize (Hj s). lia.
  - destruct (JsString.split c s) eqn:E; simpl in *; lia.
Qed.

(** The bounds that the webhook contract puts on what is dispatched. *)
Lemma extractPrMetadata_bounds zd b m :
  extractPrMetadata zd b = Some m ->
  1 <= prNumber m /\ 1 <= Z.of_nat (String.length (ghOwner m)) <= 100 /\
  Z.of_nat (String.length (ghRepoName m)) <= 200 /\ Z.of_nat (String.length (prTitle m)) <= 500 /\
  Z.of_nat (String.length (prDescription m)) <= 10000.
Proof.
  unfold extractPrMetadata. intros (raw & _ & (p & Hp & [= <-])%bind_Some)%bind_Some.
  unfold GitHubPullRequestPayloadV1 in Hp. simpl.
  destruct (object_prop _ _ _ (VField "number" (v_int_gte 1) None) Hp) as (x & Hx & Hn);
    [names_nodup|field_in|].
  destruct (object_prop _ _ _ (VField "repository" GitHubRepositoryV1 None) Hp) as (r & Hr & Hrepo);
    [names_nodup|field_in|]. simpl in Hx, Hn, Hr, Hrepo.
  destruct Hn as [[y Hy]|?]; [|done]. destruct Hrepo as [[q Hq]|?]; [|done].
  apply v_int_gte_Some in Hy as (s & n & -> & Hs & Hlo).
  destruct (object_prop _ _ _ (VField "owner" GitHubAccountV1 None) Hq) as (o & Ho & Hown);
    [names_nodup|field_in|].
  destruct (object_prop _ _ _ (VField "full_name" (v_str 1 200) None) Hq) as (f & Hf & Hfull);
    [names_nodup|field_in|]. simpl in Ho, Hown, Hf, Hfull.
  destruct Hown as [[ov Hov]|?]; [|done]. destruct Hfull as [[fv Hfv]|?]; [|done].
  apply v_str_Some in Hfv as (fs & -> & Hfs).
  destruct (object_prop _ _ _ (VField "login" (v_str 1 100) None) Hov) as (l & Hl & Hlog);
    [names_nodup|field_in|]. simpl in Hl, Hlog. destruct Hlog as [[lv Hlv]|?]; [|done].
  apply v_str_Some in Hlv as (ls & -> & Hls).
  unfold str_at, int_at.
  rewrite (path_cons _ _ _ _ Hx), !(path_cons _ _ _ _ Hr), (path_cons _ _ _ _ Ho),
    (path_cons _ _ _ _ Hl), (path_cons _ _ _ _ Hf). simpl. rewrite Hs. simpl.
  split_and!; [done|lia|lia| | |].
  - unfold after_slash. pose proof (length_tail_join "/" fs). lia.
  - by apply length_left_Z.
  - by apply length_left_Z.
Qed.

(** Fields listed in schema order parse exactly when each passes its check. *)
Lemma rmap_parse_in_order fs kvs :
  NoDup (map f_name fs) -> Forall2 (fun f p => p.1 = f_name f) fs kvs ->
  (exists out, rmap (parse_field kvs) fs = Ok out) <-> Forall2 (fun f p => f_check f p.2 = true) fs kvs.
Proof.
  intros Hnd Hn.
  assert (Hget : forall f p, (f, p) ∈ zip fs kvs -> get (f_name f) kvs = Some p.2).
  { intros f p Hin. assert (Hnames : map fst kvs = map f_name fs).
    { clear -Hn. induction Hn; [done|]. simpl. congruence. }
    apply list_elem_of_lookup in Hin as [i Hi]. apply lookup_zip_with_Some in Hi as (f' & p' & [= <- <-] & Hf & Hp).
    rewrite Forall2_lookup in Hn. specialize (Hn i). rewrite Hf, Hp in Hn. inversion Hn as [? ? E|]; subst.
    apply get_elem; [by rewrite Hnames|]. rewrite <- E. destruct p. by eapply list_elem_of_lookup_2. }
  split.
  - intros [out Hout]. apply rmap_ok in Hout. apply Forall2_same_length_lookup_2.
    { by eapply Forall2_length. }
    intros i f p Hf Hp. rewrite Forall2_lookup in Hout. specialize (Hout i). rewrite Hf in Hout.
    inversion Hout as [? y Hy|]; subst. unfold parse_field in Hy.
    rewrite (Hget f p) in Hy; [by destruct (f_check f p.2)|].
    apply list_elem_of_lookup. exists i. apply lookup_zip_with_Some. eauto.
  - intros Hc. exists kvs. apply rmap_ok. apply Forall2_same_length_lookup_2; [by eapply Forall2_length|].
    intros i f p Hf Hp. unfold parse_field. rewrite Forall2_lookup in Hc, Hn.
    specialize (Hc i). specialize (Hn i). rewrite Hf, Hp in Hc, Hn.
    inversion Hc as [? ? E|]; subst. inversion Hn as [? ? E'|]; subst.
    rewrite (Hget f p); [rewrite E, <- E'; by destruct p|].
    apply list_elem_of_lookup. exists i. apply lookup_zip_with_Some. eauto.
Qed.

Section Accepted.
Context (zod_uuid zod_datetime : string -> bool).

(** What [ReviewPullRequestPayloadV1] asks of a dispatch beyond what the webhook
    contract has already checked. *)
Record acceptable (m : pr_metadata) (i : review_ids) (githubIid : option Z) (deliveryId : string)
    : Prop := {
  ac_ids : forallb zod_uuid [ri_installation i; ri_repository i; ri_pr i; ri_run i; ri_review i] = true;
  ac_sha : String.length (headSha m) = 40%nat;
  ac_name : ghRepoName m <> "";
  ac_delivery : 1 <= Z.of_nat (String.length deliveryId) <= 200;
  ac_github : forall n, githubIid = Some n -> 0 <= n;
  ac_login : forall s, authorLogin m = Some s -> Z.of_nat (String.length s) <= 64;
  ac_opened : forall s, openedAt m = Some s -> zod_datetime s = true;
}.

Lemma str_len_spec lo hi s :
  str_len lo hi (JStr s) = true <-> lo <= Z.of_nat (String.length s) <= hi.
Proof. simpl. rewrite andb_true_iff, !Z.leb_le. done. Qed.

Lemma nullable_or_null {A} (check : json -> bool) (inject : A -> json) (v : option A) :
  (forall a, inject a <> JNull) ->
  nullable check (or_null inject v) = true <-> forall a, v = Some a -> check (inject a) = true.
Proof.
  intros Hn. destruct v as [a|]; simpl.
  - assert (nullable check (inject a) = check (inject a)) as ->.
    { specialize (Hn a). by destruct (inject a). }
    split; [by intros H b [= <-]|by intros H; apply H].
  - split; [by intros _ a|done].
Qed.

Lemma ref_ok s : nullable (str_len 0 255) (ref_or_null s) = true.
Proof.
  unfold ref_or_null. destruct (String.eqb s ""); [done|]. simpl.
  pose proof (length_left 255 s). bool_to_prop. apply andb_true_iff. rewrite !Z.leb_le. lia.
Qed.

Lemma empty_length s : s <> "" <-> 1 <= Z.of_nat (String.length s).
Proof. destruct s; simpl; split; try done; lia. Qed.

End Accepted.

(** * Witness *)

Definition ex_head : string := "0123456789abcdef0123456789abcdef01234567".
Definition ex_account (login : string) : json :=
  JObj [("id", num 5); ("login", JStr login); ("type", JStr "User")].
Definition ex_ref (branch : string) : json :=
  JObj [("sha", JStr ex_head); ("repo", JObj [("full_name", JStr "acme/app")]); ("ref", JStr branch)].

(** A delivery of GitHub's [pull_request] event. *)
Definition ex_pr_event (action : string) (draft : bool) : json :=
  JObj [("action", JStr action); ("number", num 41);
        ("pull_request", JObj
          [("number", num 41); ("title", JStr "Fixes #7"); ("body", JNull); ("draft", JBool draft);
           ("head", ex_ref "feature"); ("base", ex_ref "main"); ("user", ex_account "ada"); ("id", num 900);
           ("node_id", JStr "PR_1"); ("created_at", JStr "2026-01-01T00:00:00Z")]);
        ("repository", JObj [("id", num 7); ("full_name", JStr "acme/app"); ("owner", ex_account "acme")]);
        ("installation", JObj [("id", num 42)]); ("sender", ex_account "ada")].

Definition ex_datetime (s : string) : bool := JsString.includes_char "T" s.
Definition ex_uuid (s : string) : bool := negb (String.eqb s "").
Definition ex_pr_metadata : option pr_metadata :=
  Eval vm_compute in extractPrMetadata ex_datetime (Some (ex_pr_event "opened" false)).

