(* ===== verification/WebhookIngest.v ===== *)
(** [ingest/github_webhook_persistence.ts] and the route in front of it,
    [api/github_webhook_routes.ts], [api/github_webhook.ts]: what one delivery of a
    GitHub webhook does.  [persistWebhook] is one transaction over the tables of
    [RunAllocator], [Outbox], [PrPersistence], [IssueLinks] and [Repair], in a monad
    of state and errors: a throw restores the tables, a savepoint restores them
    and goes on.  The counters survive both.  The clock, fresh ids, the
    environment and the faults of the database are inputs; the HMAC, [uuid5], the
    datetime formats and PostgreSQL's reading of a timestamp are parameters. *)
From stdpp Require Import base gmap sets list strings pretty.
From Stdlib Require Import ZArith Lia Ascii.
From S2P Require Import Prelude Json WorkflowEvents RunLifecycle RunAllocator Outbox ReviewPayload.
From S2P Require Import Text IssueLinks WebhookPayload PrPersistence Repair ReviewDispatch.
Open Scope Z_scope.

(** * The tables *)

Record audit_row := AuditRow {
  au_id : string;
  au_installation : option string;
  au_delivery : string;
  au_event : string;
  au_received_at : Z;
  au_signature_valid : bool;
  au_raw_body : string;
  au_run : option string;
}.

Record idempotency_row := IdempotencyRow { ir_value : string; ir_expires_at : Z; ir_created_at : Z }.

(** [core.installations] and [core.repositories] by their GitHub ids; the tenant
    of a repository is in the [repositories] of [RunLifecycle]. *)
Record ingest_db := IngestDb {
  core : core_db;
  out : outbox;
  installations : gmap Z string;
  repository_ids : gmap Z string;
  audit : list audit_row;
  idempotency : gmap string idempotency_row;
  repairs : gmap Z repair_row;
}.

Inductive ingest_metric :=
| ReconcilePayloadMissing (event : string) (reason : skip_reason)
| Repair (m : repair_metric).

(** The tables of the pull-request metadata are kept apart from the rest. *)
Record world := World {
  db : ingest_db;
  metadata : pr_tables;
  links : list link_row;
  counters : list ingest_metric;
}.

Inductive ingest_error :=
| MissingHeaders
| NumericOutOfRange                 (* [22003]: a number outside its column's type *)
| AuditUniqueViolation
| AllocFailed (e : alloc_error)
| OutboxFailed (e : outbox_error)
| RepairFailed (e : repair_error)
| LinksFailed (e : link_error)
| DatabaseFault.

(** * The monad *)

Definition M (A : Type) : Type := world -> result ingest_error A * world.

Definition ret {A} (a : A) : M A := fun w => (Ok a, w).
Definition throw {A} (e : ingest_error) : M A := fun w => (Throw e, w).
Definition bind {A B} (m : M A) (k : A -> M B) : M B :=
  fun w => match m w with
           | (Ok a, w') => k a w'
           | (Throw e, w') => (Throw e, w')
           end.
Notation "'do!' x ':=' m 'in' k" := (bind m (fun x => k))
  (at level 10, x pattern, m at level 100, k at level 200) : codemaster_scope.

Definition guard (b : bool) (e : ingest_error) : M unit := if b then ret tt else throw e.
Definition when (b : bool) (m : M unit) : M unit := if b then m else ret tt.
Definition gets {A} (g : ingest_db -> A) : M A := fun w => (Ok (g (db w)), w).

(** A statement over the tables. *)
Definition statement {A} (f : ingest_db -> result ingest_error (ingest_db * A)) : M A :=
  fun w => match f (db w) with
           | Ok (d, a) => (Ok a, World d (metadata w) (links w) (counters w))
           | Throw e => (Throw e, w)
           end.
Definition on_metadata (f : pr_tables -> pr_tables) : M unit :=
  fun w => (Ok tt, World (db w) (f (metadata w)) (links w) (counters w)).
Definition count (c : ingest_metric) : M unit :=
  fun w => (Ok tt, World (db w) (metadata w) (links w) (counters w ++ [c])).

(** The tables of [w], the counters of [w']. *)
Definition rolled_back (w w' : world) : world := World (db w) (metadata w) (links w) (counters w').

Definition transaction {A} (m : M A) : M A :=
  fun w => match m w with
           | (Throw e, w') => (Throw e, rolled_back w w')
           | ok => ok
           end.

(** [SAVEPOINT], then RELEASE, or ROLLBACK TO and the error logged. *)
Definition fail_open (m : M unit) : M unit :=
  fun w => match m w with
           | (Throw _, w') => (Ok tt, rolled_back w w')
           | ok => ok
           end.

Definition set_core (c : core_db) (d : ingest_db) : ingest_db :=
  IngestDb c (out d) (installations d) (repository_ids d) (audit d) (idempotency d) (repairs d).
Definition set_out (o : outbox) (d : ingest_db) : ingest_db :=
  IngestDb (core d) o (installations d) (repository_ids d) (audit d) (idempotency d) (repairs d).
Definition set_audit (l : list audit_row) (d : ingest_db) : ingest_db :=
  IngestDb (core d) (out d) (installations d) (repository_ids d) l (idempotency d) (repairs d).
Definition set_idempotency (t : gmap string idempotency_row) (d : ingest_db) : ingest_db :=
  IngestDb (core d) (out d) (installations d) (repository_ids d) (audit d) t (repairs d).
Definition set_repairs (t : gmap Z repair_row) (o : outbox) (d : ingest_db) : ingest_db :=
  IngestDb (core d) o (installations d) (repository_ids d) (audit d) (idempotency d) t.

(** [allocateRun] and the others, on their part of the tables. *)
Definition on_core {A} (f : core_db -> result alloc_error (core_db * A)) : M A :=
  statement (fun d => match f (core d) with
                      | Ok (c, a) => Ok (set_core c d, a)
                      | Throw e => Throw (AllocFailed e)
                      end).
Definition append (f : Z -> gset string -> outbox -> result outbox_error outbox) (now : Z) : M unit :=
  statement (fun d => match f now (dom (runs (core d))) (out d) with
                      | Ok o => Ok (set_out o d, tt)
                      | Throw e => Throw (OutboxFailed e)
                      end).

(** * One delivery *)

Record request := Request {
  rq_delivery : string;
  rq_event : string;
  rq_raw : string;
  rq_body : body;
  rq_valid : bool;
}.

(** What the clock, the database and the process supply, one field per use. *)
Record ingest_env := IngestEnv {
  en_event_id : string;
  en_received : Z;
  en_expires : Z;
  en_created : Z;
  en_pr : pr_env;
  en_pr_fault : bool;
  en_links_now : Z;
  en_links_fault : bool;
  en_repair_fault : bool;
  en_review : string;
  en_run : string;
  en_eid1 : string;
  en_eid2 : string;
  en_alloc_now : Z;
  en_db_now : Z;
  en_review_row : string;
  en_repair_row : string;
  en_reconcile_row : string;
  en_owners_row : string;
  en_docs_row : string;
  en_review_drafts : option string;
  en_cooldown : option string;
  en_task_queue : option string;
}.

Definition RECONCILE_INSTALLATION_WORKFLOW_TYPE : string := "reconcileInstallation".
Definition RECONCILE_REPOSITORIES_WORKFLOW_TYPE : string := "reconcileRepositories".
Definition RECONCILE_INSTALLATION_ACTIONS : list string := ["created"; "deleted"; "suspend"; "unsuspend"].
Definition RECONCILE_INSTALLATION_REPOSITORIES_ACTIONS : list string := ["added"; "removed"].
Definition OUTBOX_TRIGGER_ACTIONS : list string :=
  ["opened"; "synchronize"; "reopened"; "ready_for_review"].
Definition OUTBOX_PAYLOAD_SCHEMA_VERSION : Z := 2.

Definition ACTION_TO_TRIGGER_TYPE (action : string) : string :=
  if existsb (String.eqb action) ["opened"; "reopened"] then "pr_opened" else "pr_synchronize".

Definition one_of (s : string) (l : list string) : bool := existsb (String.eqb s) l.

Definition resolveReviewTaskQueue (v : option string) : string :=
  match v with Some q => if String.eqb q "" then "review-default" else q | None => "review-default" end.
Definition reviewDraftPrsEnabled (v : option string) : bool := bool_decide (v = Some "true"%string).

Section Ingest.
Variable timestamptz : string -> option Z.
Variable uuid5 : string -> string -> string.
Variable zod_datetime : string -> bool.

(** ** Resolvers: the bind of a number outside [bigint] is an error *)

Definition resolveInternalInstallationId (gid : option Z) : M (option string) :=
  match gid with
  | None => ret None
  | Some n => do! _ := guard (in_int8 n) NumericOutOfRange in gets (fun d => installations d !! n)
  end.

Definition repository_of (repo : Z) (iid : string) (d : ingest_db) : option string :=
  if bool_decide (repositories (core d) !! repo = Some (Some iid)) then repository_ids d !! repo else None.

Definition resolveInternalRepositoryId (repo : Z) (iid : option string) : M (option string) :=
  match iid with
  | None => ret None
  | Some i => do! _ := guard (in_int8 repo) NumericOutOfRange in gets (repository_of repo i)
  end.

(** ** Issue links *)

Definition PR_ISSUE_LINK_UUID5_NAMESPACE : string := "8d8c9d14-0a3e-5e0f-9b7e-fc2c3a8d9704".
Definition kind_text (k : linkage_kind) : string :=
  match k with
  | closes => "closes" | fixes => "fixes" | resolves => "resolves" | mentioned => "mentioned"
  end.
Definition derivePrIssueLinkId (pr : string) (l : issue_link) : string :=
  uuid5 PR_ISSUE_LINK_UUID5_NAMESPACE
    (pr +:+ "|" +:+ pretty (github_issue_number l) +:+ "|" +:+ kind_text (link_kind l) +:+ "|"
     +:+ source_text (link_source l)).

Definition links_of (m : pr_metadata) : list issue_link :=
  parseIssueLinks (u (prDescription m)) description ++ parseIssueLinks (u (prTitle m)) title
  ++ parseIssueLinks (u (headRef m)) branch_name.

Definition maybePersistPrIssueLinks (e : ingest_env) (m : pr_metadata) (iid repo : string) : M unit :=
  match githubPullRequestId m with
  | None => ret tt
  | Some gid =>
      when (0 <? gid) (fail_open (fun w =>
        let pr := derivePrId uuid5 (iid, repo, prNumber m) in
        let known := any_row (fun r => String.eqb (pr_id r) pr) (prs (metadata w)) in
        if en_links_fault e then (Throw DatabaseFault, w)
        else match replaceLinks derivePrIssueLinkId known iid pr (links_of m) (en_links_now e) (links w) with
             | Ok (t, _) => (Ok tt, World (db w) (metadata w) t (counters w))
             | Throw x => (Throw (LinksFailed x), w)
             end))
  end.

(** ** Allocation *)

Definition provider_pr_id (node : option string) (m : pr_metadata) : string :=
  match node with
  | Some n => n
  | None => match githubPullRequestId m with
            | Some g => "gh-pr-" +:+ pretty g
            | None => "gh-pr-" +:+ pretty (githubRepoId m) +:+ "-" +:+ pretty (prNumber m)
            end
  end.

Definition review_key (b : body) (m : pr_metadata) : upsert_args :=
  let node := extractPrNodeId b in
  UpsertArgs "github" (githubRepoId m) (prNumber m) (provider_pr_id node m) node
    (if String.eqb (headRef m) "" then None else Some (headRef m)).

Definition alloc_of (m : pr_metadata) (review iid delivery : string) : alloc_args :=
  AllocArgs review iid (ACTION_TO_TRIGGER_TYPE (pm_action m)) "github" (Some delivery) None 1.

(** The run id of the audit rows with this id. *)
Definition backfill_run (event run : string) (l : list audit_row) : list audit_row :=
  map (fun a => if String.eqb (au_id a) event
                then AuditRow (au_id a) (au_installation a) (au_delivery a) (au_event a)
                       (au_received_at a) (au_signature_valid a) (au_raw_body a) (Some run)
                else a) l.

(** [triggered_by] is not part of the modelled columns. *)
Definition allocateRunForPrWebhook (e : ingest_env) (rq : request) (m : pr_metadata) (iid : string)
    : M string :=
  do! _ := guard (in_int8 (githubRepoId m) && in_int4 (prNumber m)) NumericOutOfRange in
  do! review := on_core (upsertReview (review_key (rq_body rq) m) (en_review e)) in
  do! _ := on_core (allocateRun true (alloc_of m review iid (rq_delivery rq)) (en_run e) (en_eid1 e)
                      (en_eid2 e) (en_alloc_now e)) in
  do! _ := statement (fun d => Ok (set_audit (backfill_run (en_event_id e) (en_run e) (audit d)) d, tt)) in
  ret review.

Definition dispatchReview (e : ingest_env) (rq : request) (gid : option Z) (m : pr_metadata)
    (iid repo : string) : M unit :=
  do! review := allocateRunForPrWebhook e rq m iid in
  let ids := ReviewIds iid repo (derivePrId uuid5 (iid, repo, prNumber m)) (en_run e) review in
  let payload := buildOuterPayload (resolveReviewTaskQueue (en_task_queue e)) m ids
                   (buildReviewPayload m ids gid (rq_delivery rq)) in
  append (appendReviewDispatch (en_review_row e) (en_run e) payload OUTBOX_PAYLOAD_SCHEMA_VERSION iid
            (Some (rq_delivery rq))) (en_db_now e).

(** ** Repair *)

Definition enqueueRepair (e : ingest_env) (gid : Z) (delivery : string) : M unit :=
  do! c := statement (fun d =>
    if en_repair_fault e then Throw DatabaseFault
    else match maybeEnqueueRepair (RepairEnv (en_cooldown e) (resolveReviewTaskQueue (en_task_queue e))
                 (en_db_now e) (en_repair_row e)) gid "pr_webhook" (Some delivery) (repairs d) (out d) with
         | Ok (t, o, _, c) => Ok (set_repairs t o d, c)
         | Throw x => Throw (RepairFailed x)
         end) in
  count (Repair c).

(** ** The branch of [pull_request] *)

Definition draft_skipped (e : ingest_env) (m : pr_metadata) : bool :=
  pm_draft m && negb (String.eqb (pm_action m) "ready_for_review")
  && negb (reviewDraftPrsEnabled (en_review_drafts e)).

Definition handlePullRequest (e : ingest_env) (rq : request) (gid : option Z) (iid : option string)
    : M unit :=
  match extractPrMetadata zod_datetime (rq_body rq) with
  | None => ret tt
  | Some m =>
      do! repo := resolveInternalRepositoryId (githubRepoId m) iid in
      match repo, iid with
      | Some repo, Some iid =>
          do! _ := on_metadata (safePersistPr timestamptz uuid5 (en_pr_fault e) (en_pr e) m iid repo
                                  (Some (rq_delivery rq))) in
          do! _ := maybePersistPrIssueLinks e m iid repo in
          if String.eqb (pm_action m) "closed" then ret tt
          else if one_of (pm_action m) OUTBOX_TRIGGER_ACTIONS && draft_skipped e m then ret tt
          else when (one_of (pm_action m) OUTBOX_TRIGGER_ACTIONS) (dispatchReview e rq gid m iid repo)
      | _, _ => match gid with
                | None => ret tt
                | Some g => fail_open (enqueueRepair e g (rq_delivery rq))
                end
      end
  end.

(** ** The reconcile and push emitters *)

(** A literal envelope: the keys as the code writes them, no defaults. *)
Definition start_envelope (wtype wid queue : string) (args : list json) : json :=
  JObj [("workflow_type", JStr wtype); ("workflow_id", JStr wid); ("task_queue", JStr queue);
        ("args", JArr args); ("id_reuse_policy", JStr "ALLOW_DUPLICATE");
        ("id_conflict_policy", JStr "USE_EXISTING")].

Definition emitReconcile (e : ingest_env) (rq : request) (wtype prefix : string) (gid : Z)
    (event : string) (built : result skip_reason json) : M unit :=
  match built with
  | Throw r => count (ReconcilePayloadMissing event r)
  | Ok payload =>
      append (appendReconcile (en_reconcile_row e)
                (start_envelope wtype (prefix +:+ pretty gid) (resolveReviewTaskQueue (en_task_queue e)) [payload])
                RECONCILE_PAYLOAD_SCHEMA_VERSION (Some (rq_delivery rq))) (en_db_now e)
  end.

Definition maybeEmitInstallationReconcile (e : ingest_env) (rq : request) (gid : option Z)
    (iid : option string) (deduped : bool) : M unit :=
  if deduped then ret tt
  else
    let action := extractAction (rq_body rq) in
    let acts l := match action with Some a => one_of a l | None => false end in
    match gid with
    | None => ret tt
    | Some g =>
        if String.eqb (rq_event rq) "installation_repositories"
           && acts RECONCILE_INSTALLATION_REPOSITORIES_ACTIONS
        then emitReconcile e rq RECONCILE_REPOSITORIES_WORKFLOW_TYPE "reconcile-repositories/" g
               "installation_repositories"
               (buildRepositoriesPayloadFromWebhook (rq_body rq) (default "" action))
        else if (String.eqb (rq_event rq) "pull_request" && bool_decide (iid = None))
                || (String.eqb (rq_event rq) "installation" && acts RECONCILE_INSTALLATION_ACTIONS)
        then emitReconcile e rq RECONCILE_INSTALLATION_WORKFLOW_TYPE "reconcile-installation/" g
               (rq_event rq)
               (buildInstallationPayloadFromWebhook (rq_event rq) (rq_body rq) (default "" action))
        else ret tt
    end.

(** What both push emitters resolve first. *)
Definition on_default_branch_push (rq : request) (iid : option string) (deduped : bool)
    (k : push_metadata -> string -> string -> M unit) : M unit :=
  if negb (String.eqb (rq_event rq) "push") || deduped then ret tt
  else match extractPushDefaultBranchMetadata (rq_body rq), iid with
       | Some p, Some i =>
           do! repo := resolveInternalRepositoryId (pu_repo p) iid in
           match repo with Some r => k p i r | None => ret tt end
       | _, _ => ret tt
       end.

Definition maybeEmitSyncCodeOwners (e : ingest_env) (rq : request) (gid : option Z)
    (iid : option string) (deduped : bool) : M unit :=
  on_default_branch_push rq iid deduped (fun p i repo =>
    match gid with
    | None => ret tt
    | Some g =>
        append (appendNonReviewDispatch (en_owners_row e)
          (start_envelope "syncCodeOwners" ("sync-code-owners/" +:+ i +:+ "/" +:+ repo +:+ "/" +:+ pu_sha p)
             (resolveReviewTaskQueue (en_task_queue e))
             [JObj [("schema_version", num 1); ("installation_id_uuid", JStr i);
                    ("installation_id_int", num g); ("repository_id", JStr repo);
                    ("owner", JStr (pu_owner p)); ("repo", JStr (pu_name p));
                    ("default_branch", JStr (pu_branch p))]])
          OUTBOX_PAYLOAD_SCHEMA_VERSION i (Some (rq_delivery rq))) (en_db_now e)
    end).

Definition maybeEmitRefreshSemanticDocs (e : ingest_env) (rq : request) (iid : option string)
    (deduped : bool) : M unit :=
  on_default_branch_push rq iid deduped (fun p i repo =>
    append (appendNonReviewDispatch (en_docs_row e)
      (start_envelope "refreshSemanticDocs" ("refresh-semantic-docs/" +:+ i +:+ "/" +:+ repo)
         (resolveReviewTaskQueue (en_task_queue e))
         [JObj [("schema_version", num 1); ("installation_id", JStr i); ("repository_id", JStr repo);
                ("triggered_by", JStr "default_branch_push"); ("head_sha", JStr (pu_sha p))]])
      OUTBOX_PAYLOAD_SCHEMA_VERSION i (Some (rq_delivery rq))) (en_db_now e)).

(** ** persistWebhook *)

Definition insert_audit (a : audit_row) : M unit :=
  statement (fun d =>
    if existsb (fun x => String.eqb (au_id x) (au_id a) && (au_received_at x =? au_received_at a)) (audit d)
    then Throw AuditUniqueViolation
    else Ok (set_audit (audit d ++ [a]) d, tt)).

Definition cache_key (gid : option Z) (delivery : string) : string :=
  "github-webhook:" +:+ match gid with
                        | Some g => if g =? 0 then "unknown" else pretty g
                        | None => "unknown"
                        end +:+ ":" +:+ delivery.

(** [ON CONFLICT (cache_key) DO NOTHING RETURNING]: whether the key was taken. *)
Definition claim_key (k : string) (r : idempotency_row) : M bool :=
  statement (fun d => match idempotency d !! k with
                      | Some _ => Ok (d, true)
                      | None => Ok (set_idempotency (<[k := r]> (idempotency d)) d, false)
                      end).

Definition DAY_MS : Z := 24 * 3600 * 1000.

Record persist_result := PersistResult {
  deduped : bool;
  webhookEventId : string;
  installationId : option string;
  deliveryId : string;
}.

(** What an authenticated delivery does. *)
Definition persistValid (e : ingest_env) (rq : request) (gid : option Z) (iid : option string) : M bool :=
  do! dup := claim_key (cache_key gid (rq_delivery rq))
               (IdempotencyRow (en_event_id e) (en_expires e + DAY_MS) (en_created e)) in
  do! _ := when (negb dup && String.eqb (rq_event rq) "pull_request") (handlePullRequest e rq gid iid) in
  do! _ := maybeEmitInstallationReconcile e rq gid iid dup in
  do! _ := maybeEmitSyncCodeOwners e rq gid iid dup in
  do! _ := maybeEmitRefreshSemanticDocs e rq iid dup in
  ret dup.

Definition persistWebhook (e : ingest_env) (rq : request) : M persist_result :=
  do! _ := guard (negb (String.eqb (rq_delivery rq) "" || String.eqb (rq_event rq) "")) MissingHeaders in
  transaction (
    let gid := extractInstallationId (rq_body rq) in
    do! iid := resolveInternalInstallationId gid in
    do! _ := insert_audit (AuditRow (en_event_id e) iid (rq_delivery rq) (rq_event rq) (en_received e)
                             (rq_valid rq) (rq_raw rq) None) in
    do! dup := (if rq_valid rq then persistValid e rq gid iid else ret false) in
    ret (PersistResult dup (en_event_id e) iid (rq_delivery rq))).

(** * The route *)

Section Route.
(** The hex digest of the HMAC of a body under a secret, and [JSON.parse] of bytes. *)
Variable hmac_sha256_hex : string -> string -> string.
Variable json_parse : string -> body.

Definition GITHUB_SIGNATURE_PREFIX : string := "sha256=".

Definition verifyGithubSignature (raw header secret : string) : bool :=
  if negb (JsString.starts_with GITHUB_SIGNATURE_PREFIX header) then false
  else
    let provided := String.substring (String.length GITHUB_SIGNATURE_PREFIX)
                      (String.length header - String.length GITHUB_SIGNATURE_PREFIX) header in
    String.eqb (hmac_sha256_hex secret raw) provided.

Definition WEBHOOK_BODY_CAP_BYTES : Z := 10 * 1024 * 1024.

(** The headers of the request; [headerStr] maps the empty string to [null]. *)
Record http_request := HttpRequest {
  h_signature : option string;
  h_event : option string;
  h_delivery : option string;
  h_body : string;
}.
Definition headerStr (v : option string) : option string :=
  match v with Some s => if String.eqb s "" then None else Some s | None => None end.

(** The handler: the status code, 500 when persisting throws. *)
Definition receive (e : ingest_env) (secret : string) (r : http_request) (w : world) : Z * world :=
  match headerStr (h_signature r), headerStr (h_event r), headerStr (h_delivery r) with
  | None, _, _ => (401, w)
  | _, None, _ => (400, w)
  | _, _, None => (400, w)
  | Some signature, Some event, Some delivery =>
      if WEBHOOK_BODY_CAP_BYTES <? Z.of_nat (String.length (h_body r)) then (413, w)
      else
        let valid := verifyGithubSignature (h_body r) signature secret in
        match persistWebhook e (Request delivery event (h_body r) (json_parse (h_body r)) valid) w with
        | (Throw _, w') => (500, w')
        | (Ok _, w') => (if valid then 204 else 401, w')
        end
  end.
End Route.
End Ingest.

(** * Lemmas: the monad *)

Create HintDb ingest.

Lemma bind_ok {A B} (m : M A) (k : A -> M B) w a w' : m w = (Ok a, w') -> bind m k w = k a w'.
Proof. unfold bind. by intros ->. Qed.

Lemma bind_inv {A B} (m : M A) (k : A -> M B) w b w' :
  bind m k w = (Ok b, w') -> exists a w1, m w = (Ok a, w1) /\ k a w1 = (Ok b, w').
Proof. unfold bind. destruct (m w) as [[a|e] w1]; [eauto|discriminate]. Qed.

(** Whatever [m] does, the tables still satisfy [P]. *)
Definition keeps {A} (P : ingest_db -> Prop) (m : M A) : Prop := forall w, P (db w) -> P (db (m w).2).

Section Keeps.
Context (P : ingest_db -> Prop).

Lemma keeps_ret {A} (a : A) : keeps P (ret a).
Proof. by intros w. Qed.
Lemma keeps_throw {A} e : keeps P (@throw A e).
Proof. by intros w. Qed.
Lemma keeps_bind {A B} (m : M A) (k : A -> M B) : keeps P m -> (forall a, keeps P (k a)) -> keeps P (bind m k).
Proof.
  intros Hm Hk w Hw. unfold bind. specialize (Hm w Hw). destruct (m w) as [[a|e] w1]; [|done].
  by apply Hk.
Qed.
Lemma keeps_guard b e : keeps P (guard b e).
Proof. intros w Hw. by destruct b. Qed.
Lemma keeps_when b m : keeps P m -> keeps P (when b m).
Proof. intros Hm. destruct b; [done|]. by intros w. Qed.
Lemma keeps_gets {A} (g : ingest_db -> A) : keeps P (gets g).
Proof. by intros w. Qed.
Lemma keeps_statement {A} (f : ingest_db -> result ingest_error (ingest_db * A)) :
  (forall d d' a, f d = Ok (d', a) -> P d -> P d') -> keeps P (statement f).
Proof. intros Hf w Hw. unfold statement. destruct (f (db w)) as [[d a]|] eqn:E; [by eapply Hf|done]. Qed.
Lemma keeps_on_metadata f : keeps P (on_metadata f).
Proof. by intros w. Qed.
Lemma keeps_count c : keeps P (count c).
Proof. by intros w. Qed.
Lemma keeps_fail_open m : keeps P m -> keeps P (fail_open m).
Proof. intros Hm w Hw. unfold fail_open. specialize (Hm w Hw). by destruct (m w) as [[a|e] w1]. Qed.
Lemma keeps_transaction {A} (m : M A) : keeps P m -> keeps P (transaction m).
Proof. intros Hm w Hw. unfold transaction. specialize (Hm w Hw). by destruct (m w) as [[a|e] w1]. Qed.
End Keeps.
#[export] Hint Resolve keeps_ret keeps_throw keeps_guard keeps_gets keeps_on_metadata keeps_count : ingest.
#[export] Hint Resolve keeps_when keeps_fail_open keeps_transaction : ingest.

(** Two computations that agree on results, tables and counters from worlds that
    agree on them, whatever the pull-request metadata in either. *)
Definition agree_on (w w' : world) : Prop := db w = db w' /\ counters w = counters w'.
Definition agree {A} (m m' : M A) : Prop :=
  forall w w', agree_on w w' -> (m w).1 = (m' w').1 /\ agree_on (m w).2 (m' w').2.

Lemma agree_ret {A} (a : A) : agree (ret a) (ret a).
Proof. by intros w w'. Qed.
Lemma agree_throw {A} e : agree (@throw A e) (throw e).
Proof. by intros w w'. Qed.
Lemma agree_bind {A B} (m m' : M A) (k k' : A -> M B) :
  agree m m' -> (forall a, agree (k a) (k' a)) -> agree (bind m k) (bind m' k').
Proof.
  intros Hm Hk w w' Hw. unfold bind. destruct (Hm w w' Hw) as [H1 H2].
  destruct (m w) as [[a|e] w1], (m' w') as [[a'|e'] w1']; simpl in *; try done; simplify_eq.
  - by apply Hk.
  - done.
Qed.
Lemma agree_guard b e : agree (guard b e) (guard b e).
Proof. intros w w' Hw. by destruct b. Qed.
Lemma agree_when b m m' : agree m m' -> agree (when b m) (when b m').
Proof. intros Hm. destruct b; [done|]. by intros w w'. Qed.
Lemma agree_gets {A} (g : ingest_db -> A) : agree (gets g) (gets g).
Proof. intros w w' [H1 H2]. unfold gets. simpl. by rewrite H1. Qed.
Lemma agree_statement {A} (f : ingest_db -> result ingest_error (ingest_db * A)) :
  agree (statement f) (statement f).
Proof. intros w w' [H1 H2]. unfold statement. rewrite H1. by destruct (f (db w')) as [[d a]|]. Qed.
Lemma agree_on_metadata f g : agree (on_metadata f) (on_metadata g).
Proof. by intros w w' [H1 H2]. Qed.
Lemma agree_count c : agree (count c) (count c).
Proof. intros w w' [H1 H2]. split; [done|]. split; simpl; by rewrite ?H1, ?H2. Qed.
Lemma agree_fail_open m m' : agree m m' -> agree (fail_open m) (fail_open m').
Proof.
  intros Hm w w' Hw. unfold fail_open. destruct (Hm w w' Hw) as [H1 [H2 H3]].
  destruct (m w) as [[[]|e] w1], (m' w') as [[[]|e'] w1']; simpl in *; try done.
  destruct Hw. done.
Qed.
Lemma agree_transaction {A} (m m' : M A) : agree m m' -> agree (transaction m) (transaction m').
Proof.
  intros Hm w w' Hw. unfold transaction. destruct (Hm w w' Hw) as [H1 [H2 H3]].
  destruct (m w) as [[a|e] w1], (m' w') as [[a'|e'] w1']; simpl in *; try done.
  destruct Hw. by simplify_eq.
Qed.
#[export] Hint Resolve agree_ret agree_throw agree_guard agree_gets agree_statement agree_on_metadata
  agree_count : ingest.
#[export] Hint Resolve agree_when agree_fail_open agree_transaction : ingest.

(** * Lemmas: the statements *)

Lemma outbox_insert_inv id sink payload schema run inst delivery now known t t' :
  outbox_insert id sink payload schema run inst delivery now known t = Ok t' ->
  t !! id = None /\
  (sink = OUTBOX_SINK_INSTALLATION_RECONCILE \/ is_Some inst) /\
  (forall k, run = Some k -> k ∈ known) /\
  t' = <[id := {| o_sink := sink; o_payload := payload; o_schema := schema; o_attempts := 0;
                  o_state := OPending; o_last_error := None; o_last_attempted := None;
                  o_dispatched_at := None; o_created_at := now; o_leased_until := None;
                  o_delivery := delivery; o_installation := inst; o_run := run |}]> t.
Proof.
  unfold outbox_insert. intros H. destruct (_ || _)%bool eqn:Es; [|done].
  destruct (bool_decide (t !! id = None)) eqn:Eu; [|done].
  destruct (match run with Some _ => _ | None => _ end) eqn:Er; [|done]. injection H as <-.
  bool_to_prop. split_and!; [done| | |done].
  - apply orb_true_iff in Es as [Es|Es]; bool_to_prop; auto.
  - intros k ->. by bool_to_prop.
Qed.

Lemma outbox_insert_unlinked id sink payload schema inst delivery now known t :
  outbox_insert id sink payload schema None inst delivery now known t =
  outbox_insert id sink payload schema None inst delivery now ∅ t.
Proof. done. Qed.

(** What every committed state satisfies: the invariant of the runs, and of the
    outbox, whose rows name existing runs. *)
Record ingest_ok (m : Z) (accepted : gset string) (d : ingest_db) : Prop := {
  io_core : core_inv (core d);
  io_outbox : forall id r, out d !! id = Some r ->
    row_ok m accepted id r /\ forall k, o_run r = Some k -> is_Some (runs (core d) !! k);
}.

Lemma ingest_ok_insert m acc d id sink payload schema run inst delivery now known t' :
  1 <= m -> ingest_ok m acc d ->
  outbox_insert id sink payload schema run inst delivery now known (out d) = Ok t' ->
  (forall k, k ∈ known -> is_Some (runs (core d) !! k)) -> ingest_ok m acc (set_out t' d).
Proof.
  intros Hm [H1 H2] H Hk. apply outbox_insert_inv in H as (_ & Hs & Hr & ->).
  split; [done|]. intros j r. simpl. rewrite lookup_insert_Some. intros [[<- <-]|[_ Hj]]; [|by apply H2].
  split; [|intros k E; by apply Hk, Hr]. unfold row_ok. simpl. split_and!; [done|done|lia].
Qed.

Lemma dom_known (d : ingest_db) k : k ∈ (dom (runs (core d)) : gset string) -> is_Some (runs (core d) !! k).
Proof. by intros ?%elem_of_dom. Qed.

Lemma ingest_ok_core m acc d c :
  ingest_ok m acc d -> core_inv c ->
  (forall k, is_Some (runs (core d) !! k) -> is_Some (runs c !! k)) -> ingest_ok m acc (set_core c d).
Proof. intros [H1 H2] Hc Hr. split; [done|]. intros id r Hid. destruct (H2 id r Hid). split; eauto. Qed.

(** Properties of the tables that every statement of a delivery keeps. *)
Record stable (P : ingest_db -> Prop) : Prop := {
  st_upsert : forall d a fresh c id, P d -> upsertReview a fresh (core d) = Ok (c, id) -> P (set_core c d);
  st_allocate : forall d a run e1 e2 now c old, P d -> al_parent a = None ->
    allocateRun true a run e1 e2 now (core d) = Ok (c, old) -> P (set_core c d);
  st_append : forall d id sink payload schema run inst delivery now t', P d ->
    outbox_insert id sink payload schema run inst delivery now (dom (runs (core d))) (out d) = Ok t' ->
    P (set_out t' d);
  st_repair : forall d t o, P (set_out o d) -> P (set_repairs t o d);
  st_audit : forall d l, P d -> P (set_audit l d);
  st_claim : forall d k r, P d -> idempotency d !! k = None ->
    P (set_idempotency (<[k := r]> (idempotency d)) d);
}.

Lemma same_out d : set_out (out d) d = d.
Proof. by destruct d. Qed.

Section Preserved.
Context (timestamptz : string -> option Z) (uuid5 : string -> string -> string)
        (zod_datetime : string -> bool) (P : ingest_db -> Prop) (HP : stable P).

Lemma keeps_upsert a fresh : keeps P (on_core (upsertReview a fresh)).
Proof.
  apply keeps_statement. intros d d' id H Hd. destruct (upsertReview _ _ _) as [[c r]|] eqn:E; [|done].
  injection H as <- <-. by eapply st_upsert.
Qed.

Lemma keeps_allocate a newRun e1 e2 now :
  al_parent a = None -> keeps P (on_core (allocateRun true a newRun e1 e2 now)).
Proof.
  intros Hp. apply keeps_statement. intros d d' old H Hd.
  destruct (allocateRun _ _ _ _ _ _ _) as [[c r]|] eqn:E; [|done]. injection H as <- <-.
  by eapply st_allocate.
Qed.

Lemma keeps_append id sink payload schema run inst delivery now :
  keeps P (append (outbox_insert id sink payload schema run inst delivery) now).
Proof.
  apply keeps_statement. intros d d' a H Hd. destruct (outbox_insert _ _ _ _ _ _ _ _ _ _) as [t'|] eqn:E; [|done].
  injection H as <- <-. by eapply st_append.
Qed.

Lemma keeps_repair e gid delivery : keeps P (enqueueRepair e gid delivery).
Proof.
  apply keeps_bind; [|auto with ingest]. apply keeps_statement. intros d d' c H Hd.
  destruct (en_repair_fault e); [done|].
  destruct (maybeEnqueueRepair _ _ _ _ _ _) as [[[[t o] b] mt]|] eqn:E; [|done]. injection H as <- <-.
  apply st_repair; [done|]. unfold maybeEnqueueRepair in E. destruct (in_int8 gid); [|done].
  destruct (isBlocked _); [injection E as <- <- <- <-; by rewrite same_out|].
  destruct (cooldownActive _); [injection E as <- <- <- <-; by rewrite same_out|].
  apply rbind_ok in E as (env & _ & E). unfold appendReconcile in E.
  destruct (outbox_insert _ _ _ _ _ _ _ _ _ _) as [o'|] eqn:Ei; [|done]. injection E as <- <- <- <-.
  eapply st_append; [done|done|]. rewrite outbox_insert_unlinked. exact Ei.
Qed.

Lemma keeps_links e mt iid repo : keeps P (maybePersistPrIssueLinks uuid5 e mt iid repo).
Proof.
  unfold maybePersistPrIssueLinks. destruct (githubPullRequestId mt); [|auto with ingest].
  apply keeps_when, keeps_fail_open. intros w Hw. destruct (en_links_fault e); [done|].
  by destruct (replaceLinks _ _ _ _ _ _ _) as [[t n]|].
Qed.

Lemma keeps_dispatch e rq gid mt iid repo : keeps P (dispatchReview uuid5 e rq gid mt iid repo).
Proof.
  apply keeps_bind; [|intros review; apply keeps_append].
  apply keeps_bind; [auto with ingest|intros _]. apply keeps_bind; [apply keeps_upsert|intros review].
  apply keeps_bind; [by apply keeps_allocate|intros _].
  apply keeps_bind; [|auto with ingest]. apply keeps_statement. intros d d' a [= <- <-] Hd. by apply st_audit.
Qed.

Lemma keeps_resolve_repo repo iid : keeps P (resolveInternalRepositoryId repo iid).
Proof. unfold resolveInternalRepositoryId. destruct iid; [apply keeps_bind|]; auto with ingest. Qed.

Lemma keeps_handle e rq gid iid :
  keeps P (handlePullRequest timestamptz uuid5 zod_datetime e rq gid iid).
Proof.
  unfold handlePullRequest. destruct (extractPrMetadata _ _) as [mt|]; [|auto with ingest].
  apply keeps_bind; [apply keeps_resolve_repo|intros [repo|]].
  - destruct iid as [iid|].
    + apply keeps_bind; [auto with ingest|intros _]. apply keeps_bind; [apply keeps_links|intros _].
      destruct (String.eqb _ _); [auto with ingest|]. destruct (_ && _)%bool; [auto with ingest|].
      apply keeps_when, keeps_dispatch.
    + destruct gid; [apply keeps_fail_open, keeps_repair|auto with ingest].
  - destruct gid; [apply keeps_fail_open, keeps_repair|auto with ingest].
Qed.

Lemma keeps_reconcile e rq wtype prefix g ev built : keeps P (emitReconcile e rq wtype prefix g ev built).
Proof. unfold emitReconcile. destruct built; [apply keeps_append|auto with ingest]. Qed.

Lemma keeps_push rq iid dup k :
  (forall p i r, keeps P (k p i r)) -> keeps P (on_default_branch_push rq iid dup k).
Proof.
  intros Hk. unfold on_default_branch_push. destruct (_ || _)%bool; [auto with ingest|].
  destruct (extractPushDefaultBranchMetadata _); [|auto with ingest]. destruct iid; [|auto with ingest].
  apply keeps_bind; [apply keeps_resolve_repo|]. intros [r|]; [apply Hk|auto with ingest].
Qed.

(** After the key is claimed. *)
Lemma keeps_rest e rq gid iid dup :
  keeps P (
    do! _ := when (negb dup && String.eqb (rq_event rq) "pull_request")
               (handlePullRequest timestamptz uuid5 zod_datetime e rq gid iid) in
    do! _ := maybeEmitInstallationReconcile e rq gid iid dup in
    do! _ := maybeEmitSyncCodeOwners e rq gid iid dup in
    do! _ := maybeEmitRefreshSemanticDocs e rq iid dup in
    ret dup).
Proof.
  apply keeps_bind; [apply keeps_when, keeps_handle|intros _]. apply keeps_bind.
  { unfold maybeEmitInstallationReconcile. destruct dup; [auto with ingest|].
    destruct gid; [|auto with ingest]. destruct (_ && _)%bool; [apply keeps_reconcile|].
    destruct (_ || _)%bool; [apply keeps_reconcile|auto with ingest]. }
  intros _. apply keeps_bind.
  { apply keeps_push. intros p i r. destruct gid; [apply keeps_append|auto with ingest]. }
  intros _. apply keeps_bind; [apply keeps_push; intros; apply keeps_append|auto with ingest].
Qed.

Lemma keeps_persist e rq : keeps P (persistWebhook timestamptz uuid5 zod_datetime e rq).
Proof.
  apply keeps_bind; [auto with ingest|intros _]. apply keeps_transaction. apply keeps_bind.
  { unfold resolveInternalInstallationId. destruct (extractInstallationId _); [apply keeps_bind|]; auto with ingest. }
  intros iid. apply keeps_bind.
  { apply keeps_statement. intros d d' a H Hd. destruct (existsb _ _); [done|]. injection H as <- <-. by apply st_audit. }
  intros _. apply keeps_bind; [|auto with ingest]. destruct (rq_valid rq); [|auto with ingest].
  apply keeps_bind; [|intros dup; apply keeps_rest].
  apply keeps_statement. intros d d' a H Hd. destruct (idempotency d !! _) eqn:E; injection H as <- <-; [done|].
  by apply st_claim.
Qed.
End Preserved.

Lemma ingest_ok_stable m acc : 1 <= m -> stable (ingest_ok m acc).
Proof.
  intros Hm. split.
  - intros d a fresh c id Hd E. apply ingest_ok_core; [done|by eapply core_inv_upsert, Hd|].
    apply upsertReview_ok in E as (cur & -> & _). done.
  - intros d a run e1 e2 now c old Hd Hp E. apply allocateRun_ok in E as [v He].
    apply ingest_ok_core; [done|eapply core_inv_allocate; eauto; apply Hd|].
    intros k [r' Hr']. rewrite (ae_runs _ _ _ _ _ _ _ _ _ He).
    destruct (decide (k = run)) as [->|Hne]; [by rewrite after_allocate_new|].
    destruct (after_allocate_some a run now old _ _ _ Hr' Hne) as (q & -> & _). by eexists.
  - intros d id sink payload schema run inst delivery now t' Hd E.
    eapply ingest_ok_insert; [done|done|exact E|apply dom_known].
  - intros d t o [H1 H2]. by split.
  - intros d l [H1 H2]. by split.
  - intros d k r [H1 H2] _. by split.
Qed.

Lemma claimed_stable k : stable (fun d => is_Some (idempotency d !! k)).
Proof. split; try done. intros d j r Hd _. simpl. apply lookup_insert_is_Some'. auto. Qed.

(** ** What a delivery does in order *)

Section Runs.
Context (timestamptz : string -> option Z) (uuid5 : string -> string -> string)
        (zod_datetime : string -> bool).
Local Abbreviation persist := (persistWebhook timestamptz uuid5 zod_datetime).
Local Abbreviation valid_part := (persistValid timestamptz uuid5 zod_datetime).

Definition audit_of (e : ingest_env) (rq : request) (iid : option string) : audit_row :=
  AuditRow (en_event_id e) iid (rq_delivery rq) (rq_event rq) (en_received e) (rq_valid rq) (rq_raw rq) None.

(** The world with one more audit row. *)
Definition audited (a : audit_row) (w : world) : world :=
  World (set_audit (audit (db w) ++ [a]) (db w)) (metadata w) (links w) (counters w).

Definition internal (rq : request) (d : ingest_db) : option string :=
  g ← extractInstallationId (rq_body rq); installations d !! g.

Lemma resolve_installation gid w :
  resolveInternalInstallationId gid w =
  match gid with
  | Some n => if in_int8 n then (Ok (installations (db w) !! n), w) else (Throw NumericOutOfRange, w)
  | None => (Ok None, w)
  end.
Proof. destruct gid as [n|]; [|done]. unfold resolveInternalInstallationId, bind, guard. by destruct (in_int8 n). Qed.

Lemma persist_inv e rq w r w1 :
  persist e rq w = (Ok r, w1) ->
  (if rq_valid rq then valid_part e rq (extractInstallationId (rq_body rq)) (internal rq (db w)) else ret false)
    (audited (audit_of e rq (internal rq (db w))) w) = (Ok (deduped r), w1) /\
  r = PersistResult (deduped r) (en_event_id e) (internal rq (db w)) (rq_delivery rq).
Proof.
  unfold persistWebhook. intros (u & w0 & Hg & H)%bind_inv.
  assert (w0 = w) as -> by (revert Hg; unfold guard; destruct (negb _); by intros [= _ <-]).
  unfold transaction in H. cbv zeta in H.
  match type of H with match ?m w with _ => _ end = _ => destruct (m w) as [[r'|e'] w'] eqn:E end; [|done].
  injection H as -> ->. apply bind_inv in E as (iid & w0 & Hi & E). rewrite resolve_installation in Hi.
  assert (iid = internal rq (db w) /\ w0 = w) as [-> ->].
  { unfold internal. destruct (extractInstallationId _) as [n|]; [destruct (in_int8 n)|];
      simplify_eq; done. }
  apply bind_inv in E as (x & w0 & Ha & E). unfold insert_audit, statement in Ha.
  destruct (existsb _ _); [done|]. injection Ha as <- <-.
  apply bind_inv in E as (dup & w0 & Hd & E). injection E as <- <-. done.
Qed.

Lemma persistValid_dup e rq gid iid w w1 :
  valid_part e rq gid iid w = (Ok true, w1) -> w1 = w.
Proof.
  unfold persistValid. intros (dup & w0 & Hc & H)%bind_inv.
  assert (dup = true) as ->.
  { apply bind_inv in H as (? & ? & _ & H). apply bind_inv in H as (? & ? & _ & H).
    apply bind_inv in H as (? & ? & _ & H). apply bind_inv in H as (? & ? & _ & H). by injection H. }
  unfold claim_key, statement in Hc. destruct (idempotency (db w) !! _); [|done]. injection Hc as <-.
  assert (on_push : forall k, on_default_branch_push rq iid true k = ret tt).
  { intros k. unfold on_default_branch_push. by rewrite orb_true_r. }
  unfold maybeEmitInstallationReconcile, maybeEmitSyncCodeOwners, maybeEmitRefreshSemanticDocs in H.
  rewrite !on_push in H. injection H as <-. by destruct w.
Qed.

Lemma persistValid_claims e rq gid iid w dup w1 :
  valid_part e rq gid iid w = (Ok dup, w1) -> is_Some (idempotency (db w1) !! cache_key gid (rq_delivery rq)).
Proof.
  unfold persistValid. intros (d & w0 & Hc & H)%bind_inv.
  assert (is_Some (idempotency (db w0) !! cache_key gid (rq_delivery rq))) as Hs.
  { unfold claim_key, statement in Hc. destruct (idempotency (db w) !! _) eqn:E; injection Hc as <- <-; simpl.
    - by rewrite E.
    - rewrite lookup_insert_eq. by eexists. }
  pose proof (keeps_rest timestamptz uuid5 zod_datetime _
    (claimed_stable (cache_key gid (rq_delivery rq))) e rq gid iid d w0 Hs) as Hk.
  rewrite H in Hk. exact Hk.
Qed.

Lemma persistValid_known e rq gid iid w dup w1 :
  is_Some (idempotency (db w) !! cache_key gid (rq_delivery rq)) ->
  valid_part e rq gid iid w = (Ok dup, w1) -> dup = true.
Proof.
  intros [r Hr]. unfold persistValid. intros (d & w0 & Hc & H)%bind_inv.
  unfold claim_key, statement in Hc. rewrite Hr in Hc. injection Hc as <- <-.
  apply bind_inv in H as (? & ? & _ & H). apply bind_inv in H as (? & ? & _ & H).
  apply bind_inv in H as (? & ? & _ & H). apply bind_inv in H as (? & ? & _ & H). by injection H.
Qed.

Lemma persist_throw e rq w x w1 :
  persist e rq w = (Throw x, w1) -> db w1 = db w /\ metadata w1 = metadata w /\ links w1 = links w.
Proof.
  unfold persistWebhook, bind at 1, guard. destruct (negb _); simpl; [|by intros [= _ <-]].
  unfold transaction. destruct (bind _ _ w) as [[r|e'] w']; [done|]. by intros [= _ <-].
Qed.
End Runs.

(** ** Agreement of runs that differ in the pull-request metadata *)

Section Agreement.
Context (timestamptz : string -> option Z) (uuid5 : string -> string -> string)
        (zod_datetime : string -> bool).

(** The same delivery with other inputs for the metadata and the issue links. *)
Definition other_metadata (e : ingest_env) (pr : pr_env) (pr_fault : bool) (links_now : Z)
    (links_fault : bool) : ingest_env :=
  IngestEnv (en_event_id e) (en_received e) (en_expires e) (en_created e) pr pr_fault links_now
    links_fault (en_repair_fault e) (en_review e) (en_run e) (en_eid1 e) (en_eid2 e) (en_alloc_now e)
    (en_db_now e) (en_review_row e) (en_repair_row e) (en_reconcile_row e) (en_owners_row e)
    (en_docs_row e) (en_review_drafts e) (en_cooldown e) (en_task_queue e).

Lemma agree_refl_push rq iid dup k :
  (forall p i r, agree (k p i r) (k p i r)) ->
  agree (on_default_branch_push rq iid dup k) (on_default_branch_push rq iid dup k).
Proof.
  intros Hk. unfold on_default_branch_push. destruct (_ || _)%bool; [auto with ingest|].
  destruct (extractPushDefaultBranchMetadata _); [|auto with ingest]. destruct iid; [|auto with ingest].
  unfold resolveInternalRepositoryId.
  apply agree_bind; [apply agree_bind; auto with ingest|]. intros [r|]; [apply Hk|auto with ingest].
Qed.

Lemma agree_emit e rq wtype prefix g ev built :
  agree (emitReconcile e rq wtype prefix g ev built) (emitReconcile e rq wtype prefix g ev built).
Proof. unfold emitReconcile. destruct built; unfold append; auto with ingest. Qed.

Lemma agree_links e e' m iid repo :
  agree (maybePersistPrIssueLinks uuid5 e m iid repo) (maybePersistPrIssueLinks uuid5 e' m iid repo).
Proof.
  unfold maybePersistPrIssueLinks. destruct (githubPullRequestId m); [|auto with ingest].
  apply agree_when. intros w w' [H1 H2]. unfold fail_open.
  destruct (en_links_fault e), (en_links_fault e'); simpl;
    repeat (match goal with |- context [match replaceLinks ?a ?b ?c ?d ?f ?g ?h with _ => _ end] =>
              destruct (replaceLinks a b c d f g h) as [[? ?]|] end; simpl);
    (split; [done|by split]).
Qed.

Lemma agree_dispatch e rq gid m iid repo :
  agree (dispatchReview uuid5 e rq gid m iid repo) (dispatchReview uuid5 e rq gid m iid repo).
Proof.
  apply agree_bind; [|intros review; unfold append; auto with ingest].
  apply agree_bind; [auto with ingest|intros _].
  apply agree_bind; [unfold on_core; auto with ingest|intros review].
  apply agree_bind; [unfold on_core; auto with ingest|intros _].
  apply agree_bind; auto with ingest.
Qed.

Lemma agree_repair e gid delivery : agree (fail_open (enqueueRepair e gid delivery)) (fail_open (enqueueRepair e gid delivery)).
Proof. apply agree_fail_open, agree_bind; auto with ingest. Qed.

Lemma agree_persist e pr prf ln lf rq :
  agree (persistWebhook timestamptz uuid5 zod_datetime e rq)
        (persistWebhook timestamptz uuid5 zod_datetime (other_metadata e pr prf ln lf) rq).
Proof.
  apply agree_bind; [auto with ingest|intros _]. apply agree_transaction. apply agree_bind.
  { unfold resolveInternalInstallationId. destruct (extractInstallationId _); [apply agree_bind|]; auto with ingest. }
  intros iid. apply agree_bind; [unfold insert_audit; auto with ingest|intros _].
  apply agree_bind; [|auto with ingest]. destruct (rq_valid rq); [|auto with ingest].
  apply agree_bind; [unfold claim_key; auto with ingest|intros dup].
  apply agree_bind.
  { apply agree_when. unfold handlePullRequest. destruct (extractPrMetadata _ _) as [m|]; [|auto with ingest].
    apply agree_bind.
    { unfold resolveInternalRepositoryId. destruct iid; [apply agree_bind|]; auto with ingest. }
    intros [repo|]; [destruct iid as [iid|]|].
    - apply agree_bind; [auto with ingest|intros _]. apply agree_bind; [apply agree_links|intros _].
      destruct (String.eqb _ _); [auto with ingest|].
      change (draft_skipped (other_metadata e pr prf ln lf) m) with (draft_skipped e m).
      destruct (_ && _)%bool; [auto with ingest|]. apply agree_when.
      exact (agree_dispatch e rq _ m iid repo).
    - destruct (extractInstallationId _); [exact (agree_repair e _ _)|auto with ingest].
    - destruct (extractInstallationId _); [exact (agree_repair e _ _)|auto with ingest]. }
  intros _. apply agree_bind.
  { unfold maybeEmitInstallationReconcile. destruct dup; [auto with ingest|].
    destruct (extractInstallationId _); [|auto with ingest]. destruct (_ && _)%bool; [exact (agree_emit e rq _ _ _ _ _)|].
    destruct (_ || _)%bool; [exact (agree_emit e rq _ _ _ _ _)|auto with ingest]. }
  intros _. apply agree_bind.
  { refine (agree_refl_push rq iid dup _ _). intros p i r. unfold append.
    destruct (extractInstallationId _); auto with ingest. }
  intros _. apply agree_bind; [|auto with ingest]. refine (agree_refl_push rq iid dup _ _).
  intros. unfold append. auto with ingest.
Qed.
End Agreement.

(** ** A pull request that is dispatched *)

Lemma substring_rest p s :
  String.substring (String.length p) (String.length (p +:+ s) - String.length p) (p +:+ s) = s.
Proof.
  induction p as [|c p IH]; [|exact IH].
  change (String.substring 0 (String.length s - 0) s = s). rewrite Nat.sub_0_r.
  induction s as [|c s IH]; simpl; [done|by rewrite IH].
Qed.

Lemma prefix_split t s : String.prefix t s = true -> exists r, s = (t +:+ r)%string.
Proof.
  revert s. induction t as [|c t IH]; intros s; [by exists s|].
  destruct s as [|d s]; simpl; [done|]. destruct (Ascii.ascii_dec c d) as [->|]; [|done].
  intros (r & ->)%IH. by exists r.
Qed.

Lemma prefix_app t r : String.prefix t (t +:+ r) = true.
Proof. induction t as [|c t IH]; [by destruct r|]. simpl. by destruct (Ascii.ascii_dec c c). Qed.

Lemma verifyGithubSignature_spec hmac raw header secret :
  verifyGithubSignature hmac raw header secret = true <-> header = ("sha256=" +:+ hmac secret raw)%string.
Proof.
  unfold verifyGithubSignature, JsString.starts_with, GITHUB_SIGNATURE_PREFIX.
  destruct (String.prefix "sha256=" header) eqn:E; simpl negb; cbv iota.
  - apply prefix_split in E as [r ->]. rewrite substring_rest, String.eqb_eq. split; [by intros ->|].
    intros H. by injection H.
  - split; [done|]. intros ->. by rewrite prefix_app in E.
Qed.

Lemma backfill_last event run l a :
  (forall x, x ∈ l -> au_id x <> event) -> au_id a = event ->
  backfill_run event run (l ++ [a]) =
  l ++ [AuditRow (au_id a) (au_installation a) (au_delivery a) (au_event a) (au_received_at a)
          (au_signature_valid a) (au_raw_body a) (Some run)].
Proof.
  intros Hl Ha. unfold backfill_run. rewrite map_app. f_equal.
  - induction l as [|x l IH]; [done|]. simpl. destruct (String.eqb_spec (au_id x) event) as [E|E].
    + exfalso. apply (Hl x); [by left|done].
    + rewrite IH; [done|]. intros y Hy. apply Hl. by right.
  - simpl. by rewrite (proj2 (String.eqb_eq _ _) Ha).
Qed.

Lemma upsertReview_succeeds a fresh db :
  core_inv db -> reviews db !! fresh = None ->
  exists db' id cur, upsertReview a fresh db = Ok (db', id) /\ core_inv db' /\
    db' = CoreDb (runs db) (<[id := upserted a cur]> (reviews db)) (repositories db) (events db).
Proof.
  intros Hi Hf. assert (exists db' id, upsertReview a fresh db = Ok (db', id)) as (db' & id & E).
  { unfold upsertReview. destruct (find_review _ _) as [[j v]|]; [eauto|].
    rewrite bool_decide_eq_true_2 by done. eauto. }
  destruct (upsertReview_ok _ _ _ _ _ E) as (cur & Hdb & _). exists db', id, cur.
  split_and!; [done|by eapply core_inv_upsert|done].
Qed.

Lemma trigger_known action : ACTION_TO_TRIGGER_TYPE action ∈ TRIGGER_TYPES.
Proof. unfold ACTION_TO_TRIGGER_TYPE. destruct (existsb _ _); apply existsb_eqb_elem; reflexivity. Qed.

Lemma audit_fresh event at_ l :
  (forall x, x ∈ l -> au_id x <> event) ->
  existsb (fun x => String.eqb (au_id x) event && (au_received_at x =? at_)) l = false.
Proof.
  intros Hl. destruct (existsb _ l) eqn:Ex; [|done]. apply existsb_exists in Ex as (x & Hx & Hb).
  apply andb_true_iff in Hb as [Hb _]. apply String.eqb_eq in Hb.
  exfalso. apply (Hl x); [by apply list_elem_of_In|done].
Qed.

(** The delivery is authentic and new, of a known installation and repository, and
    triggers a review. *)
Record triggers (zod_datetime : string -> bool) (e : ingest_env) (rq : request) (g : Z)
    (iid repo : string) (m : pr_metadata) (d : ingest_db) : Prop := {
  tr_delivery : rq_delivery rq <> "";
  tr_event : rq_event rq = "pull_request";
  tr_valid : rq_valid rq = true;
  tr_gid : extractInstallationId (rq_body rq) = Some g;
  tr_int8 : in_int8 g = true;
  tr_installation : installations d !! g = Some iid;
  tr_metadata : extractPrMetadata zod_datetime (rq_body rq) = Some m;
  tr_repository : repository_of (githubRepoId m) iid d = Some repo;
  tr_action : one_of (pm_action m) OUTBOX_TRIGGER_ACTIONS = true;
  tr_draft : draft_skipped e m = false;
  tr_key : idempotency d !! cache_key (Some g) (rq_delivery rq) = None;
  tr_audit : forall x, x ∈ audit d -> au_id x <> en_event_id e;
}.

(** What the tables must offer to a dispatch of [m]; the ids of the environment
    are fresh. *)
Record dispatchable (e : ingest_env) (rq : request) (m : pr_metadata) (iid : string) (d : ingest_db)
    : Prop := {
  dp_core : core_inv (core d);
  dp_numbers : in_int8 (githubRepoId m) = true /\ in_int4 (prNumber m) = true;
  dp_tenant : repositories (core d) !! githubRepoId m = Some (Some iid);
  dp_review : reviews (core d) !! en_review e = None;
  dp_run : runs (core d) !! en_run e = None;
  dp_keys : forall k, k = en_run e \/ is_Some (runs (core d) !! k) -> is_Some (runIdToLockKey k);
  dp_undelivered : forall f, f ∈ events (core d) ->
    ~ (ev_delivery f = Some (rq_delivery rq) /\ ev_provider f = "github" /\ received_at f = en_alloc_now e);
  dp_row : out d !! en_review_row e = None;
}.

(** The run of a dispatch: new, the review's own, and its only active one. *)
Record run_of_review (run review : string) (old : option string) (m : pr_metadata) (iid delivery : string)
    (c : core_db) : Prop := {
  rr_run : runs c !! run = Some (new_run (alloc_of m review iid delivery) old);
  rr_review : exists v, reviews c !! review = Some v /\ current_run_id v = Some run /\
    repo_id v = githubRepoId m /\ rv_pr_number v = prNumber m;
  rr_only : forall k r, runs c !! k = Some r -> run_review r = review ->
    active (lifecycle_state r) = true -> k = run;
}.

(** The row that the relay will start the review from. *)
Definition review_row_of (uuid5 : string -> string -> string) (e : ingest_env) (rq : request)
    (gid : option Z) (m : pr_metadata) (iid repo review : string) : outbox_row :=
  let ids := ReviewIds iid repo (derivePrId uuid5 (iid, repo, prNumber m)) (en_run e) review in
  {| o_sink := OUTBOX_SINK_TEMPORAL_WORKFLOW_START;
     o_payload := buildOuterPayload (resolveReviewTaskQueue (en_task_queue e)) m ids
                    (buildReviewPayload m ids gid (rq_delivery rq));
     o_schema := OUTBOX_PAYLOAD_SCHEMA_VERSION; o_attempts := 0; o_state := OPending;
     o_last_error := None; o_last_attempted := None; o_dispatched_at := None;
     o_created_at := en_db_now e; o_leased_until := None; o_delivery := Some (rq_delivery rq);
     o_installation := Some iid; o_run := Some (en_run e) |}.

Section Dispatch.
Context (timestamptz : string -> option Z) (uuid5 : string -> string -> string)
        (zod_datetime : string -> bool).

Lemma allocate_dispatch e rq m iid w :
  dispatchable e rq m iid (db w) ->
  exists review old c, allocateRunForPrWebhook e rq m iid w =
    (Ok review, World (set_audit (backfill_run (en_event_id e) (en_run e) (audit (db w))) (set_core c (db w)))
                  (metadata w) (links w) (counters w)) /\
    run_of_review (en_run e) review old m iid (rq_delivery rq) c /\ core_inv c.
Proof.
  intros [Hc [Hn8 Hn4] Hten Hrev Hrun Hkeys Hund _].
  destruct (upsertReview_succeeds (review_key (rq_body rq) m) (en_review e) (core (db w)) Hc Hrev)
    as (c1 & review & cur & E1 & Hc1 & Hdb1).
  assert (Hal : allocatable (alloc_of m review iid (rq_delivery rq)) (en_run e) (en_alloc_now e) c1).
  { rewrite Hdb1. split; simpl; try done.
    - apply trigger_known.
    - unfold review_installation. simpl. rewrite lookup_insert_eq. simpl. by rewrite Hten.
    - intros d f [= <-] Hf. by apply Hund. }
  destruct (allocateRun_succeeds _ _ (en_eid1 e) (en_eid2 e) _ _ Hc1 Hal) as (c2 & old & E2).
  destruct (allocateRun_ok _ _ _ _ _ _ _ _ _ E2) as [v He].
  assert (Hc2 : core_inv c2) by (eapply core_inv_allocate; eauto).
  exists review, old, c2. split_and!; [| |done].
  - unfold allocateRunForPrWebhook. erewrite bind_ok by (unfold guard; rewrite Hn8, Hn4; done).
    erewrite bind_ok by (unfold on_core, statement; rewrite E1; done).
    erewrite bind_ok by (unfold on_core, statement; simpl; rewrite E2; done).
    erewrite bind_ok by done. done.
  - pose proof (ae_review _ _ _ _ _ _ _ _ _ He) as Hv. simpl in Hv. rewrite Hdb1 in Hv. simpl in Hv.
    rewrite lookup_insert_eq in Hv. injection Hv as Hv.
    assert (Hrv : reviews c2 !! review = Some (set_current (en_run e) v)).
    { rewrite (ae_reviews _ _ _ _ _ _ _ _ _ He). simpl. by rewrite lookup_insert_eq. }
    split.
    + rewrite (ae_runs _ _ _ _ _ _ _ _ _ He). by rewrite after_allocate_new.
    + exists (set_current (en_run e) v). rewrite <- Hv. by rewrite Hrv, <- Hv.
    + intros k r Hk Hr Ha. destruct (inv_active _ Hc2 k r Hk Ha) as (v' & Hv' & Hcur).
      rewrite Hr, Hrv in Hv'. injection Hv' as <-. by injection Hcur.
Qed.

Lemma dispatch_succeeds e rq gid m iid repo w :
  dispatchable e rq m iid (db w) ->
  exists review old c, dispatchReview uuid5 e rq gid m iid repo w =
    (Ok tt, World (set_out (<[en_review_row e := review_row_of uuid5 e rq gid m iid repo review]> (out (db w)))
                    (set_audit (backfill_run (en_event_id e) (en_run e) (audit (db w))) (set_core c (db w))))
              (metadata w) (links w) (counters w)) /\
    run_of_review (en_run e) review old m iid (rq_delivery rq) c.
Proof.
  intros Hd. destruct (allocate_dispatch e rq m iid w Hd) as (review & old & c & E & Hr & _).
  exists review, old, c. split; [|done]. unfold dispatchReview. erewrite bind_ok by done.
  unfold append, statement, appendReviewDispatch, outbox_insert. simpl.
  rewrite !bool_decide_eq_true_2; [done| |by apply Hd].
  apply elem_of_dom. rewrite (rr_run _ _ _ _ _ _ _ Hr). by eexists.
Qed.

Lemma links_step e m iid repo w :
  exists t, maybePersistPrIssueLinks uuid5 e m iid repo w = (Ok tt, World (db w) (metadata w) t (counters w)).
Proof.
  unfold maybePersistPrIssueLinks. destruct (githubPullRequestId m) as [g|]; [|by exists (links w); destruct w].
  destruct (0 <? g); [|by exists (links w); destruct w]. unfold when, fail_open. cbv zeta.
  destruct (en_links_fault e); [by exists (links w)|].
  destruct (replaceLinks _ _ _ _ _ _ _) as [[t n]|]; by eexists.
Qed.

Lemma handle_dispatches e rq gid m iid repo w :
  extractPrMetadata zod_datetime (rq_body rq) = Some m ->
  repository_of (githubRepoId m) iid (db w) = Some repo ->
  one_of (pm_action m) OUTBOX_TRIGGER_ACTIONS = true -> draft_skipped e m = false ->
  dispatchable e rq m iid (db w) ->
  exists review old c t l, handlePullRequest timestamptz uuid5 zod_datetime e rq gid (Some iid) w =
    (Ok tt, World (set_out (<[en_review_row e := review_row_of uuid5 e rq gid m iid repo review]> (out (db w)))
                    (set_audit (backfill_run (en_event_id e) (en_run e) (audit (db w))) (set_core c (db w))))
              t l (counters w)) /\
    run_of_review (en_run e) review old m iid (rq_delivery rq) c.
Proof.
  intros Hm Hrepo Hact Hdraft Hd. unfold handlePullRequest. rewrite Hm.
  erewrite bind_ok.
  2:{ unfold resolveInternalRepositoryId, bind, guard, gets. rewrite (proj1 (dp_numbers _ _ _ _ _ Hd)).
      unfold ret. rewrite Hrepo. done. }
  cbv iota beta.
  erewrite bind_ok by done.
  match goal with |- context [bind (maybePersistPrIssueLinks _ _ _ _ _) _ ?w0] =>
    destruct (links_step e m iid repo w0) as [t Ht] end.
  erewrite bind_ok by exact Ht.
  destruct (String.eqb_spec (pm_action m) "closed") as [Ec|_]; [by rewrite Ec in Hact|].
  rewrite Hact, Hdraft. simpl.
  match goal with |- context [dispatchReview _ _ _ _ _ _ _ ?w0] =>
    destruct (dispatch_succeeds e rq gid m iid repo w0 Hd) as (review & old & c & E & Hr) end.
  exists review, old, c. do 2 eexists. split; [exact E|done].
Qed.

Lemma no_push rq iid dup k w :
  rq_event rq <> "push" -> on_default_branch_push rq iid dup k w = (Ok tt, w).
Proof. intros H. unfold on_default_branch_push. apply String.eqb_neq in H. by rewrite H. Qed.
End Dispatch.

(** * Properties *)

Section Properties.
Context (timestamptz : string -> option Z) (uuid5 : string -> string -> string)
        (zod_datetime : string -> bool).
Local Abbreviation persist := (persistWebhook timestamptz uuid5 zod_datetime).

(** Any sequence of deliveries, whatever they answer. *)
Definition deliveries (l : list (ingest_env * request)) (w : world) : world :=
  fold_left (fun w p => (persist p.1 p.2 w).2) l w.

(** What a delivery does, by its outcome. *)
Lemma persistWebhook_cases e rq w :
  match persist e rq w with
  | (Throw _, w1) => db w1 = db w /\ metadata w1 = metadata w /\ links w1 = links w
  | (Ok r, w1) =>
      (rq_valid rq = false \/ deduped r = true -> w1 = audited (audit_of e rq (internal rq (db w))) w) /\
      r = PersistResult (deduped r) (en_event_id e) (internal rq (db w)) (rq_delivery rq)
  end.
Proof.
  destruct (persist e rq w) as [[r|x] w1] eqn:E; [|by eapply persist_throw].
  apply persist_inv in E as [H Hr]. split; [|done]. destruct (rq_valid rq).
  - intros [?|Hdup]; [done|]. rewrite Hdup in H. by apply persistValid_dup in H.
  - by injection H.
Qed.

Lemma keeps_deliveries P l w : stable P -> P (db w) -> P (db (deliveries l w)).
Proof.
  intros HP. revert w. induction l as [|[e rq] l IH]; intros w Hw; [done|]. simpl. apply IH.
  by apply (keeps_persist timestamptz uuid5 zod_datetime P HP e rq w).
Qed.

(** C13: a trigger delivery is dispatched, exactly once and completely.  For an
    authenticated, not yet seen [pull_request] delivery of a known installation
    and repository, whose action triggers a review that no draft rule skips,
    [persistWebhook] returns [deduped = false]; the key is claimed; the outbox has
    one new pending row, with the payload of the review, the run and the tenant;
    that run is PENDING, the authoritative and the only active run of the review
    of this pull request; and the delivery's audit row names it.  Nothing else of
    the outbox, the installations, the repositories and the counters changes,
    whatever happens to the pull-request metadata. *)
Theorem persistWebhook_dispatches e rq w g iid repo m :
  triggers zod_datetime e rq g iid repo m (db w) ->
  dispatchable e rq m iid (db w) ->
  exists review old c t l,
    persist e rq w =
      (Ok (PersistResult false (en_event_id e) (Some iid) (rq_delivery rq)),
       World (IngestDb c
                (<[en_review_row e := review_row_of uuid5 e rq (Some g) m iid repo review]> (out (db w)))
                (installations (db w)) (repository_ids (db w))
                (audit (db w) ++ [AuditRow (en_event_id e) (Some iid) (rq_delivery rq) (rq_event rq)
                   (en_received e) true (rq_raw rq) (Some (en_run e))])
                (<[cache_key (Some g) (rq_delivery rq) :=
                   IdempotencyRow (en_event_id e) (en_expires e + DAY_MS) (en_created e)]> (idempotency (db w)))
                (repairs (db w))) t l (counters w)) /\
    run_of_review (en_run e) review old m iid (rq_delivery rq) c.
Proof.
  intros [Hdel Hev Hval Hg Hg8 Hiid Hm Hrepo Hact Hdraft Hkey Haud] Hd.
  destruct rq as [del ev raw bd v]. simpl in *. subst ev v.
  set (rq := Request del "pull_request" raw bd true).
  set (d1 := set_idempotency (<[cache_key (Some g) del :=
               IdempotencyRow (en_event_id e) (en_expires e + DAY_MS) (en_created e)]> (idempotency (db w)))
               (db (audited (audit_of e rq (Some iid)) w))).
  destruct (handle_dispatches timestamptz uuid5 zod_datetime e rq (Some g) m iid repo
    (World d1 (metadata w) (links w) (counters w))) as (review & old & c & t & l & E & Hr);
    [done|done|done|done|by destruct Hd; split|].
  exists review, old, c, t, l. split; [|done]. unfold persistWebhook.
  erewrite bind_ok.
  2:{ unfold guard. simpl. apply String.eqb_neq in Hdel. rewrite Hdel. done. }
  unfold transaction. cbv zeta. simpl. rewrite Hg. erewrite bind_ok.
  2:{ rewrite resolve_installation, Hg8, Hiid. done. }
  erewrite bind_ok by (unfold insert_audit, statement; rewrite audit_fresh by done; done).
  erewrite bind_ok; [done|]. unfold persistValid. erewrite bind_ok.
  2:{ unfold claim_key, statement. simpl. rewrite Hkey. done. }
  cbn [negb andb rq_event when String.eqb]. simpl. erewrite bind_ok by exact E. 
  erewrite bind_ok by done. erewrite bind_ok by done. erewrite bind_ok by done.
  unfold ret. simpl. by rewrite backfill_last by done.
Qed.

(** C14: at most one dispatch per delivery, and nothing for a delivery that is not
    authentic.  A delivery that throws leaves every table as it was; one that is
    not signed, or whose key was seen, adds its audit row and changes nothing
    else; and once a signed delivery has been accepted, every later signed
    delivery with its key, after any other deliveries, is one of those. *)
Theorem persistWebhook_once e rq w :
  match persist e rq w with
  | (Throw _, w1) => db w1 = db w /\ metadata w1 = metadata w /\ links w1 = links w
  | (Ok r, w1) =>
      r = PersistResult (deduped r) (en_event_id e) (internal rq (db w)) (rq_delivery rq) /\
      (rq_valid rq = false \/ deduped r = true -> w1 = audited (audit_of e rq (internal rq (db w))) w) /\
      (rq_valid rq = true ->
       forall l e' rq' r' w3, rq_valid rq' = true ->
         cache_key (extractInstallationId (rq_body rq')) (rq_delivery rq') =
         cache_key (extractInstallationId (rq_body rq)) (rq_delivery rq) ->
         persist e' rq' (deliveries l w1) = (Ok r', w3) ->
         deduped r' = true /\
         w3 = audited (audit_of e' rq' (internal rq' (db (deliveries l w1)))) (deliveries l w1))
  end.
Proof.
  pose proof (persistWebhook_cases e rq w) as Hc.
  destruct (persist e rq w) as [[r|x] w1] eqn:E; [|done]. destruct Hc as [Hc Hr].
  split_and!; [done|done|]. intros Hv l e' rq' r' w3 Hv' Hk E'.
  apply persist_inv in E as [H _]. rewrite Hv in H.
  pose proof (persistWebhook_cases e' rq' (deliveries l w1)) as Hc'. rewrite E' in Hc'. destruct Hc' as [Hc' _].
  apply persist_inv in E' as [H' _]. rewrite Hv' in H'.
  apply persistValid_claims in H as Hcl. apply (keeps_deliveries _ l w1 (claimed_stable _)) in Hcl.
  rewrite <- Hk in Hcl.
  assert (deduped r' = true) as Hd by (eapply persistValid_known; [|exact H']; exact Hcl). auto.
Qed.

(** The tables stay well formed, whatever is delivered.  From a state whose
    runs satisfy their invariant (one active run per review, the authoritative
    one), and whose outbox rows are well formed and name existing runs, every
    sequence of deliveries, authentic or not, failing or not, leads to such a
    state. *)
Theorem persistWebhook_preserves maxAttempts accepted l w :
  1 <= maxAttempts -> ingest_ok maxAttempts accepted (db w) ->
  ingest_ok maxAttempts accepted (db (deliveries l w)).
Proof. intros Hm. by apply keeps_deliveries, ingest_ok_stable. Qed.

(** The metadata and the issue links fail open.  Whatever the tables of the
    pull-request metadata and of the links hold, whatever their clock and ids
    and whether their statements fail, a delivery returns the same result and
    leaves the same runs, outbox, audit, keys and counters. *)
Theorem persistWebhook_fail_open e pr prFault linksNow linksFault rq w t l :
  let x := persist e rq w in
  let y := persist (other_metadata e pr prFault linksNow linksFault) rq
             (World (db w) t l (counters w)) in
  x.1 = y.1 /\ db x.2 = db y.2 /\ counters x.2 = counters y.2.
Proof. by apply agree_persist. Qed.

(** What the route answers.  With the three headers and a body within the cap,
    it answers 204 exactly when the digest of the body is the one the signature
    header carries and the delivery commits; 401 when the digest is another and
    the audit row commits, and then nothing else has changed; and 500 when it
    throws, and then no table has changed. *)
Theorem receive_answers hmac json_parse e secret r w signature event delivery :
  headerStr (h_signature r) = Some signature -> headerStr (h_event r) = Some event ->
  headerStr (h_delivery r) = Some delivery ->
  Z.of_nat (String.length (h_body r)) <= WEBHOOK_BODY_CAP_BYTES ->
  let rq := Request delivery event (h_body r) (json_parse (h_body r))
              (verifyGithubSignature hmac (h_body r) signature secret) in
  let (status, w1) := receive timestamptz uuid5 zod_datetime hmac json_parse e secret r w in
  status ∈ [204; 401; 500] /\
  (status = 204 <-> signature = ("sha256=" +:+ hmac secret (h_body r))%string /\
                    exists res, persist e rq w = (Ok res, w1)) /\
  (status = 401 -> w1 = audited (audit_of e rq (internal rq (db w))) w) /\
  (status = 500 -> db w1 = db w /\ metadata w1 = metadata w /\ links w1 = links w).
Proof.
  intros Hs He Hd Hb rq. unfold receive. rewrite Hs, He, Hd. rewrite (proj2 (Z.ltb_ge _ _) Hb). cbv zeta.
  pose proof (verifyGithubSignature_spec hmac (h_body r) signature secret) as Hv. fold rq.
  change (verifyGithubSignature hmac (h_body r) signature secret) with (rq_valid rq) in Hv |- *. clearbody rq.
  pose proof (persistWebhook_cases e rq w) as Hc.
  destruct (persistWebhook _ _ _ e rq w) as [[res|x] w1].
  2:{ split_and!; [by repeat constructor|split; [done|by intros (_ & ? & ?)]|done|done]. }
  destruct Hc as (Hc & _).
  destruct (rq_valid rq); (split_and!; [by repeat constructor| |by auto|done]).
  - split; [|done]. intros _. split; [by apply Hv|by exists res].
  - split; [done|]. intros [H _]. apply Hv in H. done.
Qed.
End Properties.

(** * Witnesses *)

Definition ex_tz (s : string) : option Z := if String.eqb s "" then None else Some 5.
Definition ex_uuid5 (ns name : string) : string := ns +:+ "/" +:+ name.
Definition ex_ingest_db : ingest_db :=
  IngestDb (core_empty {[ 7 := Some "i1"%string ]}) ∅ {[ 42 := "i1"%string ]} {[ 7 := "repo1"%string ]} [] ∅ ∅.
Definition ex_world : world := World ex_ingest_db (PrTables ∅ ∅ []) [] [].
Definition ex_env : ingest_env :=
  IngestEnv "ev1" 100 100 100 (PrEnv 100 "u1" "t1" true) false 100 false false "review1" ex_run_id "e1" "e2"
    100 100 "o1" "o2" "o3" "o4" "o5" None None None.
Definition ex_request : request :=
  Request "d1" "pull_request" "{}" (Some (ex_pr_event "opened" false)) true.

Lemma ex_ingest_ok : ingest_ok 5 ∅ ex_ingest_db.
Proof. split; [apply core_empty_inv|]. intros id r H. discriminate H. Qed.

Lemma persistWebhook_preserves_witness :
  ingest_ok 5 ∅ (db (deliveries ex_tz ex_uuid5 ex_datetime [(ex_env, ex_request); (ex_env, ex_request)] ex_world)).
Proof. apply persistWebhook_preserves; [lia|exact ex_ingest_ok]. Defined.

Lemma persistWebhook_dispatches_witness :
  exists m w1, extractPrMetadata ex_datetime (rq_body ex_request) = Some m /\
    persistWebhook ex_tz ex_uuid5 ex_datetime ex_env ex_request ex_world =
      (Ok (PersistResult false "ev1" (Some "i1"%string) "d1"), w1) /\
    is_Some (out (db w1) !! "o1"%string).
Proof.
  destruct ex_pr_metadata as [m|] eqn:E; [|discriminate E].
  assert (Hm : extractPrMetadata ex_datetime (rq_body ex_request) = Some m)
    by (rewrite <- E; vm_compute; reflexivity).
  destruct (persistWebhook_dispatches ex_tz ex_uuid5 ex_datetime ex_env ex_request ex_world 42 "i1" "repo1" m)
    as (review & old & c & t & l & Hp & _).
  - injection E as <-. split; [discriminate|vm_compute; reflexivity..|].
    intros x Hx. by apply not_elem_of_nil in Hx.
  - injection E as <-. split; [apply core_empty_inv|split; reflexivity|vm_compute; reflexivity..| | |vm_compute; reflexivity].
    + intros k [->|[r Hr]]; [eexists; vm_compute; reflexivity|discriminate Hr].
    + intros f Hf. by apply not_elem_of_nil in Hf.
  - exists m. eexists. split_and!; [exact Hm|exact Hp|]. simpl. rewrite lookup_insert_eq. by eexists.
Defined.

Definition ex_hmac (secret raw : string) : string := secret +:+ raw.
Definition ex_http : http_request :=
  HttpRequest (Some "sha256=k{}"%string) (Some "ping"%string) (Some "d1"%string) "{}".

Lemma receive_answers_witness :
  (receive ex_tz ex_uuid5 ex_datetime ex_hmac (fun _ => Some (JObj [])) ex_env "k" ex_http ex_world).1 ∈ [204; 401; 500].
Proof.
  pose proof (receive_answers ex_tz ex_uuid5 ex_datetime ex_hmac (fun _ => Some (JObj [])) ex_env "k" ex_http
    ex_world "sha256=k{}" "ping" "d1" eq_refl eq_refl eq_refl ltac:(vm_compute; discriminate)) as H.
  cbv zeta in H. destruct (receive _ _ _ _ _ _ _ _ _) as [s w1]. exact (proj1 H).
Defined.
