(* ===== verification/ShellMutex.v ===== *)
(** [runner/shell_mutex.ts], and the claim check and the renewal of
    [runner/review_job_shell.ts]: how a review worker holds the mutex of its pull
    request.  A worker is a program of transactions over the shared tables;
    between two of them other processes may do what the relation [R] allows, and
    a transaction may be lost to a fault of the connection, before or after its
    commit.  Database times are microseconds. *)
From Stdlib Require Import QArith.
From stdpp Require Import base gmap sets list strings pretty.
From Stdlib Require Import ZArith Lia.
From S2P Require Import Prelude JobTable Json WorkflowEvents RunLifecycle RunAllocator.
From S2P Require Import PrMutex ReviewJobs Retry ReviewRunner.
Local Open Scope Z_scope.

(** * The tables *)

Record shell_db := ShellDb {
  mutexes : gmap string mutex_row;
  jobs : gmap string rv_row;
  (** [core.repositories.enabled], by repository and installation. *)
  enabled : gmap (string * string) bool;
  core : core_db;
}.

Definition set_mutexes (t : gmap string mutex_row) (d : shell_db) : shell_db :=
  ShellDb t (jobs d) (enabled d) (core d).
Definition set_jobs (t : gmap string rv_row) (d : shell_db) : shell_db :=
  ShellDb (mutexes d) t (enabled d) (core d).

(** The fields of [ReviewPullRequestPayloadV1] that identify the work. *)
Record payload_ids := PayloadIds {
  pl_installation : string;
  pl_repository : string;
  pl_pr_number : Z;
  pl_owner : string;
  pl_repo_name : string;
  pl_head_sha : string;
  pl_review : string;
}.

Definition pr_of (p : payload_ids) : pr_key := PrKey (pl_installation p) (pl_repository p) (pl_pr_number p).

(** * Errors *)

Definition TerminalCancelError (reason : string) : js_error :=
  JsError true "TerminalCancelError" reason (Some reason) None None.
Definition MutexTenancyRaceError : js_error :=
  JsError true "MutexTenancyRaceError" "repository missing or disabled" None None None.
Definition mutex_js_error (e : mutex_error) : js_error :=
  match e with
  | RangeErrorPr => JsError true "RangeError" "pr_number must be > 0" None None None
  | MutexUniqueViolation => db_fault
  end.

(** * Programs *)

Inductive prog (A : Type) : Type :=
| Return (a : A)
| Raise (e : js_error)
| Step {X : Type} (f : shell_db -> result js_error (shell_db * X)) (k : result js_error X -> prog A).
Arguments Return {A} _.
Arguments Raise {A} _.
Arguments Step {A X} _ _.

(** One awaited transaction; what it throws, the caller throws. *)
Definition transact {A X} (f : shell_db -> result js_error (shell_db * X)) (k : X -> prog A) : prog A :=
  Step f (fun r => match r with Ok x => k x | Throw e => Raise e end).

(** A run of a program among others: [out] is its outcome and [d'] what it leaves.
    [faults] tells whether connections may fail. *)
Fixpoint runs (faults : bool) (R : shell_db -> shell_db -> Prop) {A : Type} (q : prog A)
    (d : shell_db) (out : result js_error A) (d' : shell_db) : Prop :=
  match q with
  | Return a => out = Ok a /\ d' = d
  | Raise e => out = Throw e /\ d' = d
  | Step f k =>
      exists d1, R d d1 /\
        ((exists d2 x, f d1 = Ok (d2, x) /\ runs faults R (k (Ok x)) d2 out d') \/
         (exists e, f d1 = Throw e /\ runs faults R (k (Throw e)) d1 out d') \/
         (faults = true /\ exists d2, (d2 = d1 \/ exists x, f d1 = Ok (d2, x)) /\
            runs faults R (k (Throw db_fault)) d2 out d'))
  end.

(** * Transactions *)

Definition renew (p : payload_ids) (m : string) (now : Z) (d : shell_db) : result js_error (shell_db * bool) :=
  let (t, held) := renewPrReviewMutexLease (pl_installation p) m DEFAULT_LEASE_TTL_SECONDS now (mutexes d) in
  Ok (set_mutexes t d, held).

Definition release (p : payload_ids) (m : string) (clock_now : Z) (d : shell_db)
    : result js_error (shell_db * unit) :=
  Ok (set_mutexes (releasePrReviewMutex (pl_installation p) m clock_now (mutexes d)) d, tt).

(** [releasePrReviewMutexActivity]: by the mutex id alone.  [is_uuid] is the test of
    the id's shape. *)
Definition releasePrReviewMutexActivity (is_uuid : string -> bool) (m : string) (clock_now : Z) (d : shell_db)
    : result js_error (shell_db * unit) :=
  if negb (is_uuid m) then Throw (JsError true "RangeError" "not a valid UUID" None None None)
  else match mutexes d !! m with
       | None => Ok (d, tt)
       | Some r => Ok (set_mutexes (releasePrReviewMutex (m_installation r) m clock_now (mutexes d)) d, tt)
       end.

Definition read_mutex (m : string) (d : shell_db) : result js_error (shell_db * option mutex_row) :=
  Ok (d, readMutexRow m (mutexes d)).

Definition holder_of (p : payload_ids) : string :=
  "ReviewPR-" +:+ pl_owner p +:+ "/" +:+ pl_repo_name p +:+ "-" +:+ pretty (pl_pr_number p) +:+ "-"
  +:+ JsString.left 8 (pl_head_sha p).

(** What the clocks, the advisory lock and the uuid default supply. *)
Record mutex_env := MutexEnv {
  me_renew_now : Z;
  me_locked : bool;
  me_fresh : string;
  me_acquire_now : Z;
  me_clock : Z;
}.

(** The tenancy re-check and the acquire, in one transaction. *)
Definition acquire (p : payload_ids) (e : mutex_env) (d : shell_db)
    : result js_error (shell_db * acquire_result) :=
  match enabled d !! (pl_repository p, pl_installation p) with
  | Some true =>
      match acquirePrReviewMutex (pr_of p) (holder_of p) DEFAULT_LEASE_TTL_SECONDS (me_locked e)
              (me_fresh e) (me_acquire_now e) (mutexes d) with
      | Ok (t, res) => Ok (set_mutexes t d, res)
      | Throw x => Throw (mutex_js_error x)
      end
  | _ => Throw MutexTenancyRaceError
  end.

Definition persist (id : string) (job : rv_row) (m : string) (d : shell_db) : result js_error (shell_db * bool) :=
  match persistMutexId id (default "" (lease_owner (rv_core job))) (default "" (attempt_token (rv_core job)))
          m (mutexes d) (jobs d) with
  | Ok (t, applied) => Ok (set_jobs t d, applied)
  | Throw _ => Throw db_fault
  end.

Definition readCurrentRunId (review : string) (d : shell_db) : result js_error (shell_db * option string) :=
  Ok (d, v ← reviews (core d) !! review; current_run_id v).

(** * acquireOrReuseMutex *)

Inductive mutex_outcome := Acquired (m : string) | Reused (m : string) | Busy | LeaseLost.

Definition ownershipMatches (p : payload_ids) (row : option mutex_row) : bool :=
  match row with
  | Some r => live r && String.eqb (m_installation r) (pl_installation p)
              && String.eqb (m_repository r) (pl_repository p) && (m_pr r =? pl_pr_number p)
  | None => false
  end.

Section Shell.
(** The verified payload and the claimed row. *)
Variable p : payload_ids.
Variable id : string.
Variable job : rv_row.

Definition acquireFresh (e : mutex_env) : prog mutex_outcome :=
  transact (acquire p e) (fun res =>
    match acquired res, mutexId res with
    | true, Some m =>
        transact (persist id job m) (fun applied =>
          if applied then Return (Acquired m)
          else transact (release p m (me_clock e)) (fun _ => Return LeaseLost))
    | _, _ => Return Busy
    end).

Definition acquireOrReuseMutex (e : mutex_env) : prog mutex_outcome :=
  match j_mutex_id job with
  | None => acquireFresh e
  | Some m =>
      transact (read_mutex m) (fun row =>
        if ownershipMatches p row
        then transact (renew p m (me_renew_now e)) (fun renewed =>
               if renewed then Return (Reused m) else acquireFresh e)
        else acquireFresh e)
  end.

(** * The claim check *)

(** [aborted] is the composed signal; an error of the renewal counts as held. *)
Definition claimCheck (aborted : bool) (m : string) (now : Z) : prog unit :=
  if aborted then Raise (TerminalCancelError "aborted")
  else Step (renew p m now) (fun r =>
    if negb (match r with Ok held => held | Throw _ => true end)
    then Raise (TerminalCancelError "mutex-lost")
    else transact (readCurrentRunId (pl_review p)) (fun current =>
           if bool_decide (current = Some (j_run_id job)) then Return tt
           else Raise (TerminalCancelError "superseded"))).
End Shell.

(** * The renewal loop *)

Inductive renewal := Renewed | Lost | Errored.

Definition MAX_CONSECUTIVE_MUTEX_RENEW_FAILURES : nat := 3.

Definition classifyRenewOutcome (errored renewedOk : bool) (priorConsecutiveErrors maxConsecutiveErrors : nat)
    : nat * bool :=
  if negb errored then (0%nat, negb renewedOk)
  else let n := S priorConsecutiveErrors in (n, (maxConsecutiveErrors <=? n)%nat).

Definition classify (r : renewal) (prior : nat) : nat * bool :=
  match r with
  | Renewed => classifyRenewOutcome false true prior MAX_CONSECUTIVE_MUTEX_RENEW_FAILURES
  | Lost => classifyRenewOutcome false false prior MAX_CONSECUTIVE_MUTEX_RENEW_FAILURES
  | Errored => classifyRenewOutcome true false prior MAX_CONSECUTIVE_MUTEX_RENEW_FAILURES
  end.

(** Whether the loop has aborted the review after these renewals; it makes no
    renewal once it has. *)
Fixpoint renewLoop (prior : nat) (l : list renewal) : bool :=
  match l with
  | [] => false
  | r :: l' => let (n, abandon) := classify r prior in if abandon then true else renewLoop n l'
  end.

(** * Lemmas *)

Lemma runs_transact faults R {A X} (f : shell_db -> result js_error (shell_db * X)) (k : X -> prog A) d out d' :
  runs faults R (transact f k) d out d' ->
  exists d1, R d d1 /\
    ((exists d2 x, f d1 = Ok (d2, x) /\ runs faults R (k x) d2 out d') \/
     (exists e, f d1 = Throw e /\ out = Throw e /\ d' = d1) \/
     (faults = true /\ out = Throw db_fault /\ (d' = d1 \/ exists x, f d1 = Ok (d', x)))).
Proof.
  intros (d1 & HR & [H|[(e & H & -> & ->)|(Hf & d2 & Hd & -> & ->)]]); exists d1; split; eauto 6.
Qed.

Lemma renewLoop_spec c l :
  (c < MAX_CONSECUTIVE_MUTEX_RENEW_FAILURES)%nat ->
  renewLoop c l = true <->
  Lost ∈ l \/ exists l1 l2, replicate c Errored ++ l = l1 ++ [Errored; Errored; Errored] ++ l2.
Proof.
  unfold MAX_CONSECUTIVE_MUTEX_RENEW_FAILURES. revert c. induction l as [|r l IH]; intros c Hc.
  - split; [done|]. intros [H|(l1 & l2 & H)]; [by apply elem_of_nil in H|].
    apply (f_equal length) in H. rewrite !length_app, length_replicate in H. simpl in H. lia.
  - destruct r; cbn [renewLoop classify].
    + cbn. rewrite IH by lia. simpl. split.
      * intros [H|(l1 & l2 & ->)]; [left; by right|right].
        exists (replicate c Errored ++ Renewed :: l1), l2. by rewrite <- (assoc_L (++)).
      * intros [H|(l1 & l2 & H)]; [left; apply elem_of_cons in H as [?|?]; done|right].
        destruct c as [|[|[|c]]]; [| | |lia]; simpl in H; destruct l1 as [|? [|? [|? l1]]]; simplify_eq/=;
          first [by exists [], l2 | by exists l1, l2 | by eexists [_], l2 | by eexists [_; _], l2 | by eexists (_ :: l1), l2
                | by eexists (_ :: _ :: l1), l2].
    + cbn. split; [|done]. intros _. left. by left.
    + unfold classifyRenewOutcome, MAX_CONSECUTIVE_MUTEX_RENEW_FAILURES. cbv beta iota zeta delta [negb].
      destruct (3 <=? S c)%nat eqn:E.
      * apply Nat.leb_le in E. assert (c = 2)%nat as -> by lia. split; [|done]. intros _. right.
        by exists [], l.
      * apply Nat.leb_gt in E.
        rewrite IH by lia. assert (replicate (S c) Errored ++ l = replicate c Errored ++ Errored :: l) as ->.
        { rewrite replicate_S_end, <- (assoc_L (++)). done. }
        split; (intros [H|H]; [left|by right]); [by right|by apply elem_of_cons in H as [?|?]].
Qed.

(** A row never changes the pull request it belongs to. *)
Lemma moves_key t t' i r : moves t t' -> t !! i = Some r -> exists r', t' !! i = Some r' /\ key_of r' = key_of r.
Proof.
  intros Hm Hi. specialize (Hm i). rewrite Hi in Hm. destruct (t' !! i) as [r'|]; [|done].
  exists r'. split; [done|]. by destruct Hm.
Qed.

Lemma mutex_step_key t t' i r :
  mutex_step t t' -> t !! i = Some r -> exists r', t' !! i = Some r' /\ key_of r' = key_of r.
Proof.
  intros Hs Hi. destruct Hs as [k holder ttl locked id now t' res H| | |].
  - apply acquire_cases in H as [(_ & _ & -> & _)|(_ & _ & _ & _ & t1 & Hm & Hn & _ & -> & _)]; [eauto|].
    destruct (moves_key _ _ _ _ Hm Hi) as (r' & Hr' & Hk). exists r'. split; [|done].
    rewrite lookup_insert_ne; congruence.
  - eapply moves_key; [|done]. apply update_live_moves. eauto with codemaster.
  - eapply moves_key; [|done]. apply update_live_moves. eauto with codemaster.
  - eapply moves_key; [|done]. apply sweep_moves.
Qed.

Lemma mutex_steps_key t t' i r :
  mutex_steps t t' -> t !! i = Some r -> exists r', t' !! i = Some r' /\ key_of r' = key_of r.
Proof.
  induction 1 as [|t1 t2 _ IH H]; intros Hi; [eauto|]. destruct (IH Hi) as (r1 & H1 & <-).
  by eapply mutex_step_key.
Qed.

(** [m] is the live mutex of the pull request, leased until [until]. *)
Definition holds (p : payload_ids) (until : Z) (m : string) (d : shell_db) : Prop :=
  exists r, mutexes d !! m = Some r /\ key_of r = pr_of p /\ live r = true /\ lease_expires_at r = Some until.

Lemma renew_cases p m now d :
  exists d' held, renew p m now d = Ok (d', held) /\ mutex_step (mutexes d) (mutexes d') /\
    (held = true -> forall r, mutexes d !! m = Some r -> key_of r = pr_of p ->
       holds p (now + secs DEFAULT_LEASE_TTL_SECONDS) m d') /\
    (held = true -> exists r, mutexes d !! m = Some r /\ live r = true) /\
    core d' = core d.
Proof.
  unfold renew. destruct (renewPrReviewMutexLease _ _ _ _ _) as [t held] eqn:E.
  exists (set_mutexes t d), held. split; [done|].
  pose proof (step_renew (mutexes d) (pl_installation p) m DEFAULT_LEASE_TTL_SECONDS now) as Hs.
  rewrite E in Hs. unfold renewPrReviewMutexLease, update_live in E. split_and!; [done| | |done].
  - intros -> r Hr Hk. rewrite Hr in E. destruct (live r && _)%bool eqn:El; [|done].
    injection E as <-. apply andb_true_iff in El as [El _]. eexists. simpl. rewrite lookup_insert_eq.
    split_and!; [done|exact Hk|done|done].
  - intros ->. destruct (mutexes d !! m) as [r|]; [|done]. destruct (live r && _)%bool eqn:El; [|done].
    apply andb_true_iff in El as [El _]. eauto.
Qed.

Lemma ownershipMatches_key p m d :
  ownershipMatches p (mutexes d !! m) = true ->
  exists r, mutexes d !! m = Some r /\ key_of r = pr_of p /\ live r = true.
Proof.
  unfold ownershipMatches. destruct (mutexes d !! m) as [r|]; [|done]. intros H.
  repeat apply andb_true_iff in H as [H ?]. bool_to_prop. exists r. split_and!; [done| |done].
  unfold key_of, pr_of. congruence.
Qed.

Section Acquire.
Context (faults : bool) (R : shell_db -> shell_db -> Prop) (p : payload_ids) (id : string) (job : rv_row)
        (e : mutex_env).

(** What the others do while the worker is between two transactions: they use the
    mutex table by its operations, and do not know the id that the worker is
    about to mint. *)
Record rely : Prop := {
  rl_steps : forall a b, R a b -> mutex_steps (mutexes a) (mutexes b);
  rl_fresh : forall a b, R a b -> mutexes b !! me_fresh e = mutexes a !! me_fresh e;
}.

(** Where the worker stands. *)
Definition acquire_post (out : result js_error mutex_outcome) (d' : shell_db) : Prop :=
  match out with
  | Ok (Acquired m) =>
      m = me_fresh e /\ holds p (me_acquire_now e + secs DEFAULT_LEASE_TTL_SECONDS) m d' /\
      exists r, jobs d' !! id = Some r /\ j_mutex_id r = Some m /\
        fence (default "" (lease_owner (rv_core job))) (default "" (attempt_token (rv_core job))) (rv_core r) = true
  | Ok (Reused m) =>
      j_mutex_id job = Some m /\ holds p (me_renew_now e + secs DEFAULT_LEASE_TTL_SECONDS) m d'
  | Ok Busy =>
      mutexes d' !! me_fresh e = None /\
      (me_locked e = true -> exists m r, mutexes d' !! m = Some r /\ key_of r = pr_of p /\
         live r = true /\ lease_valid (me_acquire_now e) r = true)
  | Ok LeaseLost => exists r, mutexes d' !! me_fresh e = Some r /\ live r = false
  | Throw x => mutexes d' !! me_fresh e = None \/ (faults = true /\ x = db_fault)
  end.

Lemma mutex_steps_app t1 t2 t3 : mutex_steps t1 t2 -> mutex_steps t2 t3 -> mutex_steps t1 t3.
Proof. intros H. induction 1; [done|]. by eapply mutex_steps_step. Qed.

Lemma acquire_txn d :
  match acquire p e d with
  | Ok (d', res) =>
      mutex_step (mutexes d) (mutexes d') /\ jobs d' = jobs d /\
      ((acquired res = true /\ mutexId res = Some (me_fresh e) /\
        holds p (me_acquire_now e + secs DEFAULT_LEASE_TTL_SECONDS) (me_fresh e) d') \/
       (acquired res = false /\ d' = d /\
        (me_locked e = true -> exists m r, mutexes d !! m = Some r /\ key_of r = pr_of p /\
           live r = true /\ lease_valid (me_acquire_now e) r = true)))
  | Throw _ => True
  end.
Proof.
  unfold acquire. destruct (enabled d !! _) as [[]|]; [|done..].
  destruct (acquirePrReviewMutex _ _ _ _ _ _ _) as [[t res]|x] eqn:E; [|done].
  split_and!; [by eapply step_acquire|done|].
  apply acquire_cases in E as [(Ha & Hm & -> & Hv)|(Ha & Hm & Hl & _ & t1 & Hmv & Hn & Hlr & -> & _)].
  - right. split_and!; [done|by destruct d|]. intros Hl. destruct (Hv Hl) as (m & r & ? & ? & ? & ? & _). eauto 6.
  - left. split_and!; [done|done|]. eexists. simpl. rewrite lookup_insert_eq. split_and!; done.
Qed.

Lemma persist_cases m d d' b :
  persist id job m d = Ok (d', b) ->
  mutexes d' = mutexes d /\
  (b = true -> exists r, jobs d' !! id = Some r /\ j_mutex_id r = Some m /\
     fence (default "" (lease_owner (rv_core job))) (default "" (attempt_token (rv_core job))) (rv_core r) = true).
Proof.
  unfold persist, persistMutexId. destruct (fenced_update _ _ _ _ _ _) as [t b'] eqn:Ef.
  destruct (_ || _)%bool; [|done]. intros [= <- <-]. split; [done|]. intros ->.
  apply fenced_update_cases in Ef as [(_ & r & Hr & Hfe & _ & ->)|(? & _)]; [|done].
  exists (set_mutex_id m r). simpl. by rewrite lookup_insert_eq.
Qed.

Lemma persist_known m d e' : is_Some (mutexes d !! m) -> persist id job m d <> Throw e'.
Proof.
  intros Hm. unfold persist, persistMutexId. destruct (fenced_update _ _ _ _ _ _) as [t b].
  rewrite (bool_decide_eq_true_2 _ Hm), orb_true_r. done.
Qed.

Lemma release_held m until d :
  holds p until m d ->
  exists r, mutexes (set_mutexes (releasePrReviewMutex (pl_installation p) m (me_clock e) (mutexes d)) d) !! m = Some r /\
    live r = false.
Proof.
  intros (r & Hr & Hk & Hl & _). exists (set_released (me_clock e) r). split; [|done]. simpl.
  unfold releasePrReviewMutex, update_live. rewrite Hr, Hl.
  assert (m_installation r = pl_installation p) as -> by (unfold key_of, pr_of in Hk; congruence).
  rewrite String.eqb_refl. simpl. by rewrite lookup_insert_eq.
Qed.

Lemma acquireFresh_post d out d' :
  rely -> mutex_inv (mutexes d) -> mutexes d !! me_fresh e = None ->
  runs faults R (acquireFresh p id job e) d out d' ->
  acquire_post out d' /\ mutex_inv (mutexes d') /\ mutex_steps (mutexes d) (mutexes d').
Proof.
  intros [Hsteps Hfresh] Hi Hn Hr.
  assert (Hinv : forall a b, mutex_inv (mutexes a) -> mutex_steps (mutexes a) (mutexes b) -> mutex_inv (mutexes b))
    by (intros a b ? ?; by eapply mutex_steps_inv).
  apply runs_transact in Hr as (d1 & HR1 & Hr). pose proof (Hsteps _ _ HR1) as S1.
  pose proof (acquire_txn d1) as Ht. rewrite <- (Hfresh _ _ HR1) in Hn.
  destruct Hr as [(d2 & res & E & Hr)|[(x & E & -> & ->)|(Hf & -> & Hd)]].
  2:{ split_and!; [by left|eauto|done]. }
  2:{ destruct Hd as [->|(res & E)].
      - split_and!; [by left|eauto|done].
      - rewrite E in Ht. destruct Ht as (Hs & _ & _). assert (mutex_steps (mutexes d) (mutexes d')) by (by eapply mutex_steps_step).
        split_and!; [by right|eauto|done]. }
  rewrite E in Ht. destruct Ht as (Hs & Hj & Hres).
  assert (S2 : mutex_steps (mutexes d) (mutexes d2)) by (by eapply mutex_steps_step).
  destruct Hres as [(Ha & Hm & Hh)|(Ha & -> & Hv)]; rewrite Ha in Hr; cycle 1.
  { destruct Hr as [-> ->]. split_and!; [by split|eauto|done]. }
  rewrite Hm in Hr. apply runs_transact in Hr as (d3 & HR3 & Hr). pose proof (Hsteps _ _ HR3) as S3.
  assert (Hh3 : holds p (me_acquire_now e + secs DEFAULT_LEASE_TTL_SECONDS) (me_fresh e) d3).
  { destruct Hh as (r & Hr' & ?). exists r. by rewrite (Hfresh _ _ HR3). }
  assert (S13 : mutex_steps (mutexes d) (mutexes d3)) by (by eapply mutex_steps_app).
  pose proof (persist_cases (me_fresh e) d3) as Hp.
  destruct Hr as [(d4 & b & Ep & Hr)|[(x & Ep & -> & ->)|(Hf & -> & Hd)]].
  - destruct (Hp _ _ Ep) as [Em Hb]. rewrite <- Em in S13. destruct b.
    + destruct Hr as [-> ->]. split_and!; [|eauto|done]. split_and!; [done| |by apply Hb].
      destruct Hh3 as (r & ?). exists r. by rewrite Em.
    + apply runs_transact in Hr as (d5 & HR5 & Hr). pose proof (Hsteps _ _ HR5) as S5.
      assert (S15 : mutex_steps (mutexes d) (mutexes d5)) by (by eapply mutex_steps_app).
      pose proof (step_release (mutexes d5) (pl_installation p) (me_fresh e) (me_clock e)) as Hrel.
      assert (S16 : mutex_steps (mutexes d) (releasePrReviewMutex (pl_installation p) (me_fresh e) (me_clock e) (mutexes d5)))
        by (by eapply mutex_steps_step).
      destruct Hr as [(d6 & u & Er & -> & ->)|[(x & Er & -> & ->)|(Hf & -> & Hd)]].
      * injection Er as <- _. split_and!; [|by eapply mutex_steps_inv|done].
        apply (release_held _ (me_acquire_now e + secs DEFAULT_LEASE_TTL_SECONDS)).
        destruct Hh3 as (r & ?). exists r. by rewrite (Hfresh _ _ HR5), Em.
      * discriminate Er.
      * destruct Hd as [->|(u & Er)]; [split_and!; [by right|eauto|done]|].
        injection Er as <- _. split_and!; [by right|by eapply mutex_steps_inv|done].
  - exfalso. eapply persist_known; [|exact Ep]. destruct Hh3 as (r & -> & _). by eexists.
  - destruct Hd as [->|(b & Ep)]; [split_and!; [by right|eauto|done]|].
    destruct (Hp _ _ Ep) as [Em _]. rewrite <- Em in S13. split_and!; [by right|eauto|done].
Qed.
End Acquire.

Lemma acquireOrReuse_post faults R p id job e d out d' :
  rely R e -> mutex_inv (mutexes d) -> mutexes d !! me_fresh e = None ->
  runs faults R (acquireOrReuseMutex p id job e) d out d' ->
  acquire_post faults p id job e out d' /\ mutex_inv (mutexes d') /\ mutex_steps (mutexes d) (mutexes d').
Proof.
  intros Hrely Hi Hn Hr. unfold acquireOrReuseMutex in Hr.
  assert (Hfresh : forall d1, mutex_steps (mutexes d) (mutexes d1) -> mutexes d1 !! me_fresh e = None ->
    runs faults R (acquireFresh p id job e) d1 out d' ->
    acquire_post faults p id job e out d' /\ mutex_inv (mutexes d') /\ mutex_steps (mutexes d) (mutexes d')).
  { intros d1 S1 N1 H1. destruct (acquireFresh_post faults R p id job e d1 out d') as (Hp & Hi' & S2);
      [done|by eapply mutex_steps_inv|done|done|]. split_and!; [done|done|by eapply mutex_steps_app]. }
  destruct (j_mutex_id job) as [m|] eqn:Em; [|apply (Hfresh d); [constructor|done|done]].
  apply runs_transact in Hr as (d1 & HR1 & Hr). pose proof (rl_steps _ _ Hrely _ _ HR1) as S1.
  pose proof (rl_fresh _ _ Hrely _ _ HR1) as N1. rewrite Hn in N1.
  assert (Hi1 : mutex_inv (mutexes d1)) by (by eapply mutex_steps_inv).
  destruct Hr as [(d2 & row & [= <- <-] & Hr)|[(x & [=] & _)|(Hf & -> & Hd)]].
  2:{ destruct Hd as [->|(x & [= <- _])]; (split_and!; [by left|done|done]). }
  unfold readMutexRow in Hr. destruct (ownershipMatches p (mutexes d1 !! m)) eqn:Eo; [|by apply (Hfresh d1)].
  apply ownershipMatches_key in Eo as (r & Hr1 & Hk1 & _).
  apply runs_transact in Hr as (d2 & HR2 & Hr). pose proof (rl_steps _ _ Hrely _ _ HR2) as S2.
  pose proof (rl_fresh _ _ Hrely _ _ HR2) as N2. rewrite N1 in N2.
  destruct (mutex_steps_key _ _ _ _ S2 Hr1) as (r2 & Hr2 & Hk2).
  destruct (renew_cases p m (me_renew_now e) d2) as (d3 & held & E & S3 & Hh & _ & _).
  assert (S : mutex_steps (mutexes d) (mutexes d2)) by (by eapply mutex_steps_app).
  assert (S' : mutex_steps (mutexes d) (mutexes d3)) by (by eapply mutex_steps_step).
  assert (N3 : mutexes d3 !! me_fresh e = None).
  { unfold renew, renewPrReviewMutexLease, update_live in E. rewrite Hr2 in E.
    destruct (live r2 && _)%bool; injection E as <- _; simpl; [|done].
    rewrite lookup_insert_ne; [done|]. intros ->. congruence. }
  destruct Hr as [(d4 & b & E' & Hr)|[(x & E' & _)|(Hf & -> & Hd)]].
  - rewrite E in E'. injection E' as <- <-. destruct held; [|by apply (Hfresh d3)].
    destruct Hr as [-> ->]. split_and!; [|by eapply mutex_steps_inv|done]. split; [done|].
    eapply Hh; [done|exact Hr2|congruence].
  - rewrite E in E'. discriminate E'.
  - destruct Hd as [->|(b & E')]; [split_and!; [by left|by eapply mutex_steps_inv|done]|].
    rewrite E in E'. injection E' as <- _. split_and!; [by left|by eapply mutex_steps_inv|done].
Qed.

(** What the read of the claim check sees. *)
Definition current_run (p : payload_ids) (d : shell_db) : option string :=
  v ← reviews (core d) !! pl_review p; current_run_id v.

Definition mutex_live (m : string) (d : shell_db) : Prop :=
  exists r, mutexes d !! m = Some r /\ live r = true.

Lemma renew_lost p m now d d' : renew p m now d = Ok (d', false) ->
  ~ (exists r, mutexes d !! m = Some r /\ live r = true /\ m_installation r = pl_installation p).
Proof.
  unfold renew, renewPrReviewMutexLease, update_live. intros H (r & Hr & Hl & Hi). rewrite Hr, Hl, Hi in H.
  by rewrite String.eqb_refl in H.
Qed.

(** What a claim check means, by its outcome. *)
Definition claim_post (faults : bool) (R : shell_db -> shell_db -> Prop) (p : payload_ids) (job : rv_row)
    (aborted : bool) (m : string) (d : shell_db) (out : result js_error unit) (d' : shell_db) : Prop :=
  match out with
  | Ok _ =>
      aborted = false /\ current_run p d' = Some (j_run_id job) /\
      (faults = false -> exists d1, R d d1 /\ mutex_live m d1)
  | Throw x =>
      (aborted = true /\ x = TerminalCancelError "aborted" /\ d' = d) \/
      (x = TerminalCancelError "mutex-lost" /\ exists d1, R d d1 /\
         ~ (exists r, mutexes d1 !! m = Some r /\ live r = true /\ m_installation r = pl_installation p)) \/
      (x = TerminalCancelError "superseded" /\ current_run p d' <> Some (j_run_id job)) \/
      (faults = true /\ x = db_fault)
  end.

Lemma claimCheck_runs faults R p job aborted m now d out d' :
  runs faults R (claimCheck p job aborted m now) d out d' -> claim_post faults R p job aborted m d out d'.
Proof.
  unfold claimCheck. destruct aborted.
  { intros [-> ->]. by left. }
  intros (d1 & HR1 & H).
  assert (Hread : forall d2, (faults = false -> mutex_live m d1) ->
    runs faults R (transact (readCurrentRunId (pl_review p)) (fun current =>
      if bool_decide (current = Some (j_run_id job)) then Return tt
      else Raise (TerminalCancelError "superseded"))) d2 out d' ->
    claim_post faults R p job false m d out d').
  { intros d2 Hlive Hr. apply runs_transact in Hr as (d3 & _ & Hr).
    destruct Hr as [(d4 & cur & [= <- <-] & Hr)|[(x & [=] & _)|(Hf & -> & _)]]; [|by do 3 right].
    case_bool_decide as Hc; destruct Hr as [-> ->]; [|do 2 right; by left].
    split_and!; [done|exact Hc|intros Hf; eauto]. }
  destruct (renew_cases p m now d1) as (d2 & held & E & _ & _ & Hl & _).
  destruct H as [(d3 & b & E' & H)|[(x & E' & _)|(Hf & d3 & _ & H)]].
  - rewrite E in E'. injection E' as <- <-. destruct held; [apply (Hread d2); [intros _; by apply Hl|exact H]|].
    destruct H as [-> ->]. right. left. split; [done|]. exists d1. split; [done|]. by eapply renew_lost.
  - rewrite E in E'. discriminate E'.
  - apply (Hread d3); [congruence|exact H].
Qed.

Lemma core_steps_displaced k db db' :
  core_steps db db' -> core_inv db -> displaced k db -> core_inv db' /\ displaced k db'.
Proof.
  induction 1 as [|db' db'' _ IH Hs]; [done|]. intros Hi Hd. destruct (IH Hi Hd).
  split; [by eapply core_step_inv|by eapply core_step_displaced].
Qed.

Lemma displaced_not_current p k d : core_inv (core d) -> displaced k (core d) -> current_run p d <> Some k.
Proof.
  intros Hi (r & Hr & Hn) Hc. unfold current_run in Hc. apply bind_Some in Hc as (v & Hv & Hk).
  destruct (inv_pointer _ Hi _ _ _ Hv Hk) as (r' & Hr' & Hw). rewrite Hr in Hr'. injection Hr' as <-.
  apply (Hn v); [by rewrite Hw|done].
Qed.

(** * Properties *)


(** A lost claim stays lost.  If the run of the job was displaced from its
    review, then however the transactions on runs and mutexes interleave with it,
    no claim check of the worker passes any more, even if connections are lost;
    if its mutex was released, none passes unless the renewal itself is lost to a
    fault. *)
Theorem claimCheck_lost_for_good faults R p job aborted m now d out d' r :
  (forall a b, R a b -> mutex_steps (mutexes a) (mutexes b) /\ core_steps (core a) (core b)) ->
  core_inv (core d) ->
  displaced (j_run_id job) (core d) \/
    (faults = false /\ mutexes d !! m = Some r /\ live r = false) ->
  runs faults R (claimCheck p job aborted m now) d out d' -> is_ok out = false.
Proof.
  intros HR Hi Hlost Hr. pose proof (claimCheck_runs _ _ _ _ _ _ _ _ _ _ Hr) as Hp.
  destruct out as [[]|x]; [|done]. destruct Hp as (-> & Hc & Hlive). exfalso.
  destruct Hlost as [Hd|(Hf & Hm & Hl)].
  - assert (core_inv (core d') /\ displaced (j_run_id job) (core d')) as [Hi' Hd'].
    { clear -HR Hi Hd Hr. destruct Hr as (d1 & HR1 & Hr).
      destruct (core_steps_displaced _ _ _ (proj2 (HR _ _ HR1)) Hi Hd) as [Hi1 Hd1].
      assert (Hread : forall d2, core d2 = core d1 -> runs faults R (transact (readCurrentRunId (pl_review p)) (fun current =>
          if bool_decide (current = Some (j_run_id job)) then Return tt
          else Raise (TerminalCancelError "superseded"))) d2 (Ok tt) d' ->
        core_inv (core d') /\ displaced (j_run_id job) (core d')).
      { intros d2 E H2. apply runs_transact in H2 as (d3 & HR3 & H2). rewrite <- E in Hi1, Hd1.
        destruct (core_steps_displaced _ _ _ (proj2 (HR _ _ HR3)) Hi1 Hd1).
        destruct H2 as [(d4 & cur & [= <- <-] & H2)|[(x & [=] & _)|(_ & [=] & _)]].
        case_bool_decide; destruct H2 as [H2 ->]; done. }
      destruct (renew_cases p m now d1) as (d2 & held & E & _ & _ & _ & Ecore).
      destruct Hr as [(d3 & b & E' & H)|[(x & E' & _)|(Hf & d3 & Hd3 & H)]].
      - rewrite E in E'. injection E' as <- <-. destruct held; [by apply (Hread d2)|by destruct H].
      - rewrite E in E'. discriminate E'.
      - apply (Hread d3); [|exact H]. destruct Hd3 as [->|(b & E')]; [done|].
        rewrite E in E'. by injection E' as <- _. }
    by apply (displaced_not_current p (j_run_id job) d').
  - destruct (Hlive Hf) as (d1 & HR1 & r1 & Hr1 & Hl1).
    pose proof (mutex_steps_released _ _ _ _ (proj1 (HR _ _ HR1)) Hm Hl) as H1. congruence.
Qed.

(** The renewal loop gives up exactly when it must: at the first renewal that
    finds the mutex lost, or at the third error in a row, whichever comes first. *)
Theorem renewLoop_abandons l :
  renewLoop 0 l = true <->
  Lost ∈ l \/ exists l1 l2, l = l1 ++ [Errored; Errored; Errored] ++ l2.
Proof. apply (renewLoop_spec 0). unfold MAX_CONSECUTIVE_MUTEX_RENEW_FAILURES. lia. Qed.

(** * Witnesses *)

Definition ex_pl : payload_ids := PayloadIds "i1" "repo1" 42 "o" "r" "0123456789abcdef" "r1".
Definition ex_env1 : mutex_env := MutexEnv 100 true "m1" 100 100.
Definition ex_env2 : mutex_env := MutexEnv 200 true "m2" 200 200.
Definition ex_shell (t : gmap string mutex_row) (j : rv_row) : shell_db :=
  ShellDb t {[ "job-1" := j ]} {[ ("repo1"%string, "i1"%string) := true ]} ex_db2.
Definition ex_held : mutex_row :=
  MutexRow "i1" "repo1" 42 "ReviewPR-o/r-42-01234567" 100 None (Some (100 + secs DEFAULT_LEASE_TTL_SECONDS)).

(** Nothing happens in between. *)
Definition alone (a b : shell_db) : Prop := a = b.

Lemma ex_rely e : rely alone e.
Proof. split; intros a b <-; [constructor|done]. Qed.

Lemma ex_acquired :
  runs false alone (acquireOrReuseMutex ex_pl "job-1" ex_leased ex_env1) (ex_shell ∅ ex_leased)
    (Ok (Acquired "m1")) (ex_shell {[ "m1" := ex_held ]} (set_mutex_id "m1" ex_leased)).
Proof.
  eexists. split; [reflexivity|]. left. do 2 eexists. split; [vm_compute; reflexivity|].
  eexists. split; [reflexivity|]. left. do 2 eexists. split; [vm_compute; reflexivity|].
  split; vm_compute; reflexivity.
Qed.


Definition ex_displaced_shell (t : gmap string mutex_row) : shell_db := ShellDb t ∅ ∅ ex_db3.

Lemma ex_superseded :
  runs false alone (claimCheck ex_pl ex_leased false "m1" 150) (ex_displaced_shell {[ "m1" := ex_held ]})
    (Throw (TerminalCancelError "superseded"))
    (ex_displaced_shell {[ "m1" := set_lease (150 + secs DEFAULT_LEASE_TTL_SECONDS) ex_held ]}).
Proof.
  eexists. split; [reflexivity|]. left. do 2 eexists. split; [vm_compute; reflexivity|].
  eexists. split; [reflexivity|]. left. do 2 eexists. split; [vm_compute; reflexivity|].
  split; vm_compute; reflexivity.
Qed.

Lemma claimCheck_lost_for_good_witness :
  exists out d', runs false alone (claimCheck ex_pl ex_leased false "m1" 150)
    (ex_displaced_shell {[ "m1" := ex_held ]}) out d' /\ is_ok out = false.
Proof.
  do 2 eexists. split; [exact ex_superseded|].
  refine (claimCheck_lost_for_good false alone ex_pl ex_leased false "m1" 150 _ _ _ ex_held _ _ _ ex_superseded).
  - intros a b <-. split; constructor.
  - exact (ex_inv _ (core_more _ _ _ ex_steps2 ex_step3)).
  - left. exact ex_displaced.
Defined.

(** A connection lost while the mutex id is recorded on the job leaves a live mutex
    that no job knows; the next attempt of the same job finds it busy, and is
    cancelled for good although nobody else reviews the pull request. *)
Lemma orphaned_mutex_is_busy :
  exists d1, runs true alone (acquireOrReuseMutex ex_pl "job-1" ex_leased ex_env1) (ex_shell ∅ ex_leased)
      (Throw db_fault) d1 /\
    jobs d1 !! "job-1"%string = Some ex_leased /\
    runs false alone (acquireOrReuseMutex ex_pl "job-1" ex_leased ex_env2) d1 (Ok Busy) d1.
Proof.
  exists (ex_shell {[ "m1" := ex_held ]} ex_leased). split_and!.
  - eexists. split; [reflexivity|]. left. do 2 eexists. split; [vm_compute; reflexivity|].
    eexists. split; [reflexivity|]. right. right. split; [done|]. eexists. split; [by left|].
    split; [done|vm_compute; reflexivity].
  - reflexivity.
  - eexists. split; [reflexivity|]. left. do 2 eexists. split; [vm_compute; reflexivity|].
    split; vm_compute; reflexivity.
Qed.

(** A worker that lost its job lease but still runs releases, when it ends, the
    mutex that the next attempt of the job reuses; the claim check of the rightful
    attempt then fails, although its run is the current one. *)
Lemma stale_worker_frees_successor :
  let job2 := set_mutex_id "m1" ex_leased in
  let renewed := set_lease (200 + secs DEFAULT_LEASE_TTL_SECONDS) ex_held in
  let d1 := ex_shell {[ "m1" := renewed ]} job2 in
  let d2 := ex_shell {[ "m1" := set_released 250 renewed ]} job2 in
  runs false alone (acquireOrReuseMutex ex_pl "job-1" job2 ex_env2) (ex_shell {[ "m1" := ex_held ]} job2)
    (Ok (Reused "m1")) d1 /\
  releasePrReviewMutexActivity (fun _ => true) "m1" 250 d1 = Ok (d2, tt) /\
  runs false alone (claimCheck ex_pl job2 false "m1" 300) d2 (Throw (TerminalCancelError "mutex-lost")) d2 /\
  current_run ex_pl d2 = Some (j_run_id job2).
Proof.
  cbv zeta. split_and!.
  - eexists. split; [reflexivity|]. left. do 2 eexists. split; [vm_compute; reflexivity|].
    eexists. split; [reflexivity|]. left. do 2 eexists. split; [vm_compute; reflexivity|].
    split; vm_compute; reflexivity.
  - vm_compute. reflexivity.
  - eexists. split; [reflexivity|]. left. do 2 eexists. split; [vm_compute; reflexivity|].
    split; vm_compute; reflexivity.
  - vm_compute. reflexivity.
Qed.
