(* ===== verification/JobShell.v ===== *)
(** [runner/review_job_shell.ts] with the gate of [runner/in_process_ports.ts]:
    one attempt of a review job around [Orchestrator.orchestrate].  It runs in the
    monad of [Degradation]: its own dispatches are the calls [c_shell], which no
    abort stops; the ports of the pipeline go through the gate, and the claim check
    is the one of [ShellMutex], answered at every dispatch by what the renewal of
    the mutex and the read of the current run say then. *)
From Stdlib Require Import QArith.
From stdpp Require Import base gmap sets list strings.
From Stdlib Require Import ZArith Lia.
From S2P Require Import Prelude JobTable RunLifecycle RunAllocator PrMutex ReviewJobs Retry ReviewRunner ShellMutex.
From S2P Require Import Findings FanOut Arbitration PathMatch PipelineHelpers Degradation Orchestrator OrchestratorProofs.
Local Open Scope nat_scope.

#[export] Instance PublicationOutcome_eq_dec : EqDecision PublicationOutcome.
Proof. solve_decision. Defined.

(** The fields of the payload that the body reads other than by passing them on;
    [jp_has_app] tells whether it carries a numeric installation id. *)
Record job_payload := JobPayload {
  jp_pr_id : string;
  jp_pr_title : string;
  jp_pr_description : string;
  jp_policy_revision : Z;
  jp_has_app : bool;
}.

Definition CHUNK_CONCURRENCY_DEFAULT : Z := 4.

(** [makeInProcessPorts] wires every optional port, and the shell both callbacks. *)
Definition in_process_wiring : wiring :=
  Wiring true true true true true true true true true true true.

(** * The claim check and the gate *)

(** [claimCheck], given whether the composed signal is aborted, what the renewal
    came to, and what the read of the current run came to. *)
Definition claim_answer (run_id : string) (aborted : bool) (renewed : result js_error bool)
    (current : result js_error (option string)) : result js_error unit :=
  if aborted then Throw (TerminalCancelError "aborted")
  else if negb (match renewed with Ok held => held | Throw _ => true end)
  then Throw (TerminalCancelError "mutex-lost")
  else match current with
       | Throw e => Throw e
       | Ok c => if bool_decide (c = Some run_id) then Ok tt
                 else Throw (TerminalCancelError "superseded")
       end.

Section Shell.
(** What the activities answer, and what the world is like at each dispatch: the
    signal of the runner, the renewals that the loop has made so far, the renewal
    and the read of a claim check made now. *)
Variable ports : oracle.
Variable runner_aborted : list event -> bool.
Variable renewals : list event -> list renewal.
Variable renewed : list event -> result js_error bool.
Variable current : list event -> result js_error (option string).
Variable p : job_payload.
Variable run_id : string.

(** The parameters of the pipeline, given the enrichment and the manifests. *)
Variable pickPrContext : option (list string) -> list string -> string -> result js_error unit.
Variable full_labels : option (list string) -> list string -> repo_config -> result js_error nat.
Variable asActivityError : js_error -> option (string * list dropped_details).
Variable schedule : nat -> list nat.
Variable static_first : bool.

(** [AbortSignal.any([signal, shellAbort.signal])]. *)
Definition composed (tr : list event) : bool := runner_aborted tr || renewLoop 0 (renewals tr).

(** [withAbortGate]. *)
Definition withAbortGate {A} (tr : list event) (answer : result js_error A) : result js_error A :=
  if composed tr then Throw (TerminalCancelError "aborted") else answer.

(** [onPlaceholderTeardown]: a stage that swallows what is not a cancellation. *)
Definition teardown (answer : result js_error unit) : result js_error unit :=
  match answer with
  | Ok _ => Ok tt
  | Throw e => if isCancellation e then Throw e else Ok tt
  end.

Definition makeInProcessPorts : oracle := fun tr c =>
  match c return result js_error (reply c) -> result js_error (reply c) with
  | c_claimCheck _ => fun _ => claim_answer run_id (composed tr) (renewed tr) (current tr)
  | c_placeholderTeardown => teardown
  | c_shell _ => fun answer => answer
  | _ => withAbortGate tr
  end (ports tr c).

(** A direct dispatch of the shell. *)
Definition lifecycle (s : shell_call) : M (shell_reply s) := port makeInProcessPorts (c_shell s).

(** A stage that only logs its failure. *)
Definition soft {A} (stage : string) (m : M A) : M (option A) := stageOutcome stage false false (skipping m).
Definition logged {A} (stage : string) (m : M A) : M (option A) := stageOutcome stage false false (plain m).

(** * The body *)

Definition enrich : M (option (list string)) :=
  if jp_has_app p then soft "enrich_pr_files" (lifecycle s_enrichPrFilesV2) else ret None.

Definition linkedStage : M unit :=
  when (jp_has_app p)
    (let! _ := soft "fetch_linked_issues" (lifecycle s_fetchLinkedIssues) in
     let! _ := soft "fetch_suggested_reviewers" (lifecycle s_fetchSuggestedReviewers) in
     ret tt).

Definition manifestStage (enrichment : option (list string)) : M (list string) :=
  match enrichment with
  | Some paths =>
      if negb (length paths =? 0) && jp_has_app p then
        let! fetched := logged "fetch_manifest_snapshots" (lifecycle (s_fetchManifestSnapshots paths)) in
        match fetched with
        | Some ((_ :: _) as l) =>
            let! parsed := logged "parse_manifest_dependencies" (lifecycle (s_parseManifestDependencies l)) in
            ret (default l parsed)
        | _ => ret []
        end
      else ret []
  | None => ret []
  end.

Definition input_of (ws : string) (enrichment : option (list string))
    (loaded : option (list finding * option string)) : review_input :=
  ReviewInput ws (default [] enrichment) (jp_pr_id p) (jp_pr_title p) (jp_pr_description p)
    (jp_policy_revision p) (default ([], None) loaded).1 (default ([], None) loaded).2
    CHUNK_CONCURRENCY_DEFAULT (bool_decide (is_Some enrichment)).

(** ** The bookkeeping of the deliveries *)

Definition math_max (l : list Z) : Z := match l with [] => 0 | i :: l' => foldr Z.max i l' end.

(** Reading an array at an index: nothing below zero or past its end. *)
Definition rfid_at (rfids : list string) (i : Z) : option string :=
  if (i <? 0)%Z then None else rfids !! Z.to_nat i.

(** Whether the indices of a post refer to the persisted findings. *)
Definition fits (rfids : list string) (indices : list Z) : bool :=
  negb (length rfids =? 0) && negb (length indices =? 0)
    && (math_max indices <? Z.of_nat (length rfids))%Z.

Definition kept_rfids (rfids : list string) (c : post_capture) : list (option string) :=
  if fits rfids (pc_kept c) then map (rfid_at rfids) (pc_kept c) else [].

Definition skipped_rfids (rfids : list string) (c : post_capture) : list (option string * string) :=
  if fits rfids (map dr_index (pc_dropped c))
  then map (fun d => (rfid_at rfids (dr_index d), dr_reason d)) (pc_dropped c) else [].

(** A setter whose failure is logged. *)
Definition setter (s : shell_call) : M unit := let! _ := Degradation.settle (lifecycle s) in ret tt.

Definition runLifecycleBookkeeping (res : pipeline_result) : M unit :=
  let! c := gets postedReview in
  let kept := kept_rfids (reviewFindingIds res) c in
  let skipped := skipped_rfids (reviewFindingIds res) c in
  match pc_pr_id c with
  | None => ret tt
  | Some pr =>
      let! _ := when (negb (length kept =? 0) && bool_decide (pc_outcome c = Some inline_posted)
                      && (length kept =? length (pc_comment_ids c)))
                  (setter (s_recordDeliveryFinalized kept (pc_comment_ids c) pr)) in
      let! _ := when (negb (length skipped =? 0))
                  (setter (s_recordDeliverySkipped (map fst skipped) (map snd skipped) pr)) in
      match resolveDegradedPayload (pc_outcome c) kept with
      | ((_ :: _) as flip, Some outcome) => setter (s_recordDeliveryDegraded flip outcome pr)
      | _ => ret tt
      end
  end.

(** ** The review, in its workspace *)

(** After the review was posted. *)
Definition conclude (res : pipeline_result) : M unit :=
  let! _ := runLifecycleBookkeeping res in
  let! c := gets postedReview in
  let! _ := lifecycle (s_analyzed (findingsCount res) (pc_outcome c) (pc_notes c) (degradationNotes res)) in
  lifecycle s_finalizeReviewRun.

Definition review (enrichment : option (list string)) (ws : string) : M unit :=
  let! _ := lifecycle s_analysisStarted in
  let! _ := linkedStage in
  let! _ := when (jp_has_app p && negb (bool_decide (is_Some enrichment))) (add "pr_file_enrichment_failed") in
  let! manifests := manifestStage enrichment in
  let! loaded := logged "load_parent_review_findings" (lifecycle s_loadParentReviewFindings) in
  let! res := orchestrate makeInProcessPorts in_process_wiring (input_of ws enrichment loaded)
                (pickPrContext enrichment manifests) (full_labels enrichment manifests)
                asActivityError schedule static_first in
  conclude res.

(** Up to the allocation of the workspace. *)
Definition prepare : M (option (list string) * string) :=
  let! _ := soft "post_review_placeholder" (lifecycle s_postReviewPlaceholder) in
  let! enrichment := enrich in
  let! ws := lifecycle s_allocateWorkspace in
  ret (enrichment, ws).

(** The [catch]: the errors of a review that lost to another one. *)
Definition SUPERSEDED_ERRORS : list string := ["StaleWriteError"; "StateDrift"; "CurrentRunMismatch"].

Definition wrap (e : js_error) : js_error :=
  match terminal_cancel e with
  | Some _ => e
  | None => if is_error e && existsb (String.eqb (e_name e)) SUPERSEDED_ERRORS
            then TerminalCancelError (e_name e) else e
  end.

Definition rethrow {A} (r : result js_error A) : result js_error A :=
  match r with Ok a => Ok a | Throw e => Throw (wrap e) end.

(** The [finally]. *)
Definition releases (m : string) (workspaceHandle : option string) : M unit :=
  let! _ := soft "cleanup" (lifecycle (s_releasePrReviewMutex m)) in
  match workspaceHandle with
  | Some ws => let! _ := soft "cleanup" (lifecycle (s_releaseWorkspace ws)) in ret tt
  | None => ret tt
  end.

(** The attempt while it holds the mutex [m]. *)
Definition attempt (m : string) : M unit :=
  let! start := Degradation.settle prepare in
  match start with
  | Throw e => let! _ := releases m None in throw (wrap e)
  | Ok (enrichment, ws) =>
      let! r := Degradation.settle (review enrichment ws) in
      let! _ := releases m (Some ws) in
      of_result (rethrow r)
  end.

(** [runReviewJob]: [verified] is the outcome of [verifyPayload], [mutex] that of
    [acquireOrReuseMutex]. *)
Definition runReviewJob {V} (verified : result js_error V) (mutex : result js_error mutex_outcome) : M unit :=
  let! _ := of_result verified in
  let! res := of_result mutex in
  match res with
  | Busy => throw (TerminalCancelError "mutex-busy")
  | LeaseLost => ret tt
  | Acquired m | Reused m => attempt m
  end.
End Shell.

(** * Lemmas: every dispatch is answered by the oracle *)

Definition err_of {A} (r : result js_error A) : option js_error :=
  match r with Ok _ => None | Throw e => Some e end.

(** [tr] extends [base] by dispatches that [orc] answered. *)
Definition answered (orc : oracle) (base tr : list event) : Prop :=
  exists l, tr = base ++ l /\
    forall l1 e l2, l = l1 ++ e :: l2 -> ev_error e = err_of (orc (base ++ l1) (ev_call e)).

Lemma answered_refl orc tr : answered orc tr tr.
Proof. exists []. rewrite app_nil_r. split; [done|]. intros l1 e l2 H. by destruct l1. Qed.

Lemma snoc_split {A} (l : list A) x l1 e l2 :
  l ++ [x] = l1 ++ e :: l2 ->
  (l2 = [] /\ l1 = l /\ e = x) \/ exists l3, l2 = l3 ++ [x] /\ l = l1 ++ e :: l3.
Proof.
  destruct l2 as [|y l2 _] using rev_ind; intros H.
  - apply app_inj_tail in H as [-> ->]. by left.
  - right. exists l2. rewrite app_comm_cons, (assoc_L (++)) in H. by apply app_inj_tail in H as [-> ->].
Qed.

Lemma answered_dispatch orc base w c :
  answered orc base (trace w) -> answered orc base (trace (port orc c w).2).
Proof.
  intros (l & E & Hl). unfold port, dispatch. simpl. eexists (l ++ [_]).
  split; [by rewrite E, (assoc_L (++))|]. intros l1 e l2 [(-> & -> & ->)|(l3 & -> & ->)]%snoc_split.
  - simpl. rewrite <- E. by destruct (orc _ c).
  - by eapply Hl.
Qed.

Lemma answered_kept orc base : kept orc (fun w => answered orc base (trace w)).
Proof. apply trace_kept. intros w c. apply answered_dispatch. Qed.

(** * Lemmas: the shell around a review *)

Definition is_release (e : event) : Prop :=
  exists m, ev_call e = c_shell (s_releasePrReviewMutex m) \/ ev_call e = c_shell (s_releaseWorkspace m).

(** The calls that go through the gate. *)
Definition gated (c : call) : bool :=
  match c with c_claimCheck _ | c_placeholderTeardown | c_shell _ => false | _ => true end.

Lemma fences_settle {A} (m : M A) : fences m -> fences (Degradation.settle m).
Proof. intros Hm w. destruct (Hm w) as (l & E & Hl). exists l. split; [|done]. unfold settle. by destruct (m w). Qed.

(** Close an [emits] goal about the shell's own dispatches. *)
Ltac shell_shape :=
  repeat (intros; lazymatch goal with
    | |- emits _ (lifecycle _ _ _ _ _ _ _) => unfold lifecycle
    | |- emits _ (soft _ _) => unfold soft
    | |- emits _ (logged _ _) => unfold logged
    | |- emits _ (setter _ _ _ _ _ _ _) => unfold setter
    | |- emits _ (match ?x with _ => _ end) => destruct x
    | |- _ => progress emits_shape
    end).

Section Attempt.
Variables (ports : oracle) (aborted : list event -> bool) (renewals : list event -> list renewal).
Variables (renewed : list event -> result js_error bool) (current : list event -> result js_error (option string)).
Variables (p : job_payload) (run_id : string).
Variables (pick : option (list string) -> list string -> string -> result js_error unit).
Variables (labels : option (list string) -> list string -> repo_config -> result js_error nat).
Variables (act : js_error -> option (string * list dropped_details)) (sched : nat -> list nat) (sf : bool).

Abbreviation orc := (makeInProcessPorts ports aborted renewals renewed current run_id).
Abbreviation lifecycle_ := (lifecycle ports aborted renewals renewed current run_id).
Abbreviation review_ := (review ports aborted renewals renewed current p run_id pick labels act sched sf).
Abbreviation prepare_ := (prepare ports aborted renewals renewed current p run_id).
Abbreviation releases_ := (releases ports aborted renewals renewed current run_id).
Abbreviation attempt_ := (attempt ports aborted renewals renewed current p run_id pick labels act sched sf).

(** ** The dispatches are answered *)

Section Answered.
Variable base : list event.
Abbreviation I := (fun w => answered orc base (trace w)).

Lemma answered_orchestrate inp pk lb :
  preserves I (orchestrate orc in_process_wiring inp pk lb act sched sf).
Proof. apply keeps_orchestrate, answered_kept. Qed.

Lemma answered_lifecycle s : preserves I (lifecycle_ s).
Proof. intros w. apply answered_dispatch. Qed.

Ltac answering :=
  repeat (intros; lazymatch goal with
    | |- preserves _ (lifecycle _ _ _ _ _ _ _) => apply answered_lifecycle
    | |- preserves _ (orchestrate _ _ _ _ _ _ _ _) => apply answered_orchestrate
    | |- preserves _ (soft _ ?m) => apply (trace_stage (answered _ base) _ _ _ m); [by right|]
    | |- preserves _ (logged _ ?m) => apply (trace_stage (answered _ base) _ _ _ m); [by left|]
    | |- preserves _ (bind _ _) => apply preserves_bind
    | |- preserves _ (Degradation.settle _) => apply preserves_settle
    | |- preserves _ (when _ _) => apply preserves_when
    | |- preserves _ (match ?x with _ => _ end) => destruct x
    | |- preserves _ _ => intros ? H; exact H
    end).

Lemma answered_attempt m : preserves I (attempt_ m).
Proof.
  unfold attempt, prepare, review, enrich, linkedStage, manifestStage, conclude, runLifecycleBookkeeping,
    setter, releases. answering.
Qed.
End Answered.

(** ** A post has its claim *)

Lemma fences_shell {A} (m : M A) : emits (fun e => ~ is_post e) m -> fences m.
Proof. apply fences_emits. Qed.

Lemma review_fences en ws : fences (review_ en ws).
Proof.
  unfold review, linkedStage, manifestStage.
  do 5 (apply fences_bind; [apply fences_emits; shell_shape; by intros (?&?&?&?&?)|intros ?]).
  apply fences_bind; [by apply run_fences|intros ?]. apply fences_emits.
  unfold conclude, runLifecycleBookkeeping. shell_shape; by intros (?&?&?&?&?).
Qed.

Lemma attempt_fences m : fences (attempt_ m).
Proof.
  unfold attempt. apply fences_bind; [|intros [[en ws]|e]].
  - apply fences_settle, fences_emits. unfold prepare, enrich. shell_shape; by intros (?&?&?&?&?).
  - apply fences_bind; [apply fences_settle, review_fences|intros r].
    apply fences_emits. unfold releases. shell_shape; by intros (?&?&?&?&?).
  - apply fences_emits. unfold releases. shell_shape; by intros (?&?&?&?&?).
Qed.

(** What a claim check that passed has seen. *)
Definition claim_held (tr : list event) : Prop :=
  composed aborted renewals tr = false /\ renewed tr <> Ok false /\ current tr = Ok (Some run_id).

Lemma claim_answer_held tr b : err_of (orc tr (c_claimCheck b)) = None -> claim_held tr.
Proof.
  unfold makeInProcessPorts, claim_answer, claim_held. destruct (composed _ _ _); [done|].
  destruct (renewed tr) as [[]|e]; simpl; try done;
    (destruct (current tr) as [c|e']; [|done]; case_bool_decide as Hc; [|done]; by subst).
Qed.

Lemma gate_closed tr c :
  gated c = true -> composed aborted renewals tr = true ->
  err_of (orc tr c) = Some (TerminalCancelError "aborted").
Proof. unfold makeInProcessPorts, withAbortGate. intros Hg Hc. by destruct c; rewrite ?Hc. Qed.

Lemma attempt_fails_closed m w :
  exists l, trace (attempt_ m w).2 = trace w ++ l /\
    forall l1 e l2, l = l1 ++ e :: l2 ->
      (gated (ev_call e) = true -> composed aborted renewals (trace w ++ l1) = true ->
         ev_error e = Some (TerminalCancelError "aborted")) /\
      (is_post e -> exists l0 b l3, l1 = l0 ++ Event (c_claimCheck b) None :: l3 /\
         length l3 <= 2 /\ claim_held (trace w ++ l0)).
Proof.
  destruct (answered_attempt (trace w) m w (answered_refl _ _)) as (l & E & Ha).
  destruct (attempt_fences m w) as (l' & E' & Hf). rewrite E in E'. apply app_inv_head in E' as <-.
  exists l. split; [done|]. intros l1 e l2 Hs. split.
  - intros Hg Hc. rewrite (Ha _ _ _ Hs). by apply gate_closed.
  - intros Hp. destruct (Hf _ _ _ Hs Hp) as (l0 & Hl1).
    assert (exists b l3, l1 = l0 ++ Event (c_claimCheck b) None :: l3 /\ length l3 <= 2) as (b & l3 & -> & Hl3).
    { destruct Hl1 as [-> |(a & rev & fs & ->)].
      - exists before_post, []. split; [done|simpl; lia].
      - exists before_advisory. eexists. split; [done|simpl; lia]. }
    exists l0, b, l3. split_and!; [done..|]. rewrite <- (assoc_L (++)) in Hs. simpl in Hs.
    specialize (Ha _ _ _ Hs). by apply (claim_answer_held _ b).
Qed.

(** ** What an attempt leaves *)

(** A dispatch of neither the allocation nor a release. *)
Definition inner (e : event) : Prop :=
  ~ is_release e /\ ev_call e <> c_shell s_allocateWorkspace.

Lemma inner_port c : gated c = true \/ (exists b, c = c_claimCheck b) \/ c = c_placeholderTeardown ->
  forall x, inner (Event c x).
Proof. intros H x. split; [intros (m & [E|E])|intros E]; simpl in E; subst; by destruct H as [?|[[? ?]|?]]. Qed.

Lemma inner_orchestrate inp pk lb :
  emits inner (orchestrate orc in_process_wiring inp pk lb act sched sf).
Proof.
  eapply staged_emits; [apply run_staged|]. intros [c x] k Hk _. apply inner_port.
  destruct c; simpl in *; eauto; set_solver.
Qed.

Ltac inner_event := split; [intros (? & [[=]|[=]])|discriminate].
Ltac inner_events := repeat (apply Forall_cons; split; [inner_event|]); apply Forall_nil_2.

Lemma delivers_pre {A B} P (m : M A) (k : A -> M B) :
  emits P m -> (forall a, delivers (k a)) -> delivers (bind m k).
Proof.
  intros Hm Hk w. destruct (Hm w) as (l & E & _). rewrite bind_run.
  destruct (m w) as [[a|e] w']; cbn [fst snd] in *; [|by exists l].
  destruct (Hk a w') as (l' & E' & Hl'). exists (l ++ l'). rewrite E', E, (assoc_L (++)).
  split; [done|]. intros (x & Hx & ?)%Hl'. exists x. rewrite elem_of_app. auto.
Qed.

(** A run that returned has concluded its review. *)
Definition concluded (l : list event) : Prop :=
  exists l0 n o pn dn, l = l0 ++ [Event (c_shell (s_analyzed n o pn dn)) None; Event (c_shell s_finalizeReviewRun) None]
    /\ delivered l0.

Lemma conclude_run res w :
  exists l, trace (conclude ports aborted renewals renewed current run_id res w).2 = trace w ++ l /\
    Forall inner l /\
    (is_ok (conclude ports aborted renewals renewed current run_id res w).1 = true ->
     exists l0 n o pn dn, l = l0 ++ [Event (c_shell (s_analyzed n o pn dn)) None;
       Event (c_shell s_finalizeReviewRun) None]).
Proof.
  unfold conclude. set (book := runLifecycleBookkeeping _ _ _ _ _ _ _).
  assert (Hb : emits inner book) by (unfold book, runLifecycleBookkeeping; shell_shape; inner_event).
  destruct (Hb w) as (l & E & Hl). rewrite bind_run. destruct (book w) as [[[]|e] w1]; cbn [fst snd] in *; [|by exists l].
  rewrite bind_run. cbn [gets]. set (c := postedReview _).
  set (an := s_analyzed _ _ _ _). rewrite bind_run. unfold lifecycle, port, dispatch.
  assert (Hin : forall x y, Forall inner (l ++ [Event (c_shell an) x; Event (c_shell s_finalizeReviewRun) y]))
    by (intros x y; apply Forall_app; split; [done|inner_events]).
  destruct (orc (trace w1) (c_shell an)) as [[]|e]; cbn [fst snd trace].
  - destruct (orc (trace w1 ++ _) (c_shell s_finalizeReviewRun)) as [[]|e];
      (eexists (l ++ [_; _]); split; [by rewrite E, <- !(assoc_L (++))|]; split; [apply Hin|]); [|done].
    intros _. exists l. unfold an. do 4 eexists. reflexivity.
  - eexists (l ++ [_]). split; [by rewrite E, <- (assoc_L (++))|]. split; [|done].
    apply Forall_app. split; [done|inner_events].
Qed.

(** A run whose dispatches are inner, and which concluded its review if it
    returned. *)
Definition concludes {A} (m : M A) : Prop :=
  forall w, exists l, trace (m w).2 = trace w ++ l /\ Forall inner l /\
    (is_ok (m w).1 = true -> concluded l).

Lemma concludes_pre {A B} (m : M A) (k : A -> M B) :
  emits inner m -> (forall a, concludes (k a)) -> concludes (bind m k).
Proof.
  intros Hm Hk w. destruct (Hm w) as (l & E & Hl). rewrite bind_run.
  destruct (m w) as [[a|e] w']; cbn [fst snd] in *; [|by exists l].
  destruct (Hk a w') as (l' & E' & Hl' & Hc). exists (l ++ l'). rewrite E', E, (assoc_L (++)).
  split_and!; [done|by apply Forall_app|]. intros (l0 & n & o & pn & dn & -> & x & Hx & Hp)%Hc.
  exists (l ++ l0), n, o, pn, dn. rewrite (assoc_L (++)). split; [done|]. exists x. rewrite elem_of_app. auto.
Qed.

Lemma review_concludes en ws : concludes (review_ en ws).
Proof.
  unfold review, linkedStage, manifestStage.
  do 5 (apply concludes_pre; [shell_shape; inner_event|intros ?]).
  intros w. rewrite bind_run.
  set (o := orchestrate _ _ _ _ _ _ _ _).
  destruct (inner_orchestrate (input_of p ws en a3) (pick en a2) (labels en a2) w) as (l & E & Hl).
  destruct (run_delivers orc in_process_wiring (input_of p ws en a3) (pick en a2) (labels en a2) act sched sf w)
    as (l' & E' & Hd). fold o in E, E', Hd. rewrite E in E'. apply app_inv_head in E' as <-.
  destruct (o w) as [[res|e] w1]; cbn [fst snd] in *; [|by exists l].
  destruct (conclude_run res w1) as (l2 & E2 & Hl2 & Hc). exists (l ++ l2).
  rewrite E2, E, (assoc_L (++)). split_and!; [done|by apply Forall_app|].
  intros (l0 & n & o' & pn & dn & ->)%Hc. exists (l ++ l0), n, o', pn, dn.
  rewrite (assoc_L (++)). split; [done|]. destruct (Hd eq_refl) as (x & Hx & ?). exists x. rewrite elem_of_app. auto.
Qed.

(** The allocation, and what comes before it. *)
Lemma prepare_run w :
  exists l, Forall inner l /\
    match (prepare_ w).1 with
    | Ok (_, ws) => trace (prepare_ w).2 = trace w ++ l ++ [Event (c_shell s_allocateWorkspace) None] /\
        ports (trace w ++ l) (c_shell s_allocateWorkspace) = Ok ws
    | Throw e => trace (prepare_ w).2 = trace w ++ l \/
        exists x, trace (prepare_ w).2 = trace w ++ l ++ [Event (c_shell s_allocateWorkspace) (Some x)]
    end.
Proof.
  unfold prepare. set (holder := soft "post_review_placeholder" _).
  assert (Hh : emits inner holder) by (unfold holder; shell_shape; inner_event).
  destruct (Hh w) as (l & E & Hl). rewrite bind_run.
  destruct (holder w) as [[?|e] w1]; cbn [fst snd] in *; [|exists l; auto].
  set (en := enrich _ _ _ _ _ _ _).
  assert (He : emits inner en) by (unfold en, enrich; shell_shape; inner_event).
  destruct (He w1) as (l1 & E1 & Hl1). rewrite bind_run.
  assert (Hl01 : Forall inner (l ++ l1)) by (by apply Forall_app).
  assert (E01 : trace (en w1).2 = trace w ++ l ++ l1) by (by rewrite E1, E, (assoc_L (++))).
  destruct (en w1) as [[en'|e] w2]; cbn [fst snd] in *; [|exists (l ++ l1); auto].
  exists (l ++ l1). split; [done|]. rewrite bind_run. unfold lifecycle, port, dispatch. rewrite E01.
  change (orc (trace w ++ l ++ l1) (c_shell s_allocateWorkspace))
    with (ports (trace w ++ l ++ l1) (c_shell s_allocateWorkspace)).
  destruct (ports _ _) as [ws|e] eqn:Ep; cbn [fst snd trace ret].
  - split; [by rewrite <- !(assoc_L (++))|done].
  - right. exists e. by rewrite <- !(assoc_L (++)).
Qed.

(** The releases are the last dispatches; that of the workspace is missing only
    when there is none, or when the release of the mutex is cancelled. *)
Definition release_events (m : string) (h : option string) (x y : option js_error) : list event :=
  Event (c_shell (s_releasePrReviewMutex m)) x ::
  match h with
  | Some ws => match x with
               | Some e => if isCancellation e then [] else [Event (c_shell (s_releaseWorkspace ws)) y]
               | None => [Event (c_shell (s_releaseWorkspace ws)) y]
               end
  | None => []
  end.

Lemma soft_lifecycle stage s w :
  existsb (String.eqb stage) STAGE_NAMES = true ->
  exists x, trace (soft stage (lifecycle_ s) w).2 = trace w ++ [Event (c_shell s) x] /\
    match x with
    | Some e => (soft stage (lifecycle_ s) w).1 = if isCancellation e then Throw e else Ok None
    | None => is_ok (soft stage (lifecycle_ s) w).1 = true
    end.
Proof.
  intros Hs. pose proof (stageOutcome_trace stage false false (lifecycle_ s) (skipping (lifecycle_ s)) w
    (or_intror eq_refl) Hs) as Ht. unfold soft. rewrite Ht. clear Ht.
  unfold stageOutcome. rewrite Hs. cbn [negb]. unfold skipping, lifecycle, port, dispatch.
  destruct (orc (trace w) (c_shell s)) as [a|e]; cbn [fst snd trace].
  - exists None. split; [done|]. done.
  - exists (Some e). split; [done|]. by destruct (isCancellation e).
Qed.

Lemma releases_run m h w :
  exists x y, trace (releases_ m h w).2 = trace w ++ release_events m h x y /\
    match (releases_ m h w).1 with
    | Ok _ => True
    | Throw e => isCancellation e = true
    end.
Proof.
  unfold releases. rewrite bind_run.
  destruct (soft_lifecycle "cleanup" (s_releasePrReviewMutex m) w eq_refl) as (x & E & Hr).
  destruct (soft _ _ w) as [[a|e] w1]; cbn [fst snd] in *; cycle 1.
  { exists x, None. destruct x as [e'|]; [|done]. destruct (isCancellation e') eqn:Ec; [|done].
    injection Hr as ->. unfold release_events. rewrite Ec. by destruct h. }
  assert (Hx : match x with Some e => isCancellation e = false | None => True end).
  { destruct x as [e|]; [|done]. by destruct (isCancellation e). }
  destruct h as [ws|]; cycle 1.
  { exists x, None. unfold release_events. done. }
  rewrite bind_run.
  destruct (soft_lifecycle "cleanup" (s_releaseWorkspace ws) w1 eq_refl) as (y & E1 & Hr1).
  exists x, y. assert (release_events m (Some ws) x y =
    [Event (c_shell (s_releasePrReviewMutex m)) x; Event (c_shell (s_releaseWorkspace ws)) y]) as ->.
  { unfold release_events. destruct x as [e|]; [by rewrite Hx|done]. }
  destruct (soft _ _ w1) as [[?|e] w2]; cbn [fst snd ret] in *; rewrite E1, E, <- (assoc_L (++)); (split; [done|]);
    [done|]. destruct y as [e'|]; [|done]. destruct (isCancellation e') eqn:Ec; [|done]. by injection Hr1 as ->.
Qed.

Definition allocated : event := Event (c_shell s_allocateWorkspace) None.

(** The workspace that an attempt got, by its dispatches. *)
Definition got (base l : list event) (h : option string) : Prop :=
  match h with
  | Some ws => exists l1 l2, l = l1 ++ allocated :: l2 /\
      ports (base ++ l1) (c_shell s_allocateWorkspace) = Ok ws
  | None => allocated ∉ l
  end.

Lemma inner_unreleased l : Forall inner l -> Forall (fun e => ~ is_release e) l.
Proof. intros H. eapply Forall_impl; [exact H|]. by intros e [? _]. Qed.

Lemma inner_unallocated l : Forall inner l -> allocated ∉ l.
Proof. intros H Hin. rewrite Forall_forall in H. by destruct (H _ Hin). Qed.

Lemma unreleased_alloc l x l' :
  Forall inner l -> Forall inner l' ->
  Forall (fun e => ~ is_release e) (l ++ Event (c_shell s_allocateWorkspace) x :: l').
Proof.
  intros H H'. apply Forall_app. split; [by apply inner_unreleased|].
  apply Forall_cons. split; [by intros (? & [[=]|[=]])|by apply inner_unreleased].
Qed.

Lemma bind_settle {A B} (m : M A) (k : result js_error A -> M B) w :
  bind (Degradation.settle m) k w = k (m w).1 (m w).2.
Proof. unfold bind, Degradation.settle. by destruct (m w). Qed.

Lemma attempt_ends m w :
  exists l h x y, trace (attempt_ m w).2 = trace w ++ l ++ release_events m h x y /\
    Forall (fun e => ~ is_release e) l /\ got (trace w) l h /\
    (is_ok (attempt_ m w).1 = true -> concluded l).
Proof.
  unfold attempt. rewrite bind_settle.
  destruct (prepare_run w) as (l & Hl & Hp). destruct (prepare_ w) as [[[en ws]|e] w1]; cbn [fst snd] in *.
  - destruct Hp as [E1 Hws]. rewrite bind_settle.
    destruct (review_concludes en ws w1) as (l2 & E2 & Hl2 & Hc).
    destruct (review_ en ws w1) as [r w2]. cbn [fst snd] in *.
    destruct (releases_run m (Some ws) w2) as (x & y & E3 & Hr). rewrite bind_run.
    exists (l ++ allocated :: l2), (Some ws), x, y.
    assert (E : trace w2 = trace w ++ l ++ allocated :: l2)
      by (by rewrite E2, E1, <- !(assoc_L (++))).
    destruct (releases_ m (Some ws) w2) as [[u|e] w3]; cbn [fst snd of_result] in *;
      rewrite E3, E, <- (assoc_L (++) (trace w));
      (split_and!; [done|by apply unreleased_alloc|by exists l, l2|]); [|done].
    destruct r as [a|e]; [|done]. intros _. destruct (Hc eq_refl) as (l0 & n & o & pn & dn & -> & z & Hz & ?).
    exists (l ++ allocated :: l0), n, o, pn, dn. split; [by rewrite <- (assoc_L (++))|].
    exists z. split; [|done]. apply elem_of_app. right. by right.
  - destruct (releases_run m None w1) as (x & y & E3 & Hr). rewrite bind_run.
    assert (exists l', trace w1 = trace w ++ l' /\ Forall (fun e => ~ is_release e) l' /\ allocated ∉ l')
      as (l' & E & Hl' & Hn).
    { destruct Hp as [E|[z E]]; eexists; (split; [exact E|]).
      - split; [by apply inner_unreleased|by apply inner_unallocated].
      - split; [by apply unreleased_alloc|]. rewrite elem_of_app, list_elem_of_singleton.
        intros [H|[=]]. by eapply inner_unallocated. }
    exists l', None, x, y. destruct (releases_ m None w1) as [[u|e'] w3]; cbn [fst snd throw] in *;
      rewrite E3, E, <- (assoc_L (++) (trace w)); split_and!; done.
Qed.

(** ** A lost claim *)

(** The activities that release do not fail with a cancellation. *)
Definition releases_uncancelled : Prop :=
  (forall tr i e, ports tr (c_cleanup i) = Throw e -> isCancellation e = false) /\
  (forall tr m e, ports tr (c_shell (s_releasePrReviewMutex m)) = Throw e -> isCancellation e = false) /\
  (forall tr ws e, ports tr (c_shell (s_releaseWorkspace ws)) = Throw e -> isCancellation e = false).

Definition is_claim (e : event) : Prop := exists b, ev_call e = c_claimCheck b.

Lemma soft_returns stage s w :
  existsb (String.eqb stage) STAGE_NAMES = true ->
  (forall e, ports (trace w) (c_shell s) = Throw e -> isCancellation e = false) ->
  is_ok (soft stage (lifecycle_ s) w).1 = true.
Proof.
  intros Hs Hc. unfold soft. rewrite (stageOutcome_returns _ _ (lifecycle_ s)); [|by right|done|].
  - by destruct (lifecycle_ s w).1.
  - unfold lifecycle, port, dispatch. change (orc (trace w) (c_shell s)) with (ports (trace w) (c_shell s)).
    simpl. destruct (ports _ _) as [a|e]; [done|by apply Hc].
Qed.

Lemma releases_return m h w : releases_uncancelled -> is_ok (releases_ m h w).1 = true.
Proof.
  intros (_ & Hm & Hw). unfold releases. rewrite bind_run.
  pose proof (soft_returns "cleanup" (s_releasePrReviewMutex m) w eq_refl (Hm _ _)) as H1.
  destruct (soft _ _ w) as [[a|e] w1]; [|done]. destruct h as [ws|]; [|done]. rewrite bind_run.
  pose proof (soft_returns "cleanup" (s_releaseWorkspace ws) w1 eq_refl (Hw _ _)) as H2.
  by destruct (soft _ _ w1) as [[?|e] w2].
Qed.

(** The error of the review whose claim check answered [x]. *)
Definition loses {A} (m : M A) : Prop :=
  forall w, exists l, trace (m w).2 = trace w ++ l /\
    forall b x, Event (c_claimCheck b) (Some x) ∈ l ->
      (m w).1 = Throw x \/
      exists i e, Event (c_cleanup i) (Some e) ∈ l /\ isCancellation e = true /\ (m w).1 = Throw e.

Lemma loses_pre {A B} (m : M A) (k : A -> M B) :
  emits (fun e => ~ is_claim e) m -> (forall a, loses (k a)) -> loses (bind m k).
Proof.
  intros Hm Hk w. destruct (Hm w) as (l & E & Hl). rewrite bind_run.
  assert (Hn : forall b x, Event (c_claimCheck b) (Some x) ∉ l).
  { intros b x Hin. rewrite Forall_forall in Hl. apply (Hl _ Hin). by exists b. }
  destruct (m w) as [[a|e] w']; cbn [fst snd] in *.
  - destruct (Hk a w') as (l' & E' & Hl'). exists (l ++ l'). rewrite E', E, (assoc_L (++)).
    split; [done|]. intros b x [Hin|Hin]%elem_of_app; [by apply Hn in Hin|].
    destruct (Hl' b x Hin) as [?|(i & e & He & ?)]; [by left|right]. exists i, e. rewrite elem_of_app. tauto.
  - exists l. split; [done|]. intros b x Hin. by apply Hn in Hin.
Qed.

Lemma loses_after {A B} (m : M A) (k : A -> M B) :
  loses m -> (forall a, emits (fun e => ~ is_claim e) (k a)) -> loses (bind m k).
Proof.
  intros Hm Hk w. destruct (Hm w) as (l & E & Hl). rewrite bind_run.
  destruct (m w) as [[a|e] w']; cbn [fst snd] in *.
  - destruct (Hk a w') as (l' & E' & Hl'). exists (l ++ l'). rewrite E', E, (assoc_L (++)).
    split; [done|]. intros b x [Hin|Hin]%elem_of_app.
    + by destruct (Hl b x Hin) as [?|(i & e & _ & _ & ?)].
    + rewrite Forall_forall in Hl'. exfalso. apply (Hl' _ Hin). by exists b.
  - exists l. split; [done|]. intros b x Hin. destruct (Hl b x Hin) as [H|(i & e' & H1 & H2 & H3)].
    + left. congruence.
    + right. exists i, e'. split_and!; [done..|congruence].
Qed.

Ltac unclaimed := shell_shape; intros [? [=]].

Lemma review_loses en ws : loses (review_ en ws).
Proof.
  unfold review, linkedStage, manifestStage. do 5 (apply loses_pre; [unclaimed|intros ?]).
  apply loses_after; [intros w; apply run_lost|intros ?].
  unfold conclude, runLifecycleBookkeeping. unclaimed.
Qed.

(** An attempt that lost its claim is cancelled for good. *)
Lemma attempt_lost m w l b reason :
  releases_uncancelled ->
  trace (attempt_ m w).2 = trace w ++ l ->
  Event (c_claimCheck b) (Some (TerminalCancelError reason)) ∈ l ->
  exists reason', (attempt_ m w).1 = Throw (TerminalCancelError reason').
Proof.
  intros Hrel E Hin.
  destruct (answered_attempt (trace w) m w (answered_refl _ _)) as (l' & E' & Ha).
  rewrite E in E'. apply app_inv_head in E' as <-. revert E. unfold attempt. rewrite !bind_settle.
  assert (Hp : emits (fun e => ~ is_claim e) prepare_) by (unfold prepare, enrich; unclaimed).
  destruct (Hp w) as (l0 & E0 & H0). destruct (prepare_ w) as [[[en ws]|e] w1]; cbn [fst snd] in *.
  - rewrite !bind_settle. destruct (review_loses en ws w1) as (l1 & E1 & H1).
    destruct (review_ en ws w1) as [r w2]; cbn [fst snd] in *.
    destruct (releases_run m (Some ws) w2) as (x & y & E2 & _).
    pose proof (releases_return m (Some ws) w2 Hrel) as Hok. rewrite !bind_run.
    destruct (releases_ m (Some ws) w2) as [[u|e] w3]; [|done]. cbn [fst snd of_result] in *.
    rewrite E2, E1, E0, <- !(assoc_L (++)). intros E. apply app_inv_head in E as <-.
    rewrite !elem_of_app in Hin. destruct Hin as [Hin|[Hin|Hin]].
    + rewrite Forall_forall in H0. exfalso. apply (H0 _ Hin). by exists b.
    + destruct (H1 _ _ Hin) as [->|(i & e & He & Hc & ->)]; [by exists reason|].
      exists "aborted"%string.
      apply list_elem_of_split in He as (la & lb & ->). clear Hin H1.
      specialize (Ha (l0 ++ la) (Event (c_cleanup i) (Some e)) (lb ++ release_events m (Some ws) x y)).
      rewrite <- !(assoc_L (++)) in Ha. specialize (Ha eq_refl). simpl in Ha.
      unfold makeInProcessPorts, withAbortGate in Ha. destruct (composed _ _ _); [by injection Ha as ->|].
      destruct (ports _ _) as [?|e'] eqn:Ep; [done|]. injection Ha as ->. apply Hrel in Ep. congruence.
    + exfalso. unfold release_events in Hin. destruct x as [e|]; [destruct (isCancellation e)|]; set_solver.
  - destruct (releases_run m None w1) as (x & y & E2 & _).
    pose proof (releases_return m None w1 Hrel) as Hok. rewrite !bind_run.
    destruct (releases_ m None w1) as [[u|e'] w3]; [|done]. cbn [fst snd throw] in *.
    rewrite E2, E0, <- !(assoc_L (++)). intros E. apply app_inv_head in E as <-.
    rewrite !elem_of_app in Hin. destruct Hin as [Hin|Hin].
    + rewrite Forall_forall in H0. exfalso. apply (H0 _ Hin). by exists b.
    + exfalso. unfold release_events in Hin. set_solver.
Qed.
End Attempt.

(** A run that is not terminal can be cancelled. *)
Lemma cancel_run_checks now q :
  run_checks q = true -> stamped (lifecycle_state q) = false -> superseded_by_run_id q = None ->
  run_checks (cancel_run RUN_CANCEL_REASON now q) = true.
Proof.
  intros (Hc & Hd & Hf & _)%run_checks_true Hs Hn. apply run_checks_true. simpl. rewrite Hn.
  assert (Hd' : is_Some (completed_at q) -> False) by (intros H; apply Hd in H; by rewrite H in Hs).
  assert (Hf' : is_Some (failed_at q) -> False) by (intros H; apply Hf in H; by rewrite H in Hs).
  split_and!; [by split; eauto|by split; [|tauto]|by split; [|tauto]| |].
  - intros c [= <-]. split; [|discriminate]. apply existsb_eqb_elem. reflexivity.
  - by intros [? ?].
Qed.

(** The settlement of a handler's [TerminalCancelError], while the lease holds. *)
Lemma settle_cancelled id owner token job clockMs now rnd tmsg reason t runs r q :
  t !! id = Some r -> fence owner token (rv_core r) = true ->
  runs !! j_run_id job = Some q -> run_checks q = true -> stamped (lifecycle_state q) = false ->
  superseded_by_run_id q = None ->
  exists t' runs' r' q',
    ReviewRunner.settle id owner token job clockMs now rnd tmsg (HandlerThrew (TerminalCancelError reason))
      (t, runs) = Ok ((t', runs'), OCancelled) /\
    t' !! id = Some r' /\ state (rv_core r') = cancelled /\
    runs' !! j_run_id job = Some q' /\ lifecycle_state q' = CANCELLED.
Proof.
  intros Hr Hf Hq Hc Hs Hn. unfold ReviewRunner.settle, settle_thrown. simpl.
  pose proof (terminalSettle_cases id owner token (j_run_id job) SettleCancelled RunCancelled reason
    (Some RUN_CANCEL_REASON) now t runs) as H.
  assert (Hu : exists runs', update_run (settle_run_row RunCancelled (Some RUN_CANCEL_REASON) now)
    (j_run_id job) runs = Some runs').
  { unfold update_run. rewrite Hq. simpl. rewrite cancel_run_checks by done. eauto. }
  destruct Hu as [runs' Hu]. destruct (rv_terminalSettle _ _ _ _ _ _ _ _ _ _ _) as [[[t' runs1] [|]]|e].
  - destruct H as [(r' & Hr' & _ & ->) Hu']. rewrite Hr in Hr'. injection Hr' as <-.
    destruct (settle_run_row_effect _ _ _ _ _ _ _ Hu' Hq) as (q' & Hq' & Hl).
    do 4 eexists. split; [reflexivity|]. rewrite lookup_insert_eq. split_and!; [done|done|exact Hq'|exact Hl].
  - destruct H as (_ & _ & H). by rewrite (H r Hr) in Hf.
  - destruct H as [_ H]. congruence.
Qed.

(** * Properties *)

(** What the runner sees of a handler that was not timed out. *)
Definition handler_of (r : result js_error unit) : handler_result :=
  match r with Ok _ => HandlerDone | Throw e => HandlerThrew e end.

(** The mutex under which an attempt runs at all. *)
Definition held_mutex {V} (verified : result js_error V) (mutex : result js_error mutex_outcome) : option string :=
  match verified, mutex with
  | Ok _, Ok (Acquired m) | Ok _, Ok (Reused m) => Some m
  | _, _ => None
  end.

Section Properties.
Variables (ports : oracle) (aborted : list event -> bool) (renewals : list event -> list renewal).
Variables (renewed : list event -> result js_error bool) (current : list event -> result js_error (option string)).
Variables (p : job_payload) (run_id : string).
Variables (pick : option (list string) -> list string -> string -> result js_error unit).
Variables (labels : option (list string) -> list string -> repo_config -> result js_error nat).
Variables (act : js_error -> option (string * list dropped_details)) (sched : nat -> list nat) (sf : bool).
Context {V : Type} (verified : result js_error V) (mutex : result js_error mutex_outcome).

Abbreviation job := (runReviewJob ports aborted renewals renewed current p run_id pick labels act sched sf
  verified mutex).

Lemma job_held m w :
  held_mutex verified mutex = Some m ->
  job w = attempt ports aborted renewals renewed current p run_id pick labels act sched sf m w.
Proof.
  unfold held_mutex, runReviewJob, of_result, bind. destruct verified as [v|e]; [|done].
  by destruct mutex as [[m'|m'| |]|e']; intros [= ->].
Qed.

Lemma job_unheld w : held_mutex verified mutex = None -> (job w).2 = w.
Proof.
  unfold held_mutex, runReviewJob, of_result, bind. destruct verified as [v|e]; [|done].
  by destruct mutex as [[m'|m'| |]|e'].
Qed.

(** C8: an attempt of a review job fails closed.  Whatever the activities answer,
    whenever the runner aborts and whatever the renewals come to: once the composed
    signal is aborted no port of the pipeline is reached any more, the gate answers
    each with a cancellation; and a post is dispatched at most three dispatches
    after a claim check which found the signal not aborted, the mutex not lost, and
    the review pointing at the very run of the job.  An attempt that does not get
    the mutex dispatches nothing. *)
Theorem runReviewJob_fails_closed w :
  exists l, trace (job w).2 = trace w ++ l /\
    (held_mutex verified mutex = None -> l = []) /\
    forall l1 e l2, l = l1 ++ e :: l2 ->
      (gated (ev_call e) = true -> composed aborted renewals (trace w ++ l1) = true ->
         ev_error e = Some (TerminalCancelError "aborted")) /\
      (is_post e -> exists l0 b l3, l1 = l0 ++ Event (c_claimCheck b) None :: l3 /\
         length l3 <= 2 /\
         composed aborted renewals (trace w ++ l0) = false /\ renewed (trace w ++ l0) <> Ok false /\
         current (trace w ++ l0) = Ok (Some run_id)).
Proof.
  destruct (held_mutex verified mutex) as [m|] eqn:E.
  - rewrite (job_held _ _ E). destruct (attempt_fails_closed ports aborted renewals renewed current p run_id
      pick labels act sched sf m w) as (l & El & H). by exists l.
  - exists []. rewrite job_unheld, app_nil_r by done. split_and!; [done..|]. by intros [|? ?].
Qed.


End Properties.

(** * Witnesses *)

Definition ex_payload : job_payload := JobPayload "pr1" "title" "" 1 true.

(** Every activity answers; the third claim check finds the run superseded. *)
Definition ex_current (n : nat) (tr : list event) : result js_error (option string) :=
  Ok (Some (if length tr <? n then ex_run_id else "newer"%string)).

Definition ex_job_run (n : nat) : result js_error unit * world :=
  runReviewJob (ex_oracle (fun _ => false)) (fun _ => false) (fun _ => []) (fun _ => Ok true) (ex_current n)
    ex_payload ex_run_id (fun _ _ _ => Ok tt) (fun _ _ _ => Ok 1) (fun _ => None) (seq 0) false
    (Ok tt) (Ok (Acquired "m1")) OrchestratorProofs.ex_world.


Definition ex_lost : list event := Eval vm_compute in trace (ex_job_run 20).2.

