(* ===== verification/Programs.v ===== *)
(** Programs of awaited effects: transactions on the database, and calls to what
    lies outside.  Between two effects others may act; a transaction may be lost
    to a fault of the connection, before or after its commit; the process may be
    killed at any point.  [runs] says what a program can do, [wpc] is the weakest
    precondition of a postcondition and of a condition that every point of the run
    satisfies, which is what a killed process leaves behind. *)
From stdpp Require Import base list.
From S2P Require Import Prelude.

(** What a program is made of. *)
Record sig := Sig {
  s_db : Type;
  s_call : Type;
  s_reply : s_call -> Type;
  s_error : Type;
}.

Inductive prog (S : sig) (A : Type) : Type :=
| Return (a : A)
| Raise (e : s_error S)
| Tx {X : Type} (f : s_db S -> result (s_error S) (s_db S * X)) (k : result (s_error S) X -> prog S A)
| Call (c : s_call S) (k : result (s_error S) (s_reply S c) -> prog S A).
Arguments Return {S A} _.
Arguments Raise {S A} _.
Arguments Tx {S A X} _ _.
Arguments Call {S A} _ _.

(** [try], whatever the outcome. *)
Fixpoint attempt {S A B} (q : prog S A) (h : result (s_error S) A -> prog S B) : prog S B :=
  match q with
  | Return a => h (Ok a)
  | Raise e => h (Throw e)
  | Tx f k => Tx f (fun r => attempt (k r) h)
  | Call c k => Call c (fun r => attempt (k r) h)
  end.

Definition pass {S A B} (h : A -> prog S B) (r : result (s_error S) A) : prog S B :=
  match r with Ok a => h a | Throw e => Raise e end.

Definition bind {S A B} (q : prog S A) (h : A -> prog S B) : prog S B := attempt q (pass h).

Definition done {S A} (r : result (s_error S) A) : prog S A :=
  match r with Ok a => Return a | Throw e => Raise e end.

(** One transaction, one call; what they throw, the caller throws. *)
Definition tx {S X} (f : s_db S -> result (s_error S) (s_db S * X)) : prog S X := Tx f done.
Definition call {S} (c : s_call S) : prog S (s_reply S c) := Call c done.

Declare Scope prog_scope.
Delimit Scope prog_scope with prog.
Notation "'await' x ':=' m 'in' k" := (bind m (fun x => k))
  (at level 10, x name, m at level 100, k at level 200) : prog_scope.
Notation "'await' ' p ':=' m 'in' k" := (bind m (fun x => match x with p => k end))
  (at level 10, p strict pattern, m at level 100, k at level 200) : prog_scope.
Notation "'sure' b 'else' e 'in' k" := (if b then k else Raise e)
  (at level 10, b at level 100, e at level 100, k at level 200) : prog_scope.

(** * Runs *)

Section Runs.
Context {S : sig} {G : Type}.
Let D := s_db S.
Let E := s_error S.

(** How the outside answers, what others do between two effects, and what a lost
    connection throws. *)
Context (answers : forall c, G -> G -> result E (s_reply S c) -> Prop).
Context (R : D * G -> D * G -> Prop).
Context (fault : E).

(** The outcome [None]: killed. *)
Fixpoint runs {A} (q : prog S A) (s : D * G) (out : option (result E A)) (s' : D * G) : Prop :=
  (out = None /\ s' = s) \/
  match q with
  | Return a => out = Some (Ok a) /\ s' = s
  | Raise e => out = Some (Throw e) /\ s' = s
  | Tx f k =>
      exists s1, R s s1 /\
        ((exists d2 x, f s1.1 = Ok (d2, x) /\
            (runs (k (Ok x)) (d2, s1.2) out s' \/ runs (k (Throw fault)) (d2, s1.2) out s')) \/
         (exists e, f s1.1 = Throw e /\ runs (k (Throw e)) s1 out s') \/
         runs (k (Throw fault)) s1 out s')
  | Call c k =>
      exists s1 g' r, R s s1 /\ answers c s1.2 g' r /\ runs (k r) (s1.1, g') out s'
  end.

Fixpoint wpc {A} (I : D * G -> Prop) (q : prog S A) (Q : result E A -> D * G -> Prop) (s : D * G) : Prop :=
  I s /\
  match q with
  | Return a => Q (Ok a) s
  | Raise e => Q (Throw e) s
  | Tx f k =>
      forall s1, R s s1 ->
        (forall d2 x, f s1.1 = Ok (d2, x) ->
           wpc I (k (Ok x)) Q (d2, s1.2) /\ wpc I (k (Throw fault)) Q (d2, s1.2)) /\
        (forall e, f s1.1 = Throw e -> wpc I (k (Throw e)) Q s1) /\
        wpc I (k (Throw fault)) Q s1
  | Call c k =>
      forall s1 g' r, R s s1 -> answers c s1.2 g' r -> wpc I (k r) Q (s1.1, g')
  end.

Lemma wpc_here {A} I (q : prog S A) Q s : wpc I q Q s -> I s.
Proof. destruct q; by intros [? _]. Qed.

Lemma wpc_adequate {A} I (q : prog S A) Q s out s' :
  wpc I q Q s -> runs q s out s' -> I s' /\ forall r, out = Some r -> Q r s'.
Proof.
  revert s. induction q as [a|e|X f k IH|c k IH]; intros s Hw Hr; pose proof (wpc_here _ _ _ _ Hw) as HI;
    destruct Hw as [_ Hw]; (destruct Hr as [[-> ->]|Hr]; [by split|]).
  - destruct Hr as [-> ->]. split; [done|]. by intros r [= <-].
  - destruct Hr as [-> ->]. split; [done|]. by intros r [= <-].
  - destruct Hr as (s1 & HR & Hr). destruct (Hw s1 HR) as (H1 & H2 & H3).
    destruct Hr as [(d2 & x & Hf & [Hr|Hr])|[(e & Hf & Hr)|Hr]].
    + destruct (H1 _ _ Hf) as [Hw1 _]. exact (IH _ _ Hw1 Hr).
    + destruct (H1 _ _ Hf) as [_ Hw1]. exact (IH _ _ Hw1 Hr).
    + exact (IH _ _ (H2 _ Hf) Hr).
    + exact (IH _ _ H3 Hr).
  - destruct Hr as (s1 & g' & r & HR & Ha & Hr). exact (IH _ _ (Hw s1 g' r HR Ha) Hr).
Qed.

Lemma wpc_mono {A} (I J : D * G -> Prop) (q : prog S A) (P Q : result E A -> D * G -> Prop) s :
  (forall s', I s' -> J s') -> (forall r s', I s' -> P r s' -> Q r s') -> wpc I q P s -> wpc J q Q s.
Proof.
  intros HIJ HPQ. revert s. induction q as [a|e|X f k IH|c k IH]; intros s [HI Hw]; (split; [auto|]); simpl.
  - auto.
  - auto.
  - intros s1 HR. destruct (Hw s1 HR) as (H1 & H2 & H3). split_and!.
    + intros d2 x Hf. destruct (H1 d2 x Hf). split; by apply IH.
    + intros e Hf. apply IH. by apply H2.
    + by apply IH.
  - intros s1 g' r HR Ha. apply IH. by apply Hw.
Qed.

Lemma wpc_attempt {A B} I (q : prog S A) (h : result E A -> prog S B) Q s :
  wpc I q (fun r s' => wpc I (h r) Q s') s -> wpc I (attempt q h) Q s.
Proof.
  revert s. induction q as [a|e|X f k IH|c k IH]; intros s [HI Hw]; simpl; try done; (split; [done|]).
  - intros s1 HR. destruct (Hw s1 HR) as (H1 & H2 & H3). split_and!.
    + intros d2 x Hf. destruct (H1 d2 x Hf). split; by apply IH.
    + intros e Hf. apply IH. by apply H2.
    + by apply IH.
  - intros s1 g' r HR Ha. apply IH. by apply Hw.
Qed.

Lemma wpc_bind {A B} I (q : prog S A) (h : A -> prog S B) Q s :
  wpc I q (fun r s' => match r with Ok a => wpc I (h a) Q s' | Throw e => Q (Throw e) s' end) s ->
  wpc I (bind q h) Q s.
Proof. intros H. apply wpc_attempt. eapply wpc_mono, H; [done|]. intros [a|e] s' HI HQ; [done|]. by split. Qed.

Lemma wpc_return {A} I (a : A) Q s : I s -> Q (Ok a) s -> wpc I (Return a) Q s.
Proof. by split. Qed.

Lemma wpc_raise {A} I e (Q : result E A -> D * G -> Prop) s : I s -> Q (Throw e) s -> wpc I (Raise e) Q s.
Proof. by split. Qed.

(** A transaction, given where it finds the world. *)
Lemma wpc_tx {X} I (f : D -> result E (D * X)) (Q : result E X -> D * G -> Prop) s :
  I s ->
  (forall s1, R s s1 ->
     I s1 /\ Q (Throw fault) s1 /\ (forall e, f s1.1 = Throw e -> Q (Throw e) s1) /\
     forall d2 x, f s1.1 = Ok (d2, x) -> I (d2, s1.2) /\ Q (Ok x) (d2, s1.2) /\ Q (Throw fault) (d2, s1.2)) ->
  wpc I (tx f) Q s.
Proof.
  intros HI H. split; [done|]. intros s1 HR. destruct (H s1 HR) as (H1 & H2 & H3 & H4). split_and!.
  - intros d2 x Hf. destruct (H4 d2 x Hf) as (? & ? & ?). by split.
  - intros e Hf. split; auto.
  - by split.
Qed.

Lemma wpc_call I c (Q : result E (s_reply S c) -> D * G -> Prop) s :
  I s ->
  (forall s1 g' r, R s s1 -> answers c s1.2 g' r -> I (s1.1, g') /\ Q r (s1.1, g')) ->
  wpc I (call c) Q s.
Proof.
  intros HI H. split; [done|]. intros s1 g' r HR Ha. destruct (H s1 g' r HR Ha). destruct r; by split.
Qed.

(** ** Sessions: attempts of [P], one after another, whatever became of each *)

Inductive sessions {A} (P : prog S A -> Prop) (s : D * G) : D * G -> Prop :=
| sessions_none : sessions P s s
| sessions_other s1 s2 : sessions P s s1 -> R s1 s2 -> sessions P s s2
| sessions_attempt q s1 out s2 : sessions P s s1 -> P q -> runs q s1 out s2 -> sessions P s s2.

Lemma sessions_invariant {A} (P : prog S A -> Prop) I s s' :
  (forall s1 s2, I s1 -> R s1 s2 -> I s2) ->
  (forall q s1, P q -> I s1 -> wpc I q (fun _ _ => True) s1) ->
  I s -> sessions P s s' -> I s'.
Proof.
  intros HR HP HI. induction 1 as [|s1 s2 _ IH H|q s1 out s2 _ IH Hq H]; [done|eauto|].
  by eapply (wpc_adequate I q _ s1 out s2), H; apply HP.
Qed.

(** ** The run that nothing disturbs *)

Context (serve : forall c, G -> G * result E (s_reply S c)).

Fixpoint exec {A} (q : prog S A) (s : D * G) : result E A * (D * G) :=
  match q with
  | Return a => (Ok a, s)
  | Raise e => (Throw e, s)
  | Tx f k =>
      match f s.1 with
      | Ok (d2, x) => exec (k (Ok x)) (d2, s.2)
      | Throw e => exec (k (Throw e)) s
      end
  | Call c k => let (g', r) := serve c s.2 in exec (k r) (s.1, g')
  end.

Lemma exec_runs {A} (q : prog S A) s :
  (forall s1, R s1 s1) -> (forall c g, answers c g (serve c g).1 (serve c g).2) ->
  runs q s (Some (exec q s).1) (exec q s).2.
Proof.
  intros HR Hs. revert s. induction q as [a|e|X f k IH|c k IH]; intros s; right; [done|done| |]; simpl.
  - exists s. split; [done|]. destruct (f s.1) as [[d2 x]|e] eqn:Ef.
    + left. exists d2, x. split; [done|]. left. apply IH.
    + right. left. exists e. split; [done|]. apply IH.
  - pose proof (Hs c s.2) as Ha. destruct (serve c s.2) as [g' r]. exists s, g', r. split_and!; [done..|apply IH].
Qed.
End Runs.
