(* ===== verification/GithubApi.v ===== *)
(** [integrations/github/api_client.ts]: the request loop with its retries, its
    one refresh of the token and its typed errors, the headers it reads, and the
    verbs on top of it.  What lies outside, the transport, the source of tokens and
    the clock, is called; [JSON.parse] and [Date.parse] are parameters. *)
From Stdlib Require Import QArith.
From stdpp Require Import base gmap sets list strings pretty.
From Stdlib Require Import ZArith Lia Ascii.
From S2P Require Import Prelude Json ReviewPayload WebhookPayload Programs.
Local Open Scope Z_scope.
Local Open Scope prog_scope.

(** * Constants and errors *)

Definition MAX_5XX_RETRIES : nat := 3.
Definition INITIAL_BACKOFF_SECONDS : Q := 1 # 2.
Definition DEFAULT_ACCEPT : string := "application/vnd.github+json".

Record rate_limit := RateLimit {
  rl_resource : string;
  rl_reset_at : Z;                          (* milliseconds *)
  rl_retry_after : option Z;
}.

(** The typed errors, and those that the language throws. *)
Inductive api_error :=
| GitHubApiUnavailableError
| GitHubAppUnauthorized
| GitHubRateLimitExceeded (l : rate_limit)
| GitHubForbiddenError
| GitHubNotFoundError
| GitHubUnprocessableError
| GitHubClientError (status : Z)
| AbortError
| SyntaxError
| TypeError
| RangeError.

(** * The seams *)

Record http_args := HttpArgs {
  h_method : string;
  h_url : string;
  h_headers : list (string * string);
  h_json : json;
}.

Record http_response := HttpResponse {
  rs_status : Z;
  rs_headers : list (string * string);
  rs_body : option string;
}.

(** The calls: the token provider, the transport, [clock.now()], [clock.sleep] and a
    look at the abort signal. *)
Inductive gh_call :=
| c_token (forceRefresh : bool)
| c_http (a : http_args)
| c_now
| c_sleep (seconds : Q)
| c_aborted.

Definition gh_reply (c : gh_call) : Type :=
  match c with
  | c_token _ => string
  | c_http _ => http_response
  | c_now => Z
  | c_sleep _ => unit
  | c_aborted => bool
  end.

Definition github (D E : Type) : sig := Sig D gh_call gh_reply E.

(** * Headers *)

Fixpoint find_key (p : string -> bool) (l : list (string * string)) : option string :=
  match l with [] => None | (k, v) :: l' => if p k then Some v else find_key p l' end.

Definition header (headers : list (string * string)) (name : string) : option string :=
  match find_key (String.eqb name) headers with
  | Some v => Some v
  | None => find_key (fun k => String.eqb (JsString.to_lower k) (JsString.to_lower name)) headers
  end.

Fixpoint digit_prefix (s : string) : string :=
  match s with
  | String c s' => if JsString.is_digit c then String c (digit_prefix s') else ""
  | EmptyString => ""
  end.

(** [Number.parseInt(s, 10)]; [None] is [NaN]. *)
Definition parseInt (s : string) : option Z :=
  let '(sign, digits) := match JsString.trim_start s with
                         | String "-" t => (-1, t)
                         | String "+" t => (1, t)
                         | t => (1, t)
                         end in
  match digit_prefix digits with
  | EmptyString => None
  | d => Some (sign * JsString.number_of_digits d)
  end.

Record rate_limit_window := Window { w_resource : string; w_limit : Z; w_remaining : Z; w_reset_at : Z }.

Definition DEFAULT_RESOURCE : string := "core".

Definition parseRateLimit (headers : list (string * string)) : option rate_limit_window :=
  limit ← header headers "X-RateLimit-Limit";
  remaining ← header headers "X-RateLimit-Remaining";
  reset ← header headers "X-RateLimit-Reset";
  limitN ← parseInt limit;
  remainingN ← parseInt remaining;
  resetN ← parseInt reset;
  Some (Window DEFAULT_RESOURCE limitN remainingN (resetN * 1000)).

(** [s.split(sep)] for a separator of several characters; [skip] characters of one
    are still to be passed. *)
Fixpoint split_str (sep : string) (skip : nat) (s : string) : list string :=
  match s with
  | EmptyString => [""]
  | String c s' =>
      match skip with
      | S k => split_str sep k s'
      | O =>
          if String.prefix sep s then "" :: split_str sep (String.length sep - 1) s'
          else match split_str sep 0 s' with
               | [] => [String c ""]
               | x :: l => String c x :: l
               end
      end
  end.

(** [.replace(/^</, "").replace(/>$/, "")]. *)
Definition unbracket (s : string) : string :=
  let s := match s with String "<" t => t | _ => s end in
  match JsString.rev_string s with String ">" t => JsString.rev_string t | _ => s end.

(** The path of a link: what follows the first slash after the host. *)
Definition link_path (urlPart : string) : string :=
  match split_str "://" 0 urlPart with
  | _ :: afterScheme :: _ =>
      "/" +:+ match JsString.cut "/" afterScheme with Some (_, path) => path | None => "" end
  | _ => urlPart
  end.

Definition REL_NEXT : string := "rel=" +:+ String dquote ("next" +:+ String dquote "").

Fixpoint next_of (segments : list string) : option string :=
  match segments with
  | [] => None
  | segment :: rest =>
      match JsString.split ";" (JsString.trim segment) with
      | urlPart :: ((_ :: _) as attrs) =>
          if existsb (fun attr => String.eqb (JsString.trim attr) REL_NEXT) attrs
          then Some (link_path (unbracket (JsString.trim urlPart)))
          else next_of rest
      | _ => next_of rest
      end
  end.

Definition extractNextLink (linkHeader : option string) : option string :=
  match linkHeader with
  | None | Some "" => None
  | Some h => next_of (JsString.split "," h)
  end.

(** A time that [Date] can hold. *)
Definition valid_date (ms : Z) : bool := (Z.abs ms <=? 8640000000000000).

Section Api.
(** The database type of the caller, and its errors with ours among them. *)
Context {D E : Type}.
Variable inj : api_error -> E.
Variable date_parse : string -> option Z.
Variable json_parse : string -> option json.

Abbreviation S := (github D E).
Abbreviation prog := (prog S).

Definition fail {A} (e : api_error) : prog A := @Raise S A (inj e).

Definition gh (c : gh_call) : prog (gh_reply c) := @call S c.

Definition parseRetryAfter (headers : list (string * string)) (nowMs : option Z) : option Z :=
  raw ← header headers "Retry-After";
  if JsString.all_digits (JsString.trim raw) then parseInt raw
  else
    now ← nowMs;
    then_ ← date_parse raw;
    Some (Z.max 0 ((then_ - now + 500) / 1000)).

(** * The request loop *)

(** What an answer other than a 401 leads to. *)
Inductive verdict := v_return | v_backoff | v_raise (e : api_error).

Definition secondary (now : Z) (r : http_response) : api_error :=
  GitHubRateLimitExceeded (RateLimit "secondary" now (parseRetryAfter (rs_headers r) (Some now))).

Definition primaryLimited (r : http_response) : bool :=
  match parseRateLimit (rs_headers r) with Some w => w_remaining w <=? 0 | None => false end
  || JsString.includes "api rate limit exceeded" (JsString.to_lower (default "" (rs_body r))).

Definition judge (attempt : nat) (now : Z) (r : http_response) : verdict :=
  let window := parseRateLimit (rs_headers r) in
  let status := rs_status r in
  if status =? 429 then v_raise (secondary now r)
  else if (status =? 403) && JsString.includes "secondary rate limit" (JsString.to_lower (default "" (rs_body r)))
  then v_raise (secondary now r)
  else if (status =? 403) && primaryLimited r
  then v_raise (GitHubRateLimitExceeded (RateLimit
         (match window with Some w => w_resource w | None => "core" end)
         (match window with Some w => w_reset_at w | None => now end)
         (parseRetryAfter (rs_headers r) (Some now))))
  else if (500 <=? status) && (status <? 600)
  then if (attempt <? MAX_5XX_RETRIES - 1)%nat then v_backoff else v_raise GitHubApiUnavailableError
  else if status =? 403 then v_raise GitHubForbiddenError
  else if status =? 404 then v_raise GitHubNotFoundError
  else if status =? 422 then v_raise GitHubUnprocessableError
  else if 400 <=? status then v_raise (GitHubClientError status)
  else match window with
       | Some w =>
           if w_remaining w <=? 0 then
             if valid_date (w_reset_at w)
             then v_raise (GitHubRateLimitExceeded (RateLimit (w_resource w) (w_reset_at w)
                    (parseRetryAfter (rs_headers r) (Some now))))
             else v_raise RangeError
           else v_return
       | None => v_return
       end.

Section Client.
(** [baseUrl], without its trailing slashes. *)
Variable base_url : string.

Definition request_of (method path accept token : string) (body : json) : http_args :=
  HttpArgs method (base_url +:+ path)
    [("Accept", accept); ("Authorization", "Bearer " +:+ token); ("X-GitHub-Api-Version", "2022-11-28");
     ("User-Agent", "codemaster-app")] body.

(** [signal?.throwIfAborted()]. *)
Definition throwIfAborted (signal : bool) : prog unit :=
  if signal then await a := gh c_aborted in if a then fail AbortError else Return tt
  else Return tt.

(** The [for] loop, [left] attempts before its end. *)
Fixpoint request_loop (signal : bool) (send : string -> http_args) (left : nat) (attempt401 : bool)
    (backoff : Q) (token : string) : prog http_response :=
  match left with
  | O => fail GitHubApiUnavailableError
  | Datatypes.S left' =>
      await _ := throwIfAborted signal in
      await resp := gh (c_http (send token)) in
      if rs_status resp =? 401 then
        if attempt401 then fail GitHubAppUnauthorized
        else await token' := gh (c_token true) in request_loop signal send left' true backoff token'
      else
        await now := gh c_now in
        match judge (MAX_5XX_RETRIES - left) now resp with
        | v_return => Return resp
        | v_raise e => fail e
        | v_backoff =>
            await _ := gh (c_sleep backoff) in
            request_loop signal send left' attempt401 (2 * backoff)%Q token
        end
  end.

(** [_request], given what an attempt sends with a token. *)
Definition request_with (signal : bool) (send : string -> http_args) : prog http_response :=
  await _ := throwIfAborted signal in
  await token := gh (c_token false) in
  request_loop signal send MAX_5XX_RETRIES false INITIAL_BACKOFF_SECONDS token.

Definition request (method path accept : string) (signal : bool) (body : json) : prog http_response :=
  request_with signal (fun token => request_of method path accept token body).

(** The verbs; [JNull] is no body. *)
Definition get_ (path accept : string) (signal : bool) : prog http_response := request "GET" path accept signal JNull.
Definition post (path : string) (body : json) (signal : bool) : prog http_response :=
  request "POST" path DEFAULT_ACCEPT signal body.
Definition put (path : string) (body : json) (signal : bool) : prog http_response :=
  request "PUT" path DEFAULT_ACCEPT signal body.
Definition patch (path : string) (body : json) (signal : bool) : prog http_response :=
  request "PATCH" path DEFAULT_ACCEPT signal body.
Definition delete_ (path : string) (signal : bool) : prog http_response :=
  request "DELETE" path DEFAULT_ACCEPT signal JNull.
End Client.
End Api.

(** * What a request leaves behind *)

Lemma judge_return date_parse attempt now r : judge date_parse attempt now r = v_return -> rs_status r < 400.
Proof.
  unfold judge. destruct (400 <=? rs_status r) eqn:E; [|lia]. by repeat case_match.
Qed.

Lemma judge_backoff date_parse attempt now r :
  judge date_parse attempt now r = v_backoff -> 500 <= rs_status r < 600 /\ (attempt < 2)%nat.
Proof.
  unfold judge. destruct ((500 <=? rs_status r) && (rs_status r <? 600)) eqn:E; [|by repeat case_match].
  apply andb_true_iff in E as [H1 H2]. intros H. split; [lia|].
  destruct (attempt <? MAX_5XX_RETRIES - 1)%nat eqn:Ea; [by apply Nat.ltb_lt in Ea|]. by repeat case_match.
Qed.

Lemma judge_unprocessable date_parse attempt now r :
  judge date_parse attempt now r = v_raise GitHubUnprocessableError -> rs_status r = 422.
Proof.
  unfold judge, secondary. destruct (rs_status r =? 422) eqn:E; [lia|]. by repeat case_match.
Qed.

Definition quiet (c : gh_call) : Prop := match c with c_http _ => False | _ => True end.

Section RequestSpec.
Context {D E G : Type} (inj : api_error -> E) (date_parse : string -> option Z).
Abbreviation S := (github D E).
Abbreviation state := (D * G)%type.
Context (answers : forall c, G -> G -> result E (gh_reply c) -> Prop) (R : state -> state -> Prop) (fault : E).
Abbreviation wpc := (@wpc S G answers R fault _).

(** What others, the clock and the tokens leave alone. *)
Record stable (P : state -> Prop) : Prop := {
  st_others s s1 : P s -> R s s1 -> P s1;
  st_quiet s c g' r : P s -> quiet c -> answers c s.2 g' r -> P (s.1, g');
}.

(** The errors that calls throw: those that [ok] admits, none of them a 422 of ours. *)
Context (ok : E -> Prop).
Hypothesis ok_inj : forall a, ok (inj a).
Hypothesis inj_unprocessable : forall a, inj a = inj GitHubUnprocessableError -> a = GitHubUnprocessableError.
Hypothesis ok_calls : forall c g g' e, answers c g g' (Throw e) -> ok e /\ e <> inj GitHubUnprocessableError.

(** Before an attempt that counts, after an answer, and after none. *)
Context (send : string -> http_args) (I J Lost : state -> Prop) (After : http_response -> state -> Prop).
Hypothesis J_stable : stable J.
Hypothesis After_stable : forall resp, stable (After resp).
Hypothesis I_J : forall s, J s -> I s.
Hypothesis I_Lost : forall s, Lost s -> I s.
Hypothesis I_After : forall resp s, After resp s -> I s.
Hypothesis sends : forall token s s1 g' r,
  J s -> R s s1 -> answers (c_http (send token)) s1.2 g' r ->
  match r with Ok resp => After resp (s1.1, g') | Throw _ => Lost (s1.1, g') end.
Hypothesis retried : forall resp s,
  After resp s -> rs_status resp = 401 \/ 500 <= rs_status resp < 600 -> J s.

Definition answered (r : result E http_response) (s : state) : Prop :=
  match r with
  | Ok resp => After resp s /\ rs_status resp < 400
  | Throw e =>
      ok e /\ (J s \/ Lost s \/ exists resp, After resp s) /\
      (e = inj GitHubUnprocessableError -> exists resp, After resp s /\ rs_status resp = 422)
  end.

Lemma wpc_gh (K : state -> Prop) c (Q : result E (gh_reply c) -> state -> Prop) (s : state) :
  K s ->
  (forall s1 g' r, R s s1 -> answers c s1.2 g' r -> K (s1.1, g') /\ Q r (s1.1, g')) ->
  wpc K (gh c) Q s.
Proof. exact (@wpc_call S G answers R fault K c Q s). Qed.

Lemma wpc_quiet_call P c (Q : result E (gh_reply c) -> state -> Prop) s :
  stable P -> (forall s', P s' -> I s') -> quiet c -> P s ->
  (forall s' r, P s' -> (forall e, r = Throw e -> ok e /\ e <> inj GitHubUnprocessableError) -> Q r s') ->
  wpc I (gh c) Q s.
Proof.
  intros HP HI Hc Hs HQ. apply wpc_gh; [auto|]. intros s1 g' r HR Ha.
  assert (H1 : P (s1.1, g')) by (eapply (st_quiet _ HP), Ha; [by eapply (st_others _ HP)|done]).
  split; [auto|]. apply HQ; [done|]. intros e ->. by eapply ok_calls.
Qed.

Lemma unsignalled {A} (k : unit -> prog S A) : bind (throwIfAborted inj false) k = k tt.
Proof. done. Qed.

Lemma wpc_request_loop left attempt401 backoff token s :
  J s -> wpc I (request_loop inj date_parse false send left attempt401 backoff token) answered s.
Proof.
  revert attempt401 backoff token s. induction left as [|left IH]; intros attempt401 backoff token s Hs; simpl request_loop.
  { split; [auto|]. split_and!; [apply ok_inj|auto|]. by intros ?%inj_unprocessable. }
  rewrite unsignalled. cbv beta. apply wpc_bind, wpc_gh; [auto|]. intros s1 g' r HR Ha.
  pose proof (sends _ _ _ _ _ Hs HR Ha) as Hr. destruct r as [resp|e].
  2:{ split; [auto|]. destruct (ok_calls _ _ _ _ Ha). by split_and!; auto. }
  split; [by eauto|]. destruct (rs_status resp =? 401) eqn:E401.
  - assert (HJ : J (s1.1, g')) by (eapply retried; [done|lia]).
    destruct attempt401.
    + split; [auto|]. split_and!; [apply ok_inj|auto|]. by intros ?%inj_unprocessable.
    + apply wpc_bind, (wpc_quiet_call J); [done..|]. intros s2 [token'|e] H2 He; [by apply IH|].
      destruct (He e eq_refl). by split_and!; auto.
  - apply wpc_bind, (wpc_quiet_call (After resp)); [done|eauto|done|done|].
    intros s2 [now|e] H2 He.
    2:{ destruct (He e eq_refl). by split_and!; eauto. }
    destruct (judge _ _ _ _) as [| |a] eqn:Ej.
    + apply judge_return in Ej. by apply wpc_return; [eauto|].
    + apply judge_backoff in Ej as [Ej _]. assert (HJ : J s2) by (eapply retried; [done|lia]).
      apply wpc_bind, (wpc_quiet_call J); [done..|]. intros s3 [[]|e] H3 He'; [by apply IH|].
      destruct (He' e eq_refl). by split_and!; auto.
    + split; [eauto|]. split_and!; [apply ok_inj|eauto|].
      intros ->%inj_unprocessable. exists resp. split; [done|]. by eapply judge_unprocessable.
Qed.

Lemma wpc_request s : J s -> wpc I (request_with inj date_parse false send) answered s.
Proof.
  intros Hs. unfold request_with. rewrite unsignalled. cbv beta.
  apply wpc_bind, (wpc_quiet_call J); [done..|]. intros s1 [token|e] H1 He; [by apply wpc_request_loop|].
  destruct (He e eq_refl). by split_and!; auto.
Qed.
End RequestSpec.

(** * The bounds of a request *)

Section Bounds.
Context {D E G : Type} (inj : api_error -> E) (date_parse : string -> option Z).
Abbreviation S := (github D E).
Abbreviation state := (D * G)%type.
Context (answers : forall c, G -> G -> result E (gh_reply c) -> Prop) (R : state -> state -> Prop) (fault : E).
Abbreviation wpc := (@wpc S G answers R fault _).

(** The calls made so far, by us. *)
Context (log : G -> list gh_call).

Record logged : Prop := {
  lg_calls c g g' r : answers c g g' r -> log g' = log g ++ [c];
  lg_others s s1 : R s s1 -> log s1.2 = log s.2;
}.

Definition is_http (c : gh_call) : bool := match c with c_http _ => true | _ => false end.
Definition is_token (c : gh_call) : bool := match c with c_token _ => true | _ => false end.
Definition sent (t : list gh_call) : nat := length (List.filter is_http t).
Definition tokens (t : list gh_call) : nat := length (List.filter is_token t).
Definition sleeps (t : list gh_call) : list Q := omap (fun c => match c with c_sleep q => Some q | _ => None end) t.

(** The first [k] waits: each twice the one before. *)
Definition backoff_of (k : nat) : Q := Nat.iter k (Qmult 2) INITIAL_BACKOFF_SECONDS.
Definition backoffs (k : nat) : list Q := map backoff_of (seq 0 k).

Definition within (t : list gh_call) : Prop :=
  (sent t <= MAX_5XX_RETRIES)%nat /\ (tokens t <= 2)%nat /\ exists k, (k <= 2)%nat /\ sleeps t = backoffs k.

Lemma sent_snoc t c : sent (t ++ [c]) = (sent t + if is_http c then 1 else 0)%nat.
Proof. unfold sent. rewrite List.filter_app, length_app. simpl. by destruct (is_http c). Qed.
Lemma tokens_snoc t c : tokens (t ++ [c]) = (tokens t + if is_token c then 1 else 0)%nat.
Proof. unfold tokens. rewrite List.filter_app, length_app. simpl. by destruct (is_token c). Qed.
Lemma sleeps_snoc t c : sleeps (t ++ [c]) = sleeps t ++ match c with c_sleep q => [q] | _ => [] end.
Proof. unfold sleeps. rewrite omap_app. f_equal. by destruct c. Qed.
Lemma backoffs_S k : backoffs (Datatypes.S k) = backoffs k ++ [backoff_of k].
Proof. unfold backoffs. by rewrite seq_S, map_app. Qed.

Context (HL : logged) (l0 : list gh_call).

Definition bounded (s : state) : Prop := exists t, log s.2 = l0 ++ t /\ within t.

Lemma wpc_logged c t (Q : result E (gh_reply c) -> state -> Prop) (s : state) :
  log s.2 = l0 ++ t -> within t -> within (t ++ [c]) ->
  (forall (s' : state) r, log s'.2 = l0 ++ t ++ [c] -> Q r s') ->
  wpc bounded (gh c) Q s.
Proof.
  intros Ht Hw Hwc HQ. apply wpc_gh; [by exists t|]. intros s1 g' r HR Ha.
  apply (lg_calls HL) in Ha. apply (lg_others HL) in HR.
  assert (Hg : log g' = l0 ++ t ++ [c]) by (rewrite Ha, HR, Ht; by rewrite <- (assoc_L (++) l0)).
  split; [by exists (t ++ [c])|]. by apply HQ.
Qed.

Definition small (r : result E http_response) (s : state) : Prop :=
  match r with Ok resp => rs_status resp < 400 | Throw _ => True end.

(** After [t], with [left] attempts to go and [k] waits behind. *)
Definition at_attempt (t : list gh_call) (left k : nat) (attempt401 : bool) : Prop :=
  (sent t + left <= 3)%nat /\ (tokens t <= if attempt401 then 2 else 1)%nat /\
  sleeps t = backoffs k /\ (k + left <= 3)%nat.

Lemma at_attempt_within t left k a : at_attempt t left k a -> (k <= 2)%nat -> within t.
Proof. intros (H1 & H2 & H3 & H4) Hk. split_and!; [unfold MAX_5XX_RETRIES; lia|destruct a; lia|eauto]. Qed.

Lemma wpc_loop_bounded send left attempt401 token t k (s : state) :
  log s.2 = l0 ++ t -> at_attempt t left k attempt401 -> (k <= 2)%nat ->
  wpc bounded (request_loop inj date_parse false send left attempt401 (backoff_of k) token) small s.
Proof.
  revert attempt401 token t k s. induction left as [|left IH]; intros a token t k s Ht Hat Hk.
  { split; [|done]. exists t. split; [done|]. by eapply at_attempt_within. }
  pose proof (at_attempt_within _ _ _ _ Hat Hk) as Hw. destruct Hat as (H1 & H2 & H3 & H4).
  cbn [request_loop]. rewrite unsignalled. cbv beta.
  assert (Hw1 : within (t ++ [c_http (send token)])).
  { unfold within. rewrite sent_snoc, tokens_snoc, sleeps_snoc, app_nil_r. simpl. unfold MAX_5XX_RETRIES.
    split_and!; [lia|destruct a; lia|eauto]. }
  apply wpc_bind, (wpc_logged _ t); [done..|]. intros s1 [resp|e] Hs1; [|done].
  assert (Hb1 : bounded s1) by by eexists.
  destruct (rs_status resp =? 401).
  - destruct a; [by split|].
    apply wpc_bind, (wpc_logged _ (t ++ [c_http (send token)])); [done|done| |].
    { unfold within. rewrite !sent_snoc, !tokens_snoc, !sleeps_snoc, !app_nil_r. simpl. unfold MAX_5XX_RETRIES.
      split_and!; [lia|lia|eauto]. }
    intros s2 [token'|e] Hs2; [|done]. eapply IH; [exact Hs2| |done].
    unfold at_attempt. rewrite !sent_snoc, !tokens_snoc, !sleeps_snoc, !app_nil_r. simpl. split_and!; [lia|lia|done|lia].
  - apply wpc_bind, (wpc_logged _ (t ++ [c_http (send token)])); [done|done| |].
    { unfold within. rewrite !sent_snoc, !tokens_snoc, !sleeps_snoc, !app_nil_r. simpl. unfold MAX_5XX_RETRIES.
      split_and!; [lia|destruct a; lia|eauto]. }
    intros s2 [now|e] Hs2; [|done].
    assert (Hw2 : within ((t ++ [c_http (send token)]) ++ [c_now])).
    { unfold within. rewrite !sent_snoc, !tokens_snoc, !sleeps_snoc, !app_nil_r. simpl. unfold MAX_5XX_RETRIES.
      split_and!; [lia|destruct a; lia|eauto]. }
    assert (Hb2 : bounded s2) by by eexists.
    destruct (judge _ _ _ _) as [| |e] eqn:Ej; [|..]; [| |by split].
    + apply judge_return in Ej. by split.
    + apply judge_backoff in Ej as [_ Ej]. unfold MAX_5XX_RETRIES in Ej.
      assert (Hnext : at_attempt (((t ++ [c_http (send token)]) ++ [c_now]) ++ [c_sleep (backoff_of k)]) left (Datatypes.S k) a).
      { unfold at_attempt. rewrite !sent_snoc, !tokens_snoc, !sleeps_snoc, !app_nil_r, backoffs_S. simpl.
        split_and!; [lia|destruct a; lia|by rewrite H3|lia]. }
      apply wpc_bind, (wpc_logged _ _ _ _ Hs2 Hw2); [eapply at_attempt_within; [done|lia]|].
      intros s3 [[]|e] Hs3; [|done]. change (2 * backoff_of k)%Q with (backoff_of (Datatypes.S k)).
      eapply IH; [exact Hs3|exact Hnext|lia].
Qed.

Lemma wpc_request_bounded send (s : state) :
  log s.2 = l0 -> wpc bounded (request_with inj date_parse false send) small s.
Proof.
  intros Hs. unfold request_with. rewrite unsignalled. cbv beta.
  assert (Ht : log s.2 = l0 ++ []) by by rewrite app_nil_r.
  assert (Hw : within []) by (split_and!; [vm_compute; lia..|by exists 0%nat; split; [lia|]]).
  assert (Hat : at_attempt ([] ++ [c_token false]) MAX_5XX_RETRIES 0 false).
  { split_and!; [vm_compute; lia..|done|vm_compute; lia]. }
  apply wpc_bind, (wpc_logged _ [] _ _ Ht Hw); [eapply at_attempt_within; [done|lia]|].
  intros s1 [token|e] Hs1; [|done]. change INITIAL_BACKOFF_SECONDS with (backoff_of 0).
  eapply wpc_loop_bounded; [exact Hs1|exact Hat|lia].
Qed.
End Bounds.

(** * Theorems *)

(** A request is bounded.  Whatever the server, the clock and the source of
    tokens answer, and wherever the run is killed, a request of the client has sent
    at most three HTTP requests, asked for a token at most twice, and slept the first
    of half a second, a second, never more than two waits; and a response that it
    returns is not an error. *)
Theorem request_bounded {D E G} inj date_parse (answers : forall c, G -> G -> result E (gh_reply c) -> Prop)
    (R : D * G -> D * G -> Prop) fault (log : G -> list gh_call) base_url method path accept body
    (s s' : D * G) (out : option (result E http_response)) :
  logged answers R log ->
  @Programs.runs (github D E) G answers R fault _
    (request inj date_parse base_url method path accept false body) s out s' ->
  exists t, log s'.2 = log s.2 ++ t /\ (sent t <= 3)%nat /\ (tokens t <= 2)%nat /\
    (exists k, (k <= 2)%nat /\ sleeps t = backoffs k) /\
    forall resp, out = Some (Ok resp) -> rs_status resp < 400.
Proof.
  intros HL Hrun.
  destruct (@wpc_adequate (github D E) G answers R fault _ _ _ _ s out s'
    (wpc_request_bounded inj date_parse answers R fault log HL (log s.2)
       (fun token => request_of base_url method path accept token body) s eq_refl) Hrun) as [(t & Ht & H1 & H2 & H3) Hout].
  exists t. split_and!; [done..|]. intros resp ->. by apply (Hout (Ok resp)).
Qed.

(** A server that is down, and remembers what it was asked. *)
Definition ex_down (c : gh_call) (g : list gh_call) : list gh_call * result api_error (gh_reply c) :=
  (g ++ [c], match c return result api_error (gh_reply c) with
             | c_token _ => Ok "t" | c_http _ => Ok (HttpResponse 503 [] None) | c_now => Ok 0
             | c_sleep _ => Ok tt | c_aborted => Ok false
             end).

Lemma request_bounded_witness :
  let q := @request unit api_error (fun e => e) (fun _ => None) "https://h" "GET" "/x" DEFAULT_ACCEPT false JNull in
  let run := @exec (github unit api_error) (list gh_call) ex_down _ q (tt, []) in
  run.1 = Throw GitHubApiUnavailableError /\ sent run.2.2 = 3%nat /\ sleeps run.2.2 = backoffs 2 /\
  exists t, run.2.2 = t /\ (sent t <= 3)%nat.
Proof.
  intros q run. split; [vm_compute; reflexivity|]. split; [vm_compute; reflexivity|].
  split; [vm_compute; reflexivity|].
  destruct (request_bounded (fun e => e) (fun _ => None) (fun c g g' r => (g', r) = ex_down c g) (fun s s1 => s1 = s)
              SyntaxError (fun g => g) "https://h" "GET" "/x" DEFAULT_ACCEPT JNull (tt, []) run.2 (Some run.1))
    as (t & Ht & H & _).
  - split; [by intros c g g' r [= -> _]|by intros s s1 ->].
  - apply (@exec_runs (github unit api_error) (list gh_call)); [done|]. intros c g. by destruct (ex_down c g).
  - exists t. split; [exact Ht|exact H].
Defined.

(** The links of a server whose API has a path of its own, as GitHub Enterprise has:
    the path of the next page already holds that of the base. *)
Lemma next_page_doubles_the_base :
  let base := "https://ghe.example/api/v3" in
  let link := "<https://ghe.example/api/v3/repositories/1/pulls/7/reviews?page=2>; " +:+ REL_NEXT in
  exists p, extractNextLink (Some link) = Some p /\
    base +:+ p = "https://ghe.example/api/v3/api/v3/repositories/1/pulls/7/reviews?page=2".
Proof. eexists. split; [vm_compute; reflexivity|reflexivity]. Qed.

(** A first 401 on the last attempt ends the loop where the code says it cannot. *)
Lemma loop_exit_is_reachable :
  let serve c (g : nat) : nat * result api_error (gh_reply c) :=
    match c with
    | c_http _ => (S g, Ok (HttpResponse (if (g <? 2)%nat then 503 else 401) [] None))
    | c_token _ => (g, Ok "t") | c_now => (g, Ok 0) | c_sleep _ => (g, Ok tt) | c_aborted => (g, Ok false)
    end in
  let run := @exec (github unit api_error) nat serve _
      (@request unit api_error (fun e => e) (fun _ => None) "b" "GET" "/x" DEFAULT_ACCEPT false JNull) (tt, 0%nat) in
  run.1 = Throw GitHubApiUnavailableError.
Proof. vm_compute. reflexivity. Qed.

(** A response that succeeded is thrown away when it says that the window is used up:
    the caller of a POST is told of an error after the effect. *)
Lemma success_raises date_parse attempt now body :
  let headers := [("X-RateLimit-Limit", "5000"); ("X-RateLimit-Remaining", "0"); ("X-RateLimit-Reset", "1700000000")] in
  judge date_parse attempt now (HttpResponse 201 headers body) =
  v_raise (GitHubRateLimitExceeded (RateLimit "core" 1700000000000 None)).
Proof. reflexivity. Qed.
