(* ===== verification/GithubReviews.v ===== *)
(** [integrations/github/review_client.ts]: the client of GitHub's reviews on top
    of [GithubApi].  The interface [GhReviewClient] is a record of programs, as the
    posting of a review takes it; [GitHubApiReviewClient] is the one that is wired
    in. *)
From Stdlib Require Import QArith.
From stdpp Require Import base gmap sets list strings pretty.
From Stdlib Require Import ZArith Lia Ascii.
From S2P Require Import Prelude Numerals Json ReviewPayload WebhookPayload Programs GithubApi.
Local Open Scope Z_scope.
Local Open Scope prog_scope.

Definition REVIEW_EVENT : string := "COMMENT".
Definition MARKER_SCAN_MAX_PAGES : nat := 20.

(** A number that is an integer; [None] is [NaN]. *)
Definition js_num : Type := option Z.

(** [CreatedReviewV1]. *)
Record created_review := CreatedReview { cr_reviewId : js_num; cr_commentIds : list js_num }.

(** A pull request, as the arguments name it. *)
Record pr_ref := PrRef { pr_owner : string; pr_repo : string; pr_prNumber : Z }.

Record GhReviewClient (S : sig) := MkGhReviewClient {
  findExistingReviewByMarker : pr_ref -> string -> prog S (option js_num);
  listReviewComments : pr_ref -> js_num -> prog S (list js_num);
  createReview : pr_ref -> string -> string -> list json -> prog S created_review;
  updateReview : pr_ref -> js_num -> string -> prog S unit;
  createIssueComment : pr_ref -> string -> prog S js_num;
  listIssueComments : pr_ref -> prog S json;
  deleteIssueComment : pr_ref -> Z -> prog S unit;
}.
Arguments findExistingReviewByMarker {S} _ _ _.
Arguments listReviewComments {S} _ _ _.
Arguments createReview {S} _ _ _ _ _.
Arguments updateReview {S} _ _ _ _.
Arguments createIssueComment {S} _ _ _.
Arguments listIssueComments {S} _ _.
Arguments deleteIssueComment {S} _ _ _.

(** [`${n}`] of a number. *)
Definition show_num (n : js_num) : string := match n with Some z => pretty z | None => "NaN" end.

Definition json_num (n : js_num) : json := match n with Some z => num z | None => JNull end.

(** [Number(v)] of a property: of a scalar, an integer or [NaN]. *)
Definition Number (v : option json) : js_num :=
  match v with
  | Some JNull => Some 0
  | Some (JBool b) => Some (if b then 1 else 0)
  | Some (JNum s) => int_of s
  | Some (JStr s) => let t := JsString.trim s in if String.eqb t "" then Some 0 else int_of t
  | _ => None
  end.

(** Reading a property: [null] has none. *)
Definition member (k : string) (v : json) : result api_error (option json) :=
  match v with JNull => Throw TypeError | _ => Ok (prop k v) end.

Definition pulls (p : pr_ref) : string :=
  "/repos/" +:+ pr_owner p +:+ "/" +:+ pr_repo p +:+ "/pulls/" +:+ pretty (pr_prNumber p).
Definition reviews_path (p : pr_ref) : string := pulls p +:+ "/reviews".
Definition review_path (p : pr_ref) (id : js_num) : string := reviews_path p +:+ "/" +:+ show_num id.
Definition issue_comments_path (p : pr_ref) : string :=
  "/repos/" +:+ pr_owner p +:+ "/" +:+ pr_repo p +:+ "/issues/" +:+ pretty (pr_prNumber p) +:+ "/comments".

(** The first review of a page whose body contains the marker. *)
Fixpoint first_marked (marker : string) (l : list json) : result api_error (option js_num) :=
  match l with
  | [] => Ok None
  | review :: l' =>
      let? b := member "body" review in
      match b with
      | Some (JStr text) =>
          if negb (String.eqb text "") && JsString.includes marker text
          then let? id := member "id" review in Ok (Some (Number id))
          else first_marked marker l'
      | _ => first_marked marker l'
      end
  end.

(** [for (... of body)]: an array, or a string, whose characters have no body. *)
Definition page_scan (marker : string) (body : json) : result api_error (option js_num) :=
  match body with
  | JArr l => first_marked marker l
  | JStr _ => Ok None
  | _ => Throw TypeError
  end.

(** [body.map((c) => Number(c["id"]))]. *)
Definition ids_of (body : json) : result api_error (list js_num) :=
  match body with
  | JArr l => rmap (fun c => let? id := member "id" c in Ok (Number id)) l
  | _ => Throw TypeError
  end.

Section Client.
Context {D E : Type}.
Variable inj : api_error -> E.
Variable date_parse : string -> option Z.
Variable json_parse : string -> option json.
Variable base_url : string.

Abbreviation S := (github D E).
Abbreviation prog := (prog S).

Definition lift {A} (r : result api_error A) : prog A :=
  match r with Ok a => Return a | Throw e => @Raise S A (inj e) end.

Definition jsonOf (resp : http_response) : prog json :=
  match json_parse (default "{}" (rs_body resp)) with
  | Some v => Return v
  | None => lift (Throw SyntaxError)
  end.

Definition api_get (path : string) : prog http_response :=
  get_ inj date_parse base_url path DEFAULT_ACCEPT false.
Definition api_post (path : string) (body : json) : prog http_response :=
  post inj date_parse base_url path body false.

(** The pages from [path] on, [left] before the cap. *)
Fixpoint scan (marker : string) (left : nat) (path : string) : prog (option js_num) :=
  match left with
  | O => Return None
  | Datatypes.S left' =>
      await resp := api_get path in
      await body := jsonOf resp in
      await found := lift (page_scan marker body) in
      match found with
      | Some id => Return (Some id)
      | None =>
          match extractNextLink (header (rs_headers resp) "Link") with
          | Some path' => scan marker left' path'
          | None => Return None
          end
      end
  end.

Definition find_existing (p : pr_ref) (marker : string) : prog (option js_num) :=
  scan marker MARKER_SCAN_MAX_PAGES (reviews_path p).

Definition list_comments (p : pr_ref) (id : js_num) : prog (list js_num) :=
  await resp := api_get (review_path p id +:+ "/comments") in
  await body := jsonOf resp in
  lift (ids_of body).

Definition review_request (text commitId : string) (comments : list json) : json :=
  JObj [("commit_id", JStr commitId); ("body", JStr text); ("event", JStr REVIEW_EVENT);
        ("comments", JArr comments)].

Definition create_review (p : pr_ref) (text commitId : string) (comments : list json) : prog created_review :=
  await resp := api_post (reviews_path p) (review_request text commitId comments) in
  await body := jsonOf resp in
  await id := lift (member "id" body) in
  let reviewId := Number id in
  match comments with
  | [] => Return (CreatedReview reviewId [])
  | _ => await ids := list_comments p reviewId in Return (CreatedReview reviewId ids)
  end.

Definition update_review (p : pr_ref) (id : js_num) (text : string) : prog unit :=
  await _ := put inj date_parse base_url (review_path p id) (JObj [("body", JStr text)]) false in
  Return tt.

Definition create_issue_comment (p : pr_ref) (text : string) : prog js_num :=
  await resp := api_post (issue_comments_path p) (JObj [("body", JStr text)]) in
  await body := jsonOf resp in
  await id := lift (member "id" body) in
  Return (Number id).

Definition list_issue_comments (p : pr_ref) : prog json :=
  await resp := api_get (issue_comments_path p) in jsonOf resp.

Definition delete_issue_comment (p : pr_ref) (commentId : Z) : prog unit :=
  await _ := delete_ inj date_parse base_url
               ("/repos/" +:+ pr_owner p +:+ "/" +:+ pr_repo p +:+ "/issues/comments/" +:+ pretty commentId) false in
  Return tt.

(** The constructor refuses an installation id that is not positive. *)
Definition GitHubApiReviewClient (installationId : Z) : option (GhReviewClient S) :=
  if installationId <=? 0 then None
  else Some (MkGhReviewClient S find_existing list_comments create_review update_review
               create_issue_comment list_issue_comments delete_issue_comment).
End Client.

(** * Numerals *)

Lemma unsigned_of_digits s :
  JsString.all_digits s = true -> unsigned_of s = Some (JsString.number_of_digits s).
Proof.
  intros H. unfold unsigned_of, digits_of. rewrite H.
  assert (Hf : JsString.forall_chars JsString.is_digit s = true) by (by destruct s).
  assert (JsString.cut "e" s = None) as ->; [|done]. clear H.
  induction s as [|c s IH]; [done|]. simpl in *. apply andb_true_iff in Hf as [Hc Hs].
  destruct (Ascii.eqb_spec c "e") as [->|_]; [done|]. by rewrite IH.
Qed.

Lemma int_of_unsigned s : JsString.all_digits s = true -> int_of s = unsigned_of s.
Proof.
  destruct s as [|c s]; [done|]. intros [Hc _]%andb_true_iff.
  destruct c as [[] [] [] [] [] [] [] []]; try discriminate Hc; reflexivity.
Qed.

(** A number is read back from its JSON. *)
Lemma as_int_num n : as_int (num n) = Some n.
Proof.
  assert (H : forall p, unsigned_of (pretty (Npos p)) = Some (Zpos p)).
  { intros p. destruct (pretty_N_all_digits (Npos p)) as [H1 H2]. by rewrite unsigned_of_digits, H2. }
  unfold num, as_int. destruct n as [|p|p]; [done| |].
  - change (pretty (Zpos p)) with (pretty (Npos p)).
    rewrite int_of_unsigned by apply pretty_N_all_digits. apply H.
  - assert (int_of (pretty (Zneg p)) = Z.opp <$> unsigned_of (pretty (Npos p))) as -> by done. by rewrite H.
Qed.
