(* ===== verification/PostRender.v ===== *)
(** The rendering half of [activities/post_review_results.activity.ts]: which
    findings can be attached to lines of the diff, the inline comments for those,
    the section of the walkthrough that lists the others, and the body with the
    marker by which a posted review is found again.  Strings are the UTF-8 bytes
    of the code's strings; the cap of the section counts bytes there too. *)
From stdpp Require Import base gmap sets list strings pretty.
From Stdlib Require Import ZArith Lia Ascii.
From S2P Require Import Prelude Findings.
Local Open Scope string_scope.

Definition nl : ascii := "010".
Definition newline : string := String nl "".
Definition dquote : string := String "034" "".
Definition lines (l : list string) : string := JsString.join newline l.

(** [s.split(c).join(r)]. *)
Definition replace_char (c : ascii) (r s : string) : string := JsString.join r (JsString.split c s).

(** * Inline comments *)

Definition SEVERITY_PREFIX (s : Severity) : string :=
  match s with
  | blocker => "🔴 Critical" | issue => "🟠 Major" | suggestion => "🟡 Minor" | nit => "🔵 Trivial"
  end.

Definition CATEGORY_REVIEW_TYPE (c : Category) : string :=
  match c with
  | bug | security | context_breaks_consumer => "⚠️ Potential issue"
  | performance | style | test | docs | config | other => "🛠️ Refactor suggestion"
  end.

Definition findingPrefixLine (f : finding) : string :=
  let reviewType := match severity f with
                    | nit => "🧹 Nitpick"
                    | _ => CATEGORY_REVIEW_TYPE (category f)
                    end in
  "_" +:+ reviewType +:+ "_ | _" +:+ SEVERITY_PREFIX (severity f) +:+ "_".

(** A kind without a rank counts 99. *)
Definition AUTHORITY_RANK (k : CitationKind) : nat :=
  match k with knowledge_chunk => 0 | repo_path => 1 | linter_rule => 2 | policy_rule => 99 end.

(** The first source of least rank. *)
Definition top_source (s : citation) (l : list citation) : citation :=
  fold_left (fun top s => if (AUTHORITY_RANK (c_kind s) <? AUTHORITY_RANK (c_kind top))%nat then s else top) l s.

Definition inlineSourceLine (sources : list citation) : string :=
  match sources with
  | [] => ""
  | s :: l => newline +:+ newline +:+ "> 📎 Source: `" +:+ c_locator (top_source s l) +:+ "`"
  end.

Definition KIND_LABEL (k : CitationKind) : string :=
  match k with
  | repo_path => "repo" | knowledge_chunk => "knowledge" | linter_rule => "linter" | policy_rule => "policy"
  end.

Definition formatExcerpt (excerpt : string) : string :=
  dquote +:+ replace_char "034" ("\" +:+ dquote) excerpt +:+ dquote.

Definition formatOneCitation (idx : nat) (c : citation) : string :=
  JsString.decimal idx +:+ ". **" +:+ KIND_LABEL (c_kind c) +:+ "** — `" +:+ c_locator c +:+ "`" +:+
  match c_excerpt c with
  | None | Some "" => ""
  | Some e => ": " +:+ formatExcerpt e
  end.

Definition renderSourcesBlock (sources : list citation) : string :=
  match sources with
  | [] => ""
  | _ => newline +:+ newline +:+ "---" +:+ newline +:+ "**Sources:**" +:+ newline +:+ newline +:+
         lines (imap (fun i c => formatOneCitation (S i) c) sources)
  end.

Definition suggestionBlock (s : string) : string :=
  newline +:+ newline +:+ "```suggestion" +:+ newline +:+ s +:+ newline +:+ "```".

(** [InlineComment], as [serialiseInline] writes it: the start of a comment on
    several lines is on the right side like its end. *)
Record comment := Comment { cm_path : string; cm_line : Z; cm_body : string; cm_start : option Z }.

Definition findingToInlineComment (f : finding) : comment :=
  Comment (f_file f) (end_line f)
    (findingPrefixLine f +:+ newline +:+ newline +:+ "**" +:+ title f +:+ "**" +:+ newline +:+ newline +:+
     body f +:+ inlineSourceLine (sources f) +:+
     match f_suggestion f with None | Some "" => "" | Some s => suggestionBlock s end +:+
     renderSourcesBlock (sources f))
    (if (start_line f =? end_line f)%Z then None else Some (start_line f)).

Definition markerFor (prId : string) : string := "<!-- codemaster:review-marker:" +:+ prId +:+ " -->".

Definition buildReviewBody (walkthroughMd prId droppedSectionMd : string) : string :=
  walkthroughMd +:+ newline +:+ newline +:+ markerFor prId +:+ newline +:+ droppedSectionMd.

(** * The diff-window classifier *)

Inductive drop_reason :=
  file_not_in_diff | line_after_last_hunk | line_before_first_hunk | line_spans_hunks | line_in_unchanged_gap.
#[export] Instance drop_reason_eq_dec : EqDecision drop_reason.
Proof. solve_decision. Defined.

Definition reason_name (r : drop_reason) : string :=
  match r with
  | file_not_in_diff => "file_not_in_diff" | line_after_last_hunk => "line_after_last_hunk"
  | line_before_first_hunk => "line_before_first_hunk" | line_spans_hunks => "line_spans_hunks"
  | line_in_unchanged_gap => "line_in_unchanged_gap"
  end.

Definition hunk : Type := Z * Z.

(** [Classification]: [None] is valid. *)
Record classification := Classification { cl_finding : finding; cl_drop : option drop_reason }.

Definition MIN_HUNKS_FOR_SPAN : nat := 2.

(** [Math.min] and [Math.max] of a non-empty array. *)
Definition math_min (l : list Z) : Z := match l with [] => 0 | x :: l' => foldr Z.min x l' end.
Definition math_max (l : list Z) : Z := match l with [] => 0 | x :: l' => foldr Z.max x l' end.

Definition isBeforeFirstHunk (f : finding) (ranges : list hunk) : bool :=
  (start_line f <? math_min (map fst ranges))%Z.
Definition isAfterLastHunk (f : finding) (ranges : list hunk) : bool :=
  (math_max (map snd ranges) <? end_line f)%Z.
Definition overlaps (f : finding) (h : hunk) : bool :=
  negb ((end_line f <? h.1) || (h.2 <? start_line f))%Z.
Definition spansMultipleHunks (f : finding) (ranges : list hunk) : bool :=
  (MIN_HUNKS_FOR_SPAN <=? length (List.filter (overlaps f) ranges))%nat.

Definition classifyDropReason (f : finding) (ranges : list hunk) : drop_reason :=
  if isBeforeFirstHunk f ranges then line_before_first_hunk
  else if isAfterLastHunk f ranges then line_after_last_hunk
  else if spansMultipleHunks f ranges then line_spans_hunks
  else line_in_unchanged_gap.

Definition findingAccepted (f : finding) (ranges : list hunk) : bool :=
  existsb (fun h => (h.1 <=? start_line f) && (end_line f <=? h.2))%Z ranges.

(** One step of the loop of [classifyFindingsAgainstDiff]. *)
Definition classify (ranges : gmap string (list hunk)) (f : finding) : classification :=
  match ranges !! f_file f with
  | None | Some [] => Classification f (Some file_not_in_diff)
  | Some hs =>
      if findingAccepted f hs then Classification f None
      else Classification f (Some (classifyDropReason f hs))
  end.

Definition classifyFindingsAgainstDiff (findings : list finding) (ranges : gmap string (list hunk))
    : list classification := map (classify ranges) findings.

(** * The section of the findings outside the diff *)

Inductive bucket := b_security | b_correctness | b_nits.
#[export] Instance bucket_eq_dec : EqDecision bucket.
Proof. solve_decision. Defined.

Definition SECURITY_RULE_PREFIXES : list string := ["gitleaks:"; "ruff:S"; "eslint:security/"; "eslint:no-eval"].
Definition CORRECTNESS_RULE_PREFIXES : list string :=
  ["ruff:F"; "ruff:E9"; "ruff:B"; "eslint:no-undef"; "eslint:no-unused-vars"].

Definition BUCKET_HEADERS (b : bucket) : string :=
  match b with
  | b_security => "**Security & secrets**" | b_correctness => "**Correctness**" | b_nits => "Style & nits"
  end.

Definition PER_BUCKET_CAP : nat := 15.
Definition SECTION_CAP : nat := 30.
Definition SECTION_CHAR_CAP : nat := 8 * 1024.
Definition SECTION_CHAR_CAP_SLACK : nat := 256.

Fixpoint ruleIdFromSources (l : list citation) : string :=
  match l with
  | [] => ""
  | s :: l' => match c_kind s with linter_rule => c_locator s | _ => ruleIdFromSources l' end
  end.

Definition findingBucket (f : finding) : bucket :=
  match category f with
  | security => b_security
  | bug | context_breaks_consumer => b_correctness
  | _ =>
      let ruleId := ruleIdFromSources (sources f) in
      if existsb (fun p => String.prefix p ruleId) SECURITY_RULE_PREFIXES then b_security
      else if existsb (fun p => String.prefix p ruleId) CORRECTNESS_RULE_PREFIXES then b_correctness
      else b_nits
  end.

Definition mdEscapeText (s : string) : string :=
  replace_char nl " " (replace_char "`" "\`" (replace_char "]" "\]" (replace_char "\" "\\" s))).

(** ** The web host ([config/github_host.ts]) *)

Fixpoint strip_slashes (s : string) : string :=
  match s with
  | "" => ""
  | String c s' =>
      match strip_slashes s' with
      | "" => if Ascii.eqb c "/" then "" else String c ""
      | t => String c t
      end
  end.

Definition strip_prefix (p s : string) : option string :=
  if String.prefix p s then Some (String.substring (String.length p) (String.length s - String.length p) s)
  else None.

Definition resolveGithubWebHost (env : option string) : string :=
  match env with
  | None | Some "" => "github.com"
  | Some v =>
      strip_slashes (match strip_prefix "https://" v with
                     | Some t => t
                     | None => default v (strip_prefix "http://" v)
                     end)
  end.

Section Links.
Variable web_host : option string.
Variables owner repo headSha : string.

Definition deepLink (path : string) (line : Z) : string :=
  let ref := if String.eqb headSha "" then "HEAD" else headSha in
  "https://" +:+ resolveGithubWebHost web_host +:+ "/" +:+ owner +:+ "/" +:+ repo +:+ "/blob/" +:+ ref +:+ "/"
  +:+ path +:+ "#L" +:+ pretty line.

Definition renderBulletLine (f : finding) : string :=
  let ruleId := ruleIdFromSources (sources f) in
  "- [`" +:+ mdEscapeText (f_file f) +:+ ":" +:+ pretty (start_line f) +:+ "`]("
  +:+ deepLink (f_file f) (start_line f) +:+ ")" +:+
  (if String.eqb ruleId "" then "" else " · " +:+ ruleId) +:+ " — " +:+ mdEscapeText (title f).

Definition more_line (n : nat) : list string :=
  if (0 <? n)%nat then ["- _… and " +:+ JsString.decimal n +:+ " more in the database_"] else [].

Definition renderTopBucketLines (b : bucket) (items : list finding) (truncationCount : nat) : list string :=
  [BUCKET_HEADERS b +:+ " (" +:+ JsString.decimal (length items) +:+ ")"; ""]
  ++ map renderBulletLine (take PER_BUCKET_CAP items) ++ more_line truncationCount ++ [""].

Definition renderNitsLines (nits : list finding) (suppressItems : bool) (truncationCount : nat) : list string :=
  let n := JsString.decimal (length nits) in
  if suppressItems
  then ["_" +:+ BUCKET_HEADERS b_nits +:+ " (" +:+ n +:+ ") — " +:+ n +:+ " more in the database_"; ""]
  else ["<details><summary>" +:+ BUCKET_HEADERS b_nits +:+ " (" +:+ n +:+ ") — click to expand</summary>"; ""]
       ++ map renderBulletLine (take PER_BUCKET_CAP nits) ++ more_line truncationCount
       ++ [""; "</details>"; ""].
End Links.

(** ** The character cap *)

(** The bytes of a UTF-8 sequence, by its first. *)
Definition utf8_width (c : ascii) : nat :=
  let n := nat_of_ascii c in
  if (n <? 192)%nat then 1 else if (n <? 224)%nat then 2 else if (n <? 240)%nat then 3 else 4.

(** The complete characters at the head of [s]; [pending] is the character
    under way, [k] the bytes it still misses. *)
Fixpoint utf8_chars (k : nat) (pending s : string) : list string :=
  match s with
  | "" => match k with O => match pending with "" => [] | p => [p] end | S _ => [] end
  | String c s' =>
      match k with
      | S k' => utf8_chars k' (pending +:+ String c "") s'
      | O => match pending with "" => [] | p => [p] end ++ utf8_chars (utf8_width c - 1) (String c "") s'
      end
  end.

Definition REPLACEMENT : string := String "239" (String "191" (String "189" "")).

Fixpoint drop_trailing (t : string) (l : list string) : list string :=
  match l with
  | [] => []
  | x :: l' => match drop_trailing t l' with
               | [] => if String.eqb x t then [] else [x]
               | l'' => x :: l''
               end
  end.

(** [encoded.subarray(0, n).toString("utf-8").replace(/\uFFFD+$/u, "")] of
    well-formed text. *)
Definition truncate_utf8 (n : nat) (s : string) : string :=
  JsString.join "" (drop_trailing REPLACEMENT (utf8_chars 0 "" (String.substring 0 n s))).

(** The matches of a literal; [skip] characters of one are still to be passed. *)
Fixpoint count_sub (sub : string) (skip : nat) (s : string) : nat :=
  match s with
  | "" => 0
  | String _ s' =>
      match skip with
      | S k => count_sub sub k s'
      | O => if String.prefix sub s then S (count_sub sub (String.length sub - 1) s') else count_sub sub 0 s'
      end
  end.

Fixpoint repeat_string (n : nat) (s : string) : string :=
  match n with O => "" | S n' => s +:+ repeat_string n' s end.

Definition cap_footer : string :=
  newline +:+ newline +:+ "_… section truncated; remaining findings recorded in the review database._".

Definition applyCharacterCap (rendered : string) : string :=
  if (String.length rendered <=? SECTION_CHAR_CAP)%nat then rendered
  else
    let truncated := truncate_utf8 (SECTION_CHAR_CAP - SECTION_CHAR_CAP_SLACK) rendered in
    let openCount := (count_sub "<details>" 0 truncated - count_sub "</details>" 0 truncated)%nat in
    truncated +:+ cap_footer +:+ repeat_string openCount (newline +:+ "</details>").

Definition dropped_findings (l : list classification) : list finding :=
  omap (fun c => match cl_drop c with Some _ => Some (cl_finding c) | None => None end) l.

Definition of_bucket (b : bucket) (l : list finding) : list finding :=
  List.filter (fun f => bool_decide (findingBucket f = b)) l.

Definition renderDroppedFindingsSection (web_host : option string) (owner repo headSha : string)
    (l : list classification) : string :=
  let dropped := dropped_findings l in
  match dropped with
  | [] => ""
  | _ =>
      let top b := match of_bucket b dropped with
                   | [] => []
                   | items => renderTopBucketLines web_host owner repo headSha b items
                                (length items - PER_BUCKET_CAP)
                   end in
      let nits := of_bucket b_nits dropped in
      applyCharacterCap (lines (
        [newline +:+ "---" +:+ newline;
         "### Additional findings detected (" +:+ JsString.decimal (length dropped) +:+ ")"; "";
         "These findings were detected during review but could not be attached to inline comments automatically.";
         ""] ++ top b_security ++ top b_correctness ++
        match nits with
        | [] => []
        | _ => renderNitsLines web_host owner repo headSha nits (SECTION_CAP <? length dropped)%nat
                 (length nits - PER_BUCKET_CAP)
        end))
  end.

(** * Lemmas *)

Lemma foldr_min_le l y : (foldr Z.min y l <= y)%Z /\ forall x, x ∈ l -> (foldr Z.min y l <= x)%Z.
Proof.
  induction l as [|z l [IH1 IH2]]; simpl; [split; [lia|by intros x Hx%elem_of_nil]|].
  split; [lia|]. intros x [->|Hx%IH2]%elem_of_cons; lia.
Qed.

Lemma math_min_le l x : x ∈ l -> (math_min l <= x)%Z.
Proof.
  destruct l as [|y l]; [by intros ?%elem_of_nil|]. simpl. destruct (foldr_min_le l y) as [H1 H2].
  intros [->|Hx]%elem_of_cons; auto.
Qed.

Lemma math_min_in l : l <> [] -> math_min l ∈ l.
Proof.
  destruct l as [|y l]; [done|]. intros _. simpl. revert y.
  induction l as [|z l IH]; intros y; simpl; [by left|]. specialize (IH y).
  destruct (Z.min_spec z (foldr Z.min y l)) as [[_ ->]|[_ ->]]; [right; by left|].
  apply elem_of_cons in IH as [->|?]; [by left|by do 2 right].
Qed.

Lemma math_max_opp l : math_max l = (- math_min (map Z.opp l))%Z.
Proof.
  destruct l as [|y l]; [done|]. simpl. induction l as [|z l IH]; simpl; lia.
Qed.

Lemma math_max_ge l x : x ∈ l -> (x <= math_max l)%Z.
Proof.
  intros Hx. rewrite math_max_opp. pose proof (math_min_le (map Z.opp l) (- x)) as H.
  rewrite list_elem_of_fmap in H. specialize (H (ex_intro _ x (conj eq_refl Hx))). lia.
Qed.

Lemma math_max_in l : l <> [] -> math_max l ∈ l.
Proof.
  intros Hl. rewrite math_max_opp.
  assert (H : math_min (map Z.opp l) ∈ map Z.opp l) by (apply math_min_in; by destruct l).
  apply list_elem_of_fmap in H as (x & -> & Hx). by rewrite Z.opp_involutive.
Qed.

(** The line range of the finding lies in the hunk, or meets it. *)
Definition inside (f : finding) (h : hunk) : Prop := (h.1 <= start_line f /\ end_line f <= h.2)%Z.
Definition meets (f : finding) (h : hunk) : Prop := (h.1 <= end_line f /\ start_line f <= h.2)%Z.

Lemma overlaps_meets f h : overlaps f h = true <-> meets f h.
Proof. unfold overlaps, meets. rewrite negb_true_iff, orb_false_iff, !Z.ltb_ge. tauto. Qed.

Lemma findingAccepted_inside f hs : findingAccepted f hs = true <-> exists h, h ∈ hs /\ inside f h.
Proof.
  unfold findingAccepted. rewrite existsb_exists. unfold inside.
  split; intros (h & Hh & H); exists h; rewrite ?list_elem_of_In in *; (split; [done|]); bool_to_prop; lia.
Qed.

Lemma two_filtered {A} (p : A -> bool) l :
  (2 <= length (List.filter p l))%nat <->
  exists i j x y, (i < j)%nat /\ l !! i = Some x /\ l !! j = Some y /\ p x = true /\ p y = true.
Proof.
  assert (H1 : forall l, (1 <= length (List.filter p l))%nat <-> exists i x, l !! i = Some x /\ p x = true).
  { clear. intros l. split.
    - destruct (List.filter p l) as [|x l'] eqn:E; simpl; [lia|]. intros _.
      assert (Hx : In x (List.filter p l)) by (rewrite E; by left). apply filter_In in Hx as [Hx Hp].
      apply list_elem_of_In, list_elem_of_lookup in Hx as [i Hi]. eauto.
    - intros (i & x & Hi & Hp). assert (Hx : In x (List.filter p l)).
      { apply filter_In. split; [|done]. apply list_elem_of_In. by eapply list_elem_of_lookup_2. }
      destruct (List.filter p l); [done|simpl; lia]. }
  induction l as [|x l IH]; simpl.
  - split; [lia|]. by intros (? & ? & ? & ? & _ & ? & _).
  - destruct (p x) eqn:Ex; simpl.
    + rewrite <- Nat.succ_le_mono, H1. split.
      * intros (i & y & Hi & Hp). exists 0%nat, (S i), x, y. split_and!; [lia|done..].
      * intros ([|i] & [|j] & y & z & Hij & Hi & Hj & Hp & Hq); try lia; eauto.
    + rewrite IH. split.
      * intros (i & j & y & z & ? & ? & ? & ? & ?). exists (S i), (S j), y, z. split_and!; [lia|done..].
      * intros ([|i] & [|j] & y & z & Hij & Hi & Hj & Hp & Hq); try lia; [simpl in *; congruence|].
        exists i, j, y, z. split_and!; [lia|done..].
Qed.

Lemma before_first f hs : hs <> [] -> isBeforeFirstHunk f hs = true <-> forall h, h ∈ hs -> (start_line f < h.1)%Z.
Proof.
  intros Hn. unfold isBeforeFirstHunk. rewrite Z.ltb_lt. split.
  - intros H h Hh. pose proof (math_min_le (map fst hs) h.1) as Hm. rewrite list_elem_of_fmap in Hm.
    specialize (Hm (ex_intro _ h (conj eq_refl Hh))). lia.
  - intros H. pose proof (math_min_in (map fst hs)) as Hm.
    destruct (proj1 (list_elem_of_fmap _ _ _) (Hm ltac:(by destruct hs))) as (h & -> & Hh). by apply H.
Qed.

Lemma after_last f hs : hs <> [] -> isAfterLastHunk f hs = true <-> forall h, h ∈ hs -> (h.2 < end_line f)%Z.
Proof.
  intros Hn. unfold isAfterLastHunk. rewrite Z.ltb_lt. split.
  - intros H h Hh. pose proof (math_max_ge (map snd hs) h.2) as Hm. rewrite list_elem_of_fmap in Hm.
    specialize (Hm (ex_intro _ h (conj eq_refl Hh))). lia.
  - intros H. pose proof (math_max_in (map snd hs)) as Hm.
    destruct (proj1 (list_elem_of_fmap _ _ _) (Hm ltac:(by destruct hs))) as (h & -> & Hh). by apply H.
Qed.

Lemma spans_two f hs :
  spansMultipleHunks f hs = true <->
  exists i j h k, (i < j)%nat /\ hs !! i = Some h /\ hs !! j = Some k /\ meets f h /\ meets f k.
Proof.
  unfold spansMultipleHunks, MIN_HUNKS_FOR_SPAN. rewrite Nat.leb_le, two_filtered.
  split; intros (i & j & h & k & H); exists i, j, h, k; rewrite !overlaps_meets in *; done.
Qed.

Lemma includes_app t a b : JsString.includes t (a +:+ t +:+ b) = true.
Proof.
  assert (H : forall u v, String.prefix u (u +:+ v) = true) by (induction u as [|c u IH]; simpl; [by destruct v|];
    intros v; destruct (ascii_dec c c); [apply IH|done]).
  induction a as [|c a IH]; simpl.
  - change ("" +:+ t +:+ b) with (t +:+ b). pose proof (H t b) as Hp. destruct (t +:+ b); cbn [JsString.includes]; by rewrite Hp.
  - rewrite IH. apply orb_true_r.
Qed.

Lemma append_assoc (a b c : string) : (a +:+ b) +:+ c = a +:+ b +:+ c.
Proof. induction a as [|x a IH]; [done|]. change (String x ((a +:+ b) +:+ c) = String x (a +:+ b +:+ c)). by rewrite IH. Qed.

(** The body of a review carries the marker of its pull request. *)
Lemma body_has_marker w id d : JsString.includes (markerFor id) (buildReviewBody w id d) = true.
Proof.
  unfold buildReviewBody. set (m := markerFor id).
  replace (w +:+ newline +:+ newline +:+ m +:+ newline +:+ d)
    with ((w +:+ newline +:+ newline) +:+ m +:+ (newline +:+ d)) by (by rewrite !append_assoc).
  apply includes_app.
Qed.

(** * The classifier *)

(** What each outcome of the classifier says of the finding [f] and the hunks [hs] of
    its file; the reasons are tried in this order. *)
Definition before_all (f : finding) (hs : list hunk) : Prop := forall h, h ∈ hs -> (start_line f < h.1)%Z.
Definition after_all (f : finding) (hs : list hunk) : Prop := forall h, h ∈ hs -> (h.2 < end_line f)%Z.
Definition meets_two (f : finding) (hs : list hunk) : Prop :=
  exists i j h k, (i < j)%nat /\ hs !! i = Some h /\ hs !! j = Some k /\ meets f h /\ meets f k.

Definition explains (f : finding) (hs : list hunk) (r : option drop_reason) : Prop :=
  match r with
  | None => exists h, h ∈ hs /\ inside f h
  | Some file_not_in_diff => hs = []
  | Some reason =>
      hs <> [] /\ ~ (exists h, h ∈ hs /\ inside f h) /\
      match reason with
      | file_not_in_diff => False
      | line_before_first_hunk => before_all f hs
      | line_after_last_hunk => ~ before_all f hs /\ after_all f hs
      | line_spans_hunks => ~ before_all f hs /\ ~ after_all f hs /\ meets_two f hs
      | line_in_unchanged_gap => ~ before_all f hs /\ ~ after_all f hs /\ ~ meets_two f hs
      end
  end.

Lemma explains_unique f hs r r' : explains f hs r -> explains f hs r' -> r = r'.
Proof.
  assert (Hn : ~ explains f [] None) by by intros (h & Hh%elem_of_nil & _).
  destruct r as [[]|], r' as [[]|]; simpl; try done; intros H1 H2; subst; try done; exfalso; try by apply Hn.
  all: intuition.
Qed.

Lemma classifyDropReason_explains f hs :
  hs <> [] -> findingAccepted f hs = false -> explains f hs (Some (classifyDropReason f hs)).
Proof.
  intros Hn Hacc.
  assert (Hno : ~ exists h, h ∈ hs /\ inside f h) by (rewrite <- findingAccepted_inside; by rewrite Hacc).
  pose proof (before_first f hs Hn) as Hb. pose proof (after_last f hs Hn) as Ha. pose proof (spans_two f hs) as Hs.
  fold (before_all f hs) in Hb. fold (after_all f hs) in Ha. fold (meets_two f hs) in Hs.
  unfold classifyDropReason. revert Hb Ha Hs.
  destruct (isBeforeFirstHunk f hs), (isAfterLastHunk f hs), (spansMultipleHunks f hs); simpl; intuition discriminate.
Qed.

(** The classifier against the diff.  A finding is kept exactly when one hunk of
    its file holds its lines; otherwise it is dropped, and the reason given is the
    true one, the first that applies of: the file has no hunk, the finding begins
    before every hunk, it ends after every hunk, it meets two hunks, none of these. *)
Theorem classify_explains ranges f r :
  cl_drop (classify ranges f) = r <-> explains f (default [] (ranges !! f_file f)) r.
Proof.
  assert (H : explains f (default [] (ranges !! f_file f)) (cl_drop (classify ranges f))).
  { unfold classify. destruct (ranges !! f_file f) as [[|h hs]|]; [done| |done]. cbn [default from_option id].
    destruct (findingAccepted f (h :: hs)) eqn:E; [by apply findingAccepted_inside|].
    by apply classifyDropReason_explains. }
  split; [by intros <-|]. intros Hr. by eapply explains_unique.
Qed.

(** * The cap *)

Fixpoint total (l : list string) : nat := match l with [] => 0 | x :: l' => String.length x + total l' end.

Lemma length_join l : String.length (JsString.join "" l) = total l.
Proof.
  induction l as [|x l IH]; [done|]. destruct l as [|y l]; [simpl; lia|].
  change (JsString.join "" (x :: y :: l)) with (x +:+ "" +:+ JsString.join "" (y :: l)).
  rewrite !JsString.length_append, IH. done.
Qed.

Lemma total_utf8 s k p : (total (utf8_chars k p s) <= String.length p + String.length s)%nat.
Proof.
  revert k p. induction s as [|c s IH]; intros k p; simpl.
  - destruct k; simpl; [|lia]. destruct p; simpl; lia.
  - destruct k as [|k].
    + pose proof (IH (utf8_width c - 1)%nat (String c "")) as H. simpl in H. destruct p; simpl; lia.
    + pose proof (IH k (p +:+ String c "")) as H. rewrite JsString.length_append in H. simpl in H. lia.
Qed.

Lemma total_drop_trailing t l : (total (drop_trailing t l) <= total l)%nat.
Proof.
  induction l as [|x l IH]; [done|]. simpl. destruct (drop_trailing t l); [|simpl in *; lia].
  destruct (String.eqb x t); simpl; lia.
Qed.

Lemma length_substring n s : (String.length (String.substring 0 n s) <= n)%nat.
Proof. revert s. induction n as [|n IH]; intros [|c s]; simpl; try lia. specialize (IH s). lia. Qed.

Lemma length_truncate n s : (String.length (truncate_utf8 n s) <= n)%nat.
Proof.
  unfold truncate_utf8. rewrite length_join. etrans; [apply total_drop_trailing|]. etrans; [apply total_utf8|].
  apply length_substring.
Qed.

Lemma length_repeat_string n s : String.length (repeat_string n s) = (n * String.length s)%nat.
Proof. induction n as [|n IH]; [done|]. simpl repeat_string. rewrite JsString.length_append, IH. lia. Qed.

(** The section keeps to its cap as long as the cut leaves at most fifteen [<details>]
    open: the slack has room for their closing tags, and for no more. *)
Lemma applyCharacterCap_bound s :
  let t := truncate_utf8 (SECTION_CHAR_CAP - SECTION_CHAR_CAP_SLACK) s in
  let opens := (count_sub "<details>" 0 t - count_sub "</details>" 0 t)%nat in
  (opens <= 15)%nat -> (String.length (applyCharacterCap s) <= SECTION_CHAR_CAP)%nat.
Proof.
  intros t opens Ho. unfold applyCharacterCap. fold t. fold opens.
  destruct (String.length s <=? SECTION_CHAR_CAP)%nat eqn:E; [by apply Nat.leb_le|].
  rewrite !JsString.length_append, length_repeat_string.
  pose proof (length_truncate (SECTION_CHAR_CAP - SECTION_CHAR_CAP_SLACK) s) as Ht. fold t in Ht.
  assert (Hf : (String.length cap_footer <= 80)%nat) by (vm_compute; lia).
  assert (Hd : String.length (newline +:+ "</details>") = 11%nat) by reflexivity. rewrite Hd.
  unfold SECTION_CHAR_CAP, SECTION_CHAR_CAP_SLACK in *. lia.
Qed.
