(* ===== verification/PostReview.v ===== *)
(** [activities/post_review_results.activity.ts], from the publication ladder on:
    the claim of a pull request in [core.posted_reviews], the review on GitHub, and
    the row that remembers it.  A run is a program of [Programs] over the row, the
    run pointer and the client of [GithubReviews]; it may be killed, lose its
    connection, or find that others have moved between two effects. *)
From Stdlib Require Import QArith.
From stdpp Require Import base gmap sets list strings pretty.
From Stdlib Require Import ZArith Lia Ascii.
From S2P Require Import Prelude Json ReviewPayload WebhookPayload RunLifecycle Findings PipelineHelpers Degradation.
From S2P Require Import Programs GithubApi GithubReviews PostRender.
Local Open Scope Z_scope.
Local Open Scope prog_scope.

(** * The table *)

Record posted_row := PostedRow {
  github_review_id : option Z;
  pw_marker : string;
  posted_at : Z;                            (* microseconds *)
  pw_updated_at : Z;
  publication_outcome : PublicationOutcome;
  pw_comment_ids : json;
}.

(** The CHECKs: a degraded row is the one without a review, and [comment_ids] is an
    array. *)
Definition row_check (r : posted_row) : bool :=
  match publication_outcome r, github_review_id r with
  | degraded_unposted, None => true
  | degraded_unposted, Some _ => false
  | _, Some _ => true
  | _, None => false
  end && match pw_comment_ids r with JArr _ => true | _ => false end.

Record post_db := PostDb {
  posted : gmap string posted_row;
  pcore : core_db;
  (** [now()] of the transaction. *)
  db_now : Z;
}.

Definition set_posted_rows (t : gmap string posted_row) (d : post_db) : post_db := PostDb t (pcore d) (db_now d).

(** * Errors *)

(** What [buildDroppedStateDetails] packs. *)
Record dropped_state := DroppedState {
  ds_dropped : list dropped_classification;
  ds_kept : list Z;
  ds_pr_id : string;
}.

Inductive post_error :=
| TerminalCancelError
| RunError (e : run_error)
| CapExceeded (kept : nat)
| LengthMismatch (got want : nat)
| RowMissing
| InFlight (age : Z)
| ZodError
| PostFailed (update_path : bool) (d : dropped_state) (cause : post_error)
| ApiError (e : api_error)
| TransportError
| DbError (sqlstate : string).

Definition post_fault : post_error := DbError "08006".

Abbreviation S := (github post_db post_error).
Abbreviation prog := (prog S).
Abbreviation raise e := (@Raise S _ e).

(** * The envelope *)

(** [PostedReviewV1]; [marker_comment_id] is always null. *)
Record posted_review_v1 := PostedReviewV1 {
  pv_review_id : option Z;
  pv_was_update : bool;
  pv_inline_comment_count : nat;
  pv_comment_ids : list Z;
  pv_kept : list Z;
  pv_outcome : PublicationOutcome;
  pv_notes : list string;
  pv_dropped : list dropped_classification;
}.

(** What the pipeline reads of it. *)
Definition captured (p : posted_review_v1) : posted_review :=
  PostedReview (pv_review_id p) (pv_comment_ids p) (pv_kept p) (pv_outcome p) (pv_notes p) (pv_dropped p).

(** The outcome is degraded exactly when there is no review. *)
Definition outcome_iff (id : option Z) (o : PublicationOutcome) : bool :=
  match o, id with
  | degraded_unposted, None => true
  | degraded_unposted, Some _ => false
  | _, Some _ => true
  | _, None => false
  end.

(** [PostedReviewV1.parse]: a review id is null or an integer from 1 on. *)
Definition parsePosted (review_id : option js_num) (was_update : bool) (count : nat) (comment_ids : list js_num)
    (kept : list Z) (o : PublicationOutcome) (notes : list string) (dropped : list dropped_classification)
    : prog posted_review_v1 :=
  let id := match review_id with
            | None => Some None
            | Some (Some n) => if 1 <=? n then Some (Some n) else None
            | Some None => None
            end in
  match id, all_some comment_ids with
  | Some id, Some ids =>
      if outcome_iff id o then Return (PostedReviewV1 id was_update count ids kept o notes dropped)
      else raise ZodError
  | _, _ => raise ZodError
  end.

(** * The input *)

Record post_input := PostInput {
  pi_findings : list finding;
  pi_pr_id : string;
  pi_head_sha : string;
  pi_walkthrough_md : string;
  pi_pr : pr_ref;
  pi_run_id : string;
  pi_review_id : string;
  pi_ranges : gmap string (list hunk);
}.

(** [DoPostDeps]; [dp_signal] tells whether there is a signal. *)
Record post_deps := PostDeps {
  dp_client : GhReviewClient S;
  dp_window : Z;
  dp_takeover : bool;
  dp_signal : bool;
}.

Definition MAX_INLINE_COMMENTS_PER_REVIEW : nat := 50.
Definition IN_FLIGHT_WINDOW_SECONDS_DEFAULT : Z := 300.

Definition serialiseInline (c : comment) : json :=
  JObj ([("path", JStr (cm_path c)); ("line", num (cm_line c)); ("side", JStr "RIGHT"); ("body", JStr (cm_body c))]
        ++ match cm_start c with
           | Some l => [("start_line", num l); ("start_side", JStr "RIGHT")]
           | None => []
           end).

Definition keptFindings (l : list classification) : list finding :=
  omap (fun c => match cl_drop c with None => Some (cl_finding c) | Some _ => None end) l.

(** [.map((c, i) => ...).filter(...)]. *)
Definition indexed {A B} (f : Z -> A -> option B) (l : list A) : list B :=
  omap id (imap (fun i x => f (Z.of_nat i) x) l).

Definition keptIndices (l : list classification) : list Z :=
  indexed (fun i c => match cl_drop c with None => Some i | Some _ => None end) l.
Definition droppedClassifications (l : list classification) : list dropped_classification :=
  indexed (fun i c => match cl_drop c with Some r => Some (Dropped i (reason_name r)) | None => None end) l.

(** [parseStoredCommentIds] of the column. *)
Definition parseStoredCommentIds (v : json) : list Z :=
  match v with
  | JArr l => default [] (all_some (map as_int l))
  | _ => []
  end.

(** * The transactions *)

Definition new_row (marker : string) (now : Z) : posted_row :=
  PostedRow None marker now now degraded_unposted (JArr []).

(** Phase 1: the guard, then the insert that only one caller makes. *)
Definition claim (i : post_input) (event_id : string) (clock_now : Z) (d : post_db)
    : result post_error (post_db * bool) :=
  match assertCurrentRun true (pi_run_id i) (pi_review_id i) "post_review_results._do_post" event_id clock_now
          (pcore d) [] with
  | (_, _, Throw e) => Throw (RunError e)
  | (core', _, Ok _) =>
      match posted d !! pi_pr_id i with
      | Some _ => Ok (PostDb (posted d) core' (db_now d), false)
      | None =>
          Ok (PostDb (<[pi_pr_id i := new_row (markerFor (pi_pr_id i)) (db_now d)]> (posted d)) core' (db_now d), true)
      end
  end.

Definition bigint (n : Z) : bool := (- 2 ^ 63 <=? n) && (n <? 2 ^ 63).

Definition update_row (pr : string) (g : posted_row -> posted_row) (d : post_db) : result post_error (post_db * bool) :=
  match posted d !! pr with
  | None => Ok (d, false)
  | Some r =>
      let r' := g r in
      if row_check r' then Ok (set_posted_rows (<[pr := r']> (posted d)) d, true) else Throw (DbError "23514")
  end.

(** The UPDATE that stores a review; [fenced] adds [github_review_id IS NULL]. *)
Definition store_review (fenced : bool) (pr : string) (id : js_num) (o : PublicationOutcome) (ids : list js_num)
    (d : post_db) : result post_error (post_db * bool) :=
  match id with
  | None => Throw (DbError "22P02")
  | Some n =>
      if negb (bigint n) then Throw (DbError "22003")
      else if fenced && match posted d !! pr with Some r => bool_decide (is_Some (github_review_id r)) | None => false end
      then Ok (d, false)
      else update_row pr (fun r => PostedRow (Some n) (pw_marker r) (posted_at r) (db_now d) o
                                     (JArr (map json_num ids))) d
  end.

Definition mark_degraded (pr : string) (d : post_db) : result post_error (post_db * bool) :=
  update_row pr (fun r => PostedRow (github_review_id r) (pw_marker r) (posted_at r) (db_now d) degraded_unposted
                            (pw_comment_ids r)) d.

Definition read_row (pr : string) (d : post_db) : result post_error (post_db * option (posted_row * Z)) :=
  Ok (d, (fun r => (r, db_now d - posted_at r)) <$> posted d !! pr).

(** * The program *)

Definition throwIfAborted (signal : bool) : prog unit :=
  if signal then await a := @call S c_aborted in if a then raise TerminalCancelError else Return tt
  else Return tt.

Record publication := Publication {
  pb_created : option created_review;
  pb_inline : bool;
  pb_notes : list string;
}.

Section Post.
Variable i : post_input.
Variable deps : post_deps.
(** What the ladder of the guard's forensic row needs. *)
Variables (event_id : string) (clock_now : Z) (web_host : option string).

Let client := dp_client deps.
Let classifications := classifyFindingsAgainstDiff (pi_findings i) (pi_ranges i).
Let kept := keptFindings classifications.
Let dropped := droppedClassifications classifications.
Let indices := keptIndices classifications.

Definition review_body : string :=
  buildReviewBody (pi_walkthrough_md i) (pi_pr_id i)
    (renderDroppedFindingsSection web_host (pr_owner (pi_pr i)) (pr_repo (pi_pr i)) (pi_head_sha i) classifications).

Definition inline_payload : list json := map (fun f => serialiseInline (findingToInlineComment f)) kept.

Definition create (comments : list json) : prog created_review :=
  createReview client (pi_pr i) review_body (pi_head_sha i) comments.

Definition attemptCreateWithBodyOnlyFallback : prog publication :=
  attempt (create inline_payload) (fun r =>
    match r with
    | Ok c => Return (Publication (Some c) true [])
    | Throw (ApiError GitHubUnprocessableError) =>
        attempt (create []) (fun r =>
          match r with
          | Ok c => Return (Publication (Some c) false ["github_422_on_inline_post"])
          | Throw (ApiError GitHubUnprocessableError) =>
              Return (Publication None false ["github_422_on_inline_post"; "github_422_on_body_only_retry"])
          | Throw e => raise e
          end)
    | Throw e => raise e
    end).

(** The [catch] of H-2. *)
Definition preserving {A} (update_path : bool) (q : prog A) : prog A :=
  attempt q (fun r => match r with
                      | Ok a => Return a
                      | Throw e => raise (PostFailed update_path (DroppedState dropped indices (pi_pr_id i)) e)
                      end).

Definition degraded (notes : list string) : prog posted_review_v1 :=
  parsePosted None false 0 [] indices degraded_unposted notes dropped.

Definition won : prog posted_review_v1 :=
  await _ := throwIfAborted (dp_signal deps) in
  await p := preserving false attemptCreateWithBodyOnlyFallback in
  match pb_created p with
  | None =>
      await _ := @tx S _ (mark_degraded (pi_pr_id i)) in
      degraded (pb_notes p)
  | Some c =>
      if pb_inline p && negb (length (cr_commentIds c) =? length kept)%nat
      then raise (LengthMismatch (length (cr_commentIds c)) (length kept))
      else
        let o := if pb_inline p then inline_posted else body_only_posted in
        let ids := if pb_inline p then cr_commentIds c else [] in
        await _ := @tx S _ (store_review false (pi_pr_id i) (cr_reviewId c) o ids) in
        parsePosted (Some (cr_reviewId c)) false (if pb_inline p then length inline_payload else 0%nat) ids indices o
          (pb_notes p) dropped
  end.

Inductive takeover :=
| Recovered (reviewId : js_num) (commentIds : list js_num) (o : PublicationOutcome) (notes : list string)
| Degraded (notes : list string)
| Raced.

Definition cas (id : js_num) (ids : list js_num) (o : PublicationOutcome) (notes : list string) : prog takeover :=
  await stored := @tx S _ (store_review true (pi_pr_id i) id o ids) in
  Return (if (stored : bool) then Recovered id ids o notes else Raced).

Definition attemptSameRunTakeover : prog takeover :=
  await found := findExistingReviewByMarker client (pi_pr i) (markerFor (pi_pr_id i)) in
  match found with
  | Some id =>
      await ids := listReviewComments client (pi_pr i) id in
      cas id ids (match ids with [] => body_only_posted | _ => inline_posted end) []
  | None =>
      await _ := throwIfAborted (dp_signal deps) in
      await p := attemptCreateWithBodyOnlyFallback in
      match pb_created p with
      | None => Return (Degraded (pb_notes p))
      | Some c => cas (cr_reviewId c) (cr_commentIds c) (if pb_inline p then inline_posted else body_only_posted)
                    (pb_notes p)
      end
  end.

(** The end of the lost path, with the row as last read. *)
Definition lost (r : posted_row) (age : Z) : prog posted_review_v1 :=
  match github_review_id r with
  | None =>
      if age <? dp_window deps * 1000000 then raise (InFlight age)
      else degraded ["prior_workflow_terminal_uncertainty"]
  | Some id =>
      await _ := throwIfAborted (dp_signal deps) in
      await _ := preserving true (updateReview client (pi_pr i) (Some id) review_body) in
      parsePosted (Some (Some id)) true (length inline_payload) (map Some (parseStoredCommentIds (pw_comment_ids r)))
        indices (publication_outcome r) [] dropped
  end.

Definition lost_claim : prog posted_review_v1 :=
  await row := @tx S _ (read_row (pi_pr_id i)) in
  match row with
  | None => raise RowMissing
  | Some (r, age) =>
      match github_review_id r, dp_takeover deps with
      | None, true =>
          await t := attemptSameRunTakeover in
          match t with
          | Recovered id ids o notes => parsePosted (Some id) true (length ids) ids indices o notes dropped
          | Degraded notes => degraded notes
          | Raced =>
              await again := @tx S _ (read_row (pi_pr_id i)) in
              lost (match again with Some (r', _) => r' | None => r end) age
          end
      | _, _ => lost r age
      end
  end.

Definition doPost : prog posted_review_v1 :=
  if negb (length kept <=? MAX_INLINE_COMMENTS_PER_REVIEW)%nat then raise (CapExceeded (length kept)) else
  await mine := @tx S _ (claim i event_id clock_now) in
  if (mine : bool) then won else lost_claim.
End Post.

(** * The contract of the client *)

(** A review of the pull request that carries the marker. *)
Record remote := Remote { rr_id : Z; rr_comments : list Z }.

(** [per_page] of GitHub's listings, which the client leaves at its default. *)
Definition PAGE : nat := 30.

Section Contract.
Context {G : Type}.
Context (answers : forall c, G -> G -> result post_error (gh_reply c) -> Prop).
Context (R : post_db * G -> post_db * G -> Prop).
(** The reviews of the pull request with the marker, and the pull request. *)
Context (mine : G -> list remote) (pr_id : string) (pr : pr_ref).

Abbreviation state := (post_db * G)%type.
Abbreviation wpc := (@wpc S G answers R post_fault _).
Abbreviation runs := (@Programs.runs S G answers R post_fault _).
Abbreviation sessions := (@Programs.sessions S G answers R post_fault _).

Definition row (s : state) : option posted_row := posted s.1 !! pr_id.
Definition still (s s' : state) : Prop := row s' = row s /\ mine s'.2 = mine s.2.
Definition grown (s s' : state) : Prop :=
  row s' = row s /\ (mine s'.2 = mine s.2 \/ exists x, mine s'.2 = mine s.2 ++ [x]).

(** The client has errors of its own. *)
Definition plain (e : post_error) : Prop := match e with PostFailed _ _ _ => False | _ => True end.

(** What the posting relies on.  A review is created when the client says so, is not
    when GitHub found the request unprocessable, and may be after any other error;
    the search by marker finds what there is; nothing else touches our reviews. *)
Class ReadsContract (client : GhReviewClient S) : Prop := {
  find_spec s :
    wpc (still s) (findExistingReviewByMarker client pr (markerFor pr_id))
      (fun r s' => match r with
                   | Ok None => mine s'.2 = []
                   | Ok (Some id) => exists x, x ∈ mine s'.2 /\ id = Some (rr_id x)
                   | Throw e => plain e
                   end) s;
  list_spec s x :
    x ∈ mine s.2 ->
    wpc (still s) (listReviewComments client pr (Some (rr_id x)))
      (fun r _ => match r with Ok ids => ids = take PAGE (map Some (rr_comments x)) | Throw e => plain e end) s;
}.

Class ReviewsContract (client : GhReviewClient S) : Prop := {
  #[global] contract_reads :: ReadsContract client;
  create_spec s text commit comments :
    JsString.includes (markerFor pr_id) text = true ->
    wpc (grown s) (createReview client pr text commit comments)
      (fun r s' => match r with
                   | Ok c => exists x, mine s'.2 = mine s.2 ++ [x] /\ cr_reviewId c = Some (rr_id x) /\
                       length (rr_comments x) = length comments /\
                       cr_commentIds c = take PAGE (map Some (rr_comments x))
                   | Throw (ApiError GitHubUnprocessableError) => still s s'
                   | Throw e => plain e
                   end) s;
  update_spec s id text :
    JsString.includes (markerFor pr_id) text = true ->
    wpc (still s) (updateReview client pr id text) (fun _ _ => True) s;
}.

(** Others leave the row and our reviews alone: the pull request is ours, by the
    mutex of [ShellMutex].  Looking at the signal does nothing. *)
Record exclusive : Prop := {
  ex_others s s1 : R s s1 -> still s s1;
  ex_look g g' r : answers c_aborted g g' r -> mine g' = mine g /\ exists b, r = Ok b;
}.

(** At most one review, and the row knows which. *)
Definition exact (s : state) : Prop :=
  match row s with
  | None => mine s.2 = []
  | Some r =>
      row_check r = true /\ pw_marker r = markerFor pr_id /\ (length (mine s.2) <= 1)%nat /\
      match github_review_id r with
      | Some id => exists x, mine s.2 = [x] /\ rr_id x = id
      | None => True
      end
  end.

(** The row of a claim that has no review yet. *)
Definition pending (s : state) : Prop :=
  exists r, row s = Some r /\ row_check r = true /\ pw_marker r = markerFor pr_id /\ github_review_id r = None.

Lemma exact_still s s' : still s s' -> exact s -> exact s'.
Proof. intros [H1 H2]. unfold exact. by rewrite H1, H2. Qed.

Lemma exact_pending s : pending s -> (length (mine s.2) <= 1)%nat -> exact s.
Proof. intros (r & Hr & Hc & Hm & Hi) Hl. unfold exact. rewrite Hr, Hi. by split_and!. Qed.

Lemma pending_still s s' : row s' = row s -> pending s -> pending s'.
Proof. intros H1 (r & Hr & H). exists r. by rewrite H1. Qed.

Lemma weaken {A} (I J : state -> Prop) (q : prog A) (P Q : result post_error A -> state -> Prop) (s : state) :
  (forall s', I s' -> J s') -> (forall r s', I s' -> P r s' -> Q r s') -> wpc I q P s -> wpc J q Q s.
Proof. exact (@wpc_mono S G answers R post_fault A I J q P Q s). Qed.

Lemma adequate {A} (I : state -> Prop) (q : prog A) (Q : result post_error A -> state -> Prop) (s : state) out s' :
  wpc I q Q s -> runs q s out s' -> I s' /\ forall r, out = Some r -> Q r s'.
Proof. exact (@wpc_adequate S G answers R post_fault A I q Q s out s'). Qed.

Lemma still_trans s1 s2 s3 : still s1 s2 -> still s2 s3 -> still s1 s3.
Proof. intros [H1 H2] [H3 H4]. split; congruence. Qed.

(** * Lemmas *)

Section Proofs.
Context {client : GhReviewClient S} `{HC : !ReviewsContract client} (HX : exclusive).
Context (i : post_input) (deps : post_deps) (event_id : string) (clock_now : Z) (web_host : option string).
Hypothesis Hclient : dp_client deps = client.
Hypothesis Hid : pi_pr_id i = pr_id.
Hypothesis Hpr : pi_pr i = pr.

Let classifications := classifyFindingsAgainstDiff (pi_findings i) (pi_ranges i).

Lemma body_marked : JsString.includes (markerFor pr_id) (review_body i web_host) = true.
Proof. unfold review_body. rewrite Hid. apply body_has_marker. Qed.

Lemma wpc_look (Q : result post_error unit -> state -> Prop) s :
  exact s -> (forall s', still s s' -> Q (Ok tt) s' /\ Q (Throw TerminalCancelError) s') ->
  wpc exact (throwIfAborted (dp_signal deps)) Q s.
Proof.
  intros Hs HQ. unfold throwIfAborted. destruct (dp_signal deps).
  2:{ split; [done|]. by apply HQ. }
  apply wpc_bind, wpc_call; [done|]. intros s1 g' r HR Ha.
  destruct (ex_look HX _ _ _ Ha) as [Hm [b ->]].
  assert (Hst : still s (s1.1, g')).
  { apply (ex_others HX) in HR. eapply still_trans; [done|]. by split. }
  pose proof (exact_still _ _ Hst Hs) as He. destruct (HQ _ Hst) as [H1 H2]. split; [done|]. by destruct b.
Qed.

(** A transaction on our row alone. *)
Lemma wpc_tx_row {X} I (f : post_db -> result post_error (post_db * X)) (Q : result post_error X -> state -> Prop) s :
  (forall s', still s s' -> I s' /\ Q (Throw post_fault) s' /\ (forall e, f s'.1 = Throw e -> Q (Throw e) s') /\
     forall d x, f s'.1 = Ok (d, x) -> I (d, s'.2) /\ Q (Ok x) (d, s'.2) /\ Q (Throw post_fault) (d, s'.2)) ->
  wpc I (@tx S _ f) Q s.
Proof.
  intros H. apply wpc_tx; [by apply H|]. intros s1 HR. apply H. by apply (ex_others HX).
Qed.

Definition published (s : state) (c : created_review) : Prop :=
  exists x, mine s.2 = [x] /\ cr_reviewId c = Some (rr_id x) /\ cr_commentIds c = take PAGE (map Some (rr_comments x)).

Lemma length_kept l : length (keptFindings l) = length (keptIndices l).
Proof.
  unfold keptFindings, keptIndices, indexed. generalize Z.of_nat as g.
  induction l as [|c l IH]; intros g; [done|]. rewrite imap_cons.
  pose proof (IH (g ∘ Datatypes.S)) as H. simpl. destruct (cl_drop c); simpl; [exact H|by f_equal].
Qed.

Lemma all_some_length {A} (l : list (option A)) out : all_some l = Some out -> length out = length l.
Proof.
  revert out. induction l as [|[x|] l IH]; intros out; simpl; [by intros [= <-]| |done].
  intros (ys & Hys & [= <-])%bind_Some. simpl. by rewrite (IH ys Hys).
Qed.

Lemma wpc_create s comments (Q : result post_error created_review -> state -> Prop) :
  pending s -> mine s.2 = [] ->
  (forall s', row s' = row s -> pending s' ->
     (forall c, published s' c -> Q (Ok c) s') /\
     (mine s'.2 = [] -> Q (Throw (ApiError GitHubUnprocessableError)) s') /\
     (forall e, e <> ApiError GitHubUnprocessableError -> plain e -> (length (mine s'.2) <= 1)%nat -> Q (Throw e) s')) ->
  wpc exact (create i deps web_host comments) Q s.
Proof.
  intros Hp Hm HQ. unfold create. rewrite Hclient, Hpr. eapply weaken, create_spec, body_marked.
  - intros s' [H1 H2]. apply exact_pending; [by apply (pending_still s)|]. rewrite Hm in H2.
    destruct H2 as [->|[x ->]]; simpl; lia.
  - intros r s' [H1 H2] H3. pose proof (pending_still _ _ H1 Hp) as Hp'. rewrite Hm in H2, H3.
    assert (Hl : (length (mine s'.2) <= 1)%nat) by (destruct H2 as [->|[x ->]]; simpl; lia).
    destruct (HQ s' H1 Hp') as (Q1 & Q2 & Q3). destruct r as [c|e].
    + apply Q1. destruct H3 as (x & Hx & Hc & _ & Hi). by exists x.
    + destruct e as [| | | | | | | |e| |]; try by apply Q3.
      destruct e; try by apply Q3. apply Q2. destruct H3 as [_ ->]. done.
Qed.

Lemma wpc_ladder s (Q : result post_error publication -> state -> Prop) :
  pending s -> mine s.2 = [] ->
  (forall s', row s' = row s -> pending s' ->
     (forall c b notes, published s' c -> Q (Ok (Publication (Some c) b notes)) s') /\
     (forall notes, mine s'.2 = [] -> Q (Ok (Publication None false notes)) s') /\
     (forall e, plain e -> (length (mine s'.2) <= 1)%nat -> Q (Throw e) s')) ->
  wpc exact (attemptCreateWithBodyOnlyFallback i deps web_host) Q s.
Proof.
  intros Hp Hm HQ. unfold attemptCreateWithBodyOnlyFallback. apply wpc_attempt, wpc_create; [done..|].
  intros s1 H1 Hp1. destruct (HQ s1 H1 Hp1) as (Q1 & _ & Q3). split_and!.
  - intros c Hc. apply wpc_return; [|by apply Q1]. apply exact_pending; [done|]. destruct Hc as (x & -> & _). simpl. lia.
  - intros Hm1. apply wpc_attempt, wpc_create; [done..|]. intros s2 H2 Hp2.
    assert (H12 : row s2 = row s) by congruence. destruct (HQ s2 H12 Hp2) as (R1 & R2 & R3). split_and!.
    + intros c Hc. apply wpc_return; [|by apply R1]. apply exact_pending; [done|].
      destruct Hc as (x & -> & _). simpl. lia.
    + intros Hm2. apply wpc_return; [|by apply R2]. apply exact_pending; [done|]. rewrite Hm2. simpl. lia.
    + intros e He Hpl Hl. destruct e as [| | | | | | | |[]| |]; try done; (apply wpc_raise; [by apply exact_pending|by apply R3]).
  - intros e He Hpl Hl. destruct e as [| | | | | | | |[]| |]; try done; (apply wpc_raise; [by apply exact_pending|by apply Q3]).
Qed.

Lemma stored_ids ids l : all_some ids = Some l -> parseStoredCommentIds (JArr (map json_num ids)) = l.
Proof.
  intros H. assert (all_some (map as_int (map json_num ids)) = Some l) as Hl; [|by unfold parseStoredCommentIds; rewrite Hl].
  revert l H. induction ids as [|[n|] ids IH]; intros l H; [done| |done]. simpl in H.
  destruct (all_some ids) as [l'|]; [|done]. injection H as <-. rewrite !map_cons. cbn [all_some].
  change (json_num (Some n)) with (num n). rewrite as_int_num. cbn [mbind option_bind]. unfold js_num in *. by rewrite (IH l' eq_refl).
Qed.

(** The row remembers the review [x] under the outcome [o]. *)
Definition recorded (s : state) (x : remote) (o : PublicationOutcome) (ids : list js_num) : Prop :=
  exact s /\ exists w, row s = Some w /\ github_review_id w = Some (rr_id x) /\ publication_outcome w = o /\
    pw_comment_ids w = JArr (map json_num ids).

Lemma store_ok fenced s x o ids d b :
  pending s -> mine s.2 = [x] -> o <> degraded_unposted ->
  store_review fenced pr_id (Some (rr_id x)) o ids s.1 = Ok (d, b) ->
  b = true /\ recorded (d, s.2) x o ids.
Proof.
  intros (r & Hr & Hc & Hm & Hi) Hx Ho. unfold store_review, update_row. fold (row s). rewrite Hr.
  destruct (negb (bigint (rr_id x))); [done|]. rewrite Hi, bool_decide_false by apply is_Some_None.
  rewrite andb_false_r. destruct (row_check (PostedRow _ _ _ _ _ _)) eqn:Ec; [|done]. intros [= <- <-]. split; [done|].
  assert (Hw : row (set_posted_rows (<[pr_id := PostedRow (Some (rr_id x)) (pw_marker r) (posted_at r) (db_now s.1) o
                 (JArr (map json_num ids))]> (posted s.1)) s.1, s.2)
             = Some (PostedRow (Some (rr_id x)) (pw_marker r) (posted_at r) (db_now s.1) o (JArr (map json_num ids)))).
  { unfold row. simpl. apply lookup_insert_eq. }
  split; [|by eexists]. unfold exact. rewrite Hw. simpl in *. rewrite Hx. split_and!; [done|done|simpl; lia|by exists x].
Qed.

Lemma update_row_throws pr' g d e : update_row pr' g d = Throw e -> exists c, e = DbError c.
Proof. unfold update_row. repeat case_match; try done. intros [= <-]. eauto. Qed.

Lemma store_throws fenced pr' id o ids d e : store_review fenced pr' id o ids d = Throw e -> exists c, e = DbError c.
Proof.
  unfold store_review. repeat case_match; try done; first [apply update_row_throws|intros [= <-]; eauto].
Qed.

Lemma wpc_store fenced s x o ids (Q : result post_error bool -> state -> Prop) :
  pending s -> mine s.2 = [x] -> o <> degraded_unposted ->
  (forall s', exact s' -> (forall c, Q (Throw (DbError c)) s') /\ (recorded s' x o ids -> Q (Ok true) s')) ->
  wpc exact (@tx S _ (store_review fenced pr_id (Some (rr_id x)) o ids)) Q s.
Proof.
  intros Hp Hx Ho HQ. apply wpc_tx_row. intros s' Hst.
  assert (Hp' : pending s') by (apply (pending_still s); [apply Hst|done]).
  assert (Hx' : mine s'.2 = [x]) by (rewrite <- Hx; apply Hst).
  assert (He : exact s') by (apply exact_pending; [done|rewrite Hx'; simpl; lia]).
  destruct (HQ s' He) as [Q1 _]. split_and!; [done|apply Q1|intros e Hf; destruct (store_throws _ _ _ _ _ _ _ Hf) as [c ->]; apply Q1|].
  intros d b Hf. destruct (store_ok _ _ _ _ _ _ _ Hp' Hx' Ho Hf) as [-> Hrec].
  destruct (HQ (d, s'.2)) as [Q2 Q3]; [by apply Hrec|]. split_and!; [by apply Hrec|by apply Q3|apply Q2].
Qed.

(** What the caller is told: the classification, and the row as it is; the comments of
    a new review are those of the findings kept. *)
Definition report (r : result post_error posted_review_v1) (s : state) : Prop :=
  match r with
  | Ok p =>
      pv_kept p = keptIndices classifications /\ pv_dropped p = droppedClassifications classifications /\
      (pv_was_update p = false -> pv_outcome p = inline_posted ->
         length (pv_comment_ids p) = length (pv_kept p) /\ (length (pv_comment_ids p) <= PAGE)%nat) /\
      exists w, row s = Some w /\ pv_review_id p = github_review_id w /\ pv_outcome p = publication_outcome w /\
        (is_Some (github_review_id w) -> pv_comment_ids p = parseStoredCommentIds (pw_comment_ids w))
  | Throw (PostFailed _ d _) =>
      d = DroppedState (droppedClassifications classifications) (keptIndices classifications) pr_id
  | Throw _ => True
  end.

Definition paired (u : bool) (o : PublicationOutcome) (ids : list js_num) : Prop :=
  u = false -> o = inline_posted -> length ids = length (keptIndices classifications) /\ (length ids <= PAGE)%nat.

Lemma wpc_parse id u n ids o notes s :
  exact s -> paired u o ids ->
  (exists w, row s = Some w /\ publication_outcome w = o /\ option_map Some (github_review_id w) = id /\
     (is_Some (github_review_id w) -> forall l, all_some ids = Some l -> l = parseStoredCommentIds (pw_comment_ids w))) ->
  wpc exact (parsePosted id u n ids (keptIndices classifications) o notes (droppedClassifications classifications))
    report s.
Proof.
  intros Hs Hpair (w & Hw & Ho & Hwid & Hids). unfold parsePosted.
  destruct (all_some ids) as [l|] eqn:El.
  2:{ by repeat case_match. }
  destruct id as [[z|]|]; [destruct (1 <=? z)|done|]; [|done|];
    (destruct (outcome_iff _ _); [|done]); (apply wpc_return; [done|]); simpl;
    (split_and!; [done|done|by rewrite (all_some_length _ _ El)|]); exists w; (split_and!; [done| |done|]); destruct (github_review_id w); simpl in Hwid;
    try congruence; intros Hsome; try (by destruct Hsome); by apply Hids.
Qed.

Lemma wpc_degraded s notes :
  exact s -> (exists w, row s = Some w /\ github_review_id w = None) -> wpc exact (degraded i notes) report s.
Proof.
  intros Hs (w & Hw & Hwid). apply wpc_parse; [done|done|]. exists w. rewrite Hwid. split_and!; [done| |done|by intros [? [=]]].
  unfold exact in Hs. rewrite Hw, Hwid in Hs. destruct Hs as (Hc & _). unfold row_check in Hc. rewrite Hwid in Hc.
  by destruct (publication_outcome w).
Qed.

Lemma wpc_recorded u n notes s x o ids :
  recorded s x o ids -> paired u o ids ->
  wpc exact (parsePosted (Some (Some (rr_id x))) u n ids (keptIndices classifications) o notes
               (droppedClassifications classifications)) report s.
Proof.
  intros (Hs & w & Hw & Hwid & Ho & Hids) Hpair. apply wpc_parse; [done|done|]. exists w.
  split_and!; [done|done|by rewrite Hwid|]. intros _ l Hl. by rewrite Hids, (stored_ids _ _ Hl).
Qed.

Lemma wpc_won s : pending s -> mine s.2 = [] -> wpc exact (won i deps web_host) report s.
Proof.
  intros Hp Hm. unfold won.
  assert (Hs : exact s) by (apply exact_pending; [done|rewrite Hm; simpl; lia]).
  apply wpc_bind, wpc_look; [done|]. intros s1 [H1 H2]. split; [|done].
  assert (Hp1 : pending s1) by by apply (pending_still s).
  apply wpc_bind. unfold preserving. apply wpc_attempt, wpc_ladder; [done|by rewrite H2|].
  intros s2 Hr2 Hp2. split_and!.
  - intros c inl notes (x & Hx & Hc & Hci).
    assert (Hs2 : exact s2) by (apply exact_pending; [done|rewrite Hx; simpl; lia]).
    split; [done|]. cbn [pb_created pb_inline pb_notes]. rewrite Hc.
    destruct (inl && _) eqn:Elen; [by apply wpc_raise|].
    assert (Hpair : paired false (if inl then inline_posted else body_only_posted) (if inl then cr_commentIds c else [])).
    { intros _. destruct inl; [|done]. intros _. apply negb_false_iff, Nat.eqb_eq in Elen. rewrite <- length_kept, Elen.
      split; [done|]. rewrite <- Elen, Hci, length_take. lia. } apply wpc_bind. rewrite Hid.
    apply (wpc_store false s2 x); [done..|by destruct inl|].
    intros s3 Hs3. split; [done|]. intros Hrec. destruct inl; by apply (wpc_recorded _ _ _ _ _ _ _ Hrec Hpair).
  - intros notes Hm2. assert (Hs2 : exact s2) by (apply exact_pending; [done|rewrite Hm2; simpl; lia]).
    split; [done|]. cbn [pb_created pb_notes]. apply wpc_bind, wpc_tx_row. rewrite Hid. intros s3 Hst3.
    assert (Hp3 : pending s3) by (apply (pending_still s2); [apply Hst3|done]).
    pose proof (exact_still _ _ Hst3 Hs2) as Hs3.
    split_and!; [done|done|intros e Hf; by destruct (update_row_throws _ _ _ _ Hf) as [? ->]|].
    intros d b Hf. destruct Hp3 as (r & Hr & Hck & Hmk & Hi3). unfold mark_degraded, update_row in Hf. fold (row s3) in Hf.
    rewrite Hr in Hf. destruct (row_check (PostedRow _ _ _ _ _ _)) eqn:Ec; [|done]. injection Hf as <- <-.
    assert (Hw : forall r', row (set_posted_rows (<[pr_id := r']> (posted s3.1)) s3.1, s3.2) = Some r').
    { intros r'. unfold row. simpl. apply lookup_insert_eq. }
    match goal with |- exact ?t /\ _ => assert (He : exact t) end.
    { apply exact_pending; [eexists; rewrite Hw; split_and!; [done|exact Ec|done|done]|].
      simpl. destruct Hst3 as [_ ->]. rewrite Hm2. simpl. lia. }
    split_and!; [done| |done]. apply wpc_degraded; [done|]. eexists. rewrite Hw. by split.
  - intros e _ Hl. split; [by apply exact_pending|]. simpl. by rewrite Hid.
Qed.

Lemma wpc_cas s x ids o notes (Q : result post_error takeover -> state -> Prop) :
  pending s -> mine s.2 = [x] -> o <> degraded_unposted ->
  (forall s', exact s' -> (forall c, Q (Throw (DbError c)) s') /\
     (recorded s' x o ids -> Q (Ok (Recovered (Some (rr_id x)) ids o notes)) s')) ->
  wpc exact (cas i (Some (rr_id x)) ids o notes) Q s.
Proof.
  intros Hp Hx Ho HQ. unfold cas. rewrite Hid. apply wpc_bind, (wpc_store true s x); [done..|].
  intros s' Hs'. destruct (HQ s' Hs') as [Q1 Q2]. split; [done|]. intros Hrec. by split; [|apply Q2].
Qed.

(** The takeover finds what a crashed run left on GitHub, or posts anew; it never
    loses a race here. *)
Lemma wpc_takeover s (Q : result post_error takeover -> state -> Prop) :
  pending s -> (length (mine s.2) <= 1)%nat ->
  (forall s', exact s' ->
     (forall e, plain e -> Q (Throw e) s') /\
     (forall notes, pending s' -> Q (Ok (Degraded notes)) s') /\
     (forall x ids o notes, recorded s' x o ids -> Q (Ok (Recovered (Some (rr_id x)) ids o notes)) s')) ->
  wpc exact (attemptSameRunTakeover i deps web_host) Q s.
Proof.
  intros Hp Hl HQ. unfold attemptSameRunTakeover. rewrite Hclient, Hpr, Hid.
  assert (Hs : exact s) by by apply exact_pending.
  apply wpc_bind. eapply weaken, find_spec; [by intros s' H; apply (exact_still s)|].
  intros r s1 Hst H. assert (Hs1 : exact s1) by by apply (exact_still s).
  assert (Hp1 : pending s1) by (apply (pending_still s); [apply Hst|done]).
  destruct r as [[id|]|e].
  - destruct H as (x & Hx & ->).
    assert (Hm1 : mine s1.2 = [x]).
    { destruct Hst as [_ Hm]. assert (Hx' : x ∈ mine s1.2) by exact Hx. clear Hx. rename Hx' into Hx.
      rewrite Hm in Hx |- *. destruct (mine s.2) as [|y [|]]; simpl in Hl; [|f_equal|lia].
      - by apply elem_of_nil in Hx.
      - by apply list_elem_of_singleton in Hx. }
    apply wpc_bind. eapply weaken, list_spec; [by intros s' H; apply (exact_still s1)| |done].
    intros r s2 Hst2 Hr. assert (Hs2 : exact s2) by by apply (exact_still s1).
    destruct r as [ids|e]; [|by apply HQ].
    apply wpc_cas; [apply (pending_still s1); [apply Hst2|done]|by destruct Hst2 as [_ ->]|by destruct ids|].
    intros s3 Hs3. destruct (HQ s3 Hs3) as (Q1 & _ & Q3). split; [intros c; by apply Q1|apply Q3].
  - apply wpc_bind, wpc_look; [done|]. intros s2 [H1 H2]. assert (Hm1 : mine s1.2 = []) by exact H.
    assert (Hp2 : pending s2) by by apply (pending_still s1).
    assert (Hs2 : exact s2) by (apply exact_pending; [done|rewrite H2, Hm1; simpl; lia]).
    split; [|by apply HQ].
    apply wpc_bind, wpc_ladder; [done|by rewrite H2|]. intros s3 H3 Hp3. split_and!.
    + intros c b notes (x & Hx & Hc & Hci). cbn [pb_created pb_inline pb_notes]. rewrite Hc.
      apply wpc_cas; [done|done|by destruct b|].
      intros s4 Hs4. destruct (HQ s4 Hs4) as (Q1 & _ & Q3). split; [intros ?; by apply Q1|apply Q3].
    + intros notes Hm3. assert (Hs3 : exact s3) by (apply exact_pending; [done|rewrite Hm3; simpl; lia]).
      split; [done|]. by apply HQ.
    + intros e He Hl3. apply HQ; [by apply exact_pending|done].
  - by apply HQ.
Qed.

Lemma wpc_lost s w age :
  exact s -> row s = Some w -> wpc exact (lost i deps web_host w age) report s.
Proof.
  intros Hs Hw. unfold lost. destruct (github_review_id w) as [id|] eqn:Hwid.
  - apply wpc_bind, wpc_look; [done|]. intros s1 Hst1. split; [|done].
    apply wpc_bind. unfold preserving. apply wpc_attempt. rewrite Hclient, Hpr.
    eapply weaken, update_spec, body_marked.
    + intros s' Hst. by eapply (exact_still s), Hs; eapply still_trans.
    + intros r s2 Hst _. assert (Hst2 : still s s2) by by eapply still_trans.
      pose proof (exact_still _ _ Hst2 Hs) as Hs2. destruct r as [[]|e].
      * split; [done|]. apply wpc_parse; [done|by intros [=]|]. exists w. destruct Hst2 as [-> _]. split_and!; [done|done|by rewrite Hwid|].
        intros _ l. assert (Hall : forall m : list Z, all_some (map Some m) = Some m).
        { induction m as [|z m IH]; [done|]. simpl. by rewrite IH. }
        rewrite Hall. by intros [= <-].
      * split; [done|]. simpl. by rewrite Hid.
  - destruct (age <? _); [by split|]. apply wpc_degraded; eauto.
Qed.

Lemma wpc_lost_claim s : exact s -> wpc exact (lost_claim i deps web_host) report s.
Proof.
  intros Hs. unfold lost_claim. rewrite Hid. apply wpc_bind, wpc_tx_row. intros s1 Hst1.
  pose proof (exact_still _ _ Hst1 Hs) as Hs1. split_and!; [done|done|done|].
  intros d x [= <- <-]. destruct s1 as [d1 g1]. split_and!; [done| |done].
  change (posted (d1, g1).1 !! pr_id) with (row (d1, g1)). destruct (row (d1, g1)) as [w|] eqn:Ew; [|by split].
  simpl. destruct (github_review_id w) as [id|] eqn:Hwid; [by apply wpc_lost|].
  destruct (dp_takeover deps); [|by apply wpc_lost].
  assert (Hp1 : pending (d1, g1)).
  { unfold exact in Hs1. rewrite Ew in Hs1. exists w. split_and!; try apply Hs1; done. }
  apply wpc_bind, wpc_takeover; [done| |].
  { unfold exact in Hs1. rewrite Ew in Hs1. apply Hs1. }
  intros s2 Hs2. split_and!.
  - intros e He. by destruct e.
  - intros notes (w2 & Hw2 & _ & _ & Hn). apply wpc_degraded; eauto.
  - intros x ids o notes Hrec. apply (wpc_recorded _ _ _ _ _ _ _ Hrec). by intros [=].
Qed.

Lemma wpc_doPost s : exact s -> wpc exact (doPost i deps event_id clock_now web_host) report s.
Proof.
  intros Hs. unfold doPost. destruct (negb _); [by split|].
  apply wpc_bind, wpc_tx_row. intros s1 Hst1. pose proof (exact_still _ _ Hst1 Hs) as Hs1.
  destruct s1 as [d1 g1]. unfold claim. simpl fst.
  destruct (assertCurrentRun _ _ _ _ _ _ _ _) as [[core' pend] [[]|e]].
  2:{ split_and!; [done|done| |done]. by intros e' [= <-]. }
  split_and!; [done|done|by repeat case_match|]. intros d b. rewrite Hid.
  change (posted d1 !! pr_id) with (row (d1, g1)). destruct (row (d1, g1)) as [w|] eqn:Ew; intros [= <- <-].
  - assert (Hs2 : exact (PostDb (posted d1) core' (db_now d1), g1)) by done.
    split_and!; [done|by apply wpc_lost_claim|done].
  - set (d2 := PostDb _ _ _).
    assert (Hw : row (d2, g1) = Some (new_row (markerFor pr_id) (db_now d1))) by apply lookup_insert_eq.
    assert (Hp2 : pending (d2, g1)) by (eexists; split_and!; [exact Hw|done..]).
    assert (Hm2 : mine g1 = []) by (unfold exact in Hs1; by rewrite Ew in Hs1).
    assert (Hs2 : exact (d2, g1)) by (apply exact_pending; [done|simpl; rewrite Hm2; simpl; lia]).
    split_and!; [done|by apply wpc_won|done].
Qed.

(** ** A row with a review *)

Definition updated (w : posted_row) (r : result post_error posted_review_v1) (_ : state) : Prop :=
  match r with
  | Ok p => pv_was_update p = true /\ pv_review_id p = github_review_id w /\
            pv_comment_ids p = parseStoredCommentIds (pw_comment_ids w) /\ pv_kept p = keptIndices classifications
  | Throw _ => True
  end.

Lemma all_some_Some {A} (m : list A) : all_some (map Some m) = Some m.
Proof. induction m as [|z m IH]; [done|]. simpl. by rewrite IH. Qed.

Lemma wpc_look_still s0 s (Q : result post_error unit -> state -> Prop) :
  still s0 s -> (forall s', still s0 s' -> Q (Ok tt) s' /\ Q (Throw TerminalCancelError) s') ->
  wpc (still s0) (throwIfAborted (dp_signal deps)) Q s.
Proof.
  intros Hs HQ. unfold throwIfAborted. destruct (dp_signal deps).
  2:{ split; [done|]. by apply HQ. }
  apply wpc_bind, wpc_call; [done|]. intros s1 g' r HR Ha.
  destruct (ex_look HX _ _ _ Ha) as [Hm [b ->]].
  assert (Hst : still s0 (s1.1, g')).
  { apply (ex_others HX) in HR. eapply still_trans; [done|]. eapply still_trans; [done|]. by split. }
  destruct (HQ _ Hst) as [H1 H2]. split; [done|]. by destruct b.
Qed.

Lemma wpc_lost_updates s0 s w id age :
  still s0 s -> github_review_id w = Some id -> wpc (still s0) (lost i deps web_host w age) (updated w) s.
Proof.
  intros Hs Hwid. unfold lost. rewrite Hwid. apply wpc_bind, wpc_look_still; [done|]. intros s1 Hst1. split; [|done].
  apply wpc_bind. unfold preserving. apply wpc_attempt. rewrite Hclient, Hpr.
  eapply weaken, update_spec, body_marked; [by intros s' Hst; eapply still_trans|].
  intros r s2 Hst _. assert (Hst2 : still s0 s2) by by eapply still_trans.
  destruct r as [[]|e]; split; try done. unfold parsePosted. rewrite all_some_Some.
  destruct (1 <=? id); [|done]. destruct (outcome_iff _ _); [|done]. by split.
Qed.

(** Once there is a review for the pull request, a later run of another commit does
    not create one: it refreshes the body, and answers with the comments of the
    first under the indices of its own findings. *)
Lemma wpc_doPost_updates s w :
  row s = Some w -> is_Some (github_review_id w) ->
  wpc (still s) (doPost i deps event_id clock_now web_host) (updated w) s.
Proof.
  intros Hw [id Hwid]. assert (Hs : still s s) by done. unfold doPost. destruct (negb _); [by split|].
  apply wpc_bind, wpc_tx_row. intros s1 Hst1. destruct s1 as [d1 g1]. unfold claim. simpl fst.
  destruct (assertCurrentRun _ _ _ _ _ _ _ _) as [[core' pend] [[]|e]]; (split_and!; [done|done|by repeat case_match|]); [|done].
  intros d b. rewrite Hid. change (posted d1 !! pr_id) with (row (d1, g1)).
  assert (Hw1 : row (d1, g1) = Some w) by by rewrite (proj1 Hst1). rewrite Hw1. intros [= <- <-].
  assert (Hst2 : still s (PostDb (posted d1) core' (db_now d1), g1)) by done.
  split_and!; [done| |done]. unfold lost_claim. rewrite Hid.
  apply wpc_bind, wpc_tx_row. intros [d3 g3] Hst3. pose proof (still_trans _ _ _ Hst2 Hst3) as Hst.
  split_and!; [done|done|done|]. intros d x [= <- <-]. split_and!; [done| |done].
  assert (Hw3 : posted d3 !! pr_id = Some w) by (change (row (d3, g3) = Some w); by rewrite (proj1 Hst)).
  simpl. rewrite Hw3. simpl. rewrite Hwid.
  by apply (wpc_lost_updates _ _ _ id).
Qed.
End Proofs.

(** ** An aborted run *)

Section Aborted.
Context {client : GhReviewClient S} `{HC : !ReadsContract client} (HX : exclusive).
Hypothesis Habort : forall g g' r, answers c_aborted g g' r -> r = Ok true.
Context (i : post_input) (deps : post_deps) (event_id : string) (clock_now : Z) (web_host : option string).
Hypothesis Hclient : dp_client deps = client.
Hypothesis Hid : pi_pr_id i = pr_id.
Hypothesis Hpr : pi_pr i = pr.
Hypothesis Hsignal : dp_signal deps = true.

Definition calm (s s' : state) : Prop := mine s'.2 = mine s.2.

Lemma wpc_tx_calm {X} s0 (f : post_db -> result post_error (post_db * X)) (Q : result post_error X -> state -> Prop) s :
  calm s0 s -> (forall r s', calm s0 s' -> Q r s') -> wpc (calm s0) (@tx S _ f) Q s.
Proof.
  intros Hs HQ. apply wpc_tx; [done|]. intros s1 HR. apply (ex_others HX) in HR.
  assert (Hs1 : calm s0 s1) by (unfold calm in *; rewrite <- Hs; apply HR). split_and!; auto.
Qed.

Lemma wpc_stop s0 {A} (k : unit -> prog A) (Q : result post_error A -> state -> Prop) s :
  calm s0 s -> (forall s', Q (Throw TerminalCancelError) s') ->
  wpc (calm s0) (bind (throwIfAborted (dp_signal deps)) k) Q s.
Proof.
  intros Hs HQ. unfold throwIfAborted. rewrite Hsignal. apply wpc_bind, wpc_bind, wpc_call; [done|].
  intros s1 g' r HR Ha. rewrite (Habort _ _ _ Ha). destruct (ex_look HX _ _ _ Ha) as [Hm _].
  apply (ex_others HX) in HR. assert (calm s0 (s1.1, g')) by (unfold calm in *; simpl; rewrite Hm, <- Hs; apply HR).
  by split.
Qed.

Lemma wpc_quiet {A} s0 (q : prog A) (P : result post_error A -> state -> Prop) (Q : result post_error A -> state -> Prop) s :
  calm s0 s -> wpc (still s) q P s -> (forall r s', calm s0 s' -> P r s' -> Q r s') -> wpc (calm s0) q Q s.
Proof.
  intros Hs Hq HQ. assert (H : forall s', still s s' -> calm s0 s') by (intros s' [_ H]; unfold calm in *; by rewrite H).
  eapply weaken, Hq; [done|]. intros r s' Hst. by apply HQ, H.
Qed.

Lemma wpc_doPost_aborted s :
  wpc (calm s) (doPost i deps event_id clock_now web_host) (fun _ _ => True) s.
Proof.
  assert (Hs : calm s s) by done. revert Hs. generalize s at 1 3 as s0. intros s0 Hs.
  unfold doPost. destruct (negb _); [by split|]. apply wpc_bind, wpc_tx_calm; [done|].
  intros [[]|e] s1 Hs1; [by apply wpc_stop| |done].
  unfold lost_claim. apply wpc_bind, wpc_tx_calm; [done|]. intros [[[w age]|]|e] s2 Hs2; [|by split|done].
  assert (Hlost : forall w' s3, calm s0 s3 ->
    wpc (calm s0) (lost i deps web_host w' age) (fun _ _ => True) s3).
  { intros w' s3 Hs3. unfold lost. destruct (github_review_id w'); [by apply wpc_stop|].
    destruct (age <? _); [by split|]. unfold degraded, parsePosted. by repeat case_match. }
  destruct (github_review_id w); [by apply Hlost|]. destruct (dp_takeover deps); [|by apply Hlost].
  apply wpc_bind. unfold attemptSameRunTakeover. rewrite Hclient, Hpr, Hid.
  apply wpc_bind. eapply wpc_quiet; [done|apply find_spec|]. intros [[id|]|e] s3 Hs3 Hf; [| |done].
  - destruct Hf as (x & Hx & ->). apply wpc_bind. eapply wpc_quiet; [done|by apply list_spec|].
    intros [ids|e] s4 Hs4 _; [|done]. unfold cas. apply wpc_bind, wpc_tx_calm; [done|].
    intros [[]|e] s5 Hs5; [| |done]; (split; [done|]).
    + unfold parsePosted. by repeat case_match.
    + apply wpc_bind, wpc_tx_calm; [done|]. intros [[[w' a]|]|e] s6 Hs6; [by apply Hlost..|done].
  - by apply wpc_stop.
Qed.
End Aborted.

(** An attempt to post to the pull request. *)
Definition attempts (client : GhReviewClient S) (q : prog posted_review_v1) : Prop :=
  exists i deps event_id clock_now web_host,
    dp_client deps = client /\ pi_pr_id i = pr_id /\ pi_pr i = pr /\ q = doPost i deps event_id clock_now web_host.

Lemma exact_one s : exact s -> (length (mine s.2) <= 1)%nat.
Proof. unfold exact. destruct (row s); [intros H; apply H|intros ->; simpl; lia]. Qed.

Lemma sessions_exact client (s0 s : state) :
  ReviewsContract client -> exclusive -> exact s0 -> sessions (attempts client) s0 s -> exact s.
Proof.
  intros HC HX Hs0 Hses.
  apply (@sessions_invariant S G answers R post_fault posted_review_v1 (attempts client) exact s0 s);
    [intros s1 s2 H1 H2; exact (exact_still _ _ (ex_others HX _ _ H2) H1)| |exact Hs0|exact Hses].
  intros q s1 (j & d & e & n & h & Hd & Hj & Hp & ->) H1.
  apply (weaken exact exact _ (report j)); [done|done|]. exact (wpc_doPost HX j d e n h Hd Hj Hp s1 H1).
Qed.

(** * Theorems *)

(** Exactly one review.  However many attempts were made at a pull request, each
    killed at any point, cut off from the database before or after a commit, or
    failed by GitHub, the pull request carries at most one of our reviews, and the
    row that names one names that one; and what the next attempt answers is what
    the row says: no review exactly when the outcome is degraded, the comments that
    are stored, and, when it posted inline itself, one comment per finding kept. *)
Theorem doPost_exactly_once client (s0 s s' : state) i deps event_id clock_now web_host out :
  ReviewsContract client -> exclusive ->
  exact s0 -> sessions (attempts client) s0 s ->
  dp_client deps = client -> pi_pr_id i = pr_id -> pi_pr i = pr ->
  runs (doPost i deps event_id clock_now web_host) s out s' ->
  exact s' /\ (length (mine s'.2) <= 1)%nat /\ forall r, out = Some r -> report i r s'.
Proof.
  intros HC HX Hs0 Hses Hc Hid Hpr Hrun.
  pose proof (sessions_exact _ _ _ HC HX Hs0 Hses) as Hs.
  destruct (adequate _ _ _ _ _ _ (wpc_doPost HX i deps event_id clock_now web_host Hc Hid Hpr s Hs) Hrun)
    as [He Hr].
  split_and!; [done|by apply exact_one|done].
Qed.

(** Nothing starts after an abort.  With the signal aborted, whatever the client
    would do to create or to update a review (nothing is assumed of that), a run
    leaves our reviews as they were. *)
Theorem doPost_aborted client (s s' : state) i deps event_id clock_now web_host out :
  ReadsContract client -> exclusive -> (forall g g' r, answers c_aborted g g' r -> r = Ok true) ->
  dp_client deps = client -> pi_pr_id i = pr_id -> pi_pr i = pr -> dp_signal deps = true ->
  runs (doPost i deps event_id clock_now web_host) s out s' ->
  mine s'.2 = mine s.2.
Proof.
  intros HC HX Ha Hc Hid Hpr Hsig Hrun.
  by destruct (adequate _ _ _ _ _ _
    (wpc_doPost_aborted HX Ha i deps event_id clock_now web_host Hc Hid Hpr Hsig s) Hrun).
Qed.



End Contract.

(** * A server, and a client that talks to it *)

Module Toy.
(** The number of comments of each of our reviews; ids count from 1. *)
Definition world : Type := list nat.
Definition mine (g : world) : list remote := imap (fun k n => Remote (Z.of_nat k + 1) (seqZ 1 (Z.of_nat n))) g.

Section Server.
(** Whether the signal is aborted. *)
Variable aborted : bool.

Definition serve (c : gh_call) (g : world) : world * result post_error (gh_reply c) :=
  match c with
  | c_token _ => (g, Ok "token")
  | c_now => (g, Ok 0)
  | c_sleep _ => (g, Ok tt)
  | c_aborted => (g, Ok aborted)
  | c_http a =>
      match h_json a with
      | JArr l => (g ++ [length l], Ok (HttpResponse (Z.of_nat (length g) + 1) [] None))
      | JNum s => (g, Ok (HttpResponse (default 0 (n ← int_of s; k ← g !! Z.to_nat (n - 1); Some (Z.of_nat k))) [] None))
      | _ => (g, Ok (HttpResponse (if (length g =? 0)%nat then 0 else 1) [] None))
      end
  end.

Definition answers (c : gh_call) (g g' : world) (r : result post_error (gh_reply c)) : Prop := (g', r) = serve c g.
Definition R (s s1 : post_db * world) : Prop := s1 = s.

Definition send (v : json) : prog Z :=
  await r := @call S (c_http (HttpArgs "" "" [] v)) in Return (rs_status r).
Definition page (n : Z) : list js_num := take PAGE (map Some (seqZ 1 n)).

Definition client : GhReviewClient S := {|
  findExistingReviewByMarker _ _ := await n := send JNull in Return (if n =? 0 then None else Some (Some n));
  listReviewComments _ id := await n := send (json_num id) in Return (page n);
  createReview _ _ _ l := await id := send (JArr l) in Return (CreatedReview (Some id) (page (Z.of_nat (length l))));
  updateReview _ _ _ := await _ := send JNull in Return tt;
  createIssueComment _ _ := Return None;
  listIssueComments _ := Return JNull;
  deleteIssueComment _ _ := Return tt;
|}.

Lemma others s s1 pr_id : R s s1 -> still mine pr_id s s1.
Proof. by intros ->. Qed.

Lemma serves pr_id : exclusive answers R mine pr_id.
Proof. split; [intros s s1; apply others|]. intros g g' r [= -> ->]. eauto. Qed.

Lemma mine_snoc g n : mine (g ++ [n]) = mine g ++ [Remote (Z.of_nat (length g) + 1) (seqZ 1 (Z.of_nat n))].
Proof. unfold mine. rewrite imap_app. simpl. by rewrite Nat.add_0_r. Qed.

Lemma wpc_send I v (Q : result post_error Z -> post_db * world -> Prop) (s : post_db * world) :
  I s ->
  (let (g', r) := serve (c_http (HttpArgs "" "" [] v)) s.2 in
   I (s.1, g') /\ match r with Ok resp => Q (Ok (rs_status resp)) (s.1, g') | Throw e => Q (Throw e) (s.1, g') end) ->
  @wpc S world answers R post_fault _ I (send v) Q s.
Proof.
  intros Hs H. unfold send. apply wpc_bind, wpc_call; [done|]. intros s1 g' r -> Ha.
  assert (Hserve : serve (c_http (HttpArgs "" "" [] v)) s.2 = (g', r)) by (symmetry; exact Ha).
  rewrite Hserve in H. destruct H as [H1 H2]. split; [done|]. by destruct r; [split|].
Qed.

Lemma mine_lookup g x : x ∈ mine g -> exists k n, g !! k = Some n /\ x = Remote (Z.of_nat k + 1) (seqZ 1 (Z.of_nat n)).
Proof.
  intros (k & Hk)%list_elem_of_lookup. unfold mine in Hk. rewrite list_lookup_imap in Hk.
  apply fmap_Some in Hk as (n & Hn & ->). eauto.
Qed.

#[export] Instance reads pr_id pr : ReadsContract answers R mine pr_id pr client.
Proof.
  split.
  - intros s. unfold client, findExistingReviewByMarker. apply wpc_bind, wpc_send; [done|]. simpl. split; [done|]. split; [done|].
    destruct s as [d [|n g]]; simpl; [done|]. exists (Remote 1 (seqZ 1 (Z.of_nat n))). split; [by left|done].
  - intros s x (k & n & Hk & ->)%mine_lookup. unfold client, listReviewComments. apply wpc_bind, wpc_send; [done|].
    change (json_num (Some (Z.of_nat k + 1))) with (num (Z.of_nat k + 1)). simpl.
    pose proof (as_int_num (Z.of_nat k + 1)) as Hn. simpl in Hn. rewrite Hn. simpl.
    replace (Z.to_nat (Z.of_nat k + 1 - 1)) with k by lia. rewrite Hk. by repeat split.
Qed.

#[export] Instance contract pr_id pr : ReviewsContract answers R mine pr_id pr client.
Proof.
  split; [apply reads|..].
  - intros s text commit l _. unfold client, createReview. apply wpc_bind, wpc_send; [split; [done|by left]|]. simpl. rewrite mine_snoc.
    assert (Hg : grown mine pr_id s (s.1, s.2 ++ [length l])).
    { split; [done|]. right. simpl. rewrite mine_snoc. eauto. }
    split; [exact Hg|]. split; [exact Hg|]. eexists. split; [done|]. split_and!; [done| |done].
    simpl. rewrite length_seqZ. lia.
  - intros s id text _. unfold client, updateReview. apply wpc_bind, wpc_send; [done|]. by repeat split.
Qed.


Lemma exec_answers {A} (q : prog A) (s : post_db * world) :
  @Programs.runs S world answers R post_fault A q s (Some (@exec S world serve A q s).1) (@exec S world serve A q s).2.
Proof. apply (@exec_runs S world answers R post_fault serve); [done|]. intros c g. unfold answers. by destruct (serve c g). Qed.
End Server.

(** The world of the examples: the run is current, and nothing is claimed. *)
Definition ex_finding (l : Z) : finding :=
  Finding "a.ts" l l issue bug "title" "body" None 1 [] pr_global [].
Definition ex_input (l : list finding) : post_input :=
  PostInput l "pr-1" "sha" "walkthrough" (PrRef "o" "r" 7) ex_run_id "r1" {[ "a.ts" := [(1, 40)] ]}.
Definition ex_deps (signal : bool) : post_deps := PostDeps client 300 true signal.
Definition ex_post (signal : bool) (l : list finding) : prog posted_review_v1 :=
  doPost (ex_input l) (ex_deps signal) "e1" 0 None.
Definition ex_start : post_db * world := (PostDb ∅ (RunLifecycle.ex_db RUNNING) 0, []).
Definition ex_first : post_db * world := (@exec S world (serve false) _ (ex_post true [ex_finding 3; ex_finding 99]) ex_start).2.
Definition ex_second : result post_error posted_review_v1 * (post_db * world) :=
  @exec S world (serve false) _ (ex_post true [ex_finding 5; ex_finding 6; ex_finding 7]) ex_first.

Lemma ex_attempt signal l : attempts "pr-1" (PrRef "o" "r" 7) client (ex_post signal l).
Proof. unfold attempts, ex_post. do 5 eexists. split_and!; [| | |reflexivity]; reflexivity. Qed.
End Toy.

Lemma doPost_exactly_once_witness :
  Toy.mine Toy.ex_second.2.2 = [Remote 1 [1]] /\
  Toy.ex_second.1 = Ok (PostedReviewV1 (Some 1) true 3 [1] [0; 1; 2] inline_posted [] []) /\
  exact Toy.mine "pr-1" Toy.ex_second.2.
Proof.
  split; [vm_compute; reflexivity|]. split; [vm_compute; reflexivity|].
  refine (proj1 (doPost_exactly_once (Toy.answers false) Toy.R Toy.mine "pr-1" (PrRef "o" "r" 7) Toy.client
            Toy.ex_start Toy.ex_first Toy.ex_second.2 (Toy.ex_input [Toy.ex_finding 5; Toy.ex_finding 6; Toy.ex_finding 7])
            (Toy.ex_deps true) "e1" 0 None (Some Toy.ex_second.1) _ _ _ _ _ _ _ _)).
  - apply Toy.contract.
  - apply Toy.serves.
  - reflexivity.
  - eapply sessions_attempt; [apply sessions_none|apply Toy.ex_attempt|apply Toy.exec_answers].
  - reflexivity.
  - reflexivity.
  - reflexivity.
  - apply (Toy.exec_answers false).
Defined.

Lemma doPost_aborted_witness :
  let run := @exec S Toy.world (Toy.serve true) _ (Toy.ex_post true [Toy.ex_finding 3]) Toy.ex_start in
  run.1 = Throw TerminalCancelError /\ Toy.mine run.2.2 = [].
Proof.
  intros run. split; [vm_compute; reflexivity|].
  apply (doPost_aborted (Toy.answers true) Toy.R Toy.mine "pr-1" (PrRef "o" "r" 7) Toy.client
           Toy.ex_start run.2 (Toy.ex_input [Toy.ex_finding 3]) (Toy.ex_deps true) "e1" 0 None (Some run.1)).
  - apply Toy.reads.
  - apply Toy.serves.
  - intros g g' r [= _ ->]. reflexivity.
  - reflexivity.
  - reflexivity.
  - reflexivity.
  - reflexivity.
  - apply (Toy.exec_answers true).
Defined.


(** * Two limits *)

(** Above the cap nothing is claimed and nothing is posted. *)
Lemma doPost_over_cap i deps event_id clock_now web_host :
  let kept := keptFindings (classifyFindingsAgainstDiff (pi_findings i) (pi_ranges i)) in
  (MAX_INLINE_COMMENTS_PER_REVIEW < length kept)%nat ->
  doPost i deps event_id clock_now web_host = raise (CapExceeded (length kept)).
Proof. intros kept H. unfold doPost. fold kept. apply Nat.leb_gt in H. by rewrite H. Qed.

(** GitHub lists the comments of a review by pages: with more of them than a page
    holds the review is posted and the run fails; the next one recovers it with the
    comments of one page for all the findings. *)
Lemma page_overflow :
  let l := replicate 31 (Toy.ex_finding 3) in
  let first := @exec S Toy.world (Toy.serve false) _ (Toy.ex_post true l) Toy.ex_start in
  let second := @exec S Toy.world (Toy.serve false) _ (Toy.ex_post true l) first.2 in
  first.1 = Throw (LengthMismatch 30 31) /\ length (Toy.mine first.2.2) = 1%nat /\
  match second.1 with Ok p => length (pv_comment_ids p) = 30%nat /\ length (pv_kept p) = 31%nat | Throw _ => False end.
Proof. split_and!; vm_compute; auto. Qed.
