(* ===== verification/PostContract.v ===== *)
(** The client of [GithubReviews] keeps the contract that [PostReview] is proved
    against, over a server of which only its documented behaviour is assumed: a
    refused POST creates nothing, an accepted one creates one review with all its
    comments, listings come in pages.  With it the posting of a review is exact down
    to the HTTP requests. *)
From Stdlib Require Import QArith.
From stdpp Require Import base gmap sets list strings pretty.
From Stdlib Require Import ZArith Lia Ascii.
From S2P Require Import Prelude Numerals Json ReviewPayload WebhookPayload RunLifecycle Findings PipelineHelpers Degradation.
From S2P Require Import Programs GithubApi GithubReviews PostRender PostReview.
Local Open Scope Z_scope.
Local Open Scope prog_scope.

Section Server.
Context {G : Type}.
Context (answers : forall c, G -> G -> result post_error (gh_reply c) -> Prop).
Context (R : post_db * G -> post_db * G -> Prop).
Context (date_parse : string -> option Z) (json_parse : string -> option json) (base_url : string).
Context (pr_id : string) (pr : pr_ref).
(** Our reviews, the listing of all reviews, and where in it a path begins. *)
Context (mine : G -> list remote) (listing : G -> list json) (offset : string -> option nat).

Abbreviation state := (post_db * G)%type.
Abbreviation wpc := (@wpc S G answers R post_fault _).
Abbreviation still := (still mine pr_id).

Definition parsed (resp : http_response) : option json := json_parse (default "{}" (rs_body resp)).

(** Nothing of ours changed; others may have added reviews. *)
Definition touched (g g' : G) : Prop := mine g' = mine g /\ exists more, listing g' = listing g ++ more.

Definition sending (method path : string) (body : json) (token : string) : gh_call :=
  c_http (request_of base_url method path DEFAULT_ACCEPT token body).

Definition id_object (v : json) (n : Z) : Prop := exists kvs, v = JObj kvs /\ prop "id" v = Some (num n).

(** The page of a listing [l] from [k] on, with the link to what follows. *)
Definition is_page (l : list json) (k : nat) (resp : http_response) : Prop :=
  parsed resp = Some (JArr (take PAGE (drop k l))) /\
  match extractNextLink (header (rs_headers resp) "Link") with
  | Some p => offset p = Some (k + PAGE)%nat /\ (k + PAGE <= length l)%nat
  | None => (length l <= k + PAGE)%nat
  end.

Record review_server : Prop := {
  sv_others s s1 : R s s1 -> row pr_id s1 = row pr_id s /\ touched s.2 s1.2;
  sv_quiet c g g' r : quiet c -> answers c g g' r -> touched g g';
  sv_look g g' r : answers c_aborted g g' r -> exists b, r = Ok b;
  sv_errors c g g' e : answers c g g' (Throw e) -> plain e /\ e <> ApiError GitHubUnprocessableError;
  sv_create token text commit comments g g' r :
    JsString.includes (markerFor pr_id) text = true ->
    answers (sending "POST" (reviews_path pr) (review_request text commit comments) token) g g' r ->
    match r with
    | Ok resp =>
        if rs_status resp <? 400
        then exists x v, mine g' = mine g ++ [x] /\ length (rr_comments x) = length comments /\
               parsed resp = Some v /\ id_object v (rr_id x)
        else mine g' = mine g
    | Throw _ => mine g' = mine g \/ exists x, mine g' = mine g ++ [x]
    end;
  sv_comments token id g g' r :
    answers (sending "GET" (review_path pr (Some id) +:+ "/comments") JNull token) g g' r ->
    touched g g' /\
    forall resp, r = Ok resp -> rs_status resp <> 422 /\
      forall x, rs_status resp < 400 -> x ∈ mine g -> rr_id x = id ->
        exists vs, parsed resp = Some (JArr vs) /\ Forall2 id_object vs (take PAGE (rr_comments x));
  sv_update token id text g g' r :
    JsString.includes (markerFor pr_id) text = true ->
    answers (sending "PUT" (review_path pr id) (JObj [("body", JStr text)]) token) g g' r -> touched g g';
  sv_page token path k g g' r :
    offset path = Some k -> answers (sending "GET" path JNull token) g g' r ->
    touched g g' /\ forall resp, r = Ok resp -> rs_status resp < 400 -> is_page (listing g') k resp;
  sv_first : offset (reviews_path pr) = Some 0%nat;
  sv_short g : (length (listing g) <= MARKER_SCAN_MAX_PAGES * PAGE)%nat;
  sv_listed g : exists found, first_marked (markerFor pr_id) (listing g) = Ok found /\
    match found with
    | Some id => exists x, x ∈ mine g /\ id = Some (rr_id x)
    | None => mine g = []
    end;
}.

Hypothesis HS : review_server.

Definition steady (s s' : state) : Prop := row pr_id s' = row pr_id s /\ touched s.2 s'.2.

Lemma touched_trans a b c : touched a b -> touched b c -> touched a c.
Proof.
  intros [H1 [m1 H2]] [H3 [m2 H4]]. split; [congruence|]. exists (m1 ++ m2). by rewrite H4, H2, (assoc_L (++)).
Qed.

Lemma touched_refl a : touched a a.
Proof. split; [done|]. exists []. by rewrite app_nil_r. Qed.

Lemma steady_refl s : steady s s.
Proof. split; [done|apply touched_refl]. Qed.

Lemma steady_others s s1 s2 : steady s s1 -> R s1 s2 -> steady s s2.
Proof.
  intros [H1 H2] HR. apply (sv_others HS) in HR as [H3 H4]. split; [congruence|by eapply touched_trans].
Qed.

Lemma steady_touch s s1 g : steady s s1 -> touched s1.2 g -> steady s (s1.1, g).
Proof. intros [H1 H2] H. split; [done|by eapply touched_trans]. Qed.

Lemma steady_still s s' : steady s s' -> still s s'.
Proof. intros [H1 [H2 _]]. by split. Qed.

Lemma server_exclusive : exclusive answers R mine pr_id.
Proof.
  split.
  - intros s s1 HR. apply steady_still. by eapply steady_others, HR; apply steady_refl.
  - intros g g' r Ha. destruct (sv_quiet HS c_aborted g g' r I Ha) as [Hm _]. split; [done|]. by eapply sv_look.
Qed.

(** A request that changes nothing of ours, and what its answer says. *)
Lemma wpc_read method path body (P : http_response -> G -> Prop) s :
  (forall resp g g', touched g g' -> P resp g -> P resp g') ->
  (forall token s1 g' r, steady s s1 -> answers (sending method path body token) s1.2 g' r ->
     touched s1.2 g' /\ forall resp, r = Ok resp -> P resp g') ->
  wpc (still s) (request ApiError date_parse base_url method path DEFAULT_ACCEPT false body)
    (fun r s' => match r with
                 | Ok resp => steady s s' /\ P resp s'.2 /\ rs_status resp < 400
                 | Throw e => plain e /\ (e = ApiError GitHubUnprocessableError ->
                                         exists resp g, P resp g /\ rs_status resp = 422)
                 end) s.
Proof.
  intros HP Hsend. set (After resp (s' : state) := steady s s' /\ P resp s'.2).
  assert (Hst : forall Q : state -> Prop, (forall s1 s2, Q s1 -> steady s1 s2 -> Q s2) -> stable answers R Q).
  { intros Q HQ. split.
    - intros s1 s2 H1 HR. eapply HQ; [done|]. eapply steady_others, HR. apply steady_refl.
    - intros s1 c g' r H1 Hc Ha. eapply HQ; [done|]. apply (steady_touch _ s1); [apply steady_refl|].
      by apply (sv_quiet HS _ _ _ _ Hc Ha). }
  assert (Htr : forall s1 s2, steady s s1 -> steady s1 s2 -> steady s s2).
  { intros s1 s2 [H1 H2] [H3 H4]. split; [congruence|by eapply touched_trans]. }
  assert (HJ : stable answers R (steady s)) by (apply Hst; apply Htr).
  assert (HA : forall resp, stable answers R (After resp)).
  { intros resp. apply Hst. intros s1 s2 [H1 H2] H3. split; [by eapply Htr|]. eapply HP, H2. apply H3. }
  eapply weaken; [intros s'; apply steady_still| |].
  2:{ apply (wpc_request ApiError date_parse answers R post_fault plain) with
        (J := steady s) (Lost := steady s) (After := After) (I := steady s); try done.
      - by intros a [=].
      - apply (sv_errors HS).
      - by intros resp s' [H _].
      - intros token s0 s1 g' r H0 HR Ha. pose proof (steady_others _ _ _ H0 HR) as H1.
        destruct (Hsend token s1 g' r H1 Ha) as [Ht Hok]. pose proof (steady_touch _ _ _ H1 Ht) as H2.
        destruct r as [resp|e]; [|done]. split; [done|]. by apply Hok.
      - by intros resp s' [H _] _.
      - apply steady_refl. }
  intros r s' Hs' Hr. destruct r as [resp|e]; [by destruct Hr as [[H1 H2] Hok]|].
  destruct Hr as (H1 & _ & H2). split; [done|]. intros He. destruct (H2 He) as (resp & [_ H3] & H4). eauto.
Qed.

Lemma wpc_lift {A} I (r : result api_error A) (Q : result post_error A -> state -> Prop) s :
  I s -> (forall a, r = Ok a -> Q (Ok a) s) -> (forall e, r = Throw e -> Q (Throw (ApiError e)) s) -> wpc I (lift ApiError r) Q s.
Proof. intros HI H1 H2. destruct r; split; auto. Qed.

Lemma wpc_json I resp (Q : result post_error json -> state -> Prop) s :
  I s -> (forall v, parsed resp = Some v -> Q (Ok v) s) -> Q (Throw (ApiError SyntaxError)) s ->
  wpc I (jsonOf ApiError json_parse resp) Q s.
Proof.
  intros HI H1 H2. unfold jsonOf. fold (parsed resp). destruct (parsed resp) as [v|]; split; auto.
Qed.

Lemma ids_of_objects vs l : Forall2 id_object vs l -> ids_of (JArr vs) = Ok (map Some l).
Proof.
  intros H. simpl. induction H as [|v n vs l (kvs & -> & Hv) _ IH]; [done|]. simpl in *. rewrite Hv.
  cbn [rbind Number]. pose proof (as_int_num n) as Hn. simpl in Hn. unfold num at 1. simpl. rewrite Hn, IH. done.
Qed.

Lemma wpc_list s x :
  x ∈ mine s.2 ->
  wpc (still s) (list_comments ApiError date_parse json_parse base_url pr (Some (rr_id x)))
    (fun r _ => match r with
                | Ok ids => ids = take PAGE (map Some (rr_comments x))
                | Throw e => plain e /\ e <> ApiError GitHubUnprocessableError
                end) s.
Proof.
  intros Hx. unfold list_comments, api_get, get_. apply wpc_bind.
  eapply weaken, (wpc_read _ _ _ (fun resp _ => rs_status resp <> 422 /\ (rs_status resp < 400 ->
    exists vs, parsed resp = Some (JArr vs) /\ Forall2 id_object vs (take PAGE (rr_comments x))))); [done| |by intros|].
  - intros [resp|e] s' Hs' H.
    + destruct H as (_ & [_ H] & Hlt). destruct (H Hlt) as (vs & Hp & Hvs).
      apply wpc_bind, wpc_json; [done| |done]. intros v. rewrite Hp. intros [= <-].
      rewrite (ids_of_objects _ _ Hvs). split; [done|]. by rewrite firstn_map.
    + destruct H as [H1 H2]. split; [done|]. intros He. by destruct (H2 He) as (resp & g & [H3 _] & H4).
  - intros token s1 g' r H1 Ha. destruct (sv_comments HS _ _ _ _ _ Ha) as [Ht Hok]. split; [done|].
    intros resp ->. destruct (Hok resp eq_refl) as [H2 H3]. split; [done|]. intros Hlt.
    destruct H1 as [_ [Hm _]]. eapply H3; [done|by rewrite Hm|done].
Qed.

Lemma first_marked_app m a b :
  first_marked m (a ++ b) = match first_marked m a with Ok None => first_marked m b | r => r end.
Proof.
  induction a as [|v a IH]; simpl; [done|]. destruct (member "body" v) as [[[]|]|e]; simpl; try apply IH; [|done].
  destruct (negb _ && _); [|apply IH]. by destruct (member "id" v).
Qed.

(** What is known of a page when it is read: the listing of that moment. *)
Definition paged (s : state) (k : nat) (resp : http_response) (g : G) : Prop :=
  exists l more, listing g = l ++ more /\ (exists m, l = listing s.2 ++ m) /\ is_page l k resp /\
    (first_marked (markerFor pr_id) l = Ok None -> mine g = []).

Lemma paged_touched s k resp g g' : touched g g' -> paged s k resp g -> paged s k resp g'.
Proof.
  intros [Hm [more' Hl]] (l & more & Hg & Hp & Hpage & Hnone). exists l, (more ++ more').
  split_and!; [by rewrite Hl, Hg, (assoc_L (++))|done|done|by rewrite Hm].
Qed.

Lemma wpc_scan left path k s :
  offset path = Some k -> (k <= length (listing s.2))%nat ->
  first_marked (markerFor pr_id) (take k (listing s.2)) = Ok None ->
  (MARKER_SCAN_MAX_PAGES * PAGE <= k + left * PAGE)%nat ->
  wpc (still s) (scan ApiError date_parse json_parse base_url (markerFor pr_id) left path)
    (fun r s' => match r with
                 | Ok None => mine s'.2 = []
                 | Ok (Some id) => exists x, x ∈ mine s'.2 /\ id = Some (rr_id x)
                 | Throw e => plain e
                 end) s.
Proof.
  revert path k s. induction left as [|left IH]; intros path k s Hoff Hk Hnone Hcap; cbn [scan].
  { split; [done|]. destruct (sv_listed HS s.2) as (found & Hf & Hm).
    rewrite take_ge in Hnone by (pose proof (sv_short HS s.2); lia). rewrite Hf in Hnone. by injection Hnone as ->. }
  apply wpc_bind. unfold api_get, get_.
  eapply weaken, (wpc_read _ _ _ (fun resp g => rs_status resp < 400 -> paged s k resp g)); [done| | |].
  2:{ intros resp g g' Ht Hp Hlt. by eapply paged_touched, Hp. }
  2:{ intros token s1 g' r H1 Ha. destruct (sv_page HS _ _ _ _ _ _ Hoff Ha) as [Ht Hok]. split; [done|].
      intros resp -> Hlt. exists (listing g'), []. specialize (Hok resp eq_refl Hlt). split_and!; [by rewrite app_nil_r| |done|].
      - destruct H1 as (_ & _ & m1 & H1). destruct Ht as (_ & m2 & H2). exists (m1 ++ m2).
        by rewrite H2, H1, (assoc_L (++)).
      - destruct (sv_listed HS g') as (found & Hf & Hm). rewrite Hf. intros [= ->]. done. }
  intros [resp|e] [d' g'] Hs' H; [|by apply H]. destruct H as (Hst & H & Hlt).
  destruct (H Hlt) as (l & more & Hl & [m Hm] & [Hpage Hlink] & Hmine).
  cbn [snd] in Hl, Hmine.
  assert (Htake : take k l = take k (listing s.2)) by (rewrite Hm; by apply take_app_le).
  assert (Hsplit : first_marked (markerFor pr_id) (take (k + PAGE) l)
      = first_marked (markerFor pr_id) (take PAGE (drop k l))).
  { rewrite <- take_take_drop, first_marked_app, Htake, Hnone. done. }
  apply wpc_bind, wpc_json; [done| |done]. intros v. rewrite Hpage. intros [= <-].
  apply wpc_bind, wpc_lift; [done| |done]. cbn [page_scan]. intros found Hfound. rewrite <- Hsplit in Hfound.
  destruct found as [id|].
  - split; [done|]. destruct (sv_listed HS g') as (found & Hf & Hx).
    rewrite Hl, <- (take_drop (k + PAGE) l), <- (assoc_L (++)), first_marked_app, Hfound in Hf. by injection Hf as <-.
  - destruct (extractNextLink _) as [p|].
    + destruct Hlink as [Hp Hlen]. eapply weaken; [|by intros r s2 _ H2; exact H2|apply (IH p (k + PAGE)%nat (d', g'))].
      * intros s2 Hs2. by eapply still_trans.
      * done.
      * cbn [snd]. rewrite Hl, length_app. lia.
      * cbn [snd]. rewrite Hl, take_app_le by lia. done.
      * lia.
    + split; [done|]. apply Hmine. by rewrite <- (take_ge l (k + PAGE)).
Qed.

Lemma still_stable s : stable answers R (still s).
Proof.
  split.
  - intros s1 s2 H HR. eapply still_trans; [done|]. apply steady_still. eapply steady_others, HR. apply steady_refl.
  - intros s1 c g' r [H1 H2] Hc Ha. destruct (sv_quiet HS _ _ _ _ Hc Ha) as [Hm _]. split; [done|]. simpl. by rewrite Hm.
Qed.

Lemma number_of_id v n : id_object v n -> (let? id := member "id" v in Ok (Number id)) = Ok (Some n).
Proof.
  intros (kvs & -> & Hv). simpl in *. rewrite Hv. cbn [rbind Number num]. pose proof (as_int_num n) as Hn. simpl in Hn.
  by rewrite Hn.
Qed.

Lemma wpc_create_review s text commit comments :
  JsString.includes (markerFor pr_id) text = true ->
  wpc (grown mine pr_id s) (create_review ApiError date_parse json_parse base_url pr text commit comments)
    (fun r s' => match r with
                 | Ok c => exists x, mine s'.2 = mine s.2 ++ [x] /\ cr_reviewId c = Some (rr_id x) /\
                     length (rr_comments x) = length comments /\
                     cr_commentIds c = take PAGE (map Some (rr_comments x))
                 | Throw (ApiError GitHubUnprocessableError) => still s s'
                 | Throw e => plain e
                 end) s.
Proof.
  intros Hmk.
  set (made resp g := if rs_status resp <? 400
     then exists x v, mine g = mine s.2 ++ [x] /\ length (rr_comments x) = length comments /\
            parsed resp = Some v /\ id_object v (rr_id x)
     else mine g = mine s.2).
  set (After resp (s' : state) := row pr_id s' = row pr_id s /\ made resp s'.2).
  assert (Hmade : forall resp g g', mine g' = mine g -> made resp g -> made resp g').
  { unfold made. intros resp g g' Hm. destruct (rs_status resp <? 400); by rewrite Hm. }
  assert (Hgrown : forall resp s', After resp s' -> grown mine pr_id s s').
  { intros resp s' [H1 H2]. split; [done|]. unfold made in H2. destruct (rs_status resp <? 400); [|by left].
    destruct H2 as (x & v & H2 & _). right. eauto. }
  unfold create_review, api_post, post. apply wpc_bind.
  eapply weaken; [intros s' H; exact H| |].
  2:{ apply (wpc_request ApiError date_parse answers R post_fault plain) with
        (J := still s) (Lost := grown mine pr_id s) (After := After) (I := grown mine pr_id s); try done.
      - by intros a [=].
      - apply (sv_errors HS).
      - apply still_stable.
      - intros resp. split.
        + intros s1 s2 [H1 H2] HR. apply (sv_others HS) in HR as [H3 [H4 _]]. split; [etrans; [exact H3|exact H1]|by eapply Hmade].
        + intros s1 c g' r [H1 H2] Hc Ha. destruct (sv_quiet HS _ _ _ _ Hc Ha) as [H4 _].
          split; [done|by eapply Hmade].
      - intros s' [H1 H2]. split; [done|by left].
      - intros token s0 s1 g' r [H1 H2] HR Ha. apply (sv_others HS) in HR as [H3 [H4 _]].
        apply (sv_create HS _ _ _ _ _ _ _ Hmk) in Ha.
        assert (Hm : mine s1.2 = mine s.2) by (etrans; [exact H4|exact H2]).
        assert (Hr1 : row pr_id (s1.1, g') = row pr_id s) by (etrans; [exact H3|exact H1]). destruct r as [resp|e].
        + split; [done|]. unfold made. rewrite Hm in Ha. exact Ha.
        + split; [done|]. by rewrite Hm in Ha.
      - intros resp s' [H1 H2] Hst. split; [done|]. unfold made in H2. destruct (rs_status resp <? 400) eqn:E; [lia|done]. }
  intros r [d1 g1] Hg1 Hr. destruct r as [resp|e].
  - destruct Hr as [[H1 H2] Hlt]. cbn [snd] in H2. unfold made in H2.
    destruct (rs_status resp <? 400) eqn:E; [|lia]. destruct H2 as (x & v & Hx & Hlen & Hp & Hid).
    apply wpc_bind, wpc_json; [done| |done]. intros v'. rewrite Hp. intros [= <-].
    apply wpc_bind, wpc_lift; [done| |by destruct Hid as (kvs & -> & _)]. intros id Hmember.
    pose proof (number_of_id _ _ Hid) as Hn. rewrite Hmember in Hn. cbn [rbind] in Hn. injection Hn as Hn. rewrite Hn.
    destruct comments as [|c comments].
    + split; [done|]. exists x. split_and!; [done|done|done|]. simpl in Hlen. by destruct (rr_comments x).
    + apply wpc_bind. eapply weaken, (wpc_list (d1, g1) x); [| |cbn [snd]; rewrite Hx; apply elem_of_app; right; by left].
      * intros s' [H3 H4]. split; [by rewrite H3|]. right. exists x. rewrite H4. exact Hx.
      * intros [ids|e] [d2 g2] [H3 H4] Hl.
        -- rewrite Hl. split; [split; [by rewrite H3|right; exists x; rewrite H4; exact Hx]|].
           exists x. cbn [snd] in H4 |- *. by rewrite H4.
        -- destruct Hl as [Hl1 Hl2]. by destruct e as [| | | | | | | |[]| |].
  - destruct Hr as (Hpl & _ & H422). destruct e as [| | | | | | | |[]| |]; try done.
    destruct (H422 eq_refl) as (resp & [H1 H2] & H3). split; [done|]. cbn [snd] in H2. unfold made in H2.
    rewrite H3 in H2. exact H2.
Qed.

(** The client of GitHub keeps the contract of the posting. *)
Lemma github_contract installationId :
  0 < installationId ->
  exists client, GitHubApiReviewClient ApiError date_parse json_parse base_url installationId = Some client /\
    ReviewsContract answers R mine pr_id pr client.
Proof.
  intros Hi. unfold GitHubApiReviewClient. destruct (installationId <=? 0) eqn:E; [lia|]. eexists. split; [done|].
  split; [split|..]; cbn [findExistingReviewByMarker listReviewComments createReview updateReview].
  - intros s. unfold find_existing. eapply weaken, (wpc_scan _ _ 0); [done| |apply (sv_first HS)|lia|done|lia].
    by intros [[id|]|e] s' _ H.
  - intros s x Hx. eapply weaken, (wpc_list s x Hx); [done|]. intros [ids|e] s' _ H; [done|apply H].
  - intros s text commit comments Hmk. by apply wpc_create_review.
  - intros s id text Hmk. unfold update_review, put. apply wpc_bind.
    eapply weaken, (wpc_read _ _ _ (fun _ _ => True)); [done| |done|].
    + by intros [resp|e] s' Hs' _.
    + intros token s1 g' r _ Ha. split; [by eapply sv_update|done].
Qed.
End Server.

(** * Theorem *)


(** * A server *)

Module Server.
(** The comments of our review, once there is one. *)
Definition world : Type := option nat.
Definition marker : string := markerFor "pr-1".
Definition pr : pr_ref := PrRef "o" "r" 7.
Definition base_url : string := "https://api.github.com".
Definition mine (g : world) : list remote :=
  match g with None => [] | Some n => [Remote 1 (seqZ 1 (Z.of_nat n))] end.
Definition listed : json := JObj [("id", num 1); ("body", JStr marker)].
Definition listing (g : world) : list json := match g with None => [] | Some _ => [listed] end.
Definition offset (path : string) : option nat := if String.eqb path (reviews_path pr) then Some 0%nat else None.
Definition id_json (n : Z) : json := JObj [("id", num n)].

(** The bodies stand for their JSON. *)
Definition json_parse (s : string) : option json :=
  match s with
  | "i" => Some (id_json 1)
  | "p0" => Some (JArr [])
  | "p1" => Some (JArr [listed])
  | String "c" d => Some (JArr (map id_json (take PAGE (seqZ 1 (JsString.number_of_digits d)))))
  | _ => None
  end.

Definition reply (status : Z) (text : string) : result post_error http_response :=
  Ok (HttpResponse status [] (Some text)).

Definition http (a : http_args) (g : world) : world * result post_error http_response :=
  if String.eqb (h_method a) "POST" then
    match g, h_json a with
    | None, JObj (_ :: _ :: _ :: ("comments", JArr l) :: _) => (Some (length l), reply 201 "i")
    | _, _ => (g, reply 422 "")
    end
  else if String.eqb (h_method a) "GET" then
    (g, reply 200 (if String.eqb (h_url a) (base_url +:+ reviews_path pr)
                   then match g with None => "p0" | Some _ => "p1" end
                   else "c" +:+ pretty (N.of_nat (default 0%nat g))))
  else (g, reply 200 "i").

Definition serve (c : gh_call) (g : world) : world * result post_error (gh_reply c) :=
  match c with
  | c_token _ => (g, Ok "token")
  | c_now => (g, Ok 0)
  | c_sleep _ => (g, Ok tt)
  | c_aborted => (g, Ok false)
  | c_http a => http a g
  end.

Definition answers (c : gh_call) (g g' : world) (r : result post_error (gh_reply c)) : Prop := (g', r) = serve c g.
Definition R (s s1 : post_db * world) : Prop := s1 = s.

Lemma touched_same g : touched mine listing g g.
Proof. split; [done|]. exists []. by rewrite app_nil_r. Qed.

Lemma other_path id : String.eqb (base_url +:+ review_path pr id +:+ "/comments") (base_url +:+ reviews_path pr) = false.
Proof.
  apply String.eqb_neq. intros H. apply (f_equal String.length) in H. unfold review_path in H.
  rewrite !JsString.length_append in H. change (String.length "/") with 1%nat in H. lia.
Qed.

Lemma ids_objects l : Forall2 id_object (map id_json l) l.
Proof. induction l as [|n l IH]; constructor; [by exists [("id", num n)]|done]. Qed.

Lemma is_server : review_server answers R json_parse base_url "pr-1" pr mine listing offset.
Proof.
  split.
  - intros s s1 ->. split; [done|apply touched_same].
  - intros c g g' r Hc Ha. destruct c; try done; injection Ha as -> _; apply touched_same.
  - intros g g' r [= _ ->]. eauto.
  - intros c g g' e Ha. destruct c as [f|a| |q|]; try (by injection Ha). unfold answers, serve, http in Ha.
    by repeat case_match.
  - intros token text commit comments g g' r _ Ha. destruct g as [n|]; injection Ha as -> ->; [done|].
    exists (Remote 1 (seqZ 1 (Z.of_nat (length comments)))), (id_json 1). simpl. split_and!; [done| |done|].
    + rewrite length_seqZ. lia.
    + by exists [("id", num 1)].
  - intros token id g g' r Ha. unfold answers, serve, http, sending, request_of in Ha. cbn [h_method h_url h_json] in Ha.
    rewrite other_path in Ha. remember (pretty (N.of_nat (default 0%nat g))) as d eqn:Hd. simpl in Ha. injection Ha as -> ->. split; [apply touched_same|]. intros resp [= <-]. split; [done|]. intros x _ Hx _.
    destruct g as [n|]; [|by apply elem_of_nil in Hx]. apply list_elem_of_singleton in Hx as ->.
    exists (map id_json (take PAGE (seqZ 1 (Z.of_nat n)))). split; [|apply ids_objects].
    destruct (pretty_N_all_digits (N.of_nat n)) as [_ Hn]. simpl in Hd. rewrite <- Hd, nat_N_Z in Hn.
    unfold parsed. simpl. change ("" +:+ d) with d. by rewrite Hn.
  - intros token id text g g' r _ Ha. injection Ha as -> _. apply touched_same.
  - intros token path k g g' r Hk Ha. unfold offset in Hk. destruct (String.eqb_spec path (reviews_path pr)) as [->|]; [|done].
    injection Hk as <-. unfold answers, serve, http in Ha. simpl in Ha. injection Ha as -> ->.
    split; [apply touched_same|]. intros resp [= <-] _.
    destruct g as [n|]; (split; [reflexivity|vm_compute; lia]).
  - done.
  - intros [n|]; vm_compute; lia.
  - intros [n|]; [|by exists None]. exists (Some (Some 1)). split; [by vm_compute|]. eexists. by split; [left|].
Qed.
End Server.

