(* ===== verification/Uuid5.v ===== *)
(** [uuid5] of [domain/repos/review_findings_repo.ts] and of
    [contracts/diff_chunking.v1.ts]: the name-based identifiers (RFC 4122,
    version 5) that make the writes of a review idempotent.  [createHash("sha1")] of node is the SHA-1 of FIPS 180-4, written
    out here on 32-bit words as integers, so that identifiers can be computed. *)
From stdpp Require Import base list strings.
From Stdlib Require Import ZArith Lia Ascii.
From S2P Require Import Prelude.
Open Scope Z_scope.

(** * SHA-1 *)

Definition u32 (x : Z) : Z := x mod 4294967296.
Definition rotl (n x : Z) : Z := Z.lor (u32 (Z.shiftl x n)) (Z.shiftr x (32 - n)).

(** The bytes of a word or a length, most significant first. *)
Fixpoint be_bytes (n : nat) (x : Z) : list Z :=
  match n with
  | O => []
  | S n' => Z.shiftr x (8 * Z.of_nat n') mod 256 :: be_bytes n' x
  end.

Definition be_word (l : list Z) : Z := fold_left (fun a b => a * 256 + b) l 0.

(** [0x80], zeros up to 56 modulo 64, and the length in bits. *)
Definition pad (msg : list Z) : list Z :=
  let n := length msg in
  msg ++ [0x80] ++ replicate (Z.to_nat ((55 - Z.of_nat n) mod 64)) 0 ++ be_bytes 8 (8 * Z.of_nat n).

Fixpoint chunks {A} (k : nat) (fuel : nat) (l : list A) : list (list A) :=
  match fuel, l with
  | S f, _ :: _ => take k l :: chunks k f (drop k l)
  | _, _ => []
  end.

(** The message schedule, the newest word first. *)
Fixpoint expand (n : nat) (w : list Z) : list Z :=
  match n with
  | O => w
  | S n' =>
      let at_ i := default 0 (w !! i) in
      expand n' (rotl 1 (Z.lxor (Z.lxor (at_ 2%nat) (at_ 7%nat)) (Z.lxor (at_ 13%nat) (at_ 15%nat))) :: w)
  end.

Definition schedule (block : list Z) : list Z :=
  rev (expand 64 (rev (map be_word (chunks 4 16 block)))).

Definition f_k (t : nat) (b c d : Z) : Z * Z :=
  if (t <? 20)%nat then (Z.lor (Z.land b c) (Z.land (Z.lxor b 0xffffffff) d), 0x5a827999)
  else if (t <? 40)%nat then (Z.lxor (Z.lxor b c) d, 0x6ed9eba1)
  else if (t <? 60)%nat then (Z.lor (Z.lor (Z.land b c) (Z.land b d)) (Z.land c d), 0x8f1bbcdc)
  else (Z.lxor (Z.lxor b c) d, 0xca62c1d6).

Record hash := Hash { h0 : Z; h1 : Z; h2 : Z; h3 : Z; h4 : Z }.

Definition round (s : hash) (tw : nat * Z) : hash :=
  let '(f, k) := f_k tw.1 (h1 s) (h2 s) (h3 s) in
  Hash (u32 (rotl 5 (h0 s) + f + h4 s + k + tw.2)) (h0 s) (rotl 30 (h1 s)) (h2 s) (h3 s).

Definition compress (s : hash) (block : list Z) : hash :=
  let w := schedule block in
  let r := fold_left round (zip (seq 0 80) w) s in
  Hash (u32 (h0 s + h0 r)) (u32 (h1 s + h1 r)) (u32 (h2 s + h2 r)) (u32 (h3 s + h3 r))
       (u32 (h4 s + h4 r)).

Definition sha1_init : hash := Hash 0x67452301 0xefcdab89 0x98badcfe 0x10325476 0xc3d2e1f0.

Definition sha1 (msg : list Z) : list Z :=
  let m := pad msg in
  let r := fold_left compress (chunks 64 (length m) m) sha1_init in
  be_bytes 4 (h0 r) ++ be_bytes 4 (h1 r) ++ be_bytes 4 (h2 r) ++ be_bytes 4 (h3 r) ++ be_bytes 4 (h4 r).

(** * Buffers *)

Fixpoint string_bytes (s : string) : list Z :=
  match s with
  | EmptyString => []
  | String c s' => Z.of_nat (nat_of_ascii c) :: string_bytes s'
  end.

Definition hex_char (d : Z) : ascii :=
  ascii_of_nat (Z.to_nat (if d <? 10 then 48 + d else 87 + d)).

Fixpoint to_hex (l : list Z) : string :=
  match l with
  | [] => ""
  | b :: l' => String (hex_char (b / 16)) (String (hex_char (b mod 16)) (to_hex l'))
  end.

Definition hex_value (c : ascii) : option Z :=
  let n := Z.of_nat (nat_of_ascii c) in
  if (48 <=? n) && (n <=? 57) then Some (n - 48)
  else if (97 <=? n) && (n <=? 102) then Some (n - 87)
  else if (65 <=? n) && (n <=? 70) then Some (n - 55)
  else None.

(** [Buffer.from(s, "hex")]: stops at the first pair that is not hexadecimal. *)
Fixpoint of_hex (s : string) : list Z :=
  match s with
  | String a (String b s') =>
      match hex_value a, hex_value b with
      | Some x, Some y => (x * 16 + y) :: of_hex s'
      | _, _ => []
      end
  | _ => []
  end.

(** [s.replace(/-/g, "")] *)
Fixpoint strip_hyphens (s : string) : string :=
  match s with
  | EmptyString => EmptyString
  | String c s' => if Ascii.eqb c "-" then strip_hyphens s' else String c (strip_hyphens s')
  end.

(** * uuid5 *)

(** [b.writeUInt8((b.readUInt8(i) & mask) | bits, i)] *)
Definition stamp (i : nat) (mask bits : Z) (b : list Z) : list Z :=
  alter (fun x => Z.lor (Z.land x mask) bits) i b.

(** On the bytes of the name. *)
Definition uuid5_of (namespaceHex : string) (name : list Z) : string :=
  let nsBytes := of_hex (strip_hyphens namespaceHex) in
  let digest := sha1 (nsBytes ++ name) in
  let b := stamp 8 0x3f 0x80 (stamp 6 0x0f 0x50 (take 16 digest)) in
  let h := to_hex b in
  (String.substring 0 8 h +:+ "-" +:+ String.substring 8 4 h +:+ "-" +:+ String.substring 12 4 h +:+ "-" +:+
   String.substring 16 4 h +:+ "-" +:+ String.substring 20 12 h)%string.

Definition uuid5 (namespaceHex name : string) : string := uuid5_of namespaceHex (string_bytes name).

Example sha1_abc :
  to_hex (sha1 (string_bytes "abc")) = "a9993e364706816aba3e25717850c26c9cd0d89d"%string.
Proof. vm_compute. reflexivity. Qed.

Example sha1_two_blocks :
  to_hex (sha1 (string_bytes "abcdbcdecdefdefgefghfghighijhijkijkljklmklmnlmnomnopnopq"))
  = "84983e441c3bd26ebaae4aa1f95129e5e54670f1"%string.
Proof. vm_compute. reflexivity. Qed.

(** The DNS namespace of RFC 4122. *)
Example uuid5_dns :
  uuid5 "6ba7b810-9dad-11d1-80b4-00c04fd430c8" "python.org"
  = "886313e1-3b8a-5372-9b90-0c9aee199e5d"%string.
Proof. vm_compute. reflexivity. Qed.

(** * Shape *)

Definition byte (b : Z) : Prop := 0 <= b < 256.

Definition is_byte (b : Z) : bool := (0 <=? b) && (b <? 256).

Lemma is_byte_spec b : is_byte b = true <-> byte b.
Proof. unfold is_byte, byte. rewrite andb_true_iff, Z.leb_le, Z.ltb_lt. done. Qed.

Lemma be_bytes_byte n x : Forall byte (be_bytes n x).
Proof. induction n; simpl; constructor; [apply Z.mod_pos_bound; lia|done]. Qed.

Lemma be_bytes_length n x : length (be_bytes n x) = n.
Proof. induction n; simpl; congruence. Qed.

Lemma sha1_length msg : length (sha1 msg) = 20%nat.
Proof. unfold sha1. by rewrite !length_app, !be_bytes_length. Qed.

Lemma sha1_bytes msg : Forall byte (sha1 msg).
Proof. unfold sha1. rewrite !Forall_app. split_and!; apply be_bytes_byte. Qed.

(** What the two stamps leave of a byte. *)
Definition version_byte (b : Z) : bool := b / 16 =? 5.
Definition variant_byte (b : Z) : bool := (8 <=? b / 16) && (b / 16 <=? 11).

Lemma byte_forall (p : Z -> bool) :
  forallb (fun n => p (Z.of_nat n)) (seq 0 256) = true -> forall b, byte b -> p b = true.
Proof.
  intros H b [Hlo Hhi]. rewrite forallb_forall in H.
  rewrite <- (Z2Nat.id b) by lia. apply H, in_seq. lia.
Qed.

Lemma stamp_version b : byte b ->
  is_byte (Z.lor (Z.land b 0x0f) 0x50) && version_byte (Z.lor (Z.land b 0x0f) 0x50) = true.
Proof.
  revert b. apply (byte_forall (fun b => is_byte (Z.lor (Z.land b 0x0f) 0x50) && version_byte (Z.lor (Z.land b 0x0f) 0x50))).
  vm_compute. reflexivity.
Qed.

Lemma stamp_variant b : byte b ->
  is_byte (Z.lor (Z.land b 0x3f) 0x80) && variant_byte (Z.lor (Z.land b 0x3f) 0x80) = true.
Proof.
  revert b. apply (byte_forall (fun b => is_byte (Z.lor (Z.land b 0x3f) 0x80) && variant_byte (Z.lor (Z.land b 0x3f) 0x80))).
  vm_compute. reflexivity.
Qed.

Lemma to_hex_cons b l :
  to_hex (b :: l) = String (hex_char (b / 16)) (String (hex_char (b mod 16)) (to_hex l)).
Proof. done. Qed.

Definition lower_hex (c : ascii) : bool :=
  let n := nat_of_ascii c in ((48 <=? n) && (n <=? 57) || (97 <=? n) && (n <=? 102))%nat%bool.

Lemma hex_pair_lower b : byte b -> lower_hex (hex_char (b / 16)) && lower_hex (hex_char (b mod 16)) = true.
Proof.
  revert b. apply (byte_forall (fun b => lower_hex (hex_char (b / 16)) && lower_hex (hex_char (b mod 16)))).
  vm_compute. reflexivity.
Qed.

Lemma to_hex_lower l : Forall byte l -> JsString.forall_chars lower_hex (to_hex l) = true.
Proof.
  induction 1 as [|b l Hb _ IH]; [done|]. rewrite to_hex_cons. simpl.
  apply hex_pair_lower, andb_true_iff in Hb as [-> ->]. done.
Qed.

(** The canonical text of a version-5 identifier: five groups of lower-case
    hexadecimal digits, the version nibble 5 and the variant nibble 8 to b. *)
Definition uuid5_text (s : string) : Prop :=
  exists a b c d e : string,
    s = (a +:+ "-" +:+ b +:+ "-" +:+ String "5" c +:+ "-" +:+ d +:+ "-" +:+ e)%string /\
    String.length a = 8%nat /\ String.length b = 4%nat /\ String.length c = 3%nat /\
    String.length d = 4%nat /\ String.length e = 12%nat /\
    Forall (fun w => JsString.forall_chars lower_hex w = true) [a; b; c; d; e] /\
    (exists x y, d = String x y /\ x ∈ ["8"; "9"; "a"; "b"]%char).

Lemma stamped_bytes l : length l = 16%nat -> Forall byte l ->
  exists b0 b1 b2 b3 b4 b5 b6 b7 b8 b9 b10 b11 b12 b13 b14 b15,
    stamp 8 0x3f 0x80 (stamp 6 0x0f 0x50 l)
    = [b0; b1; b2; b3; b4; b5; b6; b7; b8; b9; b10; b11; b12; b13; b14; b15] /\
    Forall byte [b0; b1; b2; b3; b4; b5; b6; b7; b8; b9; b10; b11; b12; b13; b14; b15] /\
    version_byte b6 = true /\ variant_byte b8 = true.
Proof.
  intros Hlen Hb.
  do 16 (destruct l as [|? l]; [discriminate Hlen|]). destruct l; [|discriminate Hlen].
  do 16 eexists. split; [reflexivity|].
  do 16 (apply Forall_cons in Hb as [? Hb]).
  pose proof (stamp_version z5 H5) as Hv.
  pose proof (stamp_variant z7 H7) as Hw.
  apply andb_true_iff in Hv as [Hv1 Hv2], Hw as [Hw1 Hw2].
  apply is_byte_spec in Hv1, Hw1.
  split; [|done]. repeat (apply Forall_cons; split; [assumption|]). constructor.
Qed.

Lemma version_digit b : version_byte b = true -> hex_char (b / 16) = "5"%char.
Proof. unfold version_byte. intros ->%Z.eqb_eq. reflexivity. Qed.

Lemma variant_digit b : variant_byte b = true -> hex_char (b / 16) ∈ ["8"; "9"; "a"; "b"]%char.
Proof.
  unfold variant_byte. intros [Hlo%Z.leb_le Hhi%Z.leb_le]%andb_true_iff.
  assert (b / 16 = 8 \/ b / 16 = 9 \/ b / 16 = 10 \/ b / 16 = 11) as [-> | [-> | [-> | ->]]] by lia;
    vm_compute; repeat constructor.
Qed.

(** Whatever the namespace and the name, [uuid5] is the canonical text of a
    version-5 identifier. *)
Lemma uuid5_of_canonical ns name : uuid5_text (uuid5_of ns name).
Proof.
  unfold uuid5_of.
  destruct (stamped_bytes (take 16 (sha1 (of_hex (strip_hyphens ns) ++ name))))
    as (b0 & b1 & b2 & b3 & b4 & b5 & b6 & b7 & b8 & b9 & b10 & b11 & b12 & b13 & b14 & b15
        & -> & Hb & Hver%version_digit & Hvar%variant_digit).
  { by rewrite length_take, sha1_length. }
  { apply Forall_take, sha1_bytes. }
  rewrite Forall_forall in Hb.
  cbn [to_hex String.substring String.append]. rewrite Hver.
  do 5 eexists. split; [cbn [String.append]; reflexivity|].
  split_and!; try reflexivity.
  - rewrite !Forall_cons. cbn [JsString.forall_chars].
    assert (Hd : forall b, b ∈ [b0; b1; b2; b3; b4; b5; b6; b7; b8; b9; b10; b11; b12; b13; b14; b15] ->
      lower_hex (hex_char (b / 16)) = true /\ lower_hex (hex_char (b mod 16)) = true).
    { intros b Hin. by apply andb_true_iff, hex_pair_lower, Hb. }
    pose proof (fun b H => proj1 (Hd b H)) as Hq. pose proof (fun b H => proj2 (Hd b H)) as Hr.
    rewrite !Hq, !Hr by (repeat first [left | right]). done.
  - eauto.
Qed.

Lemma uuid5_canonical ns name : uuid5_text (uuid5 ns name).
Proof. apply uuid5_of_canonical. Qed.
