(* ===== verification/FindingStore.v ===== *)
(** [domain/repos/review_findings_repo.ts] and the activities over it
    ([persist_review_findings], [record_delivery_lifecycle],
    [load_parent_review_findings]): the table [core.review_findings], the CHECK and
    foreign-key constraints of its migration, every statement of the repository,
    and what any sequence of them keeps.  A row goes from persisted to delivered,
    skipped or degraded exactly once.  Identifiers are canonical UUID texts; a
    confidence is stored in thousandths ([numeric(4,3)]). *)
From stdpp Require Import base gmap sets list strings pretty.
From Stdlib Require Import ZArith QArith Lia Ascii.
From S2P Require Import Prelude Json WorkflowEvents RunLifecycle Findings PipelineHelpers Uuid5.
Open Scope Z_scope.

(** * Data *)

Inductive delivery_eligibility := eligible | skipped.
Inductive delivery_outcome := inline_delivered | body_only_fallback | failed | not_applicable.
Inductive eligibility_reason :=
  file_not_in_diff | line_after_last_hunk | line_before_first_hunk | line_spans_hunks
| line_in_unchanged_gap.
Inductive suppression_state :=
  NONE | SUPPRESSED_BY_LLM | SUPPRESSED_BY_POLICY | SUPPRESSED_BY_DUPLICATE_MERGE.

#[export] Instance delivery_eligibility_eq_dec : EqDecision delivery_eligibility.
Proof. solve_decision. Defined.
#[export] Instance delivery_outcome_eq_dec : EqDecision delivery_outcome.
Proof. solve_decision. Defined.
#[export] Instance eligibility_reason_eq_dec : EqDecision eligibility_reason.
Proof. solve_decision. Defined.
#[export] Instance suppression_state_eq_dec : EqDecision suppression_state.
Proof. solve_decision. Defined.

(** The columns written by the INSERTs. *)
Record content := Content {
  ct_installation : string; ct_pr : string;
  ct_file : string; ct_start : Z; ct_end : Z;
  ct_severity : Severity; ct_category : Category; ct_title : string; ct_body : string;
  ct_suggestion : option string; ct_confidence : Z;
  ct_citations : list citation; ct_policy_metadata : json;
  ct_scope : FindingScope; ct_evidence_refs : list string; ct_created_at : Z;
}.

Record suppression := Suppression {
  sp_state : suppression_state; sp_reason : option string; sp_confidence : option Z;
  sp_model : option string; sp_prompt_version : option string; sp_at : option Z;
  sp_by_finding : option string;
}.

Record delivery := Delivery {
  dl_eligibility : option delivery_eligibility; dl_reason : option eligibility_reason;
  dl_outcome : option delivery_outcome; dl_comment : option Z; dl_posted : option string;
  dl_updated_at : option Z;
}.

Record frow := FRow {
  fr_content : content; fr_suppression : suppression; fr_delivery : delivery;
  fr_tier : Z; fr_source_tool : option string;
}.

Abbreviation table := (gmap string frow).

Record store := Store {
  findings : table;
  installations : gset string;
  pull_requests : gset string;
  posted_reviews : gset string;
  core : core_db;
}.

(** * The constraints of the table *)

(** Conditions of SQL: [None] is unknown, and a CHECK rejects only [false]. *)
Definition sql_and (a b : option bool) : option bool :=
  match a, b with
  | Some false, _ | _, Some false => Some false
  | Some true, Some true => Some true
  | _, _ => None
  end.
Definition sql_eq (a b : option bool) : option bool :=
  match a, b with Some x, Some y => Some (Bool.eqb x y) | _, _ => None end.
Definition sql_not : option bool -> option bool := option_map negb.
Definition sql_is {A} `{EqDecision A} (c : option A) (v : A) : option bool :=
  option_map (fun x => bool_decide (x = v)) c.
Definition not_null {A} (c : option A) : option bool := Some (bool_decide (is_Some c)).
Definition passes (c : option bool) : bool := bool_decide (c <> Some false).

Definition delivery_checks (d : delivery) (s : suppression_state) : bool :=
  let inline := bool_decide (dl_outcome d = Some inline_delivered) in
  let na := bool_decide (dl_outcome d = Some not_applicable) in
  passes (sql_eq (Some inline) (not_null (dl_comment d))) &&
  passes (sql_eq (Some na) (sql_and (sql_is (dl_eligibility d) skipped) (not_null (dl_outcome d)))) &&
  (bool_decide (dl_outcome d = None) || bool_decide (is_Some (dl_eligibility d))) &&
  passes (sql_eq (sql_is (dl_eligibility d) skipped) (not_null (dl_reason d))) &&
  passes (sql_not (sql_and (Some (negb (bool_decide (s = NONE))))
                           (sql_is (dl_outcome d) inline_delivered))) &&
  match dl_comment d with None => true | Some c => 1 <=? c end.

Definition suppression_checks (s : suppression) : bool :=
  let null {A} (c : option A) := negb (bool_decide (is_Some c)) in
  bool_decide (sp_state s = NONE) && null (sp_reason s) && null (sp_confidence s) && null (sp_at s)
    && null (sp_by_finding s)
  || negb (bool_decide (sp_state s = NONE)) && negb (null (sp_reason s))
     && negb (null (sp_confidence s)) && negb (null (sp_at s)).

Definition content_checks (c : content) : bool :=
  (0 <=? ct_confidence c) && (ct_confidence c <=? 1000) && (ct_start c <=? ct_end c)
  && (1 <=? ct_start c).

Definition row_checks (r : frow) : bool :=
  content_checks (fr_content r) && suppression_checks (fr_suppression r)
  && delivery_checks (fr_delivery r) (sp_state (fr_suppression r)).

(** ** The types of the columns *)

Definition no_nul (s : string) : bool :=
  JsString.forall_chars (fun c => negb (Ascii.eqb c Ascii.zero)) s.
Definition opt_no_nul (s : option string) : bool :=
  match s with None => true | Some s => no_nul s end.

Fixpoint json_no_nul (v : json) : bool :=
  match v with
  | JStr s => no_nul s
  | JArr l => forallb json_no_nul l
  | JObj kvs => forallb (fun p => match p with (k, x) => no_nul k && json_no_nul x end) kvs
  | _ => true
  end.

Definition int4 (n : Z) : bool := (- 2147483648 <=? n) && (n <=? 2147483647).
Definition int8 (n : Z) : bool := (- 9223372036854775808 <=? n) && (n <=? 9223372036854775807).

(** What the casts of an INSERT accept: [varchar(2048)], [integer], text and
    [jsonb] without a NUL, [numeric(4,3)]. *)
Definition content_typed (c : content) : bool :=
  (String.length (ct_file c) <=? 2048)%nat && int4 (ct_start c) && int4 (ct_end c)
  && no_nul (ct_file c) && no_nul (ct_title c) && no_nul (ct_body c)
  && opt_no_nul (ct_suggestion c)
  && forallb (fun s => no_nul (c_locator s) && opt_no_nul (c_excerpt s)) (ct_citations c)
  && json_no_nul (ct_policy_metadata c) && forallb no_nul (ct_evidence_refs c)
  && (Z.abs (ct_confidence c) <? 10000).

Definition suppression_typed (s : suppression) : bool :=
  opt_no_nul (sp_reason s) && opt_no_nul (sp_model s) && opt_no_nul (sp_prompt_version s)
  && match sp_confidence s with None => true | Some c => Z.abs c <? 10000 end.

(** The cast to [numeric(4,3)]: to the nearest thousandth, ties away from zero. *)
Definition thousandths (q : Q) : Z :=
  let n := 2000 * Qnum q in
  let d := 2 * Z.pos (Qden q) in
  if 0 <=? n then (n + Z.pos (Qden q)) / d else - ((- n + Z.pos (Qden q)) / d).

Definition suppression_of_string (s : string) : option suppression_state :=
  if String.eqb s "NONE" then Some NONE
  else if String.eqb s "SUPPRESSED_BY_LLM" then Some SUPPRESSED_BY_LLM
  else if String.eqb s "SUPPRESSED_BY_POLICY" then Some SUPPRESSED_BY_POLICY
  else if String.eqb s "SUPPRESSED_BY_DUPLICATE_MERGE" then Some SUPPRESSED_BY_DUPLICATE_MERGE
  else None.

Definition REASONS : list (string * eligibility_reason) :=
  [("file_not_in_diff", file_not_in_diff); ("line_after_last_hunk", line_after_last_hunk);
   ("line_before_first_hunk", line_before_first_hunk); ("line_spans_hunks", line_spans_hunks);
   ("line_in_unchanged_gap", line_in_unchanged_gap)]%string.
Definition reason_of_string (s : string) : option eligibility_reason :=
  snd <$> head (filter (fun p => p.1 = s) REASONS).

Definition outcome_of_string (s : string) : option delivery_outcome :=
  if String.eqb s "inline_delivered" then Some inline_delivered
  else if String.eqb s "body_only_fallback" then Some body_only_fallback
  else if String.eqb s "failed" then Some failed
  else if String.eqb s "not_applicable" then Some not_applicable
  else None.

(** * Errors *)

Inductive store_error :=
| Invariant (message : string)     (* the checks the repository makes itself *)
| SqlTypeError                     (* a value its column cannot hold *)
| SqlCheckViolation
| SqlForeignKeyViolation
| RunError (e : run_error)         (* the stale-write guard and the event stream *)
| ZodError.                        (* a row that is not a finding of the contract *)

(** * persistAggregated *)

Definition REVIEW_FINDING_UUID5_NAMESPACE : string := "8a8c9d11-0a3e-5e0f-9b7e-fc2c3a8d9701".

Definition severity_name (s : Severity) : string :=
  match s with nit => "nit" | suggestion => "suggestion" | issue => "issue" | blocker => "blocker" end.

Definition deriveReviewFindingId (prId file : string) (startLine endLine : Z)
    (severity title : string) : string :=
  let bar := "|"%string in
  uuid5 REVIEW_FINDING_UUID5_NAMESPACE
    (prId +:+ bar +:+ file +:+ bar +:+ pretty startLine +:+ bar +:+ pretty endLine +:+ bar +:+
     severity +:+ bar +:+ title)%string.

Definition finding_id (prId : string) (f : finding) : string :=
  deriveReviewFindingId prId (f_file f) (start_line f) (end_line f) (severity_name (severity f)) (title f).

(** The defaults of the columns an INSERT does not name. *)
Definition unsuppressed : suppression := Suppression NONE None None None None None None.
Definition undelivered : delivery := Delivery None None None None None None.

Definition content_of (installationId prId : string) (now : Z) (pm : json) (f : finding) : content :=
  {| ct_installation := installationId; ct_pr := prId; ct_file := f_file f;
     ct_start := start_line f; ct_end := end_line f; ct_severity := severity f;
     ct_category := category f; ct_title := title f; ct_body := body f;
     ct_suggestion := f_suggestion f; ct_confidence := thousandths (confidence f);
     ct_citations := sources f; ct_policy_metadata := pm; ct_scope := scope f;
     ct_evidence_refs := evidence_refs f; ct_created_at := now |}.

(** [policyMetadata !== null && i < length ? policyMetadata.at(i) ?? {} : {}] *)
Definition metadata_at (pm : option (list json)) (i : nat) : json :=
  match pm with
  | None => JObj []
  | Some l => match l !! i with None | Some JNull => JObj [] | Some v => v end
  end.

Definition finding_rows (installationId prId : string) (now : Z) (pm : option (list json))
    (l : list finding) : list (string * frow) :=
  imap (fun i f => (finding_id prId f,
    FRow (content_of installationId prId now (metadata_at pm i) f) unsuppressed undelivered 2 None)) l.

(** [INSERT ... ON CONFLICT (review_finding_id) DO NOTHING]: every row must fit
    its types and CHECKs, also one that conflicts; the references are checked for
    what is inserted. *)
Definition insert_row (s : store) (t : table) (p : string * frow) : result store_error table :=
  let '(id, r) := p in
  guard? content_typed (fr_content r) && suppression_typed (fr_suppression r)
         && opt_no_nul (fr_source_tool r) else SqlTypeError in
  guard? row_checks r else SqlCheckViolation in
  match t !! id with
  | Some _ => Ok t
  | None =>
      guard? bool_decide (ct_installation (fr_content r) ∈ installations s)
             && bool_decide (ct_pr (fr_content r) ∈ pull_requests s) else SqlForeignKeyViolation in
      Ok (<[id := r]> t)
  end.

Fixpoint insert_rows (s : store) (t : table) (l : list (string * frow)) : result store_error table :=
  match l with
  | [] => Ok t
  | p :: l' => let? t' := insert_row s t p in insert_rows s t' l'
  end.

Definition with_findings (t : table) (s : store) : store :=
  Store t (installations s) (pull_requests s) (posted_reviews s) (core s).
Definition with_core (c : core_db) (s : store) : store :=
  Store (findings s) (installations s) (pull_requests s) (posted_reviews s) c.
Definition add_events (l : list wf_event) (c : core_db) : core_db :=
  CoreDb (runs c) (reviews c) (repositories c) l.

Definition PERSIST_SITE : string := "findings_repository.persist_aggregated".
Definition FINDINGS_PERSISTED : string := "FINDINGS_PERSISTED".

Definition milestone_exists (run : string) (l : list wf_event) : bool :=
  existsb (fun e => String.eqb (ev_run e) run && String.eqb (event_type e) FINDINGS_PERSISTED) l.

Definition milestone (runId reviewId installationId : string) (n : nat) (c : core_db) : emit_args :=
  {| e_provider := match reviews c !! reviewId with Some v => rv_provider v | None => "github" end;
     e_run := runId; e_review := reviewId; e_type := FINDINGS_PERSISTED;
     e_payload := Some [("findings_persisted", JNum (pretty n))]%string;
     e_delivery := None; e_installation := Some installationId |}.

Record persist_args := PersistArgs {
  pa_pr : string; pa_installation : string; pa_aggregated : aggregated;
  pa_run : string; pa_review : string; pa_policy_metadata : option (list json);
}.

(** The transaction: a throw anywhere leaves nothing, neither the findings nor
    the forensic row of the guard, whose savepoint is only merged into it. *)
Definition persist_tx (a : persist_args) (now : Z) (stale_id event_id : string) (s : store)
    : result store_error store :=
  let l := a_findings (pa_aggregated a) in
  let '(core1, _, guarded) := assertCurrentRun true (pa_run a) (pa_review a) PERSIST_SITE stale_id now
                                (core s) [] in
  match guarded with
  | Throw e => Throw (RunError e)
  | Ok _ =>
      let? t := insert_rows s (findings s)
                  (finding_rows (pa_installation a) (pa_pr a) now (pa_policy_metadata a) l) in
      let s1 := with_core core1 (with_findings t s) in
      if milestone_exists (pa_run a) (events core1) then Ok s1
      else
        let fk := bool_decide (is_Some (runs core1 !! pa_run a))
                  && bool_decide (is_Some (reviews core1 !! pa_review a)) in
        match emitWorkflowEvent true fk
                (milestone (pa_run a) (pa_review a) (pa_installation a) (length l) core1)
                event_id now (events core1) with
        | Throw e => Throw (RunError (EventError e))
        | Ok (evs, _) => Ok (with_core (add_events evs core1) s1)
        end
  end.

Definition persistAggregated (a : persist_args) (now : Z) (stale_id event_id : string) (s : store)
    : store * result store_error (list string) :=
  match persist_tx a now stale_id event_id s with
  | Throw e => (s, Throw e)
  | Ok s' => (s', Ok (map (finding_id (pa_pr a)) (a_findings (pa_aggregated a))))
  end.

(** * The arbitration writes *)

Record suppression_args := SuppressionArgs {
  sa_state : string; sa_reason : option string; sa_confidence : option Q;
  sa_model : option string; sa_prompt_version : option string; sa_at : option Z;
}.

(** The SET list of the columns both writes name; [suppressed_by_finding_id] is
    not among them. *)
Definition suppression_of (a : suppression_args) (st : suppression_state) (by_finding : option string)
    : suppression :=
  Suppression st (sa_reason a) (thousandths <$> sa_confidence a) (sa_model a) (sa_prompt_version a)
    (sa_at a) by_finding.

Record tier1_args := Tier1Args {
  ta_installation : string; ta_pr : string; ta_id : string; ta_file : string;
  ta_start : Z; ta_end : Z; ta_tool : string; ta_rule : string; ta_suppression : suppression_args;
}.

Definition tier1_row (a : tier1_args) (now : Z) (st : suppression_state) : frow :=
  let ruleTitle := (ta_tool a +:+ ":" +:+ ta_rule a)%string in
  FRow (Content (ta_installation a) (ta_pr a) (ta_file a) (ta_start a) (ta_end a) issue other
          ruleTitle ruleTitle None 1000 [] (JObj []) chunk_observed [] now)
       (suppression_of (ta_suppression a) st None) undelivered 1 (Some (ta_tool a)).

Definition insertTier1Finding (a : tier1_args) (now : Z) (s : store) : store * result store_error unit :=
  match (match suppression_of_string (sa_state (ta_suppression a)) with
         | None => Throw SqlTypeError
         | Some st => insert_row s (findings s) (ta_id a, tier1_row a now st)
         end) with
  | Ok t => (with_findings t s, Ok tt)
  | Throw e => (s, Throw e)
  end.

Definition arbitrated (a : suppression_args) (st : suppression_state) (r : frow) : frow :=
  FRow (fr_content r) (suppression_of a st (sp_by_finding (fr_suppression r))) (fr_delivery r) 2
       (Some (default "llm"%string (fr_source_tool r))).

Definition updateTier2Arbitration (installationId id : string) (a : suppression_args) (s : store)
    : store * result store_error unit :=
  match suppression_of_string (sa_state a) with
  | None => (s, Throw SqlTypeError)
  | Some st =>
      if negb (suppression_typed (suppression_of a st None)) then (s, Throw SqlTypeError)
      else match findings s !! id with
      | Some r =>
          if decide (ct_installation (fr_content r) = installationId) then
            if row_checks (arbitrated a st r)
            then (with_findings (<[id := arbitrated a st r]> (findings s)) s, Ok tt)
            else (s, Throw SqlCheckViolation)
          else (s, Ok tt)
      | None => (s, Ok tt)
      end
  end.

(** * The delivery setters *)

(** The guards every setter's UPDATE has in its WHERE clause. *)
Definition flippable (installationId : string) (r : frow) : bool :=
  bool_decide (ct_installation (fr_content r) = installationId)
  && bool_decide (dl_outcome (fr_delivery r) = None)
  && bool_decide (sp_state (fr_suppression r) = NONE).

Section BulkUpdate.
(** [UPDATE ... FROM unnest(...)]: when several joined rows match a target, one
    of them updates it, and Postgres does not say which. *)
Variable pick : string -> nat -> nat.
Context {A : Type}.

Definition joined (id : string) (data : list (string * A)) : list A :=
  snd <$> filter (fun p => p.1 = id) data.

Definition chosen (id : string) (data : list (string * A)) : option A :=
  let l := joined id data in l !! (pick id (length l) mod length l)%nat.

Definition with_delivery (d : delivery) (r : frow) : frow :=
  FRow (fr_content r) (fr_suppression r) d (fr_tier r) (fr_source_tool r).

Definition flip_row (installationId : string) (data : list (string * A))
    (set : A -> delivery -> delivery) (id : string) (r : frow) : option frow :=
  if flippable installationId r then
    match chosen id data with Some a => Some (with_delivery (set a (fr_delivery r)) r) | None => None end
  else None.

(** The rows the statement updates, by identifier. *)
Definition updates (installationId : string) (data : list (string * A))
    (set : A -> delivery -> delivery) (t : table) : table :=
  map_imap (flip_row installationId data set) t.

(** [RETURNING rf.review_finding_id]; the callers only count the rows. *)
Definition bulk_update (installationId : string) (data : list (string * A))
    (set : A -> delivery -> delivery) (postedReviewPrId : string) (s : store)
    : store * result store_error (list string) :=
  let u := updates installationId data set (findings s) in
  if negb (forallb (fun p => row_checks p.2) (map_to_list u)) then (s, Throw SqlCheckViolation)
  else if negb (bool_decide (u = ∅) || bool_decide (postedReviewPrId ∈ posted_reviews s))
  then (s, Throw SqlForeignKeyViolation)
  else (with_findings (u ∪ findings s) s, Ok (map_to_list u).*1).
End BulkUpdate.
Arguments bulk_update _ {A} _ _ _ _ _.
Arguments updates _ {A} _ _ _ _.
Arguments flip_row _ {A} _ _ _ _ _.
Arguments chosen _ {A} _ _.

Record setter_args := SetterArgs {
  st_installation : string; st_rfids : list string; st_posted_review_pr_id : string;
  st_now : Z; st_writes_enabled : bool;
}.

Definition set_finalized (a : setter_args) (cid : Z) (d : delivery) : delivery :=
  Delivery (Some eligible) (dl_reason d) (Some inline_delivered) (Some cid)
    (Some (st_posted_review_pr_id a)) (Some (st_now a)).
Definition set_skipped (a : setter_args) (reason : eligibility_reason) (d : delivery) : delivery :=
  Delivery (Some skipped) (Some reason) (Some not_applicable) (dl_comment d)
    (Some (st_posted_review_pr_id a)) (Some (st_now a)).
Definition set_degraded (a : setter_args) (outcome : delivery_outcome) (d : delivery) : delivery :=
  Delivery (Some eligible) (dl_reason d) (Some outcome) (dl_comment d)
    (Some (st_posted_review_pr_id a)) (Some (st_now a)).

Definition show_len {A} (l : list A) : string := pretty (length l).

Definition recordDeliveryFinalized (pick : string -> nat -> nat) (a : setter_args) (commentIds : list Z)
    (s : store) : store * result store_error (list string) :=
  if negb (st_writes_enabled a) then (s, Ok [])
  else if (length (st_rfids a) =? 0)%nat then (s, Ok [])
  else if negb (length (st_rfids a) =? length commentIds)%nat then
    (s, Throw (Invariant ("length mismatch: rfids=" +:+ show_len (st_rfids a) +:+
                          " comment_ids=" +:+ show_len commentIds)%string))
  else if negb (forallb int8 commentIds) then (s, Throw SqlTypeError)
  else bulk_update pick (st_installation a) (zip (st_rfids a) commentIds) (set_finalized a)
         (st_posted_review_pr_id a) s.

Definition VALID_ELIGIBILITY_REASONS : list string :=
  ["file_not_in_diff"; "line_after_last_hunk"; "line_before_first_hunk"; "line_spans_hunks";
   "line_in_unchanged_gap"]%string.

Definition unknown_reason (r : string) : store_error :=
  Invariant ("unknown eligibility_reason: " +:+ quote r +:+ " (valid: " +:+
             JsString.join ", " (sort_by str_leb VALID_ELIGIBILITY_REASONS) +:+ ")")%string.

Definition recordDeliverySkipped (pick : string -> nat -> nat) (a : setter_args) (reasons : list string)
    (s : store) : store * result store_error (list string) :=
  if negb (st_writes_enabled a) then (s, Ok [])
  else if (length (st_rfids a) =? 0)%nat then (s, Ok [])
  else if negb (length (st_rfids a) =? length reasons)%nat then
    (s, Throw (Invariant ("length mismatch: rfids=" +:+ show_len (st_rfids a) +:+
                          " reasons=" +:+ show_len reasons)%string))
  else match filter (fun r => r ∉ VALID_ELIGIBILITY_REASONS) reasons with
  | r :: _ => (s, Throw (unknown_reason r))
  | [] =>
      match mapM reason_of_string reasons with
      | None => (s, Throw SqlTypeError)
      | Some rs => bulk_update pick (st_installation a) (zip (st_rfids a) rs) (set_skipped a)
                     (st_posted_review_pr_id a) s
      end
  end.

Definition DEGRADED_OUTCOMES : list string := ["body_only_fallback"; "failed"]%string.

Definition recordDeliveryDegraded (pick : string -> nat -> nat) (a : setter_args) (outcome : string)
    (s : store) : store * result store_error (list string) :=
  if negb (bool_decide (outcome ∈ DEGRADED_OUTCOMES)) then
    (s, Throw (Invariant ("record_delivery_degraded outcome=" +:+ quote outcome +:+ " not in " +:+
       JsString.join ", " (sort_by str_leb DEGRADED_OUTCOMES) +:+
       "; inline_delivered / not_applicable are owned by the finalize / skip setters respectively")%string))
  else if negb (st_writes_enabled a) then (s, Ok [])
  else if (length (st_rfids a) =? 0)%nat then (s, Ok [])
  else match outcome_of_string outcome with
  | None => (s, Throw SqlTypeError)
  | Some o => bulk_update pick (st_installation a) (map (fun id => (id, tt)) (st_rfids a))
                (fun _ => set_degraded a o) (st_posted_review_pr_id a) s
  end.

(** ** The activities *)

Inductive activity_error :=
| ActivityError (message type : string) (nonRetryable : bool)
| Propagated (e : store_error).

(** Postgres's and the guard's own messages begin with none of the fragments. *)
Definition isRepoInvariantViolation (e : store_error) : bool :=
  match e with
  | Invariant m => String.prefix "length mismatch:" m || String.prefix "unknown eligibility_reason:" m
                   || String.prefix "record_delivery_degraded outcome=" m
  | _ => false
  end.

Definition runSetter (failureType : string) (m : store * result store_error (list string))
    : store * result activity_error Z :=
  (m.1, match m.2 with
        | Ok flipped => Ok (Z.of_nat (length flipped))
        | Throw (Invariant msg as e) =>
            if isRepoInvariantViolation e then Throw (ActivityError msg failureType true)
            else Throw (Propagated e)
        | Throw e => Throw (Propagated e)
        end).

(** [(process.env.X ?? "false").toLowerCase() === "true"] *)
Definition flag_on (v : option string) : bool :=
  match v with None => false | Some s => String.eqb (JsString.to_lower s) "true" end.

(** * The reads *)

Section Reads.
(** The order of [file_path] in the collation of the database. *)
Variable collate : string -> string -> bool.

Definition live (installationId prId : string) (p : string * frow) : bool :=
  let r := p.2 in
  bool_decide (ct_installation (fr_content r) = installationId)
  && bool_decide (ct_pr (fr_content r) = prId)
  && bool_decide (sp_state (fr_suppression r) = NONE)
  && (bool_decide (dl_outcome (fr_delivery r) = Some inline_delivered)
      || bool_decide (dl_outcome (fr_delivery r) = Some body_only_fallback)).

(** [ORDER BY file_path, start_line, review_finding_id] *)
Definition live_order (p q : string * frow) : bool :=
  let a := fr_content p.2 in let b := fr_content q.2 in
  if String.eqb (ct_file a) (ct_file b) then
    (ct_start a <? ct_start b) || ((ct_start a =? ct_start b) && str_leb p.1 q.1)
  else collate (ct_file a) (ct_file b).

Definition row_finding (c : content) : finding :=
  {| f_file := ct_file c; start_line := ct_start c; end_line := ct_end c;
     severity := ct_severity c; category := ct_category c; title := ct_title c; body := ct_body c;
     f_suggestion := ct_suggestion c; confidence := Qmake (ct_confidence c) 1000;
     sources := ct_citations c; scope := ct_scope c; evidence_refs := ct_evidence_refs c |}.

Definition live_rows (installationId prId : string) (s : store) : list (string * frow) :=
  sort_by live_order (filter (fun p => live installationId prId p = true) (map_to_list (findings s))).

Definition parse_row (p : string * frow) : result store_error finding :=
  let f := row_finding (fr_content p.2) in guard? finding_ok f else ZodError in Ok f.

Definition loadLiveFindingsForPr (installationId prId : string) (s : store)
    : result store_error (list finding) :=
  rmap parse_row (live_rows installationId prId s).

(** The carry-forward loader: nothing is read while the flag is off. *)
Definition loadParentReviewFindingsActivity (carry_forward : option string)
    (installationId prId reviewId : string) (s : store)
    : result store_error (option string * list finding) :=
  if negb (flag_on carry_forward) then Ok (None, [])
  else let? l := loadLiveFindingsForPr installationId prId s in
       Ok (match l with [] => None | _ => Some reviewId end, l).

Definition skipped_for_walkthrough (installationId prId : string) (p : string * frow) : bool :=
  let r := p.2 in
  bool_decide (ct_installation (fr_content r) = installationId)
  && bool_decide (ct_pr (fr_content r) = prId)
  && bool_decide (dl_eligibility (fr_delivery r) = Some skipped)
  && bool_decide (sp_state (fr_suppression r) = NONE).

Definition severity_rank_sql (s : Severity) : Z :=
  match s with blocker => 0 | issue => 1 | suggestion => 2 | nit => 3 end.

(** [ORDER BY severityRank, file_path, start_line]; ties in any order. *)
Definition skipped_order (p q : string * frow) : bool :=
  let a := fr_content p.2 in let b := fr_content q.2 in
  let ra := severity_rank_sql (ct_severity a) in let rb := severity_rank_sql (ct_severity b) in
  if ra =? rb then
    if String.eqb (ct_file a) (ct_file b) then ct_start a <=? ct_start b
    else collate (ct_file a) (ct_file b)
  else ra <? rb.

Definition fetchSkippedForWalkthrough (installationId prId : string) (s : store)
    : list (string * content * option eligibility_reason) :=
  map (fun p => (p.1, fr_content p.2, dl_reason (fr_delivery p.2)))
    (sort_by skipped_order
       (filter (fun p => skipped_for_walkthrough installationId prId p = true) (map_to_list (findings s)))).
End Reads.

(** * What every row keeps *)

(** The delivery columns of a row: none of them, or an outcome with exactly the
    columns that go with it. *)
Definition settled (d : delivery) : bool :=
  match dl_outcome d, dl_eligibility d, dl_reason d, dl_comment d, dl_posted d, dl_updated_at d with
  | None, None, None, None, None, None => true
  | Some inline_delivered, Some eligible, None, Some _, Some _, Some _ => true
  | Some body_only_fallback, Some eligible, None, None, Some _, Some _ => true
  | Some failed, Some eligible, None, None, Some _, Some _ => true
  | Some not_applicable, Some skipped, Some _, None, Some _, Some _ => true
  | _, _, _, _, _, _ => false
  end.

Definition refs_ok (s : store) (r : frow) : Prop :=
  ct_installation (fr_content r) ∈ installations s /\ ct_pr (fr_content r) ∈ pull_requests s /\
  forall p, dl_posted (fr_delivery r) = Some p -> p ∈ posted_reviews s.

(** The content of a row reads back as a finding of the contract, but for a
    title that is too long for it: [tool:rule] of an analyser has up to 213
    characters. *)
Definition readable (c : content) : Prop :=
  finding_ok (row_finding c) = true \/ (200 < String.length (ct_title c))%nat.

(** What the contract of an analyser's finding ([AnalysisFindingV1]) says of the
    columns: the tools are an enumeration, the longest has 13 characters. *)
Definition tier1_ok (a : tier1_args) : bool :=
  (1 <=? String.length (ta_file a))%nat && (String.length (ta_tool a) <=? 13)%nat
  && (1 <=? String.length (ta_rule a))%nat && (String.length (ta_rule a) <=? 200)%nat
  && (1 <=? ta_start a) && (1 <=? ta_end a) && (ta_start a <=? ta_end a).

Record row_ok (s : store) (r : frow) : Prop := {
  ro_checks : row_checks r = true;
  ro_settled : settled (fr_delivery r) = true;
  ro_readable : readable (fr_content r);
  ro_by : sp_by_finding (fr_suppression r) = None;
  ro_refs : refs_ok s r;
}.

Definition store_ok (s : store) : Prop := map_Forall (fun _ r => row_ok s r) (findings s).

(** What the other writers of the database do: add installations, pull requests
    and posted reviews, append events, and anything to the runs and reviews. *)
Definition extends (s s' : store) : Prop :=
  findings s' = findings s /\ installations s ⊆ installations s' /\
  pull_requests s ⊆ pull_requests s' /\ posted_reviews s ⊆ posted_reviews s' /\
  exists l, events (core s') = events (core s) ++ l.

Inductive store_step (s : store) : store -> Prop :=
| ss_persist a now i1 i2 :
    forallb finding_ok (a_findings (pa_aggregated a)) = true ->
    store_step s (persistAggregated a now i1 i2 s).1
| ss_tier1 a now : tier1_ok a = true -> store_step s (insertTier1Finding a now s).1
| ss_tier2 inst id a : store_step s (updateTier2Arbitration inst id a s).1
| ss_finalized pick a cids : store_step s (recordDeliveryFinalized pick a cids s).1
| ss_skipped pick a rs : store_step s (recordDeliverySkipped pick a rs s).1
| ss_degraded pick a o : store_step s (recordDeliveryDegraded pick a o s).1
| ss_other s' : extends s s' -> store_step s s'.

Definition store_steps : store -> store -> Prop := rtc store_step.

Definition empty_store (s : store) : Prop := findings s = ∅.

(** What one write may do to the table: keep a row's content; keep its delivery
    when it has an outcome, else write one that is settled; insert rows that are
    not delivered yet. *)
Record row_step (s : store) (r r' : frow) : Prop := {
  rs_content : fr_content r' = fr_content r;
  rs_checks : row_checks r' = true;
  rs_by : sp_by_finding (fr_suppression r') = sp_by_finding (fr_suppression r);
  rs_delivery : fr_delivery r' = fr_delivery r \/
    (dl_outcome (fr_delivery r) = None /\ sp_state (fr_suppression r) = NONE /\
     dl_outcome (fr_delivery r') <> None /\
     (settled (fr_delivery r) = true -> settled (fr_delivery r') = true) /\
     forall p, dl_posted (fr_delivery r') = Some p -> p ∈ posted_reviews s);
}.

Record row_new (s : store) (r : frow) : Prop := {
  rn_checks : row_checks r = true;
  rn_delivery : fr_delivery r = undelivered;
  rn_readable : readable (fr_content r);
  rn_by : sp_by_finding (fr_suppression r) = None;
  rn_refs : ct_installation (fr_content r) ∈ installations s /\ ct_pr (fr_content r) ∈ pull_requests s;
}.

Definition table_step (s : store) (t : table) : Prop :=
  forall id, match findings s !! id, t !! id with
             | Some r, Some r' => r' = r \/ row_step s r r'
             | Some _, None => False
             | None, Some r' => row_new s r'
             | None, None => True
             end.

Lemma findings_step_refl s : table_step s (findings s).
Proof. intros id. destruct (findings s !! id); auto. Qed.

(** ** The INSERTs *)

Lemma insert_row_inv s t id r t' :
  insert_row s t (id, r) = Ok t' ->
  t' = t /\ is_Some (t !! id) \/
  t' = <[id := r]> t /\ t !! id = None /\ row_checks r = true /\
    ct_installation (fr_content r) ∈ installations s /\ ct_pr (fr_content r) ∈ pull_requests s.
Proof.
  unfold insert_row. intros H.
  destruct (content_typed _ && _ && _) eqn:Et; [|discriminate H].
  destruct (row_checks r) eqn:Ec; [|discriminate H].
  destruct (t !! id) as [q|] eqn:El; [left; injection H as <-; eauto|].
  destruct (bool_decide _ && bool_decide _) eqn:Ef; [|discriminate H].
  injection H as <-. bool_to_prop. right. auto.
Qed.

(** What the INSERTs of the repository are given. *)
Definition fresh_row (r : frow) : Prop :=
  fr_delivery r = undelivered /\ readable (fr_content r) /\ sp_by_finding (fr_suppression r) = None.

Lemma insert_row_step s t id r t' :
  fresh_row r -> table_step s t -> insert_row s t (id, r) = Ok t' -> table_step s t'.
Proof.
  intros (Hd & Hre & Hby) Ht H%insert_row_inv.
  destruct H as [[-> _] | (-> & Hn & Hc & Hi & Hp)]; [done|].
  intros i. specialize (Ht i). destruct (decide (i = id)) as [->|Hne].
  - rewrite Hn in Ht. rewrite lookup_insert_eq. destruct (findings s !! id); [done|]. by constructor.
  - by rewrite lookup_insert_ne.
Qed.

Lemma insert_rows_step s l t t' :
  Forall (fun p => fresh_row p.2) l -> table_step s t -> insert_rows s t l = Ok t' -> table_step s t'.
Proof.
  intros Hl. revert t. induction Hl as [|[id r] l Hd Hl IH]; intros t Ht H.
  - by injection H as <-.
  - simpl in H. apply rbind_ok in H as (t1 & H1 & H). eauto using insert_row_step.
Qed.

(** ** Confidences in thousandths *)

Lemma thousandths_range q : (0 <= q)%Q -> (q <= 1)%Q -> 0 <= thousandths q <= 1000.
Proof.
  destruct q as [n d]. unfold Qle, thousandths. simpl. intros Hlo Hhi.
  rewrite (proj2 (Z.leb_le 0 (2000 * n))) by lia. split.
  - apply Z.div_pos; lia.
  - apply Z.lt_succ_r, Z.div_lt_upper_bound; lia.
Qed.

(** What is stored is within half a thousandth of the confidence. *)
Lemma thousandths_close q :
  (0 <= q)%Q -> 2 * Z.abs (thousandths q * Z.pos (Qden q) - 1000 * Qnum q) <= Z.pos (Qden q).
Proof.
  destruct q as [n d]. unfold Qle, thousandths. simpl. intros Hlo.
  rewrite (proj2 (Z.leb_le 0 (2000 * n))) by lia.
  pose proof (Z.div_mod (2000 * n + Z.pos d) (2 * Z.pos d) ltac:(lia)) as Hdm.
  pose proof (Z.mod_pos_bound (2000 * n + Z.pos d) (2 * Z.pos d) ltac:(lia)) as Hm.
  revert Hdm Hm. generalize ((2000 * n + Z.pos d) / (2 * Z.pos d)), ((2000 * n + Z.pos d) mod (2 * Z.pos d)).
  intros k m Hdm Hm. nia.
Qed.

Lemma unit_interval k : 0 <= k <= 1000 -> Qle_bool 0 (Qmake k 1000) && Qle_bool (Qmake k 1000) 1 = true.
Proof. intros Hk. apply andb_true_iff. split; apply Qle_bool_iff; unfold Qle; simpl; lia. Qed.

Lemma content_of_readable inst pr now pm f :
  finding_ok f = true -> readable (content_of inst pr now pm f).
Proof.
  intros H. left. revert H. unfold finding_ok. simpl. intros H. bool_to_prop.
  match goal with
  | Hl : Qle_bool 0 _ = true, Hh : Qle_bool _ 1 = true |- _ =>
      apply Qle_bool_iff in Hl; apply Qle_bool_iff in Hh;
      pose proof (unit_interval _ (thousandths_range _ Hl Hh)) as [-> ->]%andb_true_iff
  end.
  rewrite !andb_true_iff, !Z.leb_le, !Nat.leb_le. by split_and!.
Qed.

Lemma tier1_row_readable a now st : tier1_ok a = true -> readable (fr_content (tier1_row a now st)).
Proof.
  unfold tier1_ok. intros H. bool_to_prop. unfold readable. simpl.
  set (t := (ta_tool a +:+ ":" +:+ ta_rule a)%string).
  assert (Ht : String.length t = (String.length (ta_tool a) + (1 + String.length (ta_rule a)))%nat).
  { unfold t. by rewrite !JsString.length_append. }
  destruct (decide (200 < String.length t)%nat) as [Hlong|Hlong]; [by right|left].
  unfold finding_ok, len_in. cbn -[Nat.leb Z.leb]. fold t. rewrite !andb_true_iff, !Z.leb_le, !Nat.leb_le.
  split_and!; try done; lia.
Qed.

Lemma finding_rows_fresh inst pr now pm l :
  forallb finding_ok l = true -> Forall (fun p => fresh_row p.2) (finding_rows inst pr now pm l).
Proof.
  intros Hl. apply Forall_lookup. intros i p. unfold finding_rows. rewrite list_lookup_imap.
  intros (f & Hf & ->)%fmap_Some. split_and!; [done| |done]. apply content_of_readable.
  rewrite forallb_forall in Hl. apply Hl, list_elem_of_In. by eapply list_elem_of_lookup_2.
Qed.

(** ** The UPDATEs *)

Lemma updates_lookup {A} pick inst (data : list (string * A)) set t id :
  updates pick inst data set t !! id = t !! id ≫= flip_row pick inst data set id.
Proof. unfold updates. by rewrite map_lookup_imap. Qed.

Lemma flip_row_inv {A} pick inst (data : list (string * A)) set id r r' :
  flip_row pick inst data set id r = Some r' ->
  ct_installation (fr_content r) = inst /\ dl_outcome (fr_delivery r) = None /\
  sp_state (fr_suppression r) = NONE /\
  exists a, (id, a) ∈ data /\ r' = with_delivery (set a (fr_delivery r)) r.
Proof.
  unfold flip_row. destruct (flippable inst r) eqn:Ef; [|done]. unfold flippable in Ef. bool_to_prop.
  destruct (chosen pick id data) as [a|] eqn:Ea; [|done]. intros [= <-].
  split_and!; [done..|]. exists a. split; [|done].
  unfold chosen in Ea. apply list_elem_of_lookup_2 in Ea. unfold joined in Ea.
  apply list_elem_of_fmap in Ea as ([i x] & -> & [Hi Hin]%list_elem_of_filter). simpl in *. by subst.
Qed.

Lemma flip_row_some {A} pick inst (data : list (string * A)) set id r :
  flippable inst r = true -> id ∈ data.*1 -> is_Some (flip_row pick inst data set id r).
Proof.
  intros Hf ([i a] & Hi & Hin)%list_elem_of_fmap. simpl in Hi. subst i.
  unfold flip_row. rewrite Hf. unfold chosen.
  set (l := joined id data). assert (Hl : length l <> 0%nat).
  { assert (Ha : a ∈ l).
    { unfold l, joined. apply list_elem_of_fmap. exists (id, a). split; [done|]. by apply list_elem_of_filter. }
    destruct l; [by apply not_elem_of_nil in Ha|done]. }
  destruct (lookup_lt_is_Some_2 l (pick id (length l) mod length l)) as [x ->]; [|eauto].
  by apply Nat.mod_upper_bound.
Qed.

(** A successful bulk UPDATE. *)
Lemma bulk_update_ok {A} pick inst (data : list (string * A)) set posted s s' l :
  bulk_update pick inst data set posted s = (s', Ok l) ->
  let u := updates pick inst data set (findings s) in
  s' = with_findings (u ∪ findings s) s /\ l = (map_to_list u).*1 /\
  map_Forall (fun _ r => row_checks r = true) u /\ (u = ∅ \/ posted ∈ posted_reviews s).
Proof.
  unfold bulk_update. intros H. simpl.
  destruct (forallb _ _) eqn:Hc; [|discriminate H]. simpl in H.
  destruct (bool_decide _ || bool_decide _) eqn:Hf; [|discriminate H]. injection H as <- <-.
  split_and!; [done..| |].
  - intros id r Hr. rewrite forallb_forall in Hc. apply (Hc (id, r)), list_elem_of_In.
    by apply elem_of_map_to_list.
  - apply orb_true_iff in Hf as [Hf|Hf]; bool_to_prop; auto.
Qed.

Lemma bulk_update_throw {A} pick inst (data : list (string * A)) set posted s s' e :
  bulk_update pick inst data set posted s = (s', Throw e) -> s' = s.
Proof. unfold bulk_update. destruct (negb _); [by intros [= <-]|]. destruct (negb _); by intros [= <-]. Qed.

Lemma bulk_update_step {A} pick inst (data : list (string * A)) set posted s :
  (forall a d, dl_outcome (set a d) <> None) ->
  (forall id a d, (id, a) ∈ data -> settled d = true -> dl_outcome d = None -> settled (set a d) = true) ->
  (forall a d, dl_posted (set a d) = Some posted) ->
  table_step s (findings (bulk_update pick inst data set posted s).1).
Proof.
  intros Hout Hset Hpost. destruct (bulk_update _ _ _ _ _ _) as [s' [l|e]] eqn:E.
  2:{ apply bulk_update_throw in E as ->. apply findings_step_refl. }
  apply bulk_update_ok in E as (-> & _ & Hc & Hf). simpl. intros id.
  rewrite lookup_union, updates_lookup.
  destruct (findings s !! id) as [r|] eqn:Er; simpl; [|done].
  destruct (flip_row _ _ _ _ _ _) as [r'|] eqn:Ef; simpl; [|by left].
  assert (Hu : updates pick inst data set (findings s) !! id = Some r').
  { by rewrite updates_lookup, Er. }
  right. pose proof (Hc _ _ Hu) as Hr'. simpl in Hr'.
  apply flip_row_inv in Ef as (_ & Ho & Hs & a & Hin & ->).
  constructor; [done..|]. right. split_and!; [done|done|apply Hout| |].
  - intros Hd. simpl. by eapply Hset.
  - intros p. simpl. rewrite Hpost. intros [= <-]. destruct Hf as [Hf|Hf]; [|done].
    rewrite Hf in Hu. by rewrite lookup_empty in Hu.
Qed.

(** ** Every operation *)

Definition same_sets (s s' : store) : Prop :=
  installations s' = installations s /\ pull_requests s' = pull_requests s /\
  posted_reviews s' = posted_reviews s.

Lemma same_sets_refl s : same_sets s s.
Proof. done. Qed.

Lemma bulk_update_sets {A} pick inst (data : list (string * A)) set posted s :
  same_sets s (bulk_update pick inst data set posted s).1.
Proof. unfold bulk_update. destruct (negb _); [done|]. by destruct (negb _). Qed.

(** What of a successful transaction of [persistAggregated] is about findings. *)
Lemma persist_tx_inv a now i1 i2 s s' :
  persist_tx a now i1 i2 s = Ok s' ->
  same_sets s s' /\
  insert_rows s (findings s) (finding_rows (pa_installation a) (pa_pr a) now (pa_policy_metadata a)
                                (a_findings (pa_aggregated a))) = Ok (findings s') /\
  (exists v, reviews (core s) !! pa_review a = Some v /\ current_run_id v = Some (pa_run a)) /\
  runs (core s') = runs (core s) /\ reviews (core s') = reviews (core s) /\
  milestone_exists (pa_run a) (events (core s')) = true.
Proof.
  unfold persist_tx. destruct (assertCurrentRun _ _ _ _ _ _ _ _) as [[core1 pend] [u|e]] eqn:Eg; [|done].
  assert (Hcore : core1 = core s /\
    exists v, reviews (core s) !! pa_review a = Some v /\ current_run_id v = Some (pa_run a)).
  { unfold assertCurrentRun in Eg. simpl in Eg. repeat case_match; simplify_eq. eauto. }
  destruct Hcore as [-> Hv]. intros H. apply rbind_ok in H as (t & Ht & H).
  destruct (milestone_exists _ _) eqn:Em.
  - injection H as <-. by split_and!.
  - destruct (emitWorkflowEvent _ _ _ _ _ _) as [[evs id]|e] eqn:Ee; [|done]. injection H as <-.
    split_and!; try done. simpl. unfold emitWorkflowEvent in Ee.
    destruct (emit_validate _ _); [|done]. simpl in Ee. repeat case_match; simplify_eq.
    unfold milestone_exists. rewrite existsb_app, orb_true_iff. right. simpl.
    by rewrite String.eqb_refl.
Qed.

Lemma persistAggregated_table a now i1 i2 s :
  forallb finding_ok (a_findings (pa_aggregated a)) = true ->
  table_step s (findings (persistAggregated a now i1 i2 s).1) /\
  same_sets s (persistAggregated a now i1 i2 s).1.
Proof.
  intros Hok. unfold persistAggregated. destruct (persist_tx _ _ _ _ _) as [s'|e] eqn:E; simpl.
  - apply persist_tx_inv in E as (Hsets & Hins & _). split; [|done].
    eauto using insert_rows_step, findings_step_refl, finding_rows_fresh.
  - split; [apply findings_step_refl|done].
Qed.

Lemma insertTier1Finding_table a now s :
  tier1_ok a = true -> table_step s (findings (insertTier1Finding a now s).1) /\ same_sets s (insertTier1Finding a now s).1.
Proof.
  intros Hok. unfold insertTier1Finding.
  destruct (suppression_of_string _) as [st|]; [|split; [apply findings_step_refl|done]].
  destruct (insert_row s _ _) as [t|e] eqn:E; [|split; [apply findings_step_refl|done]].
  split; [|done]. eapply insert_row_step; [|apply findings_step_refl|exact E].
  split_and!; [done|by apply tier1_row_readable|done].
Qed.

Lemma updateTier2Arbitration_table inst id a s :
  table_step s (findings (updateTier2Arbitration inst id a s).1) /\
  same_sets s (updateTier2Arbitration inst id a s).1.
Proof.
  unfold updateTier2Arbitration.
  repeat case_match; try (split; [apply findings_step_refl|done]).
  split; [|done]. simpl. intros i. destruct (decide (i = id)) as [->|Hne].
  - rewrite lookup_insert_eq. match goal with H : findings s !! id = _ |- _ => rewrite H end.
    right. by constructor; [| | |left].
  - rewrite lookup_insert_ne by done. destruct (findings s !! i); auto.
Qed.

Lemma recordDeliveryFinalized_table pick a cids s :
  table_step s (findings (recordDeliveryFinalized pick a cids s).1) /\
  same_sets s (recordDeliveryFinalized pick a cids s).1.
Proof.
  unfold recordDeliveryFinalized. repeat case_match; try (split; [apply findings_step_refl|done]).
  split; [|apply bulk_update_sets]. apply bulk_update_step; [done| |done].
  intros id cid d _ Hd Ho. unfold settled in *. rewrite Ho in Hd. unfold set_finalized. simpl.
  by repeat case_match.
Qed.

Lemma recordDeliverySkipped_table pick a rs s :
  table_step s (findings (recordDeliverySkipped pick a rs s).1) /\
  same_sets s (recordDeliverySkipped pick a rs s).1.
Proof.
  unfold recordDeliverySkipped. repeat case_match; try (split; [apply findings_step_refl|done]).
  split; [|apply bulk_update_sets]. apply bulk_update_step; [done| |done].
  intros id cid d _ Hd Ho. unfold settled in *. rewrite Ho in Hd. unfold set_skipped. simpl.
  by repeat case_match.
Qed.

Lemma degraded_outcomes outcome o :
  outcome ∈ DEGRADED_OUTCOMES -> outcome_of_string outcome = Some o ->
  o = body_only_fallback \/ o = failed.
Proof.
  unfold DEGRADED_OUTCOMES. rewrite elem_of_cons, list_elem_of_singleton.
  intros [-> | ->]; vm_compute; intros [= <-]; auto.
Qed.

Lemma recordDeliveryDegraded_table pick a outcome s :
  table_step s (findings (recordDeliveryDegraded pick a outcome s).1) /\
  same_sets s (recordDeliveryDegraded pick a outcome s).1.
Proof.
  unfold recordDeliveryDegraded.
  destruct (bool_decide (outcome ∈ _)) eqn:Hin; simpl; [|split; [apply findings_step_refl|done]].
  bool_to_prop. destruct (negb _); [split; [apply findings_step_refl|done]|].
  destruct (_ =? _)%nat; [split; [apply findings_step_refl|done]|].
  destruct (outcome_of_string outcome) as [o|] eqn:Eo; [|split; [apply findings_step_refl|done]].
  pose proof (degraded_outcomes _ _ Hin Eo) as Ho.
  split; [|apply bulk_update_sets]. apply bulk_update_step; [done| |done].
  intros id _ d _ Hd Hd'. unfold settled in *. rewrite Hd' in Hd. unfold set_degraded. simpl.
  destruct Ho as [-> | ->]; by repeat case_match.
Qed.

Lemma store_step_inv s s' :
  store_step s s' -> extends s s' \/ table_step s (findings s') /\ same_sets s s'.
Proof.
  destruct 1; [right..|by left].
  - by apply persistAggregated_table.
  - by apply insertTier1Finding_table.
  - apply updateTier2Arbitration_table.
  - apply recordDeliveryFinalized_table.
  - apply recordDeliverySkipped_table.
  - apply recordDeliveryDegraded_table.
Qed.

(** ** Along any sequence of operations *)

Lemma row_ok_mono s s' r :
  installations s ⊆ installations s' -> pull_requests s ⊆ pull_requests s' ->
  posted_reviews s ⊆ posted_reviews s' -> row_ok s r -> row_ok s' r.
Proof. intros Hi Hp Hq [Hc Hs Hre Hby (Hr1 & Hr2 & Hr3)]. constructor; [done..|]. split_and!; eauto. Qed.

Lemma row_step_ok s r r' : row_step s r r' -> row_ok s r -> row_ok s r'.
Proof.
  intros [Hct Hc Hb Hd] [_ Hs Hre Hby (Hr1 & Hr2 & Hr3)]. constructor; [done| |by rewrite Hct|congruence|].
  - destruct Hd as [->|(_ & _ & _ & Hs' & _)]; auto.
  - unfold refs_ok. rewrite Hct. split_and!; [done..|].
    destruct Hd as [->|(_ & _ & _ & _ & Hp)]; auto.
Qed.

Lemma store_step_ok s s' : store_step s s' -> store_ok s -> store_ok s'.
Proof.
  intros [(Hf & Hi & Hp & Hq & _) | [Ht (Hi & Hp & Hq)]]%store_step_inv Hok id r' Hr'.
  - rewrite Hf in Hr'. eapply row_ok_mono; [done..|]. by eapply Hok.
  - specialize (Ht id). rewrite Hr' in Ht.
    apply (row_ok_mono s); [by rewrite Hi|by rewrite Hp|by rewrite Hq|].
    destruct (findings s !! id) as [r|] eqn:Er.
    + pose proof (Hok _ _ Er) as Hrow. destruct Ht as [-> | Ht]; eauto using row_step_ok.
    + destruct Ht as [Hc Hd Hre Hby [H1 H2]]. constructor; [done|by rewrite Hd|done|done|].
      split_and!; [done..|]. by rewrite Hd.
Qed.

Lemma store_steps_ok s s' : store_steps s s' -> store_ok s -> store_ok s'.
Proof. induction 1; eauto using store_step_ok. Qed.

(** A row keeps its content for ever, and its delivery once it has an outcome. *)
Definition kept (r r' : frow) : Prop :=
  fr_content r' = fr_content r /\
  (dl_outcome (fr_delivery r) <> None -> fr_delivery r' = fr_delivery r).

#[export] Instance kept_preorder : PreOrder kept.
Proof.
  split; [by intros r|]. intros a b c [H1 H2] [H3 H4]. split; [congruence|].
  intros Ha. rewrite H4; [auto|]. by rewrite H2.
Qed.

Lemma store_step_kept s s' id r :
  store_step s s' -> findings s !! id = Some r -> exists r', findings s' !! id = Some r' /\ kept r r'.
Proof.
  intros [(Hf & _) | [Ht _]]%store_step_inv Hr; [rewrite Hf; by exists r|].
  specialize (Ht id). rewrite Hr in Ht. destruct (findings s' !! id) as [r'|]; [|done].
  exists r'. split; [done|]. destruct Ht as [-> | [Hc _ _ [Hd | (Hd & _)]]]; [done|by split|by split].
Qed.

Lemma store_steps_kept s s' : store_steps s s' -> forall id r,
  findings s !! id = Some r -> exists r', findings s' !! id = Some r' /\ kept r r'.
Proof.
  induction 1 as [s|s s1 s2 Hstep _ IH]; intros id r Hr; [by exists r|].
  destruct (store_step_kept _ _ _ _ Hstep Hr) as (r1 & Hr1 & Hk1).
  destruct (IH _ _ Hr1) as (r2 & Hr2 & Hk2). exists r2. split; [done|]. by etrans.
Qed.

(** The stream of events only grows. *)
Definition grows (s s' : store) : Prop := exists l, events (core s') = events (core s) ++ l.

Lemma grows_refl s : grows s s.
Proof. exists []. by rewrite app_nil_r. Qed.

Lemma bulk_update_core {A} pick inst (data : list (string * A)) set posted s :
  core (bulk_update pick inst data set posted s).1 = core s.
Proof. unfold bulk_update. destruct (negb _); [done|]. by destruct (negb _). Qed.

Lemma persistAggregated_grows a now i1 i2 s : grows s (persistAggregated a now i1 i2 s).1.
Proof.
  unfold persistAggregated, persist_tx.
  destruct (assertCurrentRun _ _ _ _ _ _ _ _) as [[core1 pend] [u|e]] eqn:Eg; [|apply grows_refl].
  assert (core1 = core s) as -> by (unfold assertCurrentRun in Eg; simpl in Eg; repeat case_match; by simplify_eq).
  destruct (insert_rows _ _ _) as [t|e]; [|apply grows_refl]. simpl.
  destruct (milestone_exists _ _); [exists []; by rewrite app_nil_r|].
  destruct (emitWorkflowEvent _ _ _ _ _ _) as [[evs id]|e] eqn:Ee; [|apply grows_refl]. simpl.
  unfold emitWorkflowEvent in Ee. destruct (emit_validate _ _); [|done]. simpl in Ee.
  repeat case_match; simplify_eq. eexists. simpl. reflexivity.
Qed.

Lemma store_step_grows s s' : store_step s s' -> grows s s'.
Proof.
  assert (Hc : forall s1, core s1 = core s -> grows s s1).
  { intros s1 H. unfold grows. rewrite H. exists []. by rewrite app_nil_r. }
  destruct 1; [apply persistAggregated_grows|..|].
  - apply Hc. unfold insertTier1Finding. by repeat case_match.
  - apply Hc. unfold updateTier2Arbitration. by repeat case_match.
  - apply Hc. unfold recordDeliveryFinalized. repeat case_match; try done. apply bulk_update_core.
  - apply Hc. unfold recordDeliverySkipped. repeat case_match; try done. apply bulk_update_core.
  - apply Hc. unfold recordDeliveryDegraded. repeat case_match; try done. apply bulk_update_core.
  - by destruct H as (_ & _ & _ & _ & H).
Qed.

Lemma milestone_app run l1 l2 : milestone_exists run l1 = true -> milestone_exists run (l1 ++ l2) = true.
Proof. unfold milestone_exists. rewrite existsb_app. by intros ->. Qed.

Lemma store_steps_milestone s s' run :
  store_steps s s' -> milestone_exists run (events (core s)) = true ->
  milestone_exists run (events (core s')) = true.
Proof.
  induction 1 as [|s s1 s2 Hstep _ IH]; [done|]. intros H. apply IH.
  destruct (store_step_grows _ _ Hstep) as (l & ->). by apply milestone_app.
Qed.

(** ** A second persist *)

Lemma finding_rows_lookup inst pr now pm l i f :
  l !! i = Some f ->
  finding_rows inst pr now pm l !! i =
  Some (finding_id pr f, FRow (content_of inst pr now (metadata_at pm i) f) unsuppressed undelivered 2 None).
Proof. intros Hf. unfold finding_rows. rewrite list_lookup_imap, Hf. done. Qed.

Lemma insert_rows_present s l t t' :
  insert_rows s t l = Ok t' ->
  (forall id, is_Some (t !! id) -> is_Some (t' !! id)) /\ Forall (fun p => is_Some (t' !! p.1)) l.
Proof.
  revert t. induction l as [|[id r] l IH]; intros t H; simpl in H; [by injection H as <-|].
  apply rbind_ok in H as (t1 & H1 & H). destruct (IH _ H) as [Hk Hl].
  apply insert_row_inv in H1 as [[-> Hid] | (-> & _)].
  - split; [done|]. constructor; [by apply Hk|done].
  - split; [|constructor; [|done]].
    + intros i Hi. apply Hk. destruct (decide (i = id)) as [->|]; [by rewrite lookup_insert_eq|].
      by rewrite lookup_insert_ne.
    + apply Hk. by rewrite lookup_insert_eq.
Qed.

(** Two rows that pass the same checks: they differ in [created_at] only. *)
Definition restamp (now : Z) (p : string * frow) : string * frow :=
  let c := fr_content p.2 in
  (p.1, FRow (Content (ct_installation c) (ct_pr c) (ct_file c) (ct_start c) (ct_end c) (ct_severity c)
                (ct_category c) (ct_title c) (ct_body c) (ct_suggestion c) (ct_confidence c)
                (ct_citations c) (ct_policy_metadata c) (ct_scope c) (ct_evidence_refs c) now)
          (fr_suppression p.2) (fr_delivery p.2) (fr_tier p.2) (fr_source_tool p.2)).

Lemma finding_rows_restamp inst pr now now' pm l :
  finding_rows inst pr now' pm l = map (restamp now') (finding_rows inst pr now pm l).
Proof.
  unfold finding_rows. apply list_eq. intros i. rewrite list_lookup_imap, list_lookup_fmap, list_lookup_imap.
  by destruct (l !! i).
Qed.

Lemma restamp_same now p :
  content_typed (fr_content (restamp now p).2) = content_typed (fr_content p.2) /\
  row_checks (restamp now p).2 = row_checks p.2.
Proof. done. Qed.

Lemma insert_row_again s s' now p t t1 t2 :
  insert_row s t p = Ok t1 -> is_Some (t2 !! p.1) -> insert_row s' t2 (restamp now p) = Ok t2.
Proof.
  intros H [q Hq]. pose proof (restamp_same now p) as [Ht Hc]. destruct p as [id r].
  unfold insert_row in *. simpl in H, Hq, Ht, Hc. unfold restamp. simpl. rewrite Ht, Hc.
  destruct (content_typed _ && _ && _); [|discriminate H].
  destruct (row_checks r); [|discriminate H]. by rewrite Hq.
Qed.

Lemma insert_rows_again s s' now l t t' t2 :
  insert_rows s t l = Ok t' -> Forall (fun p => is_Some (t2 !! p.1)) l ->
  insert_rows s' t2 (map (restamp now) l) = Ok t2.
Proof.
  intros H Hl. revert t H. induction Hl as [|p l Hp _ IH]; intros t H; [done|].
  simpl in H. apply rbind_ok in H as (t1 & H1 & H). cbn [map insert_rows].
  rewrite (insert_row_again _ s' now _ _ _ _ H1 Hp). simpl. by eapply IH.
Qed.

Lemma with_same s : with_core (core s) (with_findings (findings s) s) = s.
Proof. by destruct s. Qed.

Lemma current_guard run review site eid now db v :
  reviews db !! review = Some v -> current_run_id v = Some run ->
  assertCurrentRun true run review site eid now db [] = (db, [], Ok tt).
Proof. intros Hv Hc. unfold assertCurrentRun. simpl. by rewrite Hv, decide_True. Qed.

(** A transaction of [persistAggregated] that committed stored a row under
    every identifier it returned, and recorded the milestone of its run; run again
    (a retry whose first answer was lost), whatever the other writers did since, and
    as long as the run is still the current one, it changes nothing and returns the
    same identifiers.  A run that is not the current one stores nothing and fails. *)
Theorem persistAggregated_retry a now i1 i2 s s1 ids :
  persistAggregated a now i1 i2 s = (s1, Ok ids) ->
  ids = map (finding_id (pa_pr a)) (a_findings (pa_aggregated a)) /\
  Forall (fun id => is_Some (findings s1 !! id)) ids /\
  milestone_exists (pa_run a) (events (core s1)) = true /\
  forall s2 now' j1 j2, store_steps s1 s2 ->
    let current := exists v, reviews (core s2) !! pa_review a = Some v /\ current_run_id v = Some (pa_run a) in
    (current -> persistAggregated a now' j1 j2 s2 = (s2, Ok ids)) /\
    (~ current -> exists e, persistAggregated a now' j1 j2 s2 = (s2, Throw (RunError e))).
Proof.
  unfold persistAggregated. destruct (persist_tx a now i1 i2 s) as [s'|e] eqn:E; [|done].
  intros [= <- <-]. apply persist_tx_inv in E as (_ & Hins & _ & _ & _ & Hms).
  pose proof (insert_rows_present _ _ _ _ Hins) as [_ Hpres].
  split; [done|]. split.
  { apply Forall_lookup. intros i id. rewrite list_lookup_fmap. intros (f & Hf & ->)%fmap_Some.
    exact (Forall_lookup_1 _ _ _ _ Hpres (finding_rows_lookup _ _ _ _ _ _ _ Hf)). }
  split; [done|]. intros s2 now' j1 j2 Hsteps. simpl.
  split.
  - intros (v & Hv & Hcur). unfold persist_tx. rewrite (current_guard _ _ _ _ _ _ _ Hv Hcur).
    rewrite (finding_rows_restamp _ _ now).
    rewrite (insert_rows_again _ _ _ _ _ _ _ Hins).
    + simpl. rewrite (store_steps_milestone _ _ _ Hsteps Hms). by rewrite with_same.
    + eapply Forall_impl; [exact Hpres|]. intros p (r & Hr).
      destruct (store_steps_kept _ _ Hsteps _ _ Hr) as (r' & Hr' & _). eauto.
  - intros Hcur. unfold persist_tx, assertCurrentRun. simpl.
    destruct (reviews (core s2) !! pa_review a) as [v|] eqn:Ev; [|eauto].
    destruct (decide (current_run_id v = Some (pa_run a))) as [Hc|Hc]; [exfalso; eauto|].
    destruct (runIdToLockKey (pa_run a)); [|eauto]. destruct (runs (core s2) !! pa_run a); eauto.
Qed.

(** ** The three setters, as one call *)

Inductive setter_call :=
| finalize (commentIds : list Z)
| skip (reasons : list string)
| degrade (outcome : string).

Definition run_setter (pick : string -> nat -> nat) (a : setter_args) (c : setter_call) (s : store)
    : store * result store_error (list string) :=
  match c with
  | finalize cids => recordDeliveryFinalized pick a cids s
  | skip rs => recordDeliverySkipped pick a rs s
  | degrade o => recordDeliveryDegraded pick a o s
  end.

(** A call the repository accepts. *)
Definition well_formed (a : setter_args) (c : setter_call) : bool :=
  let silent := negb (st_writes_enabled a) || (length (st_rfids a) =? 0)%nat in
  match c with
  | finalize cids => silent || (length (st_rfids a) =? length cids)%nat
  | skip rs => silent || (length (st_rfids a) =? length rs)%nat
                         && forallb (fun r => bool_decide (r ∈ VALID_ELIGIBILITY_REASONS)) rs
  | degrade o => bool_decide (o ∈ DEGRADED_OUTCOMES)
  end.

(** The delivery columns a call may write for an identifier. *)
Definition asks (a : setter_args) (c : setter_call) (id : string) (d : delivery) : Prop :=
  let finish e r o cid := Delivery (Some e) r (Some o) cid (Some (st_posted_review_pr_id a)) (Some (st_now a)) in
  match c with
  | finalize cids => exists i cid, st_rfids a !! i = Some id /\ cids !! i = Some cid /\
      d = finish eligible None inline_delivered (Some cid)
  | skip rs => exists i r reason, st_rfids a !! i = Some id /\ rs !! i = Some r /\
      reason_of_string r = Some reason /\ d = finish skipped (Some reason) not_applicable None
  | degrade o => exists out, id ∈ st_rfids a /\ outcome_of_string o = Some out /\
      d = finish eligible None out None
  end.

(** Both shapes of a call: refused or silent, or one bulk UPDATE. *)
Inductive setter_view (pick : string -> nat -> nat) (a : setter_args) (c : setter_call) (s : store)
    : store * result store_error (list string) -> Prop :=
| sv_refused m : well_formed a c = false -> isRepoInvariantViolation (Invariant m) = true ->
    setter_view pick a c s (s, Throw (Invariant m))
| sv_silent : well_formed a c = true ->
    negb (st_writes_enabled a) || (length (st_rfids a) =? 0)%nat = true ->
    setter_view pick a c s (s, Ok [])
| sv_typed : well_formed a c = true ->
    negb (st_writes_enabled a) || (length (st_rfids a) =? 0)%nat = false ->
    (exists cids, c = finalize cids /\ forallb int8 cids = false) ->
    setter_view pick a c s (s, Throw SqlTypeError)
| sv_update (A : Type) (data : list (string * A)) (set : A -> delivery -> delivery) :
    well_formed a c = true ->
    negb (st_writes_enabled a) || (length (st_rfids a) =? 0)%nat = false ->
    (forall cids, c = finalize cids -> forallb int8 cids = true) ->
    data.*1 = st_rfids a ->
    (forall id x, (id, x) ∈ data -> asks a c id (set x undelivered)) ->
    setter_view pick a c s (bulk_update pick (st_installation a) data set (st_posted_review_pr_id a) s).

Lemma valid_reasons r : r ∈ VALID_ELIGIBILITY_REASONS -> is_Some (reason_of_string r).
Proof.
  intros H. repeat (apply elem_of_cons in H as [-> | H]; [vm_compute; eauto|]).
  by apply not_elem_of_nil in H.
Qed.

Lemma filter_unknown rs :
  forallb (fun r => bool_decide (r ∈ VALID_ELIGIBILITY_REASONS)) rs = true <->
  filter (fun r => r ∉ VALID_ELIGIBILITY_REASONS) rs = [].
Proof.
  induction rs as [|r rs IH]; [done|]. simpl. rewrite filter_cons.
  destruct (decide (r ∉ VALID_ELIGIBILITY_REASONS)) as [Hr|Hr].
  - by rewrite bool_decide_eq_false_2.
  - rewrite bool_decide_eq_true_2 by (by apply dec_stable). done.
Qed.

Lemma zip_fst {A B} (l : list A) (k : list B) : length l = length k -> (zip l k).*1 = l.
Proof. intros H. apply fst_zip. lia. Qed.

Lemma elem_of_zip {A B} (l : list A) (k : list B) x y :
  (x, y) ∈ zip l k -> exists i, l !! i = Some x /\ k !! i = Some y.
Proof.
  intros [i Hi]%list_elem_of_lookup. exists i. unfold zip in Hi.
  by apply lookup_zip_with_Some in Hi as (a & b & [= <- <-] & Ha & Hb).
Qed.

Lemma run_setter_view pick a c s : setter_view pick a c s (run_setter pick a c s).
Proof.
  destruct c as [cids|rs|o]; simpl.
  - unfold recordDeliveryFinalized.
    destruct (st_writes_enabled a) eqn:Ew; simpl; [|apply sv_silent; simpl; by rewrite Ew].
    destruct (length (st_rfids a) =? 0)%nat eqn:E0; [apply sv_silent; simpl; by rewrite Ew, E0|].
    destruct (length (st_rfids a) =? length cids)%nat eqn:El; simpl; [|apply sv_refused; [simpl; by rewrite Ew, E0, El|done]].
    destruct (forallb int8 cids) eqn:Ei; simpl; [|apply sv_typed; [simpl; by rewrite Ew, E0, El|by rewrite Ew, E0|eauto]].
    apply sv_update.
    + simpl. by rewrite Ew, E0, El.
    + by rewrite Ew, E0.
    + by intros ? [= <-].
    + by apply zip_fst, Nat.eqb_eq.
    + intros id x (i & Hi & Hx)%elem_of_zip. by exists i, x.
  - unfold recordDeliverySkipped.
    destruct (st_writes_enabled a) eqn:Ew; simpl; [|apply sv_silent; simpl; by rewrite Ew].
    destruct (length (st_rfids a) =? 0)%nat eqn:E0; [apply sv_silent; simpl; by rewrite Ew, E0|].
    destruct (length (st_rfids a) =? length rs)%nat eqn:El; simpl; [|apply sv_refused; [simpl; by rewrite Ew, E0, El|done]].
    destruct (forallb (fun r => bool_decide (r ∈ VALID_ELIGIBILITY_REASONS)) rs) eqn:Ef.
    + pose proof Ef as ->%filter_unknown.
      destruct (mapM reason_of_string rs) as [reasons|] eqn:Em.
      * apply mapM_Some in Em. pose proof (Forall2_length _ _ _ Em) as Hlen.
        apply sv_update.
        { simpl. by rewrite Ew, E0, El, Ef. }
        { by rewrite Ew, E0. }
        { done. }
        { apply zip_fst. rewrite <- Hlen. by apply Nat.eqb_eq. }
        intros id x (i & Hi & Hx)%elem_of_zip.
        destruct (Forall2_lookup_r _ _ _ _ _ Em Hx) as (r & Hr & Hrx). by exists i, r, x.
      * exfalso. apply mapM_None in Em. apply Exists_exists in Em as (r & Hr & Hn).
        rewrite forallb_forall in Ef. apply list_elem_of_In, Ef in Hr. bool_to_prop.
        apply valid_reasons in Hr as [x Hx]. congruence.
    + destruct (filter _ rs) as [|r l] eqn:Er; [by apply filter_unknown in Er; rewrite Er in Ef|].
      apply sv_refused; [simpl; by rewrite Ew, E0, El, Ef|done].
  - unfold recordDeliveryDegraded.
    destruct (bool_decide (o ∈ DEGRADED_OUTCOMES)) eqn:Eo; simpl; [|by apply sv_refused].
    destruct (st_writes_enabled a) eqn:Ew; simpl; [|apply sv_silent; simpl; by rewrite ?Ew].
    destruct (length (st_rfids a) =? 0)%nat eqn:E0; [apply sv_silent; simpl; by rewrite ?Ew, ?E0|].
    bool_to_prop.
    assert (exists out, outcome_of_string o = Some out) as [out Hout].
    { unfold DEGRADED_OUTCOMES in Eo. rewrite elem_of_cons, list_elem_of_singleton in Eo.
      destruct Eo as [-> | ->]; vm_compute; eauto. }
    rewrite Hout. apply sv_update.
    + simpl. by apply bool_decide_eq_true.
    + by rewrite Ew, E0.
    + done.
    + clear. induction (st_rfids a) as [|id l IH]; [done|]. simpl. f_equal. exact IH.
    + intros id x Hin. apply list_elem_of_fmap in Hin as (i & [= -> ->] & Hi). by exists out.
Qed.

Lemma flip_row_is_Some {A} pick inst (data : list (string * A)) set id r :
  is_Some (flip_row pick inst data set id r) <-> flippable inst r = true /\ id ∈ data.*1.
Proof.
  split; [|intros [? ?]; by apply flip_row_some].
  intros [r' Hr']. pose proof Hr' as (_ & _ & _ & x & Hin & _)%flip_row_inv. split.
  - unfold flip_row in Hr'. by destruct (flippable inst r).
  - apply list_elem_of_fmap. by exists (id, x).
Qed.

Lemma flippable_undelivered inst r :
  settled (fr_delivery r) = true -> flippable inst r = true -> fr_delivery r = undelivered.
Proof.
  unfold flippable, settled. intros Hs Hf. bool_to_prop.
  destruct (fr_delivery r) as [e rs o cm p u]. simpl in *. subst. by repeat case_match.
Qed.

(** The keys of the rows a bulk UPDATE writes. *)
Lemma elem_of_updates {A} pick inst (data : list (string * A)) set t id :
  id ∈ (map_to_list (updates pick inst data set t)).*1 <->
  id ∈ data.*1 /\ exists r, t !! id = Some r /\ flippable inst r = true.
Proof.
  rewrite list_elem_of_fmap. split.
  - intros ([i r'] & -> & Hin%elem_of_map_to_list). simpl. rewrite updates_lookup in Hin.
    apply bind_Some in Hin as (r & Hr & Hf).
    destruct (proj1 (flip_row_is_Some _ _ _ _ _ _) (mk_is_Some _ _ Hf)). eauto.
  - intros (Hd & r & Hr & Hf).
    destruct (flip_row_some pick inst data set id r Hf Hd) as [r' Hr'].
    exists (id, r'). split; [done|]. apply elem_of_map_to_list. by rewrite updates_lookup, Hr.
Qed.

Lemma updates_none {A} pick inst (data : list (string * A)) set t :
  (forall id r, t !! id = Some r -> id ∈ data.*1 -> flippable inst r = false) ->
  updates pick inst data set t = ∅.
Proof.
  intros H. apply map_eq. intros id. rewrite updates_lookup, lookup_empty.
  destruct (t !! id) as [r|] eqn:Er; [|done]. simpl. apply eq_None_not_Some.
  rewrite flip_row_is_Some. intros [Hf Hd]. by rewrite (H _ _ Er Hd) in Hf.
Qed.

Lemma bulk_update_nothing {A} pick inst (data : list (string * A)) set posted s :
  updates pick inst data set (findings s) = ∅ -> bulk_update pick inst data set posted s = (s, Ok []).
Proof.
  intros Hu. unfold bulk_update. rewrite Hu, map_to_list_empty. simpl. rewrite (left_id_L ∅ (∪)).
  by destruct s.
Qed.

(** What a call asks for passes the CHECKs of an unsuppressed row. *)
Lemma asks_settled a c id d :
  asks a c id d -> (forall o, c = degrade o -> well_formed a c = true) ->
  dl_outcome d <> None /\ settled d = true /\
  ((forall cids, c = finalize cids -> Forall (fun cid => 1 <= cid) cids) -> delivery_checks d NONE = true).
Proof.
  destruct c as [cids|rs|o]; simpl.
  - intros (i & cid & _ & Hc & ->) _. split_and!; [done|done|]. intros Hpos. simpl.
    specialize (Hpos _ eq_refl). apply (Forall_lookup_1 _ _ _ _ Hpos) in Hc.
    unfold delivery_checks. simpl. by apply Z.leb_le.
  - intros (i & r & reason & _ & _ & _ & ->) _. done.
  - intros (out & _ & Ho & ->) Hwf. specialize (Hwf o eq_refl). bool_to_prop.
    destruct (degraded_outcomes _ _ Hwf Ho) as [-> | ->]; done.
Qed.

Lemma row_checks_with_delivery r d :
  row_checks r = true -> sp_state (fr_suppression r) = NONE -> delivery_checks d NONE = true ->
  row_checks (with_delivery d r) = true.
Proof. unfold row_checks. simpl. intros H -> ->. bool_to_prop. by rewrite !andb_true_iff. Qed.

Lemma run_setter_silent pick a c s :
  well_formed a c = true -> negb (st_writes_enabled a) || (length (st_rfids a) =? 0)%nat = true ->
  run_setter pick a c s = (s, Ok []).
Proof. intros Hwf Hs. destruct (run_setter_view pick a c s); congruence. Qed.

Lemma silent_rfids a :
  negb (st_writes_enabled a) || (length (st_rfids a) =? 0)%nat = true ->
  st_writes_enabled a = true -> st_rfids a = [].
Proof. intros H Hen. rewrite Hen in H. simpl in H. apply Nat.eqb_eq in H. by apply nil_length_inv. Qed.

Lemma int8_false cids :
  forallb int8 cids = false -> ~ Forall (fun cid => 1 <= cid <= 9223372036854775807) cids.
Proof.
  intros H Hall. assert (forallb int8 cids = true); [|congruence].
  apply forallb_forall. intros x Hx%list_elem_of_In. rewrite Forall_forall in Hall.
  apply Hall in Hx. unfold int8. rewrite andb_true_iff, !Z.leb_le. lia.
Qed.

(** A bulk UPDATE that asks, of undelivered rows, what the call says. *)
Lemma setter_update_ok {A} pick inst (data : list (string * A)) set posted (P : string -> delivery -> Prop) s s' l :
  store_ok s ->
  (forall id x, (id, x) ∈ data -> P id (set x undelivered)) ->
  bulk_update pick inst data set posted s = (s', Ok l) ->
  NoDup l /\
  (forall id, id ∈ l <-> id ∈ data.*1 /\ exists r, findings s !! id = Some r /\ flippable inst r = true) /\
  (forall id, id ∉ l -> findings s' !! id = findings s !! id) /\
  (forall id, id ∈ l -> exists r d, findings s !! id = Some r /\ P id d /\
     findings s' !! id = Some (with_delivery d r)).
Proof.
  intros Hok HP (-> & -> & _ & _)%bulk_update_ok. set (u := updates _ _ _ _ _).
  split_and!.
  - apply NoDup_fst_map_to_list.
  - intros id. apply elem_of_updates.
  - intros id Hid. simpl. rewrite lookup_union.
    assert (u !! id = None) as ->; [|by destruct (findings s !! id)].
    apply eq_None_not_Some. intros [r' Hr']. apply Hid, list_elem_of_fmap. exists (id, r').
    split; [done|]. by apply elem_of_map_to_list.
  - intros id ([i r'] & -> & Hin%elem_of_map_to_list)%list_elem_of_fmap. simpl.
    assert (Hu : u !! i = Some r') by done.
    rewrite lookup_union, Hu. unfold u in Hin. rewrite updates_lookup in Hin.
    apply bind_Some in Hin as (r & Hr & Hf). pose proof Hf as (_ & _ & _ & x & Hx & ->)%flip_row_inv.
    destruct (proj1 (flip_row_is_Some _ _ _ _ _ _) (mk_is_Some _ _ Hf)) as [Hfl _].
    rewrite (flippable_undelivered _ _ (ro_settled _ _ (Hok _ _ Hr)) Hfl) in *.
    exists r, (set x undelivered). split_and!; [done|by apply HP|]. by destruct (findings s !! i).
Qed.

Lemma setter_update_throw {A} pick a c (data : list (string * A)) set s s' e :
  store_ok s -> well_formed a c = true ->
  (forall id x, (id, x) ∈ data -> asks a c id (set x undelivered)) ->
  bulk_update pick (st_installation a) data set (st_posted_review_pr_id a) s = (s', Throw e) ->
  isRepoInvariantViolation e = false /\
  (st_posted_review_pr_id a ∉ posted_reviews s \/
   exists cids, c = finalize cids /\ ~ Forall (fun cid => 1 <= cid) cids).
Proof.
  intros Hok Hwf Hasks. unfold bulk_update. set (u := updates _ _ _ _ _).
  destruct (forallb _ (map_to_list u)) eqn:Hc; simpl.
  - destruct (bool_decide (u = ∅) || _) eqn:Hf; [done|]. intros [= <- <-]. split; [done|left].
    by bool_to_prop.
  - intros [= <- <-]. split; [done|right].
    assert ((exists cids, c = finalize cids /\ ~ Forall (fun cid => 1 <= cid) cids) \/
            forall cids, c = finalize cids -> Forall (fun cid => 1 <= cid) cids) as [?|Hpos]; [|done|exfalso].
    { destruct c as [cids| |]; [|by right..]. destruct (decide (Forall (fun cid => 1 <= cid) cids)); [right|eauto].
      by intros ? [= <-]. }
    assert (forallb (fun p : string * frow => row_checks p.2) (map_to_list u) = true); [|congruence].
    apply forallb_forall. intros [id r'] Hin%list_elem_of_In%elem_of_map_to_list. simpl.
    unfold u in Hin. rewrite updates_lookup in Hin. apply bind_Some in Hin as (r & Hr & Hf).
    pose proof Hf as (_ & _ & Hsp & x & Hx & ->)%flip_row_inv.
    destruct (proj1 (flip_row_is_Some _ _ _ _ _ _) (mk_is_Some _ _ Hf)) as [Hfl _].
    pose proof (Hok _ _ Hr) as [Hck Hst _ _ _].
    rewrite (flippable_undelivered _ _ Hst Hfl). apply row_checks_with_delivery; [done..|].
    eapply asks_settled; [by apply Hasks|by intros|exact Hpos].
Qed.

Lemma run_setter_again pick a c s :
  well_formed a c = true -> (forall cids, c = finalize cids -> forallb int8 cids = true) ->
  (forall id r, findings s !! id = Some r -> id ∈ st_rfids a -> flippable (st_installation a) r = false) ->
  run_setter pick a c s = (s, Ok []).
Proof.
  intros Hwf Hint Hno.
  destruct (run_setter_view pick a c s) as [m Hwf'|_ _|_ _ (cids & -> & Hb)|A data set _ _ _ Hkeys _].
  - congruence.
  - done.
  - by rewrite (Hint _ eq_refl) in Hb.
  - apply bulk_update_nothing, updates_none. rewrite Hkeys. exact Hno.
Qed.

(** What one call of a delivery setter does.  It fails only for the caller's
    mistakes the repository checks for (and then the activity's error is not
    retried), for a comment number out of range or for a review that is not
    recorded, and a failed call changes nothing.  Otherwise it writes exactly the
    named rows of the installation that have no outcome and are not suppressed, each
    with an outcome paired with its identifier, and no other row; the same call
    again finds nothing left to do. *)
Theorem setter_exact pick a c s :
  store_ok s ->
  match run_setter pick a c s with
  | (s', Throw e) =>
      s' = s /\ isRepoInvariantViolation e = negb (well_formed a c) /\
      (well_formed a c = true ->
       st_posted_review_pr_id a ∉ posted_reviews s \/
       exists cids, c = finalize cids /\ ~ Forall (fun cid => 1 <= cid <= 9223372036854775807) cids)
  | (s', Ok l) =>
      well_formed a c = true /\ NoDup l /\
      (forall id, id ∈ l <-> st_writes_enabled a = true /\ id ∈ st_rfids a /\
         exists r, findings s !! id = Some r /\ flippable (st_installation a) r = true) /\
      (forall id, id ∉ l -> findings s' !! id = findings s !! id) /\
      (forall id, id ∈ l -> exists r d, findings s !! id = Some r /\ asks a c id d /\
         findings s' !! id = Some (with_delivery d r)) /\
      forall pick', run_setter pick' a c s' = (s', Ok [])
  end.
Proof.
  intros Hok. destruct (run_setter_view pick a c s) as [m Hwf Hinv|Hwf Hs|Hwf Hs Hbad|A data set Hwf Hs Hint Hkeys Hasks].
  - rewrite Hwf, Hinv. by split_and!.
  - split_and!; [done|constructor| |done|by intros ? ?%not_elem_of_nil|by intros; apply run_setter_silent].
    intros id. split; [by intros ?%not_elem_of_nil|]. intros (Hen & Hin & _). by rewrite (silent_rfids _ Hs Hen) in Hin.
  - rewrite Hwf. split_and!; [done..|]. intros _. right. destruct Hbad as (cids & -> & Hbad).
    exists cids. split; [done|]. by apply int8_false.
  - destruct (bulk_update _ _ _ _ _ _) as [s' [l|e]] eqn:E.
    + pose proof (setter_update_ok _ _ _ _ _ (asks a c) _ _ _ Hok Hasks E) as (Hnd & Hl & Hsame & Hnew).
      rewrite Hkeys in Hl. assert (Hen : st_writes_enabled a = true) by (by destruct (st_writes_enabled a)).
      split_and!; [done|done| |done|done|].
      * intros id. rewrite Hl. naive_solver.
      * intros pick'. apply run_setter_again; [done..|]. intros id r Hr Hin.
        destruct (decide (id ∈ l)) as [Hid|Hid].
        -- destruct (Hnew _ Hid) as (r0 & d & _ & Hd & Hr'). rewrite Hr' in Hr. injection Hr as <-.
           apply asks_settled in Hd as (Hout & _); [|done].
           unfold flippable. simpl. rewrite (bool_decide_eq_false_2 (dl_outcome d = None)) by done.
           by rewrite andb_false_r.
        -- rewrite (Hsame _ Hid) in Hr. apply not_true_iff_false. intros Hf. apply Hid, Hl. eauto.
    + pose proof (bulk_update_throw _ _ _ _ _ _ _ _ E) as ->. rewrite Hwf.
      destruct (setter_update_throw _ _ _ _ _ _ _ _ Hok Hwf Hasks E) as [He Hwhy].
      split_and!; [done..|]. intros _. destruct Hwhy as [?|(cids & -> & Hc)]; [by left|right].
      exists cids. split; [done|]. intros Hall. apply Hc. eapply Forall_impl; [exact Hall|]. simpl. lia.
Qed.

(** ** Phases *)

(** [core.v_review_findings_with_phase] *)
Inductive lifecycle_phase := persisted | policy_resolved | delivery_evaluated | delivery_finalized.

Definition phase (r : frow) : lifecycle_phase :=
  if bool_decide (is_Some (dl_outcome (fr_delivery r))) then delivery_finalized
  else if bool_decide (is_Some (dl_eligibility (fr_delivery r))) then delivery_evaluated
  else if negb (bool_decide (sp_state (fr_suppression r) = NONE)) then policy_resolved
  else persisted.

Lemma settled_phase r : settled (fr_delivery r) = true -> phase r <> delivery_evaluated.
Proof.
  unfold settled, phase. destruct (fr_delivery r) as [e rs o cm p u]. simpl. intros H Hp.
  destruct o as [o|]; [by rewrite bool_decide_eq_true_2 in Hp by eauto|].
  destruct e; [discriminate H|]. simpl in Hp. by case_match.
Qed.

Lemma empty_ok s : findings s = ∅ -> store_ok s.
Proof. intros H id r. unfold store_ok. by rewrite H, lookup_empty. Qed.

(** C22: whatever sequence of operations of the repository runs, and whatever the
    other writers add, a row always passes the constraints of the table and refers
    to what exists; it is finalized in one write and never only evaluated; its
    content never changes, and neither do its delivery columns once it has an
    outcome. *)
Theorem delivery_write_once s0 s s' id r :
  findings s0 = ∅ -> store_steps s0 s -> store_steps s s' -> findings s !! id = Some r ->
  exists r', findings s' !! id = Some r' /\
    row_checks r' = true /\ refs_ok s' r' /\
    fr_content r' = fr_content r /\
    phase r' <> delivery_evaluated /\
    (phase r = delivery_finalized -> fr_delivery r' = fr_delivery r).
Proof.
  intros H0 H1 H2 Hr.
  pose proof (store_steps_ok _ _ H2 (store_steps_ok _ _ H1 (empty_ok _ H0))) as Hok.
  destruct (store_steps_kept _ _ H2 _ _ Hr) as (r' & Hr' & Hc & Hd).
  destruct (Hok _ _ Hr') as [Hck Hst _ _ Href].
  exists r'. split_and!; [done..|by apply settled_phase|].
  intros Hp. apply Hd. intros Ho. unfold phase in Hp. rewrite Ho in Hp. simpl in Hp. by repeat case_match.
Qed.

(** ** Reading back *)

(** A finding as the table keeps it. *)
Definition rounded (f : finding) : finding :=
  {| f_file := f_file f; start_line := start_line f; end_line := end_line f; severity := severity f;
     category := category f; title := title f; body := body f; f_suggestion := f_suggestion f;
     confidence := Qmake (thousandths (confidence f)) 1000; sources := sources f; scope := scope f;
     evidence_refs := evidence_refs f |}.

Lemma row_finding_content_of inst pr now pm f : row_finding (content_of inst pr now pm f) = rounded f.
Proof. done. Qed.

Lemma insert_rows_first s l1 id r l2 t t' :
  insert_rows s t (l1 ++ (id, r) :: l2) = Ok t' -> t !! id = None -> id ∉ l1.*1 -> t' !! id = Some r.
Proof.
  assert (Hkeep : forall l t t' q, insert_rows s t l = Ok t' -> t !! id = Some q -> t' !! id = Some q).
  { induction l as [|[i q'] l IH]; intros u u' q H Hq; [by injection H as <-|].
    simpl in H. apply rbind_ok in H as (u1 & H1 & H). eapply IH; [exact H|].
    apply insert_row_inv in H1 as [[-> _] | (-> & Hn & _)]; [done|].
    rewrite lookup_insert_ne; [done|]. intros ->. congruence. }
  revert t. induction l1 as [|[i q] l1 IH]; intros t H Hn Hno; simpl in H.
  - apply rbind_ok in H as (t1 & H1 & H). eapply Hkeep; [exact H|].
    apply insert_row_inv in H1 as [[-> [? ?]] | (-> & _)]; [congruence|]. by rewrite lookup_insert_eq.
  - apply rbind_ok in H as (t1 & H1 & H). apply not_elem_of_cons in Hno as [Hne Hno]. simpl in Hne.
    apply (IH t1 H); [|done].
    apply insert_row_inv in H1 as [[-> _] | (-> & _)]; [done|]. by rewrite lookup_insert_ne.
Qed.

Lemma finding_rows_app inst pr now pm l1 f l2 :
  exists r l2', finding_rows inst pr now pm (l1 ++ f :: l2)
    = finding_rows inst pr now pm l1 ++ (finding_id pr f, r) :: l2' /\
    exists v, fr_content r = content_of inst pr now v f.
Proof.
  unfold finding_rows. rewrite imap_app. simpl. do 2 eexists. split; [reflexivity|]. simpl. eauto.
Qed.

Lemma finding_rows_ids inst pr now pm l : (finding_rows inst pr now pm l).*1 = map (finding_id pr) l.
Proof.
  apply list_eq. intros i. rewrite list_lookup_fmap. unfold finding_rows. rewrite list_lookup_imap.
  rewrite list_lookup_fmap. by destruct (l !! i).
Qed.

Section Loading.
Variable collate : string -> string -> bool.

Lemma elem_of_loaded_rows inst pr s id r :
  (id, r) ∈ live_rows collate inst pr s <-> findings s !! id = Some r /\ live inst pr (id, r) = true.
Proof.
  unfold live_rows. rewrite elem_of_sort_by, list_elem_of_filter, elem_of_map_to_list. naive_solver.
Qed.

(** The loader reads every live row, or fails on one with a title that only an
    analyser's finding has. *)
Lemma load_live_cases inst pr s :
  store_ok s ->
  loadLiveFindingsForPr collate inst pr s = Ok (map (fun p => row_finding (fr_content p.2)) (live_rows collate inst pr s)) \/
  loadLiveFindingsForPr collate inst pr s = Throw ZodError /\
    exists id r, findings s !! id = Some r /\ live inst pr (id, r) = true /\
      (200 < String.length (ct_title (fr_content r)))%nat.
Proof.
  intros Hok. unfold loadLiveFindingsForPr.
  assert (Hall : forall p, p ∈ live_rows collate inst pr s -> findings s !! p.1 = Some p.2 /\ live inst pr p = true).
  { intros [id r]. by rewrite elem_of_loaded_rows. }
  induction (live_rows collate inst pr s) as [|[id r] l IH]; [by left|]. simpl.
  destruct (Hall (id, r)) as [Hr Hlive]; [by left|]. simpl in Hr.
  destruct (IH ltac:(intros p Hp; apply Hall; by right)) as [-> | [Hl Hw]].
  - destruct (finding_ok (row_finding (fr_content r))) eqn:Ef; unfold parse_row; simpl; rewrite Ef; [by left|right].
    split; [done|]. exists id, r. split_and!; [done..|].
    destruct (ro_readable _ _ (Hok _ _ Hr)) as [Hf|Hf]; [congruence|done].
  - right. split; [|done]. rewrite Hl. unfold parse_row. by destruct (finding_ok _).
Qed.
End Loading.


(** * Concrete inputs *)

Module Ex.
Definition inst : string := "11111111-1111-4111-8111-111111111111".
Definition pr : string := "22222222-2222-4222-8222-222222222222".
Definition review : string := "33333333-3333-4333-8333-333333333333".

Definition core0 : core_db :=
  CoreDb {[ex_run_id := ex_run RUNNING]}
         {[review := ReviewRow "github" 1 (Some ex_run_id) 7 "node" None None]} ∅ [].
Definition s0 : store := Store ∅ {[inst]} {[pr]} {[pr]} core0.

Definition f : finding :=
  Finding "src/a.ts" 3 5 issue bug "Unchecked index" "The index may be negative." None
    (6666 # 10000) [] chunk_observed [].
Definition args (l : list finding) : persist_args :=
  PersistArgs pr inst (Aggregated l (DedupeCounts 1 1 1 1 false) 0) ex_run_id review None.

Definition s1 : store := (persistAggregated (args [f]) 100 "e1" "e2" s0).1.
Definition rfid : string := finding_id pr f.
Definition setter : setter_args := SetterArgs inst [rfid] pr 200 true.
Definition first (_ : string) (_ : nat) : nat := 0.
Definition s2 : store := (run_setter first setter (finalize [42]) s1).1.

Definition row2 : frow :=
  FRow (content_of inst pr 100 (JObj []) f) unsuppressed
    (Delivery (Some eligible) None (Some inline_delivered) (Some 42) (Some pr) (Some 200)) 2 None.
End Ex.

Example ex_rfid : Ex.rfid = "d686d086-a1bf-5426-be22-b4f67143034d"%string.
Proof. vm_compute. reflexivity. Qed.

Lemma ex_persist : persistAggregated (Ex.args [Ex.f]) 100 "e1" "e2" Ex.s0 = (Ex.s1, Ok [Ex.rfid]).
Proof. vm_compute. reflexivity. Qed.

Lemma ex_step1 : store_step Ex.s0 Ex.s1.
Proof. apply ss_persist. vm_compute. reflexivity. Qed.

Lemma ex_step2 : store_step Ex.s1 Ex.s2.
Proof. exact (ss_finalized Ex.s1 Ex.first Ex.setter [42]). Qed.

Lemma ex_row2 : findings Ex.s2 !! Ex.rfid = Some Ex.row2.
Proof. vm_compute. reflexivity. Qed.

Lemma persistAggregated_retry_witness :
  is_Some (findings Ex.s2 !! Ex.rfid) /\
  persistAggregated (Ex.args [Ex.f]) 300 "e3" "e4" Ex.s2 = (Ex.s2, Ok [Ex.rfid]).
Proof.
  split; [rewrite ex_row2; eauto|].
  destruct (persistAggregated_retry _ _ _ _ _ _ _ ex_persist) as (_ & _ & _ & H).
  refine (proj1 (H Ex.s2 300 "e3" "e4" (rtc_once _ _ ex_step2)) _).
  exists (ReviewRow "github" 1 (Some ex_run_id) 7 "node" None None). split; vm_compute; reflexivity.
Defined.

Lemma setter_exact_witness :
  (run_setter Ex.first Ex.setter (finalize [42]) Ex.s1).2 = Ok [Ex.rfid] /\
  forall pick, run_setter pick Ex.setter (finalize [42]) Ex.s2 = (Ex.s2, Ok []).
Proof.
  assert (Hr : (run_setter Ex.first Ex.setter (finalize [42]) Ex.s1).2 = Ok [Ex.rfid]) by (vm_compute; reflexivity).
  split; [exact Hr|].
  pose proof (setter_exact Ex.first Ex.setter (finalize [42]) Ex.s1
    (store_step_ok _ _ ex_step1 (empty_ok Ex.s0 eq_refl))) as H.
  unfold Ex.s2. destruct (run_setter Ex.first Ex.setter (finalize [42]) Ex.s1) as [s' r].
  simpl in Hr. subst r. apply H.
Defined.

Lemma delivery_write_once_witness :
  exists r', findings Ex.s2 !! Ex.rfid = Some r' /\ fr_delivery r' = fr_delivery Ex.row2.
Proof.
  destruct (delivery_write_once Ex.s0 Ex.s2 Ex.s2 Ex.rfid Ex.row2 eq_refl
    (rtc_l _ _ _ _ ex_step1 (rtc_once _ _ ex_step2)) (rtc_refl _ _) ex_row2)
    as (r' & Hr & _ & _ & _ & _ & Hd).
  exists r'. split; [exact Hr|]. apply Hd. vm_compute. reflexivity.
Defined.


(** ** Two findings, one identifier *)

Module Ambiguous.
Definition a : finding :=
  Finding "a" 1 2 blocker bug "x|3|4|nit|y" "The token is logged." None (9 # 10) [] chunk_observed [].
Definition b : finding :=
  Finding "a|1|2|blocker|x" 3 4 nit style "y" "Rename this." None (5 # 10) [] chunk_observed [].
End Ambiguous.

(** The name of an identifier joins its parts with a bar that a file name and a
    title may contain: two valid findings, in different files and of different
    severities, share an identifier, whatever the pull request. *)
Lemma finding_id_ambiguous pr :
  finding_ok Ambiguous.a = true /\ finding_ok Ambiguous.b = true /\
  f_file Ambiguous.a <> f_file Ambiguous.b /\ severity Ambiguous.a <> severity Ambiguous.b /\
  finding_id pr Ambiguous.a = finding_id pr Ambiguous.b.
Proof. split_and!; [done..|]. unfold finding_id, deriveReviewFindingId. reflexivity. Qed.

(** The second of them is then lost without an error: both identifiers are
    returned, one row is stored. *)
Lemma ambiguous_finding_lost :
  let r := persistAggregated (Ex.args [Ambiguous.b; Ambiguous.a]) 100 "e1" "e2" Ex.s0 in
  is_ok r.2 = true /\ size (findings r.1) = 1%nat /\
  (fun q => ct_title (fr_content q)) <$> findings r.1 !! finding_id Ex.pr Ambiguous.a = Some "y"%string.
Proof. vm_compute. done. Qed.

(** A finding that is found again in a later run, and posted again, keeps the
    comment of the first run. *)
Lemma found_again_keeps_first_comment :
  let s3 := (persistAggregated (Ex.args [Ex.f]) 300 "e3" "e4" Ex.s2).1 in
  run_setter Ex.first (SetterArgs Ex.inst [Ex.rfid] Ex.pr 400 true) (finalize [43]) s3 = (s3, Ok []) /\
  (fun r => dl_comment (fr_delivery r)) <$> findings s3 !! Ex.rfid = Some (Some 42).
Proof. vm_compute. done. Qed.

(** Once delivered inline, a finding cannot be suppressed: the arbitration's
    UPDATE fails on the CHECK that forbids it. *)
Lemma suppressing_delivered_fails :
  updateTier2Arbitration Ex.inst Ex.rfid
    (SuppressionArgs "SUPPRESSED_BY_POLICY" (Some "policy") (Some (1 # 1)) None None (Some 300)) Ex.s2
  = (Ex.s2, Throw SqlCheckViolation).
Proof. vm_compute. reflexivity. Qed.

(** The message of an unknown reason. *)
Example ex_unknown_reason :
  runSetter "SkippedParityViolation" (recordDeliverySkipped Ex.first Ex.setter ["typo"] Ex.s1)
  = (Ex.s1, Throw (ActivityError
      ("unknown eligibility_reason: " +:+ quote "typo" +:+ " (valid: file_not_in_diff, line_after_last_hunk, line_before_first_hunk, line_in_unchanged_gap, line_spans_hunks)")
      "SkippedParityViolation" true)).
Proof. vm_compute. reflexivity. Qed.
