(* ===== verification/ArbitrationApply.v ===== *)
(** [activities/apply_arbitration.activity.ts], [review/arbitration/arbitration_apply.ts]
    and [domain/repos/arbitration_rejections_repo.ts]: the decisions of [Arbitration]
    written to the table of [FindingStore].  Analysers' findings are inserted, model
    findings updated, refused intents kept for the audit. *)
From stdpp Require Import base gmap sets list strings.
From Stdlib Require Import ZArith QArith Lia Ascii.
From S2P Require Import Prelude Json RunLifecycle Findings PipelineHelpers Arbitration FindingStore.
Open Scope Z_scope.

(** * Data *)

(** [AnalysisFindingV1], the fields that are written. *)
Record analysis := Analysis {
  an_t1 : tier1_finding; an_file : string; an_start : Z; an_end : Z;
}.
Definition an_id (f : analysis) : string := t1_id (an_t1 f).

Record rejection := Rejection {
  rj_installation : string; rj_run : string; rj_review : string; rj_target : string;
  rj_reason : RejectionReason; rj_confidence : option Z; rj_intent_reason : option string;
  rj_model : option string; rj_prompt_version : option string;
}.

(** [core.arbitration_rejections] by its unique key. *)
Abbreviation rejections := (gmap (string * string * string) rejection).

Record astate := AState { a_store : store; a_rejections : rejections }.

Record apply_input := ApplyInput {
  ai_installation : string; ai_pr : string; ai_run : string; ai_review : string;
  ai_tier1 : list analysis; ai_tier2 : list string; ai_tier2_ids : gmap string string;
  ai_intents : list intent; ai_model : string; ai_prompt_version : string; ai_now : string;
}.

Section Apply.
(** [new Date(s)], in the driver's reading: [None] for an invalid date, which no
    timestamp column accepts. *)
Variable date_of : string -> option Z.

(** * The rejections *)

Definition rejection_key (r : rejection) : string * string * string :=
  (rj_run r, rj_target r, reason_name (rj_reason r)).

Definition rejection_typed (r : rejection) : bool :=
  opt_no_nul (rj_intent_reason r) && opt_no_nul (rj_model r) && opt_no_nul (rj_prompt_version r)
  && match rj_confidence r with None => true | Some c => Z.abs c <? 10000 end.

Definition rejection_checks (r : rejection) : bool :=
  match rj_confidence r with None => true | Some c => (0 <=? c) && (c <=? 1000) end.

Definition insertRejection (r : rejection) (s : astate) : astate * result store_error unit :=
  if negb (rejection_typed r) then (s, Throw SqlTypeError)
  else if negb (rejection_checks r) then (s, Throw SqlCheckViolation)
  else match a_rejections s !! rejection_key r with
  | Some _ => (s, Ok tt)
  | None =>
      if bool_decide (rj_installation r ∈ installations (a_store s))
      then (AState (a_store s) (<[rejection_key r := r]> (a_rejections s)), Ok tt)
      else (s, Throw SqlForeignKeyViolation)
  end.

Definition rejection_of (i : apply_input) (r : rejected_intent) : rejection :=
  {| rj_installation := ai_installation i; rj_run := ai_run i; rj_review := ai_review i;
     rj_target := r_target r; rj_reason := r_reason r;
     rj_confidence := Some (thousandths (Number (r_confidence r)));
     rj_intent_reason := Some (r_intent_reason r); rj_model := Some (ai_model i);
     rj_prompt_version := Some (ai_prompt_version i) |}.

(** * The decisions *)

(** [new Map(tier1Findings.map((f) => [f.finding_id, f]))]: the last of a key. *)
Definition tier1ById (l : list analysis) (id : string) : option analysis :=
  last (filter (fun f => an_id f = id) l).

(** [None]: the decision carries an instant that is not a date. *)
Definition suppressedAt (d : decision) : option (option Z) :=
  match d_at d with None => Some None | Some s => Some <$> date_of s end.

Definition decision_args (d : decision) (at_ : option Z) : suppression_args :=
  SuppressionArgs (state_name (d_state d)) (d_reason d) (Number <$> d_confidence d) (d_model d)
    (d_prompt_version d) at_.

Definition tier1_args_of (i : apply_input) (f : analysis) (d : decision) (at_ : option Z) : tier1_args :=
  Tier1Args (ai_installation i) (ai_pr i) (d_finding d) (an_file f) (an_start f) (an_end f)
    (t1_tool (an_t1 f)) (t1_rule (an_t1 f)) (decision_args d at_).

(** One round of the loop over the decisions; a decision that maps to nothing is
    logged and passed over. *)
Definition apply_decision (i : apply_input) (clock : Z) (d : decision) (s : store)
    : store * result store_error unit :=
  match tier1ById (ai_tier1 i) (d_finding d), ai_tier2_ids i !! d_finding d with
  | None, None => (s, Ok tt)
  | t1, rfid =>
      match suppressedAt d with
      | None => (s, Throw SqlTypeError)
      | Some at_ =>
          match t1 with
          | Some f => insertTier1Finding (tier1_args_of i f d at_) clock s
          | None => updateTier2Arbitration (ai_installation i) (default "" rfid) (decision_args d at_) s
          end
      end
  end.

Fixpoint apply_decisions (i : apply_input) (clock : Z) (l : list decision) (s : store)
    : store * result store_error unit :=
  match l with
  | [] => (s, Ok tt)
  | d :: l' =>
      match apply_decision i clock d s with
      | (s', Ok _) => apply_decisions i clock l' s'
      | (s', Throw e) => (s', Throw e)
      end
  end.

Fixpoint insert_rejections (l : list rejection) (s : astate) : astate * result store_error unit :=
  match l with
  | [] => (s, Ok tt)
  | r :: l' =>
      match insertRejection r s with
      | (s', Ok _) => insert_rejections l' s'
      | (s', Throw e) => (s', Throw e)
      end
  end.

(** Every statement commits by itself: a failure keeps what was written before. *)
Definition applyArbitration (i : apply_input) (clock : Z) (r : arb_result) (s : astate)
    : astate * result store_error unit :=
  match apply_decisions i clock (decisions r) (a_store s) with
  | (s', Throw e) => (AState s' (a_rejections s), Throw e)
  | (s', Ok _) => insert_rejections (map (rejection_of i) (rejected_intents r)) (AState s' (a_rejections s))
  end.

Definition arbitrated_input (i : apply_input) : arb_result :=
  arbitrate (ArbArgs BUNDLED_SUPPRESSION_POLICY (ai_model i) (ai_prompt_version i) (ai_now i))
    (map an_t1 (ai_tier1 i)) (ai_tier2 i) (ai_intents i).

Definition applyArbitrationActivity (i : apply_input) (clock : Z) (s : astate)
    : astate * result store_error arb_result :=
  let r := arbitrated_input i in
  match applyArbitration i clock r s with
  | (s', Ok _) => (s', Ok r)
  | (s', Throw e) => (s', Throw e)
  end.

(** * What the contracts of the input say *)

(** [CONFIDENCE_TEXT]: digits without a leading zero, then at most three decimals. *)
Definition confidence_text (s : string) : bool :=
  let whole w := JsString.all_digits w && (String.eqb w "0" || negb (String.prefix "0" w)) in
  match JsString.cut "." s with
  | None => whole s
  | Some (w, f) => whole w && JsString.all_digits f && (String.length f <=? 3)%nat
  end.

Definition intent_ok (i : intent) : bool :=
  confidence_text (i_confidence i) && Qle_bool 0 (Number (i_confidence i))
  && Qle_bool (Number (i_confidence i)) 1 && no_nul (i_reason i).

(** An analyser's finding that its contract accepts and the columns can hold. *)
Definition analysis_fits (f : analysis) : bool :=
  (1 <=? String.length (an_file f))%nat && (String.length (an_file f) <=? 2048)%nat
  && no_nul (an_file f) && (String.length (t1_tool (an_t1 f)) <=? 13)%nat && no_nul (t1_tool (an_t1 f))
  && (1 <=? String.length (t1_rule (an_t1 f)))%nat && (String.length (t1_rule (an_t1 f)) <=? 200)%nat
  && no_nul (t1_rule (an_t1 f))
  && (1 <=? an_start f) && (an_start f <=? an_end f) && (an_end f <=? 2147483647).

Record input_ok (i : apply_input) : Prop := {
  io_tier1 : forallb analysis_fits (ai_tier1 i) = true;
  io_intents : forallb intent_ok (ai_intents i) = true;
  io_provenance : no_nul (ai_model i) && no_nul (ai_prompt_version i) = true;
  io_now : is_Some (date_of (ai_now i));
}.
End Apply.

(** * Lemmas: the decisions *)

Lemma forall_chars_append p a b :
  JsString.forall_chars p (a +:+ b) = JsString.forall_chars p a && JsString.forall_chars p b.
Proof. induction a as [|c a IH]; [done|]. simpl. by rewrite IH, andb_assoc. Qed.

Section Proofs.
Variable date_of : string -> option Z.
Variable i : apply_input.

(** An intent that the policy grants for a finding. *)
Definition granted (f : analysis) (x : intent) : Prop :=
  x ∈ ai_intents i /\ target_finding_id x = an_id f /\
  (isSuppressible BUNDLED_SUPPRESSION_POLICY (t1_tool (an_t1 f)) (t1_rule (an_t1 f))
     (Number (i_confidence x))).1 = true.

Definition suppresses (f : analysis) (x : intent) : decision :=
  Decision_ (an_id f) Arbitration.SUPPRESSED_BY_LLM (Some (i_reason x)) (Some (i_confidence x))
    (Some (ai_model i)) (Some (ai_prompt_version i)) (Some (ai_now i)).

Definition shape (d : decision) : Prop :=
  (exists f, f ∈ ai_tier1 i /\ d_finding d = an_id f /\
     (d = noneDecision (an_id f) \/ exists x, granted f x /\ d = suppresses f x)) \/
  exists t, d = noneDecision t.

Lemma decisions_shape d : d ∈ decisions (arbitrated_input i) -> shape d.
Proof.
  unfold arbitrated_input. intros [(t & Ht & ->) | (t & _ & ->)]%decision_origin; [|right; eauto].
  left. apply list_elem_of_fmap in Ht as (f & -> & Hf). exists f. split; [done|].
  split; [apply decide_tier1_id|]. unfold decide_tier1.
  destruct (_ !! t1_id (an_t1 f)) as [x|] eqn:Ex; [|by left].
  destruct (isSuppressible _ _ _ _).1 eqn:Es; [right|by left]. exists x. split; [|done].
  destruct (winner_best _ _ _ Ex) as (Hx & Ht & _). by split_and!.
Qed.

Lemma rejected_shape r :
  r ∈ rejected_intents (arbitrated_input i) -> exists why x, x ∈ ai_intents i /\ r = reject why x.
Proof.
  unfold arbitrated_input. rewrite arbitrate_unfold. cbn [rejected_intents].
  rewrite elem_of_sort_by, !elem_of_app, !list_elem_of_fmap.
  assert (Hsrt : forall x, x ∈ sort_by intent_leb (ai_intents i) -> x ∈ ai_intents i) by (intros x; by rewrite elem_of_sort_by).
  intros [Hr | [(x & -> & [_ Hx]%list_elem_of_filter) | (x & -> & Hx)]].
  - apply list_elem_of_omap in Hr as (p & Hp & Hr). apply list_elem_of_fmap in Hp as (f & -> & _).
    unfold decide_tier1 in Hr. destruct (_ !! t1_id f) as [x|] eqn:Ex; [|done].
    destruct (isSuppressible _ _ _ _).1; [done|]. injection Hr as <-.
    destruct (winner_best _ _ _ Ex) as (Hx & _). eauto.
  - eauto.
  - exists duplicate_intent_loser, x. split; [|done]. apply Hsrt.
    destruct (index_intents (sort_by intent_leb (ai_intents i)) ∅) as [m losers] eqn:E.
    destruct (index_intents_spec _ _ _ _ E) as (_ & _ & H). by apply H.
Qed.

(** ** What the columns hold of a decision *)

Definition stored_state (s : Arbitration.suppression_state) : suppression_state :=
  match s with
  | Arbitration.NONE => NONE
  | Arbitration.SUPPRESSED_BY_LLM => SUPPRESSED_BY_LLM
  | Arbitration.SUPPRESSED_BY_POLICY => SUPPRESSED_BY_POLICY
  end.

Lemma stored_state_name s : suppression_of_string (state_name s) = Some (stored_state s).
Proof. by destruct s. Qed.

Definition none_args : suppression_args := SuppressionArgs "NONE" None None None None None.

Lemma none_decision_args t : decision_args (noneDecision t) None = none_args.
Proof. done. Qed.

Hypothesis Hok : input_ok date_of i.

(** What the columns get for a decision fits them. *)
Lemma shape_fits d :
  shape d -> exists at_, suppressedAt date_of d = Some at_ /\
    let sp := suppression_of (decision_args d at_) (stored_state (d_state d)) None in
    suppression_typed sp = true /\ suppression_checks sp = true.
Proof.
  assert (Hn : forall t, exists at_, suppressedAt date_of (noneDecision t) = Some at_ /\
    let sp := suppression_of (decision_args (noneDecision t) at_) NONE None in
    suppression_typed sp = true /\ suppression_checks sp = true) by (intros t; exists None; done).
  intros [(f & Hf & _ & [-> | (x & (Hx & _ & _) & ->)]) | (t & ->)]; [apply Hn| |apply Hn].
  destruct (io_now _ _ Hok) as [now Hnow]. exists (Some now).
  unfold suppressedAt. simpl. rewrite Hnow. split; [done|].
  pose proof (io_provenance _ _ Hok) as [Hm Hp]%andb_true_iff.
  pose proof (io_intents _ _ Hok) as Hall. rewrite forallb_forall in Hall.
  apply list_elem_of_In, Hall in Hx. unfold intent_ok in Hx. bool_to_prop.
  match goal with
  | Hl : Qle_bool 0 _ = true, Hh : Qle_bool _ 1 = true |- _ =>
      apply Qle_bool_iff in Hl; apply Qle_bool_iff in Hh; pose proof (thousandths_range _ Hl Hh)
  end.
  split; [|done]. unfold suppression_typed. simpl. rewrite Hm, Hp, !andb_true_iff, Z.ltb_lt.
  split_and!; try done. lia.
Qed.

Lemma tier1_elem id f : tier1ById (ai_tier1 i) id = Some f -> f ∈ ai_tier1 i /\ an_id f = id.
Proof.
  unfold tier1ById. intros H. apply last_Some_elem_of in H.
  by apply list_elem_of_filter in H as [? ?].
Qed.

Lemma tier1_some f : f ∈ ai_tier1 i -> is_Some (tier1ById (ai_tier1 i) (an_id f)).
Proof.
  intros Hf. unfold tier1ById. apply last_is_Some. intros Hn.
  assert (Hin : f ∈ filter (fun g => an_id g = an_id f) (ai_tier1 i)) by by apply list_elem_of_filter.
  rewrite Hn in Hin. by apply not_elem_of_nil in Hin.
Qed.

(** A decision about a finding of no analyser suppresses nothing. *)
Lemma shape_tier2 d :
  shape d -> tier1ById (ai_tier1 i) (d_finding d) = None -> d = noneDecision (d_finding d).
Proof.
  intros [(f & Hf & Ht & _) | (t & ->)] Hn; [|done].
  rewrite Ht in Hn. destruct (tier1_some _ Hf) as [g Hg]. congruence.
Qed.

Lemma tier1_row_fits f d at_ clock :
  f ∈ ai_tier1 i ->
  let a := tier1_args_of i f d at_ in
  tier1_ok a = true /\ content_typed (fr_content (tier1_row a clock NONE)) = true /\
  content_checks (fr_content (tier1_row a clock NONE)) = true /\ no_nul (t1_tool (an_t1 f)) = true.
Proof.
  intros Hf. pose proof (io_tier1 _ _ Hok) as Hall. rewrite forallb_forall in Hall.
  apply list_elem_of_In, Hall in Hf. unfold analysis_fits in Hf. bool_to_prop. simpl.
  assert (Htitle : no_nul (t1_tool (an_t1 f) +:+ ":" +:+ t1_rule (an_t1 f)) = true).
  { unfold no_nul in *. rewrite !forall_chars_append, !andb_true_iff. by split_and!. }
  split_and!; [| | |done].
  - unfold tier1_ok. cbn -[Nat.leb Z.leb]. rewrite !andb_true_iff, !Z.leb_le, !Nat.leb_le. split_and!; lia.
  - unfold content_typed, int4. cbn -[Nat.leb Z.leb Z.ltb no_nul String.append String.length]. rewrite Htitle, !andb_true_iff, !Z.leb_le, Nat.leb_le.
    split_and!; try done; lia.
  - unfold content_checks. cbn -[Z.leb]. rewrite !andb_true_iff, !Z.leb_le. lia.
Qed.

(** ** One decision *)

(** What the writes need of the store. *)
Definition ready (s : store) : Prop :=
  store_ok s /\ ai_installation i ∈ installations s /\ ai_pr i ∈ pull_requests s.

Lemma ready_step s s' : store_step s s' -> same_sets s s' -> ready s -> ready s'.
Proof.
  intros Hs (Hi & Hp & _) (H1 & H2 & H3). split; [by eapply store_step_ok|].
  by rewrite Hi, Hp.
Qed.

Lemma insert_row_ok s id r :
  content_typed (fr_content r) && suppression_typed (fr_suppression r) && opt_no_nul (fr_source_tool r) = true ->
  row_checks r = true -> ct_installation (fr_content r) ∈ installations s ->
  ct_pr (fr_content r) ∈ pull_requests s ->
  insert_row s (findings s) (id, r) =
  Ok (match findings s !! id with Some _ => findings s | None => <[id := r]> (findings s) end).
Proof.
  intros Ht Hc Hi Hp. unfold insert_row. rewrite Ht, Hc. destruct (findings s !! id); [done|].
  by rewrite !bool_decide_eq_true_2.
Qed.

Lemma delivery_checks_none d st : delivery_checks d st = true -> delivery_checks d NONE = true.
Proof.
  unfold delivery_checks. intros H. bool_to_prop. rewrite !andb_true_iff. by split_and!.
Qed.

(** The row an INSERT of an analyser's finding writes. *)
Definition inserted (f : analysis) (d : decision) (at_ : option Z) (clock : Z) : frow :=
  tier1_row (tier1_args_of i f d at_) clock (stored_state (d_state d)).

Definition unsuppress (r : frow) : frow := arbitrated none_args NONE r.

Lemma unsuppress_idem r : unsuppress (unsuppress r) = unsuppress r.
Proof. destruct r as [c sp dl t tool]. unfold unsuppress, arbitrated. simpl. by destruct tool. Qed.

(** The table after a decision. *)
Definition decided (clock : Z) (d : decision) (s : store) : store :=
  match tier1ById (ai_tier1 i) (d_finding d), ai_tier2_ids i !! d_finding d with
  | Some f, _ =>
      match findings s !! d_finding d with
      | Some _ => s
      | None => with_findings (<[d_finding d := inserted f d (default None (suppressedAt date_of d)) clock]>
                                 (findings s)) s
      end
  | None, Some rfid =>
      match findings s !! rfid with
      | Some r => if decide (ct_installation (fr_content r) = ai_installation i)
                  then with_findings (<[rfid := unsuppress r]> (findings s)) s else s
      | None => s
      end
  | None, None => s
  end.

Lemma with_findings_same s : with_findings (findings s) s = s.
Proof. by destruct s. Qed.

Lemma apply_decision_decided clock d s :
  shape d -> ready s -> apply_decision date_of i clock d s = (decided clock d s, Ok tt).
Proof.
  intros Hd (Hs & Hi & Hp). unfold apply_decision, decided.
  destruct (shape_fits _ Hd) as (at_ & Hat & Ht & Hc). rewrite Hat.
  destruct (tier1ById (ai_tier1 i) (d_finding d)) as [f|] eqn:Ef.
  - destruct (tier1_elem _ _ Ef) as [Hf Hid].
    unfold insertTier1Finding. cbn [tier1_args_of ta_suppression decision_args sa_state].
    rewrite stored_state_name. cbn [ta_id].
    destruct (tier1_row_fits f d at_ clock Hf) as (_ & Htyp & Hck & Htool).
    rewrite insert_row_ok; [|by rewrite andb_true_iff, andb_true_iff|
      |done|done].
    2: { unfold row_checks. rewrite !andb_true_iff. split_and!; [done..|]. simpl. by destruct (d_state d). }
    simpl. destruct (findings s !! d_finding d); [|done]. by rewrite with_findings_same.
  - destruct (ai_tier2_ids i !! d_finding d) as [rfid|] eqn:Er; [|done]. simpl.
    rewrite (shape_tier2 _ Hd Ef) in Hat |- *. injection Hat as <-.
    unfold updateTier2Arbitration. simpl.
    destruct (findings s !! rfid) as [r|] eqn:Err; [|done].
    destruct (decide _); [|done].
    assert (row_checks (arbitrated none_args NONE r) = true) as Hrc.
    { pose proof (Hs _ _ Err) as [Hck _ _ Hby _]. unfold row_checks in *. simpl. bool_to_prop.
      unfold suppression_of. rewrite Hby. rewrite !andb_true_iff. split_and!; [done..|].
      by eapply delivery_checks_none. }
    unfold decision_args. simpl. change (SuppressionArgs _ _ _ _ _ _) with none_args. by rewrite Hrc.
Qed.

Lemma decided_ready clock d s : shape d -> ready s -> ready (decided clock d s).
Proof.
  intros Hd Hr. pose proof (apply_decision_decided clock d s Hd Hr) as E.
  assert (Hs : decided clock d s = (apply_decision date_of i clock d s).1) by by rewrite E.
  rewrite Hs. clear E Hs. unfold apply_decision.
  destruct (shape_fits _ Hd) as (at_ & -> & _).
  destruct (tier1ById (ai_tier1 i) (d_finding d)) as [f|] eqn:Ef.
  - destruct (tier1_elem _ _ Ef) as [Hf _]. destruct (tier1_row_fits f d at_ clock Hf) as (Ht & _).
    destruct (ai_tier2_ids i !! d_finding d);
      (eapply ready_step; [by apply ss_tier1|by apply insertTier1Finding_table|done]).
  - destruct (ai_tier2_ids i !! d_finding d); [|done].
    eapply ready_step; [apply ss_tier2|apply updateTier2Arbitration_table|done].
Qed.

(** ** A second round *)

(** A decision that is already written. *)
Definition stable (d : decision) (s : store) : Prop :=
  match tier1ById (ai_tier1 i) (d_finding d), ai_tier2_ids i !! d_finding d with
  | Some _, _ => is_Some (findings s !! d_finding d)
  | None, Some rfid => forall r, findings s !! rfid = Some r ->
      ct_installation (fr_content r) = ai_installation i -> unsuppress r = r
  | None, None => True
  end.

Lemma stable_tier1 f s :
  f ∈ ai_tier1 i -> Forall (fun d => stable d s) (decisions (arbitrated_input i)) ->
  is_Some (findings s !! an_id f).
Proof.
  intros Hf Hst. rewrite Forall_forall in Hst.
  eassert (Hd : (decide_tier1 _ _ (an_t1 f)).1 ∈ decisions (arbitrated_input i)).
  { unfold arbitrated_input. apply decision_origin. left. exists (an_t1 f). split; [|done].
    by apply list_elem_of_fmap_2. }
  specialize (Hst _ Hd). unfold stable in Hst. rewrite decide_tier1_id in Hst.
  change (t1_id (an_t1 f)) with (an_id f) in Hst.
  destruct (tier1_some _ Hf) as [g Hg]. by rewrite Hg in Hst.
Qed.

Lemma stable_decided clock d s : stable d s -> decided clock d s = s.
Proof.
  unfold stable, decided. destruct (tier1ById _ _) as [f|]; [by intros [r ->]|].
  destruct (ai_tier2_ids i !! d_finding d) as [rfid|]; [|done].
  destruct (findings s !! rfid) as [r|] eqn:Er; [|done]. intros H.
  destruct (decide _) as [Hi|]; [|done].
  rewrite (H r eq_refl Hi), insert_id by done. apply with_findings_same.
Qed.

(** How one decision changes a row that is there. *)
Lemma decided_lookup clock d s id r :
  findings s !! id = Some r ->
  findings (decided clock d s) !! id = Some r \/
  findings (decided clock d s) !! id = Some (unsuppress r).
Proof.
  intros Hr. unfold decided. destruct (tier1ById _ _) as [f|].
  - destruct (findings s !! d_finding d) eqn:Ed; [by left|]. left. simpl.
    rewrite lookup_insert_ne; [done|]. intros <-. congruence.
  - destruct (ai_tier2_ids i !! d_finding d) as [rfid|]; [|by left].
    destruct (findings s !! rfid) as [q|] eqn:Eq; [|by left]. destruct (decide _); [|by left]. simpl.
    destruct (decide (id = rfid)) as [->|Hne].
    + rewrite lookup_insert_eq. right. congruence.
    + rewrite lookup_insert_ne by done. by left.
Qed.

(** And one that is not: only the finding of an analyser is inserted. *)
Lemma decided_fresh clock d s id r :
  findings s !! id = None -> findings (decided clock d s) !! id = Some r ->
  id = d_finding d /\ exists f, tier1ById (ai_tier1 i) id = Some f /\
    r = inserted f d (default None (suppressedAt date_of d)) clock.
Proof.
  intros Hn. unfold decided. destruct (tier1ById _ _) as [f|] eqn:Ef.
  - destruct (findings s !! d_finding d) eqn:Ed; [congruence|]. simpl.
    destruct (decide (id = d_finding d)) as [->|Hne].
    + rewrite lookup_insert_eq. intros [= <-]. eauto.
    + rewrite lookup_insert_ne by done. congruence.
  - destruct (ai_tier2_ids i !! d_finding d) as [rfid|]; [|congruence].
    destruct (findings s !! rfid) as [q|] eqn:Eq; [|congruence]. destruct (decide _); [|congruence]. simpl.
    rewrite lookup_insert_ne; congruence.
Qed.

Lemma decided_stable clock d s : stable d (decided clock d s).
Proof.
  unfold stable, decided. destruct (tier1ById _ _) as [f|].
  - destruct (findings s !! d_finding d) eqn:Ed; [by rewrite Ed|]. simpl. by rewrite lookup_insert_eq.
  - destruct (ai_tier2_ids i !! d_finding d) as [rfid|]; [|done]. intros r.
    destruct (findings s !! rfid) as [q|] eqn:Eq; [|congruence]. destruct (decide _); simpl.
    + rewrite lookup_insert_eq. intros [= <-] _. apply unsuppress_idem.
    + rewrite Eq. by intros [= <-].
Qed.

(** The identifiers of the analysers' findings are not those of the model's. *)
Hypothesis Hdisjoint : forall f k, f ∈ ai_tier1 i -> ai_tier2_ids i !! k <> Some (an_id f).

Lemma decided_keeps clock d d' s : stable d' s -> stable d' (decided clock d s).
Proof.
  unfold stable. destruct (tier1ById _ (d_finding d')) as [f'|] eqn:Ef'.
  - intros [r Hr]. destruct (decided_lookup clock d _ _ _ Hr) as [-> | ->]; eauto.
  - destruct (ai_tier2_ids i !! d_finding d') as [rfid|] eqn:Er; [|done]. intros H r Hr Hi.
    destruct (findings s !! rfid) as [q|] eqn:Eq.
    + destruct (decided_lookup clock d _ _ _ Eq) as [Hq|Hq]; rewrite Hq in Hr; injection Hr as <-.
      * by apply H.
      * apply unsuppress_idem.
    + destruct (decided_fresh clock d _ _ _ Eq Hr) as (_ & f & Hf & _).
      apply tier1_elem in Hf as [Hf <-]. by destruct (Hdisjoint _ _ Hf Er).
Qed.

Lemma apply_decisions_ok clock l s :
  Forall shape l -> ready s -> exists s', apply_decisions date_of i clock l s = (s', Ok tt) /\ ready s' /\
    Forall (fun d => stable d s') l /\ forall d, stable d s -> stable d s'.
Proof.
  intros Hl. revert s. induction Hl as [|d l Hd _ IH]; intros s Hs; [by exists s|].
  simpl. rewrite apply_decision_decided by done.
  destruct (IH (decided clock d s)) as (s' & Hs' & Hr & Hst & Hk); [by apply decided_ready|].
  exists s'. split_and!; [done..| |].
  - constructor; [|done]. apply Hk, decided_stable.
  - intros d' Hd'. by apply Hk, decided_keeps.
Qed.

Lemma apply_decisions_stable clock l s :
  Forall shape l -> ready s -> Forall (fun d => stable d s) l ->
  apply_decisions date_of i clock l s = (s, Ok tt).
Proof.
  intros Hl Hs. induction Hl as [|d l Hd _ IH]; intros Hst; [done|].
  apply Forall_cons in Hst as [Hsd Hst]. simpl. rewrite apply_decision_decided by done.
  rewrite stable_decided by done. by apply IH.
Qed.

(** ** The rejections *)

Definition noted (r : rejection) (s : astate) : astate :=
  match a_rejections s !! rejection_key r with
  | Some _ => s
  | None => AState (a_store s) (<[rejection_key r := r]> (a_rejections s))
  end.

Lemma insertRejection_noted r s :
  r ∈ rejected_intents (arbitrated_input i) -> ai_installation i ∈ installations (a_store s) ->
  insertRejection (rejection_of i r) s = (noted (rejection_of i r) s, Ok tt).
Proof.
  intros (why & x & Hx & ->)%rejected_shape Hi.
  pose proof (io_intents _ _ Hok) as Hall. rewrite forallb_forall in Hall.
  apply list_elem_of_In, Hall in Hx. unfold intent_ok in Hx. bool_to_prop.
  pose proof (io_provenance _ _ Hok) as [Hm Hp]%andb_true_iff.
  match goal with
  | Hl : Qle_bool 0 _ = true, Hh : Qle_bool _ 1 = true |- _ =>
      apply Qle_bool_iff in Hl; apply Qle_bool_iff in Hh; pose proof (thousandths_range _ Hl Hh)
  end.
  unfold insertRejection.
  assert (rejection_typed (rejection_of i (reject why x)) = true) as ->.
  { unfold rejection_typed. simpl. rewrite Hm, Hp, !andb_true_iff, Z.ltb_lt. split_and!; try done. lia. }
  assert (rejection_checks (rejection_of i (reject why x)) = true) as ->.
  { unfold rejection_checks. simpl. rewrite andb_true_iff, !Z.leb_le. lia. }
  simpl. unfold noted. destruct (a_rejections s !! _); [done|]. by rewrite bool_decide_eq_true_2.
Qed.

Lemma insert_rejections_ok l s :
  (forall r, r ∈ l -> r ∈ rejected_intents (arbitrated_input i)) ->
  ai_installation i ∈ installations (a_store s) ->
  exists s', insert_rejections (map (rejection_of i) l) s = (s', Ok tt) /\ a_store s' = a_store s /\
    (forall k, is_Some (a_rejections s !! k) -> is_Some (a_rejections s' !! k)) /\
    Forall (fun r => is_Some (a_rejections s' !! rejection_key (rejection_of i r))) l.
Proof.
  revert s. induction l as [|r l IH]; intros s Hl Hi; [by exists s|]. simpl.
  rewrite insertRejection_noted by (try done; apply Hl; by left).
  assert (Hst : a_store (noted (rejection_of i r) s) = a_store s) by (unfold noted; by case_match).
  destruct (IH (noted (rejection_of i r) s)) as (s' & Hs' & Hst' & Hk & Hall);
    [intros q Hq; apply Hl; by right|by rewrite Hst|].
  exists s'. split_and!; [done|congruence| |].
  - intros k [v Hv]. apply Hk. unfold noted.
    destruct (a_rejections s !! rejection_key (rejection_of i r)) eqn:E; [eauto|]. simpl.
    rewrite lookup_insert_ne; [eauto|]. intros Heq. rewrite Heq in E. congruence.
  - constructor; [|done]. apply Hk. unfold noted.
    destruct (a_rejections s !! rejection_key (rejection_of i r)) eqn:E; [by rewrite E|]. simpl.
    by rewrite lookup_insert_eq.
Qed.

Lemma insert_rejections_again l s :
  (forall r, r ∈ l -> r ∈ rejected_intents (arbitrated_input i)) ->
  ai_installation i ∈ installations (a_store s) ->
  Forall (fun r => is_Some (a_rejections s !! rejection_key (rejection_of i r))) l ->
  insert_rejections (map (rejection_of i) l) s = (s, Ok tt).
Proof.
  intros Hl Hi Hall. induction Hall as [|r l [v Hv] _ IH]; [done|]. simpl.
  rewrite insertRejection_noted by (try done; apply Hl; by left).
  unfold noted. rewrite Hv. apply IH. intros q Hq. apply Hl. by right.
Qed.
End Proofs.

(** * Properties *)


(** ** What can become suppressed *)

Section Suppressed.
Variable date_of : string -> option Z.
Variable i : apply_input.
Hypothesis Hnodup : NoDup (map an_id (ai_tier1 i)).

(** A suppressed row of [s'] was there, or an intent the policy grants put it. *)
Definition accounted (s s' : store) : Prop :=
  forall id r, findings s' !! id = Some r -> sp_state (fr_suppression r) <> NONE ->
    findings s !! id = Some r \/
    findings s !! id = None /\ exists f x, f ∈ ai_tier1 i /\ an_id f = id /\ granted i f x /\
      fr_source_tool r = Some (t1_tool (an_t1 f)) /\
      sp_reason (fr_suppression r) = Some (i_reason x).

Lemma accounted_refl s : accounted s s.
Proof. intros id r Hr _. by left. Qed.

Lemma tier1_unique f g : f ∈ ai_tier1 i -> g ∈ ai_tier1 i -> an_id f = an_id g -> f = g.
Proof.
  intros [n Hf]%list_elem_of_lookup [m Hg]%list_elem_of_lookup Hid.
  assert (n = m) as ->; [|congruence].
  eapply (NoDup_lookup _ n m (an_id f) Hnodup).
  - by rewrite list_lookup_fmap, Hf.
  - rewrite list_lookup_fmap, Hg. simpl. by rewrite Hid.
Qed.

Lemma apply_decision_effect clock d s s' res id r :
  shape i d -> apply_decision date_of i clock d s = (s', res) ->
  findings s' !! id = Some r -> sp_state (fr_suppression r) <> NONE ->
  findings s !! id = Some r \/
  findings s !! id = None /\ d_finding d = id /\ exists f at_, f ∈ ai_tier1 i /\ an_id f = id /\
    r = inserted i f d at_ clock.
Proof.
  intros Hd. unfold apply_decision.
  destruct (tier1ById (ai_tier1 i) (d_finding d)) as [f|] eqn:Ef.
  - assert (Hins : forall at_, insertTier1Finding (tier1_args_of i f d at_) clock s = (s', res) ->
      findings s' !! id = Some r -> findings s !! id = Some r \/
      findings s !! id = None /\ d_finding d = id /\ exists f at_, f ∈ ai_tier1 i /\ an_id f = id /\
        r = inserted i f d at_ clock).
    { intros at_. unfold insertTier1Finding. cbn [tier1_args_of ta_suppression decision_args sa_state ta_id].
      rewrite stored_state_name. destruct (insert_row s _ _) as [t|e] eqn:E; intros [= <- <-]; [|by left].
      simpl. apply insert_row_inv in E as [[-> _] | (-> & Hn & _)]; [by left|].
      destruct (decide (id = d_finding d)) as [->|Hne].
      - rewrite lookup_insert_eq. intros [= <-]. right. split_and!; [done..|].
        destruct (tier1_elem _ _ _ Ef) as [Hf Hid]. by exists f, at_.
      - rewrite lookup_insert_ne by done. by left. }
    destruct (ai_tier2_ids i !! d_finding d), (suppressedAt date_of d) as [at_|]; intros H Hr _;
      try (by eapply Hins); injection H as <- <-; by left.
  - destruct (ai_tier2_ids i !! d_finding d) as [rfid|]; [|intros [= <- <-]; by left].
    rewrite (shape_tier2 _ _ Hd Ef). simpl. unfold updateTier2Arbitration. simpl.
    destruct (findings s !! rfid) as [q|] eqn:Eq; [|intros [= <- <-]; by left].
    destruct (decide _); [|intros [= <- <-]; by left].
    destruct (row_checks _); intros [= <- <-]; [|by left]. simpl.
    destruct (decide (id = rfid)) as [->|Hne]; [|rewrite lookup_insert_ne by done; by left].
    rewrite lookup_insert_eq. intros [= <-]. done.
Qed.

Lemma apply_decision_accounted clock d s s' res :
  shape i d -> apply_decision date_of i clock d s = (s', res) -> accounted s s'.
Proof.
  intros Hd E id r Hr Hs.
  destruct (apply_decision_effect _ _ _ _ _ _ _ Hd E Hr Hs) as [?|(Hn & Hid & f & at_ & Hf & Hfid & ->)];
    [by left|right]. split; [done|].
  assert (exists x, granted i f x /\ d = suppresses i f x) as (x & Hx & ->).
  { destruct Hd as [(g & Hg & Hgid & [-> | (x & Hx & ->)]) | (t & ->)]; [done| |done].
    assert (f = g) as -> by (apply tier1_unique; [done|done|congruence]). eauto. }
  exists f, x. by split_and!.
Qed.

Lemma accounted_trans s s1 s2 : accounted s s1 -> accounted s1 s2 ->
  (forall id, is_Some (findings s !! id) -> is_Some (findings s1 !! id)) -> accounted s s2.
Proof.
  intros H1 H2 Hk id r Hr Hs. destruct (H2 _ _ Hr Hs) as [Hr1 | (Hn & H)]; [by apply H1|].
  right. split; [|done]. apply eq_None_not_Some. intros Hsome%Hk. rewrite Hn in Hsome.
  by destruct Hsome.
Qed.

Lemma apply_decision_dom clock d s s' res id :
  apply_decision date_of i clock d s = (s', res) ->
  is_Some (findings s !! id) -> is_Some (findings s' !! id).
Proof.
  assert (Hins : forall a, is_Some (findings s !! id) -> is_Some (findings (insertTier1Finding a clock s).1 !! id)).
  { intros a Hs. unfold insertTier1Finding. destruct (suppression_of_string _) as [st|]; [|done].
    destruct (insert_row s _ _) as [t|e] eqn:E; [|done]. simpl.
    apply insert_row_inv in E as [[-> _] | (-> & _)]; [done|]. rewrite lookup_insert_is_Some. destruct (decide (ta_id a = id)); auto. }
  assert (Hupd : forall inst rfid a, is_Some (findings s !! id) ->
    is_Some (findings (updateTier2Arbitration inst rfid a s).1 !! id)).
  { intros inst rfid a Hs. pose proof (proj1 (updateTier2Arbitration_table inst rfid a s) id) as H.
    destruct Hs as [r Hr]. rewrite Hr in H. destruct (findings (updateTier2Arbitration _ _ _ _).1 !! id); [eauto|done]. }
  unfold apply_decision. intros E Hs.
  destruct (tier1ById _ _), (ai_tier2_ids i !! d_finding d), (suppressedAt date_of d);
    try (injection E as <- _; done).
  all: match type of E with
       | insertTier1Finding ?a _ _ = _ => pose proof (Hins a Hs) as H
       | updateTier2Arbitration ?inst ?rfid ?a _ = _ => pose proof (Hupd inst rfid a Hs) as H
       end; by rewrite E in H.
Qed.

Lemma apply_decisions_accounted clock l s s' res :
  Forall (shape i) l -> apply_decisions date_of i clock l s = (s', res) -> accounted s s'.
Proof.
  intros Hl. revert s. induction Hl as [|d l Hd _ IH]; intros s; simpl; [intros [= <- _]; apply accounted_refl|].
  destruct (apply_decision date_of i clock d s) as [s1 [u|e]] eqn:E.
  - intros E2. eapply accounted_trans; [by eapply apply_decision_accounted|by apply IH|].
    intros id. by eapply apply_decision_dom.
  - intros [= <- _]. by eapply apply_decision_accounted.
Qed.

Lemma insert_rejections_store l s s' res : insert_rejections l s = (s', res) -> a_store s' = a_store s.
Proof.
  revert s. induction l as [|r l IH]; intros s; simpl; [by intros [= <- _]|].
  assert (H : a_store (insertRejection r s).1 = a_store s) by (unfold insertRejection; by repeat case_match).
  destruct (insertRejection r s) as [s1 [u|e]]; simpl in H; [|by intros [= <- _]].
  intros E. by rewrite (IH _ E).
Qed.
End Suppressed.

(** C21: whether the activity succeeds or stops at any of its writes, a row that is
    suppressed afterwards was so before, or is the new row of an analyser's finding
    for which some intent clears the bundled policy's threshold; never a finding of
    the secret scanner or of the vulnerability scanner, whatever the model asks. *)
Theorem applyArbitration_protects date_of i clock s :
  NoDup (map an_id (ai_tier1 i)) ->
  let s' := (applyArbitrationActivity date_of i clock s).1 in
  forall id r, findings (a_store s') !! id = Some r -> sp_state (fr_suppression r) <> NONE ->
    findings (a_store s) !! id = Some r \/
    findings (a_store s) !! id = None /\ exists f x, f ∈ ai_tier1 i /\ an_id f = id /\
      x ∈ ai_intents i /\ target_finding_id x = id /\
      (isSuppressible BUNDLED_SUPPRESSION_POLICY (t1_tool (an_t1 f)) (t1_rule (an_t1 f))
         (Number (i_confidence x))).1 = true /\
      fr_source_tool r = Some (t1_tool (an_t1 f)) /\
      sp_reason (fr_suppression r) = Some (i_reason x) /\
      t1_tool (an_t1 f) ∉ ["gitleaks"; "trivy"]%string.
Proof.
  intros Hnd s' id r Hr Hsup.
  assert (Hacc : accounted i (a_store s) (a_store s')).
  { unfold s', applyArbitrationActivity, applyArbitration.
    destruct (apply_decisions _ _ _ _ _) as [s1 res1] eqn:E1.
    assert (H1 : accounted i (a_store s) s1).
    { eapply apply_decisions_accounted; [done| |exact E1]. apply Forall_forall, decisions_shape. }
    destruct res1 as [u|e]; [|done].
    destruct (insert_rejections _ _) as [s2 res2] eqn:E2. apply insert_rejections_store in E2. simpl in E2.
    destruct res2; simpl; by rewrite E2. }
  destruct (Hacc id r Hr Hsup) as [?|(Hn & f & x & Hf & Hid & (Hx & Ht & Hg) & Htool & Hreason)]; [by left|right].
  split; [done|]. exists f, x. split_and!; try done; [congruence|].
  rewrite !not_elem_of_cons. split_and!; [| |apply not_elem_of_nil]; intros Et; rewrite Et in Hg;
    by rewrite protected_tool in Hg.
Qed.

(** * Concrete inputs *)

Module Sample.
Definition now : string := "2026-01-01T00:00:00Z".
Definition date_of (s : string) : option Z := if String.eqb s now then Some 250 else None.
Definition lint : analysis := Analysis (Tier1 "t-1" "ruff" "E501") "src/a.py" 4 4.
Definition secret : analysis := Analysis (Tier1 "t-2" "gitleaks" "aws-key") "src/a.py" 9 9.
Definition input : apply_input :=
  ApplyInput Ex.inst Ex.pr ex_run_id Ex.review [lint; secret] ["arb-1"] {["arb-1" := Ex.rfid]}
    [Intent "t-1" "0.95" "generated code"; Intent "t-2" "1" "test key"; Intent "t-9" "0.5" "gone"]
    "m" "v1" now.
Definition s : astate := AState Ex.s2 ∅.
End Sample.

Lemma sample_input_ok : input_ok Sample.date_of Sample.input.
Proof. constructor; [vm_compute; reflexivity..|]. exists 250. vm_compute. reflexivity. Qed.

Lemma sample_store_ok : store_ok Ex.s2.
Proof. exact (store_step_ok _ _ ex_step2 (store_step_ok _ _ ex_step1 (empty_ok Ex.s0 eq_refl))). Qed.

(** The lint is suppressed, the secret is not, and two intents are refused. *)
Example sample_rows :
  let s' := (applyArbitrationActivity Sample.date_of Sample.input 300 Sample.s).1 in
  (fun r => (sp_state (fr_suppression r), fr_tier r)) <$> findings (a_store s') !! "t-1"%string
    = Some (SUPPRESSED_BY_LLM, 1) /\
  (fun r => (sp_state (fr_suppression r), fr_tier r)) <$> findings (a_store s') !! "t-2"%string
    = Some (NONE, 1) /\
  (fun r => (fr_source_tool r, fr_tier r)) <$> findings (a_store s') !! Ex.rfid = Some (Some "llm"%string, 2) /\
  size (a_rejections s') = 2%nat.
Proof. vm_compute. done. Qed.


Lemma applyArbitration_protects_witness :
  let s' := (applyArbitrationActivity Sample.date_of Sample.input 300 Sample.s).1 in
  exists r, findings (a_store s') !! "t-1"%string = Some r /\
    sp_reason (fr_suppression r) = Some "generated code"%string.
Proof.
  intros s'. destruct (findings (a_store s') !! "t-1"%string) as [r|] eqn:E; [|vm_compute in E; discriminate].
  exists r. split; [done|].
  destruct (applyArbitration_protects Sample.date_of Sample.input 300 Sample.s) with (id := "t-1"%string) (r := r)
    as [Hold | (_ & f & x & _ & _ & Hx & Ht & _ & _ & Hreason & _)].
  - simpl. apply NoDup_cons. split; [|apply NoDup_singleton]. by rewrite list_elem_of_singleton.
  - exact E.
  - vm_compute in E. injection E as <-. done.
  - vm_compute in Hold. discriminate.
  - rewrite Hreason. clear -Hx Ht. apply list_elem_of_In in Hx.
    destruct Hx as [<- | [<- | [<- | []]]]; [reflexivity|discriminate Ht..].
Defined.

(** Two findings of analysers with one identifier: the decisions are in the order
    of their states, so the one that suppresses nothing is written first. *)
Lemma duplicate_ids_stay_unsuppressed :
  let dup := ApplyInput Ex.inst Ex.pr ex_run_id Ex.review
    [Analysis (Tier1 "t-1" "ruff" "E501") "src/a.py" 4 4; Analysis (Tier1 "t-1" "gitleaks" "aws-key") "src/a.py" 9 9]
    [] ∅ [Intent "t-1" "0.95" "generated code"] "m" "v1" Sample.now in
  (fun r => (sp_state (fr_suppression r), fr_source_tool r)) <$>
    findings (a_store (applyArbitrationActivity Sample.date_of dup 300 Sample.s).1) !! "t-1"%string
  = Some (NONE, Some "gitleaks"%string).
Proof. vm_compute. reflexivity. Qed.
