(* ===== verification/ChunkText.v ===== *)
(** The text functions of [chunking/*.ts] and of the chunk contract: bytes to
    text and back, code points, the line splitter that every chunker and
    post-pass carries a copy of, token estimates, file suffixes, and the
    content-addressed chunk identifier down to its hashes.  Texts are UTF-16
    code units ([Text]), bytes are integers below 256. *)
From stdpp Require Import base list strings pretty sets.
From Stdlib Require Import ZArith NArith Lia Ascii.
From S2P Require Import Prelude Text Uuid5.
Open Scope Z_scope.

(** * UTF-8 *)

(** The decoder of [new TextDecoder("utf-8")] (the Encoding standard): the code
    point so far, how many bytes are still needed, and the range of the next one. *)
Record utf8_state := Utf8 { u_cp : Z; u_need : nat; u_lower : Z; u_upper : Z }.

Definition utf8_init : utf8_state := Utf8 0 0 0x80 0xBF.
Definition REPLACEMENT : text := [0xFFFD%N].

(** The code units of a code point. *)
Definition units_of (cp : Z) : text :=
  if cp <? 0x10000 then [Z.to_N cp]
  else [Z.to_N (0xD800 + Z.shiftr (cp - 0x10000) 10); Z.to_N (0xDC00 + Z.land (cp - 0x10000) 0x3FF)].

Definition utf8_first (b : Z) : text * utf8_state :=
  if b <=? 0x7F then ([Z.to_N b], utf8_init)
  else if (0xC2 <=? b) && (b <=? 0xDF) then ([], Utf8 (Z.land b 0x1F) 1 0x80 0xBF)
  else if (0xE0 <=? b) && (b <=? 0xEF) then
    ([], Utf8 (Z.land b 0xF) 2 (if b =? 0xE0 then 0xA0 else 0x80) (if b =? 0xED then 0x9F else 0xBF))
  else if (0xF0 <=? b) && (b <=? 0xF4) then
    ([], Utf8 (Z.land b 0x7) 3 (if b =? 0xF0 then 0x90 else 0x80) (if b =? 0xF4 then 0x8F else 0xBF))
  else (REPLACEMENT, utf8_init).

(** A byte outside the range is an error for the bytes before it and is read
    again as a first byte. *)
Fixpoint utf8_go (st : utf8_state) (l : list Z) : text :=
  match l with
  | [] => match u_need st with O => [] | _ => REPLACEMENT end
  | b :: l' =>
      match u_need st with
      | O => let '(out, st') := utf8_first b in out ++ utf8_go st' l'
      | S n =>
          if (u_lower st <=? b) && (b <=? u_upper st) then
            let cp := Z.shiftl (u_cp st) 6 + Z.land b 0x3F in
            match n with
            | O => units_of cp ++ utf8_go utf8_init l'
            | _ => utf8_go (Utf8 cp n 0x80 0xBF) l'
            end
          else let '(out, st') := utf8_first b in REPLACEMENT ++ out ++ utf8_go st' l'
      end
  end.

(** A byte order mark at the start is dropped. *)
Definition decode (body : list Z) : text :=
  match utf8_go utf8_init body with
  | c :: s => if (c =? 0xFEFF)%N then s else c :: s
  | [] => []
  end.

(** * Code points *)

Definition high_surrogate (c : N) : bool := in_range 0xD800 0xDBFF c.
Definition low_surrogate (c : N) : bool := in_range 0xDC00 0xDFFF c.

(** [[...text]]: the code points, each as a string of its own. *)
Fixpoint chars_of (s : text) : list text :=
  match s with
  | [] => []
  | h :: rest =>
      match rest with
      | l :: s' => if high_surrogate h && low_surrogate l then [h; l] :: chars_of s'
                   else [h] :: chars_of rest
      | [] => [[h]]
      end
  end.

(** [c.codePointAt(0)]. *)
Definition codePointAt (c : text) : Z :=
  match c with
  | [h; l] =>
      if high_surrogate h && low_surrogate l
      then 0x10000 + Z.shiftl (Z.of_N h - 0xD800) 10 + (Z.of_N l - 0xDC00)
      else Z.of_N h
  | h :: _ => Z.of_N h
  | [] => 0
  end.

(** [Buffer.from(s, "utf-8")]: a surrogate on its own is encoded as U+FFFD. *)
Definition utf8_char (c : text) : list Z :=
  let cp := codePointAt c in
  if cp <? 0x80 then [cp]
  else if cp <? 0x800 then [Z.lor 0xC0 (Z.shiftr cp 6); Z.lor 0x80 (Z.land cp 0x3F)]
  else if (0xD800 <=? cp) && (cp <=? 0xDFFF) then [0xEF; 0xBF; 0xBD]
  else if cp <? 0x10000 then
    [Z.lor 0xE0 (Z.shiftr cp 12); Z.lor 0x80 (Z.land (Z.shiftr cp 6) 0x3F); Z.lor 0x80 (Z.land cp 0x3F)]
  else
    [Z.lor 0xF0 (Z.shiftr cp 18); Z.lor 0x80 (Z.land (Z.shiftr cp 12) 0x3F);
     Z.lor 0x80 (Z.land (Z.shiftr cp 6) 0x3F); Z.lor 0x80 (Z.land cp 0x3F)].
Definition utf8_encode (s : text) : list Z := mjoin (map utf8_char (chars_of s)).

(** * Lines *)

Definition LINE_BOUNDARY_CODEPOINTS : list Z :=
  [0x0a; 0x0d; 0x0b; 0x0c; 0x1c; 0x1d; 0x1e; 0x85; 0x2028; 0x2029].
Definition is_boundary (c : text) : bool := existsb (Z.eqb (codePointAt c)) LINE_BOUNDARY_CODEPOINTS.

(** The loop over [chars]; [cur] is [chars.slice(lineStart, i)]. *)
Fixpoint lines_go (cur chars : list text) : list text :=
  match chars with
  | [] => match cur with [] => [] | _ => [mjoin cur] end
  | c :: rest =>
      if is_boundary c then
        match rest with
        | d :: rest' =>
            if (codePointAt c =? 0x0d) && (codePointAt d =? 0x0a)
            then mjoin (cur ++ [c; d]) :: lines_go [] rest'
            else mjoin (cur ++ [c]) :: lines_go [] rest
        | [] => [mjoin (cur ++ [c])]
        end
      else lines_go (cur ++ [c]) rest
  end.

Definition splitlinesKeepends (s : text) : list text := lines_go [] (chars_of s).

(** * Token estimates *)

(** Of the chunkers: a quarter of the code points, at least one. *)
Definition estimateTokens (body : text) : Z := Z.max 1 (Z.of_nat (length (chars_of body)) / 4).

Definition ASCII_MAX : Z := 127.

(** Of [token_budget.ts].  A string has fewer than 2^30 code points, so the
    quarter and its product with 2.5 are exact doubles, and the rounded share
    exceeds the double nearest to 0.1 exactly when the share exceeds a tenth. *)
Definition estimateTokens_budget (body : text) : Z :=
  match body with
  | [] => 1
  | _ =>
      let codepoints := chars_of body in
      let n := Z.of_nat (length codepoints) in
      let nonAscii := Z.of_nat (length (List.filter (fun c => ASCII_MAX <? codePointAt c) codepoints)) in
      let factor_doubled := if n <? 10 * nonAscii then 5 else 2 in
      Z.max 1 (n * factor_doubled / 8)
  end.

(** * Paths *)

(** [s.lastIndexOf(c)], [-1] when there is none. *)
Fixpoint last_index_from (i : Z) (last : Z) (c : N) (s : text) : Z :=
  match s with
  | [] => last
  | d :: s' => last_index_from (i + 1) (if (d =? c)%N then i else last) c s'
  end.
Definition lastIndexOf (c : N) (s : text) : Z := last_index_from 0 (-1) c s.

Definition slash_c : N := 47.
Definition backslash_c : N := 92.
Definition dot_c : N := 46.

(** The segment after the last slash of either kind. *)
Definition base_name (path : text) : text :=
  let slash := Z.max (lastIndexOf slash_c path) (lastIndexOf backslash_c path) in
  if 0 <=? slash then slice_from (Z.to_nat (slash + 1)) path else path.

Definition lowerName (path : text) : text := to_lower (base_name path).

(** [lowerSuffix] of the chunkers: a trailing dot is no suffix. *)
Definition lowerSuffix (path : text) : text :=
  let name := base_name path in
  let dot := lastIndexOf dot_c name in
  if (dot <=? 0) || (dot =? Z.of_nat (length name) - 1) then []
  else to_lower (slice_from (Z.to_nat dot) name).

(** [extractExtension] of the selector. *)
Definition extractExtension (path : text) : text :=
  let name := base_name path in
  let lastDot := lastIndexOf dot_c name in
  if lastDot <=? 0 then [] else to_lower (slice_from (Z.to_nat lastDot) name).

(** [posixDirname] of the batcher. *)
Fixpoint strip_slashes (rev_head : text) : text :=
  match rev_head with
  | c :: l => if (c =? slash_c)%N then strip_slashes l else rev_head
  | [] => []
  end.
Definition posixDirname (path : text) : text :=
  let head := slice 0 (Z.to_nat (lastIndexOf slash_c path + 1)) path in
  if forallb (N.eqb slash_c) head then head else rev (strip_slashes (rev head)).

(** * SHA-256 (FIPS 180-4) *)

Definition rotr (n x : Z) : Z := rotl (32 - n) x.
Definition xor3 (a b c : Z) : Z := Z.lxor (Z.lxor a b) c.

(** The constants are the first 32 bits of the fractional parts of the cube and
    square roots of the first primes. *)
Definition is_prime (n : nat) : bool :=
  (2 <=? n)%nat && forallb (fun d => negb (Nat.eqb (n mod d) 0)) (seq 2 (n - 2)).
Definition primes_below (n : nat) : list Z := map Z.of_nat (List.filter is_prime (seq 0 n)).

(** The greatest [r < lo + 2 ^ bits] with [r ^ 3 <= n], from a [lo] that is one. *)
Fixpoint icbrt (bits : nat) (lo n : Z) : Z :=
  match bits with
  | O => lo
  | S b => let mid := lo + Z.shiftl 1 (Z.of_nat b) in icbrt b (if mid * mid * mid <=? n then mid else lo) n
  end.

Definition K256 : list Z :=
  Eval vm_compute in map (fun p => u32 (icbrt 36 0 (Z.shiftl p 96))) (primes_below 312).

Fixpoint expand256 (n : nat) (w : list Z) : list Z :=
  match n with
  | O => w
  | S n' =>
      let at_ i := default 0 (w !! i) in
      let a := at_ 14%nat in
      let b := at_ 1%nat in
      let s0 := xor3 (rotr 7 a) (rotr 18 a) (Z.shiftr a 3) in
      let s1 := xor3 (rotr 17 b) (rotr 19 b) (Z.shiftr b 10) in
      expand256 n' (u32 (s1 + at_ 6%nat + s0 + at_ 15%nat) :: w)
  end.

Definition schedule256 (block : list Z) : list Z :=
  rev (expand256 48 (rev (map be_word (chunks 4 16 block)))).

Definition round256 (s : list Z) (kw : Z * Z) : list Z :=
  match s with
  | [a; b; c; d; e; f; g; h] =>
      let t1 := h + xor3 (rotr 6 e) (rotr 11 e) (rotr 25 e)
                + Z.lxor (Z.land e f) (Z.land (Z.lxor e 0xffffffff) g) + kw.1 + kw.2 in
      let t2 := xor3 (rotr 2 a) (rotr 13 a) (rotr 22 a)
                + xor3 (Z.land a b) (Z.land a c) (Z.land b c) in
      [u32 (t1 + t2); a; b; c; u32 (d + t1); e; f; g]
  | _ => s
  end.

Definition compress256 (s block : list Z) : list Z :=
  zip_with (fun x y => u32 (x + y)) s (fold_left round256 (zip K256 (schedule256 block)) s).

Definition sha256_init : list Z :=
  Eval vm_compute in map (fun p => u32 (Z.sqrt (Z.shiftl p 64))) (primes_below 20).

Definition sha256 (msg : list Z) : list Z :=
  let m := pad msg in
  mjoin (map (be_bytes 4) (fold_left compress256 (chunks 64 (length m) m) sha256_init)).

Example sha256_abc :
  to_hex (sha256 (string_bytes "abc"))
  = "ba7816bf8f01cfea414140de5dae2223b00361a396177a9cb410ff61f20015ad"%string.
Proof. vm_compute. reflexivity. Qed.

Example sha256_two_blocks :
  to_hex (sha256 (string_bytes "abcdbcdecdefdefgefghfghighijhijkijkljklmklmnlmnomnopnopq"))
  = "248d6a61d20638b8e5c026930c3e6039a33ce45964ff2167f6ecedd419db06c1"%string.
Proof. vm_compute. reflexivity. Qed.

(** * computeChunkId *)

Definition CHUNK_ID_NAMESPACE : string := "c4f8c4f8-c4f8-4c4f-8c4f-c4f8c4f8c4f8".

Definition computeChunkId (path : text) (start_line end_line : Z) (body : text) : string :=
  let bodyHash := to_hex (sha256 (utf8_encode body)) in
  let name := path ++ [10%N] ++ u (pretty start_line) ++ [10%N] ++ u (pretty end_line) ++ [10%N] ++ u bodyHash in
  uuid5_of CHUNK_ID_NAMESPACE (utf8_encode name).

(** * Lemmas *)

Lemma chars_of_cons2 h l s :
  chars_of (h :: l :: s) =
    if high_surrogate h && low_surrogate l then [h; l] :: chars_of s else [h] :: chars_of (l :: s).
Proof. reflexivity. Qed.

(** Induction along the code points of a text. *)
Lemma chars_ind (P : text -> Prop) :
  P [] ->
  (forall h, P [h]) ->
  (forall h l s, high_surrogate h && low_surrogate l = true -> P s -> P (h :: l :: s)) ->
  (forall h l s, high_surrogate h && low_surrogate l = false -> P (l :: s) -> P (h :: l :: s)) ->
  forall s, P s.
Proof.
  intros H0 H1 H2 H3 s.
  enough (Hn : P s /\ forall h, P (h :: s)) by apply Hn.
  induction s as [|l s [IH1 IH2]]; [auto|]. split; [auto|]. intros h.
  destruct (high_surrogate h && low_surrogate l) eqn:Hs; auto.
Qed.

Lemma chars_join s : mjoin (chars_of s) = s.
Proof.
  induction s as [|h|h l s Hs IH|h l s Hs IH] using chars_ind; [done|done| |];
    rewrite chars_of_cons2, Hs.
  - change (h :: l :: mjoin (chars_of s) = h :: l :: s). by rewrite IH.
  - change (h :: mjoin (chars_of (l :: s)) = h :: l :: s). by rewrite IH.
Qed.

Lemma chars_nonempty s : Forall (fun c => c <> []) (chars_of s).
Proof.
  induction s as [|h|h l s Hs IH|h l s Hs IH] using chars_ind; [by constructor|by repeat constructor| |];
    rewrite chars_of_cons2, Hs; by constructor.
Qed.

Lemma mjoin_app {A} (a b : list (list A)) : mjoin (a ++ b) = mjoin a ++ mjoin b.
Proof. induction a as [|x a IH]; [done|]. simpl. by rewrite IH, app_assoc. Qed.

Lemma mjoin_cons {A} (a : list A) b : mjoin (a :: b) = a ++ mjoin b.
Proof. reflexivity. Qed.

Lemma lines_go_cons cur c rest :
  lines_go cur (c :: rest) =
    if is_boundary c then
      match rest with
      | d :: rest' =>
          if (codePointAt c =? 0x0d) && (codePointAt d =? 0x0a)
          then mjoin (cur ++ [c; d]) :: lines_go [] rest'
          else mjoin (cur ++ [c]) :: lines_go [] rest
      | [] => [mjoin (cur ++ [c])]
      end
    else lines_go (cur ++ [c]) rest.
Proof. reflexivity. Qed.

(** Induction along the lines of a list of code points: [P cur chars lines]. *)
Lemma lines_go_ind (P : list text -> list text -> list text -> Prop) :
  (forall cur, P cur [] match cur with [] => [] | _ => [mjoin cur] end) ->
  (forall cur c rest ls, is_boundary c = false -> P (cur ++ [c]) rest ls -> P cur (c :: rest) ls) ->
  (forall cur c d rest ls, is_boundary c = true -> codePointAt c = 0x0d -> codePointAt d = 0x0a ->
    P [] rest ls -> P cur (c :: d :: rest) (mjoin (cur ++ [c; d]) :: ls)) ->
  (forall cur c rest ls, is_boundary c = true -> P [] rest ls ->
    P cur (c :: rest) (mjoin (cur ++ [c]) :: ls)) ->
  forall chars cur, P cur chars (lines_go cur chars).
Proof.
  intros H0 Hstep Hcrlf Hend chars.
  assert (Hn : (length chars <= length chars)%nat) by lia. revert Hn.
  generalize (length chars) at 2 as n. intros n. revert chars.
  induction n as [|n IH]; intros chars Hlen cur.
  { destruct chars; [apply H0|simpl in Hlen; lia]. }
  destruct chars as [|c rest]; [apply H0|]. simpl in Hlen. rewrite lines_go_cons.
  destruct (is_boundary c) eqn:Hb; [|apply Hstep; [done|apply IH; lia]].
  destruct rest as [|d rest]; [by apply Hend; [done|apply (H0 [])]|].
  destruct ((codePointAt c =? 0x0d) && (codePointAt d =? 0x0a)) eqn:Hcr; simpl in Hlen.
  - bool_to_prop. apply Hcrlf; try done. apply IH. lia.
  - apply Hend; [done|]. apply IH. simpl. lia.
Qed.

(** The lines are the text cut into pieces, none of them empty. *)
Lemma lines_go_join chars cur : mjoin (lines_go cur chars) = mjoin cur ++ mjoin chars.
Proof.
  revert chars cur.
  apply (lines_go_ind (fun cur chars ls => mjoin ls = mjoin cur ++ mjoin chars)).
  - intros [|c cur]; [done|]. rewrite mjoin_cons. by rewrite !app_nil_r.
  - intros cur c rest ls _ ->. by rewrite mjoin_app, mjoin_cons, app_nil_r, <- app_assoc.
  - intros cur c d rest ls _ _ _ IH. rewrite !mjoin_cons, IH, mjoin_app, !mjoin_cons.
    by rewrite app_nil_r, <- !app_assoc.
  - intros cur c rest ls _ IH. by rewrite !mjoin_cons, IH, mjoin_app, mjoin_cons, app_nil_r, <- app_assoc.
Qed.

Lemma splitlines_join s : mjoin (splitlinesKeepends s) = s.
Proof. unfold splitlinesKeepends. rewrite lines_go_join. apply chars_join. Qed.

Lemma mjoin_nonempty (l : list text) : l <> [] -> Forall (fun c => c <> []) l -> mjoin l <> [].
Proof.
  destruct l as [|c l]; [done|]. intros _ [Hc _]%Forall_cons. rewrite mjoin_cons. by destruct c.
Qed.

Lemma splitlines_nonempty s : Forall (fun line => line <> []) (splitlinesKeepends s).
Proof.
  unfold splitlinesKeepends.
  enough (H : forall chars cur, Forall (fun c => c <> []) (cur ++ chars) ->
            Forall (fun line : text => line <> []) (lines_go cur chars)) by apply H, chars_nonempty.
  apply (lines_go_ind (fun cur chars ls => Forall (fun c => c <> []) (cur ++ chars) ->
           Forall (fun line : text => line <> []) ls)).
  - intros [|c cur] H; constructor; [|constructor]. rewrite app_nil_r in H. by apply mjoin_nonempty.
  - intros cur c rest ls _ IH H. apply IH. by rewrite <- app_assoc.
  - intros cur c d rest ls _ _ _ IH H. change (c :: d :: rest) with ([c; d] ++ rest) in H.
    rewrite app_assoc, Forall_app in H. destruct H as [Hl Hr].
    constructor; [apply mjoin_nonempty; [by destruct cur|done]|by apply IH].
  - intros cur c rest ls _ IH H. change (c :: rest) with ([c] ++ rest) in H. rewrite app_assoc, Forall_app in H. destruct H as [Hl Hr].
    constructor; [apply mjoin_nonempty; [by destruct cur|done]|by apply IH].
Qed.

Lemma splitlines_nil s : splitlinesKeepends s = [] <-> s = [].
Proof.
  split; [|by intros ->]. intros H. rewrite <- (splitlines_join s), H. done.
Qed.

(** The lines that git and tree-sitter number: cut after every line feed. *)
Fixpoint lf_go (cur s : text) : list text :=
  match s with
  | [] => match cur with [] => [] | _ => [cur] end
  | c :: s' => if (c =? 10)%N then (cur ++ [c]) :: lf_go [] s' else lf_go (cur ++ [c]) s'
  end.
Definition lf_lines (s : text) : list text := lf_go [] s.

(** A text whose only line boundary is the line feed. *)
Definition lf_only (s : text) : Prop := forall c, c ∈ s -> is_boundary [c] = true -> c = 10%N.

Lemma lf_go_app cur a s : 10%N ∉ a -> lf_go cur (a ++ s) = lf_go (cur ++ a) s.
Proof.
  revert cur. induction a as [|c a IH]; intros cur Ha; [by rewrite app_nil_r|].
  apply not_elem_of_cons in Ha as [Hc Ha]. simpl.
  destruct (N.eqb_spec c 10) as [->|_]; [done|]. by rewrite IH, <- app_assoc.
Qed.

Lemma surrogate_not_lf h l : high_surrogate h && low_surrogate l = true -> (h =? 10)%N = false /\ (l =? 10)%N = false.
Proof.
  unfold high_surrogate, low_surrogate, in_range. intros H.
  rewrite !andb_true_iff, !N.leb_le in H. rewrite !N.eqb_neq. lia.
Qed.

Lemma surrogate_pair_boundary h l : high_surrogate h && low_surrogate l = true -> is_boundary [h; l] = false.
Proof.
  intros H. unfold is_boundary, codePointAt. rewrite H. rewrite Z.shiftl_mul_pow2 by lia.
  unfold high_surrogate, low_surrogate, in_range in H. rewrite !andb_true_iff, !N.leb_le in H.
  simpl. rewrite !orb_false_iff, !Z.eqb_neq. lia.
Qed.

Lemma single_boundary c s : lf_only (c :: s) -> is_boundary [c] = (c =? 10)%N.
Proof.
  intros H. destruct (is_boundary [c]) eqn:Hb.
  - by rewrite (H c) by set_solver.
  - destruct (N.eqb_spec c 10) as [->|]; done.
Qed.

Lemma boundary_10 : is_boundary [10%N] = true.
Proof. reflexivity. Qed.

Lemma lf_only_tail c s : lf_only (c :: s) -> lf_only s.
Proof. intros H d Hd. apply H. by right. Qed.

Lemma lines_go_nil cur : cur <> [] -> lines_go cur [] = [mjoin cur].
Proof. by destruct cur. Qed.

Lemma lf_go_nil cur : cur <> [] -> lf_go cur [] = [cur].
Proof. by destruct cur. Qed.

Lemma lf_go_cons cur c s :
  lf_go cur (c :: s) = if (c =? 10)%N then (cur ++ [c]) :: lf_go [] s else lf_go (cur ++ [c]) s.
Proof. reflexivity. Qed.

Lemma lines_lf cur s :
  Forall (fun c => c <> []) cur -> lf_only s -> lines_go cur (chars_of s) = lf_go (mjoin cur) s.
Proof.
  revert cur. induction s as [|h|h l s Hp IH|h l s Hp IH] using chars_ind; intros cur Hc Hs.
  - destruct cur as [|c cur]; [done|].
    cbn [chars_of]. rewrite lines_go_nil, lf_go_nil; [done|by apply mjoin_nonempty|done].
  - cbn [chars_of]. rewrite lf_go_cons, lines_go_cons, (single_boundary _ _ Hs).
    destruct (h =? 10)%N; [by rewrite mjoin_app, mjoin_cons, app_nil_r|].
    rewrite lines_go_nil, lf_go_nil, mjoin_app, mjoin_cons, app_nil_r; [done|destruct (mjoin cur); done|by destruct cur].
  - rewrite chars_of_cons2, Hp, lines_go_cons, (surrogate_pair_boundary _ _ Hp).
    rewrite !lf_go_cons. destruct (surrogate_not_lf _ _ Hp) as [-> ->].
    rewrite IH.
    + by rewrite mjoin_app, mjoin_cons, app_nil_r, <- app_assoc.
    + apply Forall_app. split; [done|by repeat constructor].
    + by do 2 eapply lf_only_tail.
  - rewrite chars_of_cons2, Hp, lf_go_cons, lines_go_cons, (single_boundary _ _ Hs).
    pose proof (lf_only_tail _ _ Hs) as Hs'.
    destruct (N.eqb_spec h 10) as [->|_].
    + rewrite mjoin_app, mjoin_cons, app_nil_r. specialize (IH [] (Forall_nil_2 _) Hs').
      change (mjoin []) with (@nil N) in IH. rewrite <- IH.
      by destruct (chars_of (l :: s)).
    + rewrite IH; [by rewrite mjoin_app, mjoin_cons, app_nil_r| |done].
      apply Forall_app. split; [done|by repeat constructor].
Qed.

Lemma splitlines_lf s : lf_only s -> splitlinesKeepends s = lf_lines s.
Proof. intros Hs. exact (lines_lf [] s (Forall_nil_2 _) Hs). Qed.
