(* ===== verification/Chunking.v ===== *)
(** The chunk contract of [contracts/diff_chunking.v1.ts], the three chunkers of
    [chunking/] with the selector in front of them, and
    [activities/chunk_and_redact.activity.ts] over a file system with symbolic
    links.  tree-sitter is a parameter that may answer anything.

    A record read by key answers for its own keys only: files named like a
    member of [Object.prototype] are not modelled. *)
From stdpp Require Import base gmap list strings sets sorting.
From Stdlib Require Import ZArith NArith Lia Ascii Sorting.Sorted.
From S2P Require Import Prelude Text Uuid5 ChunkText Redaction.
Open Scope Z_scope.

(** * DiffChunkV1 *)

Inductive chunk_kind := CKfunction | CKclass | CKmodule | CKhunk | CKbatch.

#[export] Instance chunk_kind_eq_dec : EqDecision chunk_kind.
Proof. solve_decision. Defined.

(** [schema_version] is 1 in every chunk the program makes. *)
Record chunk := Chunk {
  chunk_id : string;
  c_path : text;
  language : option text;
  start_line : Z;
  end_line : Z;
  c_body : text;
  kind : chunk_kind;
  token_estimate : Z;
}.

Inductive chunk_error :=
| ZodError
| RangeError
| DiffTooLargeError (line_count : Z)
| WorkspacePathOutsideRootError (rel_path : text).

Section Contract.
(** Zod's [uuid] format. *)
Variable zod_uuid : string -> bool.

Definition chunk_ok (c : chunk) : bool :=
  zod_uuid (chunk_id c) && negb (bool_decide (c_path c = [])) && (1 <=? start_line c) && (1 <=? end_line c)
  && (0 <=? token_estimate c) && (start_line c <=? end_line c).

Definition parse_chunk (c : chunk) : result chunk_error chunk := if chunk_ok c then Ok c else Throw ZodError.

(** [DiffChunkV1.parse] of an object with a fresh [computeChunkId]. *)
Definition mint (path : text) (lang : option text) (start end_ : Z) (body : text) (k : chunk_kind)
    (tokens : Z) : result chunk_error chunk :=
  parse_chunk (Chunk (computeChunkId path start end_ body) path lang start end_ body k tokens).

(** * What the chunkers share *)

Definition HunkRange : Type := Z * Z.
Definition MAX_DIFF_LINES : Z := 50000.
Definition NEWLINE_BYTE : Z := 10.

Definition count_lines (body : list Z) : Z :=
  match body with
  | [] => 0
  | _ =>
      let n := Z.of_nat (length (List.filter (Z.eqb NEWLINE_BYTE) body)) in
      if List.last body 0 =? NEWLINE_BYTE then n else n + 1
  end.

Definition assertDiffSize (body : list Z) : result chunk_error unit :=
  if MAX_DIFF_LINES <? count_lines body then Throw (DiffTooLargeError (count_lines body)) else Ok tt.

Definition overlaps (startA endA startB endB : Z) : bool := (startA <=? endB) && (startB <=? endA).

(** [l.slice(a, b)]: a negative index counts from the end. *)
Definition js_index (n i : Z) : nat := Z.to_nat (if i <? 0 then Z.max 0 (n + i) else Z.min i n).
Definition js_slice {A} (a b : Z) (l : list A) : list A :=
  let n := Z.of_nat (length l) in take (js_index n b - js_index n a) (drop (js_index n a) l).

(** [lines.slice(start - 1, end).join("")]. *)
Definition slice_body (start end_ : Z) (lines : list text) : text := mjoin (js_slice (start - 1) end_ lines).

(** * hunk_fallback.ts *)

Definition LANG_BY_EXT : list (string * string) :=
  [(".go", "go"); (".rs", "rust"); (".java", "java"); (".kt", "kotlin"); (".swift", "swift");
   (".rb", "ruby"); (".php", "php"); (".cs", "csharp"); (".c", "c"); (".h", "c"); (".cpp", "cpp");
   (".cc", "cpp"); (".hpp", "cpp"); (".yaml", "yaml"); (".yml", "yaml"); (".toml", "toml");
   (".ini", "ini"); (".md", "markdown"); (".json", "json")]%string.

Definition lookup_ext {A} (ext : text) (table : list (string * A)) : option A :=
  snd <$> List.find (fun row => bool_decide (u row.1 = ext)) table.

Definition languageFor (path : text) : option text :=
  let name := lowerName path in
  if bool_decide (name = u "dockerfile") || starts_with (u "dockerfile.") name then Some (u "dockerfile")
  else u <$> lookup_ext (lowerSuffix path) LANG_BY_EXT.

Definition expand (lineWindow total : Z) (h : HunkRange) : result chunk_error HunkRange :=
  if h.2 <? h.1 then Throw RangeError
  else Ok (Z.max 1 (h.1 - lineWindow), Z.min total (h.2 + lineWindow)).

Definition range_leb (a b : HunkRange) : bool :=
  if a.1 =? b.1 then a.2 <=? b.2 else a.1 <=? b.1.

(** [merged] with its last element first. *)
Definition merge_step (merged : list HunkRange) (r : HunkRange) : list HunkRange :=
  match merged with
  | last :: before => if r.1 <=? last.2 + 1 then (last.1, Z.max last.2 r.2) :: before else r :: merged
  | [] => [r]
  end.
Definition merge_ranges (sorted : list HunkRange) : list HunkRange := rev (fold_left merge_step sorted []).

Definition hunk_chunk (lineWindow : Z) (path : text) (body : list Z) (hunkRanges : list HunkRange)
    : result chunk_error (list chunk) :=
  let? _ := assertDiffSize body in
  match hunkRanges with
  | [] => Ok []
  | _ =>
      let lines := splitlinesKeepends (decode body) in
      let total := Z.of_nat (length lines) in
      if total =? 0 then Ok []
      else
        let? expanded := rmap (expand lineWindow total) hunkRanges in
        rmap (fun r => let b := slice_body r.1 r.2 lines in
                       mint path (languageFor path) r.1 r.2 b CKhunk (estimateTokens b))
             (merge_ranges (sort_by range_leb expanded))
  end.

(** [new HunkFallbackChunker({ lineWindow })]. *)
Definition LINE_WINDOW : Z := 20.
Definition newHunkFallbackChunker (lineWindow : Z) : result chunk_error Z :=
  if lineWindow <? 0 then Throw RangeError else Ok lineWindow.

(** * treesitter_python.ts and treesitter_tsjs.ts *)

Inductive grammar := GPython | GTypescript | GTsx | GJavascript.

Inductive node := Node (ty : string) (startRow endRow endColumn : Z) (children : list (option node)).
Definition n_type (n : node) : string := let '(Node t _ _ _ _) := n in t.
Definition n_children (n : node) : list (option node) := let '(Node _ _ _ _ cs) := n in cs.

(** What [getParser] and [parser.parse] may do. *)
Inductive parsed := ParserThrows | NoTree | Tree (root : node).
Variable parser : grammar -> text -> parsed.

Definition has (t : string) (l : list string) : bool := existsb (String.eqb t) l.
Definition present {A} (l : list (option A)) : list A := omap id l.

Definition PY_FUNCTION_NODE_TYPES : list string := ["function_definition"; "async_function_definition"]%string.
Definition PY_CLASS_NODE_TYPES : list string := ["class_definition"]%string.

(** The kind of a top-level node; [None] for [continue]. *)
Definition py_kind (n : node) : option chunk_kind :=
  if String.eqb (n_type n) "decorated_definition" then
    match List.find (fun c => has (n_type c) PY_FUNCTION_NODE_TYPES || has (n_type c) PY_CLASS_NODE_TYPES)
                    (present (n_children n)) with
    | Some inner => Some (if has (n_type inner) PY_CLASS_NODE_TYPES then CKclass else CKfunction)
    | None => None
    end
  else if has (n_type n) PY_FUNCTION_NODE_TYPES then Some CKfunction
  else if has (n_type n) PY_CLASS_NODE_TYPES then Some CKclass
  else None.
Definition py_decls (root : node) : list node := present (n_children root).

Definition FUNCTION_NODE_TYPES : list string := ["function_declaration"; "function_expression"]%string.
Definition CLASS_NODE_TYPES : list string := ["class_declaration"; "abstract_class_declaration"]%string.
Definition EXPORT_WRAPPER_TYPES : list string := ["export_statement"; "export_default_declaration"]%string.
Definition LEXICAL_DECL_TYPES : list string := ["lexical_declaration"; "variable_declaration"]%string.
Definition FUNCTION_VALUE_TYPES : list string := ["arrow_function"; "function_expression"]%string.

(** [chunkKindForNode]. *)
Definition tsjs_kind (n : node) : option chunk_kind :=
  if has (n_type n) FUNCTION_NODE_TYPES then Some CKfunction
  else if has (n_type n) CLASS_NODE_TYPES then Some CKclass
  else if has (n_type n) LEXICAL_DECL_TYPES
          && existsb (fun d => String.eqb (n_type d) "variable_declarator"
                               && existsb (fun v => has (n_type v) FUNCTION_VALUE_TYPES) (present (n_children d)))
                     (present (n_children n))
  then Some CKfunction
  else None.

(** [iterTopLevelDecls]. *)
Definition tsjs_decls (root : node) : list node :=
  mjoin (map (fun child => if has (n_type child) EXPORT_WRAPPER_TYPES then present (n_children child)
                           else [child]) (present (n_children root))).

Definition candidate (path : text) (lang : text) (lines : list text) (nk : node * chunk_kind)
    : result chunk_error chunk :=
  let '(Node _ startRow endRow endColumn _, k) := nk in
  let startLine := startRow + 1 in
  let endLine0 := endRow + 1 in
  let endLine := if (endColumn =? 0) && (startLine <? endLine0) then endLine0 - 1 else endLine0 in
  let b := slice_body startLine endLine lines in
  mint path (Some lang) startLine endLine b k (estimateTokens b).

Definition with_kind (kind_of : node -> option chunk_kind) (n : node) : option (node * chunk_kind) :=
  (fun k => (n, k)) <$> kind_of n.

Definition extractCandidates (kind_of : node -> option chunk_kind) (decls : list node) (body path lang : text)
    : result chunk_error (list chunk) :=
  rmap (candidate path lang (splitlinesKeepends body)) (omap (with_kind kind_of) decls).

(** The whole file, or the clamped union of the changed lines. *)
Definition fallback_range (total : Z) (hunkRanges : list HunkRange) : Z * Z :=
  match hunkRanges with
  | [] => (1, total)
  | h :: hs =>
      let start := Z.max 1 (fold_left (fun m r => Z.min m r.1) hs h.1) in
      let end_ := Z.min total (fold_left (fun m r => Z.max m r.2) hs h.2) in
      (start, if end_ <? start then start else end_)
  end.

Definition fallbackModule (path body lang : text) (hunkRanges : list HunkRange)
    : result chunk_error (list chunk) :=
  match body with
  | [] => Ok []
  | _ =>
      let lines := splitlinesKeepends body in
      let '(start, end_) := fallback_range (Z.of_nat (length lines)) hunkRanges in
      let b := slice_body start end_ lines in
      let? c := mint path (Some lang) start end_ b CKmodule (estimateTokens b) in Ok [c]
  end.

(** The method [chunk] of both classes. *)
Definition ts_chunk (g : grammar) (lang : text) (decls : node -> list node)
    (kind_of : node -> option chunk_kind) (path : text) (body : list Z) (hunkRanges : list HunkRange)
    : result chunk_error (list chunk) :=
  let? _ := assertDiffSize body in
  let decoded := decode body in
  match decoded with
  | [] => Ok []
  | _ =>
      let fallback := fallbackModule path decoded lang hunkRanges in
      match parser g decoded with
      | ParserThrows | NoTree => fallback
      | Tree root =>
          match extractCandidates kind_of (decls root) decoded path lang with
          | Throw _ | Ok [] => fallback
          | Ok candidates =>
              match hunkRanges with
              | [] => Ok candidates
              | _ =>
                  match List.filter (fun c => existsb (fun h => overlaps (start_line c) (end_line c) h.1 h.2)
                                                      hunkRanges) candidates with
                  | [] => fallback
                  | intersecting => Ok intersecting
                  end
              end
          end
      end
  end.

Definition python_chunk : text -> list Z -> list HunkRange -> result chunk_error (list chunk) :=
  ts_chunk GPython (u "python") py_decls py_kind.

Definition TSJS_LANG_BY_EXT : list (string * grammar) :=
  [(".ts", GTypescript); (".tsx", GTsx); (".js", GJavascript); (".jsx", GJavascript);
   (".mjs", GJavascript); (".cjs", GJavascript)]%string.
Definition kindFor (path : text) : grammar := default GTypescript (lookup_ext (lowerSuffix path) TSJS_LANG_BY_EXT).
Definition languageLabelFor (path : text) : text :=
  let ext := lowerSuffix path in
  if bool_decide (ext = u ".ts") || bool_decide (ext = u ".tsx") then u "typescript" else u "javascript".

Definition tsjs_chunk (path : text) : list Z -> list HunkRange -> result chunk_error (list chunk) :=
  ts_chunk (kindFor path) (languageLabelFor path) tsjs_decls tsjs_kind path.

(** * selector.ts *)

Definition PY_EXTENSIONS : list string := [".py"]%string.
Definition TSJS_EXTENSIONS : list string := [".ts"; ".tsx"; ".js"; ".jsx"; ".mjs"; ".cjs"]%string.

Inductive chunker := CPython | CTsJs | CFallback.

Definition selectFor (path : text) : chunker :=
  let ext := extractExtension path in
  if existsb (fun e => bool_decide (u e = ext)) PY_EXTENSIONS then CPython
  else if existsb (fun e => bool_decide (u e = ext)) TSJS_EXTENSIONS then CTsJs
  else CFallback.

Definition run_chunker (path : text) : list Z -> list HunkRange -> result chunk_error (list chunk) :=
  match selectFor path with
  | CPython => python_chunk path
  | CTsJs => tsjs_chunk path
  | CFallback => hunk_chunk LINE_WINDOW path
  end.

(** * redactChunk, doRedact *)

Definition redactChunk (c : chunk) : result chunk_error chunk :=
  let redactedBody := redact_body (c_body c) in
  if bool_decide (redactedBody = c_body c) then Ok c
  else mint (c_path c) (language c) (start_line c) (end_line c) redactedBody (kind c)
            (estimateTokens redactedBody).

Definition doRedact (chunks : list chunk) : result chunk_error (list chunk) := rmap redactChunk chunks.

End Contract.

(** * Lemmas: minting *)

Lemma estimateTokens_pos b : 1 <= estimateTokens b.
Proof. unfold estimateTokens. lia. Qed.

Lemma chunk_ok_spec zod_uuid c :
  chunk_ok zod_uuid c = true <->
  zod_uuid (chunk_id c) = true /\ c_path c <> [] /\ 1 <= start_line c <= end_line c /\ 0 <= token_estimate c.
Proof.
  unfold chunk_ok. rewrite !andb_true_iff, negb_true_iff, bool_decide_eq_false, !Z.leb_le.
  intuition lia.
Qed.

Lemma mint_inv zod_uuid path lang s e b k t c :
  mint zod_uuid path lang s e b k t = Ok c ->
  c = Chunk (computeChunkId path s e b) path lang s e b k t /\ chunk_ok zod_uuid c = true.
Proof. unfold mint, parse_chunk. destruct (chunk_ok _ _) eqn:H; [|done]. by intros [= <-]. Qed.

(** The format check of Zod accepts canonical identifiers. *)
Definition zod_accepts_uuid5 (zod_uuid : string -> bool) : Prop :=
  forall s, uuid5_text s -> zod_uuid s = true.

Lemma mint_ok zod_uuid path lang s e b k t :
  zod_accepts_uuid5 zod_uuid -> path <> [] -> 1 <= s <= e -> 0 <= t ->
  mint zod_uuid path lang s e b k t = Ok (Chunk (computeChunkId path s e b) path lang s e b k t).
Proof.
  intros Hz Hp Hse Ht. unfold mint, parse_chunk.
  destruct (chunk_ok _ _) eqn:H; [done|]. apply not_true_iff_false in H. destruct H.
  apply chunk_ok_spec. cbn [chunk_id c_path start_line end_line token_estimate].
  split_and!; try done; try lia. apply Hz, uuid5_of_canonical.
Qed.
#[global] Opaque computeChunkId.

Lemma mint_past_end zod_uuid path lang s e b k t : e < s -> mint zod_uuid path lang s e b k t = Throw ZodError.
Proof.
  intros H. unfold mint, parse_chunk. destruct (chunk_ok _ _) eqn:Hok; [|done].
  apply chunk_ok_spec in Hok. simpl in Hok. lia.
Qed.

(** * Lemmas: merging windows *)

Definition covers (i : Z) (r : HunkRange) : Prop := r.1 <= i <= r.2.
Definition covered (i : Z) (l : list HunkRange) : Prop := Exists (covers i) l.
(** Apart by at least one line. *)
Definition apart (a b : HunkRange) : Prop := a.2 + 1 < b.1.

Lemma range_leb_total a b : range_leb a b = true \/ range_leb b a = true.
Proof. unfold range_leb. repeat case_match; bool_to_prop; rewrite ?Z.leb_le; lia. Qed.

Lemma range_leb_trans a b c : range_leb a b = true -> range_leb b c = true -> range_leb a c = true.
Proof. unfold range_leb. repeat case_match; bool_to_prop; rewrite ?Z.leb_le; lia. Qed.

Lemma range_leb_start a b : range_leb a b = true -> a.1 <= b.1.
Proof. unfold range_leb. case_match; bool_to_prop; rewrite Z.leb_le; lia. Qed.

(** [merged] so far, newest first: ranges within [lo, hi], each apart from the
    one before it, none starting after [s]. *)
Definition merging (lo hi : Z) (merged : list HunkRange) : Prop :=
  Forall (fun r => lo <= r.1 <= r.2 /\ r.2 <= hi) merged /\ StronglySorted (flip apart) merged.

Lemma merge_step_ok lo hi merged r :
  merging lo hi merged -> Forall (fun a => a.1 <= r.1) merged -> lo <= r.1 <= r.2 -> r.2 <= hi ->
  merging lo hi (merge_step merged r) /\ Forall (fun a => a.1 <= r.1) (merge_step merged r) /\
  (forall i, covered i (merge_step merged r) <-> covered i merged \/ covers i r).
Proof.
  intros [Hin Hs] Hle Hr Hhi. destruct merged as [|last before]; simpl.
  { split_and!; [split; repeat constructor; simpl; lia|repeat constructor; simpl; lia|].
    intros i. unfold covered. rewrite Exists_cons, Exists_nil. tauto. }
  apply Forall_cons in Hin as [Hlast Hin], Hle as [Hll Hle].
  apply StronglySorted_inv in Hs as [Hs Hap].
  destruct (Z.leb_spec r.1 (last.2 + 1)).
  - split_and!.
    + split; [constructor; [simpl; lia|done]|]. by constructor.
    + by constructor.
    + intros i. unfold covered. rewrite !Exists_cons. unfold covers. simpl. intuition lia.
  - split_and!.
    + split; [by repeat constructor; (lia || done)|]. constructor; [by constructor|].
      constructor; [unfold flip, apart; lia|].
      eapply Forall_impl; [exact Hap|]. unfold flip, apart. intros a Ha. lia.
    + constructor; [lia|]. by constructor.
    + intros i. unfold covered. rewrite !Exists_cons. tauto.
Qed.

Lemma merge_fold_ok lo hi sorted merged :
  StronglySorted (fun a b => range_leb a b = true) sorted ->
  Forall (fun r => lo <= r.1 <= r.2 /\ r.2 <= hi) sorted ->
  merging lo hi merged -> Forall (fun r => Forall (fun a => a.1 <= r.1) merged) sorted ->
  merging lo hi (fold_left merge_step sorted merged) /\
  (forall i, covered i (fold_left merge_step sorted merged) <-> covered i merged \/ covered i sorted).
Proof.
  revert merged. induction sorted as [|r sorted IH]; intros merged Hs Hin Hm Hle; simpl.
  { split; [done|]. intros i. unfold covered. rewrite Exists_nil. tauto. }
  apply StronglySorted_inv in Hs as [Hs Hr]. apply Forall_cons in Hin as [Hri Hin].
  apply Forall_cons in Hle as [Hle _].
  destruct (merge_step_ok lo hi merged r) as (Hm' & Hle' & Hc); [done|done|lia|lia|].
  destruct (IH (merge_step merged r)) as [H1 H2]; [done|done|done| |].
  { rewrite Forall_forall in Hr |- *. intros q Hq. eapply Forall_impl; [exact Hle'|].
    intros a Ha. pose proof (range_leb_start _ _ (Hr q Hq)). simpl in *. lia. }
  split; [done|]. intros i. rewrite H2, Hc. unfold covered. rewrite Exists_cons. tauto.
Qed.

Lemma sorted_rev {A} (R : A -> A -> Prop) l : StronglySorted (flip R) l -> StronglySorted R (rev l).
Proof.
  induction 1 as [|x l _ IH Hx]; simpl; [constructor|].
  apply StronglySorted_app_2; [|done|by repeat constructor].
  intros a b Ha ->%list_elem_of_singleton. rewrite list_elem_of_In, <- in_rev, <- list_elem_of_In in Ha.
  rewrite Forall_forall in Hx. by apply Hx.
Qed.

Lemma covered_perm i l k : l ≡ₚ k -> covered i l <-> covered i k.
Proof. intros Hp. unfold covered. rewrite !Exists_exists. by setoid_rewrite Hp. Qed.

Lemma merge_ranges_ok lo hi ranges :
  Forall (fun r => lo <= r.1 <= r.2 /\ r.2 <= hi) ranges ->
  let merged := merge_ranges (sort_by range_leb ranges) in
  Forall (fun r => lo <= r.1 <= r.2 /\ r.2 <= hi) merged /\ StronglySorted apart merged /\
  (forall i, covered i merged <-> covered i ranges).
Proof.
  intros Hin merged.
  destruct (merge_fold_ok lo hi (sort_by range_leb ranges) []) as [[H1 H2] H3].
  - apply sort_by_sorted; [apply range_leb_total|apply range_leb_trans].
  - by rewrite sort_by_perm.
  - split; constructor.
  - apply Forall_true. constructor.
  - unfold merged, merge_ranges. split_and!.
    + by apply Forall_rev.
    + by apply sorted_rev.
    + intros i. rewrite (covered_perm i _ _ (Permutation_sym (Permutation_rev _))), H3.
      rewrite (covered_perm i _ _ (sort_by_perm range_leb ranges)). unfold covered. rewrite Exists_nil. tauto.
Qed.

(** * The hunk fallback *)

Lemma rmap_map {E A B} (g : A -> result E B) (h : A -> B) l :
  Forall (fun x => g x = Ok (h x)) l -> rmap g l = Ok (map h l).
Proof. induction 1 as [|x l Hx _ IH]; simpl; [done|]. by rewrite Hx, IH. Qed.

Lemma sorted_map {A B} (R : B -> B -> Prop) (f : A -> B) l :
  StronglySorted (fun a b => R (f a) (f b)) l -> StronglySorted R (map f l).
Proof. induction 1 as [|x l _ IH Hx]; simpl; constructor; [done|]. by apply Forall_map. Qed.

Lemma assertDiffSize_ok body : count_lines body <= MAX_DIFF_LINES -> assertDiffSize body = Ok tt.
Proof. intros H. unfold assertDiffSize. by destruct (Z.ltb_spec MAX_DIFF_LINES (count_lines body)); [lia|]. Qed.

(** The chunk of a window. *)
Definition window_chunk (path : text) (lines : list text) (r : HunkRange) : chunk :=
  let b := slice_body r.1 r.2 lines in
  Chunk (computeChunkId path r.1 r.2 b) path (languageFor path) r.1 r.2 b CKhunk (estimateTokens b).

(** A changed range whose window meets the file. *)
Definition window_meets (w total : Z) (h : HunkRange) : Prop :=
  h.1 <= h.2 /\ h.1 - w <= total /\ 1 <= h.2 + w.

Lemma expand_meets w total h :
  0 <= w -> window_meets w total h -> 1 <= total ->
  expand w total h = Ok (Z.max 1 (h.1 - w), Z.min total (h.2 + w)).
Proof. intros Hw [H1 H2] Ht. unfold expand. by destruct (Z.ltb_spec h.2 h.1); [lia|]. Qed.

(** The hunk fallback: when every changed range meets the file within the
    window, the chunks are sorted, at least one line apart, within the file, each
    holds exactly the lines it names, and a line of the file is in a chunk exactly
    when it is within the window of a changed range. *)
Theorem hunk_windows zod_uuid w path body hunks :
  zod_accepts_uuid5 zod_uuid -> path <> [] -> count_lines body <= MAX_DIFF_LINES -> 0 <= w ->
  let lines := splitlinesKeepends (decode body) in
  let total := Z.of_nat (length lines) in
  Forall (window_meets w total) hunks ->
  exists cs,
    hunk_chunk zod_uuid w path body hunks = Ok cs /\
    StronglySorted (fun a b => end_line a + 1 < start_line b) cs /\
    Forall (fun c => 1 <= start_line c <= end_line c /\ end_line c <= total /\ c_path c = path /\
                     kind c = CKhunk /\ c_body c = slice_body (start_line c) (end_line c) lines) cs /\
    (forall i, 1 <= i <= total ->
       Exists (fun c => start_line c <= i <= end_line c) cs <->
       Exists (fun h => h.1 - w <= i <= h.2 + w) hunks).
Proof.
  intros Hz Hp Hsize Hw lines total Hm. unfold hunk_chunk.
  rewrite (assertDiffSize_ok _ Hsize). cbn [rbind]. fold lines. fold total.
  destruct (decide (hunks = [])) as [->|Hne].
  { exists []. split_and!; [done|constructor|constructor|]. intros i _. by rewrite !Exists_nil. }
  destruct (Z.eqb_spec total 0) as [H0|H0].
  { exists []. split_and!; [by destruct hunks|constructor|constructor|]. lia. }
  assert (Ht : 1 <= total) by (unfold total in *; lia).
  set (win h := (Z.max 1 (h.1 - w), Z.min total (h.2 + w)) : HunkRange).
  assert (He : rmap (expand w total) hunks = Ok (map win hunks)).
  { apply rmap_map. eapply Forall_impl; [exact Hm|]. intros h Hh. by apply expand_meets. }
  destruct (merge_ranges_ok 1 total (map win hunks)) as (Hin & Hs & Hc).
  { apply Forall_map. eapply Forall_impl; [exact Hm|]. intros h (H1 & H2 & H3). simpl. lia. }
  set (merged := merge_ranges (sort_by range_leb (map win hunks))) in *.
  exists (map (window_chunk path lines) merged). split_and!.
  - rewrite He. cbn [rbind]. destruct hunks; [done|]. apply rmap_map. eapply Forall_impl; [exact Hin|].
    intros r [Hr _]. apply mint_ok; [done|done|lia|]. pose proof (estimateTokens_pos (slice_body r.1 r.2 lines)). lia. 
  - by apply sorted_map.
  - apply Forall_map. eapply Forall_impl; [exact Hin|]. intros r [Hr Hr']. simpl. split_and!; done || lia.
  - intros i Hi. rewrite Exists_map. unfold covered, covers in Hc. rewrite (Hc i), Exists_map.
    apply Exists_proper; [|done]. intros h. simpl. lia.
Qed.

(** A range that starts further behind the end of the file than the window is
    not clamped to it: the contract rejects the chunk and the file has none. *)
Lemma hunk_past_end_throws zod_uuid w path body s e :
  count_lines body <= MAX_DIFF_LINES -> 0 <= w ->
  let total := Z.of_nat (length (splitlinesKeepends (decode body))) in
  0 < total -> s <= e -> total < s - w ->
  hunk_chunk zod_uuid w path body [(s, e)] = Throw ZodError.
Proof.
  intros Hsize Hw total Ht Hse Hpast. unfold hunk_chunk. rewrite (assertDiffSize_ok _ Hsize).
  cbn [rbind]. fold total. destruct (Z.eqb_spec total 0); [lia|].
  unfold rmap, expand. simpl. destruct (Z.ltb_spec e s); [lia|]. simpl.
  by rewrite mint_past_end by lia.
Qed.

(** * The syntax chunkers *)

Lemma fallback_range_valid total hs : 1 <= total -> 1 <= (fallback_range total hs).1 <= (fallback_range total hs).2.
Proof.
  intros Ht. destruct hs as [|h hs]; simpl; [lia|].
  match goal with |- context [if ?a <? ?b then _ else _] => destruct (Z.ltb_spec a b) end; lia.
Qed.

Lemma fallbackModule_ok zod_uuid path body lang hunks :
  zod_accepts_uuid5 zod_uuid -> path <> [] -> body <> [] ->
  exists c, fallbackModule zod_uuid path body lang hunks = Ok [c].
Proof.
  intros Hz Hp Hb. destruct body as [|b0 body]; [done|]. unfold fallbackModule.
  set (lines := splitlinesKeepends (b0 :: body)).
  assert (1 <= Z.of_nat (length lines)).
  { destruct lines eqn:Hl; [|simpl; lia]. by apply splitlines_nil in Hl. }
  pose proof (fallback_range_valid (Z.of_nat (length lines)) hunks ltac:(done)) as Hv.
  destruct (fallback_range _ _) as [s e]. simpl in Hv.
  pose proof (estimateTokens_pos (slice_body s e lines)).
  rewrite mint_ok by (done || lia). by eexists.
Qed.

Lemma ts_chunk_ok zod_uuid parser g lang decls kind_of path body hunks :
  zod_accepts_uuid5 zod_uuid -> path <> [] -> count_lines body <= MAX_DIFF_LINES ->
  exists cs, ts_chunk zod_uuid parser g lang decls kind_of path body hunks = Ok cs /\
             (cs = [] <-> decode body = []).
Proof.
  intros Hz Hp Hsize. unfold ts_chunk. rewrite (assertDiffSize_ok _ Hsize). cbn [rbind].
  destruct (decode body) as [|b0 b] eqn:Hd; [by exists []|].
  destruct (fallbackModule_ok zod_uuid path (b0 :: b) lang hunks) as [c Hf]; [done|done|done|].
  rewrite Hf. repeat case_match; eexists; (split; [reflexivity|done]).
Qed.

(** Whatever tree-sitter does, a Python or TypeScript file of at most fifty
    thousand lines is chunked without an error, into at least one chunk unless it
    is empty. *)
Theorem treesitter_never_raises zod_uuid parser path body hunks :
  zod_accepts_uuid5 zod_uuid -> path <> [] -> selectFor path <> CFallback ->
  count_lines body <= MAX_DIFF_LINES ->
  exists cs, run_chunker zod_uuid parser path body hunks = Ok cs /\ (cs = [] <-> decode body = []).
Proof.
  intros Hz Hp Hsel Hsize. unfold run_chunker, python_chunk, tsjs_chunk.
  by destruct (selectFor path); [apply ts_chunk_ok..|].
Qed.

(** * Chunks quote their file *)

(** [c] holds the lines it names, under an identifier computed from them. *)
Definition quotes (zod_uuid : string -> bool) (path : text) (lines : list text) (c : chunk) : Prop :=
  c_path c = path /\ c_body c = slice_body (start_line c) (end_line c) lines /\
  chunk_id c = computeChunkId path (start_line c) (end_line c) (c_body c) /\ chunk_ok zod_uuid c = true.

Lemma mint_quotes zod_uuid path lang s e lines k t c :
  mint zod_uuid path lang s e (slice_body s e lines) k t = Ok c -> quotes zod_uuid path lines c.
Proof. intros [-> Hok]%mint_inv. unfold quotes. by split_and!. Qed.

Lemma rmap_forall {E A B} (g : A -> result E B) (P : B -> Prop) l ys :
  (forall x y, g x = Ok y -> P y) -> rmap g l = Ok ys -> Forall P ys.
Proof. intros Hg H%rmap_ok. eapply Forall2_Forall_r; [exact H|]. apply Forall_true. eauto. Qed.

Lemma hunk_chunk_quotes zod_uuid w path body hunks cs :
  hunk_chunk zod_uuid w path body hunks = Ok cs ->
  Forall (quotes zod_uuid path (splitlinesKeepends (decode body))) cs.
Proof.
  unfold hunk_chunk. intros H. apply rbind_ok in H as ([] & _ & H).
  destruct hunks as [|h hunks]; [by injection H as <-; constructor|].
  case_match; [by injection H as <-; constructor|]. apply rbind_ok in H as (rs & _ & H).
  eapply rmap_forall; [|exact H]. intros r c Hc. eapply mint_quotes, Hc.
Qed.

Lemma candidate_quotes zod_uuid path lang lines nk c :
  candidate zod_uuid path lang lines nk = Ok c -> quotes zod_uuid path lines c.
Proof. destruct nk as [[ty sr er ec ch] k]. unfold candidate. apply mint_quotes. Qed.

Lemma fallbackModule_quotes zod_uuid path body lang hunks cs :
  fallbackModule zod_uuid path body lang hunks = Ok cs ->
  Forall (quotes zod_uuid path (splitlinesKeepends body)) cs.
Proof.
  unfold fallbackModule. destruct body as [|b0 b]; [by intros [= <-]; constructor|].
  destruct (fallback_range _ _) as [s e]. intros (c & Hc & [= <-])%rbind_ok.
  repeat constructor. all: eapply mint_quotes, Hc.
Qed.

Lemma ts_chunk_quotes zod_uuid parser g lang decls kind_of path body hunks cs :
  ts_chunk zod_uuid parser g lang decls kind_of path body hunks = Ok cs ->
  Forall (quotes zod_uuid path (splitlinesKeepends (decode body))) cs.
Proof.
  unfold ts_chunk. intros ([] & _ & H)%rbind_ok.
  destruct (decode body) as [|b0 b] eqn:Hd; [by injection H as <-; constructor|].
  destruct (parser g (b0 :: b)) as [| |root]; try by apply fallbackModule_quotes in H.
  destruct (extractCandidates _ _ _ _ _ _) as [cands|] eqn:Hc; [|by apply fallbackModule_quotes in H].
  assert (Hq : Forall (quotes zod_uuid path (splitlinesKeepends (b0 :: b))) cands).
  { eapply rmap_forall; [|exact Hc]. intros nk c. apply candidate_quotes. }
  destruct cands as [|c0 cands]; [by apply fallbackModule_quotes in H|].
  destruct hunks as [|h hunks]; [by injection H as <-|].
  destruct (List.filter _ _) as [|c1 cs1] eqn:Hf; [by apply fallbackModule_quotes in H|].
  injection H as <-. rewrite <- Hf, Forall_forall. rewrite Forall_forall in Hq.
  intros c Hin. apply Hq. rewrite list_elem_of_In in *. by apply filter_In in Hin as [? _].
Qed.

Lemma run_chunker_quotes zod_uuid parser path body hunks cs :
  run_chunker zod_uuid parser path body hunks = Ok cs ->
  Forall (quotes zod_uuid path (splitlinesKeepends (decode body))) cs.
Proof.
  unfold run_chunker. destruct (selectFor path);
    [apply ts_chunk_quotes|apply ts_chunk_quotes|apply hunk_chunk_quotes].
Qed.

Module Ex.
Definition zod (s : string) : bool := (String.length s =? 36)%nat.

Lemma zod_ok : zod_accepts_uuid5 zod.
Proof.
  intros s (a & b & c & d & e & -> & Ha & Hb & Hc & Hd & He & _). unfold zod.
  rewrite !JsString.length_append. simpl. by rewrite Ha, Hb, Hc, Hd, He.
Qed.

Definition bytes (s : string) : list Z := string_bytes s.
Definition nl : string := String (ascii_of_nat 10) "".
Definition ff : string := String (ascii_of_nat 12) "".
Definition no_tree (_ : grammar) (_ : text) : parsed := NoTree.
Definition spans (r : result chunk_error (list chunk)) : option (list (Z * Z * text)) :=
  match r with Ok cs => Some (map (fun c => (start_line c, end_line c, c_body c)) cs) | Throw _ => None end.

(** A form feed ends a line for the splitter and for no one else: the chunk of
    the changed second line holds a piece of the first. *)
Example form_feed_shifts_lines :
  spans (run_chunker zod no_tree (u "a.py") (bytes ("a" ++ ff ++ "b" ++ nl ++ "changed" ++ nl)) [(2, 2)])
  = Some [(2, 2, u ("b" ++ nl))].
Proof. vm_compute. reflexivity. Qed.

(** The same file through the rows of a syntax tree. *)
Definition second_line (_ : grammar) (_ : text) : parsed :=
  Tree (Node "module" 0 2 0 [Some (Node "function_definition" 1 1 7 [])]).
Example form_feed_shifts_rows :
  spans (run_chunker zod second_line (u "a.py") (bytes ("a" ++ ff ++ "b" ++ nl ++ "changed" ++ nl)) [(2, 2)])
  = Some [(2, 2, u ("b" ++ nl))].
Proof. vm_compute. reflexivity. Qed.

(** A changed line outside every declaration is dropped when another change is
    inside one. *)
Example change_outside_declarations_dropped :
  spans (run_chunker zod second_line (u "a.py")
           (bytes ("import os" ++ nl ++ "def f(): pass" ++ nl)) [(1, 1); (2, 2)])
  = Some [(2, 2, u ("def f(): pass" ++ nl))].
Proof. vm_compute. reflexivity. Qed.
End Ex.

Lemma treesitter_never_raises_witness :
  exists cs, run_chunker Ex.zod Ex.no_tree (u "a.py") (Ex.bytes "x") [] = Ok cs /\
             (cs = [] <-> decode (Ex.bytes "x") = []).
Proof. apply treesitter_never_raises; [apply Ex.zod_ok|done|done|done]. Defined.

Lemma hunk_windows_witness :
  exists cs, hunk_chunk Ex.zod 20 (u "a.go") (Ex.bytes "x") [(1, 1)] = Ok cs /\
    StronglySorted (fun a b => end_line a + 1 < start_line b) cs /\
    Forall (fun c => 1 <= start_line c <= end_line c /\ end_line c <= 1 /\ c_path c = u "a.go" /\
                     kind c = CKhunk /\ c_body c = slice_body (start_line c) (end_line c) [u "x"]) cs /\
    (forall i, 1 <= i <= 1 ->
       Exists (fun c => start_line c <= i <= end_line c) cs <->
       Exists (fun h => h.1 - 20 <= i <= h.2 + 20) [(1, 1)]).
Proof.
  apply (hunk_windows Ex.zod 20 (u "a.go") (Ex.bytes "x") [(1, 1)]);
    [apply Ex.zod_ok|done|done|done|repeat constructor; simpl; lia].
Defined.
