(* ===== verification/ChunkPasses.v ===== *)
(** The two post-passes over a chunker's output: [chunking/token_budget.ts], which
    halves a chunk until it fits, and [chunking/batcher.ts], which folds small
    neighbours into one. *)
From stdpp Require Import base list strings sets pretty.
From Stdlib Require Import ZArith NArith Lia Ascii.
From S2P Require Import Prelude Text Uuid5 ChunkText Chunking.
Open Scope Z_scope.

(** * token_budget.ts *)

Definition MAX_CHUNK_TOKENS : Z := 6000.

Section Passes.
Variable zod_uuid : string -> bool.

Definition span (c : chunk) : Z := end_line c - start_line c + 1.

(** [None] is the same object twice, which the caller recognises. *)
Definition splitOnce (c : chunk) : result chunk_error (option (chunk * chunk)) :=
  let lines := splitlinesKeepends (c_body c) in
  let nLines := span c in
  if (nLines <? 2) || (length lines <? 2)%nat then Ok None
  else
    let mid := nLines / 2 in
    let leftEnd := start_line c + mid - 1 in
    let rightStart := leftEnd + 1 in
    let leftBody := mjoin (take (Z.to_nat mid) lines) in
    let rightBody := mjoin (drop (Z.to_nat mid) lines) in
    let? lhalf := mint zod_uuid (c_path c) (language c) (start_line c) leftEnd leftBody (kind c)
                      (estimateTokens_budget leftBody) in
    let? rhalf := mint zod_uuid (c_path c) (language c) rightStart (end_line c) rightBody (kind c)
                       (estimateTokens_budget rightBody) in
    Ok (Some (lhalf, rhalf)).

(** The worklist; [None] is fuel that ran out. *)
Fixpoint enforce_loop (fuel : nat) (maxTokens : Z) (pending out : list chunk)
    : option (result chunk_error (list chunk)) :=
  match fuel with
  | O => None
  | S fuel' =>
      match pending with
      | [] => Some (Ok out)
      | head :: rest =>
          if token_estimate head <=? maxTokens then enforce_loop fuel' maxTokens rest (out ++ [head])
          else
            match splitOnce head with
            | Throw e => Some (Throw e)
            | Ok None => enforce_loop fuel' maxTokens rest (out ++ [head])
            | Ok (Some (lhalf, rhalf)) => enforce_loop fuel' maxTokens (lhalf :: rhalf :: rest) out
            end
      end
  end.

Definition enforceTokenBudget (fuel : nat) (maxTokens : Z) (chunks : list chunk)
    : option (result chunk_error (list chunk)) :=
  if maxTokens <=? 0 then Some (Throw RangeError) else enforce_loop fuel maxTokens chunks [].

(** * batcher.ts *)

Definition BATCH_TOKEN_BUDGET : Z := 2000.

Definition separator (c : chunk) : text :=
  u "--- " ++ c_path c ++ u ":" ++ u (pretty (start_line c)) ++ u "-" ++ u (pretty (end_line c)) ++ u " ---"
  ++ [10%N].

Definition countNewlines (s : text) : Z := Z.of_nat (length (List.filter (N.eqb 10) s)).

Definition ends_with_newline (s : text) : bool :=
  match List.last s 0%N with 10%N => true | _ => false end.

Definition batch_part (c : chunk) : text :=
  separator c ++ c_body c ++ (if ends_with_newline (c_body c) then [] else [10%N]).
Definition batch_body (group : list chunk) : text := mjoin (map batch_part group).

(** The language that all chunks with one share. *)
Definition batch_language (group : list chunk) : option text :=
  match remove_dups (List.filter (fun l => negb (bool_decide (l = []))) (omap language group)) with
  | [l] => Some l
  | _ => None
  end.

Definition tokens (group : list chunk) : Z := foldr (fun c n => token_estimate c + n) 0 group.

Definition makeBatch (group : list chunk) : result chunk_error chunk :=
  let body := batch_body group in
  let nLines := if countNewlines body =? 0 then 1 else countNewlines body in
  let dir := match group with c :: _ => posixDirname (c_path c) | [] => [] end in
  let dirname := match dir with [] => u "." | _ => dir end in
  let batchPath := dirname ++ u "/[" ++ u (pretty (Z.of_nat (length group))) ++ u " files]" in
  mint zod_uuid batchPath (batch_language group) 1 nLines body CKbatch (tokens group).

Record batching := Batching {
  b_out : list chunk; currentGroup : list chunk; currentTokens : Z; currentDir : option text;
}.

Definition flush (st : batching) : result chunk_error batching :=
  match currentGroup st with
  | [] => Ok st
  | [c] => Ok (Batching (b_out st ++ [c]) [] 0 None)
  | group => let? b := makeBatch group in Ok (Batching (b_out st ++ [b]) [] 0 None)
  end.

Definition batch_step (budgetTokens : Z) (st : batching) (c : chunk) : result chunk_error batching :=
  if bool_decide (kind c = CKbatch) then
    let? st' := flush st in
    Ok (Batching (b_out st' ++ [c]) (currentGroup st') (currentTokens st') (currentDir st'))
  else
    let cDir := posixDirname (c_path c) in
    if bool_decide (currentDir st = Some cDir) && (currentTokens st + token_estimate c <=? budgetTokens)
    then Ok (Batching (b_out st) (currentGroup st ++ [c]) (currentTokens st + token_estimate c) (currentDir st))
    else
      let? st' := flush st in Ok (Batching (b_out st') [c] (token_estimate c) (Some cDir)).

Fixpoint batch_loop (budgetTokens : Z) (st : batching) (chunks : list chunk) : result chunk_error batching :=
  match chunks with
  | [] => flush st
  | c :: chunks' => let? st' := batch_step budgetTokens st c in batch_loop budgetTokens st' chunks'
  end.

Definition batchAdjacent (budgetTokens : Z) (chunks : list chunk) : result chunk_error (list chunk) :=
  if budgetTokens <=? 0 then Throw RangeError
  else if (length chunks <? 2)%nat then Ok chunks
  else let? st := batch_loop budgetTokens (Batching [] [] 0 None) chunks in Ok (b_out st).

(** * Halving *)

Hypothesis zod_ok : zod_accepts_uuid5 zod_uuid.

Definition ok (c : chunk) : Prop := chunk_ok zod_uuid c = true.

(** A chunk that [splitOnce] leaves alone. *)
Definition unsplittable (c : chunk) : Prop :=
  span c < 2 \/ (length (splitlinesKeepends (c_body c)) < 2)%nat.

(** [g] covers the lines [s] to [e] without gap or overlap. *)
Fixpoint tiles (s e : Z) (g : list chunk) : Prop :=
  match g with
  | [] => s = e + 1
  | c :: g' => start_line c = s /\ s <= end_line c /\ tiles (end_line c + 1) e g'
  end.

Lemma tiles_app s m e g1 g2 : tiles s m g1 -> tiles (m + 1) e g2 -> tiles s e (g1 ++ g2).
Proof.
  revert s. induction g1 as [|c g1 IH]; intros s; simpl; [by intros -> |].
  intros (H1 & H2 & H3) H. split_and!; [done|done|]. by apply IH.
Qed.

(** What becomes of one chunk. *)
Record pieces (maxTokens : Z) (c : chunk) (g : list chunk) : Prop := Pieces {
  pc_body : mjoin (map c_body g) = c_body c;
  pc_lines : tiles (start_line c) (end_line c) g;
  pc_same : Forall (fun p => c_path p = c_path c /\ language p = language c /\ kind p = kind c /\ ok p) g;
  pc_fit : Forall (fun p => token_estimate p <= maxTokens \/ unsplittable p) g;
  pc_kept : token_estimate c <= maxTokens -> g = [c];
}.

Lemma estimateTokens_budget_pos b : 1 <= estimateTokens_budget b.
Proof. unfold estimateTokens_budget. destruct b; lia. Qed.

Lemma mint_total path lang s e b k t :
  path <> [] -> 1 <= s <= e -> 0 <= t ->
  let c := Chunk (computeChunkId path s e b) path lang s e b k t in
  mint zod_uuid path lang s e b k t = Ok c /\ ok c.
Proof.
  intros Hp Hse Ht c. assert (H : mint zod_uuid path lang s e b k t = Ok c) by (by apply mint_ok).
  split; [exact H|]. by apply mint_inv in H as [_ ?].
Qed.

Lemma splitOnce_cases c :
  ok c ->
  (splitOnce c = Ok None /\ unsplittable c) \/
  exists l r, splitOnce c = Ok (Some (l, r)) /\ ok l /\ ok r /\ c_body l ++ c_body r = c_body c /\
    start_line l = start_line c /\ end_line l + 1 = start_line r /\ end_line r = end_line c /\
    Forall (fun p => c_path p = c_path c /\ language p = language c /\ kind p = kind c) [l; r].
Proof.
  intros Hok. pose proof Hok as (_ & Hp & Hse & _)%chunk_ok_spec.
  unfold splitOnce. destruct (_ || _) eqn:Hb.
  { left. split; [done|]. unfold unsplittable. rewrite orb_true_iff, Z.ltb_lt, Nat.ltb_lt in Hb. done. }
  right. apply orb_false_iff in Hb as [Hn%Z.ltb_ge _]. unfold span in *.
  set (lines := splitlinesKeepends (c_body c)). set (mid := (end_line c - start_line c + 1) / 2).
  assert (Hmid : 1 <= mid <= end_line c - start_line c).
  { unfold mid. split; [apply Z.div_le_lower_bound; lia|].
    apply Z.lt_succ_r, Z.div_lt_upper_bound; lia. }
  pose proof (estimateTokens_budget_pos (mjoin (take (Z.to_nat mid) lines))).
  pose proof (estimateTokens_budget_pos (mjoin (drop (Z.to_nat mid) lines))).
  destruct (mint_total (c_path c) (language c) (start_line c) (start_line c + mid - 1)
    (mjoin (take (Z.to_nat mid) lines)) (kind c)
    (estimateTokens_budget (mjoin (take (Z.to_nat mid) lines)))) as [Hl Hlok]; [done|lia|lia|].
  destruct (mint_total (c_path c) (language c) (start_line c + mid - 1 + 1) (end_line c)
    (mjoin (drop (Z.to_nat mid) lines)) (kind c)
    (estimateTokens_budget (mjoin (drop (Z.to_nat mid) lines)))) as [Hr Hrok]; [done|lia|lia|].
  rewrite Hl. cbn [rbind]. rewrite Hr. cbn [rbind].
  do 2 eexists. split; [reflexivity|]. split; [exact Hlok|]. split; [exact Hrok|].
  cbn [c_body start_line end_line c_path language kind]. split_and!; try done.
  - rewrite <- mjoin_app, take_drop. apply splitlines_join.
  - by repeat constructor.
Qed.

(** Twice the lines of a chunk are more than its halvings can take. *)
Definition work (pending : list chunk) : Z := foldr (fun c n => 2 * span c - 1 + n) 0 pending.

Lemma work_cons c l : work (c :: l) = 2 * span c - 1 + work l.
Proof. reflexivity. Qed.

Lemma span_pos c : ok c -> 1 <= span c.
Proof. intros (_ & _ & H & _)%chunk_ok_spec. unfold span. lia. Qed.

Lemma work_nonneg l : Forall ok l -> 0 <= work l.
Proof. induction 1 as [|c l Hc _ IH]; [done|]. rewrite work_cons. pose proof (span_pos _ Hc). lia. Qed.

Lemma pieces_one m c : ok c -> token_estimate c <= m \/ unsplittable c -> pieces m c [c].
Proof.
  intros Hok Hfit. pose proof Hok as (_ & _ & Hse & _)%chunk_ok_spec.
  split; [apply app_nil_r|simpl; lia| | |done]; (constructor; [by repeat split|constructor]) || (constructor; [exact Hfit|constructor]).
Qed.

Lemma pieces_join m c l r gl gr :
  m < token_estimate c -> c_body l ++ c_body r = c_body c ->
  start_line l = start_line c -> end_line l + 1 = start_line r -> end_line r = end_line c ->
  Forall (fun p => c_path p = c_path c /\ language p = language c /\ kind p = kind c) [l; r] ->
  pieces m l gl -> pieces m r gr -> pieces m c (gl ++ gr).
Proof.
  intros Hm Hb Hs Hmid He Hsame [B1 L1 S1 F1 _] [B2 L2 S2 F2 _].
  apply Forall_cons in Hsame as [(P1 & G1 & K1) Hsame]. apply Forall_cons in Hsame as [(P2 & G2 & K2) _].
  rewrite P1, G1, K1 in S1. rewrite P2, G2, K2 in S2. rewrite Hs in L1. rewrite <- Hmid, He in L2.
  split.
  - by rewrite map_app, mjoin_app, B1, B2.
  - by eapply tiles_app.
  - by apply Forall_app.
  - by apply Forall_app.
  - lia.
Qed.

Lemma enforce_loop_ok m fuel pending :
  Forall ok pending -> work pending < Z.of_nat fuel ->
  exists groups, Forall2 (pieces m) pending groups /\
    forall out, enforce_loop fuel m pending out = Some (Ok (out ++ mjoin groups)).
Proof.
  revert pending. induction fuel as [|fuel IH]; intros pending Hok Hw.
  { pose proof (work_nonneg _ Hok). lia. }
  destruct pending as [|c rest]; [exists []; split; [constructor|]; intros out; simpl; by rewrite app_nil_r|].
  apply Forall_cons in Hok as [Hc Hrest]. rewrite work_cons in Hw. pose proof (span_pos _ Hc).
  assert (Hemit : token_estimate c <= m \/ unsplittable c ->
    exists groups, Forall2 (pieces m) (c :: rest) groups /\
      forall out, enforce_loop fuel m rest (out ++ [c]) = Some (Ok (out ++ mjoin groups))).
  { intros Hfit. destruct (IH rest) as (gs & Hgs & Hl); [done|lia|]. exists ([c] :: gs).
    split; [constructor; [by apply pieces_one|done]|]. intros out. rewrite Hl, mjoin_cons. by rewrite app_assoc. }
  cbn [enforce_loop]. destruct (Z.leb_spec (token_estimate c) m) as [Hle|Hgt]; [by apply Hemit; left|].
  destruct (splitOnce_cases c Hc) as [[-> Hu]|(l & r & -> & Hl & Hr & Hb & Hs & Hm & He & Hsame)];
    [by apply Hemit; right|].
  destruct (IH (l :: r :: rest)) as (gs & Hgs & Hloop).
  { by repeat constructor. }
  { rewrite !work_cons. unfold span in *. lia. }
  inversion Hgs as [|? gl ? gs1 Hpl Hgs1]; subst. inversion Hgs1 as [|? gr ? gs2 Hpr Hgs2]; subst.
  exists ((gl ++ gr) :: gs2). split; [constructor; [by eapply pieces_join|done]|].
  intros out. rewrite Hloop, !mjoin_cons. by rewrite <- app_assoc.
Qed.

(** Twice the number of lines is enough fuel: the worklist of the token budget
    ends, never with an error, and each chunk becomes, in place, pieces that cover
    its lines and its body without gap or overlap, each within the budget or
    impossible to split; a chunk within the budget stays as it is. *)
Theorem enforceTokenBudget_pieces fuel maxTokens cs :
  0 < maxTokens -> Forall ok cs -> work cs < Z.of_nat fuel ->
  exists groups, Forall2 (pieces maxTokens) cs groups /\
    enforceTokenBudget fuel maxTokens cs = Some (Ok (mjoin groups)).
Proof.
  intros Hm Hok Hw. unfold enforceTokenBudget. destruct (Z.leb_spec maxTokens 0); [lia|].
  destruct (enforce_loop_ok maxTokens fuel cs Hok Hw) as (gs & Hgs & Hl). exists gs. by rewrite Hl.
Qed.

(** * Batching *)

Lemma tokens_app g h : tokens (g ++ h) = tokens g + tokens h.
Proof. induction g as [|c g IH]; simpl; lia. Qed.

Lemma tokens_nonneg g : Forall ok g -> 0 <= tokens g.
Proof. induction 1 as [|c g (_ & _ & _ & Ht)%chunk_ok_spec _ IH]; simpl; lia. Qed.

(** The chunk a group of two or more is folded into. *)
Definition batch_of (g : list chunk) (o : chunk) : Prop :=
  c_body o = batch_body g /\ kind o = CKbatch /\ token_estimate o = tokens g /\
  language o = batch_language g /\ start_line o = 1 /\ end_line o = Z.max 1 (countNewlines (batch_body g)) /\ ok o.

Lemma makeBatch_ok c g : Forall ok (c :: g) -> exists o, makeBatch (c :: g) = Ok o /\ batch_of (c :: g) o.
Proof.
  intros Hok. unfold makeBatch.
  set (n := if countNewlines _ =? 0 then 1 else countNewlines _).
  assert (Hn : n = Z.max 1 (countNewlines (batch_body (c :: g)))).
  { unfold n, countNewlines. destruct (Z.eqb_spec (Z.of_nat (length (List.filter (N.eqb 10) (batch_body (c :: g))))) 0); lia. }
  pose proof (tokens_nonneg _ Hok).
  match goal with |- context [mint _ ?p _ _ _ _ _ _] =>
    destruct (mint_total p (batch_language (c :: g)) 1 n (batch_body (c :: g)) CKbatch (tokens (c :: g)))
      as [Hm Ho] end.
  { by destruct (posixDirname (c_path c)). }
  { lia. }
  { done. }
  eexists. split; [exact Hm|]. unfold batch_of. rewrite <- Hn. by split_and!.
Qed.

(** What a group is and what it becomes. *)
Inductive batched (budget : Z) : list chunk -> chunk -> Prop :=
| batched_alone c : batched budget [c] c
| batched_fold g dir o :
    (2 <= length g)%nat -> Forall (fun c => kind c <> CKbatch /\ posixDirname (c_path c) = dir) g ->
    tokens g <= budget -> batch_of g o -> batched budget g o.

(** Why the chunk [c] is not in the group before it. *)
Definition parted (budget : Z) (g : list chunk) (c : chunk) : Prop :=
  kind c = CKbatch \/
  Exists (fun b => kind b = CKbatch \/ posixDirname (c_path b) <> posixDirname (c_path c)) g \/
  budget < tokens g + token_estimate c.

Fixpoint greedy (budget : Z) (groups : list (list chunk)) : Prop :=
  match groups with
  | g :: (((c :: _) :: _) as rest) => parted budget g c /\ greedy budget rest
  | _ => True
  end.

Lemma greedy_snoc budget l c :
  greedy budget l -> (forall g, list.last l = Some g -> parted budget g c) -> greedy budget (l ++ [[c]]).
Proof.
  induction l as [|g l IH]; intros Hg Hl; [done|].
  destruct l as [|h l]; [split; [by apply Hl|done]|].
  destruct h as [|x h]; [done|]. destruct Hg as [H1 H2]. split; [done|]. by apply IH.
Qed.

(** A longer last group is parted as before. *)
Lemma greedy_grow budget l x g y : greedy budget (l ++ [x :: g]) -> greedy budget (l ++ [x :: g ++ [y]]).
Proof.
  induction l as [|h l IH]; [done|].
  destruct l as [|[|z k] l]; [done|done|]. intros [H1 H2]. split; [done|]. by apply IH.
Qed.

(** The open group, if there is one. *)
Definition open (g : list chunk) : list (list chunk) := match g with [] => [] | _ => [g] end.

Definition in_dir (d : text) (c : chunk) : Prop := kind c <> CKbatch /\ posixDirname (c_path c) = d.

(** After the chunks [seen]: the closed groups [gs] and the open one. *)
Record batching_ok (budget : Z) (seen : list chunk) (gs : list (list chunk)) (st : batching) : Prop := BatchingOk {
  bo_seen : mjoin gs ++ currentGroup st = seen;
  bo_out : Forall2 (batched budget) gs (b_out st);
  bo_greedy : greedy budget (gs ++ open (currentGroup st));
  bo_tokens : currentTokens st = tokens (currentGroup st);
  bo_dir : match currentGroup st with
           | [] => currentDir st = None
           | g => exists d, currentDir st = Some d /\ Forall (in_dir d) g /\
                            ((2 <= length g)%nat -> tokens g <= budget)
           end;
  bo_fresh : currentGroup st = [] -> forall g, list.last gs = Some g -> Exists (fun b => kind b = CKbatch) g;
}.

Lemma mjoin_open gs g : mjoin (gs ++ open g) = mjoin gs ++ g.
Proof. rewrite mjoin_app. f_equal. destruct g; [done|]. apply app_nil_r. Qed.

Lemma flush_ok budget seen gs st :
  Forall ok seen -> batching_ok budget seen gs st ->
  exists st', flush st = Ok st' /\ Forall2 (batched budget) (gs ++ open (currentGroup st)) (b_out st') /\
    currentGroup st' = [] /\ currentTokens st' = 0 /\ currentDir st' = None.
Proof.
  intros Hok [Hs Ho _ Ht Hd _]. rewrite <- Hs, Forall_app in Hok. destruct Hok as [_ Hok].
  unfold flush. destruct (currentGroup st) as [|c g] eqn:Hg; [exists st; by rewrite app_nil_r|].
  destruct Hd as (d & _ & Hin & Hle). destruct g as [|c' g].
  - eexists. split; [reflexivity|]. split; [|done]. apply Forall2_app; [done|]. repeat constructor.
  - destruct (makeBatch_ok c (c' :: g)) as (o & -> & Hb); [done|]. eexists. split; [reflexivity|].
    split; [|done]. apply Forall2_app; [done|]. constructor; [|constructor].
    apply batched_fold with d; [simpl; lia|done|apply Hle; simpl; lia|done].
Qed.

Lemma batch_step_ok budget seen gs st c :
  Forall ok seen -> ok c -> batching_ok budget seen gs st ->
  exists gs' st', batch_step budget st c = Ok st' /\ batching_ok budget (seen ++ [c]) gs' st'.
Proof.
  intros Hok Hc Hi. destruct (flush_ok _ _ _ _ Hok Hi) as (st' & Hf & Hout & Hg' & Ht' & Hd').
  destruct Hi as [Hs Ho Hgr Ht Hd Hfr]. unfold batch_step. case_bool_decide as Hk.
  { exists ((gs ++ open (currentGroup st)) ++ [[c]]). eexists. rewrite Hf. split; [reflexivity|].
    split; cbn [b_out currentGroup currentTokens currentDir]; rewrite ?Hg', ?Ht', ?Hd'; try done.
    - by rewrite app_nil_r, mjoin_app, mjoin_open, Hs.
    - apply Forall2_app; [done|]. repeat constructor.
    - rewrite app_nil_r. apply greedy_snoc; [done|]. by left.
    - intros _ g. rewrite last_snoc. intros [= <-]. by left. }
  destruct (_ && _) eqn:Hb.
  - bool_to_prop. exists gs. eexists. split; [reflexivity|].
    destruct (currentGroup st) as [|x g] eqn:Hg; [congruence|]. destruct Hd as (d & Hcd & Hin & Hle).
    split; cbn [b_out currentGroup currentTokens currentDir app]; try done.
    + rewrite app_comm_cons, app_assoc. by rewrite Hs.
    + by apply greedy_grow.
    + change (x :: g ++ [c]) with ((x :: g) ++ [c]). rewrite tokens_app, Ht. simpl. lia.
    + change (x :: g ++ [c]) with ((x :: g) ++ [c]). exists d. split_and!; [done| |].
      * apply Forall_app. split; [done|]. constructor; [|constructor]. split; [done|congruence].
      * intros _. rewrite tokens_app, <- Ht. simpl. lia.
  - exists (gs ++ open (currentGroup st)). eexists. rewrite Hf. split; [reflexivity|].
    split; cbn [b_out currentGroup currentTokens currentDir]; try done.
    + by rewrite mjoin_open, Hs.
    + apply greedy_snoc; [done|]. intros g Hl. unfold parted. right.
      destruct (currentGroup st) as [|x g0] eqn:Hg.
      * cbn [open] in Hl. rewrite app_nil_r in Hl. left. eapply Exists_impl; [by apply Hfr|]. by left.
      * cbn [open] in Hl. rewrite last_snoc in Hl. injection Hl as <-. destruct Hd as (d & Hcd & Hin & _).
        apply andb_false_iff in Hb as [Hb|Hb]; bool_to_prop; [|right; lia].
        left. left. right. apply Forall_cons in Hin as [[_ ->] _]. congruence.
    + simpl. lia.
    + exists (posixDirname (c_path c)). split_and!; [done|by repeat constructor|simpl; lia].
Qed.

Lemma batch_loop_ok budget chunks seen gs st :
  Forall ok (seen ++ chunks) -> batching_ok budget seen gs st ->
  exists gs' st', batch_loop budget st chunks = Ok st' /\ mjoin gs' = seen ++ chunks /\
    Forall2 (batched budget) gs' (b_out st') /\ greedy budget gs'.
Proof.
  revert seen gs st. induction chunks as [|c chunks IH]; intros seen gs st Hok Hi; simpl.
  { rewrite app_nil_r in *. destruct (flush_ok _ _ _ _ Hok Hi) as (st' & Hf & Hout & _).
    destruct Hi as [Hs _ Hgr _ _ _]. exists (gs ++ open (currentGroup st)), st'.
    split_and!; [done|by rewrite mjoin_open|done|done]. }
  apply Forall_app in Hok as Hok'. destruct Hok' as [Hseen [Hc _]%Forall_cons].
  destruct (batch_step_ok _ _ _ _ c Hseen Hc Hi) as (gs' & st' & -> & Hi'). cbn [rbind].
  change (c :: chunks) with ([c] ++ chunks) in *. rewrite app_assoc in Hok |- *. by eapply IH.
Qed.

(** Batching never fails on valid chunks; it cuts the input, in order, into
    groups, passes a group of one through, folds a larger one (of one directory,
    within the budget, of no batches) into one chunk with its bodies, and starts a
    group only where it must. *)
Theorem batchAdjacent_groups budget chunks :
  0 < budget -> Forall ok chunks ->
  exists groups out, batchAdjacent budget chunks = Ok out /\ mjoin groups = chunks /\
    Forall2 (batched budget) groups out /\ ((2 <= length chunks)%nat -> greedy budget groups).
Proof.
  intros Hb Hok. unfold batchAdjacent. destruct (Z.leb_spec budget 0); [lia|].
  destruct (Nat.ltb_spec (length chunks) 2).
  { exists (map (fun c => [c]) chunks), chunks. split_and!; [done| | |lia].
    - clear. induction chunks as [|c l IH]; [done|]. simpl. by rewrite IH.
    - clear. induction chunks; constructor; [constructor|done]. }
  destruct (batch_loop_ok budget chunks [] [] (Batching [] [] 0 None)) as (gs & st & -> & Hj & Ho & Hg).
  { done. }
  { split; simpl; done || constructor. }
  exists gs, (b_out st). split_and!; done.
Qed.
End Passes.

Module Ex.
Import Chunking.Ex.

Definition a_chunk (path : string) (s e : Z) (body : string) (t : Z) : chunk :=
  Chunk (computeChunkId (u path) s e (u body)) (u path) None s e (u body) CKhunk t.

Definition long : chunk := a_chunk "d/a.go" 5 7 ("one" ++ nl ++ "two" ++ nl ++ "three" ++ nl) 9.
Definition short : chunk := a_chunk "d/b.go" 1 1 ("x" ++ nl) 1.
Definition far : chunk := a_chunk "e/c.go" 1 1 "y" 1.

Lemma all_ok : Forall (ok zod) [long; short; far].
Proof. repeat constructor; vm_compute; reflexivity. Qed.

Example halved :
  spans (default (Throw ZodError) (enforceTokenBudget zod 20 1 [long; short])) =
  Some [(5, 5, u ("one" ++ nl)); (6, 6, u ("two" ++ nl)); (7, 7, u ("three" ++ nl)); (1, 1, u ("x" ++ nl))].
Proof. vm_compute. reflexivity. Qed.

Example folded :
  spans (batchAdjacent zod 10 [long; short; far]) =
  Some [(1, 6, u ("--- d/a.go:5-7 ---" ++ nl ++ "one" ++ nl ++ "two" ++ nl ++ "three" ++ nl
                  ++ "--- d/b.go:1-1 ---" ++ nl ++ "x" ++ nl)); (1, 1, u "y")].
Proof. vm_compute. reflexivity. Qed.
End Ex.

Lemma enforceTokenBudget_pieces_witness :
  exists groups, Forall2 (pieces Chunking.Ex.zod 1) [Ex.long; Ex.short; Ex.far] groups /\
    enforceTokenBudget Chunking.Ex.zod 20 1 [Ex.long; Ex.short; Ex.far] = Some (Ok (mjoin groups)).
Proof.
  apply (enforceTokenBudget_pieces Chunking.Ex.zod Chunking.Ex.zod_ok 20 1); [done|apply Ex.all_ok|done].
Defined.

Lemma batchAdjacent_groups_witness :
  exists groups out, batchAdjacent Chunking.Ex.zod 10 [Ex.long; Ex.short; Ex.far] = Ok out /\
    mjoin groups = [Ex.long; Ex.short; Ex.far] /\ Forall2 (batched Chunking.Ex.zod 10) groups out /\
    ((2 <= 3)%nat -> greedy 10 groups).
Proof.
  apply (batchAdjacent_groups Chunking.Ex.zod Chunking.Ex.zod_ok 10 [Ex.long; Ex.short; Ex.far]);
    [done|apply Ex.all_ok].
Defined.
