(* ===== verification/LlmLedger.v ===== *)
(** [integrations/llm/invocation_ledger.ts]: the table that makes a paid model
    call idempotent.  A key computed from what the call depends on leads to the
    provider's response, stored once.  Strings are the bytes of their UTF-8. *)
From stdpp Require Import base gmap list strings sets.
From Stdlib Require Import ZArith NArith Lia Ascii.
From S2P Require Import Prelude Json Text Uuid5 ChunkText.
Local Open Scope Z_scope.

(** [LlmInvocationKeyInputs]. *)
Record key_inputs := KeyInputs {
  ki_reviewId : string; ki_chunkId : string; ki_role : string; ki_model : string;
  ki_promptSha256 : string; ki_toolSchemaVersion : string;
}.

Definition KEY_FIELD_SEP : ascii := ascii_of_nat 0.

Definition key_parts (i : key_inputs) : list string :=
  [ki_reviewId i; ki_chunkId i; ki_role i; ki_model i; ki_promptSha256 i; ki_toolSchemaVersion i].

Definition preimage (i : key_inputs) : string := JsString.join (String KEY_FIELD_SEP "") (key_parts i).

Definition sha256_hex (s : string) : string := to_hex (sha256 (string_bytes s)).

Definition computeKey (i : key_inputs) : string := sha256_hex (preimage i).

(** [LlmMessage]. *)
Record message := Message { m_role : string; m_content : string }.

Definition json_message (m : message) : json :=
  JObj [("role", JStr (m_role m)); ("content", JStr (m_content m))]%string.

Definition hashMessagesForLedger (messages : list message) : string :=
  sha256_hex (stringify (JArr (map json_message messages))).

Inductive LedgerPurpose := walkthrough | curator | rerank | fix_prompt.
Definition purpose_name (p : LedgerPurpose) : string :=
  match p with
  | walkthrough => "walkthrough" | curator => "curator" | rerank => "rerank" | fix_prompt => "fix_prompt"
  end.

Definition LEDGER_PURPOSE_NS : string := "b7e3a1c4-2f6d-4a8b-9c0e-5d1f7a2b6c8e".
Definition purposeChunkId (p : LedgerPurpose) : string := uuid5 LEDGER_PURPOSE_NS (purpose_name p).

(** * The table *)

(** [core.llm_invocation_ledger]; the key is the primary key. *)
Record ledger_row := LedgerRow {
  lr_installation : string;
  lr_inputs : key_inputs;
  lr_response : json;          (* jsonb *)
  lr_created_at : Z;           (* milliseconds *)
}.
Abbreviation ledger := (gmap string ledger_row).

Inductive ledger_error := InvalidText.   (* SQLSTATE 22P02: not a uuid, not a jsonb *)

Section Table.
(** What Postgres reads as a uuid, and the value it keeps of a JSON text. *)
Variable uuid_in : string -> bool.
Variable jsonb : json -> option json.

Definition is_object (v : json) : bool := match v with JObj _ => true | _ => false end.

Definition lookup_row (key installation : string) (t : ledger) : option ledger_row :=
  match t !! key with
  | Some r => if String.eqb (lr_installation r) installation then Some r else None
  | None => None
  end.

(** A row that holds no object is a miss. *)
Definition lookup_ledger (key installation : string) (t : ledger) : option json :=
  match lookup_row key installation t with
  | Some r => if is_object (lr_response r) then Some (lr_response r) else None
  | None => None
  end.

Definition store_ledger (key installation : string) (i : key_inputs) (response : json) (now : Z) (t : ledger)
    : result ledger_error ledger :=
  if uuid_in installation && uuid_in (ki_reviewId i) && uuid_in (ki_chunkId i) then
    match jsonb response with
    | Some v => Ok (match t !! key with Some _ => t | None => <[key := LedgerRow installation i v now]> t end)
    | None => Throw InvalidText
    end
  else Throw InvalidText.

Definition DAY_MS : Z := 86400000.

(** [pruneOlderThan]: the table that is left and how many rows went. *)
Definition pruneOlderThan (days now : Z) (t : ledger) : ledger * nat :=
  let kept := filter (fun kr => now - days * DAY_MS <= lr_created_at kr.2) t in
  (kept, (size t - size kept)%nat).

(** * Lemmas *)

Lemma lookup_stored key installation i response now t t' v :
  store_ledger key installation i response now t = Ok t' -> t !! key = None -> jsonb response = Some v ->
  is_object v = true -> lookup_ledger key installation t' = Some v.
Proof.
  unfold store_ledger. intros H Ht Hj Ho. destruct (_ && _); [|done]. rewrite Hj, Ht in H.
  injection H as <-. unfold lookup_ledger, lookup_row. rewrite lookup_insert_eq.
  cbn [lr_installation]. rewrite String.eqb_refl. cbn [lr_response]. by rewrite Ho.
Qed.

(** The first response stays. *)
Lemma store_keeps key installation i response now t t' k r :
  store_ledger key installation i response now t = Ok t' -> t !! k = Some r -> t' !! k = Some r.
Proof.
  unfold store_ledger. intros H Hk. destruct (_ && _); [|done]. destruct (jsonb response); [|done].
  injection H as <-. destruct (t !! key) eqn:Ht; [done|]. rewrite lookup_insert_ne; [done|congruence].
Qed.

Lemma prune_spec days now t k r :
  (pruneOlderThan days now t).1 !! k = Some r <-> t !! k = Some r /\ now - days * DAY_MS <= lr_created_at r.
Proof. simpl. rewrite map_lookup_filter_Some. done. Qed.
End Table.

(** ** The key *)

Definition no_sep (s : string) : Prop := JsString.includes_char KEY_FIELD_SEP s = false.

Lemma append_sep_inj a b x y :
  no_sep a -> no_sep b ->
  (a +:+ String KEY_FIELD_SEP x = b +:+ String KEY_FIELD_SEP y)%string -> a = b /\ x = y.
Proof.
  unfold no_sep. revert b. induction a as [|c a IH]; intros [|d b] Ha Hb H; simpl in *.
  - by injection H as ->.
  - injection H as <- _. by rewrite Ascii.eqb_refl in Hb.
  - injection H as -> _. by rewrite Ascii.eqb_refl in Ha.
  - injection H as -> H. apply orb_false_iff in Ha as [_ Ha], Hb as [_ Hb].
    by destruct (IH b Ha Hb H) as [-> ->].
Qed.

(** Different inputs have different texts under the hash: the separator occurs in
    no identifier. *)
Lemma preimage_injective i j :
  Forall no_sep (key_parts i) -> Forall no_sep (key_parts j) -> preimage i = preimage j -> i = j.
Proof.
  destruct i as [i1 i2 i3 i4 i5 i6], j as [j1 j2 j3 j4 j5 j6]. unfold preimage, key_parts. simpl.
  rewrite !Forall_cons. intros (A1 & A2 & A3 & A4 & A5 & A6 & _) (B1 & B2 & B3 & B4 & B5 & B6 & _) H.
  repeat (apply append_sep_inj in H as [-> H]; [|done|done]). by subst.
Qed.

(** The four surrogates differ. *)
Lemma purposeChunkId_injective p q : purposeChunkId p = purposeChunkId q -> p = q.
Proof.
  intros H. pose proof (proj2 (String.eqb_eq _ _) H) as Hb. clear H.
  destruct p, q; first [reflexivity | vm_compute in Hb; discriminate Hb].
Qed.
