(* ===== verification/LlmClient.v ===== *)
(** [integrations/llm/client.ts]: one call of a language model, as a program over
    the invocation ledger, the daily spend caps, the cost journal and the call
    telemetry, and the outside: the provider, the archive, the clock, the signal
    that cancels.  Prices are computed on doubles as the code computes them.
    Strings are the bytes of their UTF-8; clock readings are microseconds of a
    monotonic clock and milliseconds of the wall clock. *)
From Stdlib Require Import SpecFloat.
From stdpp Require Import base gmap list strings sets pretty.
From Stdlib Require Import ZArith NArith Lia Ascii.
From S2P Require Import Prelude Json ReviewPayload WebhookPayload Text Uuid5 ChunkText OutputSafety CostCap Programs LlmLedger.
Local Open Scope Z_scope.
Local Open Scope prog_scope.

(** * Prices *)

Definition f64_add : spec_float -> spec_float -> spec_float := SFadd 53 1024.
Definition f64_mul : spec_float -> spec_float -> spec_float := SFmul 53 1024.
Definition f64_of_Z (z : Z) : spec_float := binary_normalize 53 1024 z 0 false.
Definition f64_zero : spec_float := S754_zero false.

(** [Math.trunc]. *)
Definition f64_trunc (x : spec_float) : Z :=
  match x with
  | S754_finite s m e =>
      let n := if 0 <=? e then Z.pos m * 2 ^ e else Z.pos m / 2 ^ (- e) in if s then - n else n
  | _ => 0
  end.

(** The literals of the tables, in cents: 0.0015, 0.0003, 0.000025 and 0.0075,
    0.0015, 0.000125. *)
Definition f64 (m : positive) (e : Z) : spec_float := S754_finite false m e.
Definition USD_CENTS_PER_PROMPT_TOKEN : list (string * spec_float) :=
  [("claude-opus-4-7", f64 6917529027641082 (-62)); ("claude-sonnet-4-6", f64 5534023222112865 (-64));
   ("claude-haiku-4-5-20251001", f64 7378697629483821 (-68))]%string.
Definition USD_CENTS_PER_COMPLETION_TOKEN : list (string * spec_float) :=
  [("claude-opus-4-7", f64 8646911284551352 (-60)); ("claude-sonnet-4-6", f64 6917529027641082 (-62));
   ("claude-haiku-4-5-20251001", f64 4611686018427388 (-65))]%string.

Definition rate (table : list (string * spec_float)) (model : string) : spec_float :=
  match List.find (fun row => String.eqb row.1 model) table with Some row => row.2 | None => f64_zero end.

Definition estimateCentsPreCall (model : string) (promptChars : Z) : Z :=
  let estimatedPromptTokens := Z.max 1 (promptChars / 4) in
  let estimatedCompletionTokens := 1024 in
  let cents := f64_add (f64_mul (f64_of_Z estimatedPromptTokens) (rate USD_CENTS_PER_PROMPT_TOKEN model))
                       (f64_mul (f64_of_Z estimatedCompletionTokens) (rate USD_CENTS_PER_COMPLETION_TOKEN model)) in
  Z.max 1 (f64_trunc cents).

Definition CACHE_READ_PROMPT_COST_FACTOR : spec_float := f64 7205759403792794 (-56).    (* 0.1 *)
Definition CACHE_WRITE_PROMPT_COST_FACTOR : spec_float := f64 5629499534213120 (-52).   (* 1.25 *)

Definition finalCents (model : string) (promptTokens completionTokens readTokens creationTokens : Z) : Z :=
  let promptRate := rate USD_CENTS_PER_PROMPT_TOKEN model in
  let cents :=
    f64_add (f64_add (f64_add (f64_mul (f64_of_Z promptTokens) promptRate)
                              (f64_mul (f64_mul (f64_of_Z readTokens) promptRate) CACHE_READ_PROMPT_COST_FACTOR))
                     (f64_mul (f64_mul (f64_of_Z creationTokens) promptRate) CACHE_WRITE_PROMPT_COST_FACTOR))
            (f64_mul (f64_of_Z completionTokens) (rate USD_CENTS_PER_COMPLETION_TOKEN model)) in
  Z.max 1 (f64_trunc cents).

(** * Reading a response *)

Definition text_of (s : string) : text := utf8_go utf8_init (string_bytes s).
Definition utf16_length (s : string) : Z := Z.of_nat (length (text_of s)).

Definition isRecord (v : json) : bool := match v with JObj _ => true | _ => false end.

(** [Math.trunc(Number(s))] of a plain decimal numeral, [None] for [NaN]; numerals
    with an exponent or another radix are not modelled. *)
Definition trunc_numeral (s : string) : option Z :=
  match JsString.cut "." s with
  | Some (i, f) => if JsString.forall_chars JsString.is_digit f then
                     if String.eqb i "" then Some 0 else int_of i
                   else None
  | None => int_of s
  end.

Definition intOrZero (v : option json) : Z :=
  match v with
  | Some (JNum s) => default 0 (trunc_numeral s)
  | Some (JStr s) => if String.eqb s "" then 0 else default 0 (trunc_numeral (JsString.trim s))
  | _ => 0
  end.

(** [String(v)]. *)
Fixpoint js_string (v : json) : string :=
  match v with
  | JNull => "null"
  | JBool true => "true"
  | JBool false => "false"
  | JNum s => s
  | JStr s => s
  | JArr l => JsString.join "," (map (fun x => match x with JNull | JNonJson => "" | _ => js_string x end) l)
  | JObj _ => "[object Object]"
  | JNonJson => "undefined"
  end%string.

Definition pyStr (v : option json) : string :=
  match v with None | Some JNull => "" | Some x => js_string x end.

(** [response.content], never empty. *)
Definition content_block (response : json) : list json :=
  match prop "content" response with Some (JArr (b :: l)) => b :: l | _ => [JObj []] end.
Definition content_text (response : json) : string :=
  match content_block response with
  | first :: _ => if isRecord first then pyStr (prop "text" first) else ""
  | [] => ""
  end.
Definition raw_blocks (response : json) : list json := List.filter isRecord (content_block response).

Definition usage_of (response : json) : json :=
  match prop "usage" response with Some (JObj kvs) => JObj kvs | _ => JObj [] end.
Definition tokens_of (k : string) (response : json) : Z := intOrZero (prop k (usage_of response)).

Definition computedFinalCents (model : string) (response : json) : Z :=
  finalCents model (tokens_of "input_tokens" response) (tokens_of "output_tokens" response)
    (tokens_of "cache_read_input_tokens" response) (tokens_of "cache_creation_input_tokens" response).

(** * The world *)

Inductive llm_error :=
| ETypeError                                   (* a wiring mistake of the caller *)
| EAborted
| ELedgerRequired
| ECost (e : cost_error)
| EDatabase                                    (* connection lost, bad text, a failed CHECK *)
| EInvocation (name message : string) (retryAfterSeconds : option Z)   (* LlmInvocationError and below *)
| EOther (name message : string)
| EUnsafe (d : Safety.decision) (blocks : list json) (content requestId : string).

Definition error_name (e : llm_error) : string :=
  match e with
  | ETypeError => "TypeError" | EAborted => "AbortError" | ELedgerRequired => "LedgerRequiredError"
  | ECost (BedrockBudgetExceeded _) => "BedrockBudgetExceededError"
  | ECost CostCapLockTimeout => "CostCapLockTimeoutError"
  | ECost RangeErrorCents => "RangeError"
  | ECost _ | EDatabase => "error"
  | EInvocation n _ _ | EOther n _ => n
  | EUnsafe _ _ _ _ => "LlmOutputUnsafeError"
  end.
Definition error_message (e : llm_error) : string :=
  match e with EInvocation _ m _ | EOther _ m => m | _ => "" end.

(** [formatErr]. *)
Definition formatErr (e : llm_error) : string :=
  error_name e +:+ ": " +:+ (if String.eqb (error_message e) "" then "<empty>" else error_message e).

Definition isTimeoutError (e : llm_error) : bool := String.eqb (error_name e) "TimeoutError".

(** What a failed call throws: the typed error of the adapter, or a wrap. *)
Definition invocation_error (e : llm_error) : llm_error :=
  match e with
  | EInvocation _ _ _ => e
  | _ => EInvocation "LlmInvocationError" ("bedrock invocation failed: " +:+ formatErr e) None
  end.

(** [telemetry.cost_journal] and [telemetry.llm_calls]. *)
Inductive entry_kind := reserve | settle.
Record journal_row := JournalRow {
  j_callId : string; j_installation : string; j_today : string; j_kind : entry_kind; j_amount : Z;
}.
Inductive call_status := st_ok | st_failed | st_timeout.
Record call_row := CallRow {
  cr_installation : string; cr_requestId : string; cr_model : string; cr_promptTokens : Z;
  cr_completionTokens : Z; cr_latencyMs : Z; cr_costUsdCents : Z; cr_status : call_status; cr_createdAt : Z;
}.

Record llm_db := LlmDb {
  d_ledger : ledger;
  d_cost : cost_db;
  d_journal : list journal_row;
  d_calls : list call_row;
}.
Definition set_ledger (t : ledger) (d : llm_db) : llm_db := LlmDb t (d_cost d) (d_journal d) (d_calls d).
Definition set_cost (c : cost_db) (d : llm_db) : llm_db := LlmDb (d_ledger d) c (d_journal d) (d_calls d).
Definition add_journal (j : journal_row) (d : llm_db) : llm_db :=
  LlmDb (d_ledger d) (d_cost d) (d_journal d ++ [j]) (d_calls d).
Definition add_call (c : call_row) (d : llm_db) : llm_db :=
  LlmDb (d_ledger d) (d_cost d) (d_journal d) (d_calls d ++ [c]).

Record sdk_request := SdkRequest {
  q_model : string; q_messages : list message; q_maxTokens : Z; q_tools : option (list json);
  q_role : string; q_signal : bool; q_cachePrefixMessages : option Z;
}.

Record trace := Trace {
  t_requestId : string; t_installation : string; t_model : string; t_promptTokens : Z;
  t_completionTokens : Z; t_latencyMs : Z; t_costUsdCents : Z; t_status : call_status;
  t_prompt : string; t_completion : string;
}.

(** The counters of the ledger and of the prompt cache. *)
Inductive metric :=
| LedgerHit | LedgerMiss | LedgerPaidCall | LedgerStoreFailed
| CacheUsage (read created uncached : Z)
| JournalWriteFailed (k : entry_kind).

(** Whether the row locks are granted in time, whether the cap settings can be
    read, and the instant of the enforcer's clock. *)
Record cost_env := CostEnv { ce_now : Z; ce_granted : bool; ce_reads : bool }.

Inductive llm_call :=
| Uuid4
| Monotonic
| Now                                     (* [clock.now()] and its [isoDate] *)
| ThrowIfAborted
| CostConditions
| Sdk (q : sdk_request)
| BlobPut (key : string) (body : json)
| Langfuse (t : trace)
| Metric (purpose : string) (m : metric)
| Warn (leaked : Z).

Definition llm_reply (c : llm_call) : Type :=
  match c with
  | Uuid4 => string
  | Monotonic => Z
  | Now => Z * string
  | ThrowIfAborted => unit
  | CostConditions => cost_env
  | Sdk _ => json
  | BlobPut _ _ => string
  | Langfuse _ | Metric _ _ | Warn _ => unit
  end.

Definition S : sig := Sig llm_db llm_call llm_reply llm_error.
Abbreviation program := (prog S).
Definition throw {A} (e : llm_error) : program A := @Raise S A e.
Definition ensure (b : bool) (e : llm_error) : program unit := if b then Return tt else throw e.

(** * The client *)

Record client := Client { has_ledger : bool; strictLedger : bool; has_journal : bool }.

(** The constructor. *)
Definition newLlmClient (c : client) : result llm_error client :=
  if strictLedger c && negb (has_ledger c) then Throw ELedgerRequired else Ok c.

Record idem := Idem { id_reviewId : string; id_chunkId : string; id_toolSchemaVersion : string;
                      id_ledgerPurpose : option string }.

(** The arguments; [cachePrefixMessages] is an integer when it is given. *)
Record invoke_args := InvokeArgs {
  a_role : string;
  a_model : option string;
  a_messages : list message;
  a_maxTokens : option Z;
  a_purpose : option string;
  a_tools : option (list json);
  a_installationId : string;
  a_idempotency : option idem;
  a_signal : bool;
  a_cachePrefixMessages : option Z;
}.

Record invoke_result := InvokeResult {
  r_requestId : string; r_model : string; r_promptTokens : Z; r_completionTokens : Z; r_latencyMs : Z;
  r_costUsdCents : Z; r_payloadBlobRef : string; r_content : string; r_stopReason : string;
  r_rawContentBlocks : list json; r_role : string;
}.

Definition TELEMETRY_MISSING_INSTALLATION_ID : string := "ffffffff-ffff-ffff-ffff-ffffffffffff".

Section Client.
(** The enforcer's constructor arguments. *)
Variables (cfg_global cfg_org : Z) (readCaps : bool).
(** Postgres: what it reads as a uuid, and the value it keeps of a JSON text. *)
Variable uuid_in : string -> bool.
Variable jsonb : json -> option json.
(** The injected archive redactor and output validator. *)
Variable archiveRedact : string -> string.
Variable outputSafety : text -> Safety.decision.
Variable cfg : client.

Definition try_ {A} (q : program A) (fallback : A) (on_error : program unit) : program A :=
  attempt q (fun r => match r with Ok a => Return a | Throw _ => await x := on_error in Return fallback end).
Definition swallow (q : program unit) : program unit := try_ q tt (Return tt).
Definition metric_ (purpose : string) (m : metric) : program unit := swallow (@call S (Metric purpose m)).

(** ** The statements *)

Definition lift_cost {A} (d : llm_db) (m : result cost_error (cost_db * A)) : result llm_error (llm_db * A) :=
  match m with Ok (c, a) => Ok (set_cost c d, a) | Throw e => Throw (ECost e) end.

Definition checkOrRaise_tx (e : cost_env) (a : CostCap.call) : program CostCap.decision :=
  @tx S _ (fun d => lift_cost d (pg_checkOrRaise cfg_global cfg_org readCaps (ce_now e) (ce_granted e) (ce_reads e)
                                   (d_cost d) a)).

Definition recordCallCost_tx (e : cost_env) (a : CostCap.call) (cost : Z) : program unit :=
  @tx S _ (fun d => lift_cost d (rbind (pg_recordCallCost cfg_global cfg_org readCaps (ce_now e) (ce_granted e)
                                          (ce_reads e) (d_cost d) a cost) (fun c => Ok (c, tt)))).

Definition int4 (n : Z) : bool := (-2147483648 <=? n) && (n <=? 2147483647).

Definition call_row_ok (r : call_row) : bool :=
  uuid_in (cr_installation r) && uuid_in (cr_requestId r) && int4 (cr_promptTokens r)
  && int4 (cr_completionTokens r) && int4 (cr_latencyMs r) && int4 (cr_costUsdCents r).

Definition recordCall (r : call_row) : program unit :=
  @tx S _ (fun d => if call_row_ok r then Ok (add_call r d, tt) else Throw EDatabase).

(** The CHECK on the sign of a reserve is also tested before the insert. *)
Definition journal_insert (j : journal_row) : program unit :=
  @tx S _ (fun d => if match j_kind j with reserve => 0 <=? j_amount j | settle => true end && uuid_in (j_installation j)
                    then Ok (add_journal j d, tt) else Throw EDatabase).

Definition shadowJournalAppend (j : journal_row) : program unit :=
  if has_journal cfg then try_ (journal_insert j) tt (metric_ "" (JournalWriteFailed (j_kind j))) else Return tt.

Definition ledger_lookup (key installation : string) : program (option json) :=
  @tx S _ (fun d => if uuid_in installation then Ok (d, lookup_ledger key installation (d_ledger d))
                    else Throw EDatabase).

Definition ledger_store (key installation : string) (i : key_inputs) (response : json) (now : Z) : program unit :=
  @tx S _ (fun d => match store_ledger uuid_in jsonb key installation i response now (d_ledger d) with
                    | Ok t => Ok (set_ledger t d, tt)
                    | Throw _ => Throw EDatabase
                    end).

(** ** The call *)

Section Invoke.
Variable args : invoke_args.
Variable model : string.

Definition maxTokens : Z := default 1024 (a_maxTokens args).
Definition purpose : string := default "review"%string (a_purpose args).
Definition telemetryIid : string :=
  if String.eqb (a_installationId args) "" then TELEMETRY_MISSING_INSTALLATION_ID else a_installationId args.
Definition promptChars : Z := foldr (fun m n => utf16_length (m_content m) + n) 0 (a_messages args).
Definition estimated : Z := estimateCentsPreCall model promptChars.

Definition key_inputs_of (i : idem) : key_inputs :=
  KeyInputs (id_reviewId i) (id_chunkId i) (a_role args) model (hashMessagesForLedger (a_messages args))
            (id_toolSchemaVersion i).

(** The inputs and the key, with a ledger and a context. *)
Definition ledgered : option key_inputs :=
  if has_ledger cfg then key_inputs_of <$> a_idempotency args else None.
Definition idempotencyKey : option string := computeKey <$> ledgered.
Definition ledgerPurpose : string :=
  default "unknown"%string (a_idempotency args ≫= id_ledgerPurpose).

Definition firstMessageContent : string :=
  match List.find (fun m => String.eqb (m_role m) "user" || String.eqb (m_role m) "system") (a_messages args) with
  | Some m => m_content m
  | None => match a_messages args with m :: _ => m_content m | [] => "" end
  end.

Definition cap_call (today : string) : CostCap.call := CostCap.Call telemetryIid estimated today.

Definition check_once (today : string) : program unit :=
  await e := @call S CostConditions in await _d := checkOrRaise_tx e (cap_call today) in Return tt.

(** Once more after a lock timeout; a second one refuses. *)
Definition reserve_budget (today : string) : program unit :=
  attempt (check_once today) (fun r =>
    match r with
    | Throw (ECost CostCapLockTimeout) =>
        attempt (check_once today) (fun r' =>
          match r' with
          | Throw (ECost CostCapLockTimeout) => throw (ECost (BedrockBudgetExceeded "kill_switch"))
          | _ => done r'
          end)
    | _ => done r
    end).

Definition request_payload : json :=
  JObj ([("model", JStr model);
         ("messages", JArr (map (fun m => JObj [("role", JStr (m_role m)); ("content", JStr (archiveRedact (m_content m)))])
                                (a_messages args)));
         ("max_tokens", num maxTokens); ("purpose", JStr purpose)]%string).

Definition sdk_call : sdk_request :=
  SdkRequest model (a_messages args) maxTokens (a_tools args) (a_role args) (a_signal args)
             (a_cachePrefixMessages args).

Definition latency (started finished : Z) : Z := Z.quot (finished - started) 1000.

Definition export_trace (t : trace) : program unit := swallow (@call S (Langfuse t)).

(** [releaseCostCapReservation]. *)
Definition releaseCostCapReservation : program unit :=
  try_ (await now := @call S Now in await e := @call S CostConditions in
        recordCallCost_tx e (cap_call now.2) 0) tt (swallow (@call S (Warn estimated))).

(** The way out when the provider throws [e]. *)
Definition sdk_failed {A} (requestId callId : string) (started : Z) (e : llm_error) : program A :=
  await finished := @call S Monotonic in
  let status := if isTimeoutError e then st_timeout else st_failed in
  let ms := latency started finished in
  await _u := swallow (await now := @call S Now in
    recordCall (CallRow telemetryIid requestId model 0 0 ms 0 status now.1)) in
  await _u := releaseCostCapReservation in
  await now := @call S Now in
  await _u := shadowJournalAppend (JournalRow callId telemetryIid now.2 settle (0 - estimated)) in
  await _u := export_trace (Trace requestId telemetryIid model 0 0 ms 0 status firstMessageContent "") in
  throw (invocation_error e).

(** [storeInvocation]. *)
Definition storeInvocation (response : json) : program unit :=
  match ledgered with
  | Some i =>
      try_ (await now := @call S Now in ledger_store (computeKey i) telemetryIid i response now.1) tt
           (metric_ ledgerPurpose LedgerStoreFailed)
  | None => Return tt
  end.

Definition ledger_metric (m : metric) : program unit :=
  match idempotencyKey with Some _ => metric_ ledgerPurpose m | None => Return tt end.

(** The provider's call, and what follows its answer. *)
Definition call_provider (requestId callId : string) (started : Z) : program json :=
  attempt (@call S (Sdk sdk_call)) (fun r =>
    match r with
    | Throw e => sdk_failed requestId callId started e
    | Ok response =>
        await _u := ledger_metric LedgerPaidCall in
        await _u := storeInvocation response in
        Return response
    end).

(** The paid path. *)
Definition pay (requestId : string) (started : Z) : program json :=
  let callId := default requestId idempotencyKey in
  await _u := ledger_metric LedgerMiss in
  await _u := (if a_signal args then @call S ThrowIfAborted else Return tt) in
  await _u := ensure (negb (strictLedger cfg && negb (bool_decide (is_Some idempotencyKey)))) ELedgerRequired in
  await now := @call S Now in
  await _u := reserve_budget now.2 in
  await _u := shadowJournalAppend (JournalRow callId telemetryIid now.2 reserve estimated) in
  await _b := @call S (BlobPut ("llm-payloads/" +:+ requestId +:+ "/request.json") request_payload) in
  call_provider requestId callId started.

Definition redact_block (b : json) : json :=
  match b with
  | JObj kvs => JObj (map (fun kv => match kv with
                                     | ("text"%string, JStr t) => ("text"%string, JStr (archiveRedact t))
                                     | _ => kv end) kvs)
  | _ => b
  end.
Definition redactResponseForArchive (response : json) : json :=
  match response with
  | JObj kvs => JObj (map (fun kv => match kv with
                                     | ("content"%string, JArr l) => ("content"%string, JArr (map redact_block l))
                                     | _ => kv end) kvs)
  | _ => response
  end.

(** From a response, paid or replayed, to the result. *)
Definition finish (requestId : string) (started : Z) (isReplay : bool) (response : json) : program invoke_result :=
  let callId := default requestId idempotencyKey in
  await finished := @call S Monotonic in
  let ms := latency started finished in
  await blobRef := @call S (BlobPut ("llm-payloads/" +:+ requestId +:+ "/response.json")
                                    (redactResponseForArchive response)) in
  let promptTokens := tokens_of "input_tokens" response in
  let completionTokens := tokens_of "output_tokens" response in
  let cents := computedFinalCents model response in
  await _u := (if negb isReplay && bool_decide (is_Some (a_cachePrefixMessages args))
               then metric_ ledgerPurpose (CacheUsage (tokens_of "cache_read_input_tokens" response)
                      (tokens_of "cache_creation_input_tokens" response) promptTokens)
               else Return tt) in
  let contentText := content_text response in
  let d := outputSafety (text_of contentText) in
  let status := if Safety.allow d then st_ok else st_failed in
  await now := @call S Now in
  await _u := recordCall (CallRow telemetryIid requestId model promptTokens completionTokens ms cents status now.1) in
  await _u := (if isReplay then Return tt
               else
                 await now := @call S Now in
                 await e := @call S CostConditions in
                 await _u := recordCallCost_tx e (cap_call now.2) cents in
                 await now := @call S Now in
                 shadowJournalAppend (JournalRow callId telemetryIid now.2 settle (cents - estimated))) in
  await _u := export_trace (Trace requestId telemetryIid model promptTokens completionTokens ms cents status
                              firstMessageContent (if Safety.allow d then contentText else "")) in
  await _u := ensure (Safety.allow d) (EUnsafe d (raw_blocks response) contentText requestId) in
  Return (InvokeResult requestId model promptTokens completionTokens ms cents blobRef contentText
            (pyStr (prop "stop_reason" response)) (raw_blocks response) (a_role args)).

Definition look : program (option json) :=
  match idempotencyKey with Some k => ledger_lookup k telemetryIid | None => Return None end.

Definition invoke : program invoke_result :=
  await requestId := @call S Uuid4 in
  await started := @call S Monotonic in
  await replayed := look in
  match replayed with
  | Some response =>
      await _u := metric_ ledgerPurpose LedgerHit in
      finish requestId started true response
  | None =>
      await response := pay requestId started in
      finish requestId started false response
  end.
End Invoke.

Definition cache_prefix_ok (args : invoke_args) : bool :=
  match a_cachePrefixMessages args with
  | Some n => (1 <=? n) && (n <? Z.of_nat (length (a_messages args)))
  | None => true
  end.

Definition invokeModel (args : invoke_args) : program invoke_result :=
  await _u := ensure (cache_prefix_ok args) ETypeError in
  match a_model args with
  | None => throw ETypeError
  | Some model => invoke args model
  end.
End Client.

(** * Proofs *)

(** The outside, as the theorems see it: the responses paid for, newest first,
    whether a failed store was counted, and what other calls added to the books. *)
Record outside := Outside { paid : list json; store_failed : bool; others : Z }.
Definition pay_for (response : json) (g : outside) : outside :=
  Outside (response :: paid g) (store_failed g) (others g).
Definition count_failure (g : outside) : outside := Outside (paid g) true (others g).
Abbreviation world := (llm_db * outside)%type.

(** An error that neither the cap nor the signal nor the provider is behind. *)
Definition plain (e : llm_error) : Prop := match e with EDatabase | EOther _ _ => True | _ => False end.

(** What the outside does: the provider is paid for what it answers, the counter
    counts, and nothing else is seen.  Every call may fail. *)
Record honest (answers : forall c, outside -> outside -> result llm_error (llm_reply c) -> Prop) : Prop := Honest {
  h_sdk q g g' r : answers (Sdk q) g g' r ->
    match r with Ok response => g' = pay_for response g | Throw _ => g' = g end;
  h_metric p m g g' r : answers (Metric p m) g g' r ->
    g' = match m with LedgerStoreFailed => count_failure g | _ => g end;
  h_quiet c g g' r : answers c g g' r ->
    match c with Sdk _ | Metric _ _ => True | _ => g' = g end;
  h_errors c g g' e : answers c g g' (Throw e) ->
    match c with Sdk _ => True | ThrowIfAborted => e = EAborted | _ => plain e end;
}.

Definition fault : llm_error := EDatabase.

(** A program that never pays, stores or counts a failure, whose transactions
    change the state by [P] only, and whose outcomes satisfy [Q]. *)
Definition calm_call (c : llm_call) : Prop :=
  match c with Sdk _ | ThrowIfAborted | Metric _ LedgerStoreFailed => False | _ => True end.

Fixpoint tame {A} (P : llm_db -> llm_db -> Prop) (q : program A) (Q : result llm_error A -> Prop) : Prop :=
  match q with
  | Return a => Q (Ok a)
  | Raise e => Q (Throw e)
  | Tx f k =>
      (forall d d' x, f d = Ok (d', x) -> P d d' /\ tame P (k (Ok x)) Q) /\
      (forall d e, f d = Throw e -> tame P (k (Throw e)) Q) /\ tame P (k (Throw fault)) Q
  | Call c k => calm_call c /\ forall r, (forall e, r = Throw e -> plain e) -> tame P (k r) Q
  end.

Lemma tame_mono {A} (P P' : llm_db -> llm_db -> Prop) (q : program A) (Q Q' : result llm_error A -> Prop) :
  (forall d d', P d d' -> P' d d') -> (forall r, Q r -> Q' r) -> tame P q Q -> tame P' q Q'.
Proof.
  intros HP HQ. induction q as [a|e|X f k IH|c k IH]; simpl; [auto..| |].
  - intros (H1 & H2 & H3). split_and!; [|eauto|eauto].
    intros d d' x Hf. destruct (H1 _ _ _ Hf). split; auto.
  - intros [Hc H]. split; [done|]. eauto.
Qed.

Lemma tame_attempt {A B} P (q : program A) (h : result llm_error A -> program B) Q :
  tame P q (fun r => tame P (h r) Q) -> tame P (attempt q h) Q.
Proof.
  induction q as [a|e|X f k IH|c k IH]; simpl; [done..| |].
  - intros (H1 & H2 & H3). split_and!; [|eauto|eauto].
    intros d d' x Hf. destruct (H1 _ _ _ Hf). split; auto.
  - intros [Hc H]. split; [done|]. eauto.
Qed.

Lemma tame_bind {A B} P (q : program A) (h : A -> program B) (Q : result llm_error B -> Prop) :
  tame P q (fun r => match r with Ok a => tame P (h a) Q | Throw e => Q (Throw e) end) -> tame P (bind q h) Q.
Proof.
  intros H. apply tame_attempt. eapply tame_mono, H; [done|]. by intros [a|e].
Qed.

Lemma tame_call P c (Q : result llm_error (llm_reply c) -> Prop) :
  calm_call c -> (forall r, (forall e, r = Throw e -> plain e) -> Q r) -> tame P (@call S c) Q.
Proof. intros Hc H. split; [done|]. intros [a|e] Hr; simpl; apply H; done. Qed.

Lemma tame_tx {X} P (f : llm_db -> result llm_error (llm_db * X)) (Q : result llm_error X -> Prop) :
  (forall d d' x, f d = Ok (d', x) -> P d d' /\ Q (Ok x)) -> (forall d e, f d = Throw e -> Q (Throw e)) ->
  Q (Throw fault) -> tame P (@tx S X f) Q.
Proof. intros H1 H2 H3. split_and!; done. Qed.

Lemma tame_swallow P q (Q : result llm_error unit -> Prop) :
  tame P q (fun _ => True) -> Q (Ok tt) -> tame P (swallow q) Q.
Proof.
  intros Hq HQ. apply tame_attempt. eapply tame_mono, Hq; [done|]. by intros [[]|e] _.
Qed.

Section Wpc.
Variable answers : forall c, outside -> outside -> result llm_error (llm_reply c) -> Prop.
Variable R : world -> world -> Prop.
Hypothesis Hh : honest answers.
Abbreviation wpc := (@wpc S outside answers R fault _).

(** A tame program keeps what others and [P] keep, and pays nothing. *)
Lemma wpc_tame {A} (I : world -> Prop) P (q : program A) (Q : result llm_error A -> world -> Prop) s :
  (forall s s1, I s -> R s s1 -> I s1) -> (forall d d' g, I (d, g) -> P d d' -> I (d', g)) ->
  I s -> tame P q (fun r => forall s', I s' -> Q r s') -> wpc I q Q s.
Proof.
  intros HR HP. revert s. induction q as [a|e|X f k IH|c k IH]; intros s HI Ht; (split; [done|]); simpl in Ht |- *.
  - by apply Ht.
  - by apply Ht.
  - destruct Ht as (H1 & H2 & H3). intros s1 Hs1. assert (HI1 : I s1) by eauto. split_and!.
    + intros d2 x Hf. destruct (H1 _ _ _ Hf) as [Hp Hk]. assert (HI2 : I (d2, s1.2)) by (destruct s1; eauto). eauto.
    + eauto.
    + eauto.
  - destruct Ht as [Hc H]. intros s1 g' r Hs1 Ha. assert (HI1 : I s1) by eauto.
    assert (Hg : g' = s1.2).
    { pose proof (h_quiet _ Hh _ _ _ _ Ha). pose proof (h_metric _ Hh) as Hm.
      destruct c; try done. rewrite (Hm _ _ _ _ _ Ha). by destruct m. }
    subst g'. apply IH; [by destruct s1|]. apply H. intros e ->. pose proof (h_errors _ Hh _ _ _ _ Ha). by destruct c.
Qed.
End Wpc.

(** Pieces that touch neither the ledger nor the books. *)
Definition aside (d d' : llm_db) : Prop := d_ledger d' = d_ledger d /\ d_cost d' = d_cost d.

Section Pieces.
Variables (uuid_in : string -> bool) (cfg : client).

Lemma tame_metric P p m (Q : result llm_error unit -> Prop) :
  m <> LedgerStoreFailed -> Q (Ok tt) -> tame P (metric_ p m) Q.
Proof. intros Hm HQ. apply tame_swallow; [|done]. apply tame_call; [by destruct m|done]. Qed.

Lemma tame_recordCall row (Q : result llm_error unit -> Prop) :
  Q (Ok tt) -> Q (Throw EDatabase) -> tame aside (recordCall uuid_in row) Q.
Proof.
  intros H1 H2. apply tame_tx; [| |done].
  - intros d d' []. destruct (call_row_ok _ _); [|done]. by intros [= <-].
  - intros d e. destruct (call_row_ok _ _); [done|]. by intros [= <-].
Qed.

Lemma tame_journal j (Q : result llm_error unit -> Prop) :
  Q (Ok tt) -> tame aside (shadowJournalAppend uuid_in cfg j) Q.
Proof.
  intros HQ. unfold shadowJournalAppend. destruct (has_journal cfg); [|done]. apply tame_attempt.
  apply tame_tx; [|intros d e _|].
  - intros d d' x. destruct (_ && _); [|done]. by intros [= <- <-].
  - apply tame_bind, tame_metric; done.
  - apply tame_bind, tame_metric; done.
Qed.

Lemma tame_export P t (Q : result llm_error unit -> Prop) : Q (Ok tt) -> tame P (export_trace t) Q.
Proof. intros HQ. apply tame_swallow; [|done]. by apply tame_call. Qed.
End Pieces.

Section Replay.
Variables (cfg_global cfg_org : Z) (readCaps : bool) (uuid_in : string -> bool) (jsonb : json -> option json).
Variables (archiveRedact : string -> string) (outputSafety : text -> Safety.decision) (cfg : client).
Variables (args : invoke_args) (model : string).

Abbreviation finish_ := (finish cfg_global cfg_org readCaps uuid_in archiveRedact outputSafety cfg args model).

(** What comes of a response. *)
Definition outcome_of (response : json) (r : result llm_error invoke_result) : Prop :=
  match r with
  | Ok out =>
      r_content out = content_text response /\ r_rawContentBlocks out = raw_blocks response /\
      r_model out = model /\ r_costUsdCents out = computedFinalCents model response /\
      Safety.allow (outputSafety (text_of (content_text response))) = true
  | Throw (EUnsafe d blocks content _) =>
      d = outputSafety (text_of (content_text response)) /\ Safety.allow d = false /\
      blocks = raw_blocks response /\ content = content_text response
  | Throw e => plain e
  end.

Lemma plain_outcome response e : plain e -> outcome_of response (Throw e).
Proof. by destruct e. Qed.

Lemma tame_finish_replay requestId started response :
  tame aside (finish_ requestId started true response) (outcome_of response).
Proof.
  unfold finish. apply tame_bind, tame_call; [done|]. intros [finished|e] He; [|by apply plain_outcome, He].
  apply tame_bind, tame_call; [done|]. intros [blob|e] He'; [|by apply plain_outcome, He'].
  cbn [negb andb]. apply tame_bind. cbn [tame]. apply tame_bind, tame_call; [done|].
  intros [now|e] He''; [|by apply plain_outcome, He''].
  apply tame_bind, tame_recordCall; [|done]. apply tame_bind. cbn [tame].
  apply tame_bind, tame_export. apply tame_bind. unfold ensure.
  destruct (Safety.allow (outputSafety _)) eqn:Ha; cbn [tame throw]; unfold outcome_of; simpl; by rewrite ?Ha.
Qed.

Abbreviation invokeModel_ :=
  (invokeModel cfg_global cfg_org readCaps uuid_in jsonb archiveRedact outputSafety cfg args).

Section World.
Variable answers : forall c, outside -> outside -> result llm_error (llm_reply c) -> Prop.
Variable R : world -> world -> Prop.
Hypothesis Hh : honest answers.
Abbreviation wpc := (@wpc S outside answers R fault _).

(** The ledger holds [response] under the key of the call. *)
Definition recorded (response : json) (d : llm_db) : Prop :=
  exists k, idempotencyKey cfg args model = Some k /\
    lookup_ledger k (telemetryIid args) (d_ledger d) = Some response.

(** Once the ledger holds the response of a call, the call is never paid for
    again: while others keep the row, every run of it, whatever fails and wherever
    it is killed, pays nothing and leaves the books alone, and it ends with that
    response, judged by the output validator, or with a plain failure; a spent
    budget or a cancelled signal does not stop it. *)
Theorem invokeModel_replays response (books : cost_db -> Prop) p0 s :
  a_model args = Some model -> cache_prefix_ok args = true ->
  (forall s s1, R s s1 -> recorded response s.1 -> recorded response s1.1) ->
  (forall s s1, R s s1 -> paid s1.2 = paid s.2 /\ (books (d_cost s.1) -> books (d_cost s1.1))) ->
  recorded response s.1 -> books (d_cost s.1) -> paid s.2 = p0 ->
  wpc (fun s' => recorded response s'.1 /\ books (d_cost s'.1) /\ paid s'.2 = p0) invokeModel_
      (fun r _ => outcome_of response r) s.
Proof.
  intros Hm Hc HR HR' Hrec Hb Hp. set (I s' := recorded response s'.1 /\ books (d_cost s'.1) /\ paid s'.2 = p0).
  assert (HIR : forall s s1, I s -> R s s1 -> I s1).
  { intros s1 s2 (H1 & H2 & H3) H. destruct (HR' _ _ H) as [H4 H5]. split_and!; [by eapply HR|auto|congruence]. }
  assert (HIP : forall d d' g, I (d, g) -> aside d d' -> I (d', g)).
  { intros d d' g (H1 & H2 & H3) [E1 E2]. unfold I, recorded in *. simpl in *. by rewrite E1, E2. }
  assert (HI : I s) by done. clear Hrec Hb Hp.
  unfold invokeModel. rewrite Hc, Hm. unfold ensure. apply wpc_bind. cbn [Programs.wpc]. split; [done|].
  unfold invoke. apply wpc_bind, wpc_call; [done|]. intros s1 g1 r1 H1 A1.
  pose proof (h_quiet _ Hh _ _ _ _ A1) as E. cbn in E. subst g1. assert (I1 : I (s1.1, s1.2)) by (destruct s1; eauto).
  split; [done|]. destruct r1 as [rid|e]; [|apply plain_outcome; by apply (h_errors _ Hh _ _ _ _ A1)].
  apply wpc_bind, wpc_call; [done|]. intros s2 g2 r2 H2 A2.
  pose proof (h_quiet _ Hh _ _ _ _ A2) as E. cbn in E. subst g2. assert (I2 : I (s2.1, s2.2)) by (destruct s2; eauto).
  split; [done|]. destruct r2 as [started|e]; [|apply plain_outcome; by apply (h_errors _ Hh _ _ _ _ A2)].
  apply wpc_bind. pose proof I2 as ((k & Hk & _) & _). unfold look. rewrite Hk.
  apply wpc_tx; [done|]. intros s3 H3. assert (I3 : I s3) by eauto. split; [exact I3|].
  split; [exact Logic.I|]. split.
  { intros e. destruct (uuid_in _); [done|]. intros [= <-]. exact Logic.I. }
  intros d2 x Hx. destruct (uuid_in (telemetryIid args)); [|done]. injection Hx as <- <-.
  assert (I (s3.1, s3.2)) as I3' by (by destruct s3). split; [exact I3'|].
  split; [|exact Logic.I].
  pose proof I3 as ((k' & Hk' & Hl) & _). assert (k' = k) as -> by congruence. rewrite Hl.
  apply (wpc_tame answers R Hh I aside); [done|done|done|].
  apply tame_bind, tame_metric; [done|]. eapply tame_mono, tame_finish_replay; done.
Qed.
End World.
End Replay.

(** ** The books *)

Section Accounts.
Variables (cfg_global cfg_org : Z) (readCaps : bool) (uuid_in : string -> bool) (jsonb : json -> option json).
Variables (archiveRedact : string -> string) (outputSafety : text -> Safety.decision) (cfg : client).
Variables (args : invoke_args) (model : string).

Variable day : string.
Variable base : Z.
Variable p0 : list json.

Abbreviation est := (estimated args model).
Abbreviation iid := (telemetryIid args).

(** What the books of the day hold for this call alone, above [base]. *)
Definition own (s : world) : Z := row_total (gkey day) (cost_daily (d_cost s.1)) - others s.2 - base.
Definition rows (s : world) : Prop :=
  is_Some (cost_daily (d_cost s.1) !! gkey day) /\
  (iid <> ZERO_UUID -> is_Some (cost_daily (d_cost s.1) !! okey day iid)).
(** The response is in the ledger, or the failure to store it was counted. *)
Definition kept (s : world) : Prop :=
  forall k, idempotencyKey cfg args model = Some k -> is_Some (d_ledger s.1 !! k) \/ store_failed s.2 = true.

Definition idle (s : world) : Prop := paid s.2 = p0 /\ own s = 0.
Definition held (s : world) : Prop := paid s.2 = p0 /\ own s = est /\ rows s.
Definition owed (response : json) (s : world) : Prop := paid s.2 = response :: p0 /\ own s = est /\ rows s.
Definition settled (response : json) (s : world) : Prop :=
  paid s.2 = response :: p0 /\ own s = computedFinalCents model response.

(** At every point: unpaid with nothing or the estimate on the books, or paid once
    with the estimate or the cost on the books. *)
Definition accounted (s : world) : Prop :=
  idle s \/ held s \/ exists response, owed response s \/ settled response s.

(** The others change neither what this call added to the books nor what it paid;
    rows of the day and of the ledger stay. *)
Record bystander (R : world -> world -> Prop) : Prop := Bystander {
  by_own s s1 : R s s1 -> own s1 = own s;
  by_paid s s1 : R s s1 -> paid s1.2 = paid s.2;
  by_rows s s1 k : R s s1 -> is_Some (cost_daily (d_cost s.1) !! k) -> is_Some (cost_daily (d_cost s1.1) !! k);
  by_ledger s s1 k : R s s1 -> is_Some (d_ledger s.1 !! k) -> is_Some (d_ledger s1.1 !! k);
  by_counted s s1 : R s s1 -> store_failed s.2 = true -> store_failed s1.2 = true;
}.

Variable answers : forall c, outside -> outside -> result llm_error (llm_reply c) -> Prop.
Variable R : world -> world -> Prop.
Hypothesis Hh : honest answers.
Hypothesis Hday : forall g g' t d, answers Now g g' (Ok (t, d)) -> d = day.
Hypothesis HR : bystander R.
Abbreviation wpc := (@wpc S outside answers R fault _).

Lemma rows_stable s s1 : rows s -> R s s1 -> rows s1.
Proof. intros [H1 H2] H. split; [|intros Hz]; eapply (by_rows _ HR); eauto. Qed.
Lemma kept_stable s s1 : kept s -> R s s1 -> kept s1.
Proof.
  intros Hk H k Ek. destruct (Hk k Ek); [left; by eapply (by_ledger _ HR)|right; by eapply (by_counted _ HR)].
Qed.
Lemma idle_stable s s1 : idle s -> R s s1 -> idle s1.
Proof. intros [H1 H2] H. split; [rewrite (by_paid _ HR _ _ H)|rewrite (by_own _ HR _ _ H)]; done. Qed.
Lemma held_stable s s1 : held s -> R s s1 -> held s1.
Proof.
  intros (H1 & H2 & H3) H. split_and!; [by rewrite (by_paid _ HR _ _ H)|by rewrite (by_own _ HR _ _ H)|].
  by eapply rows_stable.
Qed.
Lemma owed_stable x s s1 : owed x s -> R s s1 -> owed x s1.
Proof.
  intros (H1 & H2 & H3) H. split_and!; [by rewrite (by_paid _ HR _ _ H)|by rewrite (by_own _ HR _ _ H)|].
  by eapply rows_stable.
Qed.
Lemma settled_stable x s s1 : settled x s -> R s s1 -> settled x s1.
Proof. intros [H1 H2] H. split; [rewrite (by_paid _ HR _ _ H)|rewrite (by_own _ HR _ _ H)]; done. Qed.

(** A predicate that the others and the transactions beside the books keep. *)
Record steady (I : world -> Prop) : Prop := Steady {
  st_others s s1 : I s -> R s s1 -> I s1;
  st_aside d d' g : I (d, g) -> aside d d' -> I (d', g);
}.

Lemma aside_own d d' g : aside d d' -> own (d', g) = own (d, g).
Proof. intros [_ E]. unfold own. simpl. by rewrite E. Qed.
Lemma aside_rows d d' g : aside d d' -> rows (d, g) -> rows (d', g).
Proof. intros [_ E]. unfold rows. simpl. by rewrite E. Qed.
Lemma aside_kept d d' g : aside d d' -> kept (d, g) -> kept (d', g).
Proof. intros [E _]. unfold kept. simpl. by rewrite E. Qed.

Lemma idle_steady : steady idle.
Proof. split; [apply idle_stable|]. intros d d' g [H1 H2] H. split; [done|by rewrite (aside_own _ _ _ H)]. Qed.
Lemma held_steady : steady held.
Proof.
  split; [apply held_stable|]. intros d d' g (H1 & H2 & H3) H.
  split_and!; [done|by rewrite (aside_own _ _ _ H)|by eapply aside_rows].
Qed.
Lemma owed_steady x : steady (owed x).
Proof.
  split; [apply owed_stable|]. intros d d' g (H1 & H2 & H3) H.
  split_and!; [done|by rewrite (aside_own _ _ _ H)|by eapply aside_rows].
Qed.
Lemma settled_steady x : steady (settled x).
Proof. split; [apply settled_stable|]. intros d d' g [H1 H2] H. split; [done|by rewrite (aside_own _ _ _ H)]. Qed.
Lemma kept_steady : steady kept.
Proof. split; [apply kept_stable|]. intros d d' g H Ha. by eapply aside_kept. Qed.
Lemma and_steady I J : steady I -> steady J -> steady (fun s => I s /\ J s).
Proof. intros [A1 A2] [B1 B2]. split; naive_solver. Qed.
Lemma or_steady I J : steady I -> steady J -> steady (fun s => I s \/ J s).
Proof. intros [A1 A2] [B1 B2]. split; naive_solver. Qed.

(** A tame program in a steady state. *)
Lemma wpc_steady {A} (I : world -> Prop) (q : program A) (Q : result llm_error A -> world -> Prop) s :
  steady I -> (forall s', I s' -> accounted s') -> I s ->
  tame aside q (fun r => forall s', I s' -> Q r s') -> wpc accounted q Q s.
Proof.
  intros [H1 H2] Ha HI Ht. apply wpc_mono with I Q; [done|done|].
  by apply (wpc_tame answers R Hh I aside).
Qed.

(** A call whose reply carries no weight. *)
Lemma wpc_ask (I : world -> Prop) c (Q : result llm_error (llm_reply c) -> world -> Prop) s :
  steady I -> (forall s', I s' -> accounted s') -> I s ->
  match c with Sdk _ | Metric _ _ => False | _ => True end ->
  (forall r s' g, I s' -> answers c g g r -> Q r s') -> wpc accounted (@call S c) Q s.
Proof.
  intros [H1 _] Ha HI Hc HQ. apply wpc_call; [by apply Ha|]. intros s1 g' r Hs Han.
  assert (g' = s1.2) as -> by (pose proof (h_quiet _ Hh _ _ _ _ Han); by destruct c).
  assert (HI1 : I (s1.1, s1.2)) by (destruct s1; eauto). split; [by apply Ha|]. by eapply HQ.
Qed.
(** *** The three statements on the books *)

Lemma platform_iid d : platform (cap_call args model d) = false <-> iid <> ZERO_UUID.
Proof. apply platform_false. Qed.

Lemma check_books e d d' dec g :
  pg_checkOrRaise cfg_global cfg_org readCaps (ce_now e) (ce_granted e) (ce_reads e) d (cap_call args model day)
    = Ok (d', dec) ->
  forall db, d_cost db = d -> idle (db, g) -> held (set_cost d' db, g).
Proof.
  intros H db <- [Hp Ho]. apply pg_check_Ok in H as (_ & _ & _ & _ & _ & Hg & _ & _ & Hsg & Horg & _).
  cbn [c_today cap_call c_estimated c_installation] in *. split_and!; [done| |].
  - unfold own in *. simpl in *. lia.
  - split; [done|]. intros Hz. apply (platform_iid day) in Hz. by apply Horg.
Qed.

Lemma record_books e d d' cost g :
  pg_recordCallCost cfg_global cfg_org readCaps (ce_now e) (ce_granted e) (ce_reads e) d (cap_call args model day) cost
    = Ok d' ->
  forall db, d_cost db = d -> own (db, g) = est -> rows (db, g) -> own (set_cost d' db, g) = cost.
Proof.
  intros H db <- Ho [Hr1 Hr2]. apply pg_record_Ok in H as [_ H].
  - unfold own in *. simpl in *. rewrite H, decide_True by auto. cbn. lia.
  - done.
  - intros Hz%platform_iid. by apply Hr2.
Qed.

Lemma idle_acc s : idle s -> accounted s.
Proof. by left. Qed.
Lemma held_acc s : held s -> accounted s.
Proof. by right; left. Qed.
Lemma owed_acc x s : owed x s -> accounted s.
Proof. right. right. exists x. by left. Qed.
Lemma settled_acc x s : settled x s -> accounted s.
Proof. right. right. exists x. by right. Qed.

Definition safe_error (e : llm_error) : Prop := match e with EUnsafe _ _ _ _ => False | _ => True end.

Lemma plain_safe e : plain e -> safe_error e.
Proof. by destruct e. Qed.

Lemma wpc_check s :
  idle s ->
  wpc accounted (check_once cfg_global cfg_org readCaps args model day)
    (fun r s' => match r with
                 | Ok _ => held s'
                 | Throw (ECost _) => idle s'
                 | Throw e => safe_error e /\ (idle s' \/ held s') end) s.
Proof.
  intros Hi. apply wpc_bind, (wpc_ask idle); [apply idle_steady|apply idle_acc|done|done|].
  intros [e|e] s1 g H1 Ha.
  2:{ apply (h_errors _ Hh) in Ha. destruct e; try done; (split; [done|by left]). }
  apply wpc_bind, wpc_tx; [by apply idle_acc|]. intros s2 Hs2.
  pose proof (idle_stable _ _ H1 Hs2) as H2. split; [by apply idle_acc|]. split; [by split; [|left]|]. split.
  - intros e'. unfold lift_cost. destruct (pg_checkOrRaise _ _ _ _ _ _ _ _) as [[]|]; [done|]. by intros [= <-].
  - intros d2 x. unfold lift_cost. destruct (pg_checkOrRaise _ _ _ _ _ _ _ _) as [[c' dec]|] eqn:Hc; [|done].
    intros [= <- <-]. assert (Hheld : held (set_cost c' s2.1, s2.2)).
    { eapply check_books; [exact Hc|done|by destruct s2]. }
    split; [by apply held_acc|]. split; [|by split; [|right]]. split; [by apply held_acc|done].
Qed.

Lemma wpc_reserve s :
  idle s ->
  wpc accounted (reserve_budget cfg_global cfg_org readCaps args model day)
    (fun r s' => match r with Ok _ => held s' | Throw e => safe_error e /\ (idle s' \/ held s') end) s.
Proof.
  intros Hi. unfold reserve_budget. apply wpc_attempt. eapply wpc_mono, wpc_check, Hi; [done|].
  intros [[]|e] s1 Hacc H1; [by apply wpc_return|].
  assert (Hr : safe_error e /\ (idle s1 \/ held s1)) by (destruct e; try done; by split; [|left]).
  destruct e as [| | |[]| | | |]; try by apply wpc_raise.
  apply wpc_attempt. eapply wpc_mono, wpc_check, H1; [done|].
  intros [[]|e] s2 Hacc2 H2; [by apply wpc_return|].
  assert (Hr2 : safe_error e /\ (idle s2 \/ held s2)) by (destruct e; try done; by split; [|left]).
  destruct e as [| | |[]| | | |]; by apply wpc_raise.
Qed.

Lemma wpc_release s :
  held s ->
  wpc accounted (releaseCostCapReservation cfg_global cfg_org readCaps args model)
    (fun r s' => r = Ok tt /\ (idle s' \/ held s')) s.
Proof.
  intros Hi. set (J s := idle s \/ held s).
  assert (HJ : steady J) by (apply or_steady; [apply idle_steady|apply held_steady]).
  assert (HJa : forall s', J s' -> accounted s') by (intros s' [|]; [by apply idle_acc|by apply held_acc]).
  apply wpc_attempt. apply wpc_mono with accounted (fun _ s' => J s'); [done| |].
  { intros [[]|e] s' Hacc H; [by apply wpc_return|].
    apply (wpc_steady J); [done..|]. apply tame_bind, tame_swallow; [by apply tame_call|]. by split. }
  apply wpc_bind, (wpc_ask held); [apply held_steady|apply held_acc|done|done|].
  intros [now|e] s1 g1 H1 A1; [|by right]. assert (now.2 = day) as -> by (destruct now; by eapply Hday).
  apply wpc_bind, (wpc_ask held); [apply held_steady|apply held_acc|done|done|].
  intros [e|e] s2 g2 H2 A2; [|by right]. apply wpc_tx; [by apply held_acc|]. intros s3 Hs3.
  pose proof (held_stable _ _ H2 Hs3) as H3. split; [by apply held_acc|]. split; [by right|]. split; [by right|].
  intros d2 x. unfold lift_cost. destruct (pg_recordCallCost _ _ _ _ _ _ _ _ _) as [c'|] eqn:Hc; [|done].
  intros [= <- <-]. destruct s3 as [d3 g3]. destruct H3 as (Hp & Ho & Hr).
  assert (Hid : idle (set_cost c' d3, g3)) by (split; [done|]; by eapply record_books).
  split; [by apply idle_acc|]. split; by left.
Qed.

(** *** The paid path *)

(** How a call may end. *)
Definition ended (r : result llm_error invoke_result) (s : world) : Prop :=
  match r with
  | Ok _ | Throw (EUnsafe _ _ _ _) => idle s \/ exists x, settled x s /\ kept s
  | Throw _ => idle s \/ held s \/ exists x, (owed x s \/ settled x s) /\ kept s
  end.

Lemma wpc_failed {A} requestId callId started e s :
  held s ->
  wpc accounted (@sdk_failed cfg_global cfg_org readCaps uuid_in cfg args model A requestId callId started e)
    (fun r s' => exists e', r = Throw e' /\ safe_error e' /\ (idle s' \/ held s')) s.
Proof.
  intros Hi. set (J s := idle s \/ held s).
  assert (HJ : steady J) by (apply or_steady; [apply idle_steady|apply held_steady]).
  assert (HJa : forall s', J s' -> accounted s') by (intros s' [|]; [by apply idle_acc|by apply held_acc]).
  apply wpc_bind, (wpc_ask held); [apply held_steady|apply held_acc|done|done|].
  intros [fin|e'] s1 g1 H1 A1.
  2:{ exists e'. split_and!; [done|apply plain_safe; by apply (h_errors _ Hh) in A1|by right]. }
  apply wpc_bind, (wpc_steady held); [apply held_steady|apply held_acc|done|].
  apply tame_swallow; [|].
  { apply tame_bind, tame_call; [done|]. intros [n|] _; [by apply tame_recordCall|done]. }
  intros s2 H2. apply wpc_bind. eapply wpc_mono, wpc_release, H2; [done|].
  intros r s3 Hacc [-> H3]. apply wpc_bind, (wpc_ask J); [done..|].
  intros [now|e'] s4 g4 H4 A4.
  2:{ exists e'. split_and!; [done|apply plain_safe; by apply (h_errors _ Hh) in A4|done]. }
  apply (wpc_steady J); [done..|]. apply tame_bind, tame_journal. apply tame_bind, tame_export.
  intros s5 H5. exists (invocation_error e). split_and!; [done|by destruct e|done].
Qed.
Lemma store_has k i response now t t' :
  store_ledger uuid_in jsonb k iid i response now t = Ok t' -> is_Some (t' !! k).
Proof.
  unfold store_ledger. destruct (_ && _); [|done]. destruct (jsonb response); [|done]. intros [= <-].
  destruct (t !! k) eqn:Ht; [by rewrite Ht|by rewrite lookup_insert_eq].
Qed.

Lemma tame_ledger_metric P m (Q : result llm_error unit -> Prop) :
  m <> LedgerStoreFailed -> Q (Ok tt) -> tame P (ledger_metric cfg args model m) Q.
Proof. intros Hm HQ. unfold ledger_metric. destruct (idempotencyKey cfg args model); [by apply tame_metric|done]. Qed.

Lemma wpc_storeInvocation x s :
  owed x s ->
  wpc accounted (storeInvocation uuid_in jsonb cfg args model x) (fun r s' => r = Ok tt /\ owed x s' /\ kept s') s.
Proof.
  intros Hi. unfold storeInvocation. destruct (ledgered cfg args model) as [i|] eqn:Hl.
  2:{ apply wpc_return; [by eapply owed_acc|]. split_and!; [done..|]. intros k. unfold idempotencyKey. by rewrite Hl. }
  assert (Hkey : idempotencyKey cfg args model = Some (computeKey i)) by (unfold idempotencyKey; by rewrite Hl).
  apply wpc_attempt. apply wpc_mono with accounted (fun r s' => owed x s' /\ (r = Ok tt -> kept s')); [done| |].
  { intros [[]|e] s' Hacc [H1 H2]; [apply wpc_return; [done|]; split_and!; auto|].
    unfold metric_, swallow, try_. apply wpc_bind, wpc_attempt.
    apply (@wpc_call S outside answers R fault accounted (Metric (ledgerPurpose args) LedgerStoreFailed)); [by eapply owed_acc|].
    intros s2 g2 r Hs2 Ha.
    rewrite (h_metric _ Hh _ _ _ _ _ Ha). pose proof (owed_stable _ _ _ H1 Hs2) as H3.
    assert (H4 : owed x (s2.1, count_failure s2.2)) by exact H3.
    split; [by eapply owed_acc|].
    assert (kept (s2.1, count_failure s2.2)) by (intros k _; by right).
    destruct r; (apply wpc_return; [by eapply owed_acc|]); (apply wpc_return; [by eapply owed_acc|done]). }
  apply wpc_bind, (wpc_ask (owed x)); [apply owed_steady|apply owed_acc|done|done|].
  intros [now|e] s1 g1 H1 A1; [|by split].
  apply wpc_tx; [by eapply owed_acc|]. intros s2 Hs2. pose proof (owed_stable _ _ _ H1 Hs2) as H2.
  split; [by eapply owed_acc|]. split; [by split|]. split; [by split|].
  intros d2 u. destruct (store_ledger _ _ _ _ _ _ _ _) as [t|] eqn:Ht; [|done]. intros [= <- <-].
  assert (H3 : owed x (set_ledger t s2.1, s2.2)) by exact H2.
  split; [by eapply owed_acc|]. split; [|by split]. split; [done|]. intros _ k Hk. left.
  rewrite Hkey in Hk. injection Hk as <-. by eapply store_has.
Qed.

Definition bought (r : result llm_error json) (s : world) : Prop :=
  match r with Ok x => owed x s /\ kept s | Throw e => safe_error e /\ (idle s \/ held s) end.

Lemma wpc_provider requestId callId started s :
  held s ->
  wpc accounted (call_provider cfg_global cfg_org readCaps uuid_in jsonb cfg args model requestId callId started)
    bought s.
Proof.
  intros H4. apply wpc_attempt, wpc_call; [by apply held_acc|]. intros s5 g' r Hs5 A5.
  pose proof (held_stable _ _ H4 Hs5) as H5. pose proof (h_sdk _ Hh _ _ _ _ A5) as Hg.
  destruct r as [x|e]; rewrite Hg.
  2:{ assert (H6 : held (s5.1, s5.2)) by (by destruct s5). split; [by apply held_acc|].
      eapply wpc_mono, wpc_failed, H6; [done|]. intros r s6 _ (e' & -> & Hs & Hih). done. }
  assert (H6 : owed x (s5.1, pay_for x s5.2)).
  { destruct H5 as (P5 & O5 & R5). split_and!; [simpl; by rewrite P5|exact O5|exact R5]. }
  split; [by eapply owed_acc|]. apply wpc_bind. apply wpc_mono with accounted (fun r s' => r = Ok tt /\ owed x s'); [done| |].
  2:{ apply (wpc_steady (owed x)); [apply owed_steady|apply owed_acc|done|]. by apply tame_ledger_metric. }
  intros r s7 _ [-> H7]. apply wpc_bind. eapply wpc_mono, wpc_storeInvocation, H7; [done|]. intros r s8 Hacc8 [-> H8].
  by apply wpc_return.
Qed.

Lemma wpc_pay requestId started s :
  idle s ->
  wpc accounted (pay cfg_global cfg_org readCaps uuid_in jsonb archiveRedact cfg args model requestId started)
    bought s.
Proof.
  intros Hi. apply wpc_bind. apply wpc_mono with accounted (fun r s' => r = Ok tt /\ idle s'); [done| |].
  2:{ apply (wpc_steady idle); [apply idle_steady|apply idle_acc|done|]. by apply tame_ledger_metric. }
  clear s Hi. intros r s _ [-> Hi].
  apply wpc_bind. assert (Hask : wpc accounted (if a_signal args then @call S ThrowIfAborted else Return tt)
    (fun r s' => idle s' /\ forall e, r = Throw e -> safe_error e) s).
  { destruct (a_signal args); [|by apply wpc_return; [apply idle_acc|]].
    apply (wpc_ask idle); [apply idle_steady|apply idle_acc|done|done|]. intros r s' g H Ha. split; [done|].
    intros e ->. apply (h_errors _ Hh) in Ha. by rewrite Ha. }
  eapply wpc_mono, Hask; [done|]. clear Hask s Hi. intros [[]|e] s Hacc [Hi He]; [|split; [by apply He|by left]].
  apply wpc_bind. unfold ensure. destruct (negb _); [|apply wpc_raise; [by apply idle_acc|]; by split; [|left]].
  apply wpc_return; [by apply idle_acc|].
  apply wpc_bind, (wpc_ask idle); [apply idle_steady|apply idle_acc|done|done|].
  intros [now|e] s1 g1 H1 A1; [|split; [apply plain_safe; by apply (h_errors _ Hh) in A1|by left]].
  assert (now.2 = day) as -> by (destruct now; by eapply Hday).
  apply wpc_bind. eapply wpc_mono, wpc_reserve, H1; [done|]. intros [[]|e] s2 _ H2; [|done].
  apply wpc_bind, (wpc_steady held); [apply held_steady|apply held_acc|done|]. apply tame_journal. intros s3 H3.
  apply wpc_bind, (wpc_ask held); [apply held_steady|apply held_acc|done|done|].
  intros [blob|e] s4 g4 H4 A4; [|split; [apply plain_safe; by apply (h_errors _ Hh) in A4|by right]].
  by apply wpc_provider.
Qed.

Abbreviation finish_ := (finish cfg_global cfg_org readCaps uuid_in archiveRedact outputSafety cfg args model).
Abbreviation result_ := (result llm_error invoke_result).

Lemma ended_idle (r : result_) s : idle s -> ended r s.
Proof. intros H. destruct r as [|[]]; simpl; by left. Qed.
Lemma ended_settled x (r : result_) s : settled x s /\ kept s -> ended r s.
Proof. intros [H1 H2]. destruct r as [|[]]; simpl; eauto 6. Qed.
Lemma ended_owed x (e : llm_error) s : safe_error e -> owed x s /\ kept s -> ended (Throw e) s.
Proof. intros He [H1 H2]. destruct e; simpl; first [done|eauto 6]. Qed.

Definition settles (x : json) (s : world) : Prop := settled x s /\ kept s.

Lemma settles_steady x : steady (settles x).
Proof. apply and_steady; [apply settled_steady|apply kept_steady]. Qed.
Lemma settles_acc x s : settles x s -> accounted s.
Proof. intros [H _]. by eapply settled_acc. Qed.

(** Once the cost is on the books, nothing that follows moves it. *)
Lemma wpc_settled x (q : program invoke_result) s :
  settles x s -> tame aside q (fun _ => True) -> wpc accounted q ended s.
Proof.
  intros H Hq. apply (wpc_steady (settles x)); [apply settles_steady|apply settles_acc|done|].
  eapply tame_mono, Hq; [done|]. intros r _ s' H'. by eapply ended_settled.
Qed.

Lemma wpc_finish requestId started x s :
  owed x s /\ kept s -> wpc accounted (finish_ requestId started false x) ended s.
Proof.
  intros Hi. set (J s := owed x s /\ kept s).
  assert (HJ : steady J) by (apply and_steady; [apply owed_steady|apply kept_steady]).
  assert (HJa : forall s', J s' -> accounted s') by (intros s' [H _]; by eapply owed_acc).
  assert (HJe : forall e s', plain e -> J s' -> ended (Throw e) s')
    by (intros; eapply ended_owed; [by apply plain_safe|done]).
  unfold finish. apply wpc_bind, (wpc_ask J); [done..|].
  intros [fin|e] s1 g1 H1 A1; [|apply HJe; [by apply (h_errors _ Hh) in A1|done]].
  apply wpc_bind, (wpc_ask J); [done..|].
  intros [blob|e] s2 g2 H2 A2; [|apply HJe; [by apply (h_errors _ Hh) in A2|done]].
  cbn [negb andb]. apply wpc_bind, (wpc_steady J); [done..|].
  assert (Hgo : forall (Q : result llm_error unit -> Prop), Q (Ok tt) -> tame aside
    (if bool_decide (is_Some (a_cachePrefixMessages args))
     then metric_ (ledgerPurpose args) (CacheUsage (tokens_of "cache_read_input_tokens" x)
            (tokens_of "cache_creation_input_tokens" x) (tokens_of "input_tokens" x))
     else Return tt) Q) by (intros Q HQ; case_bool_decide; [by apply tame_metric|done]).
  apply Hgo. clear Hgo. intros s3 H3. apply wpc_bind, (wpc_ask J); [done..|].
  intros [now|e] s4 g4 H4 A4; [|apply HJe; [by apply (h_errors _ Hh) in A4|done]].
  apply wpc_bind, (wpc_steady J); [done..|]. apply tame_recordCall; [|intros s' H'; by apply HJe].
  intros s5 H5. apply wpc_bind, wpc_bind, (wpc_ask J); [done..|].
  intros [now'|e] s6 g6 H6 A6; [|apply HJe; [by apply (h_errors _ Hh) in A6|done]].
  assert (now'.2 = day) as -> by (destruct now'; by eapply Hday).
  apply wpc_bind, (wpc_ask J); [done..|].
  intros [c|e] s7 g7 H7 A7; [|apply HJe; [by apply (h_errors _ Hh) in A7|done]].
  apply wpc_bind, wpc_tx; [by apply HJa|]. intros s8 Hs8. assert (H8 : J s8) by (eapply (st_others _ HJ); done).
  split; [by apply HJa|]. split; [by apply HJe|]. split.
  { intros e. unfold lift_cost. destruct (pg_recordCallCost _ _ _ _ _ _ _ _ _); [done|]. intros [= <-].
    by eapply ended_owed. }
  intros d2 u. unfold lift_cost. destruct (pg_recordCallCost _ _ _ _ _ _ _ _ _) as [c'|] eqn:Hc; [|done].
  intros [= <- <-]. destruct s8 as [d8 g8]. destruct H8 as ((Hp & Ho & Hr) & Hk).
  assert (H9 : settled x (set_cost c' d8, g8) /\ kept (set_cost c' d8, g8)).
  { split; [|exact Hk]. split; [done|]. by eapply record_books. }
  split; [by eapply settled_acc, H9|]. split; [|by eapply ended_settled].
  apply (wpc_steady (settles x)); [apply settles_steady|apply settles_acc|exact H9|].
  apply tame_bind, tame_call; [done|]. intros [now''|e] _; [|intros s'; by apply ended_settled].
  apply tame_journal. intros s' H'. apply wpc_settled with x; [exact H'|]. apply tame_bind, tame_export.
  apply tame_bind. unfold ensure. by destruct (Safety.allow _).
Qed.

Lemma tame_look (Q : result llm_error (option json) -> Prop) :
  (forall o, Q (Ok o)) -> Q (Throw EDatabase) -> tame aside (look uuid_in cfg args model) Q.
Proof.
  intros H1 H2. unfold look. destruct (idempotencyKey cfg args model); [|by apply H1].
  apply tame_tx; [| |done].
  - intros d d' o. destruct (uuid_in iid); [|done]. by intros [= <- <-].
  - intros d e. destruct (uuid_in iid); [done|]. by intros [= <-].
Qed.

End Accounts.

(** * A concrete outside *)

Module Toy.

Definition org : string := "11111111-2222-4333-8444-555555555555".
Definition monday : string := "2026-06-15".
Definition tuesday : string := "2026-06-16".
Definition sonnet : string := "claude-sonnet-4-6".

Definition ex_args (i : option idem) : invoke_args :=
  InvokeArgs "primary" (Some sonnet) [Message "user" "Review this."%string] None None None org i false None.
Definition ex_idem : idem := Idem "r1" "c1" "v1" (Some "review_chunk"%string).
Definition ex_client : client := Client true false true.

(** A response of 600 tokens read and 50,000 written: 75 cents. *)
Definition ex_response : json :=
  JObj [("content", JArr [JObj [("type", JStr "text"); ("text", JStr "Looks good.")]]);
        ("stop_reason", JStr "end_turn");
        ("usage", JObj [("input_tokens", num 600); ("output_tokens", num 50000)])]%string.

Definition allow_all (_ : text) : Safety.decision := Safety.Decision_ true [] [] [].

Definition ex_db : llm_db := LlmDb ∅ (CostDb ∅ ∅ ∅) [] [].

Abbreviation ex_invoke c i := (invokeModel 100000 5000 true (fun _ => true) Some (fun s => s) allow_all c (ex_args i)).

(** The outside of the scenarios: the days the clock gives, and how many archive
    writes fail from now. *)
Record scene := Scene { sc_days : list string; sc_archive : list bool; sc_paid : Z }.

Definition serve (c : llm_call) (g : scene) : scene * result llm_error (llm_reply c) :=
  match c return scene * result llm_error (llm_reply c) with
  | Uuid4 => (g, Ok org)
  | Monotonic => (g, Ok 0)
  | Now => match sc_days g with
           | d :: ((_ :: _) as l) => (Scene l (sc_archive g) (sc_paid g), Ok (0, d))
           | [d] => (g, Ok (0, d))
           | [] => (g, Ok (0, monday))
           end
  | ThrowIfAborted => (g, Ok tt)
  | CostConditions => (g, Ok (CostEnv 0 true true))
  | Sdk _ => (Scene (sc_days g) (sc_archive g) (sc_paid g + 1), Ok ex_response)
  | BlobPut _ _ => match sc_archive g with
                   | true :: l => (Scene (sc_days g) l (sc_paid g), Ok "blob"%string)
                   | false :: l => (Scene (sc_days g) l (sc_paid g), Throw (EOther "Error" "archive down"))
                   | [] => (g, Ok "blob"%string)
                   end
  | Langfuse _ => (g, Ok tt)
  | Metric _ _ => (g, Ok tt)
  | Warn _ => (g, Ok tt)
  end.

Definition run (c : client) (i : option idem) (s : llm_db * scene) : result llm_error invoke_result * (llm_db * scene) :=
  @exec S scene serve _ (ex_invoke c i) s.

Definition total (day : string) (s : llm_db * scene) : Z := row_total (gkey day) (cost_daily (d_cost s.1)).
Definition fails {A} (r : result llm_error A) : bool := match r with Ok _ => false | Throw _ => true end.

(** An archive that is down before the provider is called: nothing is paid, and the
    estimate stays on the books, on both rows, without a release. *)
Example archive_failure_keeps_estimate :
  let out := run ex_client None (ex_db, Scene [monday] [false] 0) in
  fails out.1 = true /\ sc_paid out.2.2 = 0 /\ total monday out.2 = estimated (ex_args None) sonnet
  /\ estimated (ex_args None) sonnet = 1.
Proof. vm_compute. done. Qed.

(** An archive that is down after the provider answered, then back: the call is run
    again, the ledger gives the response, and the books hold the estimate of one
    cent for a response of 75 cents; the run that replays records nothing. *)
Example replay_never_settles :
  let first := run ex_client (Some ex_idem) (ex_db, Scene [monday] [true; false] 0) in
  let second := run ex_client (Some ex_idem) first.2 in
  fails first.1 = true /\ fails second.1 = false /\ sc_paid second.2.2 = 1
  /\ computedFinalCents sonnet ex_response = 75 /\ total monday second.2 = 1.
Proof. vm_compute. done. Qed.

(** A call that runs over midnight: the estimate stays on the first day, and the
    difference of cost and estimate goes to the second day: nowhere, when nothing has
    been reserved on that day yet, and else onto rows the call reserved nothing on. *)
Definition busy_tuesday : llm_db := set_cost (CostDb {[gkey tuesday := DailyRow 10 100000]} ∅ ∅) ex_db.
Example midnight_splits_the_books :
  let out := run (Client true false false) None (ex_db, Scene [monday; monday; tuesday] [] 0) in
  let out' := run (Client true false false) None (busy_tuesday, Scene [monday; monday; tuesday] [] 0) in
  fails out.1 = false /\ total monday out.2 = 1 /\ total tuesday out.2 = 0
  /\ fails out'.1 = false /\ total monday out'.2 = 1 /\ total tuesday out'.2 = 84.
Proof. vm_compute. done. Qed.

(** ** Witnesses *)

(** Everything may fail; the clock is on Monday. *)
Definition heard (c : llm_call) (g g' : outside) : result llm_error (llm_reply c) -> Prop :=
  match c with
  | Sdk _ => fun r => g' = match r with Ok x => pay_for x g | Throw _ => g end
  | Metric _ m => fun r => g' = match m with LedgerStoreFailed => count_failure g | _ => g end
                           /\ (forall e, r = Throw e -> plain e)
  | ThrowIfAborted => fun r => g' = g /\ (forall e, r = Throw e -> e = EAborted)
  | Now => fun r => g' = g /\ match r with Ok now => now.2 = monday | Throw e => plain e end
  | _ => fun r => g' = g /\ (forall e, r = Throw e -> plain e)
  end.

Lemma heard_honest : honest heard.
Proof.
  split.
  - intros q g g' []; simpl; auto.
  - by intros p m g g' r [-> _].
  - by intros [] g g' r; simpl; [intros [-> _]..|done|intros [-> _]|intros [-> _]|done|intros [-> _]].
  - by intros [] g g' e; simpl; [intros [-> H]; eauto..|done|intros [-> H]|intros [-> H]|intros [-> H]|intros [-> H]]; eauto.
Qed.

(** Another call puts three cents on the day, or nothing happens. *)
Definition charged (s : world) : world :=
  let m := cost_daily (d_cost s.1) in
  (set_cost (set_daily (<[gkey monday := DailyRow (row_total (gkey monday) m + 3) (row_cap (gkey monday) m)]> m)
                       (d_cost s.1)) s.1,
   Outside (paid s.2) (store_failed s.2) (others s.2 + 3)).
Definition mates (s s1 : world) : Prop := s1 = s \/ s1 = charged s.

Lemma mates_bystander : bystander monday 10 mates.
Proof.
  split; intros s s1; [| |intros k|intros k|]; intros [->| ->]; try done.
  - unfold own, charged. simpl. unfold row_total at 1. rewrite lookup_insert_eq. simpl. lia.
  - simpl. destruct (decide (k = gkey monday)) as [->|Hk]; [by rewrite lookup_insert_eq|].
    by rewrite lookup_insert_ne by congruence.
Qed.

(** The day holds ten cents of others before the call. *)
Definition ex_morning : llm_db := set_cost (CostDb {[gkey monday := DailyRow 10 100000]} ∅ ∅) ex_db.
Definition ex_world : world := (ex_morning, Outside [] false 0).
End Toy.


(** A ledger that holds the response of the call, and a cap that is spent. *)
Definition ex_inputs : key_inputs := key_inputs_of (Toy.ex_args (Some Toy.ex_idem)) Toy.sonnet Toy.ex_idem.
Definition ex_replayable : world :=
  (LlmDb {[computeKey ex_inputs := LedgerRow Toy.org ex_inputs Toy.ex_response 0]}
         (CostDb {[gkey Toy.monday := DailyRow 100000 100000]} ∅ ∅) [] [], Outside [] false 0).

Lemma idempotencyKey_of c args model i :
  has_ledger c = true -> a_idempotency args = Some i ->
  idempotencyKey c args model = Some (computeKey (key_inputs_of args model i)).
Proof. intros H1 H2. unfold idempotencyKey, ledgered. by rewrite H1, H2. Qed.

Lemma lookup_only key r :
  is_object (lr_response r) = true ->
  lookup_ledger key (lr_installation r) {[key := r]} = Some (lr_response r).
Proof.
  intros H. unfold lookup_ledger, lookup_row. rewrite lookup_singleton_eq, String.eqb_refl. by rewrite H.
Qed.

#[local] Opaque computeKey.

Lemma invokeModel_replays_witness :
  @wpc S outside Toy.heard Toy.mates fault _
    (fun s' => recorded Toy.ex_client (Toy.ex_args (Some Toy.ex_idem)) Toy.sonnet Toy.ex_response s'.1 /\
               row_total (gkey Toy.tuesday) (cost_daily (d_cost s'.1)) = 0 /\ paid s'.2 = [])
    (Toy.ex_invoke Toy.ex_client (Some Toy.ex_idem))
    (fun r _ => outcome_of Toy.allow_all Toy.sonnet Toy.ex_response r) ex_replayable.
Proof.
  apply (invokeModel_replays 100000 5000 true (fun _ => true) Some (fun s => s) Toy.allow_all Toy.ex_client
           (Toy.ex_args (Some Toy.ex_idem)) Toy.sonnet Toy.heard Toy.mates Toy.heard_honest Toy.ex_response
           (fun d => row_total (gkey Toy.tuesday) (cost_daily d) = 0) []).
  - reflexivity.
  - reflexivity.
  - intros s s1 [-> | ->] H; exact H.
  - intros s s1 [-> | ->]; (split; [reflexivity|]); [exact (fun H => H)|].
    intros H. unfold row_total, Toy.charged. simpl. rewrite lookup_insert_ne; [exact H|discriminate].
  - eexists. split; [apply idempotencyKey_of; reflexivity|]. apply (lookup_only _ (LedgerRow _ _ _ _)). reflexivity.
  - reflexivity.
  - reflexivity.
Defined.
