(* ===== verification/CostJournal.v ===== *)
(** [cost/cost_journal.ts] and [cost/cost_journal_reconciler.ts]: the signed journal
    of paid calls that runs beside the daily aggregate of [CostCap], its own cap
    decisions on sums of rows, the report of where the two accountings differ, and
    the pass that releases the reservations of dead calls.  A transaction that holds
    the lock of its day is one step.  Times are milliseconds. *)
From Stdlib Require Import QArith.
From stdpp Require Import base gmap sets list strings.
From Stdlib Require Import ZArith Lia Ascii Qround Qminmax Sorting.Sorted.
From S2P Require Import Prelude CostCap Retry.
Local Open Scope Z_scope.

(** * The table *)

(** [telemetry.cost_journal], keyed by [journal_id]. *)
Inductive entry_kind := reserve | settle | release.
#[export] Instance entry_kind_eq_dec : EqDecision entry_kind.
Proof. solve_decision. Defined.

Record entry := Entry {
  call_id : string;
  installation_id : string;
  e_today : string;
  kind : entry_kind;
  amount_cents : Z;
  closes_journal_id : option string;
  created_at : Z;
}.
Abbreviation journal := (gmap string entry).

Inductive journal_error :=
| JCost (e : cost_error)
| JInvalidText                (* not a uuid, not a date *)
| JCheckViolation
| JUniqueViolation.           (* the primary key, [uq_cost_journal_closes] *)

(** The CHECK constraints. *)
Definition row_checks (e : entry) : bool :=
  match kind e with
  | reserve => (0 <=? amount_cents e) && bool_decide (closes_journal_id e = None)
  | settle => bool_decide (closes_journal_id e = None)
  | release => amount_cents e <=? 0
  end.

(** [COALESCE(SUM(amount_cents), 0) ... WHERE p]. *)
Definition sum_where (p : entry -> bool) (j : journal) : Z :=
  map_fold (fun _ e n => (if p e then amount_cents e else 0) + n) 0 j.

Definition on_day (today : string) (e : entry) : bool := String.eqb (e_today e) today.
Definition of_org (today inst : string) (e : entry) : bool :=
  on_day today e && String.eqb (installation_id e) inst.

(** * The journal *)

Section Journal.
(** The constructor arguments; what Postgres reads as a uuid and as a date. *)
Variables (globalCap perOrgCap : Z).
Variable typed : string -> string -> bool.

Definition append (id : string) (e : entry) (j : journal) : result journal_error journal :=
  guard? typed (installation_id e) (e_today e) else JInvalidText in
  guard? row_checks e else JCheckViolation in
  guard? bool_decide (j !! id = None) else JUniqueViolation in
  Ok (<[id := e]> j).

Definition appendReserve (id callId : string) (a : call) (now : Z) (j : journal) : result journal_error journal :=
  guard? (0 <=? c_estimated a) else JCost RangeErrorCents in
  append id (Entry callId (c_installation a) (c_today a) reserve (c_estimated a) None now) j.

Definition appendSettle (id callId : string) (installation today : string) (amount now : Z) (j : journal)
    : result journal_error journal :=
  append id (Entry callId installation today settle amount None now) j.

Definition sumForDay (today : string) (installation : option string) (j : journal) : Z :=
  match installation with
  | Some inst => sum_where (of_org today inst) j
  | None => sum_where (on_day today) j
  end.

(** [lockDay]: whether the lock of the day was granted within [lock_timeout]. *)
Definition checkOrRaise (locked : bool) (id callId : string) (a : call) (now : Z) (j : journal)
    : result journal_error (journal * decision) :=
  guard? (0 <=? c_estimated a) else JCost RangeErrorCents in
  guard? locked else JCost CostCapLockTimeout in
  let globalTotal := sumForDay (c_today a) None j in
  let orgTotal := if platform a then 0 else sumForDay (c_today a) (Some (c_installation a)) j in
  guard? (globalTotal + c_estimated a <=? globalCap) else JCost (BedrockBudgetExceeded "global") in
  guard? (platform a || (orgTotal + c_estimated a <=? perOrgCap)) else JCost (BedrockBudgetExceeded "per_org") in
  let? j' := append id (Entry callId (c_installation a) (c_today a) reserve (c_estimated a) None now) j in
  Ok (j', Decision globalTotal orgTotal (c_estimated a)).

(** The zero settle is appended too. *)
Definition recordCallCost (locked : bool) (id callId : string) (a : call) (cost now : Z) (j : journal)
    : result journal_error journal :=
  guard? (0 <=? cost) else JCost RangeErrorCents in
  guard? locked else JCost CostCapLockTimeout in
  append id (Entry callId (c_installation a) (c_today a) settle (cost - c_estimated a) None now) j.
End Journal.

(** * Where the two accountings differ *)

Inductive div_scope := global | per_org.
Record divergence := Divergence {
  d_scope : div_scope;
  d_scopeId : string;
  aggregateCents : Z;
  journalCents : Z;
}.

(** [GROUP BY installation_id]: the installations of the day, each once. *)
Definition groups (today : string) (j : journal) : gset string :=
  map_fold (fun _ e s => if on_day today e then {[installation_id e]} ∪ s else s) ∅ j.

(** The rows of the day in [cost_daily], by scope. *)
Definition day_rows (today : string) (m : gmap (string * string) daily_row) : gset string :=
  map_fold (fun k _ s => if String.eqb k.1 today then {[k.2]} ∪ s else s) ∅ m.

Definition divergenceFromAggregate (today : string) (db : cost_db) (j : journal) : list divergence :=
  let cents inst := sum_where (of_org today inst) j in
  let journalGlobal := foldr (fun inst n => cents inst + n) 0 (elements (groups today j)) in
  let aggregateGlobal := row_total (gkey today) (cost_daily db) in
  let journalOrg := groups today j ∖ {[ZERO_UUID]} in
  let aggregateOrg := day_rows today (cost_daily db) ∖ {[ZERO_UUID]} in
  let orgIds := sort_by str_leb (elements (aggregateOrg ∪ journalOrg)) in
  (if aggregateGlobal =? journalGlobal then [] else [Divergence global ZERO_UUID aggregateGlobal journalGlobal])
  ++ omap (fun inst =>
       let a := row_total (okey today inst) (cost_daily db) in
       let c := if bool_decide (inst ∈ journalOrg) then cents inst else 0 in
       if a =? c then None else Some (Divergence per_org inst a c)) orgIds.

(** * The reconciler *)

Definition of_call (c : string) (k : entry_kind -> bool) (j : journal) : journal :=
  filter (fun p : string * entry => call_id p.2 = c /\ k (kind p.2) = true) j.
Definition is_reserve (k : entry_kind) : bool := bool_decide (k = reserve).
Definition is_closer (k : entry_kind) : bool := bool_decide (k <> reserve).

Definition n_open (c : string) (j : journal) : Z :=
  Z.of_nat (size (of_call c is_reserve j)) - Z.of_nat (size (of_call c is_closer j)).

(** Every reserve of the call is older than the cutoff. *)
Definition aged (c : string) (cutoff : Z) (j : journal) : bool :=
  bool_decide (map_Forall (fun _ e => created_at e < cutoff) (of_call c is_reserve j)).

Definition open_call (c : string) (cutoff : Z) (j : journal) : bool :=
  (0 <? n_open c j) && aged c cutoff j.

Definition closed (id : string) (j : journal) : bool :=
  bool_decide (~ map_Forall (fun _ e => closes_journal_id e <> Some id) j).

(** [ORDER BY created_at, journal_id]. *)
Definition older (a b : string * entry) : bool :=
  (created_at a.2 <? created_at b.2) || ((created_at a.2 =? created_at b.2) && str_leb a.1 b.1).

(** The reserves of the call that no release closes, the oldest [n_open] of them. *)
Definition candidates_of (c : string) (j : journal) : list (string * entry) :=
  take (Z.to_nat (n_open c j))
    (sort_by older (map_to_list (filter (fun p : string * entry => closed p.1 j = false) (of_call c is_reserve j)))).

Definition calls (j : journal) : gset string :=
  map_fold (fun _ e s => {[call_id e]} ∪ s) ∅ j.

Definition candidates (cutoff : Z) (j : journal) : list (string * entry) :=
  c ← filter (fun c => open_call c cutoff j = true) (elements (calls j)); candidates_of c j.

Definition release_row (p : string * entry) (now : Z) : entry :=
  Entry (call_id p.2) (installation_id p.2) (e_today p.2) release (- amount_cents p.2) (Some p.1) now.

(** [INSERT ... ON CONFLICT (closes_journal_id) DO NOTHING], counted; [fresh] gives
    the new [journal_id]. *)
Definition insert_release (fresh : string -> string) (now : Z) (p : string * entry) (s : journal * Z) : journal * Z :=
  if closed p.1 s.1 then s else (<[fresh p.1 := release_row p now]> s.1, s.2 + 1).

(** The statement selects in the state [seen] its snapshot holds, and inserts into
    the one it finds. *)
Definition release_statement (fresh : string -> string) (now cutoff : Z) (seen j : journal) : journal * Z :=
  foldr (insert_release fresh now) (j, 0) (candidates cutoff seen).

Definition releaseOrphanedReserves (fresh : string -> string) (olderThanSeconds now : Z) (seen j : journal)
    : result journal_error (journal * Z) :=
  guard? negb (olderThanSeconds <=? 0) else JCost RangeErrorCents in
  Ok (release_statement fresh now (now - olderThanSeconds * 1000) seen j).

(** ** The window *)

Inductive window_error := NoStartToCloseTimeout | UnsupportedDuration | TooFewAttempts | NoInitialInterval.

Definition RETRY_ENVELOPE_JITTER_MAX : Q := 5 # 4.

(** [/^(\d+(?:\.\d+)?)s$/]. *)
Definition parseSecondsStrict (d : string) : result window_error Q :=
  let '(int, r) := span_digits d in
  guard? negb (String.eqb int "") else UnsupportedDuration in
  let n := inject_Z (JsString.number_of_digits int) in
  match r with
  | String "." r1 =>
      let '(frac, r2) := span_digits r1 in
      guard? negb (String.eqb frac "") && String.eqb r2 "s" else UnsupportedDuration in
      Ok (n + (JsString.number_of_digits frac # Pos.pow 10 (Pos.of_nat (String.length frac))))%Q
  | _ => guard? String.eqb r "s" else UnsupportedDuration in Ok n
  end.

(** [Math.min] with a cap that may be infinite. *)
Definition capped (interval : Q) (maxIntervalS : option Q) : Q :=
  match maxIntervalS with Some m => Qmin interval m | None => interval end.

Fixpoint sleep_sum (gaps : nat) (interval backoff : Q) (maxIntervalS : option Q) : Q :=
  match gaps with
  | O => 0
  | S g => capped interval maxIntervalS + sleep_sum g (interval * backoff) backoff maxIntervalS
  end.

Definition worstCaseWallTimeSeconds (policy : retry_options) : result window_error Q :=
  match startToCloseTimeout policy with
  | None => Throw NoStartToCloseTimeout
  | Some t =>
      let? startToCloseS := parseSecondsStrict t in
      let attempts := default 1%nat (maximumAttempts policy) in
      guard? (1 <=? attempts)%nat else TooFewAttempts in
      if Nat.eqb attempts 1 then Ok startToCloseS
      else match initialInterval policy with
           | None => Throw NoInitialInterval
           | Some i =>
               let? initialS := parseSecondsStrict i in
               let? maxIntervalS := match maximumInterval policy with
                                    | Some m => let? q := parseSecondsStrict m in Ok (Some q)
                                    | None => Ok None
                                    end in
               let sleepS := sleep_sum (attempts - 1) initialS (default 2%Q (backoffCoefficient policy)) maxIntervalS in
               Ok (inject_Z (Z.of_nat attempts) * startToCloseS + sleepS * RETRY_ENVELOPE_JITTER_MAX)%Q
           end
  end.

Definition RECONCILE_WINDOW_SECONDS : result window_error Z :=
  match policy_by_port "reviewChunk" with
  | Some policy => let? w := worstCaseWallTimeSeconds policy in Ok (Qceiling (2 * w))
  | None => Throw NoStartToCloseTimeout
  end.

(** * Lemmas: sums *)

Lemma sum_where_empty p : sum_where p ∅ = 0.
Proof. unfold sum_where. by rewrite map_fold_empty. Qed.

Lemma sum_where_insert p id e j :
  j !! id = None ->
  sum_where p (<[id := e]> j) = (if p e then amount_cents e else 0) + sum_where p j.
Proof.
  intros Hid. unfold sum_where. rewrite map_fold_insert_L; [done| |done].
  intros i1 i2 e1 e2 n _ _ _. lia.
Qed.

Lemma sum_where_delete p id e j :
  j !! id = Some e ->
  sum_where p (delete id j) = sum_where p j - (if p e then amount_cents e else 0).
Proof.
  intros Hid. rewrite <- (insert_delete_id j id e Hid) at 2.
  rewrite sum_where_insert by apply lookup_delete_eq. lia.
Qed.

Lemma sum_where_ext p q j :
  (forall id e, j !! id = Some e -> p e = q e) -> sum_where p j = sum_where q j.
Proof.
  induction j as [|id e j Hid IH] using map_ind; intros H; [by rewrite !sum_where_empty|].
  rewrite !sum_where_insert by done. rewrite (H id e) by apply lookup_insert_eq. f_equal. apply IH.
  intros id' e' He. apply (H id' e'). by rewrite lookup_insert_ne by congruence.
Qed.

Lemma append_ok typed id e j j' :
  append typed id e j = Ok j' ->
  typed (installation_id e) (e_today e) = true /\ row_checks e = true /\ j !! id = None /\ j' = <[id := e]> j.
Proof.
  unfold append. destruct (typed _ _); [|done]. destruct (row_checks e); [|done].
  case_bool_decide; [|done]. by intros [= <-].
Qed.

Lemma append_succeeds typed id e j :
  typed (installation_id e) (e_today e) = true -> row_checks e = true -> j !! id = None ->
  append typed id e j = Ok (<[id := e]> j).
Proof. intros H1 H2 H3. unfold append. rewrite H1, H2. by rewrite bool_decide_eq_true_2. Qed.

(** * The journal decides as the aggregate does *)

(** Both hold the same spend, of every day and of every installation. *)
Record agrees (db : cost_db) (j : journal) : Prop := Agrees {
  ag_global today : row_total (gkey today) (cost_daily db) = sum_where (on_day today) j;
  ag_org today inst : inst <> ZERO_UUID ->
    row_total (okey today inst) (cost_daily db) = sum_where (of_org today inst) j;
}.

Definition same_outcome (x : result cost_error (cost_db * decision))
    (y : result journal_error (journal * decision)) : Prop :=
  match x, y with
  | Ok (_, d), Ok (_, d') => d = d'
  | Throw e, Throw (JCost e') => e = e'
  | _, _ => False
  end.

Lemma agrees_insert db db' j id callId a k n closes now :
  agrees db j -> j !! id = None ->
  (forall key, row_total key (cost_daily db') =
     row_total key (cost_daily db) + (if touches key a then n else 0)) ->
  agrees db' (<[id := Entry callId (c_installation a) (c_today a) k n closes now]> j).
Proof.
  intros [Hg Ho] Hid Ht. split.
  - intros today. rewrite Ht, Hg, sum_where_insert by done. unfold touches, on_day. simpl.
    destruct (String.eqb_spec (c_today a) today) as [->|Hne].
    + rewrite bool_decide_eq_true_2 by auto. lia.
    + rewrite bool_decide_eq_false_2; [lia|]. unfold gkey, okey. intros [[= E]|[= E _]]; congruence.
  - intros today inst Hz. rewrite Ht, Ho, sum_where_insert by done. unfold touches, of_org, on_day. simpl.
    destruct (String.eqb_spec (c_today a) today) as [->|Hne]; simpl.
    + destruct (String.eqb_spec (c_installation a) inst) as [->|Hne].
      * rewrite bool_decide_eq_true_2 by auto. lia.
      * rewrite bool_decide_eq_false_2; [lia|]. unfold gkey, okey. intros [[= E]|[= E]]; congruence.
    + rewrite bool_decide_eq_false_2; [lia|]. unfold gkey, okey. intros [[= E E']|[= E _]]; congruence.
Qed.

Section Twins.
Variables (cfg_global cfg_org : Z).
Variable typed : string -> string -> bool.

Abbreviation agg_check now locked ok := (pg_checkOrRaise cfg_global cfg_org false now locked ok).
Abbreviation agg_record now ok := (pg_recordCallCost cfg_global cfg_org false now true ok).
Abbreviation jnl_check locked := (checkOrRaise cfg_global cfg_org typed locked).

(** The aggregate's two gates, without the tables. *)
Lemma pg_check_decides now locked ok db a :
  match agg_check now locked ok db a with
  | Ok (_, d) =>
      0 <= c_estimated a /\ locked = true /\
      d = Decision (row_total (gkey (c_today a)) (cost_daily db))
            (if platform a then 0 else row_total (okey (c_today a) (c_installation a)) (cost_daily db))
            (c_estimated a) /\
      row_total (gkey (c_today a)) (cost_daily db) + c_estimated a <= cfg_global /\
      (platform a = false ->
       row_total (okey (c_today a) (c_installation a)) (cost_daily db) + c_estimated a <= cfg_org)
  | Throw RangeErrorCents => c_estimated a < 0
  | Throw CostCapLockTimeout => 0 <= c_estimated a /\ locked = false
  | Throw (BedrockBudgetExceeded s) =>
      0 <= c_estimated a /\ locked = true /\
      ((s = "global"%string /\ cfg_global < row_total (gkey (c_today a)) (cost_daily db) + c_estimated a) \/
       (s = "per_org"%string /\ row_total (gkey (c_today a)) (cost_daily db) + c_estimated a <= cfg_global /\
        platform a = false /\
        cfg_org < row_total (okey (c_today a) (c_installation a)) (cost_daily db) + c_estimated a))
  | Throw _ => False
  end.
Proof.
  unfold pg_checkOrRaise. destruct (Z.leb_spec 0 (c_estimated a)); [|done].
  destruct locked; [|done]. cbn [negb aborted andb].
  fold (gate_table cfg_global cfg_org false now ok db a). set (m := gate_table _ _ _ _ _ db a).
  pose proof (gate_table_caps cfg_global cfg_org false now ok db a) as [Hcg Hco]. fold m in Hcg, Hco.
  change (resolve_global cfg_global false ok db) with cfg_global in Hcg.
  assert (Ht : forall k, row_total k m = row_total k (cost_daily db)) by apply gate_table_total.
  destruct (gate (gkey (c_today a)) _ m) as [[m3 g]|] eqn:Eg.
  2:{ pose proof (gate_table_has_global cfg_global cfg_org false now ok db a) as Hr. fold m in Hr.
      pose proof (gate_None _ _ _ Hr Eg) as Hlt. rewrite Hcg, Ht in Hlt.
      unfold readDailyRow. destruct Hr as [r ->]. simpl. auto. }
  apply gate_Some in Eg as (Hg & Hgc & Hgt & Hgcap & Hgo). rewrite Hcg in Hgc. rewrite Ht in Hg.
  destruct (platform a) eqn:Ep; [split_and!; try done; [f_equal; lia|lia]|].
  specialize (Hco eq_refl). change (resolve_org cfg_org false now ok (c_installation a) db) with cfg_org in Hco.
  assert (Hm3 : m3 !! okey (c_today a) (c_installation a) = m !! okey (c_today a) (c_installation a))
    by (by apply Hgo, keys_ne).
  assert (Ht3 : row_total (okey (c_today a) (c_installation a)) m3 =
                row_total (okey (c_today a) (c_installation a)) (cost_daily db)).
  { rewrite <- Ht. unfold row_total. by rewrite Hm3. }
  assert (Hc3 : row_cap (okey (c_today a) (c_installation a)) m3 = cfg_org).
  { rewrite <- Hco. unfold row_cap. by rewrite Hm3. }
  destruct (gate (okey _ _) _ m3) as [[m4 o]|] eqn:Eo.
  - apply gate_Some in Eo as (Ho & Hoc & _). rewrite Hc3 in Hoc. rewrite Ht3 in Ho.
    split_and!; try done; [f_equal; lia|lia|intros _; lia].
  - pose proof (gate_table_has_org cfg_global cfg_org false now ok db a Ep) as Hr. fold m in Hr. rewrite <- Hm3 in Hr.
    pose proof (gate_None _ _ _ Hr Eo) as Hlt. rewrite Hc3, Ht3 in Hlt.
    unfold readDailyRow. destruct Hr as [r ->]. simpl. split_and!; [done..|]. right. split_and!; [done|lia|done..].
Qed.

Lemma jnl_check_same now locked ok db a id callId jnow j :
  typed (c_installation a) (c_today a) = true -> j !! id = None -> agrees db j ->
  same_outcome (agg_check now locked ok db a) (jnl_check locked id callId a jnow j).
Proof.
  intros Hty Hid Hag. pose proof (pg_check_decides now locked ok db a) as H.
  assert (Hg := ag_global _ _ Hag (c_today a)).
  assert (Ho : platform a = false -> row_total (okey (c_today a) (c_installation a)) (cost_daily db) =
    sum_where (of_org (c_today a) (c_installation a)) j).
  { intros Hz%platform_false. by apply (ag_org _ _ Hag). }
  unfold checkOrRaise, sumForDay. rewrite <- Hg.
  destruct (agg_check now locked ok db a) as [[db' d]|e]; simpl.
  - destruct H as (He & -> & -> & Hcg & Hco). rewrite (proj2 (Z.leb_le 0 _)) by done.
    rewrite (proj2 (Z.leb_le (_ + _) cfg_global)) by done.
    destruct (platform a) eqn:Ep; cbn [orb].
    + rewrite append_succeeds; simpl; [done..| |done]. by apply andb_true_iff; split; [apply Z.leb_le|].
    + rewrite <- Ho by done. rewrite (proj2 (Z.leb_le (_ + _) cfg_org)) by auto.
      rewrite append_succeeds; simpl; [done..| |done]. by apply andb_true_iff; split; [apply Z.leb_le|].
  - destruct e; try done.
    + destruct (Z.leb_spec 0 (c_estimated a)); [lia|done].
    + destruct H as (He & -> & H). rewrite (proj2 (Z.leb_le 0 _)) by done.
      destruct H as [[-> H]|(-> & H1 & Ep & H2)].
      * by rewrite (proj2 (Z.leb_gt _ cfg_global)).
      * rewrite (proj2 (Z.leb_le _ cfg_global)) by done. rewrite Ep, <- Ho by done.
        by rewrite (proj2 (Z.leb_gt _ cfg_org)).
    + destruct H as [He ->]. by rewrite (proj2 (Z.leb_le 0 _)).
Qed.

(** One operation of the client, on the aggregate and on the journal, refused or
    not; settlements are of calls that hold a reservation, as the client makes them. *)
Inductive twin_step : books * journal -> books * journal -> Prop :=
| twin_check b j locked ok now id callId a jnow :
    typed (c_installation a) (c_today a) = true -> j !! id = None ->
    twin_step (b, j)
      (match agg_check now locked ok (b_db b) a with
       | Ok (db', _) => Books db' (a :: b_inflight b) (b_settled b) | Throw _ => b end,
       match jnl_check locked id callId a jnow j with Ok (j', _) => j' | Throw _ => j end)
| twin_record b j l1 a l2 cost ok now id callId jnow :
    b_inflight b = l1 ++ a :: l2 ->
    typed (c_installation a) (c_today a) = true -> j !! id = None ->
    twin_step (b, j)
      (match agg_record now ok (b_db b) a cost with
       | Ok db' => Books db' (l1 ++ l2) ((a, cost) :: b_settled b) | Throw _ => b end,
       match recordCallCost typed true id callId a cost jnow j with Ok j' => j' | Throw _ => j end).

Lemma jnl_check_Ok locked id callId a jnow j j' d :
  jnl_check locked id callId a jnow j = Ok (j', d) ->
  j !! id = None /\
  j' = <[id := Entry callId (c_installation a) (c_today a) reserve (c_estimated a) None jnow]> j.
Proof.
  unfold checkOrRaise. destruct (0 <=? _); [|done]. destruct locked; [|done].
  destruct (_ <=? cfg_global); [|done]. destruct (_ || _); [|done].
  intros H. apply rbind_ok in H as (j1 & H1 & [= <- <-]). by apply append_ok in H1 as (_ & _ & ? & ->).
Qed.

(** A settlement of a call that holds a reservation succeeds on both sides. *)
Lemma twin_settles db0 b j a cost ok now id callId jnow :
  (forall k, 0 <= row_total k (cost_daily db0)) -> balanced db0 b -> a ∈ b_inflight b -> 0 <= cost ->
  typed (c_installation a) (c_today a) = true -> j !! id = None -> agrees (b_db b) j ->
  exists db' j', agg_record now ok (b_db b) a cost = Ok db' /\
    recordCallCost typed true id callId a cost jnow j = Ok j' /\ agrees db' j'.
Proof.
  intros H0 Hb Hin Hcost Hty Hid Hag. destruct (bal_rows _ _ Hb a Hin) as [Hg Ho].
  assert (Hok : is_ok (agg_record now ok (b_db b) a cost) = true).
  { apply pg_record_settles; try done; apply (in_flight_covered db0 b); try done;
      apply bool_decide_eq_true_2; auto. }
  destruct (agg_record now ok (b_db b) a cost) as [db'|] eqn:Hr; [|done]. exists db'.
  eexists. split; [done|]. split.
  { unfold recordCallCost. rewrite (proj2 (Z.leb_le 0 cost)) by done. by apply append_succeeds. }
  apply agrees_insert with (b_db b); [done|done|]. intros key.
  apply pg_record_Ok in Hr as [_ Hr]; [|done|done]. rewrite Hr. unfold touches.
  by destruct (decide _) as [D|D]; [rewrite bool_decide_eq_true_2|rewrite bool_decide_eq_false_2].
Qed.

Definition twinned (db0 : cost_db) (t : books * journal) : Prop :=
  balanced db0 t.1 /\ agrees (b_db t.1) t.2.

Lemma twin_step_twinned db0 t t' :
  (forall k, 0 <= row_total k (cost_daily db0)) -> twinned db0 t -> twin_step t t' -> twinned db0 t'.
Proof.
  intros H0 [Hb Hag] Hs.
  destruct Hs as [b j locked ok now id callId a jnow Hty Hid|b j l1 a l2 cost ok now id callId jnow Hin Hty Hid];
    simpl in Hb, Hag.
  - pose proof (jnl_check_same now locked ok (b_db b) a id callId jnow j Hty Hid Hag) as Hsame.
    destruct (agg_check now locked ok (b_db b) a) as [[db' d]|e] eqn:Ha;
      destruct (jnl_check locked id callId a jnow j) as [[j' d']|e'] eqn:Hj; try done.
    apply jnl_check_Ok in Hj as [_ ->]. split; simpl.
    + by eapply balanced_step, b_reserve, Ha.
    + apply agrees_insert with (b_db b); [done|done|]. by apply pg_check_rows in Ha as (_ & _ & _ & Ht).
  - destruct (Z.leb_spec 0 cost) as [Hc|Hc].
    + destruct (twin_settles db0 b j a cost ok now id callId jnow) as (db' & j' & Ha & Hj & Hag'); try done.
      { rewrite Hin. set_solver. }
      rewrite Ha, Hj. split; [|done]. by eapply balanced_step, b_settle, Ha.
    + unfold recordCallCost, pg_recordCallCost. by rewrite (proj2 (Z.leb_gt 0 cost)).
Qed.

End Twins.

(** * Lemmas: what is open and what is closed *)

Lemma closed_true id j : closed id j = true <-> exists i e, j !! i = Some e /\ closes_journal_id e = Some id.
Proof.
  unfold closed. rewrite bool_decide_eq_true. split.
  - intros H. destruct (decide (map_Exists (fun _ e => closes_journal_id e = Some id) j)) as [(i & e & ? & ?)|Hn];
      [by exists i, e|]. exfalso. apply H. intros i e He Hc. apply Hn. by exists i, e.
  - intros (i & e & Hi & He) H. by apply (H i e Hi).
Qed.

Lemma closed_insert id i e j :
  j !! i = None ->
  closed id (<[i := e]> j) = closed id j || bool_decide (closes_journal_id e = Some id).
Proof.
  intros Hi. apply eq_true_iff_eq. rewrite orb_true_iff, bool_decide_eq_true, !closed_true. split.
  - intros (i' & e' & H & Hc). apply lookup_insert_Some in H as [[<- <-]|[_ H]]; eauto.
  - intros [(i' & e' & H & Hc)|H].
    + exists i', e'. split; [|done]. rewrite lookup_insert_ne; [done|congruence].
    + exists i, e. by rewrite lookup_insert_eq.
Qed.

Lemma closed_mono id j j' : j ⊆ j' -> closed id j = true -> closed id j' = true.
Proof. rewrite !closed_true. intros Hs (i & e & Hi & He). exists i, e. split; [|done]. by eapply lookup_weaken. Qed.

(** What holds of every row. *)
Record journal_ok (j : journal) : Prop := JournalOk {
  ok_checks id e : j !! id = Some e -> row_checks e = true;
  (** a release takes back one reserve, of the same call, day and installation, *)
  ok_release id e : j !! id = Some e -> kind e = release ->
    exists r e0, closes_journal_id e = Some r /\ j !! r = Some e0 /\ kind e0 = reserve /\
      call_id e = call_id e0 /\ installation_id e = installation_id e0 /\ e_today e = e_today e0 /\
      amount_cents e = - amount_cents e0;
  (** and no reserve is taken back twice *)
  ok_unique i1 i2 e1 e2 r : j !! i1 = Some e1 -> j !! i2 = Some e2 ->
    closes_journal_id e1 = Some r -> closes_journal_id e2 = Some r -> i1 = i2;
}.

Lemma closes_only_release e r : row_checks e = true -> closes_journal_id e = Some r -> kind e = release.
Proof.
  unfold row_checks. destruct (kind e); [|intros H%bool_decide_eq_true; congruence|done].
  intros [_ H%bool_decide_eq_true]%andb_true_iff. congruence.
Qed.

Lemma ok_closed id j : journal_ok j -> closed id j = true -> exists e, j !! id = Some e /\ kind e = reserve.
Proof.
  intros Hj (i & e & Hi & He)%closed_true.
  pose proof (closes_only_release _ _ (ok_checks _ Hj _ _ Hi) He) as Hk.
  destruct (ok_release _ Hj _ _ Hi Hk) as (r & e0 & Hr & Hj0 & Hk0 & _). assert (r = id) as -> by congruence. eauto.
Qed.

Lemma ok_fresh id j : journal_ok j -> j !! id = None -> closed id j = false.
Proof. intros Hj Hid. apply not_true_is_false. intros (e & He & _)%ok_closed; [|done]. congruence. Qed.

(** The reserves that no release has taken back. *)
Definition live (j : journal) : journal :=
  filter (fun p : string * entry => is_reserve (kind p.2) && negb (closed p.1 j) = true) j.

(** A set of rows that depends on the scope alone. *)
Definition at_scope (p : string -> string -> bool) (e : entry) : bool := p (installation_id e) (e_today e).

(** The sum of a scope is that of its live reserves and its settlements. *)
Definition adds_up (j : journal) : Prop :=
  forall p, sum_where (at_scope p) j =
    sum_where (at_scope p) (live j) + sum_where (fun e => at_scope p e && bool_decide (kind e = settle)) j.

Record journal_inv (j : journal) : Prop := JournalInv { inv_ok : journal_ok j; inv_sum : adds_up j }.

Lemma empty_inv : journal_inv ∅.
Proof.
  split; [split; intros *; by rewrite lookup_empty|]. intros p. unfold live.
  rewrite map_filter_empty, !sum_where_empty. done.
Qed.

Lemma ok_insert_plain id e j :
  journal_ok j -> j !! id = None -> row_checks e = true -> kind e <> release ->
  closes_journal_id e = None -> journal_ok (<[id := e]> j).
Proof.
  intros Hj Hid Hc Hk Hn. split.
  - intros i e' [[<- <-]|[_ H]]%lookup_insert_Some; [done|by eapply ok_checks].
  - intros i e' [[<- <-]|[_ H]]%lookup_insert_Some Hr; [done|].
    destruct (ok_release _ Hj _ _ H Hr) as (r & e0 & H1 & H2 & H3). exists r, e0. split; [done|].
    split; [|done]. rewrite lookup_insert_ne; [done|congruence].
  - intros i1 i2 e1 e2 r [[<- <-]|[_ H1]]%lookup_insert_Some [[<- <-]|[_ H2]]%lookup_insert_Some; try congruence.
    by apply (ok_unique _ Hj).
Qed.

Lemma live_insert_plain id e j :
  journal_ok j -> j !! id = None -> closes_journal_id e = None ->
  live (<[id := e]> j) = if is_reserve (kind e) then <[id := e]> (live j) else live j.
Proof.
  intros Hj Hid Hn. unfold live.
  assert (Hc : forall i, closed i (<[id := e]> j) = closed i j).
  { intros i. rewrite closed_insert by done. rewrite bool_decide_eq_false_2 by congruence. by rewrite orb_false_r. }
  transitivity (filter (fun p : string * entry => is_reserve (kind p.2) && negb (closed p.1 j) = true) (<[id:=e]> j)).
  { apply map_filter_ext. intros i x _. simpl. by rewrite Hc. }
  destruct (is_reserve (kind e)) eqn:Hk.
  - rewrite map_filter_insert_True; [done|]. simpl. by rewrite Hk, (ok_fresh _ _ Hj Hid).
  - rewrite map_filter_insert_False by (simpl; by rewrite Hk). by rewrite delete_id.
Qed.

Lemma inv_insert_plain id e j :
  journal_inv j -> j !! id = None -> row_checks e = true -> kind e <> release ->
  closes_journal_id e = None -> journal_inv (<[id := e]> j).
Proof.
  intros [Hj Hs] Hid Hc Hk Hn. split; [by apply ok_insert_plain|]. intros p.
  rewrite live_insert_plain, !sum_where_insert, Hs by done.
  assert (Hl : live j !! id = None) by (unfold live; apply map_lookup_filter_None; auto).
  destruct (kind e) eqn:Ek; [| |done]; simpl; rewrite ?andb_false_r, ?andb_true_r, ?sum_where_insert by done; lia.
Qed.

Section Release.
Variables (id r : string) (e0 : entry) (now : Z) (j : journal).
Hypothesis Hj : journal_inv j.
Hypothesis Hid : j !! id = None.
Hypothesis Hr : j !! r = Some e0.
Hypothesis Hk : kind e0 = reserve.
Hypothesis Hopen : closed r j = false.

Lemma ok_insert_release : journal_ok (<[id := release_row (r, e0) now]> j).
Proof.
  destruct Hj as [Hok _]. assert (Hne : id <> r) by congruence. split.
  - intros i e [[<- <-]|[_ H]]%lookup_insert_Some; [|by eapply ok_checks].
    pose proof (ok_checks _ Hok _ _ Hr) as Hc. unfold row_checks in *. rewrite Hk in Hc. simpl.
    apply andb_true_iff in Hc as [?%Z.leb_le _]. apply Z.leb_le. lia.
  - intros i e [[<- <-]|[_ H]]%lookup_insert_Some Hrel.
    + exists r, e0. simpl. split_and!; try done. by rewrite lookup_insert_ne.
    + destruct (ok_release _ Hok _ _ H Hrel) as (r' & e' & H1 & H2 & H3). exists r', e'. split; [done|].
      split; [|done]. rewrite lookup_insert_ne; [done|congruence].
  - assert (Hno : forall i e, j !! i = Some e -> closes_journal_id e <> Some r).
    { intros i e Hi He. assert (closed r j = true) by (apply closed_true; eauto). congruence. }
    intros i1 i2 e1 e2 r' [[<- <-]|[_ H1]]%lookup_insert_Some [[<- <-]|[_ H2]]%lookup_insert_Some; simpl.
    + done.
    + intros [= <-] H. by destruct (Hno _ _ H2).
    + intros H [= <-]. by destruct (Hno _ _ H1).
    + by apply (ok_unique _ Hok).
Qed.

Lemma live_insert_release : live (<[id := release_row (r, e0) now]> j) = delete r (live j).
Proof.
  apply map_eq. intros i. unfold live. destruct (decide (i = r)) as [->|Hi].
  - rewrite lookup_delete_eq. apply map_lookup_filter_None. right. intros e _. simpl.
    rewrite closed_insert, bool_decide_eq_true_2 by done. by rewrite orb_true_r, andb_false_r.
  - rewrite lookup_delete_ne by done. apply option_eq. intros e. rewrite !map_lookup_filter_Some. simpl.
    rewrite closed_insert by done. rewrite bool_decide_eq_false_2 by (simpl; congruence). rewrite orb_false_r.
    destruct (decide (i = id)) as [->|Hi'].
    + rewrite lookup_insert_eq, Hid. split; [|by intros []]. by intros [[= <-] ?].
    + by rewrite lookup_insert_ne.
Qed.

Lemma sum_insert_release p :
  sum_where (at_scope p) (<[id := release_row (r, e0) now]> j) =
  sum_where (at_scope p) j - (if at_scope p e0 then amount_cents e0 else 0).
Proof. rewrite sum_where_insert by done. unfold at_scope. simpl. destruct (p _ _); lia. Qed.

Lemma inv_insert_release : journal_inv (<[id := release_row (r, e0) now]> j).
Proof.
  split; [apply ok_insert_release|]. intros p. rewrite sum_insert_release, live_insert_release.
  rewrite (inv_sum _ Hj p), (sum_where_insert (fun e => _ && _)) by done. simpl. rewrite andb_false_r.
  rewrite (sum_where_delete _ r e0); [lia|]. unfold live. rewrite map_lookup_filter_Some. simpl.
  split; [done|]. by rewrite Hk, Hopen.
Qed.
End Release.

(** * Lemmas: the statement of the reconciler *)

(** Rows of [seen] that are reserves, in any order. *)
Definition reserves_in (seen : journal) (ps : list (string * entry)) : Prop :=
  Forall (fun p => seen !! p.1 = Some p.2 /\ kind p.2 = reserve) ps.

Record new_ids (fresh : string -> string) (j : journal) : Prop := NewIds {
  fresh_new id : j !! fresh id = None;
  fresh_inj : Inj (=) (=) fresh;
}.

Lemma insert_releases_inv fresh now seen j ps :
  new_ids fresh j -> journal_inv j -> seen ⊆ j -> reserves_in seen ps ->
  let s := foldr (insert_release fresh now) (j, 0) ps in
  journal_inv s.1 /\ j ⊆ s.1 /\
  (forall id e, s.1 !! id = Some e -> j !! id = Some e \/ exists p, p ∈ ps /\ id = fresh p.1 /\ e = release_row p now) /\
  (forall p, p ∈ ps -> closed p.1 s.1 = true).
Proof.
  intros [Hnew Hinj] Hj Hsub. induction ps as [|p ps IH]; intros Hps; simpl.
  { split_and!; [done..|auto|by intros ? ?%elem_of_nil]. }
  apply Forall_cons in Hps as [[Hp Hk] Hps]. specialize (IH Hps). simpl in IH.
  set (s := foldr _ _ ps) in *. destruct IH as (Hi & Hs & Hdom & Hcl). unfold insert_release.
  destruct (closed p.1 s.1) eqn:Hc.
  { split_and!; [done..| |].
    - intros id e H. destruct (Hdom id e H) as [|(q & Hq & Hq')]; [auto|right; exists q; split; [set_solver|done]].
    - intros q [->|Hq]%elem_of_cons; auto. }
  assert (Hfree : s.1 !! fresh p.1 = None).
  { destruct (s.1 !! fresh p.1) as [e|] eqn:He; [|done].
    destruct (Hdom _ _ He) as [H|(q & Hq & H%Hinj & _)]; [by rewrite Hnew in H|].
    rewrite H, (Hcl q Hq) in Hc. done. }
  assert (Hin : s.1 !! p.1 = Some p.2) by (eapply lookup_weaken, Hs; by eapply lookup_weaken).
  destruct p as [r e0]. simpl in *. split_and!.
  - by apply inv_insert_release.
  - etrans; [exact Hs|]. by apply insert_subseteq.
  - intros id e [[<- <-]|[_ H]]%lookup_insert_Some; [right; exists (r, e0); split; [by left|done]|].
    destruct (Hdom id e H) as [|(q & Hq & H')]; [auto|right; exists q; split; [by right|done]].
  - intros q [->|Hq]%elem_of_cons; simpl.
    + rewrite closed_insert by done. simpl. by rewrite bool_decide_eq_true_2, orb_true_r.
    + rewrite closed_insert by done. by rewrite (Hcl q Hq).
Qed.

Lemma candidates_of_elem c j p :
  p ∈ candidates_of c j -> j !! p.1 = Some p.2 /\ kind p.2 = reserve /\ call_id p.2 = c /\ closed p.1 j = false.
Proof.
  unfold candidates_of. intros H%(subseteq_take _ _). rewrite elem_of_sort_by in H.
  destruct p as [id e]. apply elem_of_map_to_list in H.
  apply map_lookup_filter_Some in H as [H Hc]. unfold of_call in H. apply map_lookup_filter_Some in H as [H [Hcall Hk]].
  apply bool_decide_eq_true in Hk. done.
Qed.

Lemma elem_of_calls c j : c ∈ calls j <-> exists id e, j !! id = Some e /\ call_id e = c.
Proof.
  unfold calls. induction j as [|i e j Hi IH] using map_ind.
  { rewrite map_fold_empty. split; [set_solver|]. intros (id & e & H & _). by rewrite lookup_empty in H. }
  rewrite map_fold_insert_L; [|intros; set_solver|done]. rewrite elem_of_union, elem_of_singleton, IH. split.
  - intros [->|(id & e' & H & <-)]; [exists i, e; by rewrite lookup_insert_eq|].
    exists id, e'. split; [|done]. rewrite lookup_insert_ne; [done|congruence].
  - intros (id & e' & [[<- <-]|[_ H]]%lookup_insert_Some & <-); eauto.
Qed.

Lemma candidates_elem cutoff j p :
  p ∈ candidates cutoff j -> p ∈ candidates_of (call_id p.2) j /\ open_call (call_id p.2) cutoff j = true.
Proof.
  unfold candidates. intros (c & Hp & Hc)%list_elem_of_bind. apply list_elem_of_filter in Hc as [Hc _].
  destruct (candidates_of_elem _ _ _ Hp) as (_ & _ & <- & _). done.
Qed.

Lemma candidates_reserves cutoff j : reserves_in j (candidates cutoff j).
Proof.
  apply Forall_forall. intros p (Hp & _)%candidates_elem. by destruct (candidates_of_elem _ _ _ Hp) as (? & ? & _).
Qed.

(** ** Counting *)

Lemma of_call_insert c k id e j :
  j !! id = None ->
  of_call c k (<[id := e]> j) =
  if bool_decide (call_id e = c) && k (kind e) then <[id := e]> (of_call c k j) else of_call c k j.
Proof.
  intros Hid. unfold of_call. destruct (bool_decide (call_id e = c) && k (kind e)) eqn:Hb.
  - apply andb_true_iff in Hb as [Hc%bool_decide_eq_true Hk]. by rewrite map_filter_insert_True.
  - rewrite map_filter_insert_False; [by rewrite delete_id|]. simpl. intros [Hc Hk].
    by rewrite bool_decide_eq_true_2, Hk in Hb.
Qed.

Lemma of_call_None c k id j : j !! id = None -> of_call c k j !! id = None.
Proof. intros H. unfold of_call. apply map_lookup_filter_None. by left. Qed.

Lemma insert_releases_count fresh now j ps :
  new_ids fresh j -> journal_inv j -> reserves_in j ps -> NoDup ps.*1 ->
  Forall (fun p => closed p.1 j = false) ps ->
  let s := foldr (insert_release fresh now) (j, 0) ps in
  s.2 = Z.of_nat (length ps) /\
  (forall id, closed id s.1 = true -> closed id j = true \/ id ∈ ps.*1) /\
  (forall c, of_call c is_reserve s.1 = of_call c is_reserve j /\
     size (of_call c is_closer s.1) =
       (size (of_call c is_closer j) + length (filter (fun p : string * entry => call_id p.2 = c) ps))%nat) /\
  (forall p, sum_where (at_scope p) s.1 =
     sum_where (at_scope p) j - foldr (fun q n => (if at_scope p q.2 then amount_cents q.2 else 0) + n) 0 ps).
Proof.
  intros Hnew Hj. induction ps as [|p ps IH]; intros Hres Hnd Hop; simpl.
  { split_and!; [done|auto| |intros; lia]. intros c. split; [done|]. simpl. lia. }
  apply Forall_cons in Hres as [[Hp Hk] Hres], Hop as [Hpo Hop].
  rewrite fmap_cons in Hnd. apply NoDup_cons in Hnd as [Hnotin Hnd].
  destruct (IH Hres Hnd Hop) as (Hn & Hcl & Hof & Hsum). clear IH.
  destruct (insert_releases_inv fresh now j j ps Hnew Hj (reflexivity _) Hres) as (_ & _ & Hdom & _).
  set (s := foldr _ _ ps) in *. unfold insert_release.
  assert (Hc : closed p.1 s.1 = false).
  { apply not_true_is_false. intros [H|H]%Hcl; [congruence|done]. }
  assert (Hfree : s.1 !! fresh p.1 = None).
  { destruct (s.1 !! fresh p.1) as [e|] eqn:He; [|done]. exfalso.
    destruct (Hdom _ _ He) as [H|(q & Hq & H%(fresh_inj _ _ Hnew) & _)]; [by rewrite (fresh_new _ _ Hnew) in H|].
    apply Hnotin. rewrite H. by apply list_elem_of_fmap_2. }
  rewrite Hc. cbn [fst snd]. split_and!.
  - lia.
  - intros id. rewrite closed_insert by done. intros [H|H]%orb_true_iff.
    + apply Hcl in H as [|]; [by left|right]. by apply elem_of_cons; right.
    + apply bool_decide_eq_true in H. simpl in H. injection H as <-. right. by apply elem_of_cons; left.
  - intros c. destruct (Hof c) as [H1 H2]. rewrite !of_call_insert by done. simpl.
    rewrite andb_false_r, andb_true_r. split; [done|]. rewrite filter_cons. simpl.
    destruct (decide (call_id p.2 = c)) as [Hcc|Hcc].
    + rewrite bool_decide_eq_true_2 by done. rewrite map_size_insert_None by (by apply of_call_None). simpl. lia.
    + rewrite bool_decide_eq_false_2 by done. lia.
  - intros q. destruct p as [r e0]. rewrite sum_insert_release by done. rewrite Hsum. simpl. lia.
Qed.

(** A call has no more closed reserves than closers. *)
Lemma closed_le_closers c j :
  journal_ok j ->
  (size (filter (fun p : string * entry => closed p.1 j = true) (of_call c is_reserve j)) <=
   size (of_call c is_closer j))%nat.
Proof.
  intros Hj. set (R := filter _ _). set (C := of_call c is_closer j).
  set (ids := omap (fun p : string * entry => closes_journal_id p.2) (map_to_list C)).
  assert (Hsub : dom R ⊆ (list_to_set ids : gset string)).
  { intros id [e He]%elem_of_dom. apply map_lookup_filter_Some in He as [He Hc].
    unfold of_call in He. apply map_lookup_filter_Some in He as [He [Hcall _]]. simpl in *.
    apply closed_true in Hc as (i & e' & Hi & Hcl).
    pose proof (closes_only_release _ _ (ok_checks _ Hj _ _ Hi) Hcl) as Hk.
    destruct (ok_release _ Hj _ _ Hi Hk) as (r & e0 & H1 & H2 & _ & H3 & _).
    assert (r = id) as -> by congruence. assert (e0 = e) as -> by congruence.
    apply elem_of_list_to_set. unfold ids. apply list_elem_of_omap. exists (i, e'). split; [|done].
    apply elem_of_map_to_list. unfold C, of_call. apply map_lookup_filter_Some. simpl. rewrite Hk. split; [done|].
    split; [congruence|done]. }
  apply subseteq_size in Hsub. rewrite size_dom in Hsub. etrans; [exact Hsub|].
  etrans; [apply (submseteq_length (elements (list_to_set ids : gset string)) ids), NoDup_submseteq|].
  { apply NoDup_elements. }
  { intros x. by rewrite elem_of_elements, elem_of_list_to_set. }
  unfold ids. rewrite <- length_map_to_list.
  generalize (map_to_list C). intros l. induction l as [|[i e] l IH]; [done|]. cbn [omap list_omap snd].
  destruct (closes_journal_id e); cbn [length]; lia.
Qed.

Lemma candidates_of_length c j :
  journal_ok j -> length (candidates_of c j) = Z.to_nat (n_open c j).
Proof.
  intros Hj. unfold candidates_of. rewrite length_take, length_sort_by, length_map_to_list.
  pose proof (closed_le_closers c j Hj) as Hle. unfold n_open.
  set (R := of_call c is_reserve j) in *.
  assert (Hsz : size R = (size (filter (fun p : string * entry => closed p.1 j = true) R) +
                          size (filter (fun p : string * entry => closed p.1 j = false) R))%nat).
  { rewrite <- (map_filter_union_complement (fun p : string * entry => closed p.1 j = true) R) at 1.
    rewrite map_size_disj_union by apply map_disjoint_filter_complement. f_equal. f_equal.
    apply map_filter_ext. intros i x _. simpl. by destruct (closed i j). }
  lia.
Qed.

Lemma candidates_of_NoDup c j : NoDup (candidates_of c j).*1.
Proof.
  unfold candidates_of. rewrite fmap_take. eapply sublist_NoDup; [|apply sublist_take].
  rewrite sort_by_perm. apply NoDup_fst_map_to_list.
Qed.

Lemma candidates_NoDup cutoff j : NoDup (candidates cutoff j).*1.
Proof.
  unfold candidates. assert (Hl : NoDup (filter (fun c => open_call c cutoff j = true) (elements (calls j))))
    by apply NoDup_filter, NoDup_elements.
  induction Hl as [|c l Hc _ IH]; [constructor|]. rewrite bind_cons, fmap_app. apply NoDup_app. split_and!.
  - apply candidates_of_NoDup.
  - intros id H1 H2. apply list_elem_of_fmap in H1 as (p & -> & Hp), H2 as (q & Hpq & Hq).
    apply list_elem_of_bind in Hq as (c' & Hq & Hc').
    destruct (candidates_of_elem _ _ _ Hp) as (Jp & _ & Cp & _), (candidates_of_elem _ _ _ Hq) as (Jq & _ & Cq & _).
    rewrite Hpq in Jp. assert (p.2 = q.2) by congruence. congruence.
  - exact IH.
Qed.

Lemma candidates_of_empty c j : c ∉ calls j -> candidates_of c j = [].
Proof.
  intros Hc. destruct (candidates_of c j) as [|p l] eqn:E; [done|]. exfalso. apply Hc, elem_of_calls.
  destruct (candidates_of_elem c j p) as (H & _ & Hcall & _); [rewrite E; by left|]. eauto.
Qed.

Lemma filter_everything {A} (P : A -> Prop) `{!forall x, base.Decision (P x)} (l : list A) :
  (forall x, x ∈ l -> P x) -> filter P l = l.
Proof.
  induction l as [|x l IH]; intros Hl; [done|]. rewrite filter_cons_True by (apply Hl; by left).
  f_equal. apply IH. intros y Hy. apply Hl. by right.
Qed.

Lemma candidates_count c cutoff j :
  length (filter (fun p : string * entry => call_id p.2 = c) (candidates cutoff j)) =
  if open_call c cutoff j then length (candidates_of c j) else 0%nat.
Proof.
  unfold candidates. set (l := filter (fun c => _ = true) (elements (calls j))).
  assert (Hsame : forall c', filter (fun p : string * entry => call_id p.2 = c) (candidates_of c' j) =
                             if decide (c' = c) then candidates_of c' j else []).
  { intros c'. destruct (decide (c' = c)) as [->|Hne].
    - apply filter_everything. intros p Hp. by destruct (candidates_of_elem _ _ _ Hp) as (_ & _ & -> & _).
    - apply filter_nothing. intros p Hp. by destruct (candidates_of_elem _ _ _ Hp) as (_ & _ & -> & _). }
  assert (Hcount : length (filter (fun p : string * entry => call_id p.2 = c) (c ← l; candidates_of c j)) =
                   if decide (c ∈ l) then length (candidates_of c j) else 0%nat).
  { assert (Hl : NoDup l) by apply NoDup_filter, NoDup_elements. induction Hl as [|c' l' Hc' _ IH]; [done|].
    rewrite bind_cons, filter_app, length_app, IH, Hsame. destruct (decide (c' = c)) as [->|Hne].
    - rewrite (decide_False (P := c ∈ l')), decide_True by (done || by left). lia.
    - destruct (decide (c ∈ l')); [rewrite decide_True by (by right)|rewrite decide_False by set_solver]; done. }
  rewrite Hcount. destruct (open_call c cutoff j) eqn:Ho.
  - destruct (decide (c ∈ l)) as [|Hn]; [done|]. rewrite candidates_of_empty; [done|].
    intros Hin. apply Hn. apply list_elem_of_filter. split; [done|]. by apply elem_of_elements.
  - rewrite decide_False; [done|]. intros [H _]%list_elem_of_filter. congruence.
Qed.

(** * The journal over time *)

Section Reach.
Variables (globalCap perOrgCap : Z).
Variable typed : string -> string -> bool.

(** Whatever the client and the reconciler do; a pass of the reconciler selects in
    any earlier state, so that two passes may race. *)
Inductive journal_step : journal -> journal -> Prop :=
| js_reserve id callId a now j j' : appendReserve typed id callId a now j = Ok j' -> journal_step j j'
| js_settle id callId installation today amount now j j' :
    appendSettle typed id callId installation today amount now j = Ok j' -> journal_step j j'
| js_check locked id callId a now j j' d :
    checkOrRaise globalCap perOrgCap typed locked id callId a now j = Ok (j', d) -> journal_step j j'
| js_record locked id callId a cost now j j' :
    recordCallCost typed locked id callId a cost now j = Ok j' -> journal_step j j'
| js_release fresh olderThanSeconds now seen j j' n :
    seen ⊆ j -> new_ids fresh j ->
    releaseOrphanedReserves fresh olderThanSeconds now seen j = Ok (j', n) -> journal_step j j'.

Lemma append_inv id e j j' :
  append typed id e j = Ok j' -> kind e <> release -> closes_journal_id e = None ->
  journal_inv j -> journal_inv j'.
Proof. intros (_ & Hc & Hid & ->)%append_ok Hk Hn Hj. by apply inv_insert_plain. Qed.

Lemma journal_step_inv j j' : journal_inv j -> journal_step j j' -> journal_inv j'.
Proof.
  intros Hj Hs. destruct Hs as [id callId a now j j' H|id callId i t n now j j' H|lk id callId a now j j' d H
    |lk id callId a cost now j j' H|fresh older now seen j j' n Hsub Hnew H].
  - unfold appendReserve in H. destruct (0 <=? _); [|done]. by eapply append_inv.
  - by eapply append_inv.
  - unfold checkOrRaise in H. destruct (0 <=? _); [|done]. destruct lk; [|done].
    destruct (_ <=? globalCap); [|done]. destruct (_ || _); [|done].
    apply rbind_ok in H as (j1 & H1 & [= <- _]). by eapply append_inv.
  - unfold recordCallCost in H. destruct (0 <=? _); [|done]. destruct lk; [|done]. by eapply append_inv.
  - unfold releaseOrphanedReserves in H. destruct (negb _); [|done]. injection H as H.
    apply (f_equal fst) in H. simpl in H. subst j'.
    by apply (insert_releases_inv fresh now seen j _ Hnew Hj Hsub (candidates_reserves _ seen)).
Qed.

Lemma journal_steps_inv j : rtc journal_step ∅ j -> journal_inv j.
Proof.
  intros H. pose proof empty_inv as Hi. revert Hi.
  induction H as [|j1 j2 j3 H12 _ IH]; [done|]. intros Hi. by eapply IH, journal_step_inv.
Qed.

(** The journal under any interleaving of appends, decisions and racing passes
    of the reconciler: every row passes its CHECKs; a release takes back exactly one
    reserve, of the same call, day and installation and of the same amount, and no
    reserve is taken back twice; so the sum of any scope is that of the reserves
    still standing and of the settlements. *)
Theorem journal_reachable_ok j : rtc journal_step ∅ j -> journal_ok j /\ adds_up j.
Proof. intros [H1 H2]%journal_steps_inv. done. Qed.

(** C34: A pass of the reconciler closes every call that has more reserves than
    closers and whose newest reserve is older than the cutoff, and leaves the other
    calls as they are; the sum of each scope loses exactly what the pass released,
    and a second pass with that cutoff finds nothing to do. *)
Theorem reconcile_heals fresh now cutoff j :
  rtc journal_step ∅ j -> new_ids fresh j ->
  let s := release_statement fresh now cutoff j j in
  s.2 = Z.of_nat (length (candidates cutoff j)) /\
  (forall c, n_open c s.1 = if open_call c cutoff j then 0 else n_open c j) /\
  (forall p, sum_where (at_scope p) s.1 = sum_where (at_scope p) j -
     foldr (fun q n => (if at_scope p q.2 then amount_cents q.2 else 0) + n) 0 (candidates cutoff j)) /\
  (forall fresh' now', release_statement fresh' now' cutoff s.1 s.1 = (s.1, 0)).
Proof.
  intros Hj%journal_steps_inv Hnew. unfold release_statement.
  destruct (insert_releases_count fresh now j (candidates cutoff j) Hnew Hj (candidates_reserves _ _)
    (candidates_NoDup _ _)) as (Hn & _ & Hof & Hsum).
  { apply Forall_forall. intros p (Hp & _)%candidates_elem. by apply candidates_of_elem in Hp as (_ & _ & _ & ?). }
  set (s := foldr _ _ _) in *.
  assert (Hopen : forall c, n_open c s.1 = if open_call c cutoff j then 0 else n_open c j).
  { intros c. destruct (Hof c) as [H1 H2]. unfold n_open at 1. rewrite H1, H2, candidates_count.
    destruct (open_call c cutoff j) eqn:Ho; [|unfold n_open; lia].
    rewrite candidates_of_length by apply (inv_ok _ Hj).
    unfold open_call in Ho. apply andb_true_iff in Ho as [Hpos%Z.ltb_lt _]. unfold n_open in *. lia. }
  split_and!; [done..|]. intros fresh' now'.
  assert (Hnone : candidates cutoff s.1 = []); [|by rewrite Hnone].
  destruct (candidates cutoff s.1) as [|p l] eqn:E; [done|]. exfalso.
  destruct (candidates_elem cutoff s.1 p) as [_ H]; [rewrite E; by left|].
  unfold open_call in H at 1. rewrite Hopen in H. destruct (open_call (call_id p.2) cutoff j) eqn:Ho; [done|].
  unfold open_call, aged in *. by rewrite (proj1 (Hof (call_id p.2))) in H; congruence.
Qed.
End Reach.

(** * The report of the dual read *)

Lemma elem_of_groups today inst j :
  inst ∈ groups today j <-> exists id e, j !! id = Some e /\ of_org today inst e = true.
Proof.
  unfold groups, of_org. induction j as [|i e j Hi IH] using map_ind.
  { rewrite map_fold_empty. split; [set_solver|]. intros (id & e & H & _). by rewrite lookup_empty in H. }
  rewrite map_fold_insert_L; [| |done].
  2:{ intros. destruct (on_day _ _), (on_day _ _); set_solver. }
  assert (Hold : (exists id e', <[i:=e]> j !! id = Some e' /\ on_day today e' && String.eqb (installation_id e') inst = true)
    <-> on_day today e && String.eqb (installation_id e) inst = true \/
        exists id e', j !! id = Some e' /\ on_day today e' && String.eqb (installation_id e') inst = true).
  { split.
    - intros (id & e' & [[<- <-]|[_ H]]%lookup_insert_Some & H'); [by left|right; eauto].
    - intros [H|(id & e' & H & H')]; [exists i, e; by rewrite lookup_insert_eq|].
      exists id, e'. split; [|done]. rewrite lookup_insert_ne; [done|congruence]. }
  rewrite Hold, <- IH. destruct (on_day today e); simpl; [|naive_solver].
  rewrite elem_of_union, elem_of_singleton, String.eqb_eq. naive_solver.
Qed.

Lemma elem_of_day_rows today inst m : inst ∈ day_rows today m <-> is_Some (m !! (today, inst)).
Proof.
  unfold day_rows. induction m as [|k r m Hk IH] using map_ind.
  { rewrite map_fold_empty, lookup_empty. split; [set_solver|by intros []]. }
  rewrite map_fold_insert_L; [| |done].
  2:{ intros. destruct (String.eqb _ _), (String.eqb _ _); set_solver. }
  destruct k as [t i]. simpl. rewrite lookup_insert_is_Some. destruct (String.eqb_spec t today) as [->|Hne].
  - rewrite elem_of_union, elem_of_singleton, IH. split; [|intros [[= ->]|[_ ?]]; auto].
    intros [->|H]; [by left|]. destruct (decide (i = inst)) as [->|]; [by left|right]. split; congruence || done.
  - rewrite IH. split; [intros H; right; split; [congruence|done]|intros [[= -> ->]|[_ ?]]; done].
Qed.

Lemma sum_nothing p j : (forall id e, j !! id = Some e -> p e = false) -> sum_where p j = 0.
Proof.
  intros H. rewrite (sum_where_ext p (fun _ => false)) by done.
  clear H. induction j as [|i e j Hi IH] using map_ind; [by rewrite sum_where_empty|].
  by rewrite sum_where_insert, IH by done.
Qed.

Lemma foldr_add_one (f : string -> Z) (x : Z) (i0 : string) l :
  NoDup l ->
  foldr (fun i n => (f i + if bool_decide (i = i0) then x else 0) + n) 0 l =
  foldr (fun i n => f i + n) 0 l + if bool_decide (i0 ∈ l) then x else 0.
Proof.
  induction 1 as [|i l Hi _ IH]; [done|]. cbn [foldr]. rewrite IH.
  destruct (decide (i = i0)) as [->|Hne].
  - rewrite (bool_decide_eq_true_2 (i0 = i0)), (bool_decide_eq_true_2 (i0 ∈ i0 :: l)), (bool_decide_eq_false_2 (i0 ∈ l))
      by (done || by left). lia.
  - rewrite (bool_decide_eq_false_2 (i = i0)) by done.
    rewrite (bool_decide_ext (i0 ∈ i :: l) (i0 ∈ l)); [lia|]. set_solver.
Qed.

(** The groups of a day are all its rows. *)
Lemma sum_groups today j l :
  NoDup l -> (forall inst, inst ∈ groups today j -> inst ∈ l) ->
  foldr (fun inst n => sum_where (of_org today inst) j + n) 0 l = sum_where (on_day today) j.
Proof.
  intros Hl. induction j as [|i e j Hi IH] using map_ind; intros Hin.
  { rewrite sum_where_empty. clear. induction l as [|x l IH]; [done|]. cbn [foldr]. by rewrite sum_where_empty, IH. }
  assert (Hin' : forall inst, inst ∈ groups today j -> inst ∈ l).
  { intros inst (id & e' & He & Hd)%elem_of_groups. apply Hin, elem_of_groups. exists id, e'. split; [|done].
    rewrite lookup_insert_ne; [done|congruence]. }
  rewrite sum_where_insert by done. rewrite <- (IH Hin').
  rewrite (foldr_ext _ (fun inst n => (sum_where (of_org today inst) j +
    if bool_decide (inst = installation_id e) then (if on_day today e then amount_cents e else 0) else 0) + n) 0 0 l l); [|
    |done|done].
  2:{ intros inst n. rewrite sum_where_insert by done. unfold of_org.
      destruct (on_day today e), (String.eqb_spec (installation_id e) inst) as [->|Hne]; simpl;
        rewrite ?bool_decide_eq_true_2 by done; try lia; case_bool_decide; subst; try lia; done. }
  rewrite foldr_add_one by done. destruct (on_day today e) eqn:Hd; [|case_bool_decide; lia].
  rewrite bool_decide_eq_true_2; [lia|]. apply Hin, elem_of_groups. exists i, e.
  rewrite lookup_insert_eq. unfold of_org. by rewrite Hd, String.eqb_refl.
Qed.

(** What the report says of a scope whose two totals are [a] and [c]. *)
Definition reported (scope : div_scope) (id : string) (a c : Z) (d : divergence) : Prop :=
  a <> c /\ d = Divergence scope id a c.

Lemma omap_sorted (f : string -> option divergence) l :
  (forall i d, f i = Some d -> d_scopeId d = i) ->
  StronglySorted (fun a b => str_leb a b = true) l ->
  StronglySorted (fun a b => str_leb (d_scopeId a) (d_scopeId b) = true) (omap f l).
Proof.
  intros Hf. induction 1 as [|i l _ IH Hi]; [constructor|]. cbn [omap list_omap].
  destruct (f i) as [d|] eqn:E; [|exact IH]. constructor; [exact IH|]. apply Forall_forall.
  intros d' (i' & Hi' & Hd')%list_elem_of_omap. rewrite (Hf _ _ E), (Hf _ _ Hd'). rewrite Forall_forall in Hi. auto.
Qed.

(** The comparison of the two accountings reports exactly the scopes of the day
    whose totals differ, with both totals, the global one first and the
    installations in order; it is empty exactly when the two agree. *)
Theorem divergence_exact today db j :
  let report := divergenceFromAggregate today db j in
  let org inst := row_total (okey today inst) (cost_daily db) in
  let jnl inst := sum_where (of_org today inst) j in
  let global_row := reported global ZERO_UUID (row_total (gkey today) (cost_daily db)) (sum_where (on_day today) j) in
  (exists glob orgs, report = glob ++ orgs /\ (forall d, d ∈ glob <-> global_row d) /\
     StronglySorted (fun a b => str_leb (d_scopeId a) (d_scopeId b) = true) orgs /\
     (forall d, d ∈ orgs <-> exists inst, inst <> ZERO_UUID /\ reported per_org inst (org inst) (jnl inst) d)) /\
  (report = [] <-> row_total (gkey today) (cost_daily db) = sum_where (on_day today) j /\
                   forall inst, inst <> ZERO_UUID -> org inst = jnl inst).
Proof.
  intros report org jnl global_row.
  assert (Hspec : exists glob orgs, report = glob ++ orgs /\ (forall d, d ∈ glob <-> global_row d) /\
     StronglySorted (fun a b => str_leb (d_scopeId a) (d_scopeId b) = true) orgs /\
     (forall d, d ∈ orgs <-> exists inst, inst <> ZERO_UUID /\ reported per_org inst (org inst) (jnl inst) d)).
  { unfold report, divergenceFromAggregate. eexists _, _. split; [reflexivity|]. split_and!.
    - intros d. rewrite (sum_groups today j) by (apply NoDup_elements || (intros; by apply elem_of_elements)).
      unfold global_row, reported. destruct (Z.eqb_spec (row_total (gkey today) (cost_daily db)) (sum_where (on_day today) j)).
      + split; [by intros ?%elem_of_nil|by intros []].
      + rewrite list_elem_of_singleton. naive_solver.
    - apply omap_sorted; [|apply sort_by_sorted; [apply str_leb_total|apply str_leb_trans]].
      intros i d. destruct (_ =? _); [done|]. by intros [= <-].
    - intros d. rewrite list_elem_of_omap. fold (org). unfold reported.
      assert (Hc : forall inst, inst <> ZERO_UUID ->
        (if bool_decide (inst ∈ groups today j ∖ {[ZERO_UUID]}) then sum_where (of_org today inst) j else 0) = jnl inst).
      { intros inst Hz. case_bool_decide as Hin; [done|]. symmetry. apply sum_nothing. intros id e He.
        apply not_true_is_false. intros H. apply Hin. apply elem_of_difference. split; [|set_solver].
        apply elem_of_groups. eauto. }
      split.
      + intros (inst & Hin & Hd). rewrite elem_of_sort_by in Hin. apply elem_of_elements in Hin.
        assert (Hz : inst <> ZERO_UUID) by set_solver. rewrite (Hc inst Hz) in Hd. fold (org inst) in Hd.
        exists inst. split; [done|]. destruct (Z.eqb_spec (org inst) (jnl inst)); [done|]. by injection Hd as <-.
      + intros (inst & Hz & Hne & ->). exists inst. rewrite (Hc inst Hz). fold (org inst).
        rewrite (proj2 (Z.eqb_neq _ _)) by done. split; [|done]. rewrite elem_of_sort_by. apply elem_of_elements.
        destruct (decide (inst ∈ day_rows today (cost_daily db))) as [|Hno]; [set_solver|].
        destruct (decide (inst ∈ groups today j)) as [|Hno']; [set_solver|]. exfalso. apply Hne. trans 0.
        * unfold org, row_total. destruct (cost_daily db !! okey today inst) eqn:E; [|done].
          exfalso. apply Hno, elem_of_day_rows. unfold okey in E. by rewrite E.
        * symmetry. apply sum_nothing. intros id e He. apply not_true_is_false. intros H.
          apply Hno', elem_of_groups. eauto. }
  split; [exact Hspec|]. destruct Hspec as (glob & orgs & -> & Hg & _ & Ho). split.
  - intros [-> ->]%app_eq_nil. split.
    + apply dec_stable. intros Hne. apply (elem_of_nil (Divergence global ZERO_UUID
        (row_total (gkey today) (cost_daily db)) (sum_where (on_day today) j))). by apply Hg.
    + intros inst Hz. apply dec_stable. intros Hne. apply (elem_of_nil (Divergence per_org inst (org inst) (jnl inst))).
      apply Ho. by exists inst.
  - intros [H1 H2]. destruct glob as [|d glob].
    + destruct orgs as [|d orgs]; [done|]. exfalso. destruct (proj1 (Ho d)) as (inst & Hz & Hne & _); [by left|]. auto.
    + exfalso. destruct (proj1 (Hg d)) as [Hne _]; [by left|]. done.
Qed.

(** * The window covers the retries of a call *)

(** The time that a run of [runWithRetry] takes when every attempt burns its whole
    budget. *)
Definition wall_time (p : retry_policy) (evs : list retry_event) : Q :=
  foldr (fun ev t => match ev with Dispatch _ => startToCloseS p | Sleep s => s end + t)%Q 0%Q evs.

Definition qsum (l : list Q) : Q := foldr Qplus 0%Q l.

Lemma wall_time_split p evs :
  (wall_time p evs == inject_Z (Z.of_nat (length (dispatches evs))) * startToCloseS p + qsum (sleeps evs))%Q.
Proof.
  induction evs as [|[n|s] evs IH]; unfold dispatches, sleeps in *.
  - unfold wall_time. simpl. ring.
  - cbn [omap list_omap length]. rewrite Nat2Z.inj_succ. unfold Z.succ. rewrite inject_Z_plus.
    change (wall_time p (Dispatch n :: evs)) with (startToCloseS p + wall_time p evs)%Q. rewrite IH.
    unfold inject_Z at 3. ring.
  - cbn [omap list_omap qsum foldr]. change (wall_time p (Sleep s :: evs)) with (s + wall_time p evs)%Q.
    rewrite IH. unfold qsum. ring.
Qed.

Section Envelope.
Variables (p : retry_policy) (maxI : option Q).
Hypothesis Hi : (0 <= initialIntervalS p <= maxIntervalS p)%Q.
Hypothesis Hb : (0 <= backoff p)%Q.
Hypothesis Hmax : match maxI with Some m => (m == maxIntervalS p)%Q | None => True end.

Definition uncapped (n : nat) : Q := Nat.iter n (fun i => i * backoff p)%Q (initialIntervalS p).

Lemma uncapped_shift n : (uncapped n * backoff p == Nat.iter n (fun i => i * backoff p) (initialIntervalS p * backoff p))%Q.
Proof. unfold uncapped. induction n as [|n IH]; simpl; [reflexivity|]. by rewrite IH. Qed.

Lemma interval_at_uncapped n : (0 <= interval_at p (S n) <= uncapped n)%Q.
Proof.
  induction n as [|n [IH1 IH2]]; [unfold interval_at; simpl; split; [apply Hi|apply Qle_refl]|].
  rewrite interval_at_S by lia. change (uncapped (S n)) with (uncapped n * backoff p)%Q. split.
  - apply Q.min_glb; [by apply Qmult_le_0_compat|]. destruct Hi. by eapply Qle_trans.
  - eapply Qle_trans; [apply Q.le_min_l|]. by apply Qmult_le_compat_r.
Qed.

Lemma interval_at_capped n : (0 <= interval_at p (S n) <= capped (uncapped n) maxI)%Q.
Proof.
  destruct (interval_at_uncapped n) as [H1 H2]. split; [done|]. unfold capped. destruct maxI as [m|]; [|done].
  apply Q.min_glb; [done|]. rewrite Hmax. apply interval_at_max. apply Hi.
Qed.

Lemma sleep_sum_uncapped g n :
  (sleep_sum g (uncapped n) (backoff p) maxI == qsum (map (fun i => capped (uncapped i) maxI) (seq n g)))%Q.
Proof.
  revert n. induction g as [|g IH]; intros n; [reflexivity|]. cbn [sleep_sum seq map qsum foldr].
  change (uncapped n * backoff p)%Q with (uncapped (S n)). by rewrite IH.
Qed.

Lemma sleeps_bounded jitter k g :
  (forall n, (0 <= jitter n <= RETRY_ENVELOPE_JITTER_MAX)%Q) -> (k <= g)%nat ->
  (qsum (map (fun n => interval_at p n * jitter n) (seq 1 k)) <=
   sleep_sum g (initialIntervalS p) (backoff p) maxI * RETRY_ENVELOPE_JITTER_MAX)%Q.
Proof.
  intros Hj Hk. change (initialIntervalS p) with (uncapped 0). rewrite sleep_sum_uncapped.
  revert k Hk. generalize 0%nat as n. induction g as [|g IH]; intros n k Hk.
  { replace k with 0%nat by lia. simpl. rewrite Qmult_0_l. apply Qle_refl. }
  assert (Hpos : forall m, (0 <= capped (uncapped m) maxI)%Q).
  { intros m. destruct (interval_at_capped m). by eapply Qle_trans. }
  cbn [seq map qsum foldr]. rewrite Qmult_plus_distr_l. destruct k as [|k].
  - apply (Qle_trans _ (0 + 0)); [apply Qle_refl|]. apply Qplus_le_compat.
    + by apply Qmult_le_0_compat.
    + exact (IH (S n) 0%nat ltac:(lia)).
  - cbn [seq map qsum foldr]. apply Qplus_le_compat; [|apply IH; lia].
    destruct (interval_at_capped n), (Hj (S n)). 
    apply (Qle_trans _ (capped (uncapped n) maxI * jitter (S n))); [by apply Qmult_le_compat_r|].
    rewrite !(Qmult_comm (capped _ _)). by apply Qmult_le_compat_r.
Qed.
End Envelope.

(** What the policy of a wrapped port is translated to, and what the window makes of it. *)
Definition covered (o : retry_options) : Prop :=
  exists p w maxI, toRetryPolicy o = Ok p /\ worstCaseWallTimeSeconds o = Ok w /\
    (0 <= initialIntervalS p <= maxIntervalS p)%Q /\ (0 <= backoff p)%Q /\ (0 <= startToCloseS p)%Q /\
    match maxI with Some m => (m == maxIntervalS p)%Q | None => True end /\ (1 <= maxAttempts p)%nat /\
    (w == inject_Z (Z.of_nat (maxAttempts p)) * startToCloseS p +
          sleep_sum (maxAttempts p - 1) (initialIntervalS p) (backoff p) maxI * RETRY_ENVELOPE_JITTER_MAX)%Q /\
    (w <= inject_Z 808)%Q.

Lemma wrap_set_covered name o : policy_by_port name = Some o -> covered o.
Proof.
  unfold policy_by_port. destruct (List.find _ _) as [[n q]|] eqn:E; [|discriminate]. intros [= <-].
  apply List.find_some in E as [Hin _].
  assert (H : Forall (fun p => covered p.2) IN_PROCESS_RETRY_POLICIES).
  { unfold IN_PROCESS_RETRY_POLICIES, covered.
    repeat apply Forall_cons_2; try apply Forall_nil_2; eexists _, _;
      [exists None|exists (Some 15%Q)|exists (Some 20%Q)|exists (Some 60%Q)|exists None];
      (split; [vm_compute; reflexivity|]); (split; [vm_compute; reflexivity|]); simpl;
      repeat split; first [lia | vm_compute; congruence]. }
  rewrite Forall_forall in H. apply (H (n, q)). by apply list_elem_of_In.
Qed.

(** The reconcile window is 808 seconds, and no run of a wrapped port, whatever
    its attempts do and whatever jitter is drawn up to the maximum, takes longer
    than the worst case computed for its policy, nor reaches the window. *)
Theorem reconcile_window_covers {V} name o p (run : nat -> attempt_result V) ab aa reason jitter :
  policy_by_port name = Some o -> toRetryPolicy o = Ok p ->
  (forall n, (0 <= jitter n <= RETRY_ENVELOPE_JITTER_MAX)%Q) ->
  RECONCILE_WINDOW_SECONDS = Ok 808 /\
  exists w, worstCaseWallTimeSeconds o = Ok w /\
    (wall_time p (runWithRetry p run ab aa reason jitter).1 <= w)%Q /\ (w <= inject_Z 808)%Q.
Proof.
  intros Ho Hp Hj. split; [by vm_compute|].
  destruct (wrap_set_covered _ _ Ho) as (p' & w & maxI & Hp' & Hw & Hi & Hb & Hs & Hm & Ha & Hweq & Hle).
  assert (p' = p) as -> by congruence. exists w. split_and!; [done| |done].
  pose proof (runWithRetry_spec p run ab aa reason jitter Ha) as H.
  destruct (runWithRetry _ _ _ _ _ _) as [evs r]. destruct H as (k & Hk & _ & Hd & Hsl & _). simpl.
  rewrite wall_time_split, Hd, Hsl, Hweq. apply Qplus_le_compat.
  - apply Qmult_le_compat_r; [|done]. rewrite length_seq, <- Zle_Qle. destruct (ab k); lia.
  - apply sleeps_bounded; try done. lia.
Qed.

(** * Examples *)

Module Ex.
Definition org : string := "11111111-2222-4333-8444-555555555555".
Definition monday : string := "2026-06-15".
Definition tuesday : string := "2026-06-16".
Definition all_typed (_ _ : string) : bool := true.
Definition new_id (id : string) : string := ("release of " +:+ id)%string.
Definition ex_call (today : string) : call := Call org 10 today.

(** A call that failed and was settled on Monday, then reserved again on Tuesday and
    died: its rows. *)
Definition died : journal :=
  {[ "a" := Entry "c" org monday reserve 10 None 0;
     "b" := Entry "c" org monday settle (-10) None 1000;
     "d" := Entry "c" org tuesday reserve 10 None 86400000 ]}%string.

(** The pass counts one open reserve and takes back the oldest one, which was settled:
    Monday goes below zero and Tuesday keeps the estimate of the dead attempt. *)
Example wrong_day_healed :
  match releaseOrphanedReserves new_id 808 90000000 died died with
  | Ok (j, n) => n = 1 /\ sumForDay monday None j = -10 /\ sumForDay tuesday None j = 10
  | Throw _ => False
  end.
Proof. vm_compute. done. Qed.

(** A settlement that arrives after the release: the cost of 75 counts as 65. *)
Example late_settle_understates :
  let j0 : journal := {[ "a" := Entry "c" org monday reserve 10 None 0 ]}%string in
  match releaseOrphanedReserves new_id 808 90000000 j0 j0 with
  | Ok (j, _) =>
      match recordCallCost all_typed true "s" "c" (ex_call monday) 75 90000001 j with
      | Ok j' => sumForDay monday None j' = 65
      | Throw _ => False
      end
  | Throw _ => False
  end.
Proof. vm_compute. done. Qed.

Lemma died_reachable : rtc (journal_step 1000 100 all_typed) ∅ died.
Proof.
  eapply rtc_l; [apply (js_reserve _ _ _ "a" "c" (ex_call monday) 0); reflexivity|].
  eapply rtc_l; [apply (js_settle _ _ _ "b" "c" org monday (-10) 1000); reflexivity|].
  eapply rtc_l; [apply (js_check _ _ _ true "d" "c" (ex_call tuesday) 86400000 _ _ (Decision 0 0 10)); reflexivity|].
  apply rtc_refl.
Qed.

Lemma new_id_inj : Inj (=) (=) new_id.
Proof. intros x y H. unfold new_id in H. simpl in H. by injection H. Qed.

Lemma died_new : new_ids new_id died.
Proof.
  split; [|apply new_id_inj]. intros id. unfold died.
  rewrite !lookup_insert_ne; [apply lookup_singleton_ne; discriminate|discriminate|discriminate].
Qed.
End Ex.

Lemma journal_reachable_ok_witness : journal_ok Ex.died /\ adds_up Ex.died.
Proof. apply (journal_reachable_ok 1000 100 Ex.all_typed). exact Ex.died_reachable. Defined.

Lemma reconcile_heals_witness :
  (release_statement Ex.new_id 90000000 89192000 Ex.died Ex.died).2 =
    Z.of_nat (length (candidates 89192000 Ex.died)) /\
  length (candidates 89192000 Ex.died) = 1%nat.
Proof.
  split; [|vm_compute; reflexivity].
  apply (reconcile_heals 1000 100 Ex.all_typed Ex.new_id 90000000 89192000 Ex.died Ex.died_reachable Ex.died_new).
Defined.

(** A call of ten cents on both books, in flight. *)
Definition twin_books : books :=
  Books (CostDb {[ gkey Ex.monday := DailyRow 10 1000; okey Ex.monday Ex.org := DailyRow 10 100 ]} ∅ ∅)
    [Ex.ex_call Ex.monday] [].
Definition twin_journal : journal := {[ "a"%string := Entry "c" Ex.org Ex.monday reserve 10 None 0 ]}.

Lemma twin_reachable :
  rtc (twin_step 1000 100 Ex.all_typed) (Books (CostDb ∅ ∅ ∅) [] [], ∅) (twin_books, twin_journal).
Proof.
  eapply rtc_l; [|apply rtc_refl].
  refine (eq_ind _ (twin_step 1000 100 Ex.all_typed (Books (CostDb ∅ ∅ ∅) [] [], ∅))
    (twin_check 1000 100 Ex.all_typed (Books (CostDb ∅ ∅ ∅) [] []) ∅ true true 0 "a" "c" (Ex.ex_call Ex.monday) 0 _ _) _ _);
    vm_compute; reflexivity.
Qed.

Lemma empty_agrees : agrees (CostDb ∅ ∅ ∅) ∅.
Proof. by split; intros; unfold row_total; simpl; rewrite lookup_empty, sum_where_empty. Qed.


(** Every attempt of a chunk's review times out, and every jitter is the largest. *)
Definition chunk_policy : retry_options :=
  RetryOptions (Some "90s") (Some "5s") (Some "60s") (Some 2%Q) (Some 4%nat)
    ["BedrockBudgetExceededError"; "BedrockOutputUnsafeError"; "BedrockInvalidRequestError"]%string.

Lemma reconcile_window_covers_witness :
  exists p w, toRetryPolicy chunk_policy = Ok p /\ worstCaseWallTimeSeconds chunk_policy = Ok w /\
    (wall_time p (runWithRetry p (fun _ => @TimedOut unit) never never (ex_error "x") (fun _ => 5 # 4)).1 <= w)%Q.
Proof.
  destruct (toRetryPolicy chunk_policy) as [p|] eqn:Hp; [|discriminate]. exists p.
  destruct (reconcile_window_covers "reviewChunk" chunk_policy p (fun _ => @TimedOut unit) never never
    (ex_error "x") (fun _ => 5 # 4)%Q) as (_ & w & Hw & H & _).
  - reflexivity.
  - exact Hp.
  - intros n. split; vm_compute; discriminate.
  - exists w. split; [reflexivity|]. split; [exact Hw|exact H].
Defined.
