(* ===== verification/Utf8.v ===== *)
(** UTF-8, as [ChunkText] decodes and encodes it: what the decoder gives is made
    of code points, encoding undoes it, and a text is never longer than its bytes. *)
From stdpp Require Import base list strings.
From Stdlib Require Import ZArith NArith Lia Ascii.
From S2P Require Import Prelude Text Uuid5 ChunkText.
From S2P Require LlmClient.
Open Scope Z_scope.

Abbreviation text_of := LlmClient.text_of.

(** * Code points *)

(** A Unicode scalar value. *)
Definition is_scalar (cp : Z) : Prop := 0 <= cp < 0xD800 \/ 0xE000 <= cp < 0x110000.

(** The text of one code point. *)
Definition scalar (c : text) : Prop := exists cp, is_scalar cp /\ c = units_of cp.

Lemma in_range_spec lo hi c : in_range lo hi c = true <-> (lo <= c /\ c <= hi)%N.
Proof. unfold in_range. by rewrite andb_true_iff, !N.leb_le. Qed.

Lemma in_range_false lo hi c : in_range lo hi c = false <-> (c < lo \/ hi < c)%N.
Proof. unfold in_range. rewrite andb_false_iff, !N.leb_gt. done. Qed.

(** The units of a pair, as arithmetic. *)
Lemma units_of_high cp :
  0x10000 <= cp < 0x110000 ->
  units_of cp = [Z.to_N (0xD800 + (cp - 0x10000) / 1024); Z.to_N (0xDC00 + (cp - 0x10000) mod 1024)].
Proof.
  intros H. unfold units_of. destruct (Z.ltb_spec cp 0x10000); [lia|].
  rewrite Z.shiftr_div_pow2 by lia. change 0x3FF with (Z.ones 10). rewrite Z.land_ones by lia. done.
Qed.

Lemma units_of_low cp : cp < 0x10000 -> units_of cp = [Z.to_N cp].
Proof. intros H. unfold units_of. destruct (Z.ltb_spec cp 0x10000); [done|lia]. Qed.

Lemma pair_surrogates cp :
  0x10000 <= cp < 0x110000 ->
  high_surrogate (Z.to_N (0xD800 + (cp - 0x10000) / 1024)) = true /\
  low_surrogate (Z.to_N (0xDC00 + (cp - 0x10000) mod 1024)) = true.
Proof.
  intros H. unfold high_surrogate, low_surrogate. rewrite !in_range_spec.
  pose proof (Z.div_mod (cp - 0x10000) 1024). pose proof (Z.mod_pos_bound (cp - 0x10000) 1024). lia.
Qed.

(** The code points of a text that starts with one. *)
Lemma chars_of_scalar c s : scalar c -> chars_of (c ++ s) = c :: chars_of s.
Proof.
  intros (cp & Hs & ->). destruct (Z.lt_ge_cases cp 0x10000) as [Hl|Hh].
  - rewrite units_of_low by done. simpl app. destruct s as [|l s]; [done|].
    rewrite chars_of_cons2. unfold high_surrogate.
    replace (in_range _ _ _) with false; [done|]. symmetry. apply in_range_false. unfold is_scalar in Hs. lia.
  - rewrite units_of_high by (unfold is_scalar in Hs; lia). simpl app. rewrite chars_of_cons2.
    destruct (pair_surrogates cp) as [-> ->]; [unfold is_scalar in Hs; lia|done].
Qed.

Lemma chars_of_scalars cs s : Forall scalar cs -> chars_of (mjoin cs ++ s) = cs ++ chars_of s.
Proof.
  induction 1 as [|c cs Hc _ IH]; [done|]. rewrite mjoin_cons, <- app_assoc, chars_of_scalar by done.
  by rewrite IH.
Qed.

Lemma chars_of_mjoin cs : Forall scalar cs -> chars_of (mjoin cs) = cs.
Proof. intros H. rewrite <- (app_nil_r (mjoin cs)), chars_of_scalars by done. apply app_nil_r. Qed.

Lemma codePointAt_units cp : is_scalar cp -> codePointAt (units_of cp) = cp.
Proof.
  intros Hs. destruct (Z.lt_ge_cases cp 0x10000) as [Hl|Hh].
  - rewrite units_of_low by done. simpl. unfold is_scalar in Hs. lia.
  - assert (H : 0x10000 <= cp < 0x110000) by (unfold is_scalar in Hs; lia).
    rewrite units_of_high by done. unfold codePointAt. destruct (pair_surrogates cp H) as [-> ->]. simpl.
    pose proof (Z.div_mod (cp - 0x10000) 1024). pose proof (Z.mod_pos_bound (cp - 0x10000) 1024).
    rewrite !Z2N.id by (try apply Z.add_nonneg_nonneg; try apply Z.div_pos; lia).
    rewrite Z.shiftl_mul_pow2 by lia. lia.
Qed.

(** * Decoding what was encoded *)

(** The bytes of a code point, as arithmetic. *)
Lemma lor_add a b n : 0 <= n -> 0 <= b < 2 ^ n -> Z.land a (Z.ones n) = 0 -> Z.lor a b = a + b.
Proof.
  intros Hn Hb Ha. rewrite <- Z.add_lor_land. replace (Z.land a b) with 0; [lia|].
  rewrite <- (Z.mod_small b (2 ^ n)), <- Z.land_ones by done.
  rewrite (Z.land_comm b), Z.land_assoc, Ha. by rewrite Z.land_0_l.
Qed.

Lemma low6 x : Z.land x 0x3F = x mod 64.
Proof. change 0x3F with (Z.ones 6). by rewrite Z.land_ones by lia. Qed.

Lemma cont_byte x : Z.lor 0x80 (Z.land x 0x3F) = 0x80 + x mod 64.
Proof.
  rewrite low6. apply (lor_add _ _ 6); [lia|pose proof (Z.mod_pos_bound x 64); lia|done].
Qed.

Lemma shift_div x n : 0 <= n -> Z.shiftr x n = x / 2 ^ n.
Proof. intros. by rewrite Z.shiftr_div_pow2. Qed.

Definition utf8_bytes (cp : Z) : list Z :=
  if cp <? 0x80 then [cp]
  else if cp <? 0x800 then [0xC0 + cp / 64; 0x80 + cp mod 64]
  else if cp <? 0x10000 then [0xE0 + cp / 4096; 0x80 + (cp / 64) mod 64; 0x80 + cp mod 64]
  else [0xF0 + cp / 262144; 0x80 + (cp / 4096) mod 64; 0x80 + (cp / 64) mod 64; 0x80 + cp mod 64].

Lemma utf8_char_bytes cp : is_scalar cp -> utf8_char (units_of cp) = utf8_bytes cp.
Proof.
  intros Hs. unfold utf8_char, utf8_bytes. rewrite codePointAt_units by done. cbv zeta.
  destruct (Z.ltb_spec cp 0x80); [done|]. rewrite !cont_byte, !shift_div by lia.
  destruct (Z.ltb_spec cp 0x800).
  { rewrite (lor_add 0xC0 _ 5); [done|lia| |done].
    split; [apply Z.div_pos; lia|]. apply Z.div_lt_upper_bound; lia. }
  replace ((0xD800 <=? cp) && (cp <=? 0xDFFF)) with false.
  2: { symmetry. apply andb_false_iff. rewrite !Z.leb_gt. unfold is_scalar in Hs. lia. }
  destruct (Z.ltb_spec cp 0x10000).
  - rewrite (lor_add 0xE0 _ 4); [done|lia| |done].
    split; [apply Z.div_pos; lia|]. apply Z.div_lt_upper_bound; lia.
  - rewrite (lor_add 0xF0 _ 3); [done|lia| |done].
    unfold is_scalar in Hs. split; [apply Z.div_pos; lia|]. apply Z.div_lt_upper_bound; lia.
Qed.

(** One continuation byte. *)
Lemma go_cont cp n lo hi x l :
  lo <= 0x80 + x mod 64 <= hi ->
  utf8_go (Utf8 cp (S n) lo hi) ((0x80 + x mod 64) :: l) =
  match n with
  | O => units_of (64 * cp + x mod 64) ++ utf8_go utf8_init l
  | S _ => utf8_go (Utf8 (64 * cp + x mod 64) n 0x80 0xBF) l
  end.
Proof.
  intros H. cbn [utf8_go u_need u_lower u_upper u_cp].
  replace ((lo <=? _) && _) with true by (symmetry; apply andb_true_iff; rewrite !Z.leb_le; done).
  cbv zeta. rewrite Z.shiftl_mul_pow2, low6 by lia.
  replace ((0x80 + x mod 64) mod 64) with (x mod 64).
  2: { rewrite <- Z.add_mod_idemp_l by lia. change (0x80 mod 64) with 0. by rewrite Z.add_0_l, Zmod_mod. }
  replace (cp * 2 ^ 6 + x mod 64) with (64 * cp + x mod 64) by lia. by destruct n.
Qed.

Lemma cont_range x : 0x80 <= 0x80 + x mod 64 <= 0xBF.
Proof. pose proof (Z.mod_pos_bound x 64). lia. Qed.

(** A first byte of each length. *)
Lemma go_first b l :
  utf8_go utf8_init (b :: l) = (utf8_first b).1 ++ utf8_go (utf8_first b).2 l.
Proof. cbn [utf8_go u_need utf8_init]. by destruct (utf8_first b). Qed.

Lemma first_two k : 2 <= k < 32 -> utf8_first (0xC0 + k) = ([], Utf8 k 1 0x80 0xBF).
Proof.
  intros H. assert (E : exists n, (n < 32)%nat /\ k = Z.of_nat n) by (exists (Z.to_nat k); lia).
  destruct E as (n & Hn & ->). do 2 (destruct n as [|n]; [lia|]). do 30 (destruct n as [|n]; [vm_compute; reflexivity|]). lia.
Qed.

Lemma first_three k :
  0 <= k < 16 ->
  utf8_first (0xE0 + k) = ([], Utf8 k 2 (if k =? 0 then 0xA0 else 0x80) (if k =? 13 then 0x9F else 0xBF)).
Proof.
  intros H. assert (E : exists n, (n < 16)%nat /\ k = Z.of_nat n) by (exists (Z.to_nat k); lia).
  destruct E as (n & Hn & ->). do 16 (destruct n as [|n]; [reflexivity|]). lia.
Qed.

Lemma first_four k :
  0 <= k < 5 ->
  utf8_first (0xF0 + k) = ([], Utf8 k 3 (if k =? 0 then 0x90 else 0x80) (if k =? 4 then 0x8F else 0xBF)).
Proof.
  intros H. assert (E : exists n, (n < 5)%nat /\ k = Z.of_nat n) by (exists (Z.to_nat k); lia).
  destruct E as (n & Hn & ->). do 5 (destruct n as [|n]; [reflexivity|]). lia.
Qed.

(** Splitting a code point into its six-bit groups. *)
Lemma six x : 0 <= x -> 64 * (x / 64) + x mod 64 = x.
Proof. intros. pose proof (Z.div_mod x 64). lia. Qed.
Lemma div_twice x : x / 64 / 64 = x / 4096.
Proof. by rewrite Z.div_div by lia. Qed.
Lemma div_thrice x : x / 4096 / 64 = x / 262144.
Proof. by rewrite Z.div_div by lia. Qed.

Lemma go_bytes cp l : is_scalar cp -> utf8_go utf8_init (utf8_bytes cp ++ l) = units_of cp ++ utf8_go utf8_init l.
Proof.
  intros Hs. unfold is_scalar in Hs. unfold utf8_bytes.
  pose proof (cont_range cp) as C1. pose proof (cont_range (cp / 64)) as C2. pose proof (cont_range (cp / 4096)) as C3.
  pose proof (six cp) as E1. pose proof (six (cp / 64)) as E2. pose proof (six (cp / 4096)) as E3.
  rewrite div_twice in E2. rewrite div_thrice in E3.
  assert (P : 0 <= cp / 64 /\ 0 <= cp / 4096 /\ 0 <= cp / 262144) by (split_and!; apply Z.div_pos; lia).
  destruct (Z.ltb_spec cp 0x80) as [H|H]; [|destruct (Z.ltb_spec cp 0x800) as [H'|H'];
    [|destruct (Z.ltb_spec cp 0x10000) as [H2|H2]]]; cbn [app]; rewrite go_first.
  - unfold utf8_first. destruct (Z.leb_spec cp 0x7F); [|lia]. cbn [fst snd]. by rewrite units_of_low by lia.
  - rewrite first_two by lia. cbn [fst snd app]. rewrite go_cont by lia. by rewrite E1 by lia.
  - rewrite first_three by lia. cbn [fst snd app].
    rewrite go_cont by (destruct (Z.eqb_spec (cp / 4096) 0), (Z.eqb_spec (cp / 4096) 13); lia).
    rewrite go_cont by lia. by rewrite E2, E1 by lia.
  - rewrite first_four by lia. cbn [fst snd app].
    rewrite go_cont by (destruct (Z.eqb_spec (cp / 262144) 0), (Z.eqb_spec (cp / 262144) 4); lia).
    rewrite !go_cont by lia. by rewrite E3, E2, E1 by lia.
Qed.

Lemma go_encode cs l :
  Forall scalar cs -> utf8_go utf8_init (mjoin (map utf8_char cs) ++ l) = mjoin cs ++ utf8_go utf8_init l.
Proof.
  induction 1 as [|c cs (cp & Hcp & ->) _ IH]; [done|]. rewrite map_cons, !mjoin_cons, <- !app_assoc.
  by rewrite utf8_char_bytes, go_bytes, IH by done.
Qed.

(** Decoding undoes encoding, on a text made of code points. *)
Lemma decode_encode s : Forall scalar (chars_of s) -> utf8_go utf8_init (utf8_encode s) = s.
Proof.
  intros H. unfold utf8_encode. rewrite <- (app_nil_r (mjoin _)), go_encode by done.
  simpl. by rewrite app_nil_r, chars_join.
Qed.

(** * What the decoder gives *)

(** [n] more bytes, the first in a range, make a code point. *)
Fixpoint ready (n : nat) (lo hi cp : Z) : Prop :=
  match n with
  | O => is_scalar cp
  | S n' => forall b, lo <= b <= hi -> ready n' 0x80 0xBF (64 * cp + (b - 0x80))
  end.

Definition pending (st : utf8_state) : Prop :=
  0x80 <= u_lower st /\ u_upper st <= 0xBF /\
  match u_need st with O => True | n => ready n (u_lower st) (u_upper st) (u_cp st) end.

Definition of_scalars (s : text) : Prop := exists cs, Forall scalar cs /\ s = mjoin cs.

Lemma of_scalars_nil : of_scalars [].
Proof. by exists []. Qed.

Lemma of_scalars_app c s : scalar c -> of_scalars s -> of_scalars (c ++ s).
Proof. intros Hc (cs & H & ->). exists (c :: cs). split; [by constructor|]. by rewrite mjoin_cons. Qed.

Lemma scalar_replacement : scalar REPLACEMENT.
Proof. exists 0xFFFD. unfold is_scalar. split; [lia|done]. Qed.

Lemma land_low b n k : 0 <= n -> 0 <= b - k * 2 ^ n < 2 ^ n -> Z.land b (Z.ones n) = b - k * 2 ^ n.
Proof.
  intros Hn H. rewrite Z.land_ones, Z.mod_eq by lia.
  replace (b / 2 ^ n) with k; [lia|]. apply Z.div_unique with (b - k * 2 ^ n); lia.
Qed.

Lemma pending_init : pending utf8_init.
Proof. unfold pending. cbn [utf8_init u_lower u_upper u_need]. lia. Qed.

(** The state after the first byte of a long sequence. *)
Lemma pending_long n lo hi cp :
  0x80 <= lo -> hi <= 0xBF -> ready (S n) lo hi cp -> pending (Utf8 cp (S n) lo hi).
Proof. intros H1 H2 H3. by unfold pending. Qed.

Lemma first_ok b :
  ((utf8_first b).1 = [] \/ scalar (utf8_first b).1) /\ pending (utf8_first b).2.
Proof.
  unfold utf8_first. destruct (Z.leb_spec b 0x7F).
  { split; [right|exact pending_init]. exists (Z.max 0 b). unfold is_scalar. split; [lia|].
    rewrite units_of_low by lia. cbn [fst]. f_equal. lia. }
  destruct ((0xC2 <=? b) && (b <=? 0xDF)) eqn:E2.
  { apply andb_true_iff in E2. rewrite !Z.leb_le in E2. split; [by left|]. apply pending_long; [lia..|].
    change 0x1F with (Z.ones 5). rewrite (land_low b 5 6) by lia. cbn [ready]. unfold is_scalar. lia. }
  destruct ((0xE0 <=? b) && (b <=? 0xEF)) eqn:E3.
  { apply andb_true_iff in E3. rewrite !Z.leb_le in E3. split; [by left|].
    change 0xF with (Z.ones 4). rewrite (land_low b 4 14) by lia.
    apply pending_long; [by destruct (b =? 0xE0)|by destruct (b =? 0xED)|]. cbn [ready]. unfold is_scalar.
    destruct (Z.eqb_spec b 0xE0), (Z.eqb_spec b 0xED); intros; lia. }
  destruct ((0xF0 <=? b) && (b <=? 0xF4)) eqn:E4.
  { apply andb_true_iff in E4. rewrite !Z.leb_le in E4. split; [by left|].
    change 0x7 with (Z.ones 3). rewrite (land_low b 3 30) by lia.
    apply pending_long; [by destruct (b =? 0xF0)|by destruct (b =? 0xF4)|]. cbn [ready]. unfold is_scalar.
    destruct (Z.eqb_spec b 0xF0), (Z.eqb_spec b 0xF4); intros; lia. }
  split; [right; apply scalar_replacement|exact pending_init].
Qed.

Lemma first_scalars b s : of_scalars s -> of_scalars ((utf8_first b).1 ++ s).
Proof. intros H. destruct (first_ok b) as [[->|Hc] _]; [done|by apply of_scalars_app]. Qed.

(** Whatever the bytes, the decoder gives code points. *)
Lemma go_scalars st l : pending st -> of_scalars (utf8_go st l).
Proof.
  revert st. induction l as [|b l IH]; intros st Hst.
  { cbn [utf8_go]. destruct (u_need st); [apply of_scalars_nil|].
    rewrite <- (app_nil_r REPLACEMENT). apply of_scalars_app, of_scalars_nil. apply scalar_replacement. }
  assert (Hf : of_scalars ((utf8_first b).1 ++ utf8_go (utf8_first b).2 l)).
  { apply first_scalars, IH, first_ok. }
  cbn [utf8_go]. destruct (utf8_first b) as [out st'] eqn:Eb. cbn [fst snd] in Hf.
  destruct Hst as (H1 & H2 & H3). destruct (u_need st) as [|n]; [done|].
  destruct (_ && _) eqn:E; [|by apply of_scalars_app; [apply scalar_replacement|]].
  apply andb_true_iff in E. rewrite !Z.leb_le in E. cbv zeta.
  change 0x3F with (Z.ones 6). rewrite (land_low b 6 2), Z.shiftl_mul_pow2 by lia.
  specialize (H3 b E). replace (u_cp st * 2 ^ 6 + (b - 2 * 2 ^ 6)) with (64 * u_cp st + (b - 0x80)) by lia.
  destruct n as [|n].
  - apply of_scalars_app; [by eexists|]. apply IH, pending_init.
  - apply IH. by apply pending_long.
Qed.

Lemma of_scalars_chars s : of_scalars s -> Forall scalar (chars_of s).
Proof. intros (cs & H & ->). by rewrite chars_of_mjoin. Qed.

(** ** Lengths *)

(** A unit may be owed for the bytes that wait for more. *)
Definition credit (st : utf8_state) : nat := match u_need st with O => 0%nat | S _ => 1%nat end.

Lemma first_credit b : (length (utf8_first b).1 + credit (utf8_first b).2 <= 1)%nat.
Proof.
  unfold utf8_first, credit. destruct (b <=? 0x7F); [done|]. do 3 (destruct (_ && _); [done|]). done.
Qed.

Lemma units_short cp : (length (units_of cp) <= 2)%nat.
Proof. unfold units_of. destruct (cp <? 0x10000); simpl; lia. Qed.

(** A text has at most as many units as its bytes. *)
Lemma go_length st l : (length (utf8_go st l) <= length l + credit st)%nat.
Proof.
  revert st. induction l as [|b l IH]; intros st; cbn [utf8_go].
  { unfold credit. by destruct (u_need st). }
  pose proof (first_credit b) as Hf. destruct (utf8_first b) as [out st'] eqn:Eb. cbn [fst snd] in Hf.
  pose proof (IH st') as H'. cbn [length]. destruct (u_need st) as [|n] eqn:En.
  { rewrite length_app. lia. }
  replace (credit st) with 1%nat by (unfold credit; by rewrite En).
  destruct (_ && _); [cbv zeta; destruct n as [|n]|].
  - rewrite length_app. pose proof (IH utf8_init) as H0. change (credit utf8_init) with 0%nat in H0.
    match goal with |- context [units_of ?cp] => pose proof (units_short cp) end. lia.
  - match goal with |- context [utf8_go ?x l] => pose proof (IH x) as H1; change (credit x) with 1%nat in H1 end. lia.
  - rewrite !length_app. change (length REPLACEMENT) with 1%nat. lia.
Qed.

(** * Strings *)

(** The byte string of a text, as [JSON] strings are kept. *)
Fixpoint of_bytes (l : list Z) : string :=
  match l with
  | [] => EmptyString
  | b :: l' => String (ascii_of_nat (Z.to_nat b)) (of_bytes l')
  end.
Definition to_string (s : text) : string := of_bytes (utf8_encode s).

Definition is_byte (b : Z) : Prop := 0 <= b < 256.

Lemma bytes_of_bytes l : Forall is_byte l -> string_bytes (of_bytes l) = l.
Proof.
  induction 1 as [|b l Hb _ IH]; [done|]. cbn [of_bytes string_bytes]. rewrite IH.
  unfold is_byte in Hb. rewrite nat_ascii_embedding by lia. f_equal. lia.
Qed.

Lemma utf8_bytes_ok cp : is_scalar cp -> Forall is_byte (utf8_bytes cp).
Proof.
  unfold is_scalar, utf8_bytes, is_byte. intros Hs.
  pose proof (cont_range cp). pose proof (cont_range (cp / 64)). pose proof (cont_range (cp / 4096)).
  assert (P : 0 <= cp / 64 /\ 0 <= cp / 4096 /\ 0 <= cp / 262144) by (split_and!; apply Z.div_pos; lia).
  destruct (Z.ltb_spec cp 0x80); [repeat constructor; lia|].
  destruct (Z.ltb_spec cp 0x800).
  { pose proof (Z.div_lt_upper_bound cp 64 32). repeat constructor; lia. }
  destruct (Z.ltb_spec cp 0x10000).
  { pose proof (Z.div_lt_upper_bound cp 4096 16). repeat constructor; lia. }
  pose proof (Z.div_lt_upper_bound cp 262144 5). repeat constructor; lia.
Qed.

Lemma encode_bytes s : Forall scalar (chars_of s) -> Forall is_byte (utf8_encode s).
Proof.
  unfold utf8_encode. induction 1 as [|c cs (cp & Hcp & ->) _ IH]; [constructor|].
  rewrite map_cons, mjoin_cons, utf8_char_bytes by done. apply Forall_app_2; [by apply utf8_bytes_ok|done].
Qed.

Lemma text_of_scalars s : Forall scalar (chars_of (text_of s)).
Proof. apply of_scalars_chars, go_scalars, pending_init. Qed.

Lemma text_of_to_string s : Forall scalar (chars_of s) -> text_of (to_string s) = s.
Proof. intros H. unfold LlmClient.text_of, to_string. by rewrite bytes_of_bytes, decode_encode by (done || by apply encode_bytes). Qed.

Lemma text_of_length s : (length (text_of s) <= String.length s)%nat.
Proof.
  unfold LlmClient.text_of. etransitivity; [apply go_length|]. change (credit utf8_init) with 0%nat.
  rewrite Nat.add_0_r. induction s as [|c s IH]; simpl; lia.
Qed.
