(* ===== verification/SecretSpans.v ===== *)
(** Where the secrets of [Redaction.detectSecrets] lie: each finding spans a
    non-empty part of the text, and that part is the value that was matched. *)
From stdpp Require Import base list strings.
From Stdlib Require Import NArith Lia.
From S2P Require Import Prelude Text Regex Redaction.

(** * Expressions that match alike *)

Section Ext.
Variables r1 r2 : regex.
Hypothesis Hr : forall (A : Type) (x : state) (k : state -> option A), rmatch r1 x k = rmatch r2 x k.

Lemma search_ext b a : search r1 b a = search r2 b a.
Proof. revert b. induction a as [|c a IH]; intros b; cbn [search]; rewrite Hr; [done|]. by rewrite IH. Qed.

Lemma match_all_go_ext fuel b a : match_all_go fuel r1 b a = match_all_go fuel r2 b a.
Proof.
  revert b a. induction fuel as [|fuel IH]; intros b a; cbn [match_all_go]; [done|]. rewrite search_ext.
  destruct (search r2 b a) as [[a0 y]|]; [|done]. f_equal. destruct (_ <? _); [apply IH|].
  by destruct (aft y).
Qed.

Lemma match_all_ext s : match_all r1 s = match_all r2 s.
Proof. apply match_all_go_ext. Qed.
End Ext.

(** * Groups *)

(** [r] is [p(b)c] up to the grouping of its sequence, [c] an assertion. *)
Inductive grouped (r : regex) : Prop :=
| Grouped (p b c : regex)
    (same : forall (A : Type) (x : state) (k : state -> option A),
      rmatch r x k = rmatch (p · RCap 1 b · c)%re x k)
    (one_group : no_caps p = true /\ no_caps b = true /\ no_caps c = true)
    (nonempty : 0 < min_len b)
    (assertion : forall x y, den c x y -> y = x).

Lemma group_span r s g :
  grouped r -> g ∈ iterGroup1 r s ->
  g_start g < g_end g <= length s /\ g_value g = slice (g_start g) (g_end g) s.
Proof.
  intros [p b c Hsame (Hp & Hb & Hc) Hn Ha]. unfold iterGroup1. rewrite (match_all_ext _ _ Hsame).
  rewrite list_elem_of_omap. intros (m & Hin & Hg).
  destruct (match_all_group_at 1 p b c s m Hp Hb Hc Hin) as (i & j & H1 & H2 & Hgr & _ & Hden & Hend).
  apply Ha, at_inj in Hend; [|lia..]. subst j. unfold group_match_of in Hg. rewrite Hgr in Hg. injection Hg as <-.
  apply den_min_len in Hden. destruct (at_length s i) as [_ E1], (at_length s (m_end m)) as [_ E2]; [lia..|].
  rewrite E1, E2 in Hden. cbn [g_start g_end g_value]. rewrite slice_length by lia.
  replace (m_index m + length (m_text m) - (m_end m - i)) with i by (unfold m_end in *; lia).
  replace (i + (m_end m - i)) with (m_end m) by lia. split; [lia|done].
Qed.

Lemma bounded_grouped r : bounded r -> grouped r.
Proof. intros (q & -> & Hq & Hn). exists RBound q RBound; [done|done|done|]. by intros x y [-> _]. Qed.

Lemma aws_secret_grouped : grouped AWS_SECRET_RE.
Proof.
  unfold AWS_SECRET_RE.
  match goal with |- grouped (?a · (?b · (?c · (?d · (?e · RCap 1 ?q)))))%re =>
    exists (a · b · c · d · e)%re q REps end.
  - done.
  - done.
  - vm_compute. lia.
  - by intros x y ->.
Qed.

Lemma specific_grouped p : p ∈ SPECIFIC_PATTERNS -> grouped p.1.2.
Proof.
  intros H. rewrite <- (take_drop 4 SPECIFIC_PATTERNS) in H. apply elem_of_app in H as [H|H].
  - by apply bounded_grouped, bounded_patterns.
  - unfold SPECIFIC_PATTERNS in H. simpl in H. apply list_elem_of_singleton in H as ->. apply aws_secret_grouped.
Qed.

(** * Findings *)

(** [f] reports a group of one of the patterns. *)
Definition spotted (s : text) (f : secret_finding) : Prop :=
  exists kind r c g, grouped r /\ g ∈ iterGroup1 r s /\ f = makeFinding kind g c.

Lemma specific_matches_spotted s kind r c gs st :
  grouped r -> (forall g, g ∈ gs -> g ∈ iterGroup1 r s) -> Forall (spotted s) st.2 ->
  Forall (spotted s) (fold_left (specific_match kind c) gs st).2.
Proof.
  intros Hr. revert st. induction gs as [|g gs IH]; intros st Hgs Hst; simpl; [done|].
  apply IH; [intros; apply Hgs; by right|]. unfold specific_match. case_bool_decide; [done|]. simpl.
  destruct (allowlisted kind g); [done|]. apply Forall_app_2; [done|]. constructor; [|constructor].
  exists kind, r, c, g. split_and!; [done| |done]. apply Hgs. by left.
Qed.

Lemma specific_passes_spotted s ps st :
  (forall p, p ∈ ps -> grouped p.1.2) -> Forall (spotted s) st.2 ->
  Forall (spotted s) (fold_left (specific_pass s) ps st).2.
Proof.
  revert st. induction ps as [|p ps IH]; intros st Hps Hst; simpl; [done|].
  apply IH; [intros; apply Hps; by right|]. eapply specific_matches_spotted; [|done|done]. apply Hps. by left.
Qed.

Lemma detected_spotted s f : f ∈ detectSecrets s -> spotted s f.
Proof.
  unfold detectSecrets. pose proof (specific_passes_spotted s SPECIFIC_PATTERNS ([], []) specific_grouped) as H.
  destruct (fold_left _ _ _) as [seen fs]. intros [Hf|Hf]%elem_of_app.
  - assert (Forall (spotted s) fs) as Hall by (apply H; constructor).
    eapply Forall_forall in Hall; [exact Hall|]. done.
  - apply list_elem_of_fmap in Hf as (g & -> & Hg%list_elem_of_filter).
    eexists _, GENERIC_TOKEN_RE, _, g.
    split_and!; [apply bounded_grouped, generic_bounded|apply Hg|done].
Qed.

(** Every finding spans a non-empty part of the text. *)
Lemma detected_span s f : f ∈ detectSecrets s -> s_start f < s_end f <= length s.
Proof. intros (kind & r & c & g & Hr & Hg & ->)%detected_spotted. by apply (group_span r s g). Qed.
