(* ===== verification/ChunkParse.v ===== *)
(** From the blocks of a model's answer to findings and intents:
    [llm/contract_coercion.ts], [review/tool_schema.ts] and
    [review/chunk_response_parser.ts], with the contracts of
    [libs/contracts/src/review_findings.v1.ts] and [arbitration_intent.v1.ts] as
    readers of JSON.  A string is the UTF-8 of its text; its length is counted in
    UTF-16 units, as JavaScript does.  A numeral stands for the value it writes;
    the code only compares confidences, and doubles order as their shortest
    numerals do.  Zod's [uuid] format is a parameter. *)
From Stdlib Require Import QArith.
From stdpp Require Import base list strings option.
From Stdlib Require Import ZArith Lia Ascii.
From S2P Require Import Prelude Json Text ChunkText ReviewPayload WebhookPayload Findings Aggregation LlmClient Utf8.
From S2P Require Arbitration.
Open Scope Z_scope.

(** * Coercion *)

(** What [coerceForContract] sees of a Zod schema: objects, strings with their
    [max], containers, and the wrappers ([ZodOptional], [ZodNullable],
    [ZodDefault], [ZodEffects]) that [unwrap] takes off. *)
Inductive zod :=
| ZodString (max : option nat)
| ZodObject (shape : list (string * zod))
| ZodArray (element : zod)
| ZodTuple (items : list zod)
| ZodSet (valueType : zod)
| ZodWrapped (inner : zod)
| ZodOther.

Fixpoint unwrap (schema : zod) : zod :=
  match schema with ZodWrapped inner => unwrap inner | _ => schema end.

Definition is_object_schema (z : zod) : bool := match unwrap z with ZodObject _ => true | _ => false end.

Definition innerModelAndContainer (core : zod) : option zod * bool :=
  match core with
  | ZodObject _ => (Some core, false)
  | ZodArray e | ZodSet e => (if is_object_schema e then Some e else None, true)
  | ZodTuple (e :: _) => (if is_object_schema e then Some e else None, true)
  | ZodTuple [] => (None, true)
  | _ => (None, false)
  end.

Definition TRUNCATION_SUFFIX : text := u "...".

(** [codepoints.slice(0, maxLen - 3).join("") + "..."], when there are too many. *)
Definition clip_text (maxLen : nat) (t : text) : text :=
  let codepoints := chars_of t in
  if (maxLen <? length codepoints)%nat
  then mjoin (take (maxLen - length TRUNCATION_SUFFIX) codepoints) ++ TRUNCATION_SUFFIX else t.
Definition clip (maxLen : nat) (s : string) : string :=
  if (maxLen <? length (chars_of (text_of s)))%nat then to_string (clip_text maxLen (text_of s)) else s.

Fixpoint assoc {A} (k : string) (l : list (string * A)) : option A :=
  match l with
  | [] => None
  | (k', x) :: l' => if String.eqb k k' then Some x else assoc k l'
  end.

Fixpoint coerceForContract (schema : zod) (payload : json) {struct payload} : json :=
  match unwrap schema, payload with
  | ZodObject shape, JObj kvs =>
      JObj (map (fun kv =>
        match kv with (k, value) =>
          (k, match assoc k shape with
              | None => value
              | Some field =>
                  match unwrap field with
                  | ZodString (Some maxLen) => match value with JStr s => JStr (clip maxLen s) | _ => value end
                  | ZodString None => value
                  | fieldCore =>
                      match innerModelAndContainer fieldCore with
                      | (None, _) => value
                      | (Some inner, false) =>
                          match value with JObj _ => coerceForContract inner value | _ => value end
                      | (Some inner, true) =>
                          match value with
                          | JArr l => JArr (map (fun item =>
                              match item with JObj _ => coerceForContract inner item | _ => item end) l)
                          | _ => value
                          end
                      end
                  end
              end)
        end) kvs)
  | _, _ => payload
  end.

(** * Numbers *)

(** The value of a canonical numeral: [-]digits[.digits][e±digits]. *)
Definition exponent_of (s : string) : option Z :=
  match s with
  | String "+" e => digits_of e
  | String "-" e => Z.opp <$> digits_of e
  | _ => None
  end.
Definition scaled (n e : Z) : Q :=
  if 0 <=? e then inject_Z (n * 10 ^ e) else (n # Z.to_pos (10 ^ (- e)))%Q.
Definition mantissa_of (s : string) : option (Z * Z) :=
  match JsString.cut "." s with
  | None => n ← digits_of s; Some (n, 0)
  | Some (a, b) => n ← digits_of (a +:+ b); Some (n, - Z.of_nat (String.length b))
  end.
Definition magnitude_of (s : string) : option Q :=
  match JsString.cut "e" s with
  | None => m ← mantissa_of s; Some (scaled m.1 m.2)
  | Some (a, x) => m ← mantissa_of a; e ← exponent_of x; Some (scaled m.1 (m.2 + e))
  end.
Definition number_of (s : string) : option Q :=
  match s with
  | String "-" s' => Qopp <$> magnitude_of s'
  | _ => magnitude_of s
  end.

(** * The contracts *)

(** An own property; a missing one takes the default, if there is one. *)
Definition field {A} (k : string) (kvs : list (string * json)) (read : json -> option A) (absent : option A) : option A :=
  match get k kvs with Some v => read v | None => absent end.
Definition check (b : bool) : option unit := if b then Some tt else None.
Definition strict (names : list string) (kvs : list (string * json)) : option unit :=
  check (forallb (fun kv => existsb (String.eqb kv.1) names) kvs).

Definition z_nullable {A} (read : json -> option A) (v : json) : option (option A) :=
  match v with JNull => Some None | _ => Some <$> read v end.
Definition z_array {A} (read : json -> option A) (v : json) : option (list A) :=
  match v with JArr l => all_some (map read l) | _ => None end.
Definition z_enum {A} (values : list (string * A)) (v : json) : option A :=
  match v with JStr s => assoc s values | _ => None end.
Definition z_literal1 (v : json) : option unit :=
  match v with JNum s => check (String.eqb s "1") | _ => None end.
Definition z_number (v : json) : option Q := match v with JNum s => number_of s | _ => None end.
Definition z_int_gte (lo : Z) (v : json) : option Z :=
  match v with JNum s => n ← int_of s; _ ← check (lo <=? n); Some n | _ => None end.

Definition SeverityEnum : list (string * Severity) :=
  [("nit", nit); ("suggestion", suggestion); ("issue", issue); ("blocker", blocker)]%string.
Definition CategoryEnum : list (string * Category) :=
  [("bug", bug); ("security", security); ("performance", performance); ("style", style); ("test", test);
   ("docs", docs); ("config", config); ("context_breaks_consumer", context_breaks_consumer); ("other", other)]%string.
Definition CitationKindEnum : list (string * CitationKind) :=
  [("repo_path", repo_path); ("knowledge_chunk", knowledge_chunk); ("linter_rule", linter_rule);
   ("policy_rule", policy_rule)]%string.
Definition FindingScopeEnum : list (string * FindingScope) :=
  [("chunk_observed", chunk_observed); ("cross_chunk", cross_chunk); ("pr_global", pr_global)]%string.

Section Contracts.
(** The check behind [.max(n)] of a string. *)
Variable fits : nat -> string -> bool.

Definition z_string (min : nat) (max : option nat) (v : json) : option string :=
  match v with
  | JStr s =>
      _ ← check ((min <=? length (text_of s))%nat && match max with Some m => fits m s | None => true end);
      Some s
  | _ => None
  end.

Definition CITATION_KEYS : list string := ["kind"; "locator"; "excerpt"]%string.
Definition CitationV1 (v : json) : option citation :=
  match v with
  | JObj kvs =>
      _ ← strict CITATION_KEYS kvs;
      kind ← field "kind" kvs (z_enum CitationKindEnum) None;
      locator ← field "locator" kvs (z_string 1 (Some 500%nat)) None;
      excerpt ← field "excerpt" kvs (z_nullable (z_string 0 (Some 300%nat))) (Some None);
      Some (Citation kind locator excerpt)
  | _ => None
  end.

Definition FINDING_KEYS : list string :=
  ["schema_version"; "file"; "start_line"; "end_line"; "severity"; "category"; "title"; "body"; "suggestion";
   "confidence"; "sources"; "scope"; "evidence_refs"]%string.

(** [ReviewFindingV1.parse], with its two refinements at the end. *)
Definition ReviewFindingV1 (v : json) : option finding :=
  match v with
  | JObj kvs =>
      _ ← strict FINDING_KEYS kvs;
      _ ← field "schema_version" kvs z_literal1 (Some tt);
      file ← field "file" kvs (z_string 1 None) None;
      start ← field "start_line" kvs (z_int_gte 1) None;
      stop ← field "end_line" kvs (z_int_gte 1) None;
      sev ← field "severity" kvs (z_enum SeverityEnum) None;
      cat ← field "category" kvs (z_enum CategoryEnum) None;
      title_ ← field "title" kvs (z_string 1 (Some 200%nat)) None;
      body_ ← field "body" kvs (z_string 1 (Some 2000%nat)) None;
      sugg ← field "suggestion" kvs (z_nullable (z_string 0 None)) (Some None);
      conf ← field "confidence" kvs z_number None;
      _ ← check (Qle_bool 0 conf && Qle_bool conf 1);
      srcs ← field "sources" kvs (z_array CitationV1) (Some []);
      scope_ ← field "scope" kvs (z_enum FindingScopeEnum) (Some chunk_observed);
      refs ← field "evidence_refs" kvs (z_array (z_string 0 None)) (Some []);
      _ ← check (length refs <=? 20)%nat;
      _ ← check ((start <=? stop) && forallb ev_id refs);
      Some (Finding file start stop sev cat title_ body_ sugg conf srcs scope_ refs)
  | _ => None
  end.

Variable zod_uuid : string -> bool.

(** [CONFIDENCE_TEXT]: no leading zero, at most three places. *)
Definition whole_part (s : string) : bool :=
  match s with
  | String "0" s' => String.eqb s' ""
  | _ => JsString.all_digits s
  end.
Definition confidence_text (s : string) : bool :=
  match JsString.cut "." s with
  | None => whole_part s
  | Some (a, b) => whole_part a && JsString.all_digits b && (String.length b <=? 3)%nat
  end.

(** A number is taken as its numeral; the refinements bound its value. *)
Definition z_confidence (v : json) : option string :=
  match v with
  | JNum s | JStr s =>
      _ ← check (confidence_text s && Qle_bool 0 (Arbitration.Number s) && Qle_bool (Arbitration.Number s) 1); Some s
  | _ => None
  end.
Definition z_uuid (v : json) : option string :=
  match v with JStr s => _ ← check (zod_uuid s); Some (JsString.to_lower s) | _ => None end.

Definition INTENT_KEYS : list string :=
  ["schema_version"; "target_finding_id"; "action"; "confidence"; "reason"]%string.
Definition MAX_REASON_CHARS : nat := 2048.

Definition ArbitrationIntentV1 (v : json) : option Arbitration.intent :=
  match v with
  | JObj kvs =>
      _ ← strict INTENT_KEYS kvs;
      _ ← field "schema_version" kvs z_literal1 (Some tt);
      target ← field "target_finding_id" kvs z_uuid None;
      _ ← field "action" kvs (z_enum [("SUPPRESS"%string, tt)]) (Some tt);
      conf ← field "confidence" kvs z_confidence None;
      reason ← field "reason" kvs (z_string 1 (Some MAX_REASON_CHARS)) None;
      Some (Arbitration.Intent target conf reason)
  | _ => None
  end.
End Contracts.

(** [.max(n)] counts units. *)
Definition max_units (n : nat) (s : string) : bool := (length (text_of s) <=? n)%nat.

(** The schemas, as [coerceForContract] walks them. *)
Definition CitationShape : zod :=
  ZodObject [("kind", ZodOther); ("locator", ZodString (Some 500%nat));
             ("excerpt", ZodWrapped (ZodWrapped (ZodString (Some 300%nat))))]%string.
Definition ReviewFindingShape : zod :=
  ZodWrapped (ZodObject
    [("schema_version", ZodWrapped ZodOther); ("file", ZodString None); ("start_line", ZodOther);
     ("end_line", ZodOther); ("severity", ZodOther); ("category", ZodOther);
     ("title", ZodString (Some 200%nat)); ("body", ZodString (Some 2000%nat));
     ("suggestion", ZodWrapped (ZodWrapped (ZodString None))); ("confidence", ZodOther);
     ("sources", ZodWrapped (ZodArray CitationShape)); ("scope", ZodWrapped ZodOther);
     ("evidence_refs", ZodWrapped (ZodArray (ZodString None)))]%string).
Definition ArbitrationIntentShape : zod :=
  ZodObject
    [("schema_version", ZodWrapped ZodOther); ("target_finding_id", ZodWrapped (ZodString None));
     ("action", ZodWrapped ZodOther); ("confidence", ZodWrapped (ZodWrapped (ZodString None)));
     ("reason", ZodString (Some MAX_REASON_CHARS))]%string.

(** * Tool blocks *)

Definition REVIEW_TOOL_NAME : string := "report_finding".
Definition ARBITRATION_INTENT_TOOL_NAME : string := "report_arbitration_intent".

Inductive parse_reason := InputNotObject | ContractViolation.
Record ReviewFindingParseError := ParseError { pe_blockId : string; pe_reason : parse_reason }.

Section Parser.
Variable zod_uuid : string -> bool.

Definition block_id (block : json) : string :=
  match prop "id" block with None => "<no-id>" | Some v => js_string v end.
Definition is_tool_use (block : json) : bool :=
  match prop "type" block with Some (JStr t) => String.eqb t "tool_use" | _ => false end.
Definition named (name : string) (block : json) : bool :=
  match prop "name" block with Some (JStr t) => String.eqb t name | _ => false end.
Definition input_of (block : json) : option json :=
  match prop "input" block with Some (JObj kvs) => Some (JObj kvs) | _ => None end.

Definition read_finding (payload : json) : option finding :=
  ReviewFindingV1 max_units (coerceForContract ReviewFindingShape payload).
Definition read_intent (payload : json) : option Arbitration.intent :=
  ArbitrationIntentV1 max_units zod_uuid (coerceForContract ArbitrationIntentShape payload).

(** One turn of the loop; [prop] finds nothing on what is not an object. *)
Definition parse_block (block : json) : result ReviewFindingParseError (list finding * list Arbitration.intent) :=
  if is_tool_use block then
    if named REVIEW_TOOL_NAME block then
      match input_of block with
      | None => Throw (ParseError (block_id block) InputNotObject)
      | Some payload =>
          match read_finding payload with
          | Some f => Ok ([f], [])
          | None => Throw (ParseError (block_id block) ContractViolation)
          end
      end
    else if named ARBITRATION_INTENT_TOOL_NAME block then
      match input_of block ≫= read_intent with Some i => Ok ([], [i]) | None => Ok ([], []) end
    else Ok ([], [])
  else Ok ([], []).

Fixpoint parseToolUse (blocks : list json) : result ReviewFindingParseError (list finding * list Arbitration.intent) :=
  match blocks with
  | [] => Ok ([], [])
  | block :: rest =>
      let? one := parse_block block in
      let? more := parseToolUse rest in
      Ok (one.1 ++ more.1, one.2 ++ more.2)
  end.

(** * The boundary *)

Definition ACTIVITY_NAME : string := "bedrock_review_chunk".

(** What is returned, and what was counted on the way: the scopes refused, the
    findings with invalid references, those without any (with the label of the
    counter), and the blocks skipped. *)
Record parsed := Parsed {
  p_findings : list finding;
  p_intents : list Arbitration.intent;
  p_scope_violations : list FindingScope;
  p_invalid_refs : nat;
  p_without_refs : list bool;
  p_skipped : list ReviewFindingParseError;
}.
Definition nothing_parsed : parsed := Parsed [] [] [] 0 [] [].

Definition isSubset (refs allowed : list string) : bool :=
  forallb (fun ref => existsb (String.eqb ref) allowed) refs.

Section Boundary.
(** [None]: evidence is not validated. *)
Variable allowedEvidenceIds : option (list string).

Definition manifestPresent : bool :=
  match allowedEvidenceIds with Some (_ :: _) => true | _ => false end.

Definition keep (f : finding) (st : parsed) : parsed :=
  Parsed (p_findings st ++ [f]) (p_intents st) (p_scope_violations st) (p_invalid_refs st) (p_without_refs st) (p_skipped st).

Definition take_finding (st : parsed) (f : finding) : parsed :=
  if negb (activityMayEmitScope ACTIVITY_NAME (scope f)) then
    Parsed (p_findings st) (p_intents st) (p_scope_violations st ++ [scope f]) (p_invalid_refs st) (p_without_refs st) (p_skipped st)
  else
    match allowedEvidenceIds with
    | None => keep f st
    | Some allowed =>
        match evidence_refs f with
        | [] => keep f (Parsed (p_findings st) (p_intents st) (p_scope_violations st) (p_invalid_refs st)
                          (p_without_refs st ++ [manifestPresent]) (p_skipped st))
        | refs =>
            if isSubset refs allowed then keep f st
            else Parsed (p_findings st) (p_intents st) (p_scope_violations st) (p_invalid_refs st + 1)%nat
                   (p_without_refs st) (p_skipped st)
        end
    end.

Definition take_block (st : parsed) (block : json) : parsed :=
  match parseToolUse [block] with
  | Throw e => Parsed (p_findings st) (p_intents st) (p_scope_violations st) (p_invalid_refs st)
                 (p_without_refs st) (p_skipped st ++ [e])
  | Ok (blockFindings, blockIntents) =>
      let st := fold_left take_finding blockFindings st in
      Parsed (p_findings st) (p_intents st ++ blockIntents) (p_scope_violations st) (p_invalid_refs st)
        (p_without_refs st) (p_skipped st)
  end.

Definition parseWithSkipMalformed (blocks : list json) : parsed := fold_left take_block blocks nothing_parsed.
End Boundary.
End Parser.

(** * Lemmas: clipping *)

(** Every code point of the text is one unit. *)
Definition basic (s : string) : Prop := length (chars_of (text_of s)) = length (text_of s).

Lemma dots : u "..." = mjoin [[46]; [46]; [46]]%N /\ Forall scalar [[46]; [46]; [46]]%N.
Proof. split; [done|]. repeat constructor; exists 46; unfold is_scalar; (split; [lia|done]). Qed.

Lemma clip_text_chars n t :
  Forall scalar (chars_of t) ->
  chars_of (clip_text n t) =
    if (n <? length (chars_of t))%nat then take (n - 3) (chars_of t) ++ [[46]; [46]; [46]]%N else chars_of t.
Proof.
  intros H. unfold clip_text. change (length TRUNCATION_SUFFIX) with 3%nat.
  destruct (_ <? _)%nat; [|done]. destruct dots as [E Hd]. unfold TRUNCATION_SUFFIX. rewrite E, <- mjoin_app.
  apply chars_of_mjoin, Forall_app_2; [by apply Forall_take|done].
Qed.

Lemma clip_text_scalars n t : Forall scalar (chars_of t) -> Forall scalar (chars_of (clip_text n t)).
Proof.
  intros H. rewrite clip_text_chars by done. destruct (_ <? _)%nat; [|done].
  apply Forall_app_2; [by apply Forall_take|apply dots].
Qed.

Lemma text_of_clip n s : text_of (clip n s) = clip_text n (text_of s).
Proof.
  unfold clip. destruct (_ <? _)%nat eqn:E; [|unfold clip_text; by rewrite E].
  apply text_of_to_string, clip_text_scalars, text_of_scalars.
Qed.

(** At most [n] code points are left. *)
Lemma clip_codepoints n s : (3 <= n)%nat -> (length (chars_of (text_of (clip n s))) <= n)%nat.
Proof.
  intros Hn. rewrite text_of_clip, clip_text_chars by apply text_of_scalars.
  destruct (Nat.ltb_spec n (length (chars_of (text_of s)))); [|lia]. rewrite length_app, length_take. simpl. lia.
Qed.

Lemma scalar_length c : scalar c -> (1 <= length c)%nat.
Proof. intros (cp & _ & ->). unfold units_of. destruct (_ <? _); simpl; lia. Qed.

Lemma basic_singles cs :
  Forall scalar cs -> length (mjoin cs) = length cs -> Forall (fun c => length c = 1%nat) cs.
Proof.
  assert (Hle : forall l, Forall scalar l -> (length l <= length (mjoin l))%nat).
  { induction 1 as [|c l Hc _ IH]; [done|]. rewrite mjoin_cons, length_app. pose proof (scalar_length c Hc). simpl. lia. }
  induction 1 as [|c cs Hc Hcs IH]; [constructor|]. rewrite mjoin_cons, length_app. simpl. intros E.
  pose proof (scalar_length c Hc). pose proof (Hle cs Hcs). constructor; [|apply IH]; lia.
Qed.

Lemma singles_length cs : Forall (fun c : text => length c = 1%nat) cs -> length (mjoin cs) = length cs.
Proof. induction 1 as [|c cs Hc _ IH]; [done|]. rewrite mjoin_cons, length_app, IH, Hc. done. Qed.

(** A clipped basic text fits. *)
Lemma clip_fits n s : (3 <= n)%nat -> basic s -> max_units n (clip n s) = true.
Proof.
  intros Hn Hb. unfold max_units. apply Nat.leb_le. etransitivity; [|apply (clip_codepoints n s Hn)].
  rewrite <- (chars_join (text_of (clip n s))) at 1. rewrite singles_length; [done|].
  rewrite text_of_clip, clip_text_chars by apply text_of_scalars.
  assert (Forall (fun c => length c = 1%nat) (chars_of (text_of s))) as H1.
  { apply basic_singles; [apply text_of_scalars|]. by rewrite chars_join. }
  destruct (_ <? _)%nat; [|done]. apply Forall_app_2; [by apply Forall_take|by repeat constructor].
Qed.

Lemma clip_nonempty n s :
  (1 <=? length (text_of (clip n s)))%nat = (1 <=? length (text_of s))%nat.
Proof.
  rewrite text_of_clip. unfold clip_text. destruct (Nat.ltb_spec n (length (chars_of (text_of s)))) as [H|H]; [|done].
  rewrite length_app. change (length TRUNCATION_SUFFIX) with 3%nat. destruct (text_of s) as [|c l] eqn:E; [simpl in H; lia|].
  simpl. by rewrite Nat.add_comm.
Qed.

(** * Lemmas: what coercion does to a contract *)

(** Any length will do. *)
Definition any_length (n : nat) (s : string) : bool := true.

Definition clip_v (n : nat) (v : json) : json := match v with JStr s => JStr (clip n s) | _ => v end.

Lemma z_string_clip n v :
  z_string max_units 1 (Some n) (clip_v n v) =
  (s ← z_string any_length 1 (Some n) v; _ ← check (max_units n (clip n s)); Some (clip n s)).
Proof.
  destruct v; try done. cbn [clip_v z_string any_length]. rewrite clip_nonempty, andb_true_r.
  destruct (_ <=? _)%nat; [|done]. cbn [check mbind option_bind andb]. done.
Qed.

Lemma z_string0_clip n v :
  z_string max_units 0 (Some n) (clip_v n v) =
  (s ← z_string any_length 0 (Some n) v; _ ← check (max_units n (clip n s)); Some (clip n s)).
Proof. destruct v; done. Qed.

Lemma get_map (F : string -> json -> json) k kvs :
  get k (map (fun kv => (kv.1, F kv.1 kv.2)) kvs) = F k <$> get k kvs.
Proof.
  unfold get. induction kvs as [|[k' v] kvs IH]; [done|]. cbn [map list_find fst snd].
  destruct (decide (k' = k)) as [->|Hne]; [done|].
  destruct (list_find _ (map _ _)) as [[i p]|], (list_find _ kvs) as [[j q]|]; exact IH.
Qed.

Lemma strict_map (F : string -> json -> json) names kvs :
  strict names (map (fun kv => (kv.1, F kv.1 kv.2)) kvs) = strict names kvs.
Proof. unfold strict. f_equal. induction kvs as [|kv kvs IH]; [done|]. simpl. by rewrite IH. Qed.

(** A field of a coerced object. *)
Lemma field_map {A} (F : string -> json -> json) k kvs (read : json -> option A) d :
  field k (map (fun kv => (kv.1, F kv.1 kv.2)) kvs) read d = field k kvs (fun v => read (F k v)) d.
Proof. unfold field. rewrite get_map. by destruct (get k kvs). Qed.

Definition then_clip {A} (ok : A -> bool) (f : A -> A) (m : option A) : option A :=
  x ← m; _ ← check (ok x); Some (f x).

Lemma field_then {A} k kvs (read read' : json -> option A) d d' ok (f : A -> A) :
  (forall v, read' v = then_clip ok f (read v)) -> d' = then_clip ok f d ->
  field k kvs read' d' = then_clip ok f (field k kvs read d).
Proof. intros H ->. unfold field. by destruct (get k kvs). Qed.

Definition excerpt_fits (o : option string) : bool :=
  match o with Some s => max_units 300 (clip 300 s) | None => true end.
Definition citation_fits (c : citation) : bool := max_units 500 (clip 500 (c_locator c)) && excerpt_fits (c_excerpt c).
Definition clip_citation (c : citation) : citation :=
  Citation (c_kind c) (clip 500 (c_locator c)) (clip 300 <$> c_excerpt c).

Ltac break_checks :=
  repeat match goal with |- context [check ?b] => let E := fresh in destruct b eqn:E; cbn [check mbind option_bind] end.

Definition citation_value (k : string) (v : json) : json :=
  match assoc k [("kind", ZodOther); ("locator", ZodString (Some 500%nat));
                 ("excerpt", ZodWrapped (ZodWrapped (ZodString (Some 300%nat))))]%string with
  | Some field => match unwrap field with ZodString (Some m) => clip_v m v | _ => v end
  | None => v
  end.

Lemma coerce_citation kvs :
  coerceForContract CitationShape (JObj kvs) = JObj (map (fun kv => (kv.1, citation_value kv.1 kv.2)) kvs).
Proof.
  cbn [coerceForContract CitationShape unwrap]. f_equal. apply map_ext. intros [k v]. cbn [fst snd]. f_equal.
  unfold citation_value. cbn [assoc]. by repeat destruct (String.eqb _ _).
Qed.

Lemma excerpt_clip v :
  z_nullable (z_string max_units 0 (Some 300%nat)) (citation_value "excerpt" v) =
  then_clip excerpt_fits (fmap (clip 300)) (z_nullable (z_string any_length 0 (Some 300%nat)) v).
Proof. destruct v; try done. cbn. by destruct (max_units _ _). Qed.

Lemma CitationV1_clip kvs :
  CitationV1 max_units (coerceForContract CitationShape (JObj kvs)) =
  then_clip citation_fits clip_citation (CitationV1 any_length (JObj kvs)).
Proof.
  rewrite coerce_citation. cbn [CitationV1]. rewrite strict_map, !field_map.
  rewrite (field_then "locator" kvs (z_string any_length 1 (Some 500%nat)) _ None None
             (fun s => max_units 500 (clip 500 s)) (clip 500)) by (done || exact (z_string_clip 500)).
  rewrite (field_then "excerpt" kvs (z_nullable (z_string any_length 0 (Some 300%nat))) _ (Some None) (Some None)
             excerpt_fits (fmap (clip 300))) by (done || exact excerpt_clip).
  unfold then_clip. destruct (strict _ _); [|done]. cbn [mbind option_bind].
  change (fun v => z_enum CitationKindEnum (citation_value "kind" v)) with (z_enum CitationKindEnum).
  destruct (field "kind" _ _ _) as [kind|]; [|done]. cbn [mbind option_bind].
  destruct (field "locator" _ _ _) as [loc|]; [|done]. cbn [mbind option_bind].
  destruct (field "excerpt" _ _ _) as [ex|]; cbn [mbind option_bind]; unfold citation_fits; cbn [c_locator c_excerpt];
    [|by break_checks].
  by destruct (max_units 500 (clip 500 loc)), (excerpt_fits ex).
Qed.

Definition sources_fit (l : list citation) : bool := forallb citation_fits l.

Lemma all_some_clip {A} (read read' : json -> option A) ok (f : A -> A) l :
  (forall v, v ∈ l -> read' v = then_clip ok f (read v)) ->
  all_some (map read' l) = then_clip (forallb ok) (map f) (all_some (map read l)).
Proof.
  induction l as [|v l IH]; intros H; [done|]. cbn [map all_some]. rewrite H by apply list_elem_of_here.
  rewrite IH by (intros; apply H; by apply list_elem_of_further). unfold then_clip.
  destruct (read v) as [x|]; [|done]. cbn [mbind option_bind].
  destruct (all_some (map read l)) as [xs|]; cbn [mbind option_bind forallb map]; [|by break_checks].
  by destruct (ok x), (forallb ok xs).
Qed.

Definition sources_value (v : json) : json :=
  match v with
  | JArr l => JArr (map (fun item => match item with JObj _ => coerceForContract CitationShape item | _ => item end) l)
  | _ => v
  end.

Lemma sources_clip v :
  z_array (CitationV1 max_units) (sources_value v) =
  then_clip sources_fit (map clip_citation) (z_array (CitationV1 any_length) v).
Proof.
  destruct v as [| | | |l| |]; try done. cbn [sources_value z_array]. rewrite map_map.
  apply all_some_clip. intros v _. destruct v as [| | | | |kvs|]; try done. apply CitationV1_clip.
Qed.

(** The value of a property of a coerced finding. *)
Definition finding_value (k : string) (v : json) : json :=
  if String.eqb k "title" then clip_v 200 v
  else if String.eqb k "body" then clip_v 2000 v
  else if String.eqb k "sources" then sources_value v
  else v.

Lemma coerce_finding kvs :
  coerceForContract ReviewFindingShape (JObj kvs) = JObj (map (fun kv => (kv.1, finding_value kv.1 kv.2)) kvs).
Proof.
  cbn [coerceForContract ReviewFindingShape unwrap]. f_equal. apply map_ext. intros [k v]. cbn [fst snd]. f_equal.
  unfold finding_value. cbn [assoc].
  repeat (match goal with |- context [String.eqb ?a ?b] => destruct (String.eqb_spec a b) as [->|] end; [done|]). done.
Qed.

Definition text_fits (f : finding) : bool :=
  max_units 200 (clip 200 (title f)) && max_units 2000 (clip 2000 (body f)) && sources_fit (sources f).
Definition clip_finding (f : finding) : finding :=
  Finding (f_file f) (start_line f) (end_line f) (severity f) (category f) (clip 200 (title f)) (clip 2000 (body f))
    (f_suggestion f) (confidence f) (map clip_citation (sources f)) (scope f) (evidence_refs f).

Lemma check_some b x : check b = Some x -> b = true.
Proof. by destruct b. Qed.
Lemma check_none b : check b = None -> b = false.
Proof. by destruct b. Qed.

(** Take the first step of the left side, then of the right. *)
Ltac step_left :=
  lazymatch goal with
  | |- mbind _ (mbind _ ?m) = _ => destruct m eqn:?; cbn [mbind option_bind]
  | |- mbind _ (check ?b) = _ => destruct b eqn:?; cbn [check mbind option_bind]
  | |- mbind _ ?m = _ => destruct m eqn:?; cbn [mbind option_bind]
  end.
Ltac step_right :=
  lazymatch goal with
  | |- _ = mbind _ (mbind _ ?m) => destruct m eqn:?; cbn [mbind option_bind]
  | |- _ = mbind _ (check ?b) => destruct b eqn:?; cbn [check mbind option_bind]
  | |- _ = mbind _ ?m => destruct m eqn:?; cbn [mbind option_bind]
  end.

Lemma read_finding_clip kvs :
  read_finding (JObj kvs) = then_clip text_fits clip_finding (ReviewFindingV1 any_length (JObj kvs)).
Proof.
  unfold read_finding. rewrite coerce_finding. cbn [ReviewFindingV1]. rewrite strict_map, !field_map.
  rewrite (field_then "title" kvs (z_string any_length 1 (Some 200%nat)) _ None None
             (fun s => max_units 200 (clip 200 s)) (clip 200)) by (done || exact (z_string_clip 200)).
  rewrite (field_then "body" kvs (z_string any_length 1 (Some 2000%nat)) _ None None
             (fun s => max_units 2000 (clip 2000 s)) (clip 2000)) by (done || exact (z_string_clip 2000)).
  rewrite (field_then "sources" kvs (z_array (CitationV1 any_length)) _ (Some []) (Some [])
             sources_fit (map clip_citation)) by (done || exact sources_clip).
  unfold then_clip. repeat (match goal with |- context [field ?k kvs (fun v => ?r (finding_value _ v)) ?d] =>
    change (field k kvs (fun v => r (finding_value k v)) d) with (field k kvs r d) end).
  change (z_string max_units 1 None) with (z_string any_length 1 None).
  change (z_string max_units 0 None) with (z_string any_length 0 None).
  repeat step_left. all: repeat step_right.
  all: unfold text_fits in *; cbn [title body sources] in *.
  all: try done.
  all: repeat match goal with
    | H : check _ = Some _ |- _ => apply check_some in H; rewrite ?H in *; clear H
    | H : check _ = None |- _ => apply check_none in H; rewrite ?H in *; clear H
    end; rewrite ?andb_false_r in *; done.
Qed.

(** * Lemmas: what a reader gives *)

Lemma z_string_some fits lo hi v s :
  z_string fits lo hi v = Some s ->
  (lo <= length (text_of s))%nat /\ match hi with Some m => fits m s = true | None => True end.
Proof.
  destruct v as [| | |s'| | |]; try done. cbn [z_string]. destruct (_ && _) eqn:E; [|done]. intros [= ->].
  apply andb_true_iff in E as [E1 E2]. apply Nat.leb_le in E1. split; [done|]. by destruct hi.
Qed.

Lemma z_int_some lo v n : z_int_gte lo v = Some n -> lo <= n.
Proof.
  destruct v; try done. cbn [z_int_gte]. destruct (int_of _) as [m|]; [|done]. cbn [mbind option_bind].
  destruct (Z.leb_spec lo m); [|done]. by intros [= <-].
Qed.

Lemma field_some {A} k kvs (read : json -> option A) d x (P : A -> Prop) :
  field k kvs read d = Some x -> (forall v, read v = Some x -> P x) -> (d = Some x -> P x) -> P x.
Proof. unfold field. destruct (get k kvs); eauto. Qed.

Lemma all_some_forall {A B} (read : A -> option B) (P : B -> Prop) l xs :
  (forall v x, read v = Some x -> P x) -> all_some (map read l) = Some xs -> Forall P xs.
Proof.
  intros H. revert xs. induction l as [|v l IH]; intros xs; cbn [map all_some]; [by intros [= <-]|].
  destruct (read v) as [x|] eqn:E; [|done]. cbn [mbind option_bind]. destruct (all_some _) as [ys|]; [|done].
  intros [= <-]. constructor; eauto.
Qed.

Definition units (lo hi : nat) (s : string) : Prop := (lo <= length (text_of s) <= hi)%nat.

Definition citation_valid (c : citation) : Prop :=
  units 1 500 (c_locator c) /\ forall e, c_excerpt c = Some e -> units 0 300 e.

(** The contract, on the record. *)
Record finding_valid (f : finding) : Prop := FindingValid {
  fv_file : (1 <= length (text_of (f_file f)))%nat;
  fv_lines : 1 <= start_line f <= end_line f;
  fv_title : units 1 200 (title f);
  fv_body : units 1 2000 (body f);
  fv_confidence : (0 <= confidence f <= 1)%Q;
  fv_sources : Forall citation_valid (sources f);
  fv_refs : (length (evidence_refs f) <= 20)%nat /\ Forall (fun r => ev_id r = true) (evidence_refs f);
}.

Lemma z_string_units lo hi v s : z_string max_units lo (Some hi) v = Some s -> units lo hi s.
Proof. intros [H1 H2]%z_string_some. unfold max_units in H2. apply Nat.leb_le in H2. by split. Qed.

(** Go through the steps of a reader that succeeded. *)
Ltac steps H :=
  lazymatch type of H with
  | mbind _ (check ?b) = _ => let E := fresh "E" in destruct b eqn:E; [|done]; cbn [check mbind option_bind] in H; steps H
  | mbind _ ?m = _ => let E := fresh "E" in destruct m as [?|] eqn:E; [|done]; cbn [mbind option_bind] in H; steps H
  | Some _ = Some _ => injection H as <-
  end.

Lemma CitationV1_valid v c : CitationV1 max_units v = Some c -> citation_valid c.
Proof.
  destruct v as [| | | | |kvs|]; try done. cbn [CitationV1]. intros H. steps H. split; cbn [c_locator c_excerpt].
  - eapply (field_some _ _ _ _ _ _ E1); [|done]. intros v. apply z_string_units.
  - apply (field_some _ _ _ _ _ (fun o => forall e, o = Some e -> units 0 300 e) E2); [|by intros [= <-]].
    intros v Hv e ->. destruct v; try done.
    cbn [z_nullable] in Hv. destruct (z_string _ _ _ _) eqn:Hz; [|done]. injection Hv as ->. by eapply z_string_units.
Qed.

Lemma ReviewFindingV1_valid v f : ReviewFindingV1 max_units v = Some f -> finding_valid f.
Proof.
  destruct v as [| | | | |kvs|]; try done. cbn [ReviewFindingV1]. intros H. steps H.
  assert (T : forall k lo hi s, field k kvs (z_string max_units lo (Some hi)) None = Some s -> units lo hi s).
  { intros k lo hi s' Hs. eapply (field_some _ _ _ _ _ _ Hs); [|done]. intros v. apply z_string_units. }
  assert (N : forall k n, field k kvs (z_int_gte 1) None = Some n -> 1 <= n).
  { intros k n Hn. eapply (field_some _ _ _ _ _ _ Hn); [|done]. intros v. apply z_int_some. }
  repeat match goal with H : _ && _ = true |- _ => apply andb_true_iff in H as [? ?] end.
  split; cbn [f_file start_line end_line title body confidence sources evidence_refs]; eauto.
  - apply (field_some _ _ _ _ _ (fun s => (1 <= length (text_of s))%nat) E1); [|done].
    intros v Hv. by apply z_string_some in Hv as [Hv _].
  - split; [eauto|]. by apply Z.leb_le.
  - split; by apply Qle_bool_iff.
  - apply (field_some _ _ _ _ _ (Forall citation_valid) E11); [|by intros [= <-]]. intros [] Hv; try done.
    eapply all_some_forall, Hv. apply CitationV1_valid.
  - split; [by apply Nat.leb_le|]. apply List.Forall_forall. by apply forallb_forall.
Qed.

(** The contract of an intent, on the record. *)
Definition intent_valid (zod_uuid : string -> bool) (i : Arbitration.intent) : Prop :=
  (exists s, zod_uuid s = true /\ Arbitration.target_finding_id i = JsString.to_lower s) /\
  (exists v, z_confidence v = Some (Arbitration.i_confidence i)) /\
  units 1 MAX_REASON_CHARS (Arbitration.i_reason i).

Lemma ArbitrationIntentV1_valid zod_uuid v i :
  ArbitrationIntentV1 max_units zod_uuid v = Some i -> intent_valid zod_uuid i.
Proof.
  destruct v as [| | | | |kvs|]; try done. cbn [ArbitrationIntentV1]. intros H. steps H.
  unfold intent_valid. cbn [Arbitration.target_finding_id Arbitration.i_confidence Arbitration.i_reason]. split_and!.
  - apply (field_some _ _ _ _ _ (fun s => exists s', zod_uuid s' = true /\ s = JsString.to_lower s') E1); [|done].
    intros v Hv. destruct v as [| | |s'| | |]; try done. cbn [z_uuid] in Hv.
    destruct (zod_uuid s') eqn:Hs; [|done]. injection Hv as <-. by exists s'.
  - apply (field_some _ _ _ _ _ (fun s => exists v, z_confidence v = Some s) E3); [|done]. eauto.
  - apply (field_some _ _ _ _ _ (units 1 MAX_REASON_CHARS) E4); [|done]. intros v. apply z_string_units.
Qed.

(** What a block yields fulfils its contract. *)
Lemma parse_block_valid zod_uuid b fs ints :
  parse_block zod_uuid b = Ok (fs, ints) -> Forall finding_valid fs /\ Forall (intent_valid zod_uuid) ints.
Proof.
  assert (Hnil : Forall finding_valid [] /\ Forall (intent_valid zod_uuid) []) by (split; constructor).
  unfold parse_block. destruct (is_tool_use b); [|by intros [= <- <-]].
  destruct (named REVIEW_TOOL_NAME b).
  { destruct (input_of b) as [payload|]; [|done]. destruct (read_finding payload) as [f|] eqn:E; [|done].
    intros [= <- <-]. split; [|constructor]. constructor; [|constructor]. by eapply ReviewFindingV1_valid. }
  destruct (named _ b); [|by intros [= <- <-]]. destruct (input_of b ≫= _) as [i|] eqn:E; [|by intros [= <- <-]].
  intros [= <- <-]. split; constructor; [|constructor]. destruct (input_of b); [|done].
  by eapply ArbitrationIntentV1_valid.
Qed.

(** * Lemmas: the boundary *)

Definition join_parsed (a b : parsed) : parsed :=
  Parsed (p_findings a ++ p_findings b) (p_intents a ++ p_intents b) (p_scope_violations a ++ p_scope_violations b)
    (p_invalid_refs a + p_invalid_refs b) (p_without_refs a ++ p_without_refs b) (p_skipped a ++ p_skipped b).

Lemma join_nothing a : join_parsed a nothing_parsed = a.
Proof. destruct a. unfold join_parsed; simpl. by rewrite !app_nil_r, Nat.add_0_r. Qed.

Lemma join_assoc a b c : join_parsed (join_parsed a b) c = join_parsed a (join_parsed b c).
Proof. unfold join_parsed; simpl. by rewrite <- !app_assoc, Nat.add_assoc. Qed.

(** A loop whose turn only adds is the sum of its turns. *)
Lemma fold_join {A} (turn : parsed -> A -> parsed) l st :
  (forall st x, turn st x = join_parsed st (turn nothing_parsed x)) ->
  fold_left turn l st = join_parsed st (fold_left turn l nothing_parsed).
Proof.
  intros H. revert st. induction l as [|x l IH]; intros st; [symmetry; apply join_nothing|]. simpl.
  rewrite IH, (IH (turn nothing_parsed x)), H. apply join_assoc.
Qed.

Section BoundaryLemmas.
Variable zod_uuid : string -> bool.
Variable allowed : option (list string).
Abbreviation take_f := (take_finding allowed).
Abbreviation take_b := (take_block zod_uuid allowed).
Abbreviation run := (parseWithSkipMalformed zod_uuid allowed).

Ltac compare_parsed := unfold join_parsed, keep; simpl; by rewrite ?app_nil_r, ?Nat.add_0_r, <- ?app_assoc.

Lemma take_finding_join st f : take_f st f = join_parsed st (take_f nothing_parsed f).
Proof.
  unfold take_finding. destruct st, (negb _); [compare_parsed|]. destruct allowed as [l|]; [|compare_parsed].
  destruct (evidence_refs f) as [|r refs]; [compare_parsed|]. destruct (isSubset _ _); compare_parsed.
Qed.

Lemma parseToolUse_one b : parseToolUse zod_uuid [b] = parse_block zod_uuid b.
Proof.
  unfold parseToolUse. destruct (parse_block _ b) as [[fs ints]|e]; [|done]. simpl. by rewrite !app_nil_r.
Qed.

Lemma take_block_join st b : take_b st b = join_parsed st (take_b nothing_parsed b).
Proof.
  unfold take_block. rewrite parseToolUse_one. destruct (parse_block _ b) as [[fs ints]|e]; [|destruct st; compare_parsed].
  rewrite (fold_join _ fs st) by apply take_finding_join. destruct st, (fold_left _ fs nothing_parsed). compare_parsed.
Qed.

Lemma run_app xs ys : run (xs ++ ys) = join_parsed (run xs) (run ys).
Proof. unfold parseWithSkipMalformed. rewrite fold_left_app. apply fold_join, take_block_join. Qed.

Lemma run_cons b bs : run (b :: bs) = join_parsed (take_b nothing_parsed b) (run bs).
Proof. unfold parseWithSkipMalformed. simpl. apply fold_join, take_block_join. Qed.

(** The blocks that report a finding, and what they report. *)
Definition reports (b : json) : bool := is_tool_use b && named REVIEW_TOOL_NAME b.
Definition reported (b : json) : option finding := if reports b then input_of b ≫= read_finding else None.

Definition grounded (f : finding) : Prop :=
  match allowed with None => True | Some l => forall r, r ∈ evidence_refs f -> r ∈ l end.
Definition welcome (f : finding) : Prop := scope f = chunk_observed /\ grounded f.

Lemma isSubset_spec refs l : isSubset refs l = true <-> forall r, r ∈ refs -> r ∈ l.
Proof.
  unfold isSubset. rewrite forallb_forall. split; intros H r Hr.
  - apply list_elem_of_In, H, existsb_exists in Hr as (x & Hx & ->%String.eqb_eq). by apply list_elem_of_In.
  - apply existsb_exists. exists r. rewrite String.eqb_refl. split; [|done]. by apply list_elem_of_In, H, list_elem_of_In.
Qed.

(** A finding is kept, or one of the two counters says why not. *)
Lemma take_finding_cases f :
  let out := take_f nothing_parsed f in
  p_skipped out = [] /\ p_intents out = [] /\
  (welcome f /\ p_findings out = [f] /\ p_scope_violations out = [] /\ p_invalid_refs out = 0%nat \/
   ~ welcome f /\ p_findings out = [] /\ (length (p_scope_violations out) + p_invalid_refs out)%nat = 1%nat).
Proof.
  unfold take_finding, welcome, grounded. destruct (scope f) eqn:Es; cbn [activityMayEmitScope negb].
  2,3: split_and!; [done..|right; split_and!; [by intros []|done..]].
  destruct allowed as [l|]; [|split_and!; [done..|by left]].
  destruct (evidence_refs f) as [|r refs] eqn:Er.
  { split_and!; [done..|left]. split_and!; [done| |done..]. intros x Hx. by apply elem_of_nil in Hx. }
  destruct (isSubset (r :: refs) l) eqn:E.
  - split_and!; [done..|left]. split_and!; [done| |done..]. by apply isSubset_spec.
  - split_and!; [done..|right]. split_and!; [|done..]. intros [_ H]. apply isSubset_spec in H. congruence.
Qed.

Lemma take_block_cases b :
  let out := take_b nothing_parsed b in
  (forall f, f ∈ p_findings out <-> reported b = Some f /\ welcome f) /\
  (length (p_findings out) + length (p_scope_violations out) + p_invalid_refs out + length (p_skipped out))%nat
    = (if reports b then 1 else 0)%nat.
Proof.
  unfold take_block. rewrite parseToolUse_one. unfold parse_block, reported, reports.
  destruct (is_tool_use b); cbn [andb].
  2: { split; [|done]. intros f. split; [by intros ?%elem_of_nil|by intros [? _]]. }
  destruct (named REVIEW_TOOL_NAME b).
  - destruct (input_of b) as [payload|]; cbn [mbind option_bind].
    2: { split; [|done]. intros f. split; [by intros ?%elem_of_nil|by intros [? _]]. }
    destruct (read_finding payload) as [f|].
    2: { split; [|done]. intros f. split; [by intros ?%elem_of_nil|by intros [? _]]. }
    cbn [fold_left]. pose proof (take_finding_cases f) as H. simpl in H |- *. rewrite ?app_nil_r.
    destruct H as (-> & _ & [(Hw & -> & -> & ->)|(Hw & -> & E)]); simpl.
    + split; [|done]. intros g. rewrite list_elem_of_singleton. split; [by intros ->|by intros [[= ->] _]].
    + split; [|lia]. intros g. split; [by intros ?%elem_of_nil|]. by intros [[= ->] ?].
  - destruct (named ARBITRATION_INTENT_TOOL_NAME b); [destruct (input_of b ≫= _)|]; simpl.
    all: split; [|done]; intros f; split; [by intros ?%elem_of_nil|by intros [? _]].
Qed.

Lemma take_block_valid b :
  Forall finding_valid (p_findings (take_b nothing_parsed b)) /\
  Forall (intent_valid zod_uuid) (p_intents (take_b nothing_parsed b)).
Proof.
  unfold take_block. rewrite parseToolUse_one. destruct (parse_block zod_uuid b) as [[fs ints]|e] eqn:E.
  2: { split; constructor. }
  apply parse_block_valid in E as [Hf Hi]. cbn [p_findings p_intents].
  assert (H : Forall finding_valid (p_findings (fold_left take_f fs nothing_parsed)) /\
              p_intents (fold_left take_f fs nothing_parsed) = []); [|destruct H as [H1 ->]; by split].
  clear Hi. induction fs as [|f fs IH]; [by split; [constructor|]|]. apply Forall_cons_1 in Hf as [Hf Hfs].
  simpl. rewrite (fold_join _ fs) by apply take_finding_join. destruct (IH Hfs) as [H1 H2].
  cbn [join_parsed p_findings p_intents]. pose proof (take_finding_cases f) as H. simpl in H.
  destruct H as (_ & -> & H). rewrite H2. split; [|done]. apply Forall_app_2; [|done].
  destruct H as [(_ & -> & _)|(_ & -> & _)]; [by apply Forall_singleton|by constructor].
Qed.

Lemma run_valid bs : Forall finding_valid (p_findings (run bs)) /\ Forall (intent_valid zod_uuid) (p_intents (run bs)).
Proof.
  induction bs as [|b bs [H1 H2]]; [split; constructor|]. rewrite run_cons.
  destruct (take_block_valid b). cbn [join_parsed p_findings p_intents]. split; by apply Forall_app_2.
Qed.
End BoundaryLemmas.

Lemma read_finding_valid payload f : read_finding payload = Some f -> finding_valid f.
Proof. apply ReviewFindingV1_valid. Qed.

Lemma reported_valid b f : reported b = Some f -> finding_valid f.
Proof.
  unfold reported. destruct (reports b); [|done]. destruct (input_of b); [|done]. apply read_finding_valid.
Qed.

Definition basic_citation (c : citation) : Prop :=
  basic (c_locator c) /\ forall e, c_excerpt c = Some e -> basic e.
Definition basic_finding (f : finding) : Prop :=
  basic (title f) /\ basic (body f) /\ Forall basic_citation (sources f).

Lemma basic_fits f : basic_finding f -> text_fits f = true.
Proof.
  intros (H1 & H2 & H3). unfold text_fits. rewrite !clip_fits by (done || lia). simpl.
  unfold sources_fit. apply forallb_forall. intros c Hc. eapply List.Forall_forall in H3 as [H4 H5]; [|exact Hc].
  unfold citation_fits. rewrite clip_fits by (done || lia). simpl. unfold excerpt_fits.
  destruct (c_excerpt c) as [e|]; [|done]. apply clip_fits; [lia|auto].
Qed.

(** * Theorems *)

(** C18: The boundary keeps exactly the findings that are reported, well formed
    after coercion, of the chunk's own scope, and grounded in the manifest that was
    issued; each fulfils the contract.  Every report is kept or counted once: as a
    scope violation, an invalid reference or a skipped block.  A block changes
    nothing for the others. *)
Theorem parser_keeps_exactly zod_uuid allowed blocks :
  let run := parseWithSkipMalformed zod_uuid allowed in
  let out := run blocks in
  (forall f, f ∈ p_findings out <-> exists b, b ∈ blocks /\ reported b = Some f /\ welcome allowed f) /\
  (forall f, f ∈ p_findings out -> finding_valid f) /\
  (length (p_findings out) + length (p_scope_violations out) + p_invalid_refs out + length (p_skipped out))%nat
    = length (List.filter reports blocks) /\
  (forall before after, blocks = before ++ after -> out = join_parsed (run before) (run after)).
Proof.
  intros run out.
  assert (Hkept : forall f, f ∈ p_findings out <-> exists b, b ∈ blocks /\ reported b = Some f /\ welcome allowed f).
  { subst out run. induction blocks as [|b bs IH]; intros f.
    { split; [by intros ?%elem_of_nil|by intros (b & ?%elem_of_nil & _)]. }
    rewrite run_cons. cbn [join_parsed p_findings]. rewrite elem_of_app, IH, (proj1 (take_block_cases _ _ b)).
    setoid_rewrite elem_of_cons. naive_solver. }
  split_and!; [done| | |].
  - intros f (b & _ & Hf & _)%Hkept. by eapply reported_valid.
  - clear Hkept. subst out run. induction blocks as [|b bs IH]; [done|].
    rewrite run_cons. cbn [join_parsed p_findings p_scope_violations p_invalid_refs p_skipped List.filter].
    rewrite !length_app. pose proof (proj2 (take_block_cases zod_uuid allowed b)) as H. simpl in H.
    destruct (reports b); simpl; lia.
  - intros before after ->. apply run_app.
Qed.

(** C33: Text that is too long never costs a finding its place, as long as each
    of its code points is one unit: what fulfils the contract but for the upper
    bounds on lengths is kept, each long text cut to its bound; and whatever is kept
    arose so. *)
Theorem coercion_forgives_length payload f :
  ReviewFindingV1 any_length payload = Some f -> basic_finding f ->
  read_finding payload = Some (clip_finding f) /\
  (length (chars_of (text_of (title (clip_finding f)))) <= 200)%nat /\
  (length (chars_of (text_of (body (clip_finding f)))) <= 2000)%nat /\
  (forall other g, read_finding other = Some g ->
     exists h, ReviewFindingV1 any_length other = Some h /\ g = clip_finding h).
Proof.
  intros Hf Hb. split_and!; [|apply clip_codepoints; lia..|].
  - destruct payload as [| | | | |kvs|]; try done. rewrite read_finding_clip, Hf. unfold then_clip.
    cbn [mbind option_bind]. by rewrite basic_fits.
  - intros other g Hg. destruct other as [| | | | |kvs|]; try done. rewrite read_finding_clip in Hg.
    unfold then_clip in Hg. steps Hg. by eexists.
Qed.

(** ** Examples *)

Definition sample_payload (title_ : string) : json :=
  JObj [("file", JStr "src/a.ts"); ("start_line", JNum "3"); ("end_line", JNum "4"); ("severity", JStr "issue");
        ("category", JStr "bug"); ("title", JStr title_); ("body", JStr "Off by one."); ("confidence", JNum "0.9")]%string.
Definition repeated (n : nat) (s : string) : string := Nat.iter n (String.append s) ""%string.
(** U+1F600, two units. *)
Definition grin : string := of_bytes [0xF0; 0x9F; 0x98; 0x80].

Lemma coercion_forgives_length_witness :
  exists f, ReviewFindingV1 any_length (sample_payload (repeated 250 "a")) = Some f /\ basic_finding f /\
    read_finding (sample_payload (repeated 250 "a")) = Some (clip_finding f) /\
    title (clip_finding f) = (repeated 197 "a" +:+ "...")%string.
Proof.
  eexists. split; [vm_compute; reflexivity|].
  match goal with |- basic_finding ?f /\ _ => assert (Hb : basic_finding f) end.
  { split_and!; [vm_compute; reflexivity..|constructor]. }
  split; [exact Hb|]. split; [|vm_compute; reflexivity].
  refine (proj1 (coercion_forgives_length (sample_payload (repeated 250 "a")) _ _ Hb)). vm_compute. reflexivity.
Defined.

(** The cut counts code points and the contract units: a title of 150 emoji is
    within the one bound and beyond the other, and the finding is dropped. *)
Example long_emoji_title_is_dropped :
  let payload := sample_payload (repeated 150 grin) in
  is_Some (ReviewFindingV1 any_length payload) /\
  length (chars_of (text_of (repeated 150 grin))) = 150%nat /\
  coerceForContract ReviewFindingShape payload = payload /\
  read_finding payload = None.
Proof. split_and!; [eexists|..]; vm_compute; reflexivity. Qed.
