(* ===== verification/SafetyAudit.v ===== *)
(** [activities/emit_output_safety_audit.activity.ts]: the audit row of a sanitized
    answer.  Its two statements see what others commit in between, so they are two
    steps of a program of [Programs]; the codec of the [before] column is a
    parameter that may refuse. *)
From stdpp Require Import base list strings pretty.
From Stdlib Require Import ZArith Lia.
From S2P Require Import Prelude Text Uuid5 OutputSafety Programs ChunkReview.
Open Scope Z_scope.
Open Scope prog_scope.

(** * The identifier *)

Definition NAMESPACE_OUTPUT_SAFETY : string := "fa01b6f4-9e2c-4d8f-b3a0-7f1e8c2a5b39".

Definition event_name (e : sanitization_event) : string :=
  (se_request_id e +:+ "|" +:+ JsString.join "," (sort_by str_leb (se_detector_kinds e)) +:+ "|" +:+
   pretty (Z.of_nat (se_spans_redacted e)) +:+ "|" +:+ se_stage e)%string.
Definition deriveAuditEventId (e : sanitization_event) : string := uuid5 NAMESPACE_OUTPUT_SAFETY (event_name e).

(** * The table *)

(** What the activity writes to [audit.audit_events] that varies. *)
Record audit_row := AuditRow {
  au_id : string;
  au_installation : string;
  au_target : string;
  au_before : string;
  au_created : Z;
}.

Inductive audit_error := AuditDatabase | AuditZod | AuditNoDsn | AuditNoKey | AuditUnique.
Inductive audit_call := AuditNow.
Definition AuditSig : sig := Sig (list audit_row) audit_call (fun _ => Z) audit_error.

Definition of_event (id installation : string) (r : audit_row) : bool :=
  String.eqb (au_id r) id && String.eqb (au_installation r) installation.

Definition select_existing (id installation : string) (t : list audit_row)
    : result audit_error (list audit_row * bool) :=
  Ok (t, existsb (of_event id installation) t).

(** The primary key is [(audit_event_id, created_at)]. *)
Definition insert_row (r : audit_row) (t : list audit_row) : result audit_error (list audit_row * unit) :=
  if existsb (fun x => String.eqb (au_id x) (au_id r) && (au_created x =? au_created r)) t
  then Throw AuditUnique else Ok (t ++ [r], tt).

Section Emit.
Variable zod_uuid : string -> bool.
(** [encryptAuditJsonBytea]: the event and its identifier to bytes, unless there is no key. *)
Variable encrypt : sanitization_event -> string -> option string.
Variable has_dsn : bool.

Definition emitOutputSafetyAuditEvent (input : sanitization_event) : prog AuditSig unit :=
  match parse_event zod_uuid input with
  | Throw _ => Raise (AuditZod : s_error AuditSig)
  | Ok event =>
      let id := deriveAuditEventId event in
      sure has_dsn else (AuditNoDsn : s_error AuditSig) in
      await existing := @tx AuditSig bool (select_existing id (se_installation_id event)) in
      if existing then Return tt
      else
        await now := @call AuditSig AuditNow in
        match encrypt event id with
        | None => Raise (AuditNoKey : s_error AuditSig)
        | Some before =>
            @tx AuditSig unit (insert_row (AuditRow id (se_installation_id event) (se_request_id event) before now))
        end
  end.
End Emit.

(** * Proofs *)

Lemma of_event_own id installation target before now :
  of_event id installation (AuditRow id installation target before now) = true.
Proof. unfold of_event. cbn [au_id au_installation]. by rewrite !String.eqb_refl. Qed.

Section Once.
Context {G : Type}.
Variables (zod_uuid : string -> bool) (encrypt : sanitization_event -> string -> option string) (has_dsn : bool).
Variable answers : forall c : audit_call, G -> G -> result audit_error Z -> Prop.
Variable R : list audit_row * G -> list audit_row * G -> Prop.
Variables (id installation : string).

Abbreviation wpc := (@wpc AuditSig G answers R AuditDatabase _).
Abbreviation mine := (fun t => List.filter (of_event id installation) t).

(** Others leave the rows of the event alone. *)
Hypothesis alone : forall s s1, R s s1 -> mine s1.1 = mine s.1.

Definition at_most_one (s : list audit_row * G) : Prop := (length (mine s.1) <= 1)%nat.

Lemma existing_spec t : existsb (of_event id installation) t = false <-> mine t = [].
Proof.
  induction t as [|r t IH]; [done|]. cbn [existsb List.filter]. destruct (of_event _ _ r); [|done]. done.
Qed.

Lemma one_left t :
  existsb (of_event id installation) t = true -> (length (mine t) <= 1)%nat -> length (mine t) = 1%nat.
Proof.
  intros H Hle. destruct (mine t) as [|x l] eqn:E; [|simpl in *; lia].
  apply existing_spec in E. congruence.
Qed.

Lemma appended t r : mine t = [] -> of_event id installation r = true -> length (mine (t ++ [r])) = 1%nat.
Proof. intros Ht Hr. rewrite List.filter_app, Ht. cbn [List.filter]. by rewrite Hr. Qed.

Lemma emit_keeps event input s :
  parse_event zod_uuid input = Ok event -> deriveAuditEventId event = id -> se_installation_id event = installation ->
  at_most_one s ->
  wpc at_most_one (emitOutputSafetyAuditEvent zod_uuid encrypt has_dsn input)
    (fun r s' => r = Ok tt -> length (mine s'.1) = 1%nat) s.
Proof.
  intros Hp Hid Hin HI. unfold emitOutputSafetyAuditEvent. rewrite Hp. cbv zeta. rewrite Hid, Hin.
  destruct has_dsn; [|by apply wpc_raise].
  assert (HR : forall s s1, at_most_one s -> R s s1 -> at_most_one s1) by (unfold at_most_one; intros ? ? ? H; by rewrite (alone _ _ H)).
  apply wpc_bind, wpc_tx; [done|]. intros s1 H1. assert (I1 : at_most_one s1) by eauto.
  split_and!; [done|done|done|]. intros d found [= <- <-]. split; [by destruct s1|]. split; [|done].
  match goal with |- context [existsb ?p ?l] => destruct (existsb p l) eqn:E end.
  { apply wpc_return; [by destruct s1|]. intros _. exact (one_left s1.1 E I1). }
  apply existing_spec in E. apply wpc_bind, wpc_call; [by destruct s1|].
  intros s2 g2 r2 H2 _. pose proof (alone _ _ H2) as E2. simpl in E2. rewrite E in E2.
  assert (I2 : at_most_one (s2.1, g2)) by (unfold at_most_one; simpl; rewrite E2; simpl; lia).
  split; [done|]. destruct r2 as [now|e]; [|done].
  destruct (encrypt event id) as [before|]; [|by apply wpc_raise].
  apply wpc_tx; [done|]. intros s3 H3. pose proof (alone _ _ H3) as E3. simpl in E3. rewrite E2 in E3.
  assert (I3 : at_most_one s3) by (unfold at_most_one; rewrite E3; simpl; lia).
  split_and!; [done|done|done|]. intros d x Hx. unfold insert_row in Hx. destruct (existsb _ s3.1); [done|].
  injection Hx as <- <-.
  pose proof (appended s3.1 (AuditRow id installation (se_request_id event) before now) E3
    (of_event_own id installation _ _ _)) as Em.
  split; [unfold at_most_one; exact (Nat.eq_le_incl _ _ Em)|]. by split.
Qed.

(** C32: A sanitized answer is audited once: however often the activity is attempted
    for its event, one attempt after the other, whatever fails and wherever an
    attempt is killed, there is never a second row; an attempt that ends well leaves
    one. *)
Theorem audit_written_once input event s s' :
  parse_event zod_uuid input = Ok event -> deriveAuditEventId event = id -> se_installation_id event = installation ->
  (length (mine s.1) <= 1)%nat ->
  sessions (S := AuditSig) answers R AuditDatabase (fun q => q = emitOutputSafetyAuditEvent zod_uuid encrypt has_dsn input) s s' ->
  (length (mine s'.1) <= 1)%nat /\
  forall s2, runs (S := AuditSig) answers R AuditDatabase (emitOutputSafetyAuditEvent zod_uuid encrypt has_dsn input)
               s' (Some (Ok tt)) s2 -> length (mine s2.1) = 1%nat.
Proof.
  intros Hp Hid Hin HI Hs. assert (HI' : at_most_one s').
  { eapply sessions_invariant; [| |exact HI|exact Hs].
    - intros s1 s2 H1 H. unfold at_most_one in *. by rewrite (alone _ _ H).
    - intros q s1 -> H1. eapply wpc_mono; [| |by apply (emit_keeps event input)]; done. }
  split; [exact HI'|]. intros s2 Hr.
  by destruct (wpc_adequate _ _ _ _ _ _ _ _ _ (emit_keeps event input s' Hp Hid Hin HI') Hr) as [_ H]; eapply H.
Qed.
End Once.

(** ** Scenarios *)

Module Audited.
(** What becomes of the answer of [Sample]. *)
Definition event (requestId : string) : sanitization_event :=
  SanitizationEvent LlmClient.Toy.org requestId (u Sample.token) (u "token [REDACTED];") 1 ["github_pat"%string] "review_chunk".

Definition first_request : string := "aaaaaaaa-2222-4333-8444-555555555555".
Definition second_request : string := "bbbbbbbb-2222-4333-8444-555555555555".

Definition codec (e : sanitization_event) (id : string) : option string := Some "sealed"%string.
Definition emit (requestId : string) : prog AuditSig unit :=
  emitOutputSafetyAuditEvent Sample.any_uuid codec true (event requestId).

(** The clock counts. *)
Definition serve (c : audit_call) (g : Z) : Z * result audit_error Z := (g + 1, Ok g).
Definition hears (c : audit_call) (g g' : Z) (r : result audit_error Z) : Prop := (g', r) = serve c g.
Definition still (s s1 : list audit_row * Z) : Prop := s1 = s.
Definition run (requestId : string) (s : list audit_row * Z) := @exec AuditSig Z serve _ (emit requestId) s.
Definition table (s : list audit_row * Z) : list audit_row := s.1.

Example event_of_answer requestId :
  sanitizeAndContinue Sample.any_uuid Sample.context
    (Safety.validate Redaction.detectSecrets Safety.MAX_OUTPUT_CHARS (LlmClient.text_of Sample.token)) [] Sample.token requestId
  = Ok (ReviewResult [] [] (Some (SanitizationEvent LlmClient.Toy.org (JsString.to_lower requestId) (u Sample.token)
          (u "token [REDACTED];") 1 ["github_pat"%string] "review_chunk"))).
Proof. vm_compute. reflexivity. Qed.
End Audited.

#[local] Opaque deriveAuditEventId.

Lemma still_alone id installation (s s1 : list audit_row * Z) :
  Audited.still s s1 -> List.filter (of_event id installation) s1.1 = List.filter (of_event id installation) s.1.
Proof. by intros ->. Qed.

Lemma first_attempt (s0 : list audit_row * Z) :
  sessions (S := AuditSig) Audited.hears Audited.still AuditDatabase
    (fun q => q = Audited.emit Audited.first_request) s0 (Audited.run Audited.first_request s0).2.
Proof.
  eapply (@sessions_attempt AuditSig Z); [constructor|reflexivity|].
  apply (exec_runs (S := AuditSig) Audited.hears Audited.still AuditDatabase Audited.serve); [by intros|].
  intros c g. by unfold Audited.hears, Audited.serve.
Qed.

#[local] Opaque Audited.run emitOutputSafetyAuditEvent.

Lemma audit_written_once_witness :
  let e := Audited.event Audited.first_request in
  let s0 := ([], 5) : list audit_row * Z in
  let out := (Audited.run Audited.first_request s0).2 in
  length (Audited.table out) = 1%nat /\
  (length (List.filter (of_event (deriveAuditEventId e) (se_installation_id e)) (Audited.table out)) <= 1)%nat.
Proof.
  intros e s0 out. split; [vm_compute; reflexivity|].
  pose proof (audit_written_once (G := Z) Sample.any_uuid Audited.codec true Audited.hears Audited.still
    (deriveAuditEventId e) (se_installation_id e) (still_alone _ _) e e s0 out eq_refl eq_refl eq_refl
    (le_S _ _ (le_n 0)) (first_attempt s0)) as [H _].
  exact H.
Defined.

(** A second attempt of the same event adds nothing; but every call of the model
    client takes a fresh request id, a replayed answer included, so the same answer,
    sanitized again when its review is retried, has another identifier and is
    audited again. *)
Example replayed_answer_is_audited_twice :
  let once := (Audited.run Audited.first_request ([], 5)).2 in
  let again := (Audited.run Audited.first_request once).2 in
  let retried := (Audited.run Audited.second_request once).2 in
  length (Audited.table again) = 1%nat /\ length (Audited.table retried) = 2%nat.
Proof. vm_compute. done. Qed.

(** Two attempts of one event side by side both miss the other's row, and the key
    of the table, which includes the instant, lets both in. *)
Example side_by_side_audits_twice :
  let theirs := (Audited.run Audited.first_request ([], 5)).2 in
  exists s', runs (S := AuditSig) Audited.hears (fun s s1 => s1 = s \/ s.1 = [] /\ s1 = (theirs.1, 6)) AuditDatabase
    (Audited.emit Audited.first_request) ([], 5) (Some (Ok tt)) s' /\ length (Audited.table s') = 2%nat.
Proof.
  intros theirs. eexists. split.
  - right. exists ([], 5). split; [by left|]. left. do 2 eexists. split; [reflexivity|]. left.
    right. eexists (theirs.1, 6), 7, (Ok 6). split; [by right|]. split; [reflexivity|].
    right. exists (theirs.1, 7). split; [by left|]. left. do 2 eexists. split; [vm_compute; reflexivity|]. left.
    right. by split.
  - vm_compute. reflexivity.
Qed.
